(* ===== verification/_CoqProject ===== *)
-Q . S2P
Prelude.v
Handle.v
FrameAlloc.v
Shm.v
Pipe.v
Channel.v
FileLock.v
BlockCache.v
Vma.v
Signal.v
Ip.v
Arp.v
Route.v
TcpSegment.v
Tcp.v
TcpProofs.v
Udp.v
Fragment.v
NetStack.v
TcpTransfer.v
RustStr.v
Vfs.v
Ramfs.v
RamfsProofs.v
FsSyscalls.v
FsProofs.v
Bytes.v
Loop.v
PhysMem.v
Initrd.v
Dns.v
DnsProofs.v
Elf.v
ElfProofs.v
Paging.v
PagingProofs.v
Exec.v
Sched.v
SyscallEntry.v
Process.v
Ipc.v
SchedProofs.v
ProcessProofs.v
IpcProofs.v
Scenario.v
Ext2.v
Ext2Store.v
Ext2Cache.v
Ext2Disk.v
Ext2Alloc.v
Ext2Tree.v
Ext2Map.v
Ext2Files.v
Ext2Sample.v
Ext2Proofs.v
Dhcp.v
DhcpProofs.v
Pthreads.v
PthreadsProofs.v
Coreutils.v
Decimal.v
FactorProofs.v
CksumProofs.v
SortProofs.v
TsortProofs.v
Digest.v
DigestProofs.v
DigestStream.v
