(* ===== verification/Prelude.v ===== *)
(** * OpenOS kernel verification library

    OpenOS is a small operating system in Rust. This library models the parts
    of its kernel (src/kernel/src/) that can be stated without hardware, and
    some of its user programs (src/user/), and proves what they promise to each
    other and to their users.

    ** The parts and how they interact

    A task reaches the kernel through the SYSCALL entry
    (arch/x86_64/syscall.rs) and a dispatcher of system calls
    (syscall/mod.rs). The scheduler (task/scheduler.rs) holds the tasks in run
    queues, one per CPU, and a queue of blocked ones. Kernel objects are named
    by handles in a table per task (handle.rs); tasks talk through pipes,
    channels and shared memory (ipc/), lock files (fs/file_lock.rs) and receive
    signals (task/signal.rs). Physical frames come from one allocator
    (frame_alloc.rs); an address space is a tree of page tables
    (memory/pagetable.rs, task/user.rs) with a list of areas (memory/vma.rs),
    into which the ELF loader (elf.rs) puts a program, from a file or from the
    initial ramdisk (initrd.rs), which tools/mkinitrd builds. Paths are
    resolved by a mount table (fs/vfs.rs) to file systems; the root is an
    in-memory one (fs/ramfs.rs), and an ext2 disk (fs/ext2.rs) is accessed
    through a sector cache (fs/block_cache.rs) over block devices
    (drivers/block.rs). Frames of the
    network card (drivers/net.rs) are dispatched by net/mod.rs to ARP, ICMP,
    reassembly (net/fragment.rs), UDP (net/udp.rs) and TCP (net/tcp.rs); names
    are resolved over UDP (net/dns.rs), and a DHCP client (net/dhcp.rs)
    configures the addresses. User programs share memory between threads through
    a thread library (user/pthreads); the utilities (user/coreutils) read a file
    and print a result.

    ** Files of the library

    - [Prelude]: panics ([outcome]), [Result], machine-width arithmetic under
      the two build profiles (overflow checks on or off), indexing and slicing
      as Rust does them, and shared lemmas. [Loop]: [for] and [while] loops.
      [RustStr]: strings and UTF-8. [Bytes]: little-endian integers. [PhysMem]:
      physical memory.
    - [Handle]: handle.rs. [FrameAlloc]: frame_alloc.rs. [Shm]: ipc/shm.rs over
      the interface of the frame allocator. [Pipe]: ipc/pipe.rs. [Channel]:
      ipc/mod.rs. [FileLock]: fs/file_lock.rs. [BlockCache]: drivers/block.rs
      and fs/block_cache.rs. [Vma]: memory/vma.rs and [sys_brk]. [Signal]:
      task/signal.rs and the signal system calls on one task.
    - [Ip]: headers and checksum of net/mod.rs. [Arp]: ARP, ICMP echo and the
      device interface. [Route]: the routing table. [TcpSegment], [Tcp]:
      net/tcp.rs, with its invariant and state machine in [TcpProofs]. [Udp]:
      net/udp.rs. [Fragment]: net/fragment.rs and the IPv4 part of the frame
      dispatcher. [NetStack]: the dispatcher over all of them. [TcpTransfer]:
      transfer of data between two hosts. [Dns]: net/dns.rs, with its
      properties in [DnsProofs]. [Dhcp]: net/dhcp.rs, with its properties in
      [DhcpProofs].
    - [Vfs]: the [FileSystem] trait and the mount table. [Ramfs]: fs/ramfs.rs,
      an instance of the trait, with its properties in [RamfsProofs].
      [FsSyscalls]: the calls on paths and descriptors, over any instance,
      with their properties in [FsProofs].
    - [Ext2]: fs/ext2.rs, as programs of sector accesses that run over the disk
      or over the cache, and an instance of the trait. [Ext2Store]: a Hoare
      logic for such programs, and the cache as a store. [Ext2Cache]: the room a
      program needs in the cache. [Ext2Disk], [Ext2Alloc], [Ext2Tree],
      [Ext2Map], [Ext2Files]: blocks, bitmaps, trees of indirect blocks, block
      maps and files of a well-formed disk. [Ext2Sample]: a disk. [Ext2Proofs]:
      the properties.
    - [Initrd]: the archive, as the tool writes it and as initrd.rs reads it.
      [Elf]: elf.rs over the interfaces [FrameSource] and [PageMapper], with
      its properties in [ElfProofs]. [Paging]: memory/pagetable.rs and
      task/user.rs, with their properties in [PagingProofs]. [Exec]: the page
      tables and the frame allocator as instances of those interfaces, and
      programs in their address spaces.
    - [Sched]: task/scheduler.rs and task/task.rs. [SyscallEntry]: the entry
      stub, the capture of a context and the timer tick. [Process]: the calls
      on processes, threads and signals of tasks. [Ipc]: those on channels,
      handles, events and names. Their properties are in [SchedProofs],
      [ProcessProofs] and [IpcProofs], and [Scenario] applies them to a machine
      with two tasks.
    - [Pthreads]: the locks, barriers and keys of user/pthreads/src/lib.rs as
      interleavings of atomic steps, with their properties in [PthreadsProofs].
    - [Coreutils]: factor, cksum, base64, base32, tsort, sort and uniq of
      user/coreutils/src. [Digest]: sha256sum, sha1sum, md5sum and b2sum. Their
      properties are in [FactorProofs], [CksumProofs], [SortProofs],
      [TsortProofs], [DigestProofs] and [DigestStream]; [Decimal] is about the
      numbers they print.

    The statics of a source file are the fields of one record; a function that
    holds a lock for its whole body is one transformer of that record. Code
    that can panic returns an [outcome]. Traits are type classes; what a client
    may rely on from an implementation outside the sources (a block device, a
    network card, the page table entries of the x86_64 crate) is a class of
    laws with a concrete instance in the witnesses. The CPU, its page table
    register and the contents of user memory are arguments of the system calls
    that use them.

    ** What the theorems show

    - Files: bytes written through a descriptor are read back, from user memory
      to user memory; the table of the in-memory file system stays a
      well-formed forest; creating and unlinking is the identity; two write
      paths agree; descriptors handed out are fresh; path resolution is
      longest prefix; the kernel reads the ramdisk the build tool wrote. A write
      to a file of an ext2 disk is read back and leaves every other file as it
      was, also through the sector cache when it has room, and how much room it
      has.
    - Network: two hosts complete a TCP handshake and transfer a byte string
      of any length in order; no packet panics TCP or breaks its invariant, and
      every change of state is an edge of the protocol's diagram; headers and
      datagrams round-trip; lookup of a route is longest prefix match;
      fragments reassemble; the reassembly cache is bounded; a name resolves to
      the address its server answers, and which responses panic the parser; a
      DHCP client gets the lease its server grants, and ends without a panic
      whatever the network delivers.
    - Memory and objects: the frame allocator refines a set of free frames;
      mapping and unmapping a page change the translation of that page alone
      and give back the tables that become empty; the search for free pages
      finds the first run; shared segments never overlap; areas stay disjoint;
      stale handles are refused; the block cache refines the device it caches;
      locks exclude each other and refine a lock per inode; pipes are FIFO
      queues and channels follow their call protocol; signals drain in order.
    - Tasks: a task is in one queue at a time, whatever the operations; a
      blocked task stays blocked until it is woken; a message wakes the task
      that waits for it; a started process begins at the entry point of its
      program with the program's bytes behind its page table; a system call
      returns to its caller with the registers the entry stub preserves.
    - User programs: mutexes and read-write locks exclude however threads
      interleave, and nobody leaves a barrier early; the digests are those of the
      standards and the checksum that of the bit-serial definition, whatever
      pieces a file is read in; factor prints the prime factorisation; tsort
      prints a topological order and reports exactly the cycles; sort sorts.
    - Faults the code has, each as a theorem about the calls that show it:
      among them a kernel panic from closing a pipe descriptor, a send loop
      that never ends when the peer closes its window, a sleep that parks every
      task, a wait that does not see its child end, an exiting thread that
      frees a page table in use, a server that a call does not wake, and rights
      that a program can set in its own handles.

    ** Bounds

    The folding loop of the Internet checksum runs [CHECKSUM_FOLDS] = 3 times,
    enough for any packet of 64 KiB. [send_data] takes as fuel one more than
    the number of bytes: a pass that makes progress sends at least one. The
    search for a local port visits each of the [EPHEMERAL_PORTS] once, and that
    for a descriptor each number below [FD_LIMIT]. The loops of ext2 over the
    bytes of a block or a request have one turn more than there are bytes, since
    each turn consumes at least one, and the loops over the blocks of a directory
    [LOOP_FUEL] = [2 ^ 33] turns, more than a 32-bit counter of blocks has values.
    A [while] loop of a utility has [FOREVER] = [2 ^ 65] turns, and [while_spec]
    shows with a measure below that number that it ends. A loop that waits for the
    timer, the network card or another task takes what it observes at each turn
    as an argument, with fuel for the number of turns; its theorems hold for
    every fuel or say how many turns suffice.

    ** What is not modelled

    Device registers, interrupt controllers and the boot sequence, whose
    effects are not in the sources; the kernel heap; kernel modules; procfs and
    devfs; IPv6 and sockets; the dispatch of system calls by number, and those
    on time, memory mappings, sockets and devices; the shell and the other user
    programs, which are thin layers over system calls. Interleaving inside a
    system call is modelled only where the call waits; page faults on user memory, the invalidation of translation caches
    and serial-port messages are not. *)

From Stdlib Require Export ZArith Lia Bool.
From stdpp Require Export base tactics list list_numbers gmap numbers option.

#[export] Set Default Goal Selector "!".
Declare Scope mword_scope.
Delimit Scope mword_scope with mw.
Create HintDb openos.

Open Scope Z_scope.

#[global] Arguments Z.land : simpl never.
#[global] Arguments Z.lor : simpl never.
#[global] Arguments Z.lxor : simpl never.
#[global] Arguments Z.ldiff : simpl never.
#[global] Arguments Z.shiftl : simpl never.
#[global] Arguments Z.shiftr : simpl never.
#[global] Arguments Z.testbit : simpl never.

(** ** Panics and results

    The kernel is built with [panic = "abort"]: a failed [assert!], an index
    out of range or (with overflow checks on) an arithmetic overflow stops the
    machine.  [outcome] is the type of a computation that may do so. *)

Inductive outcome (A : Type) : Type :=
| Ret (a : A)
| Panic.
Arguments Ret {A} _.
Arguments Panic {A}.

#[export] Instance outcome_ret : MRet outcome := @Ret.
#[export] Instance outcome_bind : MBind outcome :=
  λ A B f m, match m with Ret a => f a | Panic => Panic end.

#[export] Instance outcome_fmap : FMap outcome :=
  λ A B f m, match m with Ret a => Ret (f a) | Panic => Panic end.

(** Rust's [Result<T, E>]. *)
Inductive result (T E : Type) : Type :=
| Ok (v : T)
| Err (e : E).
Arguments Ok {T E} _.
Arguments Err {T E} _.

Definition is_ok {T E} (r : result T E) : bool :=
  match r with Ok _ => true | Err _ => false end.

(** [assert!(b)]. *)
Definition rust_assert (b : bool) : outcome unit :=
  if b then Ret tt else Panic.

(** ** Machine integers

    A [w]-bit unsigned integer is a [Z] in [0, 2^w).  The two build profiles of
    the workspace differ on overflow: [dev] panics, [release] wraps.  Every
    operation that can overflow takes the profile from the class, so a theorem
    stated for all profiles covers both builds. *)
Class BuildProfile : Type := overflow_checks : bool.

Definition dev_profile : BuildProfile := true.
Definition release_profile : BuildProfile := false.

Definition u8_max : Z := 2 ^ 8 - 1.
Definition u16_max : Z := 2 ^ 16 - 1.
Definition u32_max : Z := 2 ^ 32 - 1.
Definition u64_max : Z := 2 ^ 64 - 1.

Definition is_uint (w x : Z) : Prop := 0 ≤ x < 2 ^ w.
Definition is_byte (b : Z) : Prop := is_uint 8 b.
#[export] Instance is_uint_dec w x : Decision (is_uint w x).
Proof. unfold is_uint. apply _. Defined.

Definition wrap (w x : Z) : Z := x mod 2 ^ w.

Definition arith `{BuildProfile} (w x : Z) : outcome Z :=
  if (0 <=? x) && (x <? 2 ^ w) then Ret x
  else if overflow_checks then Panic else Ret (wrap w x).

Definition add64 `{BuildProfile} (a b : Z) : outcome Z := arith 64 (a + b).
Definition sub64 `{BuildProfile} (a b : Z) : outcome Z := arith 64 (a - b).
Definition mul64 `{BuildProfile} (a b : Z) : outcome Z := arith 64 (a * b).
Definition add32 `{BuildProfile} (a b : Z) : outcome Z := arith 32 (a + b).
Definition sub32 `{BuildProfile} (a b : Z) : outcome Z := arith 32 (a - b).

(** The operations that never panic: [wrapping_add], [saturating_add],
    [saturating_sub], [as] casts to a narrower type and [!x]. *)
Definition wrapping_add (w a b : Z) : Z := wrap w (a + b).
Definition saturating_add (w a b : Z) : Z := Z.min (a + b) (2 ^ w - 1).
Definition saturating_sub (a b : Z) : Z := Z.max (a - b) 0.
Definition cast (w x : Z) : Z := wrap w x.
Definition unot (w x : Z) : Z := 2 ^ w - 1 - x.
Definition div_ceil (a b : Z) : Z := (a + b - 1) `div` b.

(** Checked indexing [v[i]] and slicing [v[a..b]] with [usize] arguments. *)
Definition index {A} (l : list A) (i : Z) : outcome A :=
  if 0 <=? i then match l !! Z.to_nat i with Some x => Ret x | None => Panic end
  else Panic.

Definition slice {A} (l : list A) (a b : Z) : outcome (list A) :=
  if (0 <=? a) && (a <=? b) && (b <=? Z.of_nat (length l))
  then Ret (take (Z.to_nat (b - a)) (drop (Z.to_nat a) l)) else Panic.

Definition len {A} (l : list A) : Z := Z.of_nat (length l).

(** Checked assignment [v[i] = x] and [v[a..b].copy_from_slice(src)]. *)
Definition store {A} (l : list A) (i : Z) (x : A) : outcome (list A) :=
  if (0 <=? i) && (i <? len l) then Ret (<[Z.to_nat i := x]> l) else Panic.

Definition copy_into {A} (l : list A) (a b : Z) (src : list A) : outcome (list A) :=
  if (0 <=? a) && (a <=? b) && (b <=? len l) && (len src =? b - a)
  then Ret (take (Z.to_nat a) l ++ src ++ drop (Z.to_nat b) l) else Panic.

(** ** Lemmas on outcomes *)

Lemma bind_ret {A B} (m : outcome A) (f : A → outcome B) b :
  m ≫= f = Ret b ↔ ∃ a, m = Ret a ∧ f a = Ret b.
Proof.
  destruct m as [a|]; simpl; split; [eauto | by intros (? & [= <-] & ?) | done |].
  by intros (? & ? & ?).
Qed.

Lemma arith_ok `{BuildProfile} w x : is_uint w x → arith w x = Ret x.
Proof.
  intros [H1 H2]. unfold arith.
  by rewrite (proj2 (Z.leb_le 0 x) H1), (proj2 (Z.ltb_lt x (2 ^ w)) H2).
Qed.

Lemma arith_range `{BuildProfile} w x y : 0 ≤ w → arith w x = Ret y → is_uint w y.
Proof.
  intros Hw. unfold arith, wrap, is_uint.
  destruct ((0 <=? x) && (x <? 2 ^ w)) eqn:E.
  - intros [= <-]. apply andb_true_iff in E as [?%Z.leb_le ?%Z.ltb_lt]. lia.
  - destruct overflow_checks; [done | intros [= <-]].
    apply Z.mod_pos_bound, Z.pow_pos_nonneg; lia.
Qed.

Lemma arith_wrap `{BuildProfile} w x y : arith w x = Ret y → y = wrap w x.
Proof.
  unfold arith, wrap. destruct ((0 <=? x) && (x <? 2 ^ w)) eqn:E.
  - intros [= <-]. apply andb_true_iff in E as [?%Z.leb_le ?%Z.ltb_lt].
    by rewrite Z.mod_small.
  - destruct overflow_checks; congruence.
Qed.

Lemma add64_ok `{BuildProfile} a b : is_uint 64 (a + b) → add64 a b = Ret (a + b).
Proof. apply arith_ok. Qed.
Lemma sub64_ok `{BuildProfile} a b : is_uint 64 (a - b) → sub64 a b = Ret (a - b).
Proof. apply arith_ok. Qed.
Lemma mul64_ok `{BuildProfile} a b : is_uint 64 (a * b) → mul64 a b = Ret (a * b).
Proof. apply arith_ok. Qed.
Lemma add32_ok `{BuildProfile} a b : is_uint 32 (a + b) → add32 a b = Ret (a + b).
Proof. apply arith_ok. Qed.
Lemma sub32_ok `{BuildProfile} a b : is_uint 32 (a - b) → sub32 a b = Ret (a - b).
Proof. apply arith_ok. Qed.

Lemma index_Ret {A} (l : list A) i x :
  index l i = Ret x ↔ 0 ≤ i ∧ l !! Z.to_nat i = Some x.
Proof.
  unfold index. destruct (Z.leb_spec 0 i); [|split; [done | lia]].
  destruct (l !! Z.to_nat i) as [y|]; split.
  - intros [= ->]. done.
  - by intros [_ [= ->]].
  - done.
  - by intros [_ ?].
Qed.

Lemma index_lookup {A} (l : list A) i x :
  0 ≤ i → l !! Z.to_nat i = Some x → index l i = Ret x.
Proof. intros. by apply index_Ret. Qed.

Lemma len_app {A} (l l' : list A) : len (l ++ l') = len l + len l'.
Proof. unfold len. rewrite length_app. lia. Qed.

Lemma len_cons {A} (x : A) (l : list A) : len (x :: l) = 1 + len l.
Proof. unfold len. simpl. lia. Qed.

Lemma index_ok {A} (l : list A) i : 0 ≤ i < len l → ∃ x, index l i = Ret x ∧ x ∈ l.
Proof.
  intros Hi. unfold index. rewrite (proj2 (Z.leb_le _ _)) by lia. destruct (lookup_lt_is_Some_2 l (Z.to_nat i)) as [x Hx]; [unfold len in Hi; lia|].
  rewrite Hx. exists x. split; [done|]. by eapply list_elem_of_lookup_2.
Qed.

Lemma slice_ok {A} (l : list A) a b :
  0 ≤ a → a ≤ b → b ≤ len l →
  slice l a b = Ret (take (Z.to_nat (b - a)) (drop (Z.to_nat a) l)).
Proof.
  unfold len. intros. unfold slice.
  repeat (rewrite (proj2 (Z.leb_le _ _)); [|lia]). done.
Qed.

Lemma store_ok {A} (l : list A) i x : 0 ≤ i < len l → store l i x = Ret (<[Z.to_nat i := x]> l).
Proof.
  intros Hi. unfold store. by rewrite (proj2 (Z.leb_le 0 i)), (proj2 (Z.ltb_lt i _)) by lia.
Qed.

Lemma store_app_l {A} (h t : list A) i x :
  0 ≤ i < len h → store (h ++ t) i x = Ret (<[Z.to_nat i := x]> h ++ t).
Proof.
  intros Hi. rewrite store_ok by (unfold len in *; rewrite length_app; lia).
  by rewrite insert_app_l by (unfold len in *; lia).
Qed.

Lemma copy_into_ok {A} (l : list A) a b src :
  0 ≤ a ≤ b → b ≤ len l → len src = b - a →
  copy_into l a b src = Ret (take (Z.to_nat a) l ++ src ++ drop (Z.to_nat b) l).
Proof.
  intros Ha Hb Hs. unfold copy_into. rewrite !(proj2 (Z.leb_le _ _)) by lia.
  by rewrite (proj2 (Z.eqb_eq _ _) Hs).
Qed.

Lemma slice_tail {A} (l : list A) a : 0 ≤ a ≤ len l → slice l a (len l) = Ret (drop (Z.to_nat a) l).
Proof.
  intros Ha. rewrite slice_ok by lia. f_equal. apply take_ge. unfold len in *. rewrite length_drop. lia.
Qed.

Lemma copy_into_tail {A} (l : list A) a src :
  0 ≤ a → len src = len l - a → copy_into l a (len l) src = Ret (take (Z.to_nat a) l ++ src).
Proof.
  intros Ha Hs. rewrite copy_into_ok by (unfold len in *; lia). do 2 f_equal.
  rewrite drop_ge by (unfold len; lia). by rewrite app_nil_r.
Qed.

Lemma Forall_filtered {A} (P : A → Prop) (Q : A → Prop) `{∀ x, Decision (Q x)} (l : list A) :
  Forall P l → Forall P (filter Q l).
Proof. rewrite !list.Forall_forall. intros Hl x [_ Hx]%list_elem_of_filter. by apply Hl. Qed.

(** ** Bit lemmas *)

Lemma land_mask (x k : Z) : 0 ≤ k → Z.land x (2 ^ k - 1) = x mod 2 ^ k.
Proof. intros. rewrite <-Z.land_ones by lia. by rewrite Z.ones_equiv, Z.sub_1_r. Qed.

Lemma land_range (x k : Z) : 0 ≤ k → is_uint k (Z.land x (2 ^ k - 1)).
Proof. intros. rewrite land_mask by done. apply Z.mod_pos_bound; lia. Qed.

Lemma testbit_above (w x n : Z) : is_uint w x → w ≤ n → Z.testbit x n = false.
Proof.
  intros [Hx1 Hx2] Hn. destruct (decide (0 ≤ w)).
  - destruct (decide (x = 0)) as [->|]; [apply Z.bits_0|].
    apply Z.bits_above_log2; [lia|]. apply Z.log2_lt_pow2; [lia|].
    eapply Z.lt_le_trans; [exact Hx2|]. apply Z.pow_le_mono_r; lia.
  - rewrite Z.pow_neg_r in Hx2; lia.
Qed.

Lemma unot_lnot w x : 0 ≤ w → is_uint w x → unot w x = Z.ldiff (Z.ones w) x.
Proof.
  intros Hw Hx. unfold unot. rewrite <-Z.sub_nocarry_ldiff.
  - rewrite Z.ones_equiv. lia.
  - apply Z.bits_inj'. intros n Hn. rewrite Z.ldiff_spec, Z.bits_0.
    destruct (decide (n < w)).
    + rewrite Z.ones_spec_low by lia. apply andb_false_r.
    + by rewrite (testbit_above w x n) by (done || lia).
Qed.

Lemma testbit_unot w x n :
  is_uint w x → 0 ≤ n < w → Z.testbit (unot w x) n = negb (Z.testbit x n).
Proof.
  intros Hx Hn. rewrite unot_lnot by (done || lia).
  rewrite Z.ldiff_spec, Z.ones_spec_low by lia. done.
Qed.

(** [x & !(2^k - 1)] rounds down to a multiple of [2^k]. *)
Lemma land_align_down w x k :
  is_uint w x → 0 ≤ k ≤ w →
  Z.land x (unot w (2 ^ k - 1)) = x - x mod 2 ^ k.
Proof.
  intros Hx Hk.
  assert (is_uint w (2 ^ k - 1)) as Hu.
  { split; [assert (0 < 2 ^ k) by (apply Z.pow_pos_nonneg; lia); lia|].
    assert (2 ^ k ≤ 2 ^ w) by (apply Z.pow_le_mono_r; lia). lia. }
  rewrite unot_lnot by (done || lia).
  rewrite <-land_mask by lia.
  rewrite (Z.sub_nocarry_ldiff x (Z.land x (2 ^ k - 1))).
  - apply Z.bits_inj'. intros n Hn.
    rewrite Z.land_spec, !Z.ldiff_spec, Z.land_spec.
    destruct (decide (n < w)).
    + rewrite Z.ones_spec_low by lia. by destruct (Z.testbit x n).
    + by rewrite (testbit_above w x n) by (done || lia).
  - apply Z.bits_inj'. intros n Hn. rewrite Z.ldiff_spec, Z.land_spec, Z.bits_0.
    by destruct (Z.testbit x n); simpl; rewrite ?andb_false_r.
Qed.

(** A field placed above a [k]-bit field by [|] and [<<] is an addition. *)
Lemma lor_shiftl_add (a b k : Z) :
  0 ≤ k → is_uint k a → Z.lor a (Z.shiftl b k) = a + b * 2 ^ k.
Proof.
  intros Hk Ha. rewrite <-Z.add_nocarry_lor; [by rewrite Z.shiftl_mul_pow2|].
  apply Z.bits_inj'. intros n Hn. rewrite Z.land_spec, Z.bits_0.
  destruct (decide (n < k)).
  - rewrite Z.shiftl_spec_low by lia. apply andb_false_r.
  - by rewrite (testbit_above k a n) by (done || lia).
Qed.

Lemma shiftr_land_mask (x k w : Z) :
  0 ≤ k → 0 ≤ w → Z.land (Z.shiftr x k) (2 ^ w - 1) = (x `div` 2 ^ k) mod 2 ^ w.
Proof. intros. by rewrite land_mask, Z.shiftr_div_pow2. Qed.

(** ** Single-bit tests and updates *)

Lemma is_uint_bits (w x : Z) :
  0 ≤ w → 0 ≤ x → (∀ n, w ≤ n → Z.testbit x n = false) → is_uint w x.
Proof.
  intros Hw Hx Hb. split; [done|].
  destruct (decide (x = 0)) as [->|Hne]; [by apply Z.pow_pos_nonneg|].
  apply Z.log2_lt_pow2; [lia|].
  destruct (decide (Z.log2 x < w)) as [|Hge]; [done|].
  pose proof (Z.bit_log2 x ltac:(lia)) as Hbit. rewrite Hb in Hbit by lia. done.
Qed.

Lemma is_uint_land_l w x y : 0 ≤ w → is_uint w x → is_uint w (Z.land x y).
Proof.
  intros Hw Hx. apply is_uint_bits; [done | apply Z.land_nonneg; left; apply Hx |].
  intros n Hn. rewrite Z.land_spec. by rewrite (testbit_above w x n).
Qed.

Lemma is_uint_lor w x y : 0 ≤ w → is_uint w x → is_uint w y → is_uint w (Z.lor x y).
Proof.
  intros Hw Hx Hy. apply is_uint_bits; [done | apply Z.lor_nonneg; split; [apply Hx|apply Hy] |].
  intros n Hn. rewrite Z.lor_spec. by rewrite (testbit_above w x n), (testbit_above w y n).
Qed.

Lemma is_uint_shiftl1 w b : 0 ≤ b < w → is_uint w (Z.shiftl 1 b).
Proof.
  intros Hb. rewrite Z.shiftl_1_l. split; [apply Z.pow_nonneg; lia|].
  apply Z.pow_lt_mono_r; lia.
Qed.

Lemma testbit_shiftl1 b n : 0 ≤ b → 0 ≤ n → Z.testbit (Z.shiftl 1 b) n = (n =? b).
Proof.
  intros Hb Hn. rewrite Z.shiftl_1_l, Z.pow2_bits_eqb by done. apply Z.eqb_sym.
Qed.

Lemma land_shiftl1_eqb x b :
  0 ≤ b → (Z.land x (Z.shiftl 1 b) =? 0) = negb (Z.testbit x b).
Proof.
  intros Hb. apply eq_true_iff_eq. rewrite Z.eqb_eq, negb_true_iff. split.
  - intros Hz. apply (f_equal (λ z, Z.testbit z b)) in Hz.
    rewrite Z.land_spec, testbit_shiftl1, Z.eqb_refl, Z.bits_0, andb_true_r in Hz by done.
    done.
  - intros Hx. apply Z.bits_inj'. intros n Hn.
    rewrite Z.land_spec, testbit_shiftl1, Z.bits_0 by done.
    destruct (Z.eqb_spec n b) as [->|]; [by rewrite Hx | apply andb_false_r].
Qed.

Lemma testbit_set x b n :
  0 ≤ b → 0 ≤ n → Z.testbit (Z.lor x (Z.shiftl 1 b)) n = Z.testbit x n || (n =? b).
Proof. intros. by rewrite Z.lor_spec, testbit_shiftl1. Qed.

Lemma testbit_clear w x b n :
  is_uint w x → 0 ≤ b < w → 0 ≤ n →
  Z.testbit (Z.land x (unot w (Z.shiftl 1 b))) n = Z.testbit x n && negb (n =? b).
Proof.
  intros Hx Hb Hn. rewrite Z.land_spec. destruct (decide (n < w)).
  - rewrite testbit_unot by (done || by apply is_uint_shiftl1).
    by rewrite testbit_shiftl1 by lia.
  - by rewrite (testbit_above w x n) by (done || lia).
Qed.

(** Setting a clear bit and clearing it again gives the word back. *)
Lemma set_clear_bit w x b :
  is_uint w x → 0 ≤ b < w → Z.testbit x b = false →
  Z.land (Z.lor x (Z.shiftl 1 b)) (unot w (Z.shiftl 1 b)) = x.
Proof.
  intros Hx Hb Hbit. apply Z.bits_inj'. intros n Hn.
  rewrite testbit_clear, testbit_set; [|lia|done| |lia|done].
  - destruct (Z.eqb_spec n b) as [->|]; [by rewrite Hbit|].
    by rewrite orb_false_r, andb_true_r.
  - apply is_uint_lor; [lia|done|by apply is_uint_shiftl1].
Qed.

#[export] Hint Resolve arith_ok add64_ok sub64_ok mul64_ok add32_ok sub32_ok : openos.

(** Split the [outcome] binds of a hypothesis [H : m ≫= f = Ret b]. *)
Ltac outcome_inv H :=
  repeat match type of H with
  | (_ ≫= _) = Ret _ =>
      let a := fresh "a" in let Ha := fresh "Ha" in
      apply bind_ret in H as (a & Ha & H)
  end.
