(* ===== verification/Handle.v ===== *)
(** * Handles: the capability layer (kernel/src/handle.rs)

    Rights are a 10-bit mask, a handle packs slot, rights and generation in one
    64-bit word, and a per-task [HandleTable] maps slots to kernel objects.  An
    [Arc] is modelled by the location it points to, so cloning one copies the
    location. *)

From stdpp Require Import relations.
From S2P Require Import Prelude.

(** ** Rights *)

Definition Rights : Type := Z.

Definition Rights_READ : Rights := Z.shiftl 1 0.
Definition Rights_WRITE : Rights := Z.shiftl 1 1.
Definition Rights_EXECUTE : Rights := Z.shiftl 1 2.
Definition Rights_TRANSFER : Rights := Z.shiftl 1 3.
Definition Rights_DUPLICATE : Rights := Z.shiftl 1 4.
Definition Rights_SIGNAL : Rights := Z.shiftl 1 5.
Definition Rights_WAIT : Rights := Z.shiftl 1 6.
Definition Rights_DESTROY : Rights := Z.shiftl 1 7.
Definition Rights_MAP : Rights := Z.shiftl 1 8.
Definition Rights_CONFIGURE : Rights := Z.shiftl 1 9.
Definition Rights_NONE : Rights := 0.
Definition Rights_ALL : Rights := 0x3FF.
Definition Rights_IO : Rights := Z.lor Rights_READ Rights_WRITE.
Definition Rights_BASIC : Rights :=
  Z.lor (Z.lor (Z.lor Rights_TRANSFER Rights_DUPLICATE) Rights_WAIT) Rights_DESTROY.

Definition Rights_from_raw (raw : Z) : Rights := Z.land raw 0x3FF.
Definition Rights_contains (self other : Rights) : bool := Z.land self other =? other.
Definition Rights_intersect (self other : Rights) : Rights := Z.land self other.
Definition Rights_raw (self : Rights) : Z := self.

(** ** Handles *)

Definition Handle : Type := Z.

Definition Handle_new (slot_id : Z) (rights : Rights) (generation : Z) : Handle :=
  Z.lor
    (Z.lor (Z.land slot_id 0x0FFFFFFF)
       (Z.shiftl (Z.land (Rights_raw rights) 0x3FF) 28))
    (Z.shiftl (Z.land generation 0x03FFFFFF) 38).

Definition Handle_from_raw (raw : Z) : Handle := raw.
Definition Handle_slot_id (self : Handle) : Z := cast 32 (Z.land self 0x0FFFFFFF).
Definition Handle_rights (self : Handle) : Rights :=
  Rights_from_raw (cast 16 (Z.land (Z.shiftr self 28) 0x3FF)).
Definition Handle_generation (self : Handle) : Z :=
  cast 32 (Z.land (Z.shiftr self 38) 0x03FFFFFF).
Definition Handle_as_u64 (self : Handle) : Z := self.
Definition Handle_with_rights (self : Handle) (new_rights : Rights) : Handle :=
  Handle_new (Handle_slot_id self) (Rights_intersect (Handle_rights self) new_rights)
    (Handle_generation self).

#[global] Arguments Handle_new : simpl never.
#[global] Arguments Handle_slot_id : simpl never.
#[global] Arguments Handle_rights : simpl never.
#[global] Arguments Handle_generation : simpl never.

(** ** Kernel objects *)

Definition loc : Type := positive.

Inductive KernelObject : Type :=
| ChannelEndA (ch : loc)
| ChannelEndB (ch : loc)
| EventObj (ev : loc)
| IrqEventObj (ev : loc)
| FileObj (fh : loc)
| PipeReaderObj (pr : loc)
| PipeWriterObj (pw : loc).

#[export] Instance KernelObject_eq_dec : EqDecision KernelObject.
Proof. solve_decision. Defined.

Record FileHandle : Type := mkFileHandle {
  fh_name : list Z;
  fh_offset : Z;
  fh_flags : Z;
}.
Definition FileHandle_new (name : list Z) (flags : Z) : FileHandle :=
  mkFileHandle name 0 flags.

Record Event : Type := mkEvent { ev_signaled : bool }.
Definition Event_new : Event := mkEvent false.
Definition Event_signal (_ : Event) : Event := mkEvent true.
Definition Event_is_signaled (self : Event) : bool := ev_signaled self.
Definition Event_clear (_ : Event) : Event := mkEvent false.

Record IrqEvent : Type := mkIrqEvent {
  irq : Z;
  irq_signaled : bool;
  last_data : Z;
}.
Definition IrqEvent_new (n : Z) : IrqEvent := mkIrqEvent n false 0.
Definition IrqEvent_signal (self : IrqEvent) : IrqEvent :=
  mkIrqEvent (irq self) true (last_data self).
Definition IrqEvent_signal_with_data (self : IrqEvent) (data : Z) : IrqEvent :=
  mkIrqEvent (irq self) true data.
Definition IrqEvent_is_signaled (self : IrqEvent) : bool := irq_signaled self.
Definition IrqEvent_clear (self : IrqEvent) : IrqEvent :=
  mkIrqEvent (irq self) false (last_data self).

(** ** The handle table *)

Record HandleEntry : Type := mkHandleEntry {
  he_handle : Handle;
  he_object : KernelObject;
}.

Record HandleTable : Type := mkHandleTable {
  slots : gmap Z HandleEntry;
  next_slot : Z;
  generation : Z;
}.

Definition HandleTable_new : HandleTable := mkHandleTable ∅ 0 0.

Definition HandleTable_insert `{BuildProfile}
    (self : HandleTable) (object : KernelObject) (rights : Rights)
    : outcome (Handle * HandleTable) :=
  let slot_id := next_slot self in
  next ← add32 (next_slot self) 1;
  let gen := Z.land (generation self) 0x03FFFFFF in
  let generation' := wrapping_add 32 (generation self) 1 in
  let handle := Handle_new slot_id rights gen in
  mret (handle,
        mkHandleTable (<[slot_id := mkHandleEntry handle object]> (slots self))
          next generation').

Definition HandleTable_get (self : HandleTable) (handle : Handle) : option KernelObject :=
  match slots self !! Handle_slot_id handle with
  | Some entry =>
      if Handle_generation (he_handle entry) =? Handle_generation handle
      then Some (he_object entry) else None
  | None => None
  end.

Definition HandleTable_close (self : HandleTable) (handle : Handle) : bool * HandleTable :=
  let gen := Handle_generation handle in
  match slots self !! Handle_slot_id handle with
  | Some entry =>
      if Handle_generation (he_handle entry) =? gen
      then (true, mkHandleTable (delete (Handle_slot_id handle) (slots self))
                    (next_slot self) (generation self))
      else (false, self)
  | None => (false, self)
  end.

Definition HandleTable_close_all (self : HandleTable) : HandleTable :=
  mkHandleTable ∅ (next_slot self) (generation self).

(** [Arc::clone] of the reference inside an object: the same location. *)
Definition clone_object (o : KernelObject) : KernelObject :=
  match o with
  | ChannelEndA ch => ChannelEndA ch
  | ChannelEndB ch => ChannelEndB ch
  | EventObj ev => EventObj ev
  | IrqEventObj ev => IrqEventObj ev
  | FileObj fh => FileObj fh
  | PipeReaderObj pr => PipeReaderObj pr
  | PipeWriterObj pw => PipeWriterObj pw
  end.

Definition HandleTable_duplicate `{BuildProfile}
    (self : HandleTable) (handle : Handle) (new_rights : Rights)
    : outcome (option Handle * HandleTable) :=
  if negb (Rights_contains (Handle_rights handle) Rights_DUPLICATE)
  then mret (None, self)
  else match slots self !! Handle_slot_id handle with
  | None => mret (None, self)
  | Some entry =>
      if negb (Handle_generation (he_handle entry) =? Handle_generation handle)
      then mret (None, self)
      else
        let object := clone_object (he_object entry) in
        let slot_id := next_slot self in
        next ← add32 (next_slot self) 1;
        let gen := Z.land (generation self) 0x03FFFFFF in
        let generation' := wrapping_add 32 (generation self) 1 in
        let new_handle :=
          Handle_new slot_id (Rights_intersect (Handle_rights handle) new_rights) gen in
        mret (Some new_handle,
              mkHandleTable (<[slot_id := mkHandleEntry new_handle object]> (slots self))
                next generation')
  end.

(** ** The packing of a handle *)

Lemma Handle_new_eq s r g :
  Handle_new s r g = s mod 2 ^ 28 + (r mod 2 ^ 10) * 2 ^ 28 + (g mod 2 ^ 26) * 2 ^ 38.
Proof.
  unfold Handle_new, Rights_raw.
  change 0x0FFFFFFF with (2 ^ 28 - 1). change 0x3FF with (2 ^ 10 - 1).
  change 0x03FFFFFF with (2 ^ 26 - 1). rewrite !land_mask by lia.
  assert (is_uint 28 (s mod 2 ^ 28)) by (apply Z.mod_pos_bound; lia).
  assert (is_uint 10 (r mod 2 ^ 10)) by (apply Z.mod_pos_bound; lia).
  rewrite (lor_shiftl_add _ _ 28) by (done || lia).
  rewrite (lor_shiftl_add _ _ 38); [done | lia |]. unfold is_uint in *. lia.
Qed.

Lemma Handle_slot_id_eq h : Handle_slot_id h = h mod 2 ^ 28.
Proof.
  unfold Handle_slot_id, cast, wrap. change 0x0FFFFFFF with (2 ^ 28 - 1).
  rewrite land_mask by lia. apply Z.mod_small.
  pose proof (Z.mod_pos_bound h (2 ^ 28)). lia.
Qed.

Lemma Handle_rights_eq h : Handle_rights h = (h `div` 2 ^ 28) mod 2 ^ 10.
Proof.
  unfold Handle_rights, Rights_from_raw, cast, wrap. change 0x3FF with (2 ^ 10 - 1).
  rewrite shiftr_land_mask, land_mask by lia.
  pose proof (Z.mod_pos_bound (h `div` 2 ^ 28) (2 ^ 10)).
  rewrite (Z.mod_small _ (2 ^ 16)) by lia. apply Z.mod_small. lia.
Qed.

Lemma Handle_generation_eq h : Handle_generation h = (h `div` 2 ^ 38) mod 2 ^ 26.
Proof.
  unfold Handle_generation, cast, wrap. change 0x03FFFFFF with (2 ^ 26 - 1).
  rewrite shiftr_land_mask by lia. apply Z.mod_small.
  pose proof (Z.mod_pos_bound (h `div` 2 ^ 38) (2 ^ 26)). lia.
Qed.

Create Rewrite HintDb handle.
#[export] Hint Rewrite Handle_new_eq Handle_slot_id_eq Handle_rights_eq
  Handle_generation_eq : handle.

(** Solve an equation between handle fields by linear arithmetic. *)
Ltac handle_arith :=
  autorewrite with handle; Z.div_mod_to_equations; lia.

Lemma slot_id_new s r g : Handle_slot_id (Handle_new s r g) = s mod 2 ^ 28.
Proof. handle_arith. Qed.
Lemma rights_new s r g : Handle_rights (Handle_new s r g) = r mod 2 ^ 10.
Proof. handle_arith. Qed.
Lemma generation_new s r g : Handle_generation (Handle_new s r g) = g mod 2 ^ 26.
Proof. handle_arith. Qed.

Lemma Handle_new_uint s r g : is_uint 64 (Handle_new s r g).
Proof. unfold is_uint. handle_arith. Qed.

Lemma Handle_rights_uint h : is_uint 10 (Handle_rights h).
Proof. rewrite Handle_rights_eq. apply Z.mod_pos_bound. lia. Qed.

Lemma Handle_new_fields h :
  is_uint 64 h →
  Handle_new (Handle_slot_id h) (Handle_rights h) (Handle_generation h) = h.
Proof. unfold is_uint. intros. handle_arith. Qed.

(** ** Rights form a lattice under [intersect] *)

Lemma Rights_contains_spec a b :
  Rights_contains a b = true ↔
  ∀ n, 0 ≤ n → Z.testbit b n = true → Z.testbit a n = true.
Proof.
  unfold Rights_contains. rewrite Z.eqb_eq. split.
  - intros Hab n _ Hb. rewrite <-Hab, Z.land_spec in Hb. by apply andb_true_iff in Hb as [? _].
  - intros Hab. apply Z.bits_inj'. intros n Hn. rewrite Z.land_spec.
    destruct (Z.testbit b n) eqn:Hb; [|apply andb_false_r].
    by rewrite (Hab n Hn Hb).
Qed.

Lemma Rights_contains_refl a : Rights_contains a a = true.
Proof. by apply Rights_contains_spec. Qed.

Lemma Rights_contains_trans a b c :
  Rights_contains a b = true → Rights_contains b c = true → Rights_contains a c = true.
Proof. rewrite !Rights_contains_spec. auto. Qed.

Lemma Rights_intersect_l a b : Rights_contains a (Rights_intersect a b) = true.
Proof.
  apply Rights_contains_spec. intros n _. unfold Rights_intersect.
  rewrite Z.land_spec. by intros [? _]%andb_true_iff.
Qed.

Lemma Rights_intersect_r a b : Rights_contains b (Rights_intersect a b) = true.
Proof. unfold Rights_intersect. rewrite Z.land_comm. apply Rights_intersect_l. Qed.

Lemma Rights_intersect_uint a b : is_uint 10 a → is_uint 10 (Rights_intersect a b).
Proof.
  intros Ha. unfold Rights_intersect. split; [apply Z.land_nonneg; left; apply Ha|].
  destruct (decide (Z.land a b = 0)) as [->|Hne]; [lia|].
  apply Z.log2_lt_pow2.
  - assert (0 ≤ Z.land a b) by (apply Z.land_nonneg; left; apply Ha). lia.
  - destruct (decide (Z.log2 (Z.land a b) < 10)) as [|Hge]; [done|exfalso].
    assert (0 < Z.land a b).
    { assert (0 ≤ Z.land a b) by (apply Z.land_nonneg; left; apply Ha). lia. }
    pose proof (Z.bit_log2 (Z.land a b)) as Hbit.
    rewrite Z.land_spec, (testbit_above 10 a) in Hbit; [|done|lia].
    specialize (Hbit ltac:(lia)). done.
Qed.

(** ** Histories of a table

    [table_step] is one kernel operation on a task's table; a history is a
    sequence of them from [HandleTable_new]. *)

Section table.
Context `{BuildProfile}.

Inductive table_step : HandleTable → HandleTable → Prop :=
| step_insert t o r h t' :
    HandleTable_insert t o r = Ret (h, t') → table_step t t'
| step_close t h b t' :
    HandleTable_close t h = (b, t') → table_step t t'
| step_close_all t :
    table_step t (HandleTable_close_all t)
| step_duplicate t h r o t' :
    HandleTable_duplicate t h r = Ret (o, t') → table_step t t'.

Definition table_reachable (t : HandleTable) : Prop := rtc table_step HandleTable_new t.

(** What [insert] and [duplicate] do to the table when they install [o] with
    rights [r]. *)
Definition pushed_handle (t : HandleTable) (r : Rights) : Handle :=
  Handle_new (next_slot t) r (Z.land (generation t) 0x03FFFFFF).

Definition pushed_table (t : HandleTable) (o : KernelObject) (r : Rights) : HandleTable :=
  mkHandleTable (<[next_slot t := mkHandleEntry (pushed_handle t r) o]> (slots t))
    (wrap 32 (next_slot t + 1)) (wrap 32 (generation t + 1)).

Lemma clone_object_id o : clone_object o = o.
Proof. by destruct o. Qed.

Lemma insert_pushed t o r h t' :
  HandleTable_insert t o r = Ret (h, t') →
  h = pushed_handle t r ∧ t' = pushed_table t o r.
Proof.
  unfold HandleTable_insert, add32. intros Hi. outcome_inv Hi.
  apply arith_wrap in Ha as ->. by injection Hi as <- <-.
Qed.

Lemma duplicate_pushed t h r o t' :
  HandleTable_duplicate t h r = Ret (o, t') →
  (o = None ∧ t' = t ∧
   (Rights_contains (Handle_rights h) Rights_DUPLICATE = false ∨
    HandleTable_get t h = None)) ∨
  (∃ obj, HandleTable_get t h = Some obj ∧
     Rights_contains (Handle_rights h) Rights_DUPLICATE = true ∧
     let r' := Rights_intersect (Handle_rights h) r in
     o = Some (pushed_handle t r') ∧ t' = pushed_table t obj r').
Proof.
  unfold HandleTable_duplicate, HandleTable_get, add32.
  destruct (Rights_contains _ _) eqn:Hc; [|intros [= <- <-]; eauto].
  destruct (slots t !! _) as [e|] eqn:He; [|intros [= <- <-]; eauto].
  destruct (_ =? _) eqn:Hg; [|intros [= <- <-]; eauto].
  simpl. intros Hd. outcome_inv Hd. apply arith_wrap in Ha as ->.
  rewrite clone_object_id in Hd. injection Hd as <- <-. right. eauto.
Qed.

(** ** The representation invariant *)

Definition table_inv (t : HandleTable) : Prop :=
  is_uint 32 (next_slot t) ∧ generation t = next_slot t ∧
  ∀ s e, slots t !! s = Some e →
    is_uint 32 s ∧ ∃ r, he_handle e = Handle_new s r (Z.land s 0x03FFFFFF).

Lemma table_inv_new : table_inv HandleTable_new.
Proof. split; [done|]. split; [done|]. intros s e. simpl. by rewrite lookup_empty. Qed.

Lemma table_inv_pushed t o r : table_inv t → table_inv (pushed_table t o r).
Proof.
  intros (Hn & Hg & Hs). split; [|split].
  - apply Z.mod_pos_bound. lia.
  - simpl. by rewrite Hg.
  - intros s e. simpl. rewrite lookup_insert. case_decide as Heq; [|apply Hs].
    intros [= <-]. subst s. split; [done|]. exists r.
    unfold pushed_handle. by rewrite Hg.
Qed.

Lemma close_cases t h b t' :
  HandleTable_close t h = (b, t') →
  (b = false ∧ t' = t ∧ HandleTable_get t h = None) ∨
  (b = true ∧ is_Some (HandleTable_get t h) ∧
   t' = mkHandleTable (delete (Handle_slot_id h) (slots t)) (next_slot t) (generation t)).
Proof.
  unfold HandleTable_close, HandleTable_get.
  destruct (slots t !! _) as [e|]; [|intros [= <- <-]; eauto].
  destruct (_ =? _); intros [= <- <-]; [right | left]; split_and!; eauto.
Qed.

Lemma table_inv_step t t' : table_inv t → table_step t t' → table_inv t'.
Proof.
  intros Hinv Hstep. destruct Hstep as [t o r h t' Hi|t h b t' Hc|t|t h r o t' Hd].
  - apply insert_pushed in Hi as [_ ->]. by apply table_inv_pushed.
  - apply close_cases in Hc as [(_ & -> & _)|(_ & _ & ->)]; [done|].
    destruct Hinv as (Hn & Hg & Hs). split; [done|]. split; [done|].
    intros s e. simpl. intros [_ He]%lookup_delete_Some. by apply Hs.
  - destruct Hinv as (Hn & Hg & _). split; [done|]. split; [done|].
    intros s e. simpl. by rewrite lookup_empty.
  - apply duplicate_pushed in Hd as [(_ & -> & _)|(obj & _ & _ & _ & ->)]; [done|].
    by apply table_inv_pushed.
Qed.

Lemma table_inv_reachable t : table_reachable t → table_inv t.
Proof.
  intros Hr. unfold table_reachable in Hr.
  remember HandleTable_new as t0 eqn:Ht0. assert (table_inv t0) as Hi.
  { subst. apply table_inv_new. }
  clear Ht0. induction Hr; eauto using table_inv_step.
Qed.

(** ** Abstraction: a finite map from slots to objects *)

Definition table_abs (t : HandleTable) : gmap Z KernelObject := he_object <$> slots t.

Lemma get_abs t h :
  table_inv t →
  HandleTable_get t h =
    if Handle_slot_id h mod 2 ^ 26 =? Handle_generation h
    then table_abs t !! Handle_slot_id h else None.
Proof.
  intros (_ & _ & Hs). unfold HandleTable_get, table_abs. rewrite lookup_fmap.
  destruct (slots t !! Handle_slot_id h) as [e|] eqn:He.
  - cbn [fmap option_fmap option_map]. destruct (Hs _ _ He) as [_ [r ->]]. rewrite generation_new.
    change 0x03FFFFFF with (2 ^ 26 - 1). rewrite land_mask, Z.mod_mod by lia. done.
  - by destruct (_ =? _).
Qed.

Lemma rights_pushed t r : is_uint 10 r → Handle_rights (pushed_handle t r) = r.
Proof. intros. unfold pushed_handle. by rewrite rights_new, Z.mod_small. Qed.

Lemma abs_pushed t o r : table_abs (pushed_table t o r) = <[next_slot t := o]> (table_abs t).
Proof. unfold table_abs. simpl. by rewrite fmap_insert. Qed.

Lemma get_pushed t o r :
  table_inv t → next_slot t < 2 ^ 28 →
  HandleTable_get (pushed_table t o r) (pushed_handle t r) = Some o.
Proof.
  intros Hinv Hn. rewrite get_abs by by apply table_inv_pushed.
  rewrite abs_pushed. destruct Hinv as ([? ?] & Hg & _).
  unfold pushed_handle. rewrite slot_id_new, generation_new, Hg.
  change 0x03FFFFFF with (2 ^ 26 - 1). rewrite land_mask, Z.mod_mod by lia.
  rewrite (Z.mod_small (next_slot t) (2 ^ 28)) by lia.
  rewrite Z.eqb_refl. by rewrite lookup_insert_eq.
Qed.

Lemma get_pushed_other t o r h :
  table_inv t → Handle_slot_id h ≠ next_slot t →
  HandleTable_get (pushed_table t o r) h = HandleTable_get t h.
Proof.
  intros Hinv Hne. rewrite !get_abs by (done || by apply table_inv_pushed).
  rewrite abs_pushed, lookup_insert_ne by done. done.
Qed.

(** ** Slots are never reused below 2^28 operations *)

Definition slots_below (t : HandleTable) : Prop :=
  ∀ s, is_Some (slots t !! s) → s < next_slot t.

Lemma step_slots_below t t' :
  table_inv t → slots_below t → next_slot t < 2 ^ 28 → table_step t t' →
  slots_below t' ∧ next_slot t ≤ next_slot t' ≤ next_slot t + 1 ∧
  (∀ s, s < next_slot t → slots t !! s = None → slots t' !! s = None).
Proof.
  intros ([Hn1 Hn2] & _ & _) Hb Hlt Hstep.
  assert (∀ o r, slots_below (pushed_table t o r) ∧
     next_slot t ≤ next_slot (pushed_table t o r) ≤ next_slot t + 1 ∧
     (∀ s, s < next_slot t → slots t !! s = None →
        slots (pushed_table t o r) !! s = None)) as Hpush.
  { intros o r. unfold slots_below. cbn [pushed_table slots next_slot].
    unfold wrap. rewrite Z.mod_small by lia. split_and!; [|lia|lia|].
    - intros s. destruct (decide (next_slot t = s)) as [<-|Hne]; [lia|].
      rewrite lookup_insert_ne by done. intros Hs%Hb. lia.
    - intros s Hs. rewrite lookup_insert_ne by lia. done. }
  destruct Hstep as [t o r h t' Hi|t h b t' Hc|t|t h r o t' Hd].
  - apply insert_pushed in Hi as [_ ->]. apply Hpush.
  - apply close_cases in Hc as [(_ & -> & _)|(_ & _ & ->)]; [naive_solver lia|].
    unfold slots_below. cbn [slots next_slot]. split_and!; [|lia|lia|].
    + intros s [e [_ He]%lookup_delete_Some]. apply Hb. eauto.
    + intros s _ Hs. rewrite lookup_delete. by case_decide.
  - unfold slots_below. cbn [HandleTable_close_all slots next_slot].
    split_and!; [|lia|lia|done]. intros s. rewrite lookup_empty. by intros [].
  - apply duplicate_pushed in Hd as [(_ & -> & _)|(obj & _ & _ & _ & ->)]; [|apply Hpush].
    naive_solver lia.
Qed.

Lemma nsteps_slots_below n t t' :
  table_inv t → slots_below t → next_slot t + Z.of_nat n ≤ 2 ^ 28 →
  nsteps table_step n t t' →
  table_inv t' ∧ slots_below t' ∧ next_slot t ≤ next_slot t' ≤ next_slot t + Z.of_nat n ∧
  (∀ s, s < next_slot t → slots t !! s = None → slots t' !! s = None).
Proof.
  intros Hinv Hb Hn Hsteps. induction Hsteps as [t|n t1 t2 t3 H12 H23 IH].
  { split_and!; auto; lia. }
  destruct (step_slots_below t1 t2) as (Hb2 & Hn2 & Hs2); [done..|lia|done|].
  destruct IH as (Hinv3 & Hb3 & Hn3 & Hs3); [by eapply table_inv_step|done|lia|].
  split_and!; [done|done|lia|lia|]. intros s Hs Hnone.
  apply Hs3; [lia|]. by apply Hs2.
Qed.

Lemma nsteps_from_new n t :
  Z.of_nat n ≤ 2 ^ 28 → nsteps table_step n HandleTable_new t →
  table_inv t ∧ slots_below t ∧ 0 ≤ next_slot t ≤ Z.of_nat n.
Proof.
  intros Hn Hs. eapply nsteps_slots_below in Hs as (? & ? & ? & _); [done|..].
  - apply table_inv_new.
  - intros s. cbn. rewrite lookup_empty. by intros [].
  - done.
Qed.

End table.

(** ** Properties of handles *)

(** packing and unpacking a handle are inverse.  [Handle::new] on fields
    that fit returns a 64-bit word whose accessors give the fields back, and
    every 64-bit word is the handle of its own three fields. *)
Theorem handle_roundtrip :
  (∀ s r g, is_uint 28 s → is_uint 10 r → is_uint 26 g →
     let h := Handle_new s r g in
     is_uint 64 h ∧ Handle_slot_id h = s ∧ Handle_rights h = r ∧
     Handle_generation h = g) ∧
  (∀ h, is_uint 64 h →
     Handle_new (Handle_slot_id h) (Handle_rights h) (Handle_generation h) = h).
Proof.
  split; [|exact Handle_new_fields]. intros s r g Hs Hr Hg h. subst h.
  rewrite slot_id_new, rights_new, generation_new.
  split; [apply Handle_new_uint|]. rewrite !Z.mod_small by done. done.
Qed.

Lemma handle_roundtrip_witness :
  let h := Handle_new 42 Rights_ALL 7 in
  Handle_slot_id h = 42 ∧ Handle_rights h = Rights_ALL ∧ Handle_generation h = 7.
Proof. apply (proj1 handle_roundtrip); done. Defined.

(** [HandleTable::duplicate] is a monotone privilege reduction.  When it
    succeeds the presented handle had the DUPLICATE right and named a live
    object; the new handle's rights are contained in the presented handle's
    rights and in the requested rights, and below 2^28 slots it names the same
    object (the cloned [Arc]).  When it refuses, the table is unchanged. *)
Theorem duplicate_narrows `{BuildProfile} t h r o t' :
  table_reachable t →
  HandleTable_duplicate t h r = Ret (o, t') →
  match o with
  | None =>
      t' = t ∧ (Rights_contains (Handle_rights h) Rights_DUPLICATE = false ∨
                HandleTable_get t h = None)
  | Some h' =>
      Rights_contains (Handle_rights h) Rights_DUPLICATE = true ∧
      is_Some (HandleTable_get t h) ∧
      Rights_contains (Handle_rights h) (Handle_rights h') = true ∧
      Rights_contains r (Handle_rights h') = true ∧
      (next_slot t < 2 ^ 28 → HandleTable_get t' h' = HandleTable_get t h)
  end.
Proof.
  intros Hinv%table_inv_reachable Hd.
  apply duplicate_pushed in Hd as [(-> & -> & ?)|(obj & Hg & Hc & -> & ->)]; [done|].
  rewrite rights_pushed by apply Rights_intersect_uint, Handle_rights_uint.
  split_and!; [done | by rewrite Hg | apply Rights_intersect_l | apply Rights_intersect_r |].
  intros Hn. by rewrite get_pushed, Hg.
Qed.

(** An executable table with one file, used by the witnesses. *)
Definition table_one : HandleTable :=
  pushed_table HandleTable_new (FileObj 1%positive) Rights_READ.

Lemma table_one_reachable `{BuildProfile} : table_reachable table_one.
Proof.
  apply rtc_once. apply (step_insert _ (FileObj 1%positive) Rights_READ
    (pushed_handle HandleTable_new Rights_READ)).
  reflexivity.
Qed.

Lemma duplicate_narrows_witness :
  let P := dev_profile in
  ∃ h' t',
    HandleTable_duplicate table_one (Handle_new 0 Rights_ALL 0) Rights_IO = Ret (Some h', t') ∧
    Rights_contains Rights_IO (Handle_rights h') = true.
Proof.
  intros P. eexists _, _. split; [reflexivity|].
  eapply (duplicate_narrows (H := P) table_one (Handle_new 0 Rights_ALL 0) Rights_IO
            (Some _) _); [apply table_one_reachable | reflexivity].
Defined.

(** no use after close.  Once [close] has accepted a handle, no sequence of
    further inserts, duplicates and closes makes that handle value resolve
    again, for as long as the task's history stays within the 2^28 slots a
    handle can name. *)
Theorem stale_handle_rejected `{BuildProfile} m t h t1 n t2 :
  nsteps table_step m HandleTable_new t →
  HandleTable_close t h = (true, t1) →
  nsteps table_step n t1 t2 →
  Z.of_nat m + Z.of_nat n ≤ 2 ^ 28 →
  HandleTable_get t2 h = None.
Proof.
  intros Hm Hc Hn Hle.
  apply nsteps_from_new in Hm as (Hinv & Hb & Hnext); [|lia].
  assert (table_inv t1) as Hinv1 by eauto using table_inv_step, step_close.
  apply close_cases in Hc as [(? & _)|(_ & [o Ho] & ->)]; [done|].
  eapply nsteps_slots_below in Hn as (Hinv2 & _ & _ & Hs).
  - rewrite get_abs by done. unfold table_abs. rewrite lookup_fmap, Hs.
    + by destruct (_ =? _).
    + cbn [next_slot]. apply Hb. unfold HandleTable_get in Ho.
      destruct (slots t !! _); [eauto|done].
    + apply lookup_delete_eq.
  - done.
  - unfold slots_below. cbn [slots next_slot].
    intros s [e [_ He]%lookup_delete_Some]. apply Hb. eauto.
  - cbn [next_slot]. lia.
Qed.

Lemma stale_handle_rejected_witness :
  let P := release_profile in
  HandleTable_get
    (pushed_table (mkHandleTable ∅ 1 1) (EventObj 2%positive) Rights_ALL)
    (pushed_handle HandleTable_new Rights_READ) = None.
Proof.
  intros P.
  apply (stale_handle_rejected (H := P) 1 table_one
           (pushed_handle HandleTable_new Rights_READ) (mkHandleTable ∅ 1 1) 1).
  - eapply nsteps_once, (step_insert _ (FileObj 1%positive) Rights_READ). reflexivity.
  - reflexivity.
  - eapply nsteps_once, (step_insert _ (EventObj 2%positive) Rights_ALL). reflexivity.
  - lia.
Defined.

(** [insert] returns a handle that resolves to the inserted object with
    the requested rights and leaves every other handle's meaning unchanged.
    It only panics on the 2^32-th insertion under overflow checks. *)
Theorem insert_get `{BuildProfile} m t o r :
  nsteps table_step m HandleTable_new t → Z.of_nat m < 2 ^ 28 → is_uint 10 r →
  ∃ h t', HandleTable_insert t o r = Ret (h, t') ∧
    HandleTable_get t' h = Some o ∧ Handle_rights h = r ∧
    HandleTable_get t h = None ∧
    ∀ h', Handle_slot_id h' ≠ Handle_slot_id h →
      HandleTable_get t' h' = HandleTable_get t h'.
Proof.
  intros Hm Hlt Hr. apply nsteps_from_new in Hm as (Hinv & Hb & Hn); [|lia].
  assert (Handle_slot_id (pushed_handle t r) = next_slot t) as Hslot.
  { unfold pushed_handle. rewrite slot_id_new. apply Z.mod_small. lia. }
  exists (pushed_handle t r), (pushed_table t o r). split_and!.
  - unfold HandleTable_insert. rewrite add32_ok by (unfold is_uint; lia).
    cbn. unfold pushed_table, wrap. rewrite Z.mod_small by lia. done.
  - apply get_pushed; [done | lia].
  - by apply rights_pushed.
  - rewrite get_abs, Hslot by done. unfold table_abs. rewrite lookup_fmap.
    destruct (slots t !! next_slot t) eqn:Hs; [|by destruct (_ =? _)].
    assert (next_slot t < next_slot t) by (apply Hb; eauto). lia.
  - intros h' Hne. apply get_pushed_other; [done | congruence].
Qed.

Lemma insert_get_witness :
  let P := dev_profile in
  ∃ h t', HandleTable_insert HandleTable_new (FileObj 1%positive) Rights_IO = Ret (h, t') ∧
    HandleTable_get t' h = Some (FileObj 1%positive).
Proof.
  intros P.
  destruct (insert_get (H := P) 0 HandleTable_new (FileObj 1%positive) Rights_IO)
    as (h & t' & Hi & Hg & _); [apply nsteps_O | lia | done |].
  exists h, t'. done.
Defined.

(** handles are forgeable.  The generation of the entry in slot [s] is
    always the low 26 bits of [s], and neither [get] nor [duplicate] looks at
    the rights the kernel granted.  So in every reachable table, for every
    live slot below 2^28 and whatever rights were granted, the word built from
    the slot number alone with all ten rights resolves to the object and can
    be duplicated into a genuine handle that carries every right. *)
Theorem forged_handle_resolves `{BuildProfile} t s e :
  table_reachable t → slots t !! s = Some e → s < 2 ^ 28 →
  let forged := Handle_new s Rights_ALL s in
  HandleTable_get t forged = Some (he_object e) ∧
  (next_slot t < 2 ^ 28 →
   ∃ h t', HandleTable_duplicate t forged Rights_ALL = Ret (Some h, t') ∧
     Handle_rights h = Rights_ALL ∧ HandleTable_get t' h = Some (he_object e)).
Proof.
  intros Hinv%table_inv_reachable He Hs forged.
  pose proof (proj2 (proj2 Hinv) _ _ He) as [[Hs0 _] _].
  assert (Handle_slot_id forged = s) as Hslot.
  { unfold forged. rewrite slot_id_new. apply Z.mod_small. lia. }
  assert (HandleTable_get t forged = Some (he_object e)) as Hget.
  { rewrite get_abs, Hslot by done. unfold forged. rewrite generation_new, Z.eqb_refl.
    unfold table_abs. by rewrite lookup_fmap, He. }
  split; [done|]. intros Hn.
  destruct (HandleTable_duplicate t forged Rights_ALL) as [[o t']|] eqn:Hd.
  - assert (Handle_rights forged = Rights_ALL) as Hall.
    { unfold forged. by rewrite rights_new. }
    apply duplicate_pushed in Hd as [(-> & -> & [Hc|Hc])|(obj & Hg & Hc & -> & ->)].
    + by rewrite Hall in Hc.
    + congruence.
    + rewrite Hg in Hget. injection Hget as ->. rewrite Hall.
      eexists _, _. split; [done|]. split; [by apply rights_pushed|].
      apply get_pushed; [done | lia].
  - exfalso. revert Hd. unfold HandleTable_duplicate. destruct Hinv as ([??] & _).
    rewrite add32_ok by (unfold is_uint; lia). repeat case_match; done.
Qed.

Lemma forged_handle_resolves_witness :
  let P := dev_profile in
  let t := pushed_table HandleTable_new (FileObj 1%positive) Rights_NONE in
  ∃ h t', HandleTable_duplicate t (Handle_new 0 Rights_ALL 0) Rights_ALL = Ret (Some h, t') ∧
    Handle_rights h = Rights_ALL ∧ HandleTable_get t' h = Some (FileObj 1%positive).
Proof.
  intros P t.
  apply (forged_handle_resolves (H := P) t 0
    (mkHandleEntry (pushed_handle HandleTable_new Rights_NONE) (FileObj 1%positive))).
  - apply rtc_once. eapply (step_insert _ (FileObj 1%positive) Rights_NONE). reflexivity.
  - reflexivity.
  - lia.
  - done.
Defined.
