(* ===== verification/FrameAlloc.v ===== *)
(** * The physical frame allocator (kernel/src/frame_alloc.rs)

    The statics of the file are the fields of one record; every public function
    takes the [BITMAP] lock for its whole body, so each is one atomic state
    transformer.  Loops over the bitmap are recursions over its indices. *)

From S2P Require Import Prelude.

Definition FA_PAGE_SIZE : Z := 0x1000.
Definition MAX_BITMAP_BYTES : Z := 1024.

Record FrameAllocator : Type := mkFrameAllocator {
  FRAME_REGION_START : Z;
  FRAME_REGION_END : Z;
  BITMAP : list Z;
  BITMAP_LEN : Z;
  TOTAL_FRAMES_COUNT : Z;
  INITIALIZED : bool;
}.

(** The values of the statics at boot. *)
Definition frame_alloc_boot : FrameAllocator :=
  mkFrameAllocator 0x02000000 0x04000000
    (replicate (Z.to_nat MAX_BITMAP_BYTES) 0) 0 0 false.

Section frame_alloc.
Context `{BuildProfile}.

Definition total_frames (s : FrameAllocator) : outcome Z :=
  d ← sub64 (FRAME_REGION_END s) (FRAME_REGION_START s);
  mret (d `div` FA_PAGE_SIZE).

(** [for i in 0..n { bitmap[i] = 0xFF; }] on the cleared bitmap; [n <= 32], so
    the index is in range of the 1024-byte array. *)
Definition reserve_bytes (bm : list Z) (n : Z) : list Z :=
  foldl (λ bm i, <[i := 0xFF]> bm) bm (seq 0 (Z.to_nat n)).

Definition frame_init (s : FrameAllocator) : outcome FrameAllocator :=
  tf ← total_frames s;
  let bm_len := div_ceil tf 8 in
  let cleared := replicate (length (BITMAP s)) 0 in
  let bm := reserve_bytes cleared (Z.min 32 bm_len) in
  mret (mkFrameAllocator (FRAME_REGION_START s) (FRAME_REGION_END s) bm bm_len tf true).

(** One iteration of the search for the largest usable region. *)
Definition best_region_step (best : Z * Z * Z) (entry : Z * Z * Z) : Z * Z * Z :=
  let min_addr := 0x00100000 in
  let max_addr := 0x40000000 in
  let '(start, end_, mem_type) := entry in
  let '(best_start, best_end, best_size) := best in
  if negb (mem_type =? 1) then best
  else
    let region_start := Z.max start min_addr in
    let region_end := Z.min end_ max_addr in
    if region_start >=? region_end then best
    else
      let region_size := region_end - region_start in
      if region_size >? best_size then (region_start, region_end, region_size) else best.

Definition best_region (memory_map : list (Z * Z * Z)) : Z * Z * Z :=
  foldl best_region_step (0x02000000, 0x04000000, 0x04000000 - 0x02000000) memory_map.

Definition init_from_memory_map (s : FrameAllocator) (memory_map : list (Z * Z * Z))
    : outcome FrameAllocator :=
  if INITIALIZED s then mret s
  else
    let '(best_start, best_end, _) := best_region memory_map in
    a ← add64 best_start FA_PAGE_SIZE;
    b ← sub64 a 1;
    let aligned_start := Z.land b (unot 64 (FA_PAGE_SIZE - 1)) in
    let aligned_end := Z.land best_end (unot 64 (FA_PAGE_SIZE - 1)) in
    if aligned_start >=? aligned_end then frame_init s
    else
      d ← sub64 aligned_end aligned_start;
      let tf := d `div` FA_PAGE_SIZE in
      let bm_len := div_ceil tf 8 in
      let effective_len := Z.min bm_len MAX_BITMAP_BYTES in
      effective_frames ← mul64 effective_len 8;
      let cleared := replicate (length (BITMAP s)) 0 in
      let bm := if aligned_start <? 0x00200000
                then reserve_bytes cleared (Z.min 32 effective_len) else cleared in
      bytes ← mul64 effective_frames FA_PAGE_SIZE;
      end_ ← add64 aligned_start bytes;
      mret (mkFrameAllocator aligned_start end_ bm effective_len effective_frames true).

(** The bootloader's region kinds, reduced to the test the code makes. *)
Record MemoryRegion : Type := mkMemoryRegion {
  mr_start : Z;
  mr_end : Z;
  mr_usable : bool;
}.

Definition init_from_boot_info (s : FrameAllocator) (regions : list MemoryRegion)
    : outcome FrameAllocator :=
  let tuples := map (λ r, (mr_start r, mr_end r, if mr_usable r then 1 else 0)) regions in
  init_from_memory_map s tuples.

(** [for bit in 0..8]: the lowest clear bit of a byte. *)
Fixpoint scan_bits (byte : Z) (bit : Z) (n : nat) : option Z :=
  match n with
  | O => None
  | S n' =>
      if Z.land byte (Z.shiftl 1 bit) =? 0 then Some bit
      else scan_bits byte (bit + 1) n'
  end.

(** [for i in 0..bm_len]: the first byte with a clear bit, and that bit. *)
Fixpoint scan_bytes (bm : list Z) (i : Z) (n : nat) : outcome (option (Z * Z)) :=
  match n with
  | O => mret None
  | S n' =>
      byte ← index bm i;
      if byte =? 0xFF then scan_bytes bm (i + 1) n'
      else match scan_bits byte 0 8 with
           | Some bit => mret (Some (i, bit))
           | None => scan_bytes bm (i + 1) n'
           end
  end.

Definition alloc_frame (s : FrameAllocator) : outcome (option Z * FrameAllocator) :=
  let start := FRAME_REGION_START s in
  let end_ := FRAME_REGION_END s in
  r ← scan_bytes (BITMAP s) 0 (Z.to_nat (BITMAP_LEN s));
  match r with
  | None => mret (None, s)
  | Some (i, bit) =>
      byte ← index (BITMAP s) i;
      let bm := <[Z.to_nat i := Z.lor byte (Z.shiftl 1 bit)]> (BITMAP s) in
      i8 ← mul64 i 8;
      frame_idx ← add64 i8 bit;
      off ← mul64 frame_idx FA_PAGE_SIZE;
      addr ← add64 start off;
      _ ← rust_assert (addr <? end_);
      mret (Some addr,
            mkFrameAllocator start end_ bm (BITMAP_LEN s) (TOTAL_FRAMES_COUNT s)
              (INITIALIZED s))
  end.

Definition free_frame (s : FrameAllocator) (addr : Z) : outcome FrameAllocator :=
  let start := FRAME_REGION_START s in
  let end_ := FRAME_REGION_END s in
  if (addr <? start) || (addr >=? end_) then mret s
  else
    d ← sub64 addr start;
    let frame_idx := d `div` FA_PAGE_SIZE in
    let byte_idx := frame_idx `div` 8 in
    let bit_idx := frame_idx mod 8 in
    byte ← index (BITMAP s) byte_idx;
    _ ← rust_assert (negb (Z.land byte (Z.shiftl 1 bit_idx) =? 0));
    let bm := <[Z.to_nat byte_idx := Z.land byte (unot 8 (Z.shiftl 1 bit_idx))]> (BITMAP s) in
    mret (mkFrameAllocator start end_ bm (BITMAP_LEN s) (TOTAL_FRAMES_COUNT s)
            (INITIALIZED s)).

Definition frame_count (s : FrameAllocator) : Z := TOTAL_FRAMES_COUNT s.
Definition frame_region_start (s : FrameAllocator) : Z := FRAME_REGION_START s.
Definition frame_region_end (s : FrameAllocator) : Z := FRAME_REGION_END s.

End frame_alloc.

(** ** Bits of the bitmap

    [bit_at bm k] is the bit of frame [k]: bit [k mod 8] of byte [k / 8]. *)

Definition bit_at (bm : list Z) (k : Z) : bool :=
  Z.testbit (bm !!! Z.to_nat (k `div` 8)) (k mod 8).

Definition frame_allocated (s : FrameAllocator) (k : Z) : bool := bit_at (BITMAP s) k.

Lemma bit_at_split bm i b : 0 ≤ i → 0 ≤ b < 8 → bit_at bm (i * 8 + b) = Z.testbit (bm !!! Z.to_nat i) b.
Proof.
  intros Hi Hb. unfold bit_at.
  replace ((i * 8 + b) `div` 8) with i by (Z.div_mod_to_equations; lia).
  replace ((i * 8 + b) mod 8) with b by (Z.div_mod_to_equations; lia). done.
Qed.

Lemma byte_in_range bm i :
  Forall (is_uint 8) bm → 0 ≤ i < len bm →
  ∃ byte, index bm i = Ret byte ∧ bm !! Z.to_nat i = Some byte ∧
    bm !!! Z.to_nat i = byte ∧ is_uint 8 byte.
Proof.
  unfold len. intros HF Hi.
  destruct (lookup_lt_is_Some_2 bm (Z.to_nat i)) as [byte Hbyte]; [lia|].
  exists byte. split_and!; [|done| |].
  - apply index_lookup; [lia | done].
  - by apply list_lookup_total_correct.
  - eapply Forall_lookup_1; eauto.
Qed.

Lemma bit_at_insert bm k k' byte' :
  0 ≤ k → 0 ≤ k' → k `div` 8 < len bm →
  bit_at (<[Z.to_nat (k `div` 8) := byte']> bm) k' =
    if k' `div` 8 =? k `div` 8 then Z.testbit byte' (k' mod 8) else bit_at bm k'.
Proof.
  unfold len, bit_at. intros Hk Hk' Hlen. destruct (Z.eqb_spec (k' `div` 8) (k `div` 8)) as [->|Hne].
  - rewrite list_lookup_total_insert_eq; [done|]. Z.div_mod_to_equations. lia.
  - rewrite list_lookup_total_insert_ne; [done|]. intros Heq.
    apply Hne. Z.div_mod_to_equations. lia.
Qed.

Lemma bit_at_set bm k byte k' :
  0 ≤ k → 0 ≤ k' → k `div` 8 < len bm → bm !!! Z.to_nat (k `div` 8) = byte →
  bit_at (<[Z.to_nat (k `div` 8) := Z.lor byte (Z.shiftl 1 (k mod 8))]> bm) k' =
    bit_at bm k' || (k' =? k).
Proof.
  intros Hk Hk' Hlen Hbyte. rewrite bit_at_insert by done.
  destruct (Z.eqb_spec (k' `div` 8) (k `div` 8)) as [Heq|Hne].
  - rewrite testbit_set by (apply Z.mod_pos_bound; lia).
    unfold bit_at. rewrite Heq, Hbyte. f_equal. apply eq_true_iff_eq.
    rewrite !Z.eqb_eq. Z.div_mod_to_equations. lia.
  - destruct (Z.eqb_spec k' k); [congruence | by rewrite orb_false_r].
Qed.

Lemma bit_at_clear bm k byte k' :
  0 ≤ k → 0 ≤ k' → k `div` 8 < len bm → bm !!! Z.to_nat (k `div` 8) = byte →
  is_uint 8 byte →
  bit_at (<[Z.to_nat (k `div` 8) := Z.land byte (unot 8 (Z.shiftl 1 (k mod 8)))]> bm) k' =
    bit_at bm k' && negb (k' =? k).
Proof.
  intros Hk Hk' Hlen Hbyte H8. rewrite bit_at_insert by done.
  pose proof (Z.mod_pos_bound k 8). pose proof (Z.mod_pos_bound k' 8).
  destruct (Z.eqb_spec (k' `div` 8) (k `div` 8)) as [Heq|Hne].
  - rewrite testbit_clear by (done || lia).
    unfold bit_at. rewrite Heq, Hbyte. f_equal. f_equal. apply eq_true_iff_eq.
    rewrite !Z.eqb_eq. Z.div_mod_to_equations. lia.
  - destruct (Z.eqb_spec k' k); [congruence | by rewrite andb_true_r].
Qed.

Lemma byte_full byte : is_uint 8 byte → (∀ b, 0 ≤ b < 8 → Z.testbit byte b = true) ↔ byte = 0xFF.
Proof.
  intros H8. split.
  - intros Hb. apply Z.bits_inj'. intros n Hn. change 0xFF with (Z.ones 8).
    destruct (decide (n < 8)).
    + rewrite Hb, Z.ones_spec_low by lia. done.
    + rewrite (testbit_above 8 byte), Z.ones_spec_high by (done || lia). done.
  - intros -> b Hb. change 0xFF with (Z.ones 8). apply Z.ones_spec_low. lia.
Qed.

(** ** The scan finds the lowest free frame *)

Lemma scan_bits_spec byte bit n :
  0 ≤ bit →
  match scan_bits byte bit n with
  | Some b => bit ≤ b < bit + Z.of_nat n ∧ Z.testbit byte b = false ∧
              ∀ j, bit ≤ j < b → Z.testbit byte j = true
  | None => ∀ j, bit ≤ j < bit + Z.of_nat n → Z.testbit byte j = true
  end.
Proof.
  revert bit. induction n as [|n IH]; intros bit Hbit; [simpl; lia|].
  cbn [scan_bits]. rewrite land_shiftl1_eqb by done.
  destruct (Z.testbit byte bit) eqn:Hb; simpl negb; cbn iota.
  - specialize (IH (bit + 1) ltac:(lia)). destruct (scan_bits _ _ _).
    + destruct IH as (? & ? & Hlow). split_and!; [lia|lia|done|].
      intros j Hj. destruct (decide (j = bit)) as [->|]; [done|]. apply Hlow. lia.
    + intros j Hj. destruct (decide (j = bit)) as [->|]; [done|]. apply IH. lia.
  - split_and!; [lia|lia|done|]. lia.
Qed.

Lemma scan_bytes_spec bm i n :
  Forall (is_uint 8) bm → 0 ≤ i → i + Z.of_nat n ≤ len bm →
  ∃ r, scan_bytes bm i n = Ret r ∧
  match r with
  | Some (i', b) =>
      i ≤ i' < i + Z.of_nat n ∧ 0 ≤ b < 8 ∧ bit_at bm (i' * 8 + b) = false ∧
      ∀ k, i * 8 ≤ k < i' * 8 + b → bit_at bm k = true
  | None => ∀ k, i * 8 ≤ k < (i + Z.of_nat n) * 8 → bit_at bm k = true
  end.
Proof.
  intros HF. revert i. induction n as [|n IH]; intros i Hi Hlen.
  { exists None. split; [done|]. lia. }
  destruct (byte_in_range bm i) as (byte & Hidx & _ & Hbyte & H8); [done|lia|].
  assert (∀ k, i * 8 ≤ k < i * 8 + 8 → bit_at bm k = Z.testbit byte (k - i * 8)) as Hat.
  { intros k Hk. replace k with (i * 8 + (k - i * 8)) at 1 by lia.
    rewrite bit_at_split, Hbyte by lia. done. }
  assert (∃ o, scan_bits byte 0 8 = o ∧
    match o with
    | Some b => 0 ≤ b < 8 ∧ Z.testbit byte b = false ∧ ∀ j, 0 ≤ j < b → Z.testbit byte j = true
    | None => ∀ j, 0 ≤ j < 8 → Z.testbit byte j = true end) as (o & Ho & Hspec).
  { eexists. split; [done|]. apply (scan_bits_spec byte 0 8). lia. }
  destruct (IH (i + 1)) as (r & Hr & HIH); [lia|lia|].
  assert ((∀ j, 0 ≤ j < 8 → Z.testbit byte j = true) → ∃ r, scan_bytes bm (i + 1) n = Ret r ∧
    match r with
    | Some (i', b) => i ≤ i' < i + Z.of_nat (S n) ∧ 0 ≤ b < 8 ∧ bit_at bm (i' * 8 + b) = false ∧
        ∀ k, i * 8 ≤ k < i' * 8 + b → bit_at bm k = true
    | None => ∀ k, i * 8 ≤ k < (i + Z.of_nat (S n)) * 8 → bit_at bm k = true
    end) as Hskip.
  { intros Hfull. exists r. split; [done|].
    assert (∀ k, i * 8 ≤ k < i * 8 + 8 → bit_at bm k = true) as Hthis.
    { intros k Hk. rewrite Hat by done. apply Hfull. lia. }
    destruct r as [[i' b]|].
    - destruct HIH as (? & ? & ? & Hlow). split_and!; [lia|lia|lia|lia|done|].
      intros k Hk. destruct (decide (k < i * 8 + 8)); [apply Hthis | apply Hlow]; lia.
    - intros k Hk. destruct (decide (k < i * 8 + 8)); [apply Hthis | apply HIH]; lia. }
  cbn [scan_bytes]. rewrite Hidx. cbn [mbind outcome_bind].
  destruct (Z.eqb_spec byte 0xFF) as [Heq|Hne]; [by apply Hskip, byte_full|].
  rewrite Ho. destruct o as [b|]; [|by apply Hskip].
  destruct Hspec as (Hb & Hclear & Hlow). eexists. split; [done|].
  split_and!; [lia|lia|lia|lia| |].
  - rewrite bit_at_split, Hbyte by lia. done.
  - intros k Hk. rewrite Hat by lia. apply Hlow. lia.
Qed.

(** ** Invariant and abstraction *)

Definition fa_inv (s : FrameAllocator) : Prop :=
  len (BITMAP s) = MAX_BITMAP_BYTES ∧ Forall (is_uint 8) (BITMAP s) ∧
  0 ≤ BITMAP_LEN s ≤ MAX_BITMAP_BYTES ∧
  TOTAL_FRAMES_COUNT s = BITMAP_LEN s * 8 ∧
  0 ≤ FRAME_REGION_START s ∧ FRAME_REGION_START s mod FA_PAGE_SIZE = 0 ∧
  FRAME_REGION_END s = FRAME_REGION_START s + TOTAL_FRAMES_COUNT s * FA_PAGE_SIZE ∧
  FRAME_REGION_END s < 2 ^ 64.

(** The set of allocated frame numbers. *)
Definition owned (s : FrameAllocator) : gset Z :=
  list_to_set (filter (λ k, frame_allocated s k = true) (seqZ 0 (frame_count s))).

(** The address of frame number [k]. *)
Definition frame_addr (s : FrameAllocator) (k : Z) : Z :=
  FRAME_REGION_START s + k * FA_PAGE_SIZE.

(** What the allocator promises: first fit over the set of owned frames. *)
Inductive alloc_spec (n : Z) (o : gset Z) : option Z → gset Z → Prop :=
| alloc_spec_found k :
    0 ≤ k < n → k ∉ o → (∀ j, 0 ≤ j < k → j ∈ o) → alloc_spec n o (Some k) ({[k]} ∪ o)
| alloc_spec_full :
    (∀ k, 0 ≤ k < n → k ∈ o) → alloc_spec n o None o.

Lemma elem_of_owned s k :
  k ∈ owned s ↔ 0 ≤ k < frame_count s ∧ frame_allocated s k = true.
Proof.
  unfold owned. rewrite elem_of_list_to_set, list_elem_of_filter, elem_of_seqZ. naive_solver lia.
Qed.

Lemma fa_inv_update s i byte :
  fa_inv s → is_uint 8 byte →
  fa_inv (mkFrameAllocator (FRAME_REGION_START s) (FRAME_REGION_END s)
            (<[i := byte]> (BITMAP s)) (BITMAP_LEN s) (TOTAL_FRAMES_COUNT s) (INITIALIZED s)).
Proof.
  unfold fa_inv, len. simpl. rewrite length_insert. intros (? & HF & ?) Hb.
  split; [done|]. split; [by apply Forall_insert | done].
Qed.

Section frame_theorems.
Context `{BuildProfile}.

Lemma alloc_frame_cases s :
  fa_inv s →
  (alloc_frame s = Ret (None, s) ∧ ∀ k, 0 ≤ k < frame_count s → frame_allocated s k = true) ∨
  (∃ k s', alloc_frame s = Ret (Some (frame_addr s k), s') ∧
     0 ≤ k < frame_count s ∧ frame_allocated s k = false ∧
     (∀ j, 0 ≤ j < k → frame_allocated s j = true) ∧
     s' = mkFrameAllocator (FRAME_REGION_START s) (FRAME_REGION_END s)
            (<[Z.to_nat (k `div` 8) :=
                 Z.lor (BITMAP s !!! Z.to_nat (k `div` 8)) (Z.shiftl 1 (k mod 8))]> (BITMAP s))
            (BITMAP_LEN s) (TOTAL_FRAMES_COUNT s) (INITIALIZED s)).
Proof.
  intros (Hlen & HF & Hbl & Htf & Hst & Hal & Hend & Hmax).
  unfold alloc_frame, frame_count, frame_allocated, frame_addr, MAX_BITMAP_BYTES, FA_PAGE_SIZE in *.
  destruct (scan_bytes_spec (BITMAP s) 0 (Z.to_nat (BITMAP_LEN s)))
    as (r & -> & Hr); [done|lia|lia|].
  cbn [mbind outcome_bind]. destruct r as [[i b]|].
  - right. destruct Hr as (Hi & Hb & Hclear & Hlow).
    destruct (byte_in_range (BITMAP s) i) as (byte & Hidx & _ & Hbyte & H8); [done|lia|].
    assert (Hdiv : (i * 8 + b) `div` 8 = i) by (Z.div_mod_to_equations; lia).
    assert (Hmod : (i * 8 + b) mod 8 = b) by (Z.div_mod_to_equations; lia).
    exists (i * 8 + b). rewrite Hdiv, Hmod, Hbyte, Hidx. cbn [mbind outcome_bind].
    rewrite mul64_ok by (unfold is_uint; lia). cbn [mbind outcome_bind].
    rewrite add64_ok by (unfold is_uint; lia). cbn [mbind outcome_bind].
    rewrite mul64_ok by (unfold is_uint; lia). cbn [mbind outcome_bind].
    rewrite add64_ok by (unfold is_uint; lia). cbn [mbind outcome_bind].
    rewrite (proj2 (Z.ltb_lt _ _)) by lia. cbn [rust_assert mbind outcome_bind].
    eexists. split_and!; [done|lia|lia|done| |done].
    intros j Hj. apply Hlow. lia.
  - left. split; [done|]. intros k Hk. apply Hr. lia.
Qed.

Lemma free_frame_inside s addr :
  fa_inv s → FRAME_REGION_START s ≤ addr < FRAME_REGION_END s →
  let k := (addr - FRAME_REGION_START s) `div` FA_PAGE_SIZE in
  0 ≤ k < frame_count s ∧
  free_frame s addr =
    if frame_allocated s k then
      Ret (mkFrameAllocator (FRAME_REGION_START s) (FRAME_REGION_END s)
            (<[Z.to_nat (k `div` 8) :=
                 Z.land (BITMAP s !!! Z.to_nat (k `div` 8)) (unot 8 (Z.shiftl 1 (k mod 8)))]> (BITMAP s))
            (BITMAP_LEN s) (TOTAL_FRAMES_COUNT s) (INITIALIZED s))
    else Panic.
Proof.
  intros (Hlen & HF & Hbl & Htf & Hst & Hal & Hend & Hmax) Haddr k.
  unfold frame_count, MAX_BITMAP_BYTES in *.
  assert (0 ≤ k < TOTAL_FRAMES_COUNT s) as Hk.
  { unfold k, FA_PAGE_SIZE in *. Z.div_mod_to_equations. lia. }
  split; [done|]. unfold free_frame.
  rewrite (proj2 (Z.ltb_ge _ _)), (Z.geb_leb addr), (proj2 (Z.leb_gt _ _)) by lia.
  cbn [orb]. rewrite sub64_ok by (unfold is_uint; lia). cbn [mbind outcome_bind]. fold k.
  destruct (byte_in_range (BITMAP s) (k `div` 8)) as (byte & Hidx & _ & Hbyte & H8);
    [done|Z.div_mod_to_equations; lia|].
  rewrite Hidx, Hbyte. cbn [mbind outcome_bind].
  pose proof (Z.mod_pos_bound k 8). rewrite land_shiftl1_eqb, negb_involutive by lia.
  unfold frame_allocated, bit_at. rewrite Hbyte. by destruct (Z.testbit byte (k mod 8)).
Qed.

Lemma owned_set s k b :
  fa_inv s → 0 ≤ k < frame_count s → BITMAP s !!! Z.to_nat (k `div` 8) = b →
  owned (mkFrameAllocator (FRAME_REGION_START s) (FRAME_REGION_END s)
            (<[Z.to_nat (k `div` 8) := Z.lor b (Z.shiftl 1 (k mod 8))]> (BITMAP s))
            (BITMAP_LEN s) (TOTAL_FRAMES_COUNT s) (INITIALIZED s)) = {[k]} ∪ owned s.
Proof.
  intros (Hlen & _ & Hbl & Htf & _) Hk Hb. unfold frame_count, MAX_BITMAP_BYTES in *.
  apply set_eq. intros j. rewrite elem_of_union, elem_of_singleton, !elem_of_owned.
  unfold frame_count, frame_allocated. simpl.
  destruct (decide (0 ≤ j < TOTAL_FRAMES_COUNT s)) as [Hj|Hj]; [|naive_solver lia].
  rewrite bit_at_set by (done || lia || Z.div_mod_to_equations; lia).
  rewrite orb_true_iff, Z.eqb_eq. naive_solver.
Qed.

Lemma owned_clear s k b :
  fa_inv s → 0 ≤ k < frame_count s → BITMAP s !!! Z.to_nat (k `div` 8) = b → is_uint 8 b →
  owned (mkFrameAllocator (FRAME_REGION_START s) (FRAME_REGION_END s)
            (<[Z.to_nat (k `div` 8) := Z.land b (unot 8 (Z.shiftl 1 (k mod 8)))]> (BITMAP s))
            (BITMAP_LEN s) (TOTAL_FRAMES_COUNT s) (INITIALIZED s)) = owned s ∖ {[k]}.
Proof.
  intros (Hlen & _ & Hbl & Htf & _) Hk Hb H8. unfold frame_count, MAX_BITMAP_BYTES in *.
  apply set_eq. intros j. rewrite elem_of_difference, elem_of_singleton, !elem_of_owned.
  unfold frame_count, frame_allocated. simpl.
  destruct (decide (0 ≤ j < TOTAL_FRAMES_COUNT s)) as [Hj|Hj]; [|naive_solver lia].
  rewrite bit_at_clear by (done || lia || Z.div_mod_to_equations; lia).
  rewrite andb_true_iff, negb_true_iff, Z.eqb_neq. naive_solver.
Qed.

Lemma byte_at_uint s k :
  fa_inv s → 0 ≤ k < frame_count s → is_uint 8 (BITMAP s !!! Z.to_nat (k `div` 8)).
Proof.
  intros (Hlen & HF & Hbl & Htf & _) Hk. unfold frame_count, MAX_BITMAP_BYTES in *.
  destruct (byte_in_range (BITMAP s) (k `div` 8)) as (byte & _ & _ & -> & ?);
    [done|Z.div_mod_to_equations; lia|done].
Qed.

Lemma fa_inv_set s k :
  fa_inv s → 0 ≤ k < frame_count s →
  fa_inv (mkFrameAllocator (FRAME_REGION_START s) (FRAME_REGION_END s)
            (<[Z.to_nat (k `div` 8) :=
                 Z.lor (BITMAP s !!! Z.to_nat (k `div` 8)) (Z.shiftl 1 (k mod 8))]> (BITMAP s))
            (BITMAP_LEN s) (TOTAL_FRAMES_COUNT s) (INITIALIZED s)).
Proof.
  intros Hinv Hk. apply fa_inv_update; [done|].
  apply is_uint_lor; [done|by apply byte_at_uint|].
  apply is_uint_shiftl1, Z.mod_pos_bound. lia.
Qed.

(** The frame number recovered from a frame's address. *)
Lemma frame_addr_index s k :
  (frame_addr s k - FRAME_REGION_START s) `div` FA_PAGE_SIZE = k.
Proof. unfold frame_addr, FA_PAGE_SIZE. Z.div_mod_to_equations. lia. Qed.

Lemma frame_addr_inside s k :
  fa_inv s → 0 ≤ k < frame_count s →
  FRAME_REGION_START s ≤ frame_addr s k < FRAME_REGION_END s.
Proof.
  intros (_ & _ & _ & _ & _ & _ & -> & _) Hk.
  unfold frame_addr, frame_count, FA_PAGE_SIZE in *. lia.
Qed.

End frame_theorems.

(** ** Initialisation *)

Lemma reserve_bytes_length bm n : length (reserve_bytes bm n) = length bm.
Proof.
  unfold reserve_bytes. generalize (seq 0 (Z.to_nat n)). intros l. revert bm.
  induction l as [|i l IH]; intros bm; [done|]. simpl. by rewrite IH, length_insert.
Qed.

Lemma reserve_bytes_uint bm n :
  Forall (is_uint 8) bm → Forall (is_uint 8) (reserve_bytes bm n).
Proof.
  unfold reserve_bytes. generalize (seq 0 (Z.to_nat n)). intros l. revert bm.
  induction l as [|i l IH]; intros bm HF; [done|]. simpl. apply IH.
  apply Forall_insert; [done|]. done.
Qed.

Lemma reserve_bytes_lookup bm n i :
  0 ≤ n ≤ len bm →
  reserve_bytes bm n !! i = if decide (Z.of_nat i < n) then Some 0xFF else bm !! i.
Proof.
  intros Hn. unfold reserve_bytes, len in *.
  cut (∀ m, (m ≤ length bm)%nat →
    foldl (λ bm i, <[i := 0xFF]> bm) bm (seq 0 m) !! i =
      if decide (i < m)%nat then Some 0xFF else bm !! i).
  { intros ->; [|lia]. repeat case_decide; done || lia. }
  induction m as [|m IH]; intros Hm; [done|].
  rewrite seq_S, foldl_app. cbn [foldl Nat.add].
  assert (length (foldl (λ bm i, <[i := 0xFF]> bm) bm (seq 0 m)) = length bm) as Hlen.
  { pose proof (reserve_bytes_length bm (Z.of_nat m)) as Hl. unfold reserve_bytes in Hl.
    by rewrite Nat2Z.id in Hl. }
  destruct (decide (i = m)) as [->|Hne].
  - rewrite list_lookup_insert_eq by lia. by rewrite decide_True by lia.
  - rewrite list_lookup_insert_ne, IH by lia. repeat case_decide; done || lia.
Qed.

Lemma best_region_inv mm :
  let '(bs, be, sz) := best_region mm in
  sz = be - bs ∧ 0x02000000 ≤ sz ∧ 0x00100000 ≤ bs ∧ be ≤ 0x40000000 ∧
  ((bs, be) = (0x02000000, 0x04000000) ∨
   ∃ st en, (st, en, 1) ∈ mm ∧ bs = Z.max st 0x00100000 ∧ be = Z.min en 0x40000000).
Proof.
  unfold best_region.
  cut (∀ acc : Z * Z * Z,
    (let '(bs, be, sz) := acc in
     sz = be - bs ∧ 0x02000000 ≤ sz ∧ 0x00100000 ≤ bs ∧ be ≤ 0x40000000 ∧
     ((bs, be) = (0x02000000, 0x04000000) ∨
      ∃ st en, (st, en, 1) ∈ mm ∧ bs = Z.max st 0x00100000 ∧ be = Z.min en 0x40000000)) →
    ∀ mm', mm' ⊆ mm →
    let '(bs, be, sz) := foldl best_region_step acc mm' in
    sz = be - bs ∧ 0x02000000 ≤ sz ∧ 0x00100000 ≤ bs ∧ be ≤ 0x40000000 ∧
    ((bs, be) = (0x02000000, 0x04000000) ∨
     ∃ st en, (st, en, 1) ∈ mm ∧ bs = Z.max st 0x00100000 ∧ be = Z.min en 0x40000000)).
  { intros Hcut. apply (Hcut (_, _, _)); [|done]. split_and!; try done; lia || by left. }
  intros acc Hacc mm'. revert acc Hacc.
  induction mm' as [|[[st en] ty] mm' IH]; intros [[bs be] sz] Hacc Hsub; [done|].
  cbn [foldl]. apply IH; [|intros x Hx; apply Hsub; by right].
  unfold best_region_step. destruct (Z.eqb_spec ty 1) as [->|]; [|done]. cbn [negb].
  destruct (Z.geb_spec (Z.max st 1048576) (Z.min en 1073741824)); [done|].
  destruct (Z.gtb_spec (Z.min en 1073741824 - Z.max st 1048576) sz); [|done].
  destruct Hacc as (_ & ? & _). split_and!; [done|lia|lia|lia|].
  right. exists st, en. split; [apply Hsub; by left | done].
Qed.

Section frame_init_theorems.
Context `{BuildProfile}.

Lemma frame_init_boot_eq :
  frame_init frame_alloc_boot =
  Ret (mkFrameAllocator 0x02000000 0x04000000
         (reserve_bytes (replicate 1024 0) 32) 1024 8192 true).
Proof. unfold frame_init, total_frames, frame_alloc_boot. rewrite sub64_ok by done. reflexivity. Qed.

(** What [init_from_memory_map] computes on an allocator that is not yet
    initialised: the page-aligned best region, cut to the bitmap's capacity. *)
Lemma init_from_memory_map_eq s mm :
  INITIALIZED s = false →
  let '(bs, be, _) := best_region mm in
  ∃ as_ ae bm el,
    init_from_memory_map s mm =
      Ret (mkFrameAllocator as_ (as_ + el * 8 * FA_PAGE_SIZE) bm el (el * 8) true) ∧
    as_ mod FA_PAGE_SIZE = 0 ∧ bs ≤ as_ < bs + FA_PAGE_SIZE ∧
    ae mod FA_PAGE_SIZE = 0 ∧ be - FA_PAGE_SIZE < ae ≤ be ∧ as_ < ae ∧
    el = Z.min (div_ceil ((ae - as_) `div` FA_PAGE_SIZE) 8) MAX_BITMAP_BYTES ∧
    length bm = length (BITMAP s) ∧ Forall (is_uint 8) bm.
Proof.
  intros Hinit. pose proof (best_region_inv mm) as Hbest. unfold init_from_memory_map.
  rewrite Hinit. destruct (best_region mm) as [[bs be] sz].
  destruct Hbest as (-> & Hsz & Hlo & Hhi & _). unfold FA_PAGE_SIZE, MAX_BITMAP_BYTES.
  rewrite add64_ok by (unfold is_uint; lia). cbn [mbind outcome_bind].
  rewrite sub64_ok by (unfold is_uint; lia). cbn [mbind outcome_bind].
  change (4096 - 1) with (2 ^ 12 - 1).
  rewrite !land_align_down by (unfold is_uint; lia). change (2 ^ 12) with 4096.
  set (as_ := bs + 4096 - 1 - (bs + 4096 - 1) mod 4096).
  set (ae := be - be mod 4096).
  assert (as_ mod 4096 = 0 ∧ bs ≤ as_ < bs + 4096) as [Has Has'].
  { unfold as_. Z.div_mod_to_equations. lia. }
  assert (ae mod 4096 = 0 ∧ be - 4096 < ae ≤ be) as [Hae Hae'].
  { unfold ae. Z.div_mod_to_equations. lia. }
  destruct (Z.geb_spec as_ ae); [lia|].
  rewrite sub64_ok by (unfold is_uint; lia). cbn [mbind outcome_bind].
  set (el := Z.min (div_ceil ((ae - as_) `div` 4096) 8) 1024).
  assert (0 ≤ el ≤ 1024) as Hel.
  { unfold el, div_ceil. Z.div_mod_to_equations. lia. }
  rewrite mul64_ok by (unfold is_uint; lia). cbn [mbind outcome_bind].
  rewrite mul64_ok by (unfold is_uint; lia). cbn [mbind outcome_bind].
  rewrite add64_ok by (unfold is_uint; lia). cbn [mbind outcome_bind].
  assert (Forall (is_uint 8) (replicate (length (BITMAP s)) 0)) as HF.
  { apply Forall_replicate. done. }
  exists as_, ae. eexists _, el. split_and!; try done || lia.
  - destruct (as_ <? _); by rewrite ?reserve_bytes_length, length_replicate.
  - destruct (as_ <? _); auto using reserve_bytes_uint.
Qed.

End frame_init_theorems.

(** ** Properties of the frame allocator *)

(** C36: [alloc_frame] refines first-fit allocation over a set of owned frames.
    From any well-formed state it never panics (neither the arithmetic, the
    bitmap index nor the region assertion), it returns the lowest frame that
    is not owned, page-aligned and inside the region, and makes exactly that
    frame owned; it returns [None] only when every frame is owned. *)
Theorem alloc_frame_refines `{BuildProfile} s :
  fa_inv s →
  ∃ r s', alloc_frame s = Ret (frame_addr s <$> r, s') ∧ fa_inv s' ∧
    frame_region_start s' = frame_region_start s ∧
    frame_region_end s' = frame_region_end s ∧
    alloc_spec (frame_count s) (owned s) r (owned s') ∧
    (∀ k, r = Some k → frame_addr s k mod FA_PAGE_SIZE = 0 ∧
       frame_region_start s ≤ frame_addr s k < frame_region_end s).
Proof.
  intros Hinv. destruct (alloc_frame_cases s Hinv) as [[Ha Hfull]|(k & s' & Ha & Hk & Hfree & Hlow & ->)].
  - exists None, s. split_and!; [done..| |done].
    apply alloc_spec_full. intros k Hk. apply elem_of_owned. auto.
  - exists (Some k). eexists. split; [exact Ha|]. split_and!; [|done|done| |].
    + by apply fa_inv_set.
    + rewrite owned_set by done. apply alloc_spec_found; [done| |].
      * rewrite elem_of_owned, Hfree. by intros [_ ?].
      * intros j Hj. apply elem_of_owned. split; [lia | by apply Hlow].
    + intros k' [= <-]. split; [|by apply frame_addr_inside].
      destruct Hinv as (_ & _ & _ & _ & _ & Hal & _). unfold frame_addr, FA_PAGE_SIZE in *.
      Z.div_mod_to_equations. lia.
Qed.

(** A small well-formed allocator state: the one [init] leaves at boot. *)
Definition frame_state0 : FrameAllocator :=
  mkFrameAllocator 0x02000000 0x04000000 (reserve_bytes (replicate 1024 0) 32) 1024 8192 true.

Lemma frame_state0_inv : fa_inv frame_state0.
Proof.
  unfold fa_inv. split_and!; try done.
  apply reserve_bytes_uint, Forall_replicate. done.
Qed.

Lemma alloc_frame_refines_witness :
  let P := dev_profile in
  fa_inv frame_state0 ∧ fst <$> alloc_frame frame_state0 = Ret (Some 0x02100000) ∧
  ∃ r s', alloc_frame frame_state0 = Ret (frame_addr frame_state0 <$> r, s') ∧ fa_inv s'.
Proof.
  intros P. split; [apply frame_state0_inv|]. split; [vm_compute; reflexivity|].
  destruct (alloc_frame_refines (H := P) frame_state0 frame_state0_inv)
    as (r & s' & ? & ? & _).
  exists r, s'. done.
Defined.

(** [free_frame] on every branch.  An address outside the region leaves
    the state as it is; inside, the frame that contains the address is
    released if it is owned, and the call panics (double-free detection) if
    it is not; no other frame changes and the state stays well-formed. *)
Theorem free_frame_cases `{BuildProfile} s addr :
  fa_inv s →
  ((addr < frame_region_start s ∨ frame_region_end s ≤ addr) → free_frame s addr = Ret s) ∧
  (frame_region_start s ≤ addr < frame_region_end s →
   let k := (addr - frame_region_start s) `div` FA_PAGE_SIZE in
   (k ∉ owned s → free_frame s addr = Panic) ∧
   (k ∈ owned s → ∃ s', free_frame s addr = Ret s' ∧ fa_inv s' ∧
      owned s' = owned s ∖ {[k]})).
Proof.
  intros Hinv. split.
  - unfold frame_region_start, frame_region_end. intros Hout. unfold free_frame.
    destruct (Z.ltb_spec addr (FRAME_REGION_START s)); [done|].
    rewrite Z.geb_leb, (proj2 (Z.leb_le _ _)) by lia. done.
  - intros Hin k. destruct (free_frame_inside s addr Hinv Hin) as [Hk Heq].
    change ((addr - FRAME_REGION_START s) `div` FA_PAGE_SIZE) with k in Hk, Heq. rewrite Heq. split; intros Hown; rewrite elem_of_owned in Hown.
    + destruct (frame_allocated s k); [|done]. exfalso. by apply Hown.
    + destruct Hown as [_ ->]. eexists. split; [done|]. split.
      * apply fa_inv_update; [done|]. apply is_uint_land_l; [done|]. by apply byte_at_uint.
      * apply owned_clear; auto using byte_at_uint.
Qed.

Lemma free_frame_cases_witness :
  let P := dev_profile in
  free_frame frame_state0 0x04000000 = Ret frame_state0 ∧
  free_frame frame_state0 0x02100000 = Panic.
Proof.
  intros P.
  destruct (free_frame_cases (H := P) frame_state0 0x04000000 frame_state0_inv) as [Hout _].
  destruct (free_frame_cases (H := P) frame_state0 0x02100000 frame_state0_inv) as [_ Hin].
  split; [apply Hout; right; done|]. destruct Hin as [Hin _]; [done|]. apply Hin.
  intros Hown%elem_of_owned. destruct Hown as [_ Hown]. vm_compute in Hown. done.
Defined.

(** allocating a frame and freeing it restores the allocator exactly. *)
Theorem alloc_free_roundtrip `{BuildProfile} s a s' :
  fa_inv s → alloc_frame s = Ret (Some a, s') → free_frame s' a = Ret s.
Proof.
  intros Hinv Ha.
  destruct (alloc_frame_cases s Hinv) as [[? _]|(k & s1 & Ha' & Hk & Hfree & _ & Hs1)]; [congruence|].
  rewrite Ha in Ha'. injection Ha' as -> ->.
  assert (fa_inv s1) as Hinv1 by (rewrite Hs1; by apply fa_inv_set).
  assert (frame_addr s1 k = frame_addr s k) as <- by by rewrite Hs1.
  assert (frame_count s1 = frame_count s) as Hcount by by rewrite Hs1.
  destruct (free_frame_inside s1 (frame_addr s1 k) Hinv1) as [_ ->].
  { apply frame_addr_inside; [done | by rewrite Hcount]. }
  rewrite frame_addr_index. pose proof (byte_at_uint s k Hinv Hk) as H8.
  destruct Hinv as (Hlen & _ & Hbl & Htf & _). unfold frame_count, MAX_BITMAP_BYTES in *.
  pose proof (Z.mod_pos_bound k 8). pose proof (Z.div_pos k 8).
  assert (k `div` 8 < len (BITMAP s)) by (Z.div_mod_to_equations; lia).
  unfold frame_allocated. rewrite Hs1. cbn [FRAME_REGION_START FRAME_REGION_END BITMAP
    BITMAP_LEN TOTAL_FRAMES_COUNT INITIALIZED].
  rewrite bit_at_set, Z.eqb_refl, orb_true_r by (done || lia). unfold len in *.
  rewrite list_lookup_total_insert_eq, list_insert_insert_eq by lia.
  rewrite set_clear_bit by (done || lia).
  rewrite list_insert_id; [by destruct s|]. apply list_lookup_lookup_total_lt. lia.
Qed.

Lemma alloc_free_roundtrip_witness :
  let P := release_profile in
  ∃ s', alloc_frame frame_state0 = Ret (Some 0x02100000, s') ∧
        free_frame s' 0x02100000 = Ret frame_state0.
Proof.
  intros P. eexists. split; [vm_compute; reflexivity|].
  apply (alloc_free_roundtrip (H := P)); [apply frame_state0_inv | vm_compute; reflexivity].
Defined.

(** initialisation establishes the allocator invariant.  [init] on the boot
    state and [init_from_memory_map] on every bootloader map return (no panic
    under either profile) a well-formed allocator marked initialised; the
    default region gives 8192 frames with the first 256 reserved, and a second
    [init_from_memory_map] is a no-op. *)
Theorem init_establishes_inv `{BuildProfile} mm :
  (∃ s, frame_init frame_alloc_boot = Ret s ∧ fa_inv s ∧ frame_count s = 8192 ∧
     ∀ k, 0 ≤ k < frame_count s → frame_allocated s k = (k <? 256)) ∧
  (∃ s, init_from_memory_map frame_alloc_boot mm = Ret s ∧ fa_inv s ∧
     INITIALIZED s = true ∧ ∀ mm', init_from_memory_map s mm' = Ret s).
Proof.
  split.
  - exists frame_state0. split; [apply frame_init_boot_eq|]. split; [apply frame_state0_inv|].
    split; [done|]. intros k Hk.
    change (frame_count frame_state0) with 8192 in Hk. unfold frame_allocated, bit_at.
    cbn [BITMAP frame_state0]. rewrite list_lookup_total_alt, reserve_bytes_lookup by done.
    assert (0 ≤ k mod 8 < 8) by (apply Z.mod_pos_bound; lia).
    case_decide.
    + cbn [default]. rewrite (proj2 (byte_full 0xFF ltac:(done)) eq_refl) by done.
      symmetry. apply Z.ltb_lt. Z.div_mod_to_equations. lia.
    + rewrite lookup_replicate_2 by (Z.div_mod_to_equations; lia). cbn [default].
      rewrite Z.bits_0. symmetry. apply Z.ltb_ge. Z.div_mod_to_equations. lia.
  - pose proof (init_from_memory_map_eq frame_alloc_boot mm eq_refl) as Heq.
    pose proof (best_region_inv mm) as Hbest. destruct (best_region mm) as [[bs be] sz].
    destruct Hbest as (-> & Hsz & Hlo & Hhi & _).
    destruct Heq as (a & e & bm & el & -> & Ha & Ha' & He & He' & Hae & Hel & Hlen & HF).
    eexists. split; [done|]. split; [|done].
    assert (0 ≤ el ≤ 1024).
    { rewrite Hel. unfold div_ceil, MAX_BITMAP_BYTES, FA_PAGE_SIZE in *. Z.div_mod_to_equations. lia. }
    unfold fa_inv, len. cbn [BITMAP BITMAP_LEN TOTAL_FRAMES_COUNT FRAME_REGION_START FRAME_REGION_END].
    rewrite Hlen. unfold FA_PAGE_SIZE, MAX_BITMAP_BYTES in *.
    split_and!; try done || lia.
Qed.

(** with a page-aligned memory map the managed region is usable RAM: it
    lies inside one usable entry of the map (cut to 1 MiB .. 1 GiB), unless no
    usable entry is larger than the default 32 MiB region, which is then used
    as it is. *)
Theorem region_inside_usable_ram `{BuildProfile} mm s :
  (∀ st en ty, (st, en, ty) ∈ mm → st mod FA_PAGE_SIZE = 0 ∧ en mod FA_PAGE_SIZE = 0) →
  init_from_memory_map frame_alloc_boot mm = Ret s →
  (frame_region_start s = 0x02000000 ∧ frame_region_end s = 0x04000000) ∨
  ∃ st en, (st, en, 1) ∈ mm ∧ Z.max st 0x00100000 ≤ frame_region_start s ∧
    frame_region_end s ≤ Z.min en 0x40000000.
Proof.
  intros Hal Hinit.
  pose proof (init_from_memory_map_eq frame_alloc_boot mm eq_refl) as Heq.
  pose proof (best_region_inv mm) as Hbest. destruct (best_region mm) as [[bs be] sz].
  destruct Hbest as (-> & Hsz & Hlo & Hhi & Hsrc).
  destruct Heq as (a & e & bm & el & Heq & Ha & Ha' & He & He' & Hae & Hel & _ & _).
  rewrite Hinit in Heq. injection Heq as ->. unfold frame_region_start, frame_region_end.
  cbn [FRAME_REGION_START FRAME_REGION_END]. unfold FA_PAGE_SIZE, MAX_BITMAP_BYTES, div_ceil in *.
  destruct Hsrc as [[= -> ->]|(st & en & Hin & -> & ->)].
  - left. assert (a = 0x02000000) as -> by (Z.div_mod_to_equations; lia).
    assert (e = 0x04000000) as -> by (Z.div_mod_to_equations; lia). rewrite Hel. done.
  - right. exists st, en. split; [done|]. destruct (Hal _ _ _ Hin) as [Hst Hen].
    assert (a = Z.max st 0x00100000) as -> by (Z.div_mod_to_equations; lia).
    assert (e = Z.min en 0x40000000) as -> by (Z.div_mod_to_equations; lia).
    assert (el = 1024) as -> by (rewrite Hel; Z.div_mod_to_equations; lia). lia.
Qed.

Lemma region_inside_usable_ram_witness :
  let P := dev_profile in
  let mm := [(0, 0x000A0000, 2); (0x00100000, 0x3FFFF000, 1)] in
  ∃ s, init_from_memory_map frame_alloc_boot mm = Ret s ∧ frame_region_start s = 0x00100000 ∧
    ((frame_region_start s = 0x02000000 ∧ frame_region_end s = 0x04000000) ∨
     ∃ st en, (st, en, 1) ∈ mm ∧ Z.max st 0x00100000 ≤ frame_region_start s ∧
       frame_region_end s ≤ Z.min en 0x40000000).
Proof.
  intros P mm. eexists. split; [vm_compute; reflexivity|]. split; [reflexivity|].
  apply (region_inside_usable_ram (H := P)); [|vm_compute; reflexivity].
  intros st en ty [[= -> -> ->]|[[= -> -> ->]|[]%not_elem_of_nil]%elem_of_cons]%elem_of_cons; done.
Defined.

(** without page alignment the region can leave usable RAM.  The frame
    count is rounded up to a multiple of eight when the bitmap length is
    computed, so on a map whose only usable entry is the byte range
    0x100001 .. 0x2100002 the region handed to the allocator ends beyond the
    entry, and its last frame, which is free, lies partly outside it. *)
Theorem region_overrun `{BuildProfile} :
  ∃ s, init_from_memory_map frame_alloc_boot [(0x00100001, 0x02100002, 1)] = Ret s ∧
    0x02100002 < frame_region_end s ∧
    frame_allocated s (frame_count s - 1) = false ∧
    frame_addr s (frame_count s - 1) + FA_PAGE_SIZE = frame_region_end s.
Proof. eexists. split; [vm_compute; reflexivity|]. split_and!; reflexivity. Qed.
