(* ===== verification/Shm.v ===== *)
(** * Shared memory segments (kernel/src/ipc/shm.rs)

    The segment table, the frames behind the segments and the attachments of
    all tasks.  Frames come from an interface, the class [FrameSource], whose
    laws the frame allocator satisfies.  The page-table work is outside: the
    address [find_free_range] chose is an argument of [shmat], and mapping and
    unmapping of pages changes nothing here. *)

From stdpp Require Import relations sorting.
From S2P Require Import Prelude FrameAlloc.

(** ** The frame allocator as its clients see it *)

Class FrameSource (F : Type) : Type := {
  take_frame : F → outcome (option Z * F);
  give_frame : F → Z → outcome F;
}.

(** A fresh frame is one that was not out; returning a frame that is out makes
    it free again and nothing panics. *)
Class FrameSourceLaws (F : Type) `{FrameSource F} : Type := {
  fs_valid : F → Prop;
  frames_out : F → gset Z;
  take_ok f : fs_valid f → ∃ r f', take_frame f = Ret (r, f') ∧ fs_valid f' ∧
    match r with
    | Some a => (a ∉ frames_out f) ∧ frames_out f' = {[a]} ∪ frames_out f
    | None => frames_out f' = frames_out f
    end;
  give_ok f a : fs_valid f → a ∈ frames_out f →
    ∃ f', give_frame f a = Ret f' ∧ fs_valid f' ∧ frames_out f' = frames_out f ∖ {[a]};
}.

#[export] Instance FrameAllocator_source `{BuildProfile} : FrameSource FrameAllocator := {|
  take_frame := alloc_frame;
  give_frame := free_frame;
|}.

(** ** Segments *)

Definition SHM_PAGE_SIZE : Z := 0x1000.
Definition MIN_SHM_SIZE : Z := 1.
Definition MAX_SHM_SIZE : Z := 16 * 1024 * 1024.
Definition IPC_CREAT : Z := 512.
Definition IPC_EXCL : Z := 1024.

Record SharedMemorySegment : Type := mkSegment {
  seg_id : Z;
  seg_key : Z;
  seg_size : Z;
  refcount : Z;
  pages : list Z;
  marked_for_removal : bool;
}.

Record ShmAttachment : Type := mkAttachment { shmid : Z; virt_addr : Z; att_size : Z }.

Inductive shm_error : Type := ShmInvalidArgument | ShmAlreadyExists | ShmNotFound | ShmOutOfMemory.

Section shm.
Context {F : Type} `{FrameSource F} `{BuildProfile}.

(** [SHM_TABLE], [NEXT_ID], the frame allocator, and the attachment lists of
    all tasks as one list tagged with the task (the order within a task is the
    order of its own list). *)
Record ShmState : Type := mkShmState {
  SHM_TABLE : gmap Z SharedMemorySegment;
  NEXT_ID : Z;
  frames : F;
  shm_attachments : list (Z * ShmAttachment);
}.

Definition id_le (a b : Z * SharedMemorySegment) : Prop := a.1 ≤ b.1.
#[local] Instance id_le_dec a b : Decision (id_le a b).
Proof. unfold id_le. apply _. Defined.

(** [table.values()], in the key order of the map. *)
Definition table_values (t : gmap Z SharedMemorySegment) : list SharedMemorySegment :=
  (merge_sort id_le (map_to_list t)).*2.

Fixpoint alloc_pages (n : nat) (f : F) : outcome (option (list Z) * F) :=
  match n with
  | O => Ret (Some [], f)
  | S n =>
      '(r, f) ← take_frame f;
      match r with
      | None => Ret (None, f)
      | Some frame =>
          '(rest, f) ← alloc_pages n f;
          Ret (option_map (cons frame) rest, f)
      end
  end.

Fixpoint free_pages (l : list Z) (f : F) : outcome F :=
  match l with
  | [] => Ret f
  | frame :: l => f ← give_frame f frame; free_pages l f
  end.

Definition shm_align_up (n : Z) : Z := Z.land (n + SHM_PAGE_SIZE - 1) (unot 64 (SHM_PAGE_SIZE - 1)).

Definition shmget (st : ShmState) (key size flags : Z) : outcome (result Z shm_error * ShmState) :=
  if negb ((MIN_SHM_SIZE <=? size) && (size <=? MAX_SHM_SIZE)) then Ret (Err ShmInvalidArgument, st)
  else
    let create := (key =? 0) || negb (Z.land flags IPC_CREAT =? 0) in
    let exclusive := negb (Z.land flags IPC_EXCL =? 0) in
    let existing :=
      if negb (key =? 0)
      then snd <$> list_find (λ seg, seg_key seg = key ∧ marked_for_removal seg = false) (table_values (SHM_TABLE st))
      else None in
    match existing with
    | Some seg =>
        if exclusive && create then Ret (Err ShmAlreadyExists, st) else Ret (Ok (seg_id seg), st)
    | None =>
        if negb create then Ret (Err ShmNotFound, st)
        else
          let aligned_size := shm_align_up size in
          let num_pages := aligned_size `div` SHM_PAGE_SIZE in
          '(ps, f) ← alloc_pages (Z.to_nat num_pages) (frames st);
          match ps with
          | None => Ret (Err ShmOutOfMemory, mkShmState (SHM_TABLE st) (NEXT_ID st) f (shm_attachments st))
          | Some ps =>
              let id := NEXT_ID st in
              Ret (Ok id,
                   mkShmState (<[id := mkSegment id key aligned_size 0 ps false]> (SHM_TABLE st))
                     (wrapping_add 32 id 1) f (shm_attachments st))
          end
    end.

Definition with_refcount (seg : SharedMemorySegment) (c : Z) : SharedMemorySegment :=
  mkSegment (seg_id seg) (seg_key seg) (seg_size seg) c (pages seg) (marked_for_removal seg).

Definition shmat (st : ShmState) (task segment_id : Z) (free_range : option Z)
    : outcome (result Z shm_error * ShmState) :=
  match SHM_TABLE st !! segment_id with
  | Some seg =>
      if marked_for_removal seg then Ret (Err ShmNotFound, st)
      else match free_range with
      | None => Ret (Err ShmOutOfMemory, st)
      | Some virt =>
          c ← add32 (refcount seg) 1;
          Ret (Ok virt,
               mkShmState (<[segment_id := with_refcount seg c]> (SHM_TABLE st)) (NEXT_ID st) (frames st)
                 (shm_attachments st ++ [(task, mkAttachment segment_id virt (seg_size seg))]))
      end
  | None => Ret (Err ShmNotFound, st)
  end.

(** Dropping one attachment of a segment: the part [shmdt] and the cleanup on
    exit share. *)
Definition detach (id : Z) (st : ShmState) : outcome ShmState :=
  match SHM_TABLE st !! id with
  | None => Ret st
  | Some seg =>
      let c := saturating_sub (refcount seg) 1 in
      if marked_for_removal seg && (c =? 0) then
        f ← free_pages (pages seg) (frames st);
        Ret (mkShmState (delete id (SHM_TABLE st)) (NEXT_ID st) f (shm_attachments st))
      else
        Ret (mkShmState (<[id := with_refcount seg c]> (SHM_TABLE st)) (NEXT_ID st) (frames st)
               (shm_attachments st))
  end.

Definition with_attachments (st : ShmState) (l : list (Z * ShmAttachment)) : ShmState :=
  mkShmState (SHM_TABLE st) (NEXT_ID st) (frames st) l.

Definition shmdt (st : ShmState) (task addr : Z) : outcome (result unit shm_error * ShmState) :=
  if (addr =? 0) || negb (addr mod SHM_PAGE_SIZE =? 0) then Ret (Err ShmInvalidArgument, st)
  else
    match list_find (λ p, p.1 = task ∧ virt_addr p.2 = addr) (shm_attachments st) with
    | None => Ret (Err ShmNotFound, st)
    | Some (idx, (_, att)) =>
        st ← detach (shmid att) (with_attachments st (delete idx (shm_attachments st)));
        Ret (Ok tt, st)
    end.

Definition shm_mark_removal (st : ShmState) (id : Z) : outcome (result unit shm_error * ShmState) :=
  match SHM_TABLE st !! id with
  | None => Ret (Err ShmNotFound, st)
  | Some seg =>
      if refcount seg =? 0 then
        f ← free_pages (pages seg) (frames st);
        Ret (Ok tt, mkShmState (delete id (SHM_TABLE st)) (NEXT_ID st) f (shm_attachments st))
      else
        let seg' := mkSegment (seg_id seg) (seg_key seg) (seg_size seg) (refcount seg) (pages seg) true in
        Ret (Ok tt, mkShmState (<[id := seg']> (SHM_TABLE st)) (NEXT_ID st) (frames st) (shm_attachments st))
  end.

Fixpoint cleanup_task_attachments (atts : list (Z * ShmAttachment)) (st : ShmState) : outcome ShmState :=
  match atts with
  | [] => Ret st
  | (_, att) :: atts => st ← detach (shmid att) st; cleanup_task_attachments atts st
  end.

(** The exit of a task: its attachments are cleaned up and its list dropped. *)
Definition shm_exit (st : ShmState) (task : Z) : outcome ShmState :=
  let mine := filter (λ p, p.1 = task) (shm_attachments st) in
  let rest := filter (λ p, ¬ p.1 = task) (shm_attachments st) in
  cleanup_task_attachments mine (with_attachments st rest).

End shm.
Arguments ShmState : clear implicits.

(** ** The frame allocator satisfies the laws *)

Lemma owned_addr s k :
  fa_inv s → frame_addr s k ∈ (set_map (frame_addr s) (owned s) : gset Z) ↔ k ∈ owned s.
Proof.
  intros Hi. rewrite elem_of_map. split; [|eauto].
  intros (j & Hj & Hin). pose proof (frame_addr_index s k) as Hk. pose proof (frame_addr_index s j) as Hj'.
  rewrite Hj in Hk. congruence.
Qed.

#[export] Instance FrameAllocator_laws `{BuildProfile} : FrameSourceLaws FrameAllocator.
Proof.
  refine {| fs_valid := fa_inv; frames_out s := set_map (frame_addr s) (owned s) |}.
  - intros s Hi. simpl. destruct (alloc_frame_cases s Hi) as [[Ha _]|(k & s' & Ha & Hk & Hfree & _ & ->)].
    + exists None, s. done.
    + exists (Some (frame_addr s k)). eexists. split; [exact Ha|]. split; [by apply fa_inv_set|]. split.
      * rewrite owned_addr, elem_of_owned by done. intros [_ ?]. congruence.
      * rewrite owned_set by done. unfold frame_addr at 1. cbn [FRAME_REGION_START].
        fold (frame_addr s). by rewrite set_map_union_L, set_map_singleton_L.
  - intros s a Hi (k & -> & Hk)%elem_of_map. simpl.
    pose proof (proj1 (elem_of_owned s k) Hk) as [Hr Hal].
    destruct (free_frame_inside s (frame_addr s k) Hi) as [_ Hf]; [by apply frame_addr_inside|].
    rewrite frame_addr_index, Hal in Hf. eexists. split; [exact Hf|]. split.
    + apply fa_inv_update; [done|]. apply is_uint_land_l; [done|]. by apply byte_at_uint.
    + rewrite owned_clear by (done || by apply byte_at_uint).
      unfold frame_addr at 1. cbn [FRAME_REGION_START]. fold (frame_addr s).
      apply set_eq. intros x. rewrite elem_of_difference, elem_of_singleton, !elem_of_map.
      setoid_rewrite elem_of_difference. setoid_rewrite elem_of_singleton. split.
      * intros (j & -> & Hj & Hne). split; [eauto|]. intros Heq. apply Hne.
        rewrite <- (frame_addr_index s j), <- (frame_addr_index s k). congruence.
      * intros ((j & -> & Hj) & Hne). exists j. split_and!; [done..|]. by intros ->.
Defined.

(** ** Page lists and the frame source *)

Section proofs.
Context {F : Type} `{FrameSourceLaws F} `{BuildProfile}.
Implicit Types (st : ShmState F) (f : F).

(** Allocation takes fresh, distinct frames; when it fails, the frames it had
    taken stay out. *)
Lemma alloc_pages_ok n f :
  fs_valid f →
  ∃ r f' taken, alloc_pages n f = Ret (r, f') ∧ fs_valid f' ∧ NoDup taken ∧
    (∀ a, a ∈ taken → a ∉ frames_out f) ∧ frames_out f' = list_to_set taken ∪ frames_out f ∧
    match r with Some ps => ps = taken ∧ length ps = n | None => (length taken < n)%nat end.
Proof.
  revert f. induction n as [|n IH]; intros f Hv; simpl.
  { exists (Some []), f, []. split_and!; [done..|constructor|set_solver|set_solver|done|done]. }
  destruct (take_ok f Hv) as (r & f1 & -> & Hv1 & Hr). cbn [mbind outcome_bind]. destruct r as [a|].
  - destruct Hr as [Ha Hout]. destruct (IH f1 Hv1) as (r & f2 & taken & -> & Hv2 & Hnd & Hfresh & Hout2 & Hres).
    cbn [mbind outcome_bind]. exists (option_map (cons a) r), f2, (a :: taken).
    assert (a ∉ taken) as Hat by (intros Hin%Hfresh; set_solver).
    split_and!; [done|done|by constructor|set_solver|set_solver|].
    destruct r as [ps|]; simpl; [destruct Hres as [-> <-]; done | lia].
  - exists None, f1, []. split_and!; [done..|constructor|set_solver|set_solver|simpl; lia].
Qed.

(** Returning distinct frames that are out never panics. *)
Lemma free_pages_ok l f :
  fs_valid f → NoDup l → (∀ a, a ∈ l → a ∈ frames_out f) →
  ∃ f', free_pages l f = Ret f' ∧ fs_valid f' ∧ frames_out f' = frames_out f ∖ list_to_set l.
Proof.
  revert f. induction l as [|a l IH]; intros f Hv Hnd Hin; simpl.
  { exists f. split_and!; [done|done|set_solver]. }
  apply list.NoDup_cons in Hnd as [Ha Hnd].
  destruct (give_ok f a Hv) as (f1 & -> & Hv1 & Hout); [set_solver|]. cbn [mbind outcome_bind].
  destruct (IH f1 Hv1 Hnd) as (f2 & -> & Hv2 & Hout2).
  { intros b Hb. rewrite Hout. apply elem_of_difference. split; [set_solver|]. set_solver. }
  exists f2. split_and!; [done|done|]. rewrite Hout2, Hout. set_solver.
Qed.

(** ** The invariant *)

Abbreviation Attached := (list (Z * ShmAttachment)).
Implicit Types (A : Attached).

(** How many attachments name a segment. *)
Definition count_att (id : Z) A : Z := len (filter (λ p, shmid p.2 = id) A).

(** A segment knows its id, counts its attachments, is not kept once it is
    marked and unused, and owns distinct frames that are out. *)
Definition seg_ok (next : Z) (out : gset Z) A (id : Z) (seg : SharedMemorySegment) : Prop :=
  seg_id seg = id ∧ 0 ≤ id < next ∧ refcount seg = count_att id A ∧
  (marked_for_removal seg = true → refcount seg ≠ 0) ∧
  NoDup (pages seg) ∧ (∀ a, a ∈ pages seg → a ∈ out).

Definition exclusive_pages (T : gmap Z SharedMemorySegment) : Prop :=
  ∀ id1 id2 s1 s2 a, T !! id1 = Some s1 → T !! id2 = Some s2 → a ∈ pages s1 → a ∈ pages s2 → id1 = id2.

Definition shm_inv st A : Prop :=
  fs_valid (frames st) ∧
  map_Forall (seg_ok (NEXT_ID st) (frames_out (frames st)) A) (SHM_TABLE st) ∧
  exclusive_pages (SHM_TABLE st) ∧
  (∀ p, p ∈ A → is_Some (SHM_TABLE st !! shmid p.2)).

Lemma count_att_cons id p A : count_att id (p :: A) = count_att id A + (if decide (shmid p.2 = id) then 1 else 0).
Proof.
  unfold count_att, len. rewrite filter_cons. destruct (decide _); simpl; lia.
Qed.

Lemma count_att_nonneg id A : 0 ≤ count_att id A.
Proof. unfold count_att, len. lia. Qed.

Lemma count_att_zero id A : count_att id A = 0 ↔ ∀ p, p ∈ A → shmid p.2 ≠ id.
Proof.
  induction A as [|q A IH]; [split; [set_solver | done]|]. rewrite count_att_cons.
  pose proof (count_att_nonneg id A). destruct (decide _) as [Hq|Hq].
  - split; [lia|]. intros Hall. by destruct (Hall q); [set_solver|].
  - rewrite Z.add_0_r, IH. split; [intros Hall p [->|?]%elem_of_cons; auto | set_solver].
Qed.

Lemma count_att_bound id A : count_att id A ≤ len A.
Proof. unfold count_att, len. pose proof (length_filter (λ p, shmid p.2 = id) A). lia. Qed.

Lemma count_att_perm id A A' : A ≡ₚ A' → count_att id A = count_att id A'.
Proof. intros Hp. unfold count_att, len. by rewrite Hp. Qed.

Lemma shm_inv_perm st A A' : A ≡ₚ A' → shm_inv st A → shm_inv st A'.
Proof.
  intros Hp (Hv & Hseg & Hex & Hatt). split_and!; [done| |done|].
  - intros id seg Hid. destruct (Hseg id seg Hid) as (? & ? & Hr & ?). split_and!; try done; [tauto|tauto| |tauto..].
    by rewrite <- (count_att_perm id _ _ Hp).
  - intros p Hin. apply Hatt. by rewrite Hp.
Qed.

(** Deleting a segment and returning its frames leaves the others intact. *)
Lemma delete_segment st A A' id seg f' :
  shm_inv st A → SHM_TABLE st !! id = Some seg → fs_valid f' →
  frames_out f' = frames_out (frames st) ∖ list_to_set (pages seg) →
  (∀ id', id' ≠ id → count_att id' A' = count_att id' A) → (∀ p, p ∈ A' → p ∈ A ∧ shmid p.2 ≠ id) →
  shm_inv (mkShmState (delete id (SHM_TABLE st)) (NEXT_ID st) f' (shm_attachments st)) A'.
Proof.
  intros (Hv & Hseg & Hex & Hatt) Hid Hv' Hout Hcnt Hsub. split_and!; simpl; [done| | |].
  - intros id' seg' [Hne Hid']%lookup_delete_Some.
    destruct (Hseg id' seg' Hid') as (? & ? & Hr & ? & ? & Hin). split_and!; [done|tauto|tauto| |done|done|].
    + rewrite Hr. symmetry. by apply Hcnt.
    + intros a Ha. rewrite Hout. apply elem_of_difference. split; [by apply Hin|].
      rewrite elem_of_list_to_set. intros Ha'. apply Hne. by eapply (Hex id id').
  - intros id1 id2 s1 s2 a [_ Hi1]%lookup_delete_Some [_ Hi2]%lookup_delete_Some. by apply (Hex id1 id2 s1 s2 a).
  - intros p Hp. destruct (Hsub p Hp) as [HpA Hne]. rewrite lookup_delete_ne by done. by apply Hatt.
Qed.

(** Updating a segment without touching its frames. *)
Lemma update_segment st A A' id seg seg' att :
  shm_inv st A → SHM_TABLE st !! id = Some seg → pages seg' = pages seg →
  seg_ok (NEXT_ID st) (frames_out (frames st)) A' id seg' →
  (∀ id', id' ≠ id → count_att id' A' = count_att id' A) → (∀ p, p ∈ A' → p ∈ A ∨ shmid p.2 = id) →
  shm_inv (mkShmState (<[id := seg']> (SHM_TABLE st)) (NEXT_ID st) (frames st) att) A'.
Proof.
  intros (Hv & Hseg & Hex & Hatt) Hid Hpg Hok Hcnt Hsub. split_and!; simpl; [done| | |].
  - intros id' s' [[<- <-]|[Hne Hid']]%lookup_insert_Some; [done|].
    destruct (Hseg id' s' Hid') as (? & ? & Hr & ?). split_and!; try tauto.
    rewrite Hr. symmetry. by apply Hcnt.
  - assert (∀ i s, <[id := seg']> (SHM_TABLE st) !! i = Some s → ∃ s0, SHM_TABLE st !! i = Some s0 ∧ pages s0 = pages s) as Hold.
    { intros i s [[<- <-]|[Hne Hi]]%lookup_insert_Some; eauto. }
    intros id1 id2 s1 s2 a (o1 & Ho1 & E1)%Hold (o2 & Ho2 & E2)%Hold Ha1 Ha2.
    rewrite <- E1 in Ha1. rewrite <- E2 in Ha2. by apply (Hex id1 id2 o1 o2 a).
  - intros p Hp. destruct (decide (shmid p.2 = id)) as [->|Hne]; [rewrite lookup_insert_eq; eauto|].
    rewrite lookup_insert_ne by done. apply Hatt. destruct (Hsub p Hp); done.
Qed.

Lemma detach_ok st A p :
  shm_inv st (p :: A) →
  ∃ st', detach (shmid p.2) st = Ret st' ∧ shm_inv st' A ∧
    shm_attachments st' = shm_attachments st ∧ NEXT_ID st' = NEXT_ID st.
Proof.
  intros Hinv. pose proof Hinv as (Hv & Hseg & Hex & Hatt). set (id := shmid p.2) in *.
  destruct (Hatt p) as [seg Hid]; [set_solver|]. fold id in Hid.
  destruct (Hseg id seg Hid) as (Hsid & Hrng & Href & Hmark & Hnd & Hin).
  rewrite count_att_cons, decide_True in Href by done. pose proof (count_att_nonneg id A).
  assert (∀ id', id' ≠ id → count_att id' A = count_att id' (p :: A)) as Hcnt.
  { intros id' Hne. rewrite count_att_cons, decide_False by (unfold id in *; congruence). lia. }
  unfold detach. rewrite Hid. unfold saturating_sub. rewrite Z.max_l by lia. destruct (_ && _) eqn:Hfree.
  - apply andb_true_iff in Hfree as [Hm Hz%Z.eqb_eq].
    destruct (free_pages_ok (pages seg) (frames st) Hv Hnd Hin) as (f' & -> & Hv' & Hout).
    cbn [mbind outcome_bind]. eexists. split; [done|]. split_and!; [|done|done].
    eapply delete_segment; [exact Hinv|exact Hid|done|done|done|].
    intros q Hq. split; [set_solver|]. eapply count_att_zero; [|exact Hq]. lia.
  - eexists. split; [done|]. split_and!; [|done|done].
    eapply update_segment; [exact Hinv|exact Hid|done| |done|set_solver].
    split_and!; simpl; [done|lia|lia|lia| |done|done].
    intros Hm. rewrite Hm in Hfree. apply Z.eqb_neq in Hfree. lia.
Qed.

Lemma cleanup_ok atts st A :
  shm_inv st (atts ++ A) →
  ∃ st', cleanup_task_attachments atts st = Ret st' ∧ shm_inv st' A ∧
    shm_attachments st' = shm_attachments st ∧ NEXT_ID st' = NEXT_ID st.
Proof.
  revert st. induction atts as [|[t att] atts IH]; intros st Hinv; [by exists st|]. simpl in *.
  destruct (detach_ok st (atts ++ A) (t, att) Hinv) as (st1 & Hd & Hinv1 & Ha1 & Hn1). simpl in Hd. rewrite Hd.
  cbn [mbind outcome_bind]. destruct (IH st1 Hinv1) as (st2 & Hc & Hinv2 & Ha2 & Hn2).
  exists st2. split_and!; [done|done|congruence|congruence].
Qed.

(** ** Every operation keeps the invariant and never panics *)

Definition shm_ok st : Prop := shm_inv st (shm_attachments st).

(** Identifiers and reference counts stay within 32 bits. *)
Definition shm_room st : Prop := NEXT_ID st + 1 < 2 ^ 32 ∧ len (shm_attachments st) + 1 < 2 ^ 32.

Lemma shm_inv_frames st A f' :
  shm_inv st A → fs_valid f' → frames_out (frames st) ⊆ frames_out f' →
  shm_inv (mkShmState (SHM_TABLE st) (NEXT_ID st) f' (shm_attachments st)) A.
Proof.
  intros (Hv & Hseg & Hex & Hatt) Hv' Hsub. split_and!; simpl; [done| |done|done].
  intros id seg Hid. destruct (Hseg id seg Hid) as (? & ? & ? & ? & ? & Hin). split_and!; try tauto.
  intros a Ha. by apply Hsub, Hin.
Qed.

Lemma new_segment st A seg f' :
  shm_inv st A → 0 ≤ NEXT_ID st → fs_valid f' → frames_out f' = list_to_set (pages seg) ∪ frames_out (frames st) →
  NoDup (pages seg) → (∀ a, a ∈ pages seg → a ∉ frames_out (frames st)) →
  seg_id seg = NEXT_ID st → refcount seg = 0 → marked_for_removal seg = false →
  shm_inv (mkShmState (<[NEXT_ID st := seg]> (SHM_TABLE st)) (NEXT_ID st + 1) f' (shm_attachments st)) A.
Proof.
  intros (Hv & Hseg & Hex & Hatt) Hn Hv' Hout Hnd Hfresh Hsid Href Hm.
  assert (SHM_TABLE st !! NEXT_ID st = None) as Hnone.
  { destruct (SHM_TABLE st !! NEXT_ID st) as [s|] eqn:Hs; [|done]. destruct (Hseg _ _ Hs) as (_ & ? & _). lia. }
  split_and!; simpl; [done| | |].
  - intros id s [[<- <-]|[Hne Hid]]%lookup_insert_Some.
    + split_and!; [done|lia|lia| |congruence|done|set_solver].
      rewrite Href. symmetry. apply count_att_zero. intros p Hp Heq. destruct (Hatt p Hp) as [s Hs].
      rewrite Heq in Hs. congruence.
    + destruct (Hseg id s Hid) as (? & ? & ? & ? & ? & Hin). split_and!; try tauto; [lia|].
      intros a Ha. rewrite Hout. set_solver.
  - intros id1 id2 s1 s2 a Hi1 Hi2 Ha1 Ha2.
    apply lookup_insert_Some in Hi1 as [[<- <-]|[_ Hi1]]; apply lookup_insert_Some in Hi2 as [[<- <-]|[_ Hi2]]; try done.
    + destruct (Hseg _ _ Hi2) as (_ & _ & _ & _ & _ & Hin). by destruct (Hfresh a Ha1); apply Hin.
    + destruct (Hseg _ _ Hi1) as (_ & _ & _ & _ & _ & Hin). by destruct (Hfresh a Ha2); apply Hin.
    + by apply (Hex id1 id2 s1 s2 a).
  - intros p Hp. destruct (Hatt p Hp) as [s Hs]. rewrite lookup_insert_ne; [eauto|]. congruence.
Qed.

Definition stable st : Prop := shm_ok st ∧ 0 ≤ NEXT_ID st.

Lemma shmget_ok st key size flags :
  stable st → shm_room st →
  ∃ r st', shmget st key size flags = Ret (r, st') ∧ stable st' ∧ shm_attachments st' = shm_attachments st.
Proof.
  intros Hst [Hroom _]. pose proof Hst as [Hinv Hn]. unfold shmget. destruct (negb _); [by eauto 6|].
  set (existing := if negb (key =? 0) then _ else _). destruct existing as [seg|]; [destruct (_ && _); by eauto 6|].
  destruct (negb _); [by eauto 6|].
  destruct (alloc_pages_ok (Z.to_nat (shm_align_up size `div` SHM_PAGE_SIZE)) (frames st))
    as (ps & f' & taken & -> & Hv' & Hnd & Hfresh & Hout & Hres); [apply Hinv|].
  cbn [mbind outcome_bind]. destruct ps as [ps|]; eexists _, _; (split; [done|]); (split; [|done]); split; simpl.
  - destruct Hres as [-> _]. unfold shm_ok, wrapping_add, wrap. rewrite Z.mod_small by lia.
    by apply new_segment.
  - unfold wrapping_add, wrap. rewrite Z.mod_small; lia.
  - apply shm_inv_frames; [done..|]. rewrite Hout. set_solver.
  - done.
Qed.

Lemma shmat_ok st task id free_range :
  stable st → shm_room st → ∃ r st', shmat st task id free_range = Ret (r, st') ∧ stable st'.
Proof.
  intros Hst [_ Hroom]. pose proof Hst as [Hinv Hn]. unfold shmat. destruct (SHM_TABLE st !! id) as [seg|] eqn:Hid; [|by eauto 6].
  destruct (marked_for_removal seg) eqn:Hm; [by eauto 6|]. destruct free_range as [virt|]; [|by eauto 6].
  pose proof Hinv as (_ & Hseg & _ & _). destruct (Hseg id seg Hid) as (Hsid & Hrng & Href & _ & Hnd & Hin).
  pose proof (count_att_bound id (shm_attachments st)). pose proof (count_att_nonneg id (shm_attachments st)).
  rewrite add32_ok by (unfold is_uint; lia). cbn [mbind outcome_bind]. eexists _, _. split; [done|]. split; [|done].
  set (att := (task, mkAttachment id virt (seg_size seg))).
  apply (shm_inv_perm _ (att :: shm_attachments st)); [apply Permutation_cons_append|].
  eapply update_segment; [exact Hinv|exact Hid|done| | |].
  - split_and!; simpl; [done|lia|lia| |congruence|done|done].
    rewrite count_att_cons, decide_True by done. lia.
  - intros id' Hne. rewrite count_att_cons, decide_False by (simpl; congruence). lia.
  - intros p [->|?]%elem_of_cons; [by right | by left].
Qed.

Lemma shmdt_ok st task addr :
  stable st → ∃ r st', shmdt st task addr = Ret (r, st') ∧ stable st' ∧ NEXT_ID st' = NEXT_ID st.
Proof.
  intros Hst. pose proof Hst as [Hinv Hn]. unfold shmdt. destruct (_ || _); [by eauto 7|].
  destruct (list_find _ _) as [[idx [t att]]|] eqn:Hf; [|by eauto 7].
  apply list_find_Some in Hf as (Hidx & _ & _).
  destruct (detach_ok (with_attachments st (delete idx (shm_attachments st))) (delete idx (shm_attachments st)) (t, att))
    as (st' & Hd & Hinv' & Hatt & Hnext).
  { eapply shm_inv_perm; [|exact Hinv]. by apply delete_Permutation. }
  simpl in Hd. rewrite Hd. cbn [mbind outcome_bind]. eexists _, _. split; [done|].
  simpl in *. split; [|done]. split; [unfold shm_ok; by rewrite Hatt | lia].
Qed.

Lemma shm_mark_removal_ok st id :
  stable st → ∃ r st', shm_mark_removal st id = Ret (r, st') ∧ stable st' ∧ shm_attachments st' = shm_attachments st.
Proof.
  intros Hst. pose proof Hst as [Hinv Hn]. unfold shm_mark_removal. destruct (SHM_TABLE st !! id) as [seg|] eqn:Hid; [|by eauto 7].
  pose proof Hinv as (Hv & Hseg & _ & _). destruct (Hseg id seg Hid) as (Hsid & Hrng & Href & _ & Hnd & Hin).
  destruct (Z.eqb_spec (refcount seg) 0) as [Hz|Hz].
  - destruct (free_pages_ok (pages seg) (frames st) Hv Hnd Hin) as (f' & -> & Hv' & Hout).
    cbn [mbind outcome_bind]. eexists _, _. split; [done|]. split; [|done]. split; [|done].
    eapply delete_segment; [exact Hinv|exact Hid|done|done|done|].
    intros p Hp. split; [done|]. eapply count_att_zero; [|exact Hp]. simpl. by rewrite <- Href.
  - eexists _, _. split; [done|]. split; [|done]. split; [|done].
    eapply update_segment; [exact Hinv|exact Hid|done| |done|by left].
    split_and!; simpl; [done|lia|lia|done|done|done|done].
Qed.

Lemma shm_exit_ok st task :
  stable st → ∃ st', shm_exit st task = Ret st' ∧ stable st' ∧
    shm_attachments st' = filter (λ p, ¬ p.1 = task) (shm_attachments st).
Proof.
  intros Hst. pose proof Hst as [Hinv Hn]. unfold shm_exit.
  destruct (cleanup_ok (filter (λ p, p.1 = task) (shm_attachments st))
    (with_attachments st (filter (λ p, ¬ p.1 = task) (shm_attachments st)))
    (filter (λ p, ¬ p.1 = task) (shm_attachments st))) as (st' & Hc & Hinv' & Hatt & Hnext).
  { eapply shm_inv_perm; [|exact Hinv]. symmetry. apply filter_app_complement. }
  simpl in Hatt, Hnext. exists st'. split; [done|]. split; [|done]. split; [unfold shm_ok; by rewrite Hatt | lia].
Qed.

(** ** Histories *)

Inductive shm_step : ShmState F → ShmState F → Prop :=
  | step_shmget st key size flags r st' :
      shm_room st → shmget st key size flags = Ret (r, st') → shm_step st st'
  | step_shmat st task id free_range r st' :
      shm_room st → shmat st task id free_range = Ret (r, st') → shm_step st st'
  | step_shmdt st task addr r st' : shmdt st task addr = Ret (r, st') → shm_step st st'
  | step_mark st id r st' : shm_mark_removal st id = Ret (r, st') → shm_step st st'
  | step_exit st task st' : shm_exit st task = Ret st' → shm_step st st'.

(** The tables at boot, over the frames the allocator then has. *)
Definition shm_boot f : ShmState F := mkShmState ∅ 1 f [].

Lemma shm_step_stable st st' : shm_step st st' → stable st → stable st'.
Proof.
  destruct 1 as [st k s fl r st' Hr Hs|st t i fr r st' Hr Hs|st t a r st' Hs|st i r st' Hs|st t st' Hs]; intros Hst.
  - destruct (shmget_ok st k s fl Hst Hr) as (? & ? & Hs' & ? & _). rewrite Hs in Hs'. by injection Hs' as -> ->.
  - destruct (shmat_ok st t i fr Hst Hr) as (? & ? & Hs' & ?). rewrite Hs in Hs'. by injection Hs' as -> ->.
  - destruct (shmdt_ok st t a Hst) as (? & ? & Hs' & ? & _). rewrite Hs in Hs'. by injection Hs' as -> ->.
  - destruct (shm_mark_removal_ok st i Hst) as (? & ? & Hs' & ? & _). rewrite Hs in Hs'. by injection Hs' as -> ->.
  - destruct (shm_exit_ok st t Hst) as (? & Hs' & ? & _). rewrite Hs in Hs'. by injection Hs' as ->.
Qed.

Lemma shm_boot_stable f : fs_valid f → stable (shm_boot f).
Proof.
  intros Hv. split; [|simpl; lia]. split_and!; [done|apply map_Forall_empty| |].
  - intros id1 id2 s1 s2 a Hi. simpl in Hi. by rewrite lookup_empty in Hi.
  - intros p Hp. by apply elem_of_nil in Hp.
Qed.

Lemma shm_reachable_stable f st : fs_valid f → rtc shm_step (shm_boot f) st → stable st.
Proof.
  intros Hv Hr. eapply (rtc_ind_r (λ s, stable s)); [by apply shm_boot_stable| |exact Hr].
  intros y z _ Hs Hy. by eapply shm_step_stable.
Qed.


(** ** Frames no segment owns *)

(** A frame that is allocated and belongs to no segment. *)
Definition orphan (a : Z) st : Prop :=
  a ∈ frames_out (frames st) ∧ (∀ id seg, SHM_TABLE st !! id = Some seg → a ∉ pages seg).

Lemma orphan_update a st id seg seg' att :
  orphan a st → SHM_TABLE st !! id = Some seg → pages seg' = pages seg →
  orphan a (mkShmState (<[id := seg']> (SHM_TABLE st)) (NEXT_ID st) (frames st) att).
Proof.
  intros [Ha Hno] Hid Hpg. split; [done|]. simpl. intros i s [[<- <-]|[_ Hi]]%lookup_insert_Some; [|by eapply Hno].
  rewrite Hpg. by eapply Hno.
Qed.

(** Freeing a segment of a sound table keeps the orphans. *)
Lemma orphan_free a st A id seg f' att :
  orphan a st → shm_inv st A → SHM_TABLE st !! id = Some seg → free_pages (pages seg) (frames st) = Ret f' →
  orphan a (mkShmState (delete id (SHM_TABLE st)) (NEXT_ID st) f' att).
Proof.
  intros [Ha Hno] (Hv & Hseg & _) Hid Hf. destruct (Hseg id seg Hid) as (_ & _ & _ & _ & Hnd & Hin).
  destruct (free_pages_ok (pages seg) (frames st) Hv Hnd Hin) as (f1 & Hf1 & _ & Hout).
  rewrite Hf in Hf1. injection Hf1 as <-. split; simpl.
  - rewrite Hout. apply elem_of_difference. split; [done|]. rewrite elem_of_list_to_set. by eapply Hno.
  - intros i s [_ Hi]%lookup_delete_Some. by eapply Hno.
Qed.

Lemma orphan_detach a st A id st' : orphan a st → shm_inv st A → detach id st = Ret st' → orphan a st'.
Proof.
  intros Ho Hinv. unfold detach. destruct (SHM_TABLE st !! id) as [seg|] eqn:Hid; [|by intros [= <-]].
  destruct (_ && _).
  - intros Hd. destruct (free_pages _ _) as [f'|] eqn:Hf; [|done]. injection Hd as <-. by eapply orphan_free.
  - intros [= <-]. by eapply orphan_update.
Qed.

Lemma orphan_cleanup a atts st A st' :
  orphan a st → shm_inv st (atts ++ A) → cleanup_task_attachments atts st = Ret st' → orphan a st'.
Proof.
  revert st. induction atts as [|[t att] atts IH]; intros st Ho Hinv; simpl in *; [by intros [= <-]|].
  destruct (detach_ok st (atts ++ A) (t, att) Hinv) as (st1 & Hd & Hinv1 & _). simpl in Hd. rewrite Hd.
  apply IH; [|done]. by eapply orphan_detach.
Qed.

Lemma orphan_shmget a st key size flags r st' :
  orphan a st → stable st → shmget st key size flags = Ret (r, st') → orphan a st'.
Proof.
  intros Ho [(Hv & _) _]. unfold shmget. destruct (negb _); [by intros [= _ <-]|].
  set (existing := if negb (key =? 0) then _ else _).
  destruct existing as [seg|]; [destruct (_ && _); by intros [= _ <-]|]. destruct (negb _); [by intros [= _ <-]|].
  destruct (alloc_pages_ok (Z.to_nat (shm_align_up size `div` SHM_PAGE_SIZE)) (frames st) Hv)
    as (ps & f' & taken & -> & _ & _ & Hfresh & Hout & Hres).
  destruct Ho as [Ha Hno]. cbn [mbind outcome_bind].
  destruct ps as [ps|]; intros [= _ <-]; (split; [simpl; rewrite Hout; set_solver|]); simpl; [|done].
  destruct Hres as [-> _]. intros i s [[<- <-]|[_ Hi]]%lookup_insert_Some; [|by eapply Hno].
  simpl. intros Hin. by apply (Hfresh a Hin).
Qed.

Lemma orphan_step a st st' : stable st → shm_step st st' → orphan a st → orphan a st'.
Proof.
  intros Hst Hs Ho. pose proof Hst as [Hinv _].
  destruct Hs as [st k s fl r st' _ Hs|st t i fr r st' _ Hs|st t x r st' Hs|st i r st' Hs|st t st' Hs].
  - by eapply orphan_shmget.
  - unfold shmat in Hs. destruct (SHM_TABLE st !! i) as [seg|] eqn:Hid; [|by injection Hs as _ <-].
    destruct (marked_for_removal seg); [by injection Hs as _ <-|]. destruct fr; [|by injection Hs as _ <-].
    destruct (add32 _ _); [|done]. injection Hs as _ <-. by eapply orphan_update.
  - unfold shmdt in Hs. destruct (_ || _); [by injection Hs as _ <-|].
    destruct (list_find _ _) as [[idx [t' att]]|] eqn:Hf; [|by injection Hs as _ <-].
    destruct (detach _ _) as [st1|] eqn:Hd; [|done]. injection Hs as _ <-.
    by apply (orphan_detach a (with_attachments st (delete idx (shm_attachments st)))
      (shm_attachments st) (shmid att)); [exact Ho|exact Hinv|].
  - unfold shm_mark_removal in Hs. destruct (SHM_TABLE st !! i) as [seg|] eqn:Hid; [|by injection Hs as _ <-].
    destruct (_ =? 0); [|injection Hs as _ <-; by eapply orphan_update].
    destruct (free_pages _ _) as [f'|] eqn:Hf; [|done]. injection Hs as _ <-. by eapply orphan_free.
  - eapply orphan_cleanup; [| |exact Hs]; [exact Ho|].
    eapply shm_inv_perm; [|exact Hinv]. symmetry. apply filter_app_complement.
Qed.

(** Frames taken by a failed allocation were taken one by one. *)
Lemma alloc_pages_first n f f1 f' r a :
  fs_valid f → take_frame f = Ret (Some a, f1) → alloc_pages (S n) f = Ret (r, f') → a ∈ frames_out f'.
Proof.
  intros Hv Ht Ha. destruct (take_ok f Hv) as (r1 & f1' & Ht' & Hv1 & Hr). rewrite Ht in Ht'.
  injection Ht' as <- <-. destruct Hr as [_ Hout]. simpl in Ha. rewrite Ht in Ha. cbn [mbind outcome_bind] in Ha.
  destruct (alloc_pages_ok n f1 Hv1) as (r2 & f2 & taken & Hn & _ & _ & _ & Hout2 & _). rewrite Hn in Ha.
  injection Ha as _ <-. set_solver.
Qed.

(** The only out-of-memory exit of [shmget] is in the middle of the page loop. *)
Lemma shmget_oom_inv st key size flags st' :
  shmget st key size flags = Ret (Err ShmOutOfMemory, st') →
  ∃ n f', alloc_pages (S n) (frames st) = Ret (None, f') ∧
    st' = mkShmState (SHM_TABLE st) (NEXT_ID st) f' (shm_attachments st).
Proof.
  unfold shmget. destruct (negb _); [done|]. set (existing := if negb (key =? 0) then _ else _).
  destruct existing as [seg|]; [by destruct (_ && _)|]. destruct (negb _); [done|].
  destruct (Z.to_nat _) as [|n]; [done|].
  destruct (alloc_pages (S n) (frames st)) as [[ps f']|] eqn:Ha; cbn [mbind outcome_bind]; [|done].
  destruct ps; intros [= <-]. eauto.
Qed.

(** a [shmget] that runs out of memory half way leaks. The frame it took
    first was free before the call; after the call, and after any later history
    of shared memory operations, it is allocated and no segment owns it. *)
Theorem shmget_oom_leaks st key size flags a f1 st' st'' :
  stable st → take_frame (frames st) = Ret (Some a, f1) →
  shmget st key size flags = Ret (Err ShmOutOfMemory, st') → rtc shm_step st' st'' →
  (a ∉ frames_out (frames st)) ∧ a ∈ frames_out (frames st'') ∧
  (∀ id seg, SHM_TABLE st'' !! id = Some seg → a ∉ pages seg).
Proof.
  intros [Hinv Hn] Ht (n & f' & Ha & ->)%shmget_oom_inv Hsteps. pose proof Hinv as (Hv & Hseg & _).
  assert (a ∉ frames_out (frames st)) as Hfree.
  { destruct (take_ok (frames st) Hv) as (r & f2 & Ht' & _ & Hr). rewrite Ht in Ht'. injection Ht' as <- <-. apply Hr. }
  split; [done|]. change (orphan a st''). pose proof (alloc_pages_first n _ _ _ _ a Hv Ht Ha) as Hout.
  destruct (alloc_pages_ok (S n) (frames st) Hv) as (r & f2 & taken & Ha' & Hv' & _ & _ & Hsub & _).
  rewrite Ha in Ha'. injection Ha' as <- <-.
  enough (stable st'' ∧ orphan a st'') as [_ ?] by done.
  eapply (rtc_ind_r (λ s, stable s ∧ orphan a s)); [| |exact Hsteps].
  - split; [split; [|done]; apply shm_inv_frames; [done..|set_solver]|]. split; [done|]. simpl.
    intros id seg Hid Hin. destruct (Hseg id seg Hid) as (_ & _ & _ & _ & _ & Hown). by apply Hfree, Hown.
  - intros y z _ Hs [Hy Ho]. split; [by eapply shm_step_stable | by eapply orphan_step].
Qed.

End proofs.

(** ** Concrete runs *)

(** A frame allocator of eight frames, the first five reserved. *)
Definition small_frames : FrameAllocator :=
  mkFrameAllocator 0x02000000 0x02008000 (0x1f :: replicate 1023 0) 1 8 true.

Lemma small_frames_inv : fa_inv small_frames.
Proof.
  unfold fa_inv. split_and!; try done. apply list.Forall_cons. split; [done|].
  by apply Forall_replicate.
Qed.

#[local] Existing Instance dev_profile.

Lemma small_frames_valid : fs_valid small_frames.
Proof. exact small_frames_inv. Qed.

Definition shm_demo0 : ShmState FrameAllocator := shm_boot small_frames.

Definition state_after {R} (o : outcome (R * ShmState FrameAllocator)) : ShmState FrameAllocator :=
  match o with Ret (_, st) => st | Panic => shm_demo0 end.

(** Task 1 creates and attaches a two-page segment, which is then marked for
    removal. *)
Definition shm_demo1 := state_after (shmget shm_demo0 7 8192 IPC_CREAT).
Definition shm_demo2 := state_after (shmat shm_demo1 1 1 (Some 0x70000000)).
Definition shm_demo3 := state_after (shm_mark_removal shm_demo2 1).

Lemma shm_demo_reachable : rtc shm_step shm_demo0 shm_demo3.
Proof.
  apply (rtc_l _ _ shm_demo1); [apply (step_shmget _ 7 8192 IPC_CREAT (Ok 1)); [done | vm_compute; reflexivity]|].
  apply (rtc_l _ _ shm_demo2); [apply (step_shmat _ 1 1 (Some 0x70000000) (Ok 0x70000000)); [done | vm_compute; reflexivity]|].
  apply rtc_once. apply (step_mark _ 1 (Ok tt)). vm_compute; reflexivity.
Defined.


(** Four pages are asked for and three are free. *)
Definition shm_oom_state := state_after (shmget shm_demo0 9 16384 IPC_CREAT).

Lemma shmget_oom_leaks_witness :
  shmget shm_demo0 9 16384 IPC_CREAT = Ret (Err ShmOutOfMemory, shm_oom_state) ∧
  fst <$> take_frame (frames shm_oom_state) = Ret None ∧
  0x02005000 ∈ frames_out (frames shm_oom_state) ∧
  SHM_TABLE shm_oom_state = ∅.
Proof.
  assert (shmget shm_demo0 9 16384 IPC_CREAT = Ret (Err ShmOutOfMemory, shm_oom_state)) as Hoom
    by (vm_compute; reflexivity).
  assert (take_frame (frames shm_demo0) =
    Ret (Some 0x02005000, match take_frame (frames shm_demo0) with Ret (_, f) => f | Panic => small_frames end)) as Ht
    by (vm_compute; reflexivity).
  split_and!; [exact Hoom|vm_compute; reflexivity| |vm_compute; reflexivity].
  apply (shmget_oom_leaks shm_demo0 9 16384 IPC_CREAT 0x02005000 _ shm_oom_state shm_oom_state
    (shm_boot_stable _ small_frames_valid) Ht Hoom (rtc_refl _ _)).
Defined.
