(* ===== verification/Pipe.v ===== *)
(** * Pipes (kernel/src/ipc/pipe.rs)

    A pipe is a bounded byte queue shared by a reader and a writer.  The shared
    [PipeBuffer] is the state; each method locks it for its whole body, so each
    is one atomic transformer, and a history of a pipe is a list of them in
    lock order. *)

From S2P Require Import Prelude.

Definition DEFAULT_PIPE_CAPACITY : Z := 4096.
Definition PIPE_EPIPE : Z := -32.

Record PipeBuffer : Type := mkPipeBuffer {
  buffer : list Z;
  capacity : Z;
  reader_open : bool;
  writer_open : bool;
}.

Definition create_pipe_with_capacity (cap : Z) : PipeBuffer :=
  mkPipeBuffer [] cap true true.
Definition create_pipe : PipeBuffer := create_pipe_with_capacity DEFAULT_PIPE_CAPACITY.

(** [for (i, byte) in bytes.enumerate() { buf[i] = byte; }], from index [i]. *)
Fixpoint store_from (buf : list Z) (i : nat) (bytes : list Z) : list Z :=
  match bytes with
  | [] => buf
  | byte :: bytes' => store_from (<[i := byte]> buf) (S i) bytes'
  end.

(** Returns the count, the caller's buffer and the pipe. *)
Definition PipeReader_read (self : PipeBuffer) (buf : list Z) : Z * list Z * PipeBuffer :=
  if len buf =? 0 then (0, buf, self)
  else if len (buffer self) =? 0 then
    if writer_open self then (0, buf, self) else (0, buf, self)
  else
    let to_read := Z.min (len buf) (len (buffer self)) in
    let drained := take (Z.to_nat to_read) (buffer self) in
    (to_read, store_from buf 0 drained,
     mkPipeBuffer (drop (Z.to_nat to_read) (buffer self)) (capacity self)
       (reader_open self) (writer_open self)).

Definition PipeReader_is_eof (self : PipeBuffer) : bool :=
  negb (writer_open self) && (len (buffer self) =? 0).

Definition PipeReader_is_readable (self : PipeBuffer) : bool :=
  negb (len (buffer self) =? 0) || negb (writer_open self).

Definition PipeWriter_write `{BuildProfile} (self : PipeBuffer) (data : list Z)
    : outcome (result Z Z * PipeBuffer) :=
  if len data =? 0 then mret (Ok 0, self)
  else if negb (reader_open self) then mret (Err PIPE_EPIPE, self)
  else
    available ← sub64 (capacity self) (len (buffer self));
    if available =? 0 then mret (Ok 0, self)
    else
      let to_write := Z.min (len data) available in
      mret (Ok to_write,
            mkPipeBuffer (buffer self ++ take (Z.to_nat to_write) data) (capacity self)
              (reader_open self) (writer_open self)).

Definition PipeWriter_is_broken (self : PipeBuffer) : bool := negb (reader_open self).
Definition PipeWriter_is_writable (self : PipeBuffer) : bool :=
  len (buffer self) <? capacity self.

Definition PipeReader_drop (self : PipeBuffer) : PipeBuffer :=
  mkPipeBuffer (buffer self) (capacity self) false (writer_open self).
Definition PipeWriter_drop (self : PipeBuffer) : PipeBuffer :=
  mkPipeBuffer (buffer self) (capacity self) (reader_open self) false.

(** ** Histories

    One operation by one of the two ends, with the bytes it put into or took
    out of the stream. *)

Inductive pipe_op : Type :=
| OpWrite (data : list Z)
| OpRead (n : nat)
| OpDropReader
| OpDropWriter.

Definition pipe_step `{BuildProfile} (p : PipeBuffer) (op : pipe_op)
    : outcome (list Z * list Z * PipeBuffer) :=
  match op with
  | OpWrite data =>
      '(r, p') ← PipeWriter_write p data;
      mret (match r with Ok n => take (Z.to_nat n) data | Err _ => [] end, [], p')
  | OpRead n =>
      let '(k, buf, p') := PipeReader_read p (replicate n 0) in
      mret ([], take (Z.to_nat k) buf, p')
  | OpDropReader => mret ([], [], PipeReader_drop p)
  | OpDropWriter => mret ([], [], PipeWriter_drop p)
  end.

(** Run a history: the bytes accepted by writes and the bytes delivered by
    reads, each in order, and the final state. *)
Fixpoint pipe_run `{BuildProfile} (p : PipeBuffer) (ops : list pipe_op)
    : outcome (list Z * list Z * PipeBuffer) :=
  match ops with
  | [] => mret ([], [], p)
  | op :: ops' =>
      '(w, r, p1) ← pipe_step p op;
      '(ws, rs, p2) ← pipe_run p1 ops';
      mret (w ++ ws, r ++ rs, p2)
  end.

(** The capacity invariant. *)
Definition pipe_inv (p : PipeBuffer) : Prop :=
  len (buffer p) ≤ capacity p ∧ is_uint 64 (capacity p).

(** ** Lemmas *)

Lemma store_from_eq buf i bytes :
  (i + length bytes ≤ length buf)%nat →
  store_from buf i bytes = take i buf ++ bytes ++ drop (i + length bytes) buf.
Proof.
  revert buf i. induction bytes as [|b bytes IH]; intros buf i Hlen; simpl.
  { by rewrite Nat.add_0_r, take_drop. }
  simpl in Hlen. rewrite IH by (rewrite length_insert; lia).
  rewrite drop_insert_lt by lia. rewrite (take_S_r _ _ b) by (apply list_lookup_insert_eq; lia).
  rewrite take_insert_ge by lia. rewrite <-app_assoc. simpl.
  by replace (i + S (length bytes))%nat with (S i + length bytes)%nat by lia.
Qed.

Lemma read_eq p buf :
  let n := Z.min (len buf) (len (buffer p)) in
  PipeReader_read p buf =
    (n, take (Z.to_nat n) (buffer p) ++ drop (Z.to_nat n) buf,
     mkPipeBuffer (drop (Z.to_nat n) (buffer p)) (capacity p) (reader_open p) (writer_open p)).
Proof.
  intros n. unfold PipeReader_read, len in *. destruct p as [b c ro wo]. cbn [buffer capacity reader_open writer_open] in *.
  destruct (Z.eqb_spec (Z.of_nat (length buf)) 0) as [Hz|Hz].
  { destruct buf; [|simpl in Hz; lia]. unfold n. simpl length. rewrite Z.min_l by lia. done. }
  destruct (Z.eqb_spec (Z.of_nat (length b)) 0) as [Hz'|Hz'].
  { destruct b; [|simpl in Hz'; lia]. unfold n. simpl length. rewrite Z.min_r by lia. by destruct wo. }
  fold n. rewrite store_from_eq; rewrite length_take; [|lia].
  rewrite take_0, app_nil_l. repeat f_equal. lia.
Qed.

Lemma write_cases `{BuildProfile} p data :
  pipe_inv p →
  ∃ n r, PipeWriter_write p data =
    Ret (r, mkPipeBuffer (buffer p ++ take n data) (capacity p) (reader_open p) (writer_open p)) ∧
    (n ≤ length data)%nat ∧
    ((r = Ok (Z.of_nat n) ∧
      Z.of_nat n = if reader_open p then Z.min (len data) (capacity p - len (buffer p)) else 0) ∨
     (r = Err PIPE_EPIPE ∧ n = 0%nat ∧ reader_open p = false ∧ data ≠ [])).
Proof.
  intros [Hcap Hc]. unfold PipeWriter_write, len in *. destruct p as [b c ro wo].
  cbn [buffer capacity reader_open writer_open] in *.
  assert (b ++ take 0 data = b) as Hnil by by rewrite take_0, app_nil_r.
  destruct (Z.eqb_spec (Z.of_nat (length data)) 0) as [Hz|Hz].
  { exists 0%nat, (Ok 0). rewrite Hnil. split; [done|]. split; [lia|]. left. split; [done|].
    destruct ro; lia. }
  destruct ro; cbn [negb].
  2: { exists 0%nat, (Err PIPE_EPIPE). rewrite Hnil. split_and!; [done|lia|]. right.
       split_and!; [done..|]. by intros ->. }
  rewrite sub64_ok by (unfold is_uint in *; lia). cbn [mbind outcome_bind].
  destruct (Z.eqb_spec (c - Z.of_nat (length b)) 0) as [Hf|Hf].
  { exists 0%nat, (Ok 0). rewrite Hnil. split_and!; [done|lia|]. left. split; [done|]. lia. }
  exists (Z.to_nat (Z.min (Z.of_nat (length data)) (c - Z.of_nat (length b)))). eexists.
  split; [done|]. split; [lia|]. left. split; [f_equal; lia|]. lia.
Qed.

Lemma pipe_step_spec `{BuildProfile} p op :
  pipe_inv p →
  ∃ w r p', pipe_step p op = Ret (w, r, p') ∧ pipe_inv p' ∧
    buffer p ++ w = r ++ buffer p' ∧
    (reader_open p = false → w = []).
Proof.
  intros Hinv. destruct op as [data|n| |]; cbn [pipe_step].
  - destruct (write_cases p data Hinv) as (n & r & -> & Hn & Hr). cbn [mbind outcome_bind].
    eexists _, _, _. split; [done|]. destruct Hinv as [Hcap Hc].
    destruct Hr as [(-> & Hval)|(-> & -> & Hro & _)]; cbn [buffer reader_open].
    + rewrite Nat2Z.id. split; [|split; [done|]].
      * split; [|done]. unfold len in *. cbn [buffer capacity]. rewrite length_app, length_take.
        destruct (reader_open p); lia.
      * intros Hro. rewrite Hro in Hval. by replace n with 0%nat by lia.
    + rewrite take_0, app_nil_r. done.
  - rewrite read_eq. eexists _, _, _. split; [done|]. destruct Hinv as [Hcap Hc].
    rewrite take_app_le by (unfold len; rewrite length_take; lia).
    rewrite take_take, Nat.min_id. split; [|split; [|done]].
    + split; [|done]. unfold len in *. cbn [buffer capacity]. rewrite length_drop. lia.
    + cbn [buffer]. by rewrite app_nil_r, take_drop.
  - eexists _, _, _. split; [done|]. by rewrite app_nil_r.
  - eexists _, _, _. split; [done|]. by rewrite app_nil_r.
Qed.

Lemma pipe_run_spec `{BuildProfile} ops p :
  pipe_inv p →
  ∃ ws rs p', pipe_run p ops = Ret (ws, rs, p') ∧ pipe_inv p' ∧
    buffer p ++ ws = rs ++ buffer p'.
Proof.
  revert p. induction ops as [|op ops IH]; intros p Hinv.
  { eexists _, _, _. split; [done|]. by rewrite app_nil_r. }
  destruct (pipe_step_spec p op Hinv) as (w & r & p1 & Hs & Hinv1 & Heq & _).
  destruct (IH p1 Hinv1) as (ws & rs & p2 & Hr & Hinv2 & Heq2).
  cbn [pipe_run]. rewrite Hs. cbn [mbind outcome_bind]. rewrite Hr. cbn [mbind outcome_bind].
  eexists _, _, _. split; [done|]. split; [done|].
  by rewrite app_assoc, Heq, <-!app_assoc, Heq2.
Qed.

(** ** Properties of pipes *)

(** C29: a pipe is a bounded FIFO byte stream.  For every capacity and every
    interleaving of writes, reads and drops of either end, no operation
    panics, the buffer never exceeds the capacity, and the bytes delivered to
    the reader followed by the bytes still buffered are exactly the bytes the
    writer was told were accepted, in order: nothing is lost, duplicated or
    reordered. *)
Theorem pipe_is_fifo `{BuildProfile} cap ops :
  is_uint 64 cap →
  ∃ accepted delivered p,
    pipe_run (create_pipe_with_capacity cap) ops = Ret (accepted, delivered, p) ∧
    accepted = delivered ++ buffer p ∧ len (buffer p) ≤ capacity p.
Proof.
  intros Hcap. destruct (pipe_run_spec ops (create_pipe_with_capacity cap))
    as (ws & rs & p & Hr & [Hle _] & Heq).
  { split; [|done]. destruct Hcap. done. }
  exists ws, rs, p. done.
Qed.

Lemma pipe_is_fifo_witness :
  let P := dev_profile in
  pipe_run (create_pipe_with_capacity 4) [OpWrite [1; 2; 3]; OpRead 2; OpWrite [4; 5; 6; 7]; OpDropWriter; OpRead 3]
    = Ret ([1; 2; 3; 4; 5; 6], [1; 2; 3; 4; 5], mkPipeBuffer [6] 4 true false) ∧
  ∃ accepted delivered p,
    pipe_run (create_pipe_with_capacity 4) [OpWrite [1; 2; 3]; OpRead 2] = Ret (accepted, delivered, p) ∧
    accepted = delivered ++ buffer p ∧ len (buffer p) ≤ capacity p.
Proof.
  intros P. split; [reflexivity|].
  apply (pipe_is_fifo (H := P) 4 [OpWrite [1; 2; 3]; OpRead 2]). done.
Defined.

(** [write] on every branch.  It returns [Ok 0] on empty data, [EPIPE]
    exactly when data is offered after the read end was dropped, and otherwise
    accepts the longest prefix that fits and reports its length; [is_writable]
    says whether a non-empty write would accept a byte. *)
Theorem pipe_write_spec `{BuildProfile} p data :
  pipe_inv p →
  ∃ r p', PipeWriter_write p data = Ret (r, p') ∧
    (data = [] → r = Ok 0 ∧ p' = p) ∧
    (data ≠ [] → reader_open p = false → r = Err PIPE_EPIPE ∧ p' = p) ∧
    (data ≠ [] → reader_open p = true →
       ∃ n, r = Ok (Z.of_nat n) ∧ Z.of_nat n = Z.min (len data) (capacity p - len (buffer p)) ∧
         buffer p' = buffer p ++ take n data ∧
         (PipeWriter_is_writable p = true ↔ 0 < Z.of_nat n)).
Proof.
  intros Hinv. destruct (write_cases p data Hinv) as (n & r & Heq & Hn & Hr).
  eexists r, _. split; [exact Heq|]. destruct p as [b c ro wo].
  cbn [buffer capacity reader_open writer_open] in *. unfold len in *. split_and!.
  - intros ->. rewrite take_nil, app_nil_r. destruct Hr as [(-> & _)|(_ & _ & _ & ?)]; [|done].
    simpl in Hn. split; [f_equal; lia | done].
  - intros Hne ->. destruct Hr as [(-> & Hz)|(-> & -> & _)].
    2: { by rewrite take_0, app_nil_r. }
    revert Heq. unfold PipeWriter_write, len. cbn [reader_open].
    destruct (Z.eqb_spec (Z.of_nat (length data)) 0) as [Hd|]; [destruct data; simpl in Hd; [done|lia]|].
    done.
  - intros Hne ->. destruct Hr as [(-> & Hz)|(_ & _ & ? & _)]; [|done].
    exists n. split_and!; [done..|]. unfold PipeWriter_is_writable, len. cbn [buffer capacity].
    rewrite Z.ltb_lt. destruct data; [done|]. simpl length in *. lia.
Qed.

Lemma pipe_write_spec_witness :
  let P := dev_profile in
  let p := create_pipe_with_capacity 4 in
  pipe_inv p ∧ PipeWriter_write (PipeReader_drop p) [1] = Ret (Err PIPE_EPIPE, PipeReader_drop p) ∧
  ∃ r p', PipeWriter_write p [1; 2] = Ret (r, p').
Proof.
  intros P p. split; [done|]. split; [reflexivity|].
  destruct (pipe_write_spec (H := P) p [1; 2]) as (r & p' & Heq & _); [done|].
  exists r, p'. exact Heq.
Defined.

(** A reader's loop [while !is_eof { read(buf) }] with a buffer of [n] bytes,
    cut off after [fuel] reads. *)
Fixpoint drain_loop (fuel : nat) (n : nat) (p : PipeBuffer) : list Z * PipeBuffer :=
  if PipeReader_is_eof p then ([], p)
  else match fuel with
  | O => ([], p)
  | S fuel' =>
      let '(k, buf, p1) := PipeReader_read p (replicate n 0) in
      let '(rest, p2) := drain_loop fuel' n p1 in
      (take (Z.to_nat k) buf ++ rest, p2)
  end.

(** end of file is reached.  Once the writer is gone, a reader that keeps
    reading with a buffer of at least one byte receives every buffered byte in
    order and then sees EOF, within as many reads as there are bytes. *)
Theorem pipe_drains_to_eof n p :
  writer_open p = false → (0 < n)%nat →
  let '(got, p') := drain_loop (length (buffer p)) n p in
  got = buffer p ∧ PipeReader_is_eof p' = true.
Proof.
  intros Hw Hn. destruct p as [b c ro wo]. cbn [writer_open buffer] in *. subst wo.
  cut (∀ fuel b, (length b ≤ fuel)%nat →
    drain_loop fuel n (mkPipeBuffer b c ro false) = (b, mkPipeBuffer [] c ro false)).
  { intros ->; done. }
  clear b. induction fuel as [|fuel IH]; intros b Hb.
  { destruct b; [done|simpl in Hb; lia]. }
  destruct b as [|x b]; [done|]. cbn [drain_loop]. unfold PipeReader_is_eof at 1, len at 1.
  cbn [writer_open buffer negb andb length]. rewrite (proj2 (Z.eqb_neq _ _)) by lia.
  rewrite read_eq. cbn [buffer capacity reader_open writer_open].
  rewrite IH by (unfold len; rewrite length_drop, length_replicate; simpl in *; lia).
  rewrite take_app_le by (unfold len; rewrite length_take; lia).
  by rewrite take_take, Nat.min_id, take_drop.
Qed.

Lemma pipe_drains_to_eof_witness :
  drain_loop 3 2 (mkPipeBuffer [7; 8; 9] 4 true false) = ([7; 8; 9], mkPipeBuffer [] 4 true false) ∧
  let '(got, p') := drain_loop 3 2 (mkPipeBuffer [7; 8; 9] 4 true false) in
  got = [7; 8; 9] ∧ PipeReader_is_eof p' = true.
Proof.
  split; [reflexivity|].
  apply (pipe_drains_to_eof 2 (mkPipeBuffer [7; 8; 9] 4 true false)); [done | lia].
Defined.
