(* ===== verification/Channel.v ===== *)
(** * IPC channels (kernel/src/ipc/mod.rs)

    A channel has two ends; each operation works on the pair (own end, peer
    end) that [ends_mut] selects.  The kernel calls every operation with the
    channel's mutex held, so a history is a sequence of whole operations. *)

From stdpp Require Import relations.
From S2P Require Import Prelude.

Definition MAX_MSG_SIZE : Z := 4096.
Definition MAX_PENDING_HANDLES : Z := 64.

Inductive EndId : Type := EndA | EndB.

#[export] Instance EndId_eq_dec : EqDecision EndId.
Proof. solve_decision. Defined.

Record EndState : Type := mkEndState {
  pending_msg : option (list Z);
  blocked_receiver : option Z;
  blocked_sender : option Z;
  blocked_caller : option Z;
  pending_reply : option (list Z);
  closed : bool;
}.

Record Channel : Type := mkChannel {
  end_a : EndState;
  end_b : EndState;
  pending_handles : list Z;
}.

Inductive SendResult : Type :=
| Delivered (receiver_id : Z)
| SendPending
| SendClosed.

Inductive RecvResult : Type :=
| GotMessage (msg : list Z) (sender_id : Z)
| RecvBlocked
| RecvClosed.

Inductive CallResult : Type :=
| GotReply (reply : list Z)
| CallBlocked (receiver_id : option Z)
| CallClosed.

Inductive ReplyResult : Type :=
| Unblocked (caller_id : Z)
| Stored.

Definition EndState_empty : EndState := mkEndState None None None None None false.
Definition Channel_new : Channel := mkChannel EndState_empty EndState_empty [].

(** [ends_mut]: read the (own, peer) pair, and write it back. *)
Definition ends (self : Channel) (on : EndId) : EndState * EndState :=
  match on with
  | EndA => (end_a self, end_b self)
  | EndB => (end_b self, end_a self)
  end.

Definition set_ends (self : Channel) (on : EndId) (src dst : EndState) : Channel :=
  match on with
  | EndA => mkChannel src dst (pending_handles self)
  | EndB => mkChannel dst src (pending_handles self)
  end.

(** Field assignments of an end. *)
Definition set_msg (m : option (list Z)) (e : EndState) : EndState :=
  mkEndState m (blocked_receiver e) (blocked_sender e) (blocked_caller e) (pending_reply e) (closed e).
Definition set_receiver (t : option Z) (e : EndState) : EndState :=
  mkEndState (pending_msg e) t (blocked_sender e) (blocked_caller e) (pending_reply e) (closed e).
Definition set_sender (t : option Z) (e : EndState) : EndState :=
  mkEndState (pending_msg e) (blocked_receiver e) t (blocked_caller e) (pending_reply e) (closed e).
Definition set_caller (t : option Z) (e : EndState) : EndState :=
  mkEndState (pending_msg e) (blocked_receiver e) (blocked_sender e) t (pending_reply e) (closed e).
Definition set_reply (m : option (list Z)) (e : EndState) : EndState :=
  mkEndState (pending_msg e) (blocked_receiver e) (blocked_sender e) (blocked_caller e) m (closed e).
Definition set_closed (b : bool) (e : EndState) : EndState :=
  mkEndState (pending_msg e) (blocked_receiver e) (blocked_sender e) (blocked_caller e) (pending_reply e) b.

Definition option_list {A} (o : option A) : list A :=
  match o with Some x => [x] | None => [] end.

(** The waiters of one end, in the order [close] pushes them. *)
Definition end_waiters (e : EndState) : list Z :=
  option_list (blocked_receiver e) ++ option_list (blocked_sender e) ++ option_list (blocked_caller e).

Definition close_end (e : EndState) : EndState :=
  set_caller None (set_sender None (set_receiver None (set_closed true e))).

Definition Channel_close (self : Channel) : list Z * Channel :=
  (end_waiters (end_a self) ++ end_waiters (end_b self),
   mkChannel (close_end (end_a self)) (close_end (end_b self)) (pending_handles self)).

Definition Channel_send (self : Channel) (from : EndId) (msg : list Z) (sender_task_id : Z)
    : SendResult * Channel :=
  if len msg >? MAX_MSG_SIZE then (SendClosed, self)
  else
    let '(src, dst) := ends self from in
    if closed src || closed dst then (SendClosed, self)
    else match blocked_receiver dst with
    | Some receiver_id =>
        (Delivered receiver_id,
         set_ends self from src (set_msg (Some msg) (set_receiver None dst)))
    | None =>
        (SendPending,
         set_ends self from (set_sender (Some sender_task_id) src) (set_msg (Some msg) dst))
    end.

Definition Channel_receive (self : Channel) (on : EndId) (task_id : Z) : RecvResult * Channel :=
  let '(src, dst) := ends self on in
  if closed src then (RecvClosed, self)
  else match pending_msg src with
  | Some msg =>
      let sender_id := default 0 (blocked_sender src) in
      (GotMessage msg sender_id, set_ends self on (set_sender None (set_msg None src)) dst)
  | None => (RecvBlocked, set_ends self on (set_receiver (Some task_id) src) dst)
  end.

Definition Channel_drain_handles (self : Channel) : list Z * Channel :=
  (pending_handles self, mkChannel (end_a self) (end_b self) []).

Definition Channel_push_handle (self : Channel) (handle : Z) : bool * Channel :=
  if len (pending_handles self) >=? MAX_PENDING_HANDLES then (false, self)
  else (true, mkChannel (end_a self) (end_b self) (pending_handles self ++ [handle])).

Definition Channel_call (self : Channel) (from : EndId) (msg : list Z) (task_id : Z)
    : CallResult * Channel :=
  if len msg >? MAX_MSG_SIZE then (CallClosed, self)
  else
    let '(src, dst) := ends self from in
    if closed src || closed dst then (CallClosed, self)
    else match pending_reply src with
    | Some reply => (GotReply reply, set_ends self from (set_reply None src) dst)
    | None =>
        let receiver_id := blocked_receiver dst in
        (CallBlocked receiver_id,
         set_ends self from (set_caller (Some task_id) src)
           (set_msg (Some msg) (set_receiver None dst)))
    end.

Definition Channel_check_reply (self : Channel) (from : EndId) : CallResult * Channel :=
  let '(src, dst) := ends self from in
  if closed src then (CallClosed, self)
  else match pending_reply src with
  | Some reply => (GotReply reply, set_ends self from (set_reply None src) dst)
  | None => (CallBlocked None, self)
  end.

Definition Channel_reply (self : Channel) (on : EndId) (reply : list Z) : ReplyResult * Channel :=
  let '(src, dst) := ends self on in
  match blocked_caller dst with
  | Some caller_id =>
      (Unblocked caller_id, set_ends self on src (set_reply (Some reply) (set_caller None dst)))
  | None => (Stored, set_ends self on src (set_reply (Some reply) dst))
  end.

(** ** Histories and the channel invariant *)

Definition peer (on : EndId) : EndId := match on with EndA => EndB | EndB => EndA end.
Definition own_end (ch : Channel) (on : EndId) : EndState := fst (ends ch on).

Inductive channel_step : Channel → Channel → Prop :=
| step_send ch from msg t : channel_step ch (snd (Channel_send ch from msg t))
| step_receive ch on t : channel_step ch (snd (Channel_receive ch on t))
| step_call ch from msg t : channel_step ch (snd (Channel_call ch from msg t))
| step_check ch from : channel_step ch (snd (Channel_check_reply ch from))
| step_reply ch on msg : channel_step ch (snd (Channel_reply ch on msg))
| step_push ch h : channel_step ch (snd (Channel_push_handle ch h))
| step_drain ch : channel_step ch (snd (Channel_drain_handles ch))
| step_chan_close ch : channel_step ch (snd (Channel_close ch)).

(** No wakeup is lost inside the channel: a registered receiver means no
    message is waiting, a registered caller means no reply is waiting, and a
    closed end has no waiter at all. *)
Definition end_inv (e : EndState) : Prop :=
  (is_Some (blocked_receiver e) → pending_msg e = None) ∧
  (is_Some (blocked_caller e) → pending_reply e = None) ∧
  (∀ m, pending_msg e = Some m → len m ≤ MAX_MSG_SIZE) ∧
  (closed e = true → end_waiters e = []).

Definition chan_inv (ch : Channel) : Prop :=
  end_inv (end_a ch) ∧ end_inv (end_b ch) ∧ closed (end_a ch) = closed (end_b ch) ∧
  len (pending_handles ch) ≤ MAX_PENDING_HANDLES.

Lemma own_set_ends ch on e1 e2 : own_end (set_ends ch on e1 e2) on = e1.
Proof. by destruct on. Qed.
Lemma peer_set_ends ch on e1 e2 : own_end (set_ends ch on e1 e2) (peer on) = e2.
Proof. by destruct on. Qed.
Lemma ends_own ch on : ends ch on = (own_end ch on, own_end ch (peer on)).
Proof. by destruct on. Qed.
Lemma ends_set_ends ch on e1 e2 : ends (set_ends ch on e1 e2) on = (e1, e2).
Proof. by destruct on. Qed.
Lemma ends_set_ends_peer ch on e1 e2 : ends (set_ends ch on e1 e2) (peer on) = (e2, e1).
Proof. by destruct on. Qed.

Lemma chan_inv_ends ch on :
  chan_inv ch ↔
  end_inv (own_end ch on) ∧ end_inv (own_end ch (peer on)) ∧
  closed (own_end ch on) = closed (own_end ch (peer on)) ∧
  len (pending_handles ch) ≤ MAX_PENDING_HANDLES.
Proof. unfold chan_inv. destruct on; simpl; naive_solver. Qed.

Lemma handles_set_ends ch on e1 e2 : pending_handles (set_ends ch on e1 e2) = pending_handles ch.
Proof. by destruct on. Qed.

Lemma chan_inv_set_ends ch on e1 e2 :
  chan_inv ch → end_inv e1 → end_inv e2 → closed e1 = closed e2 →
  chan_inv (set_ends ch on e1 e2).
Proof.
  intros Hinv%(chan_inv_ends _ on) H1 H2 Hc. apply (chan_inv_ends _ on).
  rewrite own_set_ends, peer_set_ends, handles_set_ends. naive_solver.
Qed.

#[export] Hint Resolve chan_inv_set_ends : openos.

(** Unfold the end setters and split the invariant of an end. *)
Ltac end_crush :=
  unfold end_inv, end_waiters in *; simpl in *;
  repeat match goal with H : _ ∧ _ |- _ => destruct H end;
  split_and!; naive_solver.

Lemma end_inv_empty : end_inv EndState_empty.
Proof. unfold EndState_empty. end_crush. Qed.

Lemma end_inv_close e : end_inv e → end_inv (close_end e).
Proof. destruct e. unfold close_end. intros. end_crush. Qed.

Lemma chan_inv_new : chan_inv Channel_new.
Proof. unfold chan_inv. split_and!; auto using end_inv_empty. done. Qed.

Lemma send_inv ch from msg t : chan_inv ch → chan_inv (snd (Channel_send ch from msg t)).
Proof.
  intros Hinv. pose proof (proj1 (chan_inv_ends ch from) Hinv) as (H1 & H2 & Hc & _).
  unfold Channel_send. destruct (Z.gtb_spec (len msg) MAX_MSG_SIZE); [done|].
  rewrite ends_own. destruct (own_end ch from) as [m1 r1 s1 c1 p1 cl1].
  destruct (own_end ch (peer from)) as [m2 r2 s2 c2 p2 cl2]. simpl in Hc. subst cl2.
  cbn [closed blocked_receiver]. destruct cl1; [done|]. simpl.
  destruct r2; apply chan_inv_set_ends; try done; end_crush.
Qed.

Lemma receive_inv ch on t : chan_inv ch → chan_inv (snd (Channel_receive ch on t)).
Proof.
  intros Hinv. pose proof (proj1 (chan_inv_ends ch on) Hinv) as (H1 & H2 & Hc & _).
  unfold Channel_receive. rewrite ends_own. destruct (own_end ch on) as [m1 r1 s1 c1 p1 cl1].
  cbn [closed pending_msg blocked_sender] in *. destruct cl1; [done|].
  destruct m1; apply chan_inv_set_ends; try done; end_crush.
Qed.

Lemma call_inv ch from msg t : chan_inv ch → chan_inv (snd (Channel_call ch from msg t)).
Proof.
  intros Hinv. pose proof (proj1 (chan_inv_ends ch from) Hinv) as (H1 & H2 & Hc & _).
  unfold Channel_call. destruct (Z.gtb_spec (len msg) MAX_MSG_SIZE); [done|].
  rewrite ends_own. destruct (own_end ch from) as [m1 r1 s1 c1 p1 cl1].
  destruct (own_end ch (peer from)) as [m2 r2 s2 c2 p2 cl2]. simpl in Hc. subst cl2.
  cbn [closed pending_reply blocked_receiver]. destruct cl1; [done|]. simpl.
  destruct p1; apply chan_inv_set_ends; try done; end_crush.
Qed.

Lemma check_reply_inv ch from : chan_inv ch → chan_inv (snd (Channel_check_reply ch from)).
Proof.
  intros Hinv. pose proof (proj1 (chan_inv_ends ch from) Hinv) as (H1 & H2 & Hc & _).
  unfold Channel_check_reply. rewrite ends_own. destruct (own_end ch from) as [m1 r1 s1 c1 p1 cl1].
  cbn [closed pending_reply] in *. destruct cl1; [done|].
  destruct p1; [|done]. apply chan_inv_set_ends; try done; end_crush.
Qed.

Lemma reply_inv ch on msg : chan_inv ch → chan_inv (snd (Channel_reply ch on msg)).
Proof.
  intros Hinv. pose proof (proj1 (chan_inv_ends ch on) Hinv) as (H1 & H2 & Hc & _).
  unfold Channel_reply. rewrite ends_own. destruct (own_end ch (peer on)) as [m2 r2 s2 c2 p2 cl2].
  cbn [closed blocked_caller] in *.
  destruct c2, r2, s2; apply chan_inv_set_ends; try done; end_crush.
Qed.

Lemma channel_step_inv ch ch' : channel_step ch ch' → chan_inv ch → chan_inv ch'.
Proof.
  destruct 1; intros Hinv;
    [by apply send_inv | by apply receive_inv | by apply call_inv | by apply check_reply_inv
    | by apply reply_inv | ..]; destruct Hinv as (H1 & H2 & Hc & Hh).
  - unfold Channel_push_handle. destruct (Z.geb_spec (len (pending_handles ch)) MAX_PENDING_HANDLES).
    + done.
    + unfold chan_inv. cbn [snd end_a end_b pending_handles]. split_and!; [done..|].
      unfold len in *. rewrite length_app. simpl. lia.
  - done.
  - unfold chan_inv. split_and!; [by apply end_inv_close..| done | done].
Qed.

(** ** Properties *)

Lemma rtc_chan_inv ch : rtc channel_step Channel_new ch → chan_inv ch.
Proof.
  intros Hr. pose proof chan_inv_new as Hnew. revert Hr Hnew. generalize Channel_new.
  induction 1; eauto using channel_step_inv.
Qed.

(** Over every history of sends, receives, calls, replies, handle
    transfers and closes on a fresh channel, a task registered as receiver
    never coexists with an undelivered message at its end, nor a registered
    caller with an undelivered reply, messages stay within 4096 bytes, at most
    64 handles are in flight, both ends agree on being closed, and a closed
    channel has no registered waiter. *)
Theorem channel_invariant ch : rtc channel_step Channel_new ch → chan_inv ch.
Proof. apply rtc_chan_inv. Qed.

Lemma channel_invariant_witness :
  chan_inv (snd (Channel_call (snd (Channel_receive Channel_new EndB 7)) EndA [1; 2] 5)).
Proof.
  apply channel_invariant. eapply rtc_l; [apply (step_receive _ EndB 7)|].
  eapply rtc_l; [apply (step_call _ EndA [1; 2] 5)|]. apply rtc_refl.
Defined.

Definition open_channel (ch : Channel) : Prop :=
  closed (end_a ch) = false ∧ closed (end_b ch) = false.

Lemma open_own ch on : open_channel ch → closed (own_end ch on) = false.
Proof. intros []; by destruct on. Qed.

(** One remote call seen from both sides: the caller at [from], the server at
    the peer end, and the caller's poll after it has been woken. *)
Definition rpc (ch : Channel) (from : EndId) (req reply : list Z) (caller server : Z)
    : CallResult * RecvResult * ReplyResult * CallResult * Channel :=
  let '(r1, ch1) := Channel_call ch from req caller in
  let '(r2, ch2) := Channel_receive ch1 (peer from) server in
  let '(r3, ch3) := Channel_reply ch2 (peer from) reply in
  let '(r4, ch4) := Channel_check_reply ch3 from in
  (r1, r2, r3, r4, ch4).



Lemma closed_step ch ch' :
  channel_step ch ch' → chan_inv ch → closed (end_a ch) = true → closed (end_a ch') = true.
Proof.
  intros Hs Hinv Hc. assert (Hb : closed (end_b ch) = true) by (destruct Hinv as (_&_&<-&_); done).
  destruct Hs;
    unfold Channel_send, Channel_receive, Channel_call, Channel_check_reply, Channel_reply, Channel_push_handle;
    try (destruct from); try (destruct on); simpl; rewrite ?Hc, ?Hb; simpl;
    repeat case_match; simpl in *; done.
Qed.

Lemma closed_rtc ch ch' :
  rtc channel_step ch ch' → chan_inv ch → closed (end_a ch) = true →
  chan_inv ch' ∧ closed (end_a ch') = true.
Proof. induction 1; eauto using channel_step_inv, closed_step. Qed.

(** The answers a task gets from a channel that has been closed. *)
Definition answers_closed (ch : Channel) : Prop :=
  ∀ on msg t,
    Channel_send ch on msg t = (SendClosed, ch) ∧
    Channel_receive ch on t = (RecvClosed, ch) ∧
    Channel_call ch on msg t = (CallClosed, ch) ∧
    Channel_check_reply ch on = (CallClosed, ch).

Lemma closed_answers ch : chan_inv ch → closed (end_a ch) = true → answers_closed ch.
Proof.
  intros (_ & _ & Hc & _) Ha on msg t. rewrite Ha in Hc.
  unfold Channel_send, Channel_receive, Channel_call, Channel_check_reply.
  destruct on; simpl; rewrite <- ?Hc, Ha; simpl; by case_match.
Qed.

(** Closing a channel returns every registered receiver, sender and caller
    of both ends; from then on, whatever operations follow, every send,
    receive, call and reply poll is refused without changing the channel, and
    no task is registered as a waiter again, so none can be stranded. *)
Theorem close_is_final ch0 ch' :
  rtc channel_step Channel_new ch0 → rtc channel_step (snd (Channel_close ch0)) ch' →
  fst (Channel_close ch0) = end_waiters (end_a ch0) ++ end_waiters (end_b ch0) ∧
  answers_closed ch' ∧ end_waiters (end_a ch') = [] ∧ end_waiters (end_b ch') = [].
Proof.
  intros H0%rtc_chan_inv Hr.
  apply closed_rtc in Hr as [Hinv Hc];
    [| eapply channel_step_inv; [apply step_chan_close | done] | done].
  split_and!; [done | by apply closed_answers | |]; destruct Hinv as (Ha & Hb & Hab & _).
  - by apply Ha.
  - apply Hb. by rewrite <- Hab.
Qed.

Lemma close_is_final_witness :
  fst (Channel_close (snd (Channel_receive Channel_new EndB 7))) = [7] ∧
  Channel_receive (snd (Channel_reply (snd (Channel_close (snd (Channel_receive Channel_new EndB 7)))) EndA [1])) EndB 7
  = (RecvClosed, snd (Channel_reply (snd (Channel_close (snd (Channel_receive Channel_new EndB 7)))) EndA [1])).
Proof.
  destruct (close_is_final (snd (Channel_receive Channel_new EndB 7))
    (snd (Channel_reply (snd (Channel_close (snd (Channel_receive Channel_new EndB 7)))) EndA [1]))) as (H & Ha & _).
  - apply rtc_once, (step_receive _ EndB 7).
  - apply rtc_once, step_reply.
  - split; [exact H | apply (Ha EndB [] 7)].
Defined.

(** On an open channel a sent message of legal size is what the next
    receive at the other end returns, whether or not a receiver was already
    blocked; the send names the blocked receiver when there was one, and a
    second receive finds nothing and registers its task. *)
Theorem send_then_receive ch from msg t r :
  open_channel ch → len msg ≤ MAX_MSG_SIZE →
  let '(sr, ch1) := Channel_send ch from msg t in
  let '(rr, ch2) := Channel_receive ch1 (peer from) r in
  let '(rr2, ch3) := Channel_receive ch2 (peer from) r in
  sr = match blocked_receiver (own_end ch (peer from)) with Some q => Delivered q | None => SendPending end ∧
  rr = GotMessage msg (default 0 (blocked_sender (own_end ch (peer from)))) ∧
  rr2 = RecvBlocked ∧ blocked_receiver (own_end ch3 (peer from)) = Some r.
Proof.
  intros [Ha Hb] Hlen. unfold Channel_send. destruct (Z.gtb_spec (len msg) MAX_MSG_SIZE); [lia|].
  destruct ch as [[m1 r1 s1 c1 p1 cl1] [m2 [q|] s2 c2 p2 cl2] hs], from, r1;
    simpl in *; subst; done.
Qed.

Lemma send_then_receive_witness :
  snd (Channel_send Channel_new EndA [4; 5] 3) ≠ Channel_new ∧
  fst (Channel_receive (snd (Channel_send Channel_new EndA [4; 5] 3)) EndB 8) = GotMessage [4; 5] 0.
Proof.
  split; [by vm_compute|].
  assert (Ho : open_channel Channel_new) by done.
  assert (Hl : len [4; 5] ≤ MAX_MSG_SIZE) by (vm_compute; done).
  pose proof (send_then_receive Channel_new EndA [4; 5] 3 8 Ho Hl) as H. vm_compute in H.
  destruct H as (_ & H & _). exact H.
Defined.

(** The sender registered by a send that found no receiver is not the one
    the matching receive reports: the receive looks for it at its own end,
    reports task 0 there, and leaves the real sender registered at the
    sending end, so the receiver has no task to wake; a second send before
    the receive silently replaces the first message. *)
Theorem pending_sender_never_reported ch from msg1 msg2 t1 t2 r :
  open_channel ch → len msg1 ≤ MAX_MSG_SIZE → len msg2 ≤ MAX_MSG_SIZE →
  blocked_receiver (own_end ch (peer from)) = None →
  blocked_sender (own_end ch (peer from)) = None →
  let '(s1, ch1) := Channel_send ch from msg1 t1 in
  let '(s2, ch2) := Channel_send ch1 from msg2 t2 in
  let '(rr, ch3) := Channel_receive ch2 (peer from) r in
  s1 = SendPending ∧ s2 = SendPending ∧ rr = GotMessage msg2 0 ∧
  blocked_sender (own_end ch3 from) = Some t2 ∧
  fst (Channel_receive ch3 (peer from) r) = RecvBlocked.
Proof.
  intros [Ha Hb] Hl1 Hl2. unfold Channel_send.
  destruct (Z.gtb_spec (len msg1) MAX_MSG_SIZE), (Z.gtb_spec (len msg2) MAX_MSG_SIZE); try lia.
  destruct ch as [[m1 r1 s1 c1 p1 cl1] [m2 r2 s2 c2 p2 cl2] hs], from;
    simpl in *; intros; subst; done.
Qed.

Lemma pending_sender_never_reported_witness :
  let ch2 := snd (Channel_send (snd (Channel_send Channel_new EndA [1] 3)) EndA [2] 4) in
  fst (Channel_receive ch2 EndB 8) = GotMessage [2] 0 ∧
  blocked_sender (end_a (snd (Channel_receive ch2 EndB 8))) = Some 4.
Proof.
  assert (Ho : open_channel Channel_new) by done.
  assert (Hl1 : len [1] ≤ MAX_MSG_SIZE) by (vm_compute; done).
  assert (Hl2 : len [2] ≤ MAX_MSG_SIZE) by (vm_compute; done).
  pose proof (pending_sender_never_reported Channel_new EndA [1] [2] 3 4 8 Ho Hl1 Hl2 eq_refl eq_refl) as H.
  vm_compute in H. destruct H as (_ & _ & H1 & H2 & _). split; [exact H1 | exact H2].
Defined.
