(* ===== verification/FileLock.v ===== *)
(** * Advisory file locks (kernel/src/fs/file_lock.rs)

    The global table [FILE_LOCKS] maps [(fs_id, inode)] to the lock state of
    the inode.  Each function body runs under the table's spin lock and is one
    transformer of the table; a blocking request that cannot be granted leaves
    the lock and enters one of the two spin loops, which retry between the
    steps of other tasks. *)

From stdpp Require Import relations.
From S2P Require Import Prelude.

Definition LOCK_SH : Z := 1.
Definition LOCK_EX : Z := 2.
Definition LOCK_NB : Z := 4.
Definition LOCK_UN : Z := 8.
Definition ERR_WOULD_BLOCK : Z := -7.

Inductive LockType : Type := Shared | Exclusive.
#[export] Instance LockType_eq_dec : EqDecision LockType.
Proof. solve_decision. Defined.

Record LockRecord : Type := mkLockRecord { record_type : LockType; pid : Z }.

Record InodeLockState : Type := mkInodeLockState {
  count : Z;
  lock_type : option LockType;
  holders : list LockRecord;
}.

(** [FILE_LOCKS]. *)
Abbreviation FileLocks := (gmap (Z * Z) InodeLockState).

(** What a lock request does before any waiting: it finishes with a result,
    or drops the table lock and enters a spin loop. *)
Inductive lock_reply : Type :=
| Done (r : result unit Z)
| SpinShared
| SpinExclusive.

Section ops.
Context `{BuildProfile}.

(** [debug_assert!] is compiled in the profile that also checks overflow. *)
Definition debug_assert (b : bool) : outcome unit :=
  if overflow_checks then rust_assert b else Ret tt.

Definition acquire_shared (locks : FileLocks) (fs_id ino p : Z) (nonblocking : bool)
    : outcome (lock_reply * FileLocks) :=
  match locks !! (fs_id, ino) with
  | None =>
      Ret (Done (Ok tt),
           <[(fs_id, ino) := mkInodeLockState 1 (Some Shared) [mkLockRecord Shared p]]> locks)
  | Some state =>
      if existsb (λ r, pid r =? p) (holders state) then Ret (Done (Ok tt), locks)
      else match lock_type state with
      | None =>
          Ret (Done (Ok tt),
               <[(fs_id, ino) := mkInodeLockState 1 (Some Shared)
                                   (holders state ++ [mkLockRecord Shared p])]> locks)
      | Some Shared =>
          c ← add32 (count state) 1;
          Ret (Done (Ok tt),
               <[(fs_id, ino) := mkInodeLockState c (Some Shared)
                                   (holders state ++ [mkLockRecord Shared p])]> locks)
      | Some Exclusive =>
          if nonblocking then Ret (Done (Err ERR_WOULD_BLOCK), locks)
          else Ret (SpinShared, locks)
      end
  end.

(** [holders.iter().position(|r| r.pid == pid)]. *)
Definition position_of (hs : list LockRecord) (p : Z) : option nat :=
  fst <$> list_find (λ r, pid r = p) hs.

(** [state.holders[pos].lock_type = Exclusive]. *)
Definition set_exclusive (hs : list LockRecord) (pos : nat) : list LockRecord :=
  alter (λ r, mkLockRecord Exclusive (pid r)) pos hs.

Definition acquire_exclusive (locks : FileLocks) (fs_id ino p : Z) (nonblocking : bool)
    : outcome (lock_reply * FileLocks) :=
  match locks !! (fs_id, ino) with
  | None =>
      Ret (Done (Ok tt),
           <[(fs_id, ino) := mkInodeLockState 1 (Some Exclusive) [mkLockRecord Exclusive p]]> locks)
  | Some state =>
      match position_of (holders state) p with
      | Some pos =>
          r ← index (holders state) (Z.of_nat pos);
          match record_type r with
          | Exclusive => Ret (Done (Ok tt), locks)
          | Shared =>
              if count state =? 1 then
                Ret (Done (Ok tt),
                     <[(fs_id, ino) := mkInodeLockState (count state) (Some Exclusive)
                                         (set_exclusive (holders state) pos)]> locks)
              else if nonblocking then Ret (Done (Err ERR_WOULD_BLOCK), locks)
              else Ret (SpinExclusive, locks)
          end
      | None =>
          match lock_type state with
          | None =>
              Ret (Done (Ok tt),
                   <[(fs_id, ino) := mkInodeLockState 1 (Some Exclusive)
                                       (holders state ++ [mkLockRecord Exclusive p])]> locks)
          | Some _ =>
              if nonblocking then Ret (Done (Err ERR_WOULD_BLOCK), locks)
              else Ret (SpinExclusive, locks)
          end
      end
  end.

Definition release_lock (locks : FileLocks) (fs_id ino p : Z)
    : outcome (lock_reply * FileLocks) :=
  match locks !! (fs_id, ino) with
  | None => Ret (Done (Ok tt), locks)
  | Some state =>
      let hs := filter (λ r, pid r ≠ p) (holders state) in
      removed ← sub64 (len (holders state)) (len hs);
      if removed =? 0 then Ret (Done (Ok tt), locks)
      else
        _ ← debug_assert (cast 32 removed <=? count state);
        c ← sub32 (count state) (cast 32 removed);
        let lt :=
          if c =? 0 then None
          else if bool_decide (hs = []) then None
          else if existsb (λ r, bool_decide (record_type r = Exclusive)) hs then Some Exclusive
          else Some Shared in
        Ret (Done (Ok tt), <[(fs_id, ino) := mkInodeLockState c lt hs]> locks)
  end.

Definition flock (locks : FileLocks) (fs_id ino operation p : Z)
    : outcome (lock_reply * FileLocks) :=
  let op := Z.land operation (unot 64 LOCK_NB) in
  let nonblocking := negb (Z.land operation LOCK_NB =? 0) in
  if op =? LOCK_SH then acquire_shared locks fs_id ino p nonblocking
  else if op =? LOCK_EX then acquire_exclusive locks fs_id ino p nonblocking
  else if op =? LOCK_UN then release_lock locks fs_id ino p
  else Ret (Done (Err (-1)), locks).

Definition try_acquire_shared (locks : FileLocks) (fs_id ino p : Z)
    : outcome (result unit Z * FileLocks) :=
  match locks !! (fs_id, ino) with
  | None =>
      Ret (Ok tt,
           <[(fs_id, ino) := mkInodeLockState 1 (Some Shared) [mkLockRecord Shared p]]> locks)
  | Some state =>
      if existsb (λ r, pid r =? p) (holders state) then Ret (Ok tt, locks)
      else match lock_type state with
      | None | Some Shared =>
          c ← add32 (count state) 1;
          Ret (Ok tt,
               <[(fs_id, ino) := mkInodeLockState c (Some Shared)
                                   (holders state ++ [mkLockRecord Shared p])]> locks)
      | Some Exclusive => Ret (Err ERR_WOULD_BLOCK, locks)
      end
  end.

Definition try_acquire_exclusive (locks : FileLocks) (fs_id ino p : Z)
    : outcome (result unit Z * FileLocks) :=
  match locks !! (fs_id, ino) with
  | None =>
      Ret (Ok tt,
           <[(fs_id, ino) := mkInodeLockState 1 (Some Exclusive) [mkLockRecord Exclusive p]]> locks)
  | Some state =>
      let rest :=
        if count state =? 0 then
          Ret (Ok tt,
               <[(fs_id, ino) := mkInodeLockState 1 (Some Exclusive)
                                   (holders state ++ [mkLockRecord Exclusive p])]> locks)
        else Ret (Err ERR_WOULD_BLOCK, locks) in
      match position_of (holders state) p with
      | Some pos =>
          r ← index (holders state) (Z.of_nat pos);
          if bool_decide (record_type r = Exclusive) then Ret (Ok tt, locks)
          else if count state =? 1 then
            Ret (Ok tt,
                 <[(fs_id, ino) := mkInodeLockState (count state) (Some Exclusive)
                                     (set_exclusive (holders state) pos)]> locks)
          else rest
      | None => rest
      end
  end.

(** The spin loops.  [others i] is what the rest of the system does to the
    table while the task halts before its [i]-th retry; [None] means that
    [fuel] retries were not enough. *)
Fixpoint spin_wait_shared (fuel : nat) (others : nat → FileLocks → FileLocks) (i : nat)
    (locks : FileLocks) (fs_id ino p : Z) : outcome (option FileLocks) :=
  match fuel with
  | O => Ret None
  | S fuel =>
      '(r, locks') ← try_acquire_shared (others i locks) fs_id ino p;
      if is_ok r then Ret (Some locks')
      else spin_wait_shared fuel others (S i) locks' fs_id ino p
  end.

Fixpoint spin_wait_exclusive (fuel : nat) (others : nat → FileLocks → FileLocks) (i : nat)
    (locks : FileLocks) (fs_id ino p : Z) : outcome (option FileLocks) :=
  match fuel with
  | O => Ret None
  | S fuel =>
      '(r, locks') ← try_acquire_exclusive (others i locks) fs_id ino p;
      if is_ok r then Ret (Some locks')
      else spin_wait_exclusive fuel others (S i) locks' fs_id ino p
  end.

(** One iteration of [release_all_for_task]'s loop. *)
Definition release_entry (p : Z) (state : InodeLockState) : outcome InodeLockState :=
  let hs := filter (λ r, pid r ≠ p) (holders state) in
  removed ← sub64 (len (holders state)) (len hs);
  if removed >? 0 then
    let c := saturating_sub (count state) (cast 32 removed) in
    Ret (mkInodeLockState c (if c =? 0 then None else lock_type state) hs)
  else Ret (mkInodeLockState (count state) (lock_type state) hs).

Fixpoint release_keys (p : Z) (keys : list (Z * Z)) (locks : FileLocks) : outcome FileLocks :=
  match keys with
  | [] => Ret locks
  | key :: keys =>
      match locks !! key with
      | Some state => st ← release_entry p state; release_keys p keys (<[key := st]> locks)
      | None => release_keys p keys locks
      end
  end.

(** The stale keys are distinct, so the order of the map's iteration does not
    matter. *)
Definition stale_keys (p : Z) (locks : FileLocks) : list (Z * Z) :=
  (filter (λ kv, existsb (λ r, pid r =? p) (holders kv.2) = true) (map_to_list locks)).*1.

Definition release_all_for_task (locks : FileLocks) (p : Z) : outcome FileLocks :=
  release_keys p (stale_keys p locks) locks.

End ops.

(** ** The abstract lock manager

    What the component promises: per inode, a finite map from tasks to the
    mode they hold.  A shared request is granted unless another task holds the
    inode exclusively, an exclusive request only when no other task holds it
    at all, a release forgets the task. *)

Abbreviation lockset := (gmap Z LockType).

Definition spec_shared (p : Z) (m : lockset) : option lockset :=
  match m !! p with
  | Some _ => Some m
  | None => if decide (map_Exists (λ _ t, t = Exclusive) m) then None else Some (<[p := Shared]> m)
  end.

Definition spec_exclusive (p : Z) (m : lockset) : option lockset :=
  if decide (delete p m = ∅) then Some {[p := Exclusive]} else None.

Definition spec_release (p : Z) (m : lockset) : lockset := delete p m.

(** The abstraction function. *)
Definition hs_view (hs : list LockRecord) : lockset :=
  list_to_map ((λ r, (pid r, record_type r)) <$> hs).

Definition lock_view (locks : FileLocks) (k : Z * Z) : lockset :=
  match locks !! k with Some st => hs_view (holders st) | None => ∅ end.

Definition view_updated (ls ls' : FileLocks) (k : Z * Z) (m : lockset) : Prop :=
  ∀ k', lock_view ls' k' = if decide (k' = k) then m else lock_view ls k'.

(** ** Representation invariant *)

Definition st_inv (st : InodeLockState) : Prop :=
  count st = len (holders st) ∧ NoDup (pid <$> holders st) ∧
  match lock_type st with
  | None => holders st = []
  | Some Shared => holders st ≠ [] ∧ Forall (λ r, record_type r = Shared) (holders st)
  | Some Exclusive => ∃ p, holders st = [mkLockRecord Exclusive p]
  end.

Definition locks_inv (ls : FileLocks) : Prop := map_Forall (λ _ st, st_inv st) ls.

(** Fewer holders per inode than the [u32] counter can count. *)
Definition countable (ls : FileLocks) : Prop :=
  map_Forall (λ _ st, len (holders st) < u32_max) ls.

Lemma locks_inv_empty : locks_inv ∅.
Proof. apply map_Forall_empty. Qed.

Lemma locks_inv_insert ls k st : locks_inv ls → st_inv st → locks_inv (<[k := st]> ls).
Proof. intros. by apply map_Forall_insert_2. Qed.

Lemma lock_view_insert ls k st : view_updated ls (<[k := st]> ls) k (hs_view (holders st)).
Proof.
  intros k'. unfold lock_view. destruct (decide (k' = k)) as [->|].
  - by rewrite lookup_insert_eq.
  - by rewrite lookup_insert_ne.
Qed.

Lemma view_updated_id ls k : view_updated ls ls k (lock_view ls k).
Proof. intros k'. by destruct (decide (k' = k)) as [->|]. Qed.

#[export] Hint Resolve locks_inv_insert lock_view_insert view_updated_id : openos.

(** ** Holder lists *)

Lemma existsb_pid hs p : existsb (λ r, pid r =? p) hs = true ↔ p ∈ pid <$> hs.
Proof.
  rewrite existsb_exists, list_elem_of_fmap. split.
  - intros (r & Hr & ?%Z.eqb_eq). exists r. by rewrite list_elem_of_In.
  - intros (r & -> & Hr). exists r. by rewrite <- list_elem_of_In, Z.eqb_refl.
Qed.

Lemma hs_view_dom hs p : p ∈ pid <$> hs ↔ is_Some (hs_view hs !! p).
Proof.
  unfold hs_view. induction hs as [|r hs IH]; csimpl.
  - rewrite elem_of_nil, lookup_empty, is_Some_alt. done.
  - rewrite elem_of_cons, IH. destruct (decide (pid r = p)) as [<-|].
    + rewrite lookup_insert_eq. naive_solver.
    + rewrite lookup_insert_ne by done. naive_solver.
Qed.

Lemma hs_view_None hs p : p ∉ pid <$> hs ↔ hs_view hs !! p = None.
Proof. rewrite hs_view_dom, eq_None_not_Some. done. Qed.

Lemma hs_view_snoc hs t p :
  p ∉ pid <$> hs → hs_view (hs ++ [mkLockRecord t p]) = <[p := t]> (hs_view hs).
Proof.
  intros Hp. unfold hs_view. rewrite fmap_app. simpl. apply list_to_map_snoc.
  by rewrite <- list_fmap_compose.
Qed.

Lemma hs_view_filter hs p : hs_view (filter (λ r, pid r ≠ p) hs) = delete p (hs_view hs).
Proof.
  unfold hs_view. induction hs as [|r hs IH]; csimpl; [by rewrite delete_empty|].
  destruct (decide (pid r = p)) as [Hr|].
  - rewrite filter_cons_False by tauto. by rewrite IH, Hr, delete_insert_eq.
  - rewrite filter_cons_True by done. csimpl. by rewrite IH, delete_insert_ne.
Qed.

Lemma NoDup_pid_snoc hs t p :
  p ∉ pid <$> hs → NoDup (pid <$> hs) → NoDup (pid <$> (hs ++ [mkLockRecord t p])).
Proof.
  intros Hp Hnd. rewrite fmap_app. apply list.NoDup_app. split_and!; [done | set_solver |].
  apply NoDup_singleton.
Qed.

Lemma filter_pid_notin (hs : list LockRecord) p : p ∉ pid <$> hs → filter (λ r, pid r ≠ p) hs = hs.
Proof.
  induction hs as [|r hs IH]; csimpl; [done|]. intros [Hne Hp]%not_elem_of_cons.
  rewrite filter_cons_True by done. by rewrite IH.
Qed.

Lemma filter_pid_length (hs : list LockRecord) p :
  NoDup (pid <$> hs) → p ∈ pid <$> hs →
  len hs - len (filter (λ r, pid r ≠ p) hs) = 1.
Proof.
  unfold len. induction hs as [|r hs IH]; csimpl; [set_solver|].
  intros [Hn Hnd]%list.NoDup_cons Hin. destruct (decide (pid r = p)) as [Hr|].
  - rewrite filter_cons_False by tauto. rewrite filter_pid_notin by congruence. lia.
  - rewrite filter_cons_True by done. simpl. apply elem_of_cons in Hin as [->|Hin]; [done|].
    specialize (IH Hnd Hin). lia.
Qed.

Lemma NoDup_pid_filter (hs : list LockRecord) p :
  NoDup (pid <$> hs) → NoDup (pid <$> filter (λ r, pid r ≠ p) hs).
Proof. intros. eapply sublist_NoDup; [done|]. apply fmap_sublist, sublist_filter. Qed.

Lemma st_inv_singleton t p : st_inv (mkInodeLockState 1 (Some t) [mkLockRecord t p]).
Proof.
  split; [done|]. split; [apply list.NoDup_singleton|]. destruct t; simpl; [|eauto].
  split; [done|]. by repeat constructor.
Qed.

Lemma st_inv_add_shared st p :
  st_inv st → lock_type st ≠ Some Exclusive → p ∉ pid <$> holders st →
  st_inv (mkInodeLockState (len (holders st) + 1) (Some Shared) (holders st ++ [mkLockRecord Shared p])).
Proof.
  intros (Hc & Hnd & Ht) Hne Hp. split; simpl.
  - unfold len. rewrite length_app. simpl. lia.
  - split; [by apply NoDup_pid_snoc|]. split; [by destruct (holders st)|].
    apply Forall_app. split; [|by repeat constructor].
    destruct (lock_type st) as [[]|]; [naive_solver | done | by rewrite Ht].
Qed.

(** The abstract view of a valid state, by the mode of the inode. *)
Lemma st_inv_exists_exclusive st :
  st_inv st → map_Exists (λ _ t, t = Exclusive) (hs_view (holders st)) ↔ lock_type st = Some Exclusive.
Proof.
  intros (_ & Hnd & Ht). unfold map_Exists. split.
  - intros (p & t & Hl & ->). apply elem_of_list_to_map_2, list_elem_of_fmap in Hl as (r & [= -> Hr] & Hin).
    destruct (lock_type st) as [[]|]; [|done|rewrite Ht in Hin; set_solver].
    destruct Ht as [_ Ht]. rewrite list.Forall_forall in Ht. specialize (Ht r Hin). congruence.
  - intros Hl. rewrite Hl in Ht. destruct Ht as [p ->]. exists p, Exclusive.
    split; [|done]. unfold hs_view. simpl. by rewrite lookup_insert_eq.
Qed.

Lemma hs_view_nil_iff hs : hs_view hs = ∅ ↔ hs = [].
Proof.
  split; [|by intros ->]. destruct hs as [|r hs]; [done|]. unfold hs_view. csimpl.
  by intros ?%insert_non_empty.
Qed.

Lemma hs_view_delete_nil (hs : list LockRecord) p :
  delete p (hs_view hs) = ∅ ↔ filter (λ r, pid r ≠ p) hs = [].
Proof. by rewrite <- hs_view_filter, hs_view_nil_iff. Qed.

Section refinement.
Context `{BuildProfile}.

(** A request was granted with new lock set [m], or refused with [refused]. *)
Definition granted {R} (ok refused : R) (ls : FileLocks) (k : Z * Z) (spec : option lockset)
    (rep : R) (ls' : FileLocks) : Prop :=
  locks_inv ls' ∧
  match spec with
  | Some m => rep = ok ∧ view_updated ls ls' k m
  | None => rep = refused ∧ ls' = ls
  end.

Lemma add32_count ls k st :
  locks_inv ls → countable ls → ls !! k = Some st → add32 (count st) 1 = Ret (len (holders st) + 1).
Proof.
  intros Hi Hc Hl. destruct (Hi _ _ Hl) as [-> _]. specialize (Hc _ _ Hl).
  apply add32_ok. unfold is_uint, u32_max, len in *. lia.
Qed.

Lemma spec_shared_view st p :
  st_inv st →
  spec_shared p (hs_view (holders st)) =
    if existsb (λ r, pid r =? p) (holders st) then Some (hs_view (holders st))
    else if decide (lock_type st = Some Exclusive) then None
    else Some (hs_view (holders st ++ [mkLockRecord Shared p])).
Proof.
  intros Hst. unfold spec_shared. destruct (existsb _ _) eqn:He.
  - apply existsb_pid, hs_view_dom in He as [t Ht]. by rewrite Ht.
  - assert (p ∉ pid <$> holders st) as Hp by (rewrite <- existsb_pid; congruence).
    rewrite hs_view_snoc by done. rewrite hs_view_None in Hp. rewrite Hp.
    pose proof (st_inv_exists_exclusive st Hst).
    destruct (decide (map_Exists _ _)), (decide (lock_type st = _)); naive_solver.
Qed.

Lemma granted_same {R} (ok ref : R) ls k m :
  locks_inv ls → lock_view ls k = m → granted ok ref ls k (Some m) ok ls.
Proof. intros ? <-. split; [done|]. eauto with openos. Qed.

Lemma granted_insert {R} (ok ref : R) ls k st m :
  locks_inv ls → st_inv st → hs_view (holders st) = m → granted ok ref ls k (Some m) ok (<[k := st]> ls).
Proof. intros ? ? <-. split; [eauto with openos|]. eauto with openos. Qed.

Lemma granted_refused {R} (ok ref : R) ls k : locks_inv ls → granted ok ref ls k None ref ls.
Proof. by intros. Qed.

Lemma lock_view_some ls k st : ls !! k = Some st → lock_view ls k = hs_view (holders st).
Proof. unfold lock_view. by intros ->. Qed.

Lemma spec_shared_empty p : spec_shared p ∅ = Some (hs_view [mkLockRecord Shared p]).
Proof.
  unfold spec_shared. rewrite lookup_empty.
  destruct (decide _) as [(?&?&?&?)|]; [set_solver | done].
Qed.

Lemma not_existsb_pid st p :
  existsb (λ r, pid r =? p) (holders st) = false → p ∉ pid <$> holders st.
Proof. intros He. rewrite <- existsb_pid. congruence. Qed.

#[local] Hint Resolve st_inv_singleton st_inv_add_shared lock_view_some : openos.

(** Name the reply and the table the operation computed, and close the rest
    with the given [granted_] lemma. *)
Ltac give lem := eexists _, _; split; [reflexivity|]; apply lem; first [reflexivity | apply st_inv_singleton | auto with openos].

Lemma acquire_shared_refines ls fs ino p nb :
  locks_inv ls → countable ls →
  ∃ rep ls', acquire_shared ls fs ino p nb = Ret (rep, ls') ∧
    granted (Done (Ok tt)) (if nb then Done (Err ERR_WOULD_BLOCK) else SpinShared) ls (fs, ino)
      (spec_shared p (lock_view ls (fs, ino))) rep ls'.
Proof.
  intros Hi Hc. unfold acquire_shared. destruct (ls !! (fs, ino)) as [st|] eqn:Hl.
  - pose proof (Hi _ _ Hl) as Hst. rewrite (lock_view_some _ _ _ Hl), spec_shared_view by done.
    destruct (existsb _ _) eqn:He; [give @granted_same|].
    pose proof (not_existsb_pid _ _ He) as Hp. pose proof (st_inv_add_shared st p Hst) as Hadd.
    destruct (lock_type st) as [[]|] eqn:Ht; simpl.
    + rewrite (add32_count _ _ _ Hi Hc Hl). cbn [mbind outcome_bind].
      give @granted_insert.
    + destruct nb; give @granted_refused.
    + destruct Hst as (_ & _ & Hnil). rewrite Ht in Hnil. rewrite Hnil in *.
      give @granted_insert.
  - unfold lock_view. rewrite Hl, spec_shared_empty. give @granted_insert.
Qed.

Lemma try_acquire_shared_refines ls fs ino p :
  locks_inv ls → countable ls →
  ∃ rep ls', try_acquire_shared ls fs ino p = Ret (rep, ls') ∧
    granted (Ok tt) (Err ERR_WOULD_BLOCK) ls (fs, ino)
      (spec_shared p (lock_view ls (fs, ino))) rep ls'.
Proof.
  intros Hi Hc. unfold try_acquire_shared. destruct (ls !! (fs, ino)) as [st|] eqn:Hl.
  - pose proof (Hi _ _ Hl) as Hst. rewrite (lock_view_some _ _ _ Hl), spec_shared_view by done.
    destruct (existsb _ _) eqn:He; [give @granted_same|].
    pose proof (not_existsb_pid _ _ He) as Hp. pose proof (st_inv_add_shared st p Hst) as Hadd.
    rewrite (add32_count _ _ _ Hi Hc Hl).
    destruct (lock_type st) as [[]|] eqn:Ht; cbn [mbind outcome_bind]; simpl;
      [give @granted_insert | give @granted_refused | give @granted_insert].
  - unfold lock_view. rewrite Hl, spec_shared_empty. give @granted_insert.
Qed.

Lemma position_of_Some hs p pos :
  position_of hs p = Some pos → ∃ r, hs !! pos = Some r ∧ pid r = p.
Proof.
  unfold position_of. intros ([i r] & Hf & ->)%fmap_Some.
  apply list_find_Some in Hf as (? & ? & _). eauto.
Qed.

Lemma position_of_None hs p : position_of hs p = None → p ∉ pid <$> hs.
Proof.
  unfold position_of. intros Hf%fmap_None%list_find_None. rewrite list.Forall_forall in Hf.
  intros (r & -> & Hr)%list_elem_of_fmap. by apply (Hf r).
Qed.

Lemma spec_exclusive_view (hs : list LockRecord) p :
  spec_exclusive p (hs_view hs) =
    if decide (filter (λ r, pid r ≠ p) hs = []) then Some (hs_view [mkLockRecord Exclusive p]) else None.
Proof.
  unfold spec_exclusive. pose proof (hs_view_delete_nil hs p).
  destruct (decide (delete _ _ = _)), (decide (filter _ _ = _)); naive_solver.
Qed.

Lemma filter_sole (hs : list LockRecord) pos r p :
  NoDup (pid <$> hs) → hs !! pos = Some r → pid r = p →
  filter (λ r, pid r ≠ p) hs = [] ↔ len hs = 1.
Proof.
  intros Hnd Hr Hp. assert (p ∈ pid <$> hs) as Hin.
  { apply list_elem_of_fmap. exists r. split; [done | by eapply list_elem_of_lookup_2]. }
  pose proof (filter_pid_length hs p Hnd Hin) as Hlen. unfold len in *.
  rewrite <- length_zero_iff_nil. lia.
Qed.

Lemma sole_holder (hs : list LockRecord) pos r : hs !! pos = Some r → len hs = 1 → hs = [r] ∧ pos = O.
Proof. destruct hs as [|r' [|]], pos; unfold len; simpl; try naive_solver lia. Qed.

Lemma list_filter_sole t p : filter (λ r, pid r ≠ p) [mkLockRecord t p] = [].
Proof. by rewrite filter_cons_False by tauto. Qed.

Lemma spec_exclusive_empty p : spec_exclusive p ∅ = Some (hs_view [mkLockRecord Exclusive p]).
Proof. unfold spec_exclusive. rewrite delete_empty. done. Qed.

(** The three situations of an exclusive request on an inode with a state. *)
Lemma exclusive_cases st p :
  st_inv st →
  match position_of (holders st) p with
  | Some pos => ∃ t, holders st !! pos = Some (mkLockRecord t p) ∧
      (t = Exclusive → holders st = [mkLockRecord Exclusive p]) ∧
      (count st = 1 → holders st = [mkLockRecord t p] ∧ pos = O) ∧
      (filter (λ r, pid r ≠ p) (holders st) = [] ↔ count st = 1)
  | None => filter (λ r, pid r ≠ p) (holders st) = holders st ∧
      (lock_type st = None ↔ holders st = [])
  end.
Proof.
  intros (Hc & Hnd & Ht). destruct (position_of _ _) as [pos|] eqn:Hpos.
  - apply position_of_Some in Hpos as ([t p'] & Hr & Hp). simpl in Hp. subst p'.
    rewrite Hc. exists t. split_and!; [done| | |by eapply filter_sole].
    + intros ->. destruct (lock_type st) as [[]|].
      * destruct Ht as [_ Ht]. rewrite Forall_lookup in Ht. by specialize (Ht _ _ Hr).
      * destruct Ht as [q Hq]. rewrite Hq in *. destruct pos; simpl in Hr; [by simplify_eq|done].
      * by rewrite Ht in Hr.
    + intros Hone. by apply sole_holder.
  - apply position_of_None in Hpos. split; [by apply filter_pid_notin|].
    destruct (lock_type st) as [[]|]; [|destruct Ht as [? ->]; done|done].
    destruct Ht as [Hne _]. split; [done | by intros ?].
Qed.

Lemma acquire_exclusive_refines ls fs ino p nb :
  locks_inv ls →
  ∃ rep ls', acquire_exclusive ls fs ino p nb = Ret (rep, ls') ∧
    granted (Done (Ok tt)) (if nb then Done (Err ERR_WOULD_BLOCK) else SpinExclusive) ls (fs, ino)
      (spec_exclusive p (lock_view ls (fs, ino))) rep ls'.
Proof.
  intros Hi. unfold acquire_exclusive. destruct (ls !! (fs, ino)) as [st|] eqn:Hl.
  - pose proof (Hi _ _ Hl) as Hst. pose proof (exclusive_cases st p Hst) as Hcs.
    rewrite (lock_view_some _ _ _ Hl), spec_exclusive_view.
    destruct (position_of _ _) as [pos|].
    + destruct Hcs as (t & Hr & Hex & Hone & Hfil).
      rewrite (index_lookup _ _ (mkLockRecord t p)) by (rewrite ?Nat2Z.id; done || lia).
      cbn [mbind outcome_bind record_type]. destruct t.
      * destruct (Z.eqb_spec (count st) 1) as [Hc1|].
        -- rewrite decide_True by tauto. destruct (Hone Hc1) as [Hh ->]. rewrite Hh, Hc1.
           give @granted_insert.
        -- rewrite decide_False by tauto. destruct nb; give @granted_refused.
      * specialize (Hex eq_refl). rewrite decide_True by (rewrite Hex; apply list_filter_sole).
        give @granted_same. by rewrite (lock_view_some _ _ _ Hl), Hex.
    + destruct Hcs as [-> Hnil]. destruct (lock_type st) as [lt|].
      * rewrite decide_False by naive_solver. destruct nb; give @granted_refused.
      * rewrite (proj1 Hnil) by done. rewrite decide_True by done.
        give @granted_insert.
  - unfold lock_view. rewrite Hl, spec_exclusive_empty. give @granted_insert.
Qed.

Lemma try_acquire_exclusive_refines ls fs ino p :
  locks_inv ls →
  ∃ rep ls', try_acquire_exclusive ls fs ino p = Ret (rep, ls') ∧
    granted (Ok tt) (Err ERR_WOULD_BLOCK) ls (fs, ino)
      (spec_exclusive p (lock_view ls (fs, ino))) rep ls'.
Proof.
  intros Hi. unfold try_acquire_exclusive. destruct (ls !! (fs, ino)) as [st|] eqn:Hl.
  - pose proof (Hi _ _ Hl) as Hst. pose proof (exclusive_cases st p Hst) as Hcs.
    rewrite (lock_view_some _ _ _ Hl), spec_exclusive_view.
    destruct (position_of _ _) as [pos|].
    + destruct Hcs as (t & Hr & Hex & Hone & Hfil).
      rewrite (index_lookup _ _ (mkLockRecord t p)) by (rewrite ?Nat2Z.id; done || lia).
      cbn [mbind outcome_bind record_type]. destruct t; simpl.
      * destruct (Z.eqb_spec (count st) 1) as [Hc1|].
        -- rewrite decide_True by tauto. destruct (Hone Hc1) as [Hh ->]. rewrite Hh, Hc1.
           give @granted_insert.
        -- rewrite decide_False by tauto. destruct (Z.eqb_spec (count st) 0) as [Hc0|].
           ++ destruct Hst as (Hc & _). rewrite Hc0 in Hc. symmetry in Hc.
              apply Nat2Z.inj_iff with (m := O) in Hc. apply nil_length_inv in Hc. by rewrite Hc in Hr.
           ++ give @granted_refused.
      * specialize (Hex eq_refl). rewrite decide_True by (rewrite Hex; apply list_filter_sole).
        give @granted_same. by rewrite (lock_view_some _ _ _ Hl), Hex.
    + destruct Hcs as [-> Hnil]. destruct Hst as (Hc & _). destruct (holders st) as [|h hs].
      * rewrite Hc, decide_True by done. give @granted_insert.
      * destruct (Z.eqb_spec (count st) 0) as [Hc0|]; [unfold len in Hc; simpl in Hc; lia|].
        give @granted_refused.
  - unfold lock_view. rewrite Hl, spec_exclusive_empty. give @granted_insert.
Qed.

(** ** Releasing *)

(** The state of an inode after the one record of [p] has been removed. *)
Definition removed_state (st : InodeLockState) (p : Z) : InodeLockState :=
  mkInodeLockState (count st - 1) (if count st - 1 =? 0 then None else lock_type st)
    (filter (λ r, pid r ≠ p) (holders st)).

Lemma Forall_shared_filter (hs : list LockRecord) p :
  Forall (λ r, record_type r = Shared) hs →
  Forall (λ r, record_type r = Shared) (filter (λ r, pid r ≠ p) hs).
Proof.
  rewrite !list.Forall_forall. intros Hf r [_ Hr]%list_elem_of_filter. by apply Hf.
Qed.

Lemma removed_state_inv st p :
  st_inv st → p ∈ pid <$> holders st → st_inv (removed_state st p).
Proof.
  intros (Hc & Hnd & Ht) Hin. pose proof (filter_pid_length _ _ Hnd Hin) as Hlen.
  unfold removed_state. split; simpl; [lia|]. split; [by apply NoDup_pid_filter|].
  destruct (Z.eqb_spec (count st - 1) 0) as [Hz|Hz].
  - apply nil_length_inv. unfold len in *. lia.
  - destruct (lock_type st) as [[]|].
    + destruct Ht as [_ Ht]. split; [|by apply Forall_shared_filter].
      intros Hn. rewrite Hn in Hlen. unfold len in *. simpl in Hlen. lia.
    + destruct Ht as [q Hq]. rewrite Hq in Hc. unfold len in Hc. simpl in Hc. lia.
    + by rewrite Ht in Hin; apply elem_of_nil in Hin.
Qed.

(** [release_lock] recomputes the mode from the remaining records; on valid
    states that is the mode before, or none. *)
Lemma recomputed_type st p :
  st_inv st → p ∈ pid <$> holders st →
  let hs := filter (λ r, pid r ≠ p) (holders st) in
  (if count st - 1 =? 0 then None
   else if bool_decide (hs = []) then None
   else if existsb (λ r, bool_decide (record_type r = Exclusive)) hs then Some Exclusive
   else Some Shared) = lock_type (removed_state st p).
Proof.
  intros Hst Hin hs. pose proof (removed_state_inv st p Hst Hin) as (Hc & _ & Ht).
  unfold removed_state in *. simpl in *. destruct (count st - 1 =? 0) eqn:Hz; [done|].
  apply Z.eqb_neq in Hz. destruct (lock_type st) as [[]|] eqn:Hlt.
  - destruct Ht as [Hne Hf]. rewrite bool_decide_false by done.
    destruct (existsb _ _) eqn:He; [|done]. apply existsb_exists in He as (r & Hr & Hx).
    apply bool_decide_eq_true in Hx. apply list_elem_of_In in Hr.
    rewrite list.Forall_forall in Hf. specialize (Hf r Hr). congruence.
  - destruct Ht as [q Hq]. destruct Hst as (Hc' & _ & Ht'). rewrite Hlt in Ht'.
    destruct Ht' as [q' Hq']. rewrite Hc', Hq' in Hz. done.
  - destruct Hst as (_ & _ & Ht'). rewrite Hlt in Ht'. rewrite Ht' in Hin. by apply elem_of_nil in Hin.
Qed.

Lemma release_lock_refines ls fs ino p :
  locks_inv ls → countable ls →
  ∃ ls', release_lock ls fs ino p = Ret (Done (Ok tt), ls') ∧ locks_inv ls' ∧
    view_updated ls ls' (fs, ino) (spec_release p (lock_view ls (fs, ino))).
Proof.
  intros Hi Hcn. unfold release_lock, spec_release. destruct (ls !! (fs, ino)) as [st|] eqn:Hl.
  - pose proof (Hi _ _ Hl) as Hst. pose proof (Hcn _ _ Hl) as Hlt. simpl in Hst, Hlt.
    rewrite (lock_view_some _ _ _ Hl), <- hs_view_filter.
    destruct (decide (p ∈ pid <$> holders st)) as [Hin|Hin].
    + pose proof (removed_state_inv st p Hst Hin) as Hst'.
      pose proof (recomputed_type st p Hst Hin) as Hty.
      destruct Hst as (Hc & Hnd & _). pose proof (filter_pid_length _ _ Hnd Hin) as Hone.
      assert (0 ≤ len (filter (λ r, pid r ≠ p) (holders st))) by (unfold len; lia).
      rewrite sub64_ok, Hone by (rewrite Hone; done). cbn [mbind outcome_bind].
      change (cast 32 1) with 1. change (1 =? 0) with false. cbn beta iota zeta.
      unfold debug_assert, rust_assert. rewrite (proj2 (Z.leb_le 1 (count st))) by lia.
      rewrite sub32_ok by (unfold is_uint, u32_max in *; lia).
      destruct overflow_checks; cbn [mbind outcome_bind];
        (eexists; split; [rewrite Hty; reflexivity|]; split;
          [by apply locks_inv_insert | apply lock_view_insert]).
    + rewrite filter_pid_notin by done. rewrite sub64_ok by (rewrite Z.sub_diag; done).
      rewrite Z.sub_diag. eexists. split; [reflexivity|]. split; [done|].
      rewrite <- (lock_view_some _ _ _ Hl). apply view_updated_id.
  - eexists. split; [done|]. split; [done|]. unfold lock_view at 1. rewrite Hl, delete_empty.
    pose proof (view_updated_id ls (fs, ino)) as Hv. unfold lock_view at 1 in Hv.
    intros k'. specialize (Hv k'). unfold lock_view in *. by destruct (decide _) as [->|]; rewrite ?Hl.
Qed.

Lemma release_entry_ok st p :
  st_inv st → len (holders st) < u32_max → p ∈ pid <$> holders st →
  release_entry p st = Ret (removed_state st p).
Proof.
  intros (Hc & Hnd & _) Hlt Hin. pose proof (filter_pid_length _ _ Hnd Hin) as Hone.
  unfold release_entry. rewrite sub64_ok, Hone by (rewrite Hone; done). cbn [mbind outcome_bind].
  assert (0 ≤ len (filter (λ r, pid r ≠ p) (holders st))) by (unfold len; lia).
  change (cast 32 1) with 1. change (1 >? 0) with true. cbn beta iota zeta.
  unfold saturating_sub, removed_state. by rewrite Z.max_l by lia.
Qed.

Lemma release_keys_ok p keys ls :
  NoDup keys →
  (∀ k, k ∈ keys → ∃ st, ls !! k = Some st ∧ release_entry p st = Ret (removed_state st p)) →
  ∃ ls', release_keys p keys ls = Ret ls' ∧
    ∀ k, ls' !! k = if decide (k ∈ keys) then (λ st, removed_state st p) <$> ls !! k else ls !! k.
Proof.
  revert ls. induction keys as [|key keys IH]; intros ls Hnd Hks.
  { exists ls. split; [done|]. intros k. by rewrite decide_False by apply not_elem_of_nil. }
  apply list.NoDup_cons in Hnd as [Hn Hnd].
  destruct (Hks key) as (st & Hl & He); [set_solver|]. simpl. rewrite Hl, He. cbn [mbind outcome_bind].
  destruct (IH (<[key := removed_state st p]> ls)) as (ls' & -> & Hls'); [done| |].
  { intros k Hk. rewrite lookup_insert_ne by set_solver. apply Hks. set_solver. }
  exists ls'. split; [done|]. intros k. rewrite Hls'.
  destruct (decide (k = key)) as [->|Hne].
  - rewrite decide_False, lookup_insert_eq by done. rewrite decide_True by set_solver. by rewrite Hl.
  - rewrite lookup_insert_ne by done.
    destruct (decide (k ∈ keys)); [rewrite decide_True by set_solver|rewrite decide_False by set_solver]; done.
Qed.

Lemma elem_of_stale_keys p ls k :
  k ∈ stale_keys p ls ↔ ∃ st, ls !! k = Some st ∧ p ∈ pid <$> holders st.
Proof.
  unfold stale_keys. rewrite list_elem_of_fmap. split.
  - intros ([k' st] & -> & [He Hin]%list_elem_of_filter). apply elem_of_map_to_list in Hin.
    exists st. by rewrite <- existsb_pid.
  - intros (st & Hl & Hp). exists (k, st). split; [done|].
    rewrite list_elem_of_filter, elem_of_map_to_list. by rewrite existsb_pid.
Qed.

Lemma NoDup_stale_keys p ls : NoDup (stale_keys p ls).
Proof.
  unfold stale_keys. eapply sublist_NoDup; [apply (NoDup_fst_map_to_list ls)|].
  apply fmap_sublist, sublist_filter.
Qed.

Lemma release_all_refines ls p :
  locks_inv ls → countable ls →
  ∃ ls', release_all_for_task ls p = Ret ls' ∧ locks_inv ls' ∧
    ∀ k, lock_view ls' k = spec_release p (lock_view ls k).
Proof.
  intros Hi Hcn. unfold release_all_for_task.
  destruct (release_keys_ok p (stale_keys p ls) ls) as (ls' & Hr & Hls').
  - apply NoDup_stale_keys.
  - intros k (st & Hl & Hp)%elem_of_stale_keys. exists st. split; [done|].
    apply release_entry_ok; [apply (Hi _ _ Hl) | apply (Hcn _ _ Hl) | done].
  - exists ls'. split; [done|]. split.
    + intros k st' Hl'. rewrite Hls' in Hl'. destruct (decide _) as [Hk|Hk]; [|by apply (Hi _ _ Hl')].
      apply elem_of_stale_keys in Hk as (st & Hl & Hp). rewrite Hl in Hl'. injection Hl' as <-.
      apply removed_state_inv; [apply (Hi _ _ Hl) | done].
    + intros k. unfold lock_view, spec_release. rewrite Hls'. destruct (decide _) as [Hk|Hk].
      * apply elem_of_stale_keys in Hk as (st & -> & Hp). simpl. apply hs_view_filter.
      * destruct (ls !! k) as [st|] eqn:Hl; [|by rewrite delete_empty].
        rewrite <- hs_view_filter, filter_pid_notin; [done|]. intros Hp. apply Hk.
        apply elem_of_stale_keys. eauto.
Qed.

End refinement.

(** ** Properties *)

Section properties.
Context `{BuildProfile}.

Lemma flock_dispatch ls fs ino p (nb : bool) :
  let flag := if nb then LOCK_NB else 0 in
  flock ls fs ino (LOCK_SH + flag) p = acquire_shared ls fs ino p nb ∧
  flock ls fs ino (LOCK_EX + flag) p = acquire_exclusive ls fs ino p nb ∧
  flock ls fs ino (LOCK_UN + flag) p = release_lock ls fs ino p.
Proof. by destruct nb. Qed.

(** C35: On every valid table, [flock] never panics and implements the abstract
    lock manager: a shared request is granted unless another task holds the
    inode exclusively, an exclusive one (upgrade included) only when no other
    task holds it, a refused request leaves the table alone and answers
    [WouldBlock] or starts waiting, an unlock removes exactly the caller, an
    unknown operation is an error, and other inodes are never affected. *)
Theorem flock_refines ls fs ino p (nb : bool) :
  locks_inv ls → countable ls →
  let k := (fs, ino) in
  let flag := if nb then LOCK_NB else 0 in
  (∃ rep ls', flock ls fs ino (LOCK_SH + flag) p = Ret (rep, ls') ∧
     granted (Done (Ok tt)) (if nb then Done (Err ERR_WOULD_BLOCK) else SpinShared) ls k
       (spec_shared p (lock_view ls k)) rep ls') ∧
  (∃ rep ls', flock ls fs ino (LOCK_EX + flag) p = Ret (rep, ls') ∧
     granted (Done (Ok tt)) (if nb then Done (Err ERR_WOULD_BLOCK) else SpinExclusive) ls k
       (spec_exclusive p (lock_view ls k)) rep ls') ∧
  (∃ ls', flock ls fs ino (LOCK_UN + flag) p = Ret (Done (Ok tt), ls') ∧ locks_inv ls' ∧
     view_updated ls ls' k (spec_release p (lock_view ls k))) ∧
  (∀ op, Z.land op (unot 64 LOCK_NB) ∉ [LOCK_SH; LOCK_EX; LOCK_UN] →
     flock ls fs ino op p = Ret (Done (Err (-1)), ls)).
Proof.
  intros Hi Hc k flag. pose proof (flock_dispatch ls fs ino p nb) as (Hs & He & Hu).
  fold flag in Hs, He, Hu. rewrite Hs, He, Hu. split_and!.
  - by apply acquire_shared_refines.
  - by apply acquire_exclusive_refines.
  - by apply release_lock_refines.
  - intros op Hop. unfold flock.
    repeat (rewrite (proj2 (Z.eqb_neq _ _)) by set_solver). done.
Qed.

(** A step of the system that changes the table: a call of [flock], a retry of
    one of the two spin loops, or the exit of a task, all by task [p]. *)
Inductive lock_step (p : Z) (ls ls' : FileLocks) : Prop :=
| lstep_flock fs ino op rep :
    flock ls fs ino op p = Ret (rep, ls') → lock_step p ls ls'
| lstep_retry_shared fs ino r :
    try_acquire_shared ls fs ino p = Ret (r, ls') → lock_step p ls ls'
| lstep_retry_exclusive fs ino r :
    try_acquire_exclusive ls fs ino p = Ret (r, ls') → lock_step p ls ls'
| lstep_exit :
    release_all_for_task ls p = Ret ls' → lock_step p ls ls'.

(** Steps of any task, from tables whose holders the counter can count. *)
Definition any_step (ls ls' : FileLocks) : Prop := countable ls ∧ ∃ p, lock_step p ls ls'.

(** What a valid step of [p] does: the table stays valid and the locks of
    every other task are untouched. *)
Definition owned_step (p : Z) (ls ls' : FileLocks) : Prop :=
  locks_inv ls' ∧ ∀ k q, q ≠ p → lock_view ls' k !! q = lock_view ls k !! q.

Lemma view_updated_owned p ls ls' k m :
  locks_inv ls' → view_updated ls ls' k m → (∀ q, q ≠ p → m !! q = lock_view ls k !! q) →
  owned_step p ls ls'.
Proof.
  intros Hi Hv Hm. split; [done|]. intros k' q Hq. rewrite (Hv k').
  destruct (decide (k' = k)) as [->|]; [by apply Hm | done].
Qed.

Lemma granted_shared_owned {R} (ok ref rep : R) p ls ls' k :
  granted ok ref ls k (spec_shared p (lock_view ls k)) rep ls' → owned_step p ls ls'.
Proof.
  intros [Hi Hg]. unfold spec_shared in Hg. destruct (lock_view ls k !! p) eqn:Hp.
  - destruct Hg as [_ Hv]. eapply view_updated_owned; eauto.
  - destruct (decide _); [by destruct Hg as [_ ->]|]. destruct Hg as [_ Hv].
    eapply view_updated_owned; [done.. |]. intros. by rewrite lookup_insert_ne.
Qed.

Lemma granted_exclusive_owned {R} (ok ref rep : R) p ls ls' k :
  granted ok ref ls k (spec_exclusive p (lock_view ls k)) rep ls' → owned_step p ls ls'.
Proof.
  intros [Hi Hg]. unfold spec_exclusive in Hg.
  destruct (decide _) as [Hd|]; [|by destruct Hg as [_ ->]]. destruct Hg as [_ Hv].
  eapply view_updated_owned; [done..|]. intros q Hq. rewrite lookup_singleton_ne by done.
  apply (f_equal (λ m : lockset, m !! q)) in Hd. by rewrite lookup_delete_ne, lookup_empty in Hd.
Qed.

Lemma flock_owned p ls fs ino op rep ls' :
  locks_inv ls → countable ls → flock ls fs ino op p = Ret (rep, ls') → owned_step p ls ls'.
Proof.
  intros Hi Hc. unfold flock. repeat case_match.
  - intros He. edestruct acquire_shared_refines as (r & l & Hr & Hg); [done..|].
    rewrite He in Hr. simplify_eq. by eapply granted_shared_owned.
  - intros He. edestruct acquire_exclusive_refines as (r & l & Hr & Hg); [done..|].
    rewrite He in Hr. simplify_eq. by eapply granted_exclusive_owned.
  - intros He. edestruct release_lock_refines as (l & Hr & Hi' & Hv); [done..|].
    rewrite He in Hr. simplify_eq. eapply view_updated_owned; [done..|].
    intros. by apply lookup_delete_ne.
  - intros. simplify_eq. by split.
Qed.

Lemma lock_step_owned p ls ls' :
  locks_inv ls → countable ls → lock_step p ls ls' → owned_step p ls ls'.
Proof.
  intros Hi Hc [fs ino op rep He|fs ino r He|fs ino r He|He].
  - by eapply flock_owned.
  - edestruct try_acquire_shared_refines as (? & ? & Hr & Hg); [done..|].
    rewrite He in Hr. simplify_eq. by eapply granted_shared_owned.
  - edestruct try_acquire_exclusive_refines as (? & ? & Hr & Hg); [done..|].
    rewrite He in Hr. simplify_eq. by eapply granted_exclusive_owned.
  - edestruct release_all_refines as (? & Hr & Hi' & Hv); [done..|].
    rewrite He in Hr. simplify_eq. split; [done|]. intros. rewrite Hv. by apply lookup_delete_ne.
Qed.

Lemma any_step_inv ls ls' : any_step ls ls' → locks_inv ls → locks_inv ls'.
Proof. intros (Hc & p & Hs) Hi. by apply (lock_step_owned p ls ls' Hi Hc Hs). Qed.

Lemma locks_reachable_inv ls0 ls : rtc any_step ls0 ls → locks_inv ls0 → locks_inv ls.
Proof. induction 1; eauto using any_step_inv. Qed.

Lemma inv_exclusive_sole ls k p q t :
  locks_inv ls → lock_view ls k !! p = Some Exclusive → lock_view ls k !! q = Some t → q = p.
Proof.
  intros Hi. unfold lock_view. destruct (ls !! k) as [st|] eqn:Hl; [|by rewrite lookup_empty].
  pose proof (Hi _ _ Hl) as Hst. simpl in Hst. intros Hp Hq.
  assert (lock_type st = Some Exclusive) as Hx.
  { apply st_inv_exists_exclusive; [done|]. by exists p, Exclusive. }
  destruct Hst as (_ & _ & Ht). rewrite Hx in Ht. destruct Ht as [r Hr]. rewrite Hr in Hp, Hq.
  unfold hs_view in Hp, Hq. simpl in Hp, Hq.
  apply lookup_insert_Some in Hp as [[<- _]|[_ []%lookup_empty_Some]].
  by apply lookup_insert_Some in Hq as [[<- _]|[_ []%lookup_empty_Some]].
Qed.

(** Mutual exclusion over every interleaving of lock requests, retries of
    waiting tasks, unlocks and task exits, starting from the empty table: a
    task that holds an inode exclusively is its only holder, and a step of one
    task never takes a lock away from, or gives one to, another. *)
Theorem flock_mutual_exclusion ls :
  rtc any_step ∅ ls →
  (∀ k p q t, lock_view ls k !! p = Some Exclusive → lock_view ls k !! q = Some t → q = p) ∧
  (∀ p ls', countable ls → lock_step p ls ls' →
     ∀ k q, q ≠ p → lock_view ls' k !! q = lock_view ls k !! q).
Proof.
  intros Hr. pose proof (locks_reachable_inv _ _ Hr locks_inv_empty) as Hi. split.
  - intros. by eapply inv_exclusive_sole.
  - intros p ls' Hc Hs. by apply (lock_step_owned p ls ls' Hi Hc Hs).
Qed.
(** When a task exits, all its locks are released on every inode and the
    locks of all other tasks are kept; the cleanup cannot panic. *)
Theorem exit_releases_everything ls p :
  locks_inv ls → countable ls →
  ∃ ls', release_all_for_task ls p = Ret ls' ∧ locks_inv ls' ∧
    (∀ k, lock_view ls' k !! p = None) ∧
    (∀ k q, q ≠ p → lock_view ls' k !! q = lock_view ls k !! q).
Proof.
  intros Hi Hc. destruct (release_all_refines ls p Hi Hc) as (ls' & Hr & Hi' & Hv).
  exists ls'. split_and!; [done..| |]; intros; rewrite Hv; unfold spec_release.
  - apply lookup_delete_eq.
  - by apply lookup_delete_ne.
Qed.

(** ** The spin loops *)

(** The table a waiting task finds at its [n]-th retry if all earlier ones
    failed: only the other tasks have acted on it. *)
Fixpoint seen (others : nat → FileLocks → FileLocks) (i n : nat) (ls : FileLocks) : FileLocks :=
  match n with
  | O => others i ls
  | S n => seen others (S i) n (others i ls)
  end.

Definition valid_table (ls : FileLocks) : Prop := locks_inv ls ∧ countable ls.

Definition preserves_valid (others : nat → FileLocks → FileLocks) : Prop :=
  ∀ i ls, valid_table ls → valid_table (others i ls).

Lemma spin_shared_returns others n i ls fs ino p :
  preserves_valid others → valid_table ls →
  is_Some (spec_shared p (lock_view (seen others i n ls) (fs, ino))) →
  ∃ ls', spin_wait_shared (S n) others i ls fs ino p = Ret (Some ls') ∧
    is_Some (lock_view ls' (fs, ino) !! p) ∧ locks_inv ls'.
Proof.
  intros Hpres. revert i ls. induction n as [|n IH]; intros i ls Hv [m Hm];
    pose proof (Hpres i ls Hv) as Hv'; pose proof Hv' as [Hi Hc];
    destruct (try_acquire_shared_refines (others i ls) fs ino p Hi Hc) as (rep & ls' & Hr & Hi' & Hg);
    cbn [spin_wait_shared]; rewrite Hr; cbn [mbind outcome_bind].
  all: destruct (spec_shared p (lock_view (others i ls) (fs, ino))) as [m'|] eqn:Hs.
  2: { simpl in Hm. congruence. }
  3: { destruct Hg as [-> ->]. simpl. apply IH; [done|]. simpl in Hm. eauto. }
  all: destruct Hg as [-> Hu]; simpl; exists ls'; (split_and!; [done| |done]).
  all: rewrite (Hu (fs, ino)), decide_True by done; unfold spec_shared in Hs.
  all: destruct (lock_view (others i ls) (fs, ino) !! p) eqn:Hl; [injection Hs as <-; eauto|].
  all: destruct (decide _); [done|]; injection Hs as <-; rewrite lookup_insert_eq; eauto.
Qed.

Lemma spin_exclusive_returns others n i ls fs ino p :
  preserves_valid others → valid_table ls →
  is_Some (spec_exclusive p (lock_view (seen others i n ls) (fs, ino))) →
  ∃ ls', spin_wait_exclusive (S n) others i ls fs ino p = Ret (Some ls') ∧
    lock_view ls' (fs, ino) = {[p := Exclusive]} ∧ locks_inv ls'.
Proof.
  intros Hpres. revert i ls. induction n as [|n IH]; intros i ls Hv [m Hm];
    pose proof (Hpres i ls Hv) as Hv'; pose proof Hv' as [Hi Hc];
    destruct (try_acquire_exclusive_refines (others i ls) fs ino p Hi) as (rep & ls' & Hr & Hi' & Hg);
    cbn [spin_wait_exclusive]; rewrite Hr; cbn [mbind outcome_bind].
  all: destruct (spec_exclusive p (lock_view (others i ls) (fs, ino))) as [m'|] eqn:Hs.
  2: { simpl in Hm. congruence. }
  3: { destruct Hg as [-> ->]. simpl. apply IH; [done|]. simpl in Hm. eauto. }
  all: destruct Hg as [-> Hu]; simpl; exists ls'; (split_and!; [done| |done]).
  all: rewrite (Hu (fs, ino)), decide_True by done; unfold spec_exclusive in Hs.
  all: destruct (decide _); [by injection Hs as <-|done].
Qed.

(** A blocking request that had to wait returns as soon as the abstract
    lock manager would grant it: if at the [n]-th retry the other tasks have
    left the inode in a grantable state, the spin loop has returned within
    [n + 1] retries, holding the requested lock. *)
Theorem spin_wait_returns others n ls fs ino p :
  preserves_valid others → valid_table ls →
  (is_Some (spec_shared p (lock_view (seen others 0 n ls) (fs, ino))) →
   ∃ ls', spin_wait_shared (S n) others 0 ls fs ino p = Ret (Some ls') ∧
     is_Some (lock_view ls' (fs, ino) !! p) ∧ locks_inv ls') ∧
  (is_Some (spec_exclusive p (lock_view (seen others 0 n ls) (fs, ino))) →
   ∃ ls', spin_wait_exclusive (S n) others 0 ls fs ino p = Ret (Some ls') ∧
     lock_view ls' (fs, ino) = {[p := Exclusive]} ∧ locks_inv ls').
Proof. split; intros; [by apply spin_shared_returns | by apply spin_exclusive_returns]. Qed.

(** While the other task is itself retrying an upgrade. *)
Definition retrying (fs ino q : Z) : nat → FileLocks → FileLocks :=
  λ _ ls, match try_acquire_exclusive ls fs ino q with Ret (_, ls') => ls' | Panic => ls end.

Lemma spec_exclusive_held m p q t :
  p ≠ q → m !! q = Some t → spec_exclusive p m = None.
Proof.
  intros Hne Hq. unfold spec_exclusive. rewrite decide_False; [done|]. intros Hd.
  apply (f_equal (λ m : lockset, m !! q)) in Hd. rewrite lookup_delete_ne, lookup_empty in Hd; congruence.
Qed.

Lemma try_exclusive_held ls fs ino p q t :
  locks_inv ls → p ≠ q → lock_view ls (fs, ino) !! q = Some t →
  try_acquire_exclusive ls fs ino p = Ret (Err ERR_WOULD_BLOCK, ls).
Proof.
  intros Hi Hne Hq. destruct (try_acquire_exclusive_refines ls fs ino p Hi) as (r & l & Hr & _ & Hg).
  rewrite (spec_exclusive_held _ _ _ _ Hne Hq) in Hg. destruct Hg as [-> ->]. done.
Qed.

Lemma upgrade_spins ls fs ino p q tp tq fuel i :
  locks_inv ls → p ≠ q →
  lock_view ls (fs, ino) !! p = Some tp → lock_view ls (fs, ino) !! q = Some tq →
  spin_wait_exclusive fuel (retrying fs ino q) i ls fs ino p = Ret None.
Proof.
  intros Hi Hne Hp Hq. revert i. induction fuel as [|fuel IH]; intros i; [done|].
  cbn [spin_wait_exclusive]. replace (retrying fs ino q i ls) with ls
    by (unfold retrying; by rewrite (try_exclusive_held ls fs ino q p tp)).
  rewrite (try_exclusive_held ls fs ino p q tq) by done. apply IH.
Qed.

(** Two tasks that both hold a shared lock and both ask for the exclusive
    one without [LOCK_NB] wait for each other for ever: each enters the spin
    loop, keeps its shared lock, and no number of retries of either lets
    either of them through. *)
Theorem upgrade_deadlock ls fs ino p q :
  locks_inv ls → p ≠ q →
  lock_view ls (fs, ino) !! p = Some Shared → lock_view ls (fs, ino) !! q = Some Shared →
  flock ls fs ino LOCK_EX p = Ret (SpinExclusive, ls) ∧
  flock ls fs ino LOCK_EX q = Ret (SpinExclusive, ls) ∧
  ∀ fuel i,
    spin_wait_exclusive fuel (retrying fs ino q) i ls fs ino p = Ret None ∧
    spin_wait_exclusive fuel (retrying fs ino p) i ls fs ino q = Ret None.
Proof.
  intros Hi Hne Hp Hq.
  assert (∀ a b t, a ≠ b → lock_view ls (fs, ino) !! b = Some t →
            flock ls fs ino LOCK_EX a = Ret (SpinExclusive, ls)) as Hspin.
  { intros a b t Hab Hb. change (flock ls fs ino LOCK_EX a) with (acquire_exclusive ls fs ino a false).
    destruct (acquire_exclusive_refines ls fs ino a false Hi) as (r & l & Hr & _ & Hg).
    rewrite (spec_exclusive_held _ _ _ _ Hab Hb) in Hg. by destruct Hg as [-> ->]. }
  split_and!; [by eapply Hspin | by eapply Hspin |].
  intros fuel i. split; eapply upgrade_spins; eauto.
Qed.

End properties.

(** ** Witnesses *)

(** Task 1 and task 2 share inode (0, 5); task 3 holds inode (0, 6). *)
Definition table_ex : FileLocks :=
  <[(0, 6) := mkInodeLockState 1 (Some Exclusive) [mkLockRecord Exclusive 3]]>
  (<[(0, 5) := mkInodeLockState 2 (Some Shared) [mkLockRecord Shared 1; mkLockRecord Shared 2]]> ∅).

Lemma table_ex_inv : locks_inv table_ex.
Proof.
  apply locks_inv_insert; [apply locks_inv_insert; [apply locks_inv_empty|]|apply st_inv_singleton].
  split; [done|]. split.
  - apply (NoDup_pid_snoc [mkLockRecord Shared 1]); [set_solver | apply list.NoDup_singleton].
  - split; [done|]. by repeat constructor.
Qed.

Lemma table_ex_countable : countable table_ex.
Proof. repeat apply map_Forall_insert_2; [done..|apply map_Forall_empty]. Qed.

Lemma flock_refines_witness :
  ∃ ls', flock (H := dev_profile) table_ex 0 5 (LOCK_EX + LOCK_NB) 2
         = Ret (Done (Err ERR_WOULD_BLOCK), ls').
Proof.
  destruct (flock_refines (H := dev_profile) table_ex 0 5 2 true table_ex_inv table_ex_countable)
    as (_ & (rep & ls' & Hf & Hg) & _).
  exists ls'. rewrite Hf. destruct Hg as [_ Hg]. vm_compute in Hg. destruct Hg as [-> _]. done.
Defined.

Lemma flock_mutual_exclusion_witness :
  let ls := match flock (H := dev_profile) ∅ 0 5 LOCK_EX 1 with Ret (_, ls) => ls | Panic => ∅ end in
  lock_view ls (0, 5) !! 1 = Some Exclusive ∧
  (∀ q t, lock_view ls (0, 5) !! q = Some t → q = 1).
Proof.
  intros ls. assert (Hl : lock_view ls (0, 5) !! 1 = Some Exclusive) by (vm_compute; reflexivity).
  split; [exact Hl|]. intros q t Hq.
  refine (proj1 (flock_mutual_exclusion (H := dev_profile) ls _) (0, 5) 1 q t Hl Hq).
  apply rtc_once. split; [apply map_Forall_empty|]. exists 1.
  apply (lstep_flock 1 ∅ ls 0 5 LOCK_EX (Done (Ok tt))). reflexivity.
Defined.

Lemma exit_releases_everything_witness :
  ∃ ls', release_all_for_task (H := dev_profile) table_ex 1 = Ret ls' ∧
    lock_view ls' (0, 5) !! 1 = None ∧ lock_view ls' (0, 5) !! 2 = Some Shared.
Proof.
  destruct (exit_releases_everything (H := dev_profile) table_ex 1 table_ex_inv table_ex_countable)
    as (ls' & Hr & _ & Hp & Hq).
  exists ls'. split; [exact Hr|]. split; [apply Hp|].
  rewrite (Hq (0, 5) 2) by done. reflexivity.
Defined.

(** Task 2 unlocks while task 1 waits for its upgrade. *)
Definition task2_leaves : nat → FileLocks → FileLocks :=
  λ i ls, match i with
          | O => ls
          | _ => <[(0, 5) := mkInodeLockState 1 (Some Shared) [mkLockRecord Shared 1]]> ls
          end.

Lemma task2_leaves_valid : preserves_valid task2_leaves.
Proof.
  intros [|i] ls [Hi Hc]; [done|]. split; [by apply locks_inv_insert, st_inv_singleton|].
  by apply map_Forall_insert_2.
Qed.

Lemma spin_wait_returns_witness :
  ∃ ls', spin_wait_exclusive 2 task2_leaves 0 table_ex 0 5 1 = Ret (Some ls') ∧
    lock_view ls' (0, 5) = {[1 := Exclusive]}.
Proof.
  destruct (spin_wait_returns (H := dev_profile) task2_leaves 1 table_ex 0 5 1
    task2_leaves_valid (conj table_ex_inv table_ex_countable)) as [_ Hx].
  destruct Hx as (ls' & Hr & Hv & _); [vm_compute; eauto|]. exists ls'. split; [exact Hr | exact Hv].
Defined.

Lemma upgrade_deadlock_witness :
  flock (H := dev_profile) table_ex 0 5 LOCK_EX 1 = Ret (SpinExclusive, table_ex) ∧
  spin_wait_exclusive 100 (retrying 0 5 2) 0 table_ex 0 5 1 = Ret None.
Proof.
  assert (Hne : 1 ≠ 2) by done.
  destruct (upgrade_deadlock (H := dev_profile) table_ex 0 5 1 2 table_ex_inv Hne) as (H1 & _ & H2);
    [reflexivity | reflexivity |].
  split; [exact H1 | exact (proj1 (H2 100%nat O))].
Defined.
