(* ===== verification/BlockCache.v ===== *)
(** * Block devices and the sector cache
    (kernel/src/drivers/block.rs, kernel/src/fs/block_cache.rs)

    The trait [BlockDevice] is a class over the state of a device, the registry
    is the fixed array of registered devices, and the cache is the 64-slot
    write-back LRU cache in front of them.  What the cache relies on from a
    device is the class [BlockDeviceLaws]; its theorems hold for every device
    that satisfies them. *)

From stdpp Require Import relations.
From S2P Require Import Prelude.

Definition SECTOR_SIZE : Z := 512.
Definition MAX_DEVICES : nat := 4.
Definition CACHE_SIZE : nat := 64.

Abbreviation Sector := (list Z) (only parsing).

(** ** Devices *)

(** The trait: a read fills a buffer or fails, a write may fail; both may
    change the state of the driver behind the shared reference. *)
Class BlockDevice (D : Type) : Type := {
  read_sector : D → Z → result Sector unit * D;
  write_sector : D → Z → Sector → result unit unit * D;
  sector_count : D → Z;
}.

(** What a block device promises: a successful read returns the contents and
    changes none, a successful write changes exactly one sector, a failed
    write changes at most that sector. *)
Class BlockDeviceLaws (D : Type) `{BlockDevice D} : Type := {
  sector_at : D → Z → Sector;
  read_ok d l s d' : read_sector d l = (Ok s, d') → s = sector_at d l;
  read_frame d l r d' : read_sector d l = (r, d') → ∀ l', sector_at d' l' = sector_at d l';
  write_ok d l s d' : write_sector d l s = (Ok tt, d') → sector_at d' l = s;
  write_frame d l s r d' :
    write_sector d l s = (r, d') → ∀ l', l' ≠ l → sector_at d' l' = sector_at d l';
}.

Section registry.
Context {D : Type} `{BlockDevice D}.

(** [BLOCK_DEVICES].  Each slot owns its device. *)
Abbreviation Registry := (list (option D)).

Definition empty_registry : Registry := replicate MAX_DEVICES None.

Fixpoint register_device (devs : Registry) (dev : D) : Registry :=
  match devs with
  | [] => []
  | None :: devs => Some dev :: devs
  | Some d :: devs => Some d :: register_device devs dev
  end.

Definition get_device (devs : Registry) (i : nat) : option D :=
  if Nat.leb MAX_DEVICES i then None else mjoin (devs !! i).

(** A call through the device returned by [get_device] updates its slot. *)
Definition device_read (devs : Registry) (i : nat) (d : D) (l : Z) : result Sector unit * Registry :=
  let '(r, d') := read_sector d l in (r, <[i := Some d']> devs).

Definition device_write (devs : Registry) (i : nat) (d : D) (l : Z) (s : Sector)
    : result unit unit * Registry :=
  let '(r, d') := write_sector d l s in (r, <[i := Some d']> devs).

(** ** The cache *)

Record CacheEntry : Type := mkCacheEntry {
  device_idx : nat;
  lba : Z;
  data : Sector;
  dirty : bool;
  valid : bool;
  access_counter : Z;
}.

Definition CacheEntry_empty : CacheEntry :=
  mkCacheEntry 0 0 (replicate (Z.to_nat SECTOR_SIZE) 0) false false 0.

Record BlockCache : Type := mkBlockCache { entries : list CacheEntry; counter : Z }.

Definition BlockCache_new : BlockCache := mkBlockCache (replicate CACHE_SIZE CacheEntry_empty) 0.

Definition next_counter (self : BlockCache) : Z * BlockCache :=
  let c := wrapping_add 64 (counter self) 1 in (c, mkBlockCache (entries self) c).

Definition matches (dev : nat) (l : Z) (e : CacheEntry) : Prop :=
  valid e = true ∧ device_idx e = dev ∧ lba e = l.
#[export] Instance matches_dec dev l e : Decision (matches dev l e).
Proof. unfold matches. apply _. Defined.

Definition cache_find (self : BlockCache) (dev : nat) (l : Z) : option nat :=
  fst <$> list_find (matches dev l) (entries self).

Fixpoint lru_loop (es : list CacheEntry) (i : nat) (best_idx : option nat) (best_counter : Z)
    : option nat :=
  match es with
  | [] => best_idx
  | e :: es =>
      if negb (valid e) then Some i
      else if negb (dirty e) && (access_counter e <? best_counter)
      then lru_loop es (S i) (Some i) (access_counter e)
      else lru_loop es (S i) best_idx best_counter
  end.

Definition find_lru_victim (self : BlockCache) : option nat :=
  lru_loop (entries self) 0 None u64_max.

Definition set_entry (self : BlockCache) (i : nat) (e : CacheEntry) : BlockCache :=
  mkBlockCache (<[i := e]> (entries self)) (counter self).

(** The write-back of a dirty victim before its slot is reused. *)
Definition flush_victim (self : BlockCache) (devs : Registry) (victim : nat) : Registry :=
  match entries self !! victim with
  | Some e =>
      if valid e && dirty e then
        match get_device devs (device_idx e) with
        | Some dev => snd (device_write devs (device_idx e) dev (lba e) (data e))
        | None => devs
        end
      else devs
  | None => devs
  end.

Definition touch (e : CacheEntry) (c : Z) : CacheEntry :=
  mkCacheEntry (device_idx e) (lba e) (data e) (dirty e) (valid e) c.

Definition read_cached (cache : BlockCache) (devs : Registry) (dev : nat) (l : Z)
    : option Sector * BlockCache * Registry :=
  match cache_find cache dev l with
  | Some idx =>
      let '(c, cache) := next_counter cache in
      match entries cache !! idx with
      | Some e => (Some (data e), set_entry cache idx (touch e c), devs)
      | None => (None, cache, devs)
      end
  | None =>
      match get_device devs dev with
      | None => (None, cache, devs)
      | Some d =>
          match device_read devs dev d l with
          | (Err _, devs) => (None, cache, devs)
          | (Ok buf, devs) =>
              match find_lru_victim cache with
              | None => (None, cache, devs)
              | Some victim =>
                  let '(c, cache) := next_counter cache in
                  let devs := flush_victim cache devs victim in
                  (Some buf, set_entry cache victim (mkCacheEntry dev l buf false true c), devs)
              end
          end
      end
  end.

Definition write_cached (cache : BlockCache) (devs : Registry) (dev : nat) (l : Z) (s : Sector)
    : result unit unit * BlockCache * Registry :=
  match cache_find cache dev l with
  | Some idx =>
      let '(c, cache) := next_counter cache in
      match entries cache !! idx with
      | Some e =>
          (Ok tt, set_entry cache idx (mkCacheEntry (device_idx e) (lba e) s true (valid e) c), devs)
      | None => (Err tt, cache, devs)
      end
  | None =>
      match find_lru_victim cache with
      | None => (Err tt, cache, devs)
      | Some victim =>
          let '(c, cache) := next_counter cache in
          let devs := flush_victim cache devs victim in
          (Ok tt, set_entry cache victim (mkCacheEntry dev l s true true c), devs)
      end
  end.

Definition clean (e : CacheEntry) : CacheEntry :=
  mkCacheEntry (device_idx e) (lba e) (data e) false (valid e) (access_counter e).

(** One iteration of [flush_all]. *)
Definition flush_entry (e : CacheEntry) (devs : Registry) : CacheEntry * Z * Registry :=
  if valid e && dirty e then
    match get_device devs (device_idx e) with
    | Some dev =>
        match device_write devs (device_idx e) dev (lba e) (data e) with
        | (Ok _, devs) => (clean e, 0, devs)
        | (Err _, devs) => (e, 1, devs)
        end
    | None => (e, 1, devs)
    end
  else (e, 0, devs).

Fixpoint flush_loop (es : list CacheEntry) (devs : Registry) : list CacheEntry * Z * Registry :=
  match es with
  | [] => ([], 0, devs)
  | e :: es =>
      let '(e', failed, devs) := flush_entry e devs in
      let '(es', failures, devs) := flush_loop es devs in
      (e' :: es', failed + failures, devs)
  end.

Definition flush_all (cache : BlockCache) (devs : Registry) : Z * BlockCache * Registry :=
  let '(es, failures, devs) := flush_loop (entries cache) devs in
  (failures, mkBlockCache es (counter cache), devs).

End registry.

(** ** What the cache stands for *)

Definition key (e : CacheEntry) : nat * Z := (device_idx e, lba e).

(** The data the slots hold for a sector. *)
Definition cached (es : list CacheEntry) (k : nat * Z) : option Sector :=
  data ∘ snd <$> list_find (matches k.1 k.2) es.

Definition unique (es : list CacheEntry) : Prop :=
  ∀ i j ei ej, es !! i = Some ei → es !! j = Some ej →
    valid ei = true → valid ej = true → key ei = key ej → i = j.

Lemma matches_key dev l e : matches dev l e ↔ valid e = true ∧ key e = (dev, l).
Proof. unfold matches, key. naive_solver. Qed.

Lemma cached_Some es k s :
  unique es →
  cached es k = Some s ↔ ∃ i e, es !! i = Some e ∧ valid e = true ∧ key e = k ∧ data e = s.
Proof.
  intros Hu. unfold cached. rewrite fmap_Some. destruct k as [dev l]. split.
  - intros ([i e] & Hf & ->). apply list_find_Some in Hf as (Hi & [Hv Hk]%matches_key & _). exists i, e. done.
  - intros (i & e & Hi & Hv & Hk & <-). exists (i, e). split; [|done]. apply list_find_Some.
    split_and!; [done | by apply matches_key |].
    intros j e' Hj Hlt [Hv' Hk']%matches_key. simpl in *.
    assert (j = i) by (eapply Hu; eauto; congruence). lia.
Qed.

Lemma cached_None es k :
  cached es k = None ↔ ∀ i e, es !! i = Some e → valid e = true → key e ≠ k.
Proof.
  unfold cached. rewrite fmap_None, list_find_None, Forall_lookup. destruct k as [dev l].
  split; intros Hf i e Hi; specialize (Hf i e Hi); rewrite matches_key in *; simpl in *; naive_solver.
Qed.

Lemma cache_find_Some c dev l i :
  cache_find c dev l = Some i →
  ∃ e, entries c !! i = Some e ∧ valid e = true ∧ key e = (dev, l) ∧ cached (entries c) (dev, l) = Some (data e).
Proof.
  unfold cache_find, cached. intros ([i' e] & Hf & ->)%fmap_Some. simpl. rewrite Hf.
  apply list_find_Some in Hf as (Hi & [Hv Hk]%matches_key & _). eauto.
Qed.

Lemma cache_find_None c dev l : cache_find c dev l = None ↔ cached (entries c) (dev, l) = None.
Proof. unfold cache_find, cached. by rewrite !fmap_None. Qed.

(** Replacing the entry [e0] of slot [i] by a valid [e] whose key no other
    slot has. *)
Lemma unique_insert es i e0 e :
  unique es → es !! i = Some e0 →
  (∀ j ej, j ≠ i → es !! j = Some ej → valid ej = true → key ej ≠ key e) →
  unique (<[i := e]> es).
Proof.
  intros Hu Hi Hk a b ea eb Ha Hb Hva Hvb Hkab.
  apply list_lookup_insert_Some in Ha as [(<- & <- & _)|[Hai Ha]];
    apply list_lookup_insert_Some in Hb as [(<- & <- & _)|[Hbi Hb]]; [done| | |by eapply Hu].
  - exfalso. by apply (Hk b eb).
  - exfalso. by apply (Hk a ea).
Qed.

Lemma cached_insert es i e0 e k :
  unique es → es !! i = Some e0 → valid e = true →
  (∀ j ej, j ≠ i → es !! j = Some ej → valid ej = true → key ej ≠ key e) →
  cached (<[i := e]> es) k =
    if decide (k = key e) then Some (data e)
    else if decide (valid e0 = true ∧ key e0 = k) then None else cached es k.
Proof.
  intros Hu Hi Hv Hk. pose proof (unique_insert _ _ _ _ Hu Hi Hk) as Hu'.
  assert (i < length es)%nat as Hlt by by eapply lookup_lt_Some.
  destruct (decide (k = key e)) as [->|Hne].
  - apply cached_Some; [done|]. exists i, e. by rewrite list_lookup_insert_eq.
  - destruct (decide _) as [[Hv0 <-]|Hn].
    + apply cached_None. intros j ej Hj Hvj Hkj.
      apply list_lookup_insert_Some in Hj as [(<- & <- & _)|[Hji Hj]]; [congruence|].
      apply Hji. symmetry. by eapply Hu.
    + apply option_eq. intros s. rewrite !cached_Some by done. split.
      * intros (j & ej & Hj & Hvj & Hkj & Hs).
        apply list_lookup_insert_Some in Hj as [(<- & <- & _)|[Hji Hj]]; [congruence|]. eauto 6.
      * intros (j & ej & Hj & Hvj & Hkj & Hs). exists j, ej. split; [|done].
        rewrite list_lookup_insert_ne; [done|]. intros <-. apply Hn. by simplify_eq.
Qed.

(** Replacing a slot by an entry with the same key, keeping it valid. *)
Lemma other_keys es i e0 :
  unique es → es !! i = Some e0 → valid e0 = true →
  ∀ j ej, j ≠ i → es !! j = Some ej → valid ej = true → key ej ≠ key e0.
Proof. intros Hu Hi Hv j ej Hne Hj Hvj Hk. apply Hne. by eapply Hu. Qed.

Lemma cached_absent_keys es k i :
  cached es k = None → ∀ j ej, j ≠ i → es !! j = Some ej → valid ej = true → key ej ≠ k.
Proof. rewrite cached_None. eauto. Qed.

(** ** The LRU victim *)

(** The loop returns the first invalid slot, else the first clean slot whose
    counter is minimal, else nothing. *)
Definition lru_choice (es : list CacheEntry) (victim : option nat) : Prop :=
  match victim with
  | Some i => ∃ e, es !! i = Some e ∧
      (valid e = false ∨
       dirty e = false ∧ Forall (λ e', valid e' = true ∧ (dirty e' = false → access_counter e ≤ access_counter e')) es)
  | None => Forall (λ e, valid e = true ∧ (dirty e = true ∨ u64_max ≤ access_counter e)) es
  end.

Lemma lru_loop_spec pre es best bc :
  Forall (λ e, valid e = true ∧ (dirty e = false → bc ≤ access_counter e)) pre →
  match best with
  | Some i => ∃ e, pre !! i = Some e ∧ dirty e = false ∧ access_counter e = bc
  | None => bc = u64_max
  end →
  lru_choice (pre ++ es) (lru_loop es (length pre) best bc).
Proof.
  revert pre best bc. induction es as [|e es IH]; intros pre best bc Hpre Hbest; simpl.
  - rewrite app_nil_r. destruct best as [i|]; simpl.
    + destruct Hbest as (e & Hi & Hd & <-). eauto.
    + subst bc. eapply list.Forall_impl; [exact Hpre|]. intros e [Hv Hd]. split; [done|].
      destruct (dirty e); [by left | right; auto].
  - assert ((pre ++ e :: es) !! length pre = Some e) as Hlen
      by by rewrite lookup_app_r, Nat.sub_diag by lia.
    destruct (valid e) eqn:Hv; simpl; [|eauto].
    replace (S (length pre)) with (length (pre ++ [e])) by (rewrite length_app; simpl; lia).
    rewrite (cons_middle e pre es), app_assoc.
    destruct (dirty e) eqn:Hd; simpl; [|destruct (Z.ltb_spec (access_counter e) bc)]; apply IH.
    + apply Forall_app_2; [done|]. apply Forall_singleton. split; [done | congruence].
    + destruct best; [|done]. destruct Hbest as (e' & Hi & ?). exists e'. by rewrite (lookup_app_l_Some _ _ _ _ Hi).
    + apply Forall_app_2; [|apply Forall_singleton; split; [done | lia]].
      eapply list.Forall_impl; [exact Hpre|]. intros e' [? Hle]. split; [done|]. intros ?%Hle. lia.
    + exists e. by rewrite lookup_app_r, Nat.sub_diag by lia.
    + apply Forall_app_2; [done|]. apply Forall_singleton. split; [done | lia].
    + destruct best; [|done]. destruct Hbest as (e' & Hi & ?). exists e'. by rewrite (lookup_app_l_Some _ _ _ _ Hi).
Qed.

Lemma find_lru_victim_spec c : lru_choice (entries c) (find_lru_victim c).
Proof. apply (lru_loop_spec [] (entries c) None u64_max); done. Qed.

(** ** Coherence with the devices *)

Section coherence.
Context {D : Type} `{BlockDeviceLaws D}.
Abbreviation Registry := (list (option D)).
Implicit Types devs : Registry.

(** The contents of the registered devices. *)
Definition disk (devs : Registry) (k : nat * Z) : option Sector :=
  d ← get_device devs k.1; Some (sector_at d k.2).

(** The logical contents: a cached sector hides the one on the device. *)
Definition view (es : list CacheEntry) (devs : Registry) (k : nat * Z) : option Sector :=
  match cached es k with Some s => Some s | None => disk devs k end.

Definition coherent (es : list CacheEntry) (devs : Registry) : Prop :=
  ∀ i e, es !! i = Some e → valid e = true → dirty e = false → disk devs (key e) = Some (data e).

Definition cache_inv (c : BlockCache) (devs : Registry) : Prop :=
  unique (entries c) ∧ coherent (entries c) devs ∧ length (entries c) = CACHE_SIZE.

Lemma get_device_lt devs i d : get_device devs i = Some d → devs !! i = Some (Some d) ∧ (i < MAX_DEVICES)%nat.
Proof.
  unfold get_device. destruct (Nat.leb_spec MAX_DEVICES i); [done|].
  destruct (devs !! i) as [[]|] eqn:E; simpl; intros [= ->]; done.
Qed.

Lemma get_device_set devs i d d' j :
  get_device devs i = Some d →
  get_device (<[i := Some d']> devs) j = if decide (j = i) then Some d' else get_device devs j.
Proof.
  intros [Hi Hlt]%get_device_lt. unfold get_device. destruct (decide (j = i)) as [->|].
  - rewrite (proj2 (Nat.leb_gt MAX_DEVICES i) Hlt).
    rewrite list_lookup_insert_eq by by eapply lookup_lt_Some. done.
  - by rewrite list_lookup_insert_ne by done.
Qed.

Lemma disk_read devs i d l r devs' :
  get_device devs i = Some d → device_read devs i d l = (r, devs') →
  (∀ k, disk devs' k = disk devs k) ∧ (∀ s, r = Ok s → disk devs (i, l) = Some s).
Proof.
  intros Hg. unfold device_read. destruct (read_sector d l) as [r' d'] eqn:Hr. intros [= -> <-]. split.
  - intros [j l']. unfold disk. simpl. rewrite (get_device_set _ _ _ _ _ Hg).
    destruct (decide (j = i)) as [->|]; [|done]. rewrite Hg. simpl. by rewrite (read_frame _ _ _ _ Hr).
  - intros s ->. unfold disk. simpl. rewrite Hg. simpl. by rewrite (read_ok _ _ _ _ Hr).
Qed.

Lemma disk_write devs i d l s r devs' :
  get_device devs i = Some d → device_write devs i d l s = (r, devs') →
  (∀ k, k ≠ (i, l) → disk devs' k = disk devs k) ∧ (r = Ok tt → disk devs' (i, l) = Some s).
Proof.
  intros Hg. unfold device_write. destruct (write_sector d l s) as [r' d'] eqn:Hw. intros [= -> <-]. split.
  - intros [j l'] Hne. unfold disk. simpl. rewrite (get_device_set _ _ _ _ _ Hg).
    destruct (decide (j = i)) as [->|]; [|done]. rewrite Hg. simpl.
    rewrite (write_frame _ _ _ _ _ Hw); [done | congruence].
  - intros ->. unfold disk. simpl. rewrite (get_device_set _ _ _ _ _ Hg), decide_True by done. simpl.
    by rewrite (write_ok _ _ _ _ Hw).
Qed.

Lemma view_ext es devs devs' : (∀ k, disk devs' k = disk devs k) → ∀ k, view es devs' k = view es devs k.
Proof. intros Hd k. unfold view. by rewrite Hd. Qed.

Lemma coherent_ext es devs devs' :
  (∀ k, disk devs' k = disk devs k) → coherent es devs → coherent es devs'.
Proof. intros Hd Hc i e ? ? ?. rewrite Hd. by apply (Hc i e). Qed.

(** Putting a valid entry into a slot whose old contents are not lost. *)
Lemma place es devs i e0 e :
  unique es → coherent es devs → es !! i = Some e0 → valid e = true →
  (∀ j ej, j ≠ i → es !! j = Some ej → valid ej = true → key ej ≠ key e) →
  (valid e0 = false ∨ dirty e0 = false ∨ key e0 = key e) →
  (dirty e = false → disk devs (key e) = Some (data e)) →
  unique (<[i := e]> es) ∧ coherent (<[i := e]> es) devs ∧
  ∀ k, view (<[i := e]> es) devs k = if decide (k = key e) then Some (data e) else view es devs k.
Proof.
  intros Hu Hc Hi Hv Hk Hold Hclean. split_and!.
  - by eapply unique_insert.
  - intros j ej Hj Hvj Hdj. apply list_lookup_insert_Some in Hj as [(<- & <- & _)|[_ Hj]]; [auto|].
    by apply (Hc j ej).
  - intros k. unfold view. rewrite (cached_insert es i e0 e k) by done.
    destruct (decide (k = key e)); [done|].
    destruct (decide (valid e0 = true ∧ key e0 = k)) as [[Hv0 Hk0]|]; [|done].
    destruct (cached es k) as [s|] eqn:Hs; [|done].
    apply cached_Some in Hs as (j & ej & Hj & Hvj & Hkj & <-); [|done].
    assert (j = i) as -> by (eapply Hu; eauto; congruence).
    rewrite Hi in Hj. injection Hj as <-. subst k.
    apply (Hc i e0); [done..|]. destruct Hold as [?|[?|?]]; congruence.
Qed.

Lemma flush_victim_id c devs v e0 :
  entries c !! v = Some e0 → valid e0 = false ∨ dirty e0 = false → flush_victim c devs v = devs.
Proof.
  intros Hv Hor. unfold flush_victim. rewrite Hv.
  destruct (valid e0), (dirty e0); simpl; naive_solver.
Qed.

Lemma victim_replaceable c v :
  find_lru_victim c = Some v → ∃ e0, entries c !! v = Some e0 ∧ (valid e0 = false ∨ dirty e0 = false).
Proof.
  intros Hv. pose proof (find_lru_victim_spec c) as Hs. rewrite Hv in Hs.
  destruct Hs as (e & Hi & [?|[? _]]); eauto.
Qed.

(** No slot can be given up: every entry is valid and dirty (or its access
    counter has reached the sentinel [u64::MAX]). *)
Definition no_victim (c : BlockCache) : Prop :=
  Forall (λ e, valid e = true ∧ (dirty e = true ∨ u64_max ≤ access_counter e)) (entries c).

Lemma victim_none c : find_lru_victim c = None → no_victim c.
Proof. intros Hv. pose proof (find_lru_victim_spec c) as Hs. by rewrite Hv in Hs. Qed.

Lemma length_set_entry c i e : length (entries (set_entry c i e)) = length (entries c).
Proof. apply length_insert. Qed.

Lemma write_cached_spec c devs dev l s r c' devs' :
  cache_inv c devs → write_cached c devs dev l s = (r, c', devs') →
  cache_inv c' devs' ∧ devs' = devs ∧
  (r = Ok tt ∧ (∀ k, view (entries c') devs' k = if decide (k = (dev, l)) then Some s else view (entries c) devs k)
   ∨ r = Err tt ∧ c' = c ∧ cached (entries c) (dev, l) = None ∧ no_victim c).
Proof.
  intros (Hu & Hc & Hlen) Hw. unfold write_cached in Hw.
  destruct (cache_find c dev l) as [i|] eqn:Hf.
  - apply cache_find_Some in Hf as (e & Hi & Hv & Hk & _). simpl in Hw. rewrite Hi in Hw. simplify_eq.
    destruct (place (entries c) devs' i e (mkCacheEntry (device_idx e) (lba e) s true (valid e)
      (wrapping_add 64 (counter c) 1))) as (Hu' & Hc' & Hview); [done..|exact (other_keys _ _ _ Hu Hi Hv)|by auto|done|].
    change (key (mkCacheEntry _ _ _ _ _ _)) with (key e) in Hview. rewrite Hk in Hview.
    split; [|by eauto]. split_and!; [done..|]. by rewrite length_set_entry.
  - apply cache_find_None in Hf. destruct (find_lru_victim c) as [v|] eqn:Hvic.
    + destruct (victim_replaceable _ _ Hvic) as (e0 & Hi & Hor). simpl in Hw.
      rewrite (flush_victim_id _ _ _ e0) in Hw by done. simplify_eq.
      destruct (place (entries c) devs' v e0 (mkCacheEntry dev l s true true (wrapping_add 64 (counter c) 1)))
        as (Hu' & Hc' & Hview); [done..|by apply cached_absent_keys|naive_solver|done|].
      split; [|by eauto]. split_and!; [done..|]. by rewrite length_set_entry.
    + simplify_eq. split; [done|]. split; [done|]. right. auto using victim_none.
Qed.

Lemma cached_view es devs k s : cached es k = Some s → view es devs k = Some s.
Proof. unfold view. by intros ->. Qed.

(** Touching an entry changes neither keys nor data. *)
Lemma read_cached_hit c devs dev l i :
  cache_inv c devs → cache_find c dev l = Some i →
  ∃ s c', read_cached c devs dev l = (Some s, c', devs) ∧ cache_inv c' devs ∧
    (∀ k, view (entries c') devs k = view (entries c) devs k) ∧ view (entries c) devs (dev, l) = Some s.
Proof.
  intros (Hu & Hc & Hlen) Hf. unfold read_cached. rewrite Hf.
  apply cache_find_Some in Hf as (e & Hi & Hv & Hk & Hs). simpl. rewrite Hi.
  eexists _, _. split; [done|]. apply (cached_view _ devs) in Hs.
  destruct (place (entries c) devs i e (touch e (wrapping_add 64 (counter c) 1))) as (Hu' & Hc' & Hview);
    [done..|exact (other_keys _ _ _ Hu Hi Hv)|by auto|exact (Hc i e Hi Hv)|].
  split; [split_and!; [done..|by rewrite length_set_entry]|]. split; [|done].
  intros k. rewrite Hview. change (key (touch e _)) with (key e). rewrite Hk.
  destruct (decide (k = (dev, l))) as [->|]; done.
Qed.

(** Why a read may fail. *)
Definition read_refused (c : BlockCache) (devs : Registry) (dev : nat) (l : Z) : Prop :=
  cached (entries c) (dev, l) = None ∧
  (get_device devs dev = None ∨
   (∃ d e d', get_device devs dev = Some d ∧ read_sector d l = (Err e, d')) ∨ no_victim c).

Lemma read_cached_spec c devs dev l r c' devs' :
  cache_inv c devs → read_cached c devs dev l = (r, c', devs') →
  cache_inv c' devs' ∧ (∀ k, view (entries c') devs' k = view (entries c) devs k) ∧
  match r with
  | Some s => view (entries c) devs (dev, l) = Some s
  | None => read_refused c devs dev l
  end.
Proof.
  intros Hinv Hr. destruct (cache_find c dev l) as [i|] eqn:Hf.
  { destruct (read_cached_hit _ _ _ _ _ Hinv Hf) as (s & c1 & Hr1 & ? & ? & ?).
    rewrite Hr in Hr1. by simplify_eq. }
  pose proof Hinv as (Hu & Hc & Hlen). unfold read_cached in Hr. rewrite Hf in Hr.
  apply cache_find_None in Hf. unfold read_refused.
  destruct (get_device devs dev) as [d|] eqn:Hg; [|simplify_eq; auto].
  destruct (device_read devs dev d l) as [res devs1] eqn:Hd.
  pose proof (disk_read _ _ _ _ _ _ Hg Hd) as [Hsame Hok].
  assert (cache_inv c devs1) as Hinv1 by (split_and!; [done| |done]; by eapply coherent_ext).
  pose proof (view_ext (entries c) _ _ Hsame) as Hve.
  destruct res as [buf|[]].
  2: { unfold device_read in Hd. destruct (read_sector d l) eqn:Hrs. simplify_eq. split; [done|]. split; [done|]. eauto 8. }
  destruct (find_lru_victim c) as [v|] eqn:Hvic; [|simplify_eq; split; [done|]; split; [done|]; apply victim_none in Hvic; auto].
  destruct (victim_replaceable _ _ Hvic) as (e0 & Hi & Hor). simpl in Hr.
  rewrite (flush_victim_id _ _ _ e0) in Hr by done. simplify_eq.
  destruct Hinv1 as (_ & Hc1 & _). specialize (Hok _ eq_refl).
  destruct (place (entries c) devs' v e0 (mkCacheEntry dev l buf false true (wrapping_add 64 (counter c) 1)))
    as (Hu' & Hc' & Hview); [done..|by apply cached_absent_keys|tauto|by rewrite Hsame|].
  assert (view (entries c) devs (dev, l) = Some buf) as Hb by (unfold view; by rewrite Hf).
  split; [split_and!; [done..|by rewrite length_set_entry]|]. split; [|done].
  intros k. rewrite Hview. change (key (mkCacheEntry _ _ _ _ _ _)) with (dev, l).
  destruct (decide (k = (dev, l))) as [->|]; [done | apply Hve].
Qed.

(** ** Flushing *)

Definition pending (e : CacheEntry) : Prop := valid e = true ∧ dirty e = true.
#[local] Instance pending_dec e : Decision (pending e).
Proof. unfold pending. apply _. Defined.

Lemma flush_entry_spec e devs e' n devs' :
  flush_entry e devs = (e', n, devs') →
  (∀ k, k ≠ key e ∨ ¬ pending e → disk devs' k = disk devs k) ∧
  (e' = e ∧ n = (if decide (pending e) then 1 else 0) ∨
   e' = clean e ∧ n = 0 ∧ pending e ∧ disk devs' (key e) = Some (data e)).
Proof.
  unfold flush_entry. destruct (valid e && dirty e) eqn:Hp.
  - apply andb_true_iff in Hp. assert (pending e) by done. rewrite decide_True by done.
    destruct (get_device devs (device_idx e)) as [d|] eqn:Hg; [|intros [= <- <- <-]; auto].
    destruct (device_write _ _ _ _ _) as [[[]|[]] devs1] eqn:Hw; intros [= <- <- <-];
      destruct (disk_write _ _ _ _ _ _ _ Hg Hw) as [Hfr Hok].
    + split; [intros k [?|?]; [by apply Hfr | done] | right; auto].
    + split; [intros k [?|?]; [by apply Hfr | done] | left; auto].
  - apply andb_false_iff in Hp. assert (¬ pending e) as Hn by (intros [? ?]; destruct Hp; congruence).
    rewrite decide_False by done. intros [= <- <- <-]. auto.
Qed.

Lemma unique_tail e es : unique (e :: es) → unique es.
Proof. intros Hu i j ei ej Hi Hj ? ? ?. assert (S i = S j) by (eapply Hu; eauto). lia. Qed.

Lemma unique_head e es i e' :
  unique (e :: es) → es !! i = Some e' → valid e = true → valid e' = true → key e' ≠ key e.
Proof. intros Hu Hi ? ? Hk. assert (S i = O) by (eapply Hu; eauto; done). lia. Qed.

Lemma flush_loop_spec es devs es' n devs' :
  unique es → flush_loop es devs = (es', n, devs') →
  (∀ k, (∀ i e, es !! i = Some e → pending e → key e ≠ k) → disk devs' k = disk devs k) ∧
  Forall2 (λ e e', e' = e ∨ e' = clean e ∧ pending e ∧ disk devs' (key e) = Some (data e)) es es' ∧
  n = len (filter pending es').
Proof.
  revert devs es' n. induction es as [|e es IH]; intros devs es' n Hu Hf.
  { simpl in Hf. simplify_eq. split_and!; [done | constructor | done]. }
  cbn [flush_loop] in Hf. destruct (flush_entry e devs) as [[e1 n1] devs1] eqn:He.
  destruct (flush_loop es devs1) as [[es1 n2] devs2] eqn:Hl. simplify_eq.
  apply flush_entry_spec in He as [Hfr Hcase]. apply IH in Hl as (Hfr2 & Hall & ->); [|by eapply unique_tail].
  split_and!.
  - intros k Hk. rewrite Hfr2, Hfr; [done| |].
    + destruct (decide (key e = k)) as [<-|]; [right|left; congruence]. intros Hp. by apply (Hk O e).
    + intros i e' Hi Hp. by apply (Hk (S i) e').
  - constructor; [|done]. destruct Hcase as [[-> _]|(-> & _ & Hp & Hd)]; [by left|right].
    split_and!; [done..|]. rewrite Hfr2; [done|]. intros i e' Hi [Hv' _].
    eapply unique_head; [done..|apply Hp|done].
  - unfold len. destruct Hcase as [[-> ->]|(-> & -> & _ & _)]; rewrite filter_cons.
    + destruct (decide (pending e)); simpl; lia.
    + by rewrite decide_False by (by intros []).
Qed.

Lemma flush_keeps_slots (P : CacheEntry → Prop) es es' :
  Forall2 (λ e e', e' = e ∨ e' = clean e ∧ P e) es es' →
  ∀ i e', es' !! i = Some e' → ∃ e, es !! i = Some e ∧
    key e' = key e ∧ data e' = data e ∧ valid e' = valid e ∧ (e' = e ∨ e' = clean e ∧ P e).
Proof.
  intros Hall i e' Hi. destruct (Forall2_lookup_r _ _ _ _ _ Hall Hi) as (e & He & Hor).
  exists e. split; [done|]. destruct Hor as [->|[-> HP]]; auto 10.
Qed.

Lemma flush_cached P es es' k :
  Forall2 (λ e e', e' = e ∨ e' = clean e ∧ P e) es es' → unique es →
  unique es' ∧ cached es' k = cached es k.
Proof.
  intros Hall Hu. pose proof (flush_keeps_slots _ _ _ Hall) as Hback.
  assert (unique es') as Hu'.
  { intros i j ei ej Hi Hj Hvi Hvj Hk. destruct (Hback _ _ Hi) as (fi & Hfi & Hki & _ & Hv1 & _).
    destruct (Hback _ _ Hj) as (fj & Hfj & Hkj & _ & Hv2 & _). eapply Hu; eauto; congruence. }
  split; [done|]. apply option_eq. intros s. rewrite !cached_Some by done. split.
  - intros (i & e' & Hi & Hv & Hk & Hs). destruct (Hback _ _ Hi) as (e & He & Hk' & Hd' & Hv' & _).
    exists i, e. split_and!; congruence.
  - intros (i & e & Hi & Hv & Hk & Hs).
    destruct (Forall2_lookup_l _ _ _ _ _ Hall Hi) as (e' & He' & [->|[-> _]]); eauto 8.
Qed.

Lemma flush_all_spec c devs n c' devs' :
  cache_inv c devs → flush_all c devs = (n, c', devs') →
  cache_inv c' devs' ∧ (∀ k, view (entries c') devs' k = view (entries c) devs k) ∧
  n = len (filter pending (entries c')) ∧
  (∀ k, cached (entries c) k = None → disk devs' k = disk devs k).
Proof.
  intros (Hu & Hc & Hlen) Hf. unfold flush_all in Hf.
  destruct (flush_loop (entries c) devs) as [[es m] devs1] eqn:Hl. simplify_eq. simpl.
  apply flush_loop_spec in Hl as (Hfr & Hall & Hn); [|done].
  assert (∀ k, cached (entries c) k = None → disk devs' k = disk devs k) as Hout.
  { intros k Hk. apply Hfr. intros i e Hi [Hv _]. by eapply cached_None. }
  assert (∀ k, unique es ∧ cached es k = cached (entries c) k) as Hcs 
    by (intros k; exact (flush_cached (λ e, pending e ∧ disk devs' (key e) = Some (data e)) _ _ k Hall Hu)).
  split_and!; [|intros k|done|done].
  - split_and!; simpl; [apply (Hcs (O, 0))| |by rewrite <- (Forall2_length Hall)].
    intros i e' Hi Hv Hd. destruct (flush_keeps_slots _ _ _ Hall _ _ Hi) as (e & He & Hk & Hdt & Hve & Hor).
    rewrite Hk, Hdt. destruct Hor as [->|(_ & _ & Hdisk)]; [|done].
    rewrite Hfr; [by apply (Hc i e)|]. intros j ej Hj [Hvj Hdj] Hkj.
    assert (j = i) as -> by (eapply Hu; eauto; congruence). congruence.
  - unfold view. destruct (Hcs k) as [_ ->]. destruct (cached (entries c) k) eqn:E; [done|]. by apply Hout.
Qed.

(** ** Histories *)

Inductive cache_op : Type :=
| OpRead (dev : nat) (l : Z)
| OpWrite (dev : nat) (l : Z) (s : Sector)
| OpFlush.

Inductive cache_answer : Type :=
| DidRead (r : option Sector)
| DidWrite (r : result unit unit)
| DidFlush (failures : Z).

Definition cache_exec (op : cache_op) (c : BlockCache) devs : cache_answer * BlockCache * Registry :=
  match op with
  | OpRead dev l => let '(r, c, devs) := read_cached c devs dev l in (DidRead r, c, devs)
  | OpWrite dev l s => let '(r, c, devs) := write_cached c devs dev l s in (DidWrite r, c, devs)
  | OpFlush => let '(n, c, devs) := flush_all c devs in (DidFlush n, c, devs)
  end.

Fixpoint cache_run (ops : list cache_op) (c : BlockCache) devs : list cache_answer * BlockCache * Registry :=
  match ops with
  | [] => ([], c, devs)
  | op :: ops =>
      let '(a, c, devs) := cache_exec op c devs in
      let '(answers, c, devs) := cache_run ops c devs in (a :: answers, c, devs)
  end.

(** The specification: a disk without a cache, which only successful writes
    change. *)
Definition spec_disk : Type := nat * Z → option Sector.

Definition spec_apply (op : cache_op) (a : cache_answer) (m : spec_disk) : spec_disk :=
  match op, a with
  | OpWrite dev l s, DidWrite (Ok _) => λ k, if decide (k = (dev, l)) then Some s else m k
  | _, _ => m
  end.

(** An answer is right for the disk the operation runs on. *)
Definition spec_answer (op : cache_op) (a : cache_answer) (m : spec_disk) : Prop :=
  match op, a with
  | OpRead dev l, DidRead (Some s) => m (dev, l) = Some s
  | OpRead _ _, DidRead None => True
  | OpWrite _ _ _, DidWrite _ => True
  | OpFlush, DidFlush n => 0 ≤ n
  | _, _ => False
  end.

Fixpoint spec_run (ops : list cache_op) (answers : list cache_answer) (m : spec_disk) : option spec_disk :=
  match ops, answers with
  | [], [] => Some m
  | op :: ops, a :: answers => spec_run ops answers (spec_apply op a m)
  | _, _ => None
  end.

Fixpoint spec_answers (ops : list cache_op) (answers : list cache_answer) (m : spec_disk) : Prop :=
  match ops, answers with
  | [], [] => True
  | op :: ops, a :: answers => spec_answer op a m ∧ spec_answers ops answers (spec_apply op a m)
  | _, _ => False
  end.

Lemma cache_exec_refines op c devs a c' devs' m :
  cache_inv c devs → (∀ k, m k = view (entries c) devs k) → cache_exec op c devs = (a, c', devs') →
  cache_inv c' devs' ∧ spec_answer op a m ∧ ∀ k, spec_apply op a m k = view (entries c') devs' k.
Proof.
  intros Hinv Hm He. destruct op as [dev l|dev l s|]; simpl in He.
  - destruct (read_cached c devs dev l) as [[r c1] devs1] eqn:Hr. simplify_eq.
    apply read_cached_spec in Hr as (? & Hv & Hres); [|done]. split; [done|].
    split; [|intros k; simpl; by rewrite Hv]. destruct r; simpl; [by rewrite Hm | done].
  - destruct (write_cached c devs dev l s) as [[r c1] devs1] eqn:Hr. simplify_eq.
    apply write_cached_spec in Hr as (? & -> & Hres); [|done]. split; [done|]. split; [done|].
    intros k. destruct Hres as [[-> Hv]|(-> & -> & _)]; simpl; [|done].
    rewrite Hv. by destruct (decide _).
  - destruct (flush_all c devs) as [[n c1] devs1] eqn:Hr. simplify_eq.
    apply flush_all_spec in Hr as (? & Hv & -> & _); [|done]. split; [done|].
    split; [simpl; unfold len; lia | intros k; simpl; by rewrite Hv].
Qed.

Lemma cache_run_refines ops c devs answers c' devs' m :
  cache_inv c devs → (∀ k, m k = view (entries c) devs k) → cache_run ops c devs = (answers, c', devs') →
  cache_inv c' devs' ∧ spec_answers ops answers m ∧
  ∃ m', spec_run ops answers m = Some m' ∧ ∀ k, m' k = view (entries c') devs' k.
Proof.
  revert c devs answers m. induction ops as [|op ops IH]; intros c devs answers m Hinv Hm Hr; simpl in Hr.
  { simplify_eq. split; [done|]. split; [done|]. by exists m. }
  destruct (cache_exec op c devs) as [[a c1] devs1] eqn:He.
  destruct (cache_run ops c1 devs1) as [[as1 c2] devs2] eqn:Hr2. simplify_eq.
  destruct (cache_exec_refines _ _ _ _ _ _ _ Hinv Hm He) as (Hinv1 & Ha & Hm1).
  destruct (IH _ _ _ _ Hinv1 Hm1 Hr2) as (? & ? & m' & ? & ?). simpl. eauto 6.
Qed.

Lemma unique_empty n : unique (replicate n CacheEntry_empty).
Proof. intros i j ei ej Hi _ Hv. by apply lookup_replicate in Hi as [-> _]. Qed.

Lemma cache_inv_new devs : cache_inv BlockCache_new devs.
Proof.
  split_and!; [apply unique_empty| |done]. intros i e Hi Hv.
  by apply lookup_replicate in Hi as [-> _].
Qed.

Lemma view_new devs k : view (entries BlockCache_new) devs k = disk devs k.
Proof.
  unfold view. replace (cached _ _) with (@None Sector); [done|]. symmetry. apply cached_None.
  intros i e Hi Hv. by apply lookup_replicate in Hi as [-> _].
Qed.

(** C37: Seen through the cache, the devices behave as one disk without a
    cache.  Over every history of reads, writes and flushes that starts with
    an empty cache, whatever is evicted in between and whatever device
    operations fail, each read that answers returns the last successfully
    written contents of that sector, or the initial contents of the device,
    and each failed operation changes nothing. *)
Theorem block_cache_refines ops devs answers c' devs' :
  cache_run ops BlockCache_new devs = (answers, c', devs') →
  spec_answers ops answers (disk devs) ∧
  ∃ m', spec_run ops answers (disk devs) = Some m' ∧ ∀ k, m' k = view (entries c') devs' k.
Proof.
  intros Hr. eapply (cache_run_refines _ _ _ _ _ _ (disk devs)) in Hr as (_ & ? & ?); [done| |].
  - apply cache_inv_new.
  - intros k. symmetry. apply view_new.
Qed.

(** A flush reports exactly the number of sectors it could not write; when
    it reports none, every sector of every device holds its logical contents,
    so nothing is lost by dropping the cache; and it never changes the logical
    contents. *)
Theorem flush_persists c devs n c' devs' :
  cache_inv c devs → flush_all c devs = (n, c', devs') →
  (∀ k, view (entries c') devs' k = view (entries c) devs k) ∧
  n = len (filter pending (entries c')) ∧
  (n = 0 → ∀ k, disk devs' k = view (entries c) devs k).
Proof.
  intros Hinv Hf. apply flush_all_spec in Hf as ((Hu & Hc & _) & Hv & Hn & _); [|done].
  split_and!; [done..|]. intros Hz k. rewrite <- Hv. unfold view.
  destruct (cached (entries c') k) as [s|] eqn:Hk; [|done].
  apply cached_Some in Hk as (i & e & Hi & Hve & <- & <-); [|done]. apply (Hc i e); [done..|].
  destruct (dirty e) eqn:Hd; [|done]. exfalso.
  assert (e ∈ filter pending (entries c')) as Hin.
  { apply list_elem_of_filter. split; [done | by eapply list_elem_of_lookup_2]. }
  destruct (filter pending (entries c')); [set_solver | unfold len in Hn; simpl in Hn; lia].
Qed.

(** Once all 64 slots hold unwritten data, the cache refuses every sector
    it does not hold: a write fails, and a read fails although the device
    delivers the sector; the cache does not write any dirty sector back to
    make room, so only an explicit flush ends this. *)
Theorem dirty_cache_refuses c devs dev l s d buf d' :
  Forall pending (entries c) → cached (entries c) (dev, l) = None →
  get_device devs dev = Some d → read_sector d l = (Ok buf, d') →
  write_cached c devs dev l s = (Err tt, c, devs) ∧
  read_cached c devs dev l = (None, c, <[dev := Some d']> devs).
Proof.
  intros Hall Hk Hg Hr. apply cache_find_None in Hk.
  assert (find_lru_victim c = None) as Hv.
  { destruct (find_lru_victim c) as [v|] eqn:Hv; [|done].
    apply victim_replaceable in Hv as (e0 & Hi & Hor). rewrite Forall_lookup in Hall.
    destruct (Hall _ _ Hi). destruct Hor; congruence. }
  unfold write_cached, read_cached, device_read. rewrite Hk, Hv, Hg, Hr. done.
Qed.

End coherence.

(** ** A device that satisfies the laws, and witnesses *)

(** A disk in memory of [mem_size] sectors; accesses out of range fail. *)
Record MemDisk : Type := mkMemDisk { mem_size : Z; mem_sectors : gmap Z Sector }.

#[export] Instance MemDisk_device : BlockDevice MemDisk := {|
  read_sector d l :=
    (if (0 <=? l) && (l <? mem_size d) then Ok (default [] (mem_sectors d !! l)) else Err tt, d);
  write_sector d l s :=
    if (0 <=? l) && (l <? mem_size d) then (Ok tt, mkMemDisk (mem_size d) (<[l := s]> (mem_sectors d)))
    else (Err tt, d);
  sector_count d := mem_size d;
|}.

#[export] Instance MemDisk_laws : BlockDeviceLaws MemDisk.
Proof.
  refine {| sector_at d l := default [] (mem_sectors d !! l) |}; simpl.
  - intros d l s d'. by case_match; intros [= <- <-].
  - intros d l r d' [= _ <-]. done.
  - intros d l s d'. case_match; [|done]. intros [= <-]. simpl. by rewrite lookup_insert_eq.
  - intros d l s r d'. case_match; intros [= _ <-] l' Hl; [|done]. simpl. by rewrite lookup_insert_ne.
Defined.

Definition mem_registry : list (option MemDisk) := register_device empty_registry (mkMemDisk 100 ∅).

Lemma block_cache_refines_witness :
  spec_answers [OpWrite 0 7 [1; 2]; OpFlush; OpWrite 0 7 [3]; OpRead 0 7; OpRead 0 200]
    [DidWrite (Ok tt); DidFlush 0; DidWrite (Ok tt); DidRead (Some [3]); DidRead None] (disk mem_registry).
Proof.
  refine (proj1 (block_cache_refines _ mem_registry _ _ _ _)). vm_compute. reflexivity.
Defined.

Definition cache_ex : BlockCache * list (option MemDisk) :=
  let '(_, c, devs) := write_cached BlockCache_new mem_registry 0 7 [1; 2] in (c, devs).

Lemma cache_ex_inv : cache_inv cache_ex.1 cache_ex.2.
Proof.
  destruct (write_cached BlockCache_new mem_registry 0 7 [1; 2]) as [[r c] devs] eqn:Hw.
  unfold cache_ex. rewrite Hw. eapply write_cached_spec in Hw as [Hi _]; [done | apply cache_inv_new].
Qed.

Lemma flush_persists_witness :
  disk (snd (flush_all cache_ex.1 cache_ex.2)) (0%nat, 7) = view (entries cache_ex.1) cache_ex.2 (0%nat, 7) ∧
  view (entries cache_ex.1) cache_ex.2 (0%nat, 7) = Some [1; 2].
Proof.
  split; [|reflexivity].
  pose proof (flush_persists cache_ex.1 cache_ex.2 (fst (fst (flush_all cache_ex.1 cache_ex.2)))
    (snd (fst (flush_all cache_ex.1 cache_ex.2))) (snd (flush_all cache_ex.1 cache_ex.2)) cache_ex_inv) as H.
  destruct H as (_ & _ & Hd); [by destruct (flush_all _ _) as [[]]|]. apply Hd. reflexivity.
Defined.

Definition dirty_cache : BlockCache :=
  mkBlockCache ((λ i, mkCacheEntry 0 (Z.of_nat i) [] true true (Z.of_nat i)) <$> seq 0 CACHE_SIZE) 64.

Lemma dirty_cache_refuses_witness :
  fst (fst (read_cached dirty_cache mem_registry 0 70)) = None ∧
  fst (read_sector (mkMemDisk 100 ∅) 70) = Ok [].
Proof.
  split; [|reflexivity].
  pose proof (dirty_cache_refuses dirty_cache mem_registry 0 70 [] (mkMemDisk 100 ∅) [] (mkMemDisk 100 ∅)) as H.
  destruct H as [_ ->]; [|reflexivity..]. apply Forall_fmap, list.Forall_forall. done.
Defined.
