(* ===== verification/Vma.v ===== *)
(** * Virtual memory areas (kernel/src/memory/vma.rs) and the program break
    ([sys_brk] of kernel/src/syscall/mod.rs)

    A process's address space is described by a list of regions.  Addresses
    and sizes are [u64]; every addition that can overflow is an [outcome]. *)

From stdpp Require Import relations.
From S2P Require Import Prelude.

Definition PAGE_SIZE : Z := 4096.
Definition PAGE_SIZE_U64 : Z := PAGE_SIZE.
Definition USER_SPACE_MAX : Z := 0x0000800000000000.

Record VmaFlags : Type := mkVmaFlags { read : bool; write : bool; execute : bool }.

Definition VmaFlags_RDONLY : VmaFlags := mkVmaFlags true false false.
Definition VmaFlags_RW : VmaFlags := mkVmaFlags true true false.
Definition VmaFlags_RX : VmaFlags := mkVmaFlags true false true.

Inductive VmaType : Type := Code | Data | Stack | Heap | Mmap | FileMmap.
#[export] Instance VmaType_eq_dec : EqDecision VmaType.
Proof. solve_decision. Defined.

(** [MmapFlags] wraps a [u64]. *)
Definition MmapFlags : Type := Z.
Definition MmapFlags_ANONYMOUS : MmapFlags := 0x10.
Definition MmapFlags_FIXED : MmapFlags := 0x100.
Definition MmapFlags_POPULATE : MmapFlags := 0x200.
Definition MmapFlags_PRIVATE : MmapFlags := 0x02.
Definition MmapFlags_SHARED : MmapFlags := 0x01.
Definition MmapFlags_from_raw (raw : Z) : MmapFlags := raw.
Definition MmapFlags_raw (self : MmapFlags) : Z := self.
Definition MmapFlags_contains (self flag : MmapFlags) : bool := negb (Z.land self flag =? 0).

Section vma.
(** The filesystem object behind a file mapping is not inspected here. *)
Context {FS : Type} `{BuildProfile}.

Record FileBacking : Type := mkFileBacking {
  fs : FS;
  ino : Z;
  file_offset : Z;
  file_size : Z;
  mmap_flags : MmapFlags;
  dirty_pages : list Z;
}.

Record VmaRegion : Type := mkVmaRegion {
  start : Z;
  size : Z;
  flags : VmaFlags;
  kind : VmaType;
  backing : option FileBacking;
}.

Definition VmaRegion_new_anon (s sz : Z) (f : VmaFlags) : VmaRegion := mkVmaRegion s sz f Mmap None.

(** [(n + d - 1) / d] as the source writes it. *)
Definition round_up_div (n d : Z) : outcome Z :=
  a ← add64 n d; b ← sub64 a 1; Ret (b `div` d).

Definition VmaRegion_new_file (s sz : Z) (f : VmaFlags) (fs0 : FS) (ino0 off fsize : Z) (mf : MmapFlags)
    : outcome VmaRegion :=
  num_pages ← round_up_div sz PAGE_SIZE_U64;
  a ← add64 num_pages 63;
  let bitmap_len := a `div` 64 in
  Ret (mkVmaRegion s sz f FileMmap
         (Some (mkFileBacking fs0 ino0 off fsize mf (replicate (Z.to_nat bitmap_len) 0)))).

Definition set_dirty_pages (b : FileBacking) (d : list Z) : FileBacking :=
  mkFileBacking (fs b) (ino b) (file_offset b) (file_size b) (mmap_flags b) d.

Definition VmaRegion_mark_dirty (self : VmaRegion) (page_offset : Z) : outcome VmaRegion :=
  match backing self with
  | None => Ret self
  | Some b =>
      let page_idx := page_offset `div` PAGE_SIZE_U64 in
      let word := page_idx `div` 64 in
      let bit := page_idx mod 64 in
      if word <? len (dirty_pages b) then
        w ← index (dirty_pages b) word;
        Ret (mkVmaRegion (start self) (size self) (flags self) (kind self)
               (Some (set_dirty_pages b (<[Z.to_nat word := Z.lor w (Z.shiftl 1 bit)]> (dirty_pages b)))))
      else Ret self
  end.

Definition VmaRegion_is_dirty (self : VmaRegion) (page_offset : Z) : outcome bool :=
  match backing self with
  | None => Ret false
  | Some b =>
      let page_idx := page_offset `div` PAGE_SIZE_U64 in
      let word := page_idx `div` 64 in
      let bit := page_idx mod 64 in
      if word <? len (dirty_pages b) then
        w ← index (dirty_pages b) word;
        Ret (negb (Z.land w (Z.shiftl 1 bit) =? 0))
      else Ret false
  end.

Definition VmaRegion_file_offset_for_page (self : VmaRegion) (virt : Z) : outcome (option Z) :=
  match backing self with
  | None => Ret None
  | Some b =>
      page_offset ← sub64 virt (start self);
      o ← add64 (file_offset b) page_offset; Ret (Some o)
  end.

Definition VmaRegion_end (self : VmaRegion) : outcome Z := add64 (start self) (size self).

Definition VmaRegion_num_pages (self : VmaRegion) : outcome Z := round_up_div (size self) PAGE_SIZE_U64.

Definition VmaRegion_contains (self : VmaRegion) (addr : Z) : outcome bool :=
  if addr >=? start self then e ← VmaRegion_end self; Ret (addr <? e) else Ret false.

Definition VmaRegion_contains_range (self : VmaRegion) (addr l : Z) : outcome bool :=
  if addr >=? start self then e ← VmaRegion_end self; Ret (saturating_add 64 addr l <=? e) else Ret false.

(** [VmaList] is its vector of regions. *)
Abbreviation VmaList := (list VmaRegion).

Definition VmaList_new : VmaList := [].

(** The overlap test of [add], in its order of evaluation. *)
Definition overlaps (region existing : VmaRegion) : outcome bool :=
  e ← VmaRegion_end existing;
  if start region <? e then r ← VmaRegion_end region; Ret (start existing <? r) else Ret false.

Fixpoint overlaps_any (region : VmaRegion) (regions : VmaList) : outcome bool :=
  match regions with
  | [] => Ret false
  | existing :: rest =>
      o ← overlaps region existing;
      if o : bool then Ret true else overlaps_any region rest
  end.

Definition VmaList_add (self : VmaList) (region : VmaRegion) : outcome (result unit unit * VmaList) :=
  o ← overlaps_any region self;
  if o : bool then Ret (Err tt, self) else Ret (Ok tt, self ++ [region]).

Definition VmaList_remove (self : VmaList) (addr : Z) : bool * VmaList :=
  match list_find (λ r, start r = addr) self with
  | Some (pos, _) => (true, delete pos self)
  | None => (false, self)
  end.

Fixpoint VmaList_find (self : VmaList) (addr : Z) : outcome (option VmaRegion) :=
  match self with
  | [] => Ret None
  | r :: rest =>
      c ← VmaRegion_contains r addr;
      if c : bool then Ret (Some r) else VmaList_find rest addr
  end.

Definition VmaList_is_writable (self : VmaList) (addr : Z) : outcome bool :=
  r ← VmaList_find self addr; Ret (match r with Some r => write (flags r) | None => false end).

Definition VmaList_is_executable (self : VmaList) (addr : Z) : outcome bool :=
  r ← VmaList_find self addr; Ret (match r with Some r => execute (flags r) | None => false end).

(** The loop of [validate_access]; [None] means that [fuel] pages were not
    enough. *)
Fixpoint validate_loop (fuel : nat) (self : VmaList) (cur e : Z) (w x : bool) : outcome (option bool) :=
  match fuel with
  | O => Ret None
  | S fuel =>
      if cur <? e then
        r ← VmaList_find self cur;
        match r with
        | None => Ret (Some false)
        | Some region =>
            if w && negb (write (flags region)) then Ret (Some false)
            else if x && negb (execute (flags region)) then Ret (Some false)
            else cur' ← add64 cur PAGE_SIZE; validate_loop fuel self cur' e w x
        end
      else Ret (Some true)
  end.

Definition VmaList_validate_access (fuel : nat) (self : VmaList) (addr l : Z) (w x : bool)
    : outcome (option bool) :=
  if l =? 0 then Ret (Some true)
  else
    let cur := Z.land addr (unot 64 (PAGE_SIZE - 1)) in
    e ← add64 addr l;
    validate_loop fuel self cur e w x.

Definition set_size (r : VmaRegion) (sz : Z) : VmaRegion :=
  mkVmaRegion (start r) sz (flags r) (kind r) (backing r).

(** [(n + PAGE_SIZE - 1) & !(PAGE_SIZE - 1)]. *)
Definition page_align_up (n : Z) : outcome Z :=
  a ← add64 n PAGE_SIZE; b ← sub64 a 1; Ret (Z.land b (unot 64 (PAGE_SIZE - 1))).

Fixpoint VmaList_extend_heap (self : VmaList) (new_end : Z) : outcome (option Z * VmaList) :=
  match self with
  | [] => Ret (None, [])
  | region :: rest =>
      if bool_decide (kind region = Heap) then
        old_end ← VmaRegion_end region;
        aligned ← page_align_up new_end;
        if aligned >? old_end then
          sz ← sub64 aligned (start region); Ret (Some old_end, set_size region sz :: rest)
        else if aligned <? start region then Ret (None, region :: rest)
        else sz ← sub64 aligned (start region); Ret (Some old_end, set_size region sz :: rest)
      else
        '(r, rest') ← VmaList_extend_heap rest new_end; Ret (r, region :: rest')
  end.

(** The fields of the current task [sys_brk] works on. *)
Record TaskMemory : Type := mkTaskMemory { brk : Z; vma_list : VmaList }.

Definition INVALID_ARGUMENT : Z := -1.

Definition sys_brk (task : TaskMemory) (new_brk : Z) : outcome (Z * TaskMemory) :=
  let current_brk := brk task in
  if new_brk =? 0 then Ret (current_brk, task)
  else if new_brk >=? USER_SPACE_MAX then Ret (INVALID_ARGUMENT, task)
  else
    aligned_new ← page_align_up new_brk;
    _ ← (if current_brk =? 0 then Ret aligned_new else page_align_up current_brk);
    found ← VmaList_find (vma_list task) current_brk;
    match found with
    | Some _ =>
        '(_, vl) ← VmaList_extend_heap (vma_list task) aligned_new;
        Ret (aligned_new, mkTaskMemory aligned_new vl)
    | None =>
        if current_brk =? 0 then
          '(_, vl) ← VmaList_add (vma_list task) (mkVmaRegion aligned_new PAGE_SIZE VmaFlags_RW Heap None);
          b ← add64 aligned_new PAGE_SIZE;
          Ret (aligned_new, mkTaskMemory b vl)
        else Ret (aligned_new, mkTaskMemory aligned_new (vma_list task))
    end.

End vma.
Arguments VmaRegion : clear implicits.
Arguments FileBacking : clear implicits.
Arguments TaskMemory : clear implicits.

(** ** Regions and layouts *)

Section layout.
Context {FS : Type} `{BuildProfile}.
Implicit Types (r : VmaRegion FS) (l : list (VmaRegion FS)).

Definition region_end r : Z := start r + size r.
Definition inside r (addr : Z) : Prop := start r ≤ addr < region_end r.
Definition region_wf r : Prop := 0 ≤ start r ∧ 0 ≤ size r ∧ region_end r < 2 ^ 64.
Definition disjoint_regions (r1 r2 : VmaRegion FS) : Prop :=
  region_end r1 ≤ start r2 ∨ region_end r2 ≤ start r1.

(** The invariant of an address space. *)
Definition vma_inv l : Prop :=
  Forall region_wf l ∧
  ∀ i j r1 r2, l !! i = Some r1 → l !! j = Some r2 → i ≠ j → disjoint_regions r1 r2.

#[local] Instance inside_dec r addr : Decision (inside r addr).
Proof. unfold inside. apply _. Defined.

Lemma VmaRegion_end_ok r : region_wf r → VmaRegion_end r = Ret (region_end r).
Proof. intros (? & ? & ?). apply add64_ok. unfold is_uint, region_end in *. lia. Qed.

Lemma contains_ok r addr : region_wf r → VmaRegion_contains r addr = Ret (bool_decide (inside r addr)).
Proof.
  intros Hw. unfold VmaRegion_contains, inside. rewrite VmaRegion_end_ok by done.
  destruct (Z.geb_spec addr (start r)); cbn [mbind outcome_bind];
    [destruct (Z.ltb_spec addr (region_end r))|]; f_equal; symmetry;
    first [rewrite bool_decide_true by lia | rewrite bool_decide_false by lia]; done.
Qed.

Lemma overlaps_ok r1 r2 :
  region_wf r1 → region_wf r2 →
  ∃ b : bool, overlaps r1 r2 = Ret b ∧ (b = false ↔ disjoint_regions r1 r2).
Proof.
  intros H1 H2. unfold overlaps, disjoint_regions. rewrite !VmaRegion_end_ok by done.
  cbn [mbind outcome_bind]. destruct (Z.ltb_spec (start r1) (region_end r2)).
  - eexists. split; [done|]. rewrite Z.ltb_ge. lia.
  - exists false. split; [done|]. split; [lia | done].
Qed.

Lemma overlaps_any_ok r l :
  region_wf r → Forall region_wf l →
  ∃ b : bool, overlaps_any r l = Ret b ∧ (b = false ↔ Forall (disjoint_regions r) l).
Proof.
  intros Hr Hl. induction Hl as [|r' l Hr' Hl IH]; simpl.
  { exists false. split; [done|]. split; [constructor | done]. }
  destruct (overlaps_ok r r' Hr Hr') as (b & -> & Hb). cbn [mbind outcome_bind]. destruct b.
  - exists true. split; [done|]. split; [done|]. intros [?%Hb ?]%list.Forall_cons. done.
  - destruct IH as (b & -> & Hb'). exists b. split; [done|]. rewrite list.Forall_cons. tauto.
Qed.

Lemma find_ok l addr :
  Forall region_wf l → VmaList_find l addr = Ret (snd <$> list_find (λ r, inside r addr) l).
Proof.
  induction 1 as [|r l Hr Hl IH]; simpl; [done|]. rewrite contains_ok by done. cbn [mbind outcome_bind].
  case_bool_decide as Hin; [by rewrite decide_True|].
  rewrite decide_False by done. rewrite IH. by destruct (list_find _ l) as [[]|].
Qed.

(** In a valid layout [find] decides membership: at most one region holds an
    address, and it is the one returned. *)
Lemma find_unique l addr :
  vma_inv l →
  ∃ o, VmaList_find l addr = Ret o ∧
  match o with
  | Some r => r ∈ l ∧ inside r addr ∧ ∀ r', r' ∈ l → inside r' addr → r' = r
  | None => ∀ r, r ∈ l → ¬ inside r addr
  end.
Proof.
  intros [Hw Hd]. rewrite find_ok by done. eexists. split; [done|].
  destruct (list_find _ l) as [[i r]|] eqn:Hf; simpl.
  - apply list_find_Some in Hf as (Hi & Hin & _). split_and!; [by eapply list_elem_of_lookup_2|done|].
    intros r' [j Hj]%list_elem_of_lookup_1 Hin'.
    destruct (decide (i = j)) as [->|Hne]; [congruence|].
    unfold inside in *. destruct (Hd i j r r' Hi Hj Hne); lia.
  - apply list_find_None in Hf. by rewrite list.Forall_forall in Hf.
Qed.

Lemma vma_inv_add l r l' res :
  vma_inv l → region_wf r → VmaList_add l r = Ret (res, l') →
  vma_inv l' ∧ (res = Ok tt ∧ l' = l ++ [r] ∧ Forall (disjoint_regions r) l ∨
                res = Err tt ∧ l' = l ∧ ¬ Forall (disjoint_regions r) l).
Proof.
  intros [Hw Hd] Hr. unfold VmaList_add. destruct (overlaps_any_ok r l Hr Hw) as (b & -> & Hb).
  cbn [mbind outcome_bind]. destruct b; intros [= <- <-].
  { split; [done|]. right. split_and!; [done..|]. rewrite <- Hb. done. }
  assert (Forall (disjoint_regions r) l) as Hdis by by apply Hb.
  split; [|by auto]. split; [by apply Forall_app_2, Forall_singleton|].
  rewrite Forall_lookup in Hdis.
  assert (∀ i r0, (l ++ [r]) !! i = Some r0 → l !! i = Some r0 ∨ i = length l ∧ r0 = r) as Hsn.
  { intros i r0 Hi. apply lookup_app_Some in Hi as [?|[? Hi]]; [by left|right].
    apply list_lookup_singleton_Some in Hi as [? <-]. split; [lia | done]. }
  intros i j r1 r2 [Hi|[-> ->]]%Hsn [Hj|[-> ->]]%Hsn Hne; [by eapply Hd| | |done].
  - destruct (Hdis _ _ Hi); [by right|by left].
  - by apply (Hdis j).
Qed.

Lemma vma_inv_sub l l' : sublist l' l → vma_inv l → vma_inv l'.
Proof.
  intros Hs [Hw Hd]. split.
  { rewrite list.Forall_forall in *. intros r Hr. apply Hw.
    eapply elem_of_submseteq; [done | by apply sublist_submseteq]. }
  revert Hd. clear Hw. induction Hs as [|r l' l Hs IH|r l' l Hs IH]; intros Hd.
  - done.
  - assert (∀ i j r1 r2, l !! i = Some r1 → l !! j = Some r2 → i ≠ j → disjoint_regions r1 r2) as Hd'
      by (intros i j r1 r2 ? ? ?; apply (Hd (S i) (S j)); auto).
    specialize (IH Hd').
    assert (∀ j r2, l' !! j = Some r2 → ∃ k, l !! k = Some r2) as Hmem.
    { intros j r2 Hj. apply list_elem_of_lookup_1. eapply elem_of_submseteq; [|by apply sublist_submseteq].
      by eapply list_elem_of_lookup_2. }
    intros [|i] [|j] r1 r2 Hi Hj Hne; simpl in *; [done| | |by eapply (IH i j); auto].
    + destruct (Hmem _ _ Hj) as [k Hk]. by apply (Hd O (S k)).
    + destruct (Hmem _ _ Hi) as [k Hk]. by apply (Hd (S k) O).
  - apply IH. intros i j r1 r2 ? ? ?. apply (Hd (S i) (S j)); auto.
Qed.

Lemma vma_inv_remove l addr : vma_inv l → vma_inv (VmaList_remove l addr).2.
Proof.
  unfold VmaList_remove. destruct (list_find _ l) as [[pos r]|]; [|done]. simpl.
  apply vma_inv_sub, sublist_delete.
Qed.

(** The layouts a process can reach by [mmap], [munmap] and the like. *)
Inductive vma_step l : list (VmaRegion FS) → Prop :=
| vma_step_add r res l' : region_wf r → VmaList_add l r = Ret (res, l') → vma_step l l'
| vma_step_remove addr : vma_step l (VmaList_remove l addr).2.

Lemma vma_reachable_inv l0 l : rtc vma_step l0 l → vma_inv l0 → vma_inv l.
Proof.
  induction 1 as [|l0 l1 l2 Hs _ IH]; [done|]. intros Hi. apply IH.
  destruct Hs as [r res l' Hw Ha|addr]; [by apply (vma_inv_add l0 r l' res) in Ha as [] | by apply vma_inv_remove].
Qed.

Lemma vma_inv_nil : vma_inv [].
Proof. split; [constructor | done]. Qed.

(** However regions are added and removed, the regions of a process never
    overlap; a lookup therefore returns the one region that contains the
    address, and nothing exactly when no region does; and adding a region is
    refused exactly when it would overlap one. *)
Theorem vma_layout l :
  rtc vma_step [] l →
  (∀ i j r1 r2, l !! i = Some r1 → l !! j = Some r2 → i ≠ j → disjoint_regions r1 r2) ∧
  (∀ addr, ∃ o, VmaList_find l addr = Ret o ∧
     match o with
     | Some r => r ∈ l ∧ inside r addr ∧ ∀ r', r' ∈ l → inside r' addr → r' = r
     | None => ∀ r, r ∈ l → ¬ inside r addr
     end) ∧
  (∀ r, region_wf r → ∃ res l', VmaList_add l r = Ret (res, l') ∧
     (res = Ok tt ↔ Forall (disjoint_regions r) l)).
Proof.
  intros Hinv%vma_reachable_inv; [|apply vma_inv_nil]. split_and!; [apply Hinv|..].
  - intros. by apply find_unique.
  - intros r Hr. destruct Hinv as [Hw Hd]. unfold VmaList_add.
    destruct (overlaps_any_ok r l Hr Hw) as (b & -> & Hb). cbn [mbind outcome_bind].
    destruct b; eexists _, _; (split; [done|]); [split; [done|intros ?%Hb; done]|tauto].
Qed.

(** ** Access validation *)

Definition page_aligned (x : Z) : Prop := x mod PAGE_SIZE = 0.
Definition region_aligned r : Prop := page_aligned (start r) ∧ page_aligned (size r).

(** The access the caller asks for is allowed at this byte. *)
Definition allowed l (w x : bool) (addr : Z) : Prop :=
  ∃ r, r ∈ l ∧ inside r addr ∧ (w = true → write (flags r) = true) ∧ (x = true → execute (flags r) = true).

Lemma inside_page r base a :
  region_aligned r → page_aligned base → base ≤ a < base + PAGE_SIZE → inside r a ↔ inside r base.
Proof.
  unfold region_aligned, page_aligned, inside, region_end, PAGE_SIZE. intros [Hs Hz] Hb Ha.
  pose proof (Z.div_mod (start r) 4096). pose proof (Z.div_mod (size r) 4096).
  pose proof (Z.div_mod base 4096). lia.
Qed.

Lemma allowed_page l w x base a :
  Forall region_aligned l → page_aligned base → base ≤ a < base + PAGE_SIZE →
  allowed l w x a ↔ allowed l w x base.
Proof.
  intros Hal Hb Ha. rewrite list.Forall_forall in Hal. unfold allowed.
  split; intros (r & Hr & Hin & Hp); exists r; (split; [done|]); (split; [|done]);
    by apply (inside_page r base a (Hal r Hr) Hb Ha).
Qed.

Lemma page_aligned_next base : page_aligned base → page_aligned (base + PAGE_SIZE).
Proof. unfold page_aligned, PAGE_SIZE. intros. by rewrite <- Z.add_mod_idemp_l, H0. Qed.

(** The checks of one loop iteration decide whether the page is allowed. *)
Lemma find_allowed l w x cur o :
  vma_inv l → VmaList_find l cur = Ret o →
  allowed l w x cur ↔
  match o with
  | Some r => w && negb (write (flags r)) = false ∧ x && negb (execute (flags r)) = false
  | None => False
  end.
Proof.
  intros Hinv Hf. destruct (find_unique l cur Hinv) as (o' & Hf' & Ho). rewrite Hf in Hf'. simplify_eq.
  destruct o' as [r|]; unfold allowed.
  - destruct Ho as (Hr & Hin & Huniq). split.
    + intros (r' & Hr' & Hin' & Hw & Hx). rewrite (Huniq r' Hr' Hin') in Hw, Hx.
      destruct w, x, (write (flags r)), (execute (flags r)); naive_solver.
    + intros [Hw Hx]. exists r. destruct w, x, (write (flags r)), (execute (flags r)); naive_solver.
  - split; [|done]. intros (r & Hr & Hin & _). by apply (Ho r).
Qed.

Lemma validate_loop_ok fuel l cur e w x :
  vma_inv l → Forall region_aligned l → 0 ≤ cur → page_aligned cur → e < 2 ^ 64 →
  e ≤ cur + (Z.of_nat fuel - 1) * PAGE_SIZE → (0 < fuel)%nat →
  ∃ b, validate_loop fuel l cur e w x = Ret (Some b) ∧
    (b = true ↔ ∀ a, cur ≤ a < e → allowed l w x a).
Proof.
  intros Hinv Hal. revert cur. induction fuel as [|fuel IH]; intros cur Hc Hpa He Hfuel Hpos; [lia|].
  cbn [validate_loop]. destruct (Z.ltb_spec cur e) as [Hlt|]; [|exists true; split; [done|]; split; [lia|done]].
  destruct (find_unique l cur Hinv) as (o & Hf & Ho). pose proof (find_allowed l w x cur o Hinv Hf) as Hall.
  rewrite Hf. cbn [mbind outcome_bind].
  assert (¬ allowed l w x cur → ∃ b, Ret (Some false) = Ret (Some b) ∧
            (b = true ↔ ∀ a, cur ≤ a < e → allowed l w x a)) as Hno.
  { intros Hn. exists false. split; [done|]. split; [done|]. intros Ha. destruct Hn. apply Ha. lia. }
  destruct o as [r|]; [|apply Hno; tauto].
  destruct (w && _) eqn:Hw; [apply Hno; naive_solver|].
  destruct (x && _) eqn:Hx; [apply Hno; naive_solver|].
  destruct Ho as (Hr & Hin & _). destruct Hinv as [Hwf _]. rewrite list.Forall_forall in Hwf, Hal.
  assert (inside r (cur + PAGE_SIZE - 1)) as Hlast
    by (apply (inside_page r cur); [by apply Hal | done | unfold PAGE_SIZE; lia | done]).
  rewrite add64_ok by (destruct (Hwf r Hr) as (?&?&?); unfold inside, is_uint, PAGE_SIZE in *; lia).
  cbn [mbind outcome_bind]. destruct (IH (cur + PAGE_SIZE)) as (b & -> & Hb);
    [unfold PAGE_SIZE; lia | by apply page_aligned_next | done | unfold PAGE_SIZE in *; lia | unfold PAGE_SIZE in *; lia |].
  exists b. split; [done|]. rewrite Hb. rewrite <- list.Forall_forall in Hal. split; intros Hrest a Ha.
  - destruct (decide (cur + PAGE_SIZE ≤ a)); [apply Hrest; lia|].
    apply (allowed_page l w x cur a); [done..|lia|tauto].
  - apply Hrest. unfold PAGE_SIZE in *. lia.
Qed.

(** For page-aligned regions that do not overlap, [validate_access]
    answers whether every byte of the range lies in a region that grants the
    access, for every range that does not run past the end of the address
    space; the page loop ends within [len / 4096 + 3] iterations. *)
Theorem validate_access_correct l addr n w x fuel :
  vma_inv l → Forall region_aligned l → is_uint 64 addr → 0 ≤ n → addr + n < 2 ^ 64 →
  n `div` PAGE_SIZE + 3 ≤ Z.of_nat fuel →
  ∃ b, VmaList_validate_access fuel l addr n w x = Ret (Some b) ∧
    (b = true ↔ ∀ a, addr ≤ a < addr + n → allowed l w x a).
Proof.
  intros Hinv Hal Hu Hn Hov Hfuel. unfold VmaList_validate_access.
  destruct (Z.eqb_spec n 0) as [->|]; [exists true; split; [done|]; split; [lia|done]|].
  rewrite add64_ok by (unfold is_uint in *; lia). cbn [mbind outcome_bind].
  change (PAGE_SIZE - 1) with (2 ^ 12 - 1). rewrite land_align_down by (done || lia).
  change (2 ^ 12) with PAGE_SIZE. set (base := addr - addr mod PAGE_SIZE).
  pose proof (Z.mod_pos_bound addr PAGE_SIZE eq_refl) as Hmod.
  pose proof (Z.div_mod n PAGE_SIZE ltac:(done)) as Hdiv. pose proof (Z.mod_pos_bound n PAGE_SIZE eq_refl).
  assert (page_aligned base) as Hb.
  { unfold page_aligned, base. rewrite (Z.mod_eq addr) by done.
    replace (addr - (addr - PAGE_SIZE * (addr `div` PAGE_SIZE))) with (addr `div` PAGE_SIZE * PAGE_SIZE) by lia. by apply Z.mod_mul. }
  assert (0 ≤ base) by (unfold base; pose proof (Z.mod_le addr PAGE_SIZE); unfold is_uint, PAGE_SIZE in *; lia).
  destruct (validate_loop_ok fuel l base (addr + n) w x) as (b & -> & Hbb);
    [done..|unfold base, PAGE_SIZE in *; lia|unfold PAGE_SIZE in *; lia|].
  exists b. split; [done|]. rewrite Hbb. split; intros Hr a Ha; [apply Hr; lia|].
  destruct (decide (addr ≤ a)); [apply Hr; lia|].
  apply (allowed_page l w x base a); [done..|lia|].
  apply (allowed_page l w x base addr); [done..|lia|]. apply Hr. lia.
Qed.

End layout.

(** A range whose end wraps past the top of the 64-bit address space makes
    the release build accept any access, even in an empty address space, and
    panics the development build. *)
Theorem validate_access_wraps {FS} (l : list (VmaRegion FS)) addr n w x fuel :
  is_uint 64 addr → is_uint 64 n → 2 ^ 64 ≤ addr + n →
  addr + n - 2 ^ 64 ≤ addr - addr mod PAGE_SIZE →
  VmaList_validate_access (H := release_profile) (S fuel) l addr n w x = Ret (Some true) ∧
  VmaList_validate_access (H := dev_profile) (S fuel) l addr n w x = Panic.
Proof.
  intros Ha Hn Hov Hwrap. unfold VmaList_validate_access.
  destruct (Z.eqb_spec n 0) as [->|]; [unfold is_uint in *; lia|].
  unfold add64, arith. rewrite (proj2 (Z.ltb_ge (addr + n) (2 ^ 64))) by lia.
  rewrite andb_false_r. split; [|done]. cbn [mbind outcome_bind overflow_checks release_profile].
  unfold wrap. replace ((addr + n) mod 2 ^ 64) with (addr + n - 2 ^ 64)
    by (apply (Z.mod_unique _ _ 1); unfold is_uint in *; lia).
  change (PAGE_SIZE - 1) with (2 ^ 12 - 1). rewrite land_align_down by (done || lia).
  change (2 ^ 12) with PAGE_SIZE. cbn [validate_loop].
  by rewrite (proj2 (Z.ltb_ge _ _) Hwrap).
Qed.

(** ** The program break *)

Definition align_up (n : Z) : Z := (n + PAGE_SIZE - 1) `div` PAGE_SIZE * PAGE_SIZE.

Section brk.
Context {FS : Type} `{BuildProfile}.

Lemma page_align_up_ok n : 0 ≤ n → n + PAGE_SIZE < 2 ^ 64 → page_align_up n = Ret (align_up n).
Proof.
  intros Hn Hlt. unfold page_align_up, align_up.
  rewrite add64_ok by (unfold is_uint, PAGE_SIZE in *; lia). cbn [mbind outcome_bind].
  rewrite sub64_ok by (unfold is_uint, PAGE_SIZE in *; lia). cbn [mbind outcome_bind].
  change (PAGE_SIZE - 1) with (2 ^ 12 - 1).
  rewrite land_align_down by (unfold is_uint, PAGE_SIZE in *; lia).
  change (2 ^ 12) with PAGE_SIZE. f_equal.
  pose proof (Z.div_mod (n + PAGE_SIZE - 1) PAGE_SIZE). unfold PAGE_SIZE in *. lia.
Qed.

Lemma align_up_bounds n : n ≤ align_up n < n + PAGE_SIZE.
Proof.
  unfold align_up, PAGE_SIZE. pose proof (Z.div_mod (n + 4096 - 1) 4096).
  pose proof (Z.mod_pos_bound (n + 4096 - 1) 4096). lia.
Qed.

Definition heap_page (s : Z) : VmaRegion FS := mkVmaRegion s PAGE_SIZE VmaFlags_RW Heap None.

Lemma find_none (l : list (VmaRegion FS)) addr :
  vma_inv l → (∀ r, r ∈ l → ¬ inside r addr) → VmaList_find l addr = Ret None.
Proof.
  intros Hinv Hn. destruct (find_unique l addr Hinv) as ([r|] & Hf & Ho); [|done].
  destruct Ho as (Hr & Hin & _). by destruct (Hn r Hr).
Qed.

(** The first [brk] of a process creates a heap region of one page and sets
    the break to its end.  Because the break is the first address after the
    heap, the next [brk] does not find the heap region there: it moves the
    break and reports success, but the heap region stays one page however far
    the break is raised. *)
Theorem brk_never_grows_heap (l : list (VmaRegion FS)) n1 n2 :
  vma_inv l → 0 < n1 < USER_SPACE_MAX → 0 < n2 < USER_SPACE_MAX →
  Forall (disjoint_regions (heap_page (align_up n1))) l →
  (∀ r, r ∈ l → ¬ inside r 0 ∧ ¬ inside r (align_up n1 + PAGE_SIZE)) →
  let l1 := l ++ [heap_page (align_up n1)] in
  sys_brk (mkTaskMemory 0 l) n1 = Ret (align_up n1, mkTaskMemory (align_up n1 + PAGE_SIZE) l1) ∧
  sys_brk (mkTaskMemory (align_up n1 + PAGE_SIZE) l1) n2 = Ret (align_up n2, mkTaskMemory (align_up n2) l1).
Proof.
  intros Hinv Hn1 Hn2 Hdis Hout l1. unfold USER_SPACE_MAX in *.
  pose proof (align_up_bounds n1) as Ha1. pose proof (align_up_bounds n2) as Ha2.
  assert (region_wf (heap_page (align_up n1))) as Hwf
    by (unfold region_wf, region_end, heap_page, PAGE_SIZE in *; simpl; lia).
  destruct (overlaps_any_ok _ l Hwf (proj1 Hinv)) as (b & Hov & Hb).
  destruct b; [by apply Hb in Hdis|].
  assert (VmaList_add l (heap_page (align_up n1)) = Ret (Ok tt, l1)) as Hadd
    by (unfold VmaList_add; by rewrite Hov).
  assert (vma_inv l1) as Hinv1 by (by apply (vma_inv_add l _ l1 (Ok tt)) in Hadd as []).
  unfold sys_brk, USER_SPACE_MAX. cbn [brk vma_list].
  rewrite (proj2 (Z.eqb_neq n1 0)), (proj2 (Z.eqb_neq n2 0)) by lia.
  destruct (Z.geb_spec n1 0x0000800000000000), (Z.geb_spec n2 0x0000800000000000); [lia..|].
  rewrite !page_align_up_ok by (unfold PAGE_SIZE in *; lia). cbn [mbind outcome_bind]. split.
  - rewrite find_none; [|done|naive_solver]. cbn [mbind outcome_bind Z.eqb]. fold (heap_page (align_up n1)).
    rewrite Hadd. cbn [mbind outcome_bind]. by rewrite add64_ok by (unfold is_uint, PAGE_SIZE in *; lia).
  - rewrite (proj2 (Z.eqb_neq (align_up n1 + PAGE_SIZE) 0)) by (unfold PAGE_SIZE in *; lia).
    cbn [mbind outcome_bind]. rewrite find_none; [done|done|]. intros r [Hr| ->%list_elem_of_singleton]%elem_of_app; [naive_solver|].
    unfold inside, region_end, heap_page. simpl. lia.
Qed.

End brk.

(** Growing the heap does not look at the regions above it. *)
Lemma extend_heap_overlaps :
  let l := [mkVmaRegion (FS := unit) 0x1000 0x1000 VmaFlags_RW Heap None;
            mkVmaRegion 0x3000 0x1000 VmaFlags_RW Mmap None] in
  ∃ l', VmaList_extend_heap (H := dev_profile) l 0x4000 = Ret (Some 0x2000, l') ∧
    vma_inv l ∧ ¬ vma_inv l'.
Proof.
  eexists. split; [reflexivity|]. split.
  - split; [by repeat constructor|]. intros [|[|i]] [|[|j]] r1 r2 Hi Hj Hne; simplify_eq/=;
      unfold disjoint_regions, region_end; simpl; lia.
  - intros [_ Hd]. specialize (Hd 0%nat 1%nat _ _ eq_refl eq_refl ltac:(done)).
    destruct Hd as [Hd|Hd]; by apply Hd.
Qed.

(** ** The dirty bitmap of a file mapping *)

Section dirty.
Context {FS : Type}.
Implicit Types r : VmaRegion FS.

Definition page_of (off : Z) : Z := off `div` PAGE_SIZE_U64.

(** Marking a page inside the bitmap makes exactly that page dirty. *)
Lemma mark_dirty_is_dirty r b off off' :
  backing r = Some b → 0 ≤ off → 0 ≤ off' → page_of off `div` 64 < len (dirty_pages b) →
  ∃ r', VmaRegion_mark_dirty r off = Ret r' ∧
    VmaRegion_is_dirty r' off' =
      if decide (page_of off' = page_of off) then Ret true else VmaRegion_is_dirty r off'.
Proof.
  intros Hb Ho Ho' Hlt. unfold VmaRegion_mark_dirty, VmaRegion_is_dirty, page_of in *. rewrite Hb.
  set (p := off `div` PAGE_SIZE_U64) in *. set (p' := off' `div` PAGE_SIZE_U64) in *.
  assert (0 ≤ p) by (apply Z.div_pos; done). assert (0 ≤ p') by (apply Z.div_pos; done).
  assert (0 ≤ p `div` 64) by (apply Z.div_pos; lia). assert (0 ≤ p' `div` 64) by (apply Z.div_pos; lia).
  rewrite (proj2 (Z.ltb_lt _ _) Hlt).
  destruct (lookup_lt_is_Some_2 (dirty_pages b) (Z.to_nat (p `div` 64))) as [wd Hwd]; [unfold len in Hlt; lia|].
  rewrite (index_lookup _ (p `div` 64) wd) by done. cbn [mbind outcome_bind]. eexists. split; [reflexivity|].
  simpl. unfold len in *. rewrite length_insert.
  pose proof (Z.mod_pos_bound p 64). pose proof (Z.mod_pos_bound p' 64).
  pose proof (Z.div_mod p 64). pose proof (Z.div_mod p' 64).
  destruct (decide (p' `div` 64 = p `div` 64)) as [Hw|Hw].
  - rewrite Hw, (proj2 (Z.ltb_lt _ _) Hlt).
    rewrite (index_lookup _ _ (Z.lor wd (Z.shiftl 1 (p mod 64))));
      [|done|by rewrite list_lookup_insert_eq by (unfold len in Hlt; lia)].
    rewrite (index_lookup _ (p `div` 64) wd) by done. cbn [mbind outcome_bind].
    rewrite !land_shiftl1_eqb, testbit_set by lia. rewrite negb_involutive.
    destruct (decide (p' = p)) as [->|Hne]; [by rewrite Z.eqb_refl, orb_true_r|].
    rewrite (proj2 (Z.eqb_neq _ _)) by lia. by rewrite orb_false_r, negb_involutive.
  - rewrite decide_False by congruence. destruct (Z.ltb_spec (p' `div` 64) (Z.of_nat (length (dirty_pages b)))); [|done].
    unfold index. rewrite list_lookup_insert_ne by lia. done.
Qed.
End dirty.

(** ** Witnesses *)

Definition layout_ex : list (VmaRegion unit) :=
  [mkVmaRegion 0x400000 0x2000 VmaFlags_RX Code None; mkVmaRegion 0x402000 0x1000 VmaFlags_RW Data None].

Lemma layout_ex_reachable : rtc (vma_step (H := dev_profile)) [] layout_ex.
Proof.
  eapply rtc_l; [eapply (vma_step_add [] (mkVmaRegion 0x400000 0x2000 VmaFlags_RX Code None)); [done|reflexivity]|].
  eapply rtc_l; [eapply (vma_step_add _ (mkVmaRegion 0x402000 0x1000 VmaFlags_RW Data None)); [done|reflexivity]|].
  apply rtc_refl.
Qed.

Lemma layout_ex_inv : vma_inv layout_ex.
Proof. eapply vma_reachable_inv; [apply layout_ex_reachable | apply vma_inv_nil]. Qed.

Lemma vma_layout_witness :
  ∃ o, VmaList_find (H := dev_profile) layout_ex 0x402010 = Ret o ∧
    o = Some (mkVmaRegion 0x402000 0x1000 VmaFlags_RW Data None).
Proof.
  destruct (vma_layout (H := dev_profile) layout_ex layout_ex_reachable) as (_ & Hf & _).
  destruct (Hf 0x402010) as (o & Ho & _). exists o. split; [exact Ho|].
  vm_compute in Ho. injection Ho as <-. reflexivity.
Defined.

Lemma validate_access_correct_witness :
  ∃ b, VmaList_validate_access (H := dev_profile) 5 layout_ex 0x400ff0 0x20 false true = Ret (Some b) ∧ b = true.
Proof.
  destruct (validate_access_correct (H := dev_profile) layout_ex 0x400ff0 0x20 false true 5) as (b & Hb & _);
    [apply layout_ex_inv | by repeat constructor | done | done | done | done |].
  exists b. split; [exact Hb|]. vm_compute in Hb. injection Hb as <-. reflexivity.
Defined.

Lemma validate_access_wraps_witness :
  VmaList_validate_access (FS := unit) (H := release_profile) 1 [] 0xfffffffffffff000 0x1800 true true
  = Ret (Some true).
Proof. apply (validate_access_wraps [] 0xfffffffffffff000 0x1800 true true 0); done. Defined.

Lemma brk_never_grows_heap_witness :
  sys_brk (FS := unit) (H := dev_profile) (mkTaskMemory 0x601000 [heap_page 0x600000]) 0x700000
  = Ret (0x700000, mkTaskMemory 0x700000 [heap_page 0x600000]).
Proof.
  destruct (brk_never_grows_heap (FS := unit) (H := dev_profile) [] 0x600000 0x700000) as [_ H];
    [apply vma_inv_nil | done | done | constructor | by intros r ?%elem_of_nil | exact H].
Defined.
