(* ===== verification/Signal.v ===== *)
(** * Signals (kernel/src/task/signal.rs and the signal system calls of
    kernel/src/syscall/mod.rs)

    The pending and blocked masks are 64-bit words; bit [n] stands for signal
    [n].  The system calls act on the signal state of one task; a mask read
    from user space is an argument. *)

From stdpp Require Import relations sorting.
From S2P Require Import Prelude.

Definition SIGKILL : Z := 9.
Definition SIGCHLD : Z := 17.
Definition MAX_SIGNUM : Z := 31.
Definition SIG_BLOCK : Z := 0.
Definition SIG_UNBLOCK : Z := 1.
Definition SIG_SETMASK : Z := 2.
Definition SIG_DFL : Z := 0.
Definition SIG_IGN : Z := 1.

Record SignalState : Type := mkSignalState {
  pending : Z;
  blocked : Z;
  handlers : list Z;
}.

Definition SignalState_new : SignalState := mkSignalState 0 0 (replicate 32 SIG_DFL).

Definition send_signal (self : SignalState) (sig : Z) : SignalState :=
  if (sig =? 0) || (sig >? MAX_SIGNUM) then self
  else mkSignalState (Z.lor (pending self) (Z.shiftl 1 sig)) (blocked self) (handlers self).

(** [self.pending & !self.blocked & !1u64]. *)
Definition actionable (self : SignalState) : Z :=
  Z.land (Z.land (pending self) (unot 64 (blocked self))) (unot 64 1).

Definition has_pending (self : SignalState) : bool := negb (actionable self =? 0).

(** [u64::trailing_zeros]. *)
Fixpoint pos_trailing_zeros (p : positive) : Z :=
  match p with
  | xO p => 1 + pos_trailing_zeros p
  | _ => 0
  end.

Definition trailing_zeros (x : Z) : Z :=
  match x with Zpos p => pos_trailing_zeros p | _ => 64 end.

Definition next_pending (self : SignalState) : option Z * SignalState :=
  if actionable self =? 0 then (None, self)
  else
    let sig := trailing_zeros (actionable self) in
    (Some sig,
     mkSignalState (Z.land (pending self) (unot 64 (Z.shiftl 1 sig))) (blocked self) (handlers self)).

Definition get_handler (self : SignalState) (sig : Z) : outcome Z :=
  if (sig =? 0) || (sig >? MAX_SIGNUM) then Ret SIG_DFL else index (handlers self) sig.

Inductive DefaultAction : Type := Terminate | Ignore | Stop | Continue.

Definition default_action (sig : Z) : DefaultAction :=
  if sig =? SIGCHLD then Ignore else Terminate.

(** ** System calls *)

Definition E_INVALID_ARGUMENT : Z := -1.
Definition E_PERMISSION_DENIED : Z := -3.

(** [sys_kill] on the target's state: [u8::try_from] and the range test. *)
Definition sys_kill (target : SignalState) (sig : Z) : Z * SignalState :=
  if negb (sig <=? u8_max) then (E_INVALID_ARGUMENT, target)
  else if (sig =? 0) || (sig >? 31) then (E_INVALID_ARGUMENT, target)
  else (0, send_signal target sig).

(** [as i64]. *)
Definition as_i64 (x : Z) : Z := if x <? 2 ^ 63 then x else x - 2 ^ 64.

Definition sys_signal (task : SignalState) (sig handler : Z) : outcome (Z * SignalState) :=
  if negb (sig <=? u8_max) then Ret (E_INVALID_ARGUMENT, task)
  else if (sig =? 0) || (sig >? 31) then Ret (E_INVALID_ARGUMENT, task)
  else if sig =? SIGKILL then Ret (E_PERMISSION_DENIED, task)
  else
    old ← index (handlers task) sig;
    Ret (as_i64 old, mkSignalState (pending task) (blocked task) (<[Z.to_nat sig := handler]> (handlers task))).

(** [sys_sigprocmask]: the new mask, if one was passed; the result is the old
    mask or an error. *)
Definition sys_sigprocmask (task : SignalState) (how : Z) (new_mask : option Z)
    : result Z Z * SignalState :=
  let old_blocked := blocked task in
  match new_mask with
  | None => (Ok old_blocked, task)
  | Some mask =>
      if how =? SIG_BLOCK then
        (Ok old_blocked, mkSignalState (pending task) (Z.lor (blocked task) mask) (handlers task))
      else if how =? SIG_UNBLOCK then
        (Ok old_blocked, mkSignalState (pending task) (Z.land (blocked task) (unot 64 mask)) (handlers task))
      else if how =? SIG_SETMASK then
        (Ok old_blocked, mkSignalState (pending task) mask (handlers task))
      else (Err E_INVALID_ARGUMENT, task)
  end.

(** ** Signal sets *)

Definition is_pending (s : SignalState) (n : Z) : Prop := 0 ≤ n ∧ Z.testbit (pending s) n = true.
Definition is_blocked (s : SignalState) (n : Z) : Prop := 0 ≤ n ∧ Z.testbit (blocked s) n = true.
Definition deliverable (s : SignalState) (n : Z) : Prop :=
  0 < n ∧ Z.testbit (pending s) n = true ∧ Z.testbit (blocked s) n = false.

(** What every operation keeps: words in range, 32 handlers, and only signals
    1 to 31 pending. *)
Definition sig_inv (s : SignalState) : Prop :=
  is_uint 64 (pending s) ∧ is_uint 64 (blocked s) ∧ length (handlers s) = 32%nat ∧
  ∀ n, is_pending s n → 1 ≤ n ≤ MAX_SIGNUM.

Lemma pos_trailing_zeros_nonneg p : 0 ≤ pos_trailing_zeros p.
Proof. induction p; simpl; lia. Qed.

Lemma pos_trailing_zeros_spec p :
  Z.testbit (Zpos p) (pos_trailing_zeros p) = true ∧
  ∀ n, 0 ≤ n < pos_trailing_zeros p → Z.testbit (Zpos p) n = false.
Proof.
  induction p as [p IH|p IH|].
  - split; [done|]. simpl. lia.
  - destruct IH as [H1 H2]. pose proof (pos_trailing_zeros_nonneg p). change (Zpos p~0) with (2 * Zpos p).
    cbn [pos_trailing_zeros]. rewrite Z.add_1_l, Z.testbit_even_succ by done. split; [done|].
    intros n Hn. destruct (decide (n = 0)) as [->|]; [apply Z.testbit_even_0|].
    replace n with (Z.succ (n - 1)) by lia. rewrite Z.testbit_even_succ by lia. apply H2. lia.
  - split; [done|]. simpl. lia.
Qed.

Lemma trailing_zeros_spec x :
  0 < x →
  0 ≤ trailing_zeros x ∧ Z.testbit x (trailing_zeros x) = true ∧
  ∀ n, 0 ≤ n < trailing_zeros x → Z.testbit x n = false.
Proof.
  destruct x as [|p|p]; [lia| |lia]. intros _. split; [apply pos_trailing_zeros_nonneg|].
  apply pos_trailing_zeros_spec.
Qed.

Lemma testbit_actionable s n :
  is_uint 64 (pending s) → is_uint 64 (blocked s) → 0 ≤ n →
  Z.testbit (actionable s) n = true ↔ deliverable s n.
Proof.
  intros Hp Hb Hn. unfold actionable, deliverable. rewrite !Z.land_spec.
  destruct (decide (n < 64)) as [Hlt|Hge].
  - rewrite (testbit_unot 64 (blocked s)), (testbit_unot 64 1) by (done || lia).
    change 1 with (Z.shiftl 1 0) at 1. rewrite testbit_shiftl1 by lia.
    destruct (Z.eqb_spec n 0) as [->|]; rewrite ?andb_true_r, ?andb_false_r.
    + split; [done | lia].
    + rewrite andb_true_iff, negb_true_iff. split; [intros []; split_and!; (done || lia) | tauto].
  - rewrite (testbit_above 64 (pending s)) by (done || lia). simpl. split; [done | naive_solver].
Qed.

Lemma actionable_nonneg s : is_uint 64 (pending s) → 0 ≤ actionable s.
Proof. intros [Hp _]. apply Z.land_nonneg. left. apply Z.land_nonneg. by left. Qed.

Lemma actionable_zero s :
  is_uint 64 (pending s) → is_uint 64 (blocked s) →
  actionable s = 0 ↔ ∀ n, ¬ deliverable s n.
Proof.
  intros Hp Hb. split.
  - intros Hz n Hd. assert (0 ≤ n) by (destruct Hd; lia).
    apply (testbit_actionable s n Hp Hb) in Hd; [|done]. by rewrite Hz, Z.bits_0 in Hd.
  - intros Hn. apply Z.bits_inj'. intros n Hn0. rewrite Z.bits_0. apply not_true_is_false.
    intros Hd%testbit_actionable; [by apply (Hn n) | done..].
Qed.

(** ** Delivery *)

Lemma has_pending_spec s :
  is_uint 64 (pending s) → is_uint 64 (blocked s) → has_pending s = true ↔ ∃ n, deliverable s n.
Proof.
  intros Hp Hb. unfold has_pending. rewrite negb_true_iff, Z.eqb_neq. split.
  - intros Hnz. pose proof (actionable_nonneg s Hp).
    destruct (trailing_zeros_spec (actionable s)) as (H0 & Hb1 & _); [lia|].
    exists (trailing_zeros (actionable s)). by apply testbit_actionable.
  - intros [n Hn] Hz. by apply (actionable_zero s Hp Hb) with n in Hz.
Qed.

(** A dequeue takes the lowest deliverable signal and clears only its bit. *)
Lemma next_pending_spec s :
  sig_inv s →
  match next_pending s with
  | (Some sig, s') =>
      deliverable s sig ∧ (∀ n, deliverable s n → sig ≤ n) ∧
      (∀ n, 0 ≤ n → Z.testbit (pending s') n = Z.testbit (pending s) n && negb (n =? sig)) ∧
      blocked s' = blocked s ∧ handlers s' = handlers s ∧ is_uint 64 (pending s')
  | (None, s') => s' = s ∧ ∀ n, ¬ deliverable s n
  end.
Proof.
  intros (Hp & Hb & _ & Hrange). unfold next_pending.
  destruct (Z.eqb_spec (actionable s) 0) as [Hz|Hz].
  { split; [done|]. by apply actionable_zero. }
  pose proof (actionable_nonneg s Hp).
  destruct (trailing_zeros_spec (actionable s)) as (H0 & Hbit & Hlow); [lia|].
  set (sig := trailing_zeros (actionable s)) in *.
  assert (deliverable s sig) as Hd by by apply testbit_actionable.
  assert (1 ≤ sig ≤ MAX_SIGNUM) as Hsig by (apply Hrange; split; [lia | apply Hd]).
  unfold MAX_SIGNUM in Hsig. split_and!; [done| | |done|done|].
  - intros n Hn. destruct (decide (sig ≤ n)) as [|Hlt]; [done|]. assert (0 ≤ n) by (destruct Hn; lia).
    apply (testbit_actionable s n Hp Hb) in Hn; [|done]. rewrite Hlow in Hn by lia. done.
  - intros n Hn. simpl. apply testbit_clear; [done|lia|done].
  - by apply is_uint_land_l.
Qed.

Lemma next_pending_inv s sig s' : sig_inv s → next_pending s = (Some sig, s') → sig_inv s'.
Proof.
  intros Hi He. pose proof (next_pending_spec s Hi) as Hs. rewrite He in Hs.
  destruct Hs as (_ & _ & Hbits & Hbl & Hh & Hu). destruct Hi as (_ & Hb & Hl & Hr).
  split_and!; [done| congruence | congruence |]. intros n [Hn Hbit]. rewrite Hbits in Hbit by done.
  apply andb_true_iff in Hbit as [Hbit _]. apply Hr. by split.
Qed.

Lemma next_pending_deliverable s sig s' n :
  sig_inv s → next_pending s = (Some sig, s') → deliverable s' n ↔ deliverable s n ∧ n ≠ sig.
Proof.
  intros Hi He. pose proof (next_pending_spec s Hi) as Hs. rewrite He in Hs.
  destruct Hs as (_ & _ & Hbits & Hbl & _). unfold deliverable. rewrite Hbl. split.
  - intros (Hn & Hbit & ?). rewrite Hbits, andb_true_iff, negb_true_iff, Z.eqb_neq in Hbit by lia. tauto.
  - intros ((Hn & Hbit & ?) & Hne). rewrite Hbits, andb_true_iff, negb_true_iff, Z.eqb_neq by lia. tauto.
Qed.

(** Dequeue until nothing is deliverable. *)
Fixpoint drain (fuel : nat) (s : SignalState) : option (list Z * SignalState) :=
  match fuel with
  | O => None
  | S fuel =>
      match next_pending s with
      | (None, s') => Some ([], s')
      | (Some sig, s') => '(l, s'') ← drain fuel s'; Some (sig :: l, s'')
      end
  end.

Lemma drain_spec fuel s :
  sig_inv s → (0 < fuel)%nat → (∀ n, deliverable s n → 33 - Z.of_nat fuel ≤ n) →
  ∃ l s', drain fuel s = Some (l, s') ∧ StronglySorted Z.lt l ∧ (∀ n, n ∈ l ↔ deliverable s n) ∧
    has_pending s' = false ∧ blocked s' = blocked s.
Proof.
  revert s. induction fuel as [|fuel IH]; intros s Hi Hpos Hlow; [lia|]. simpl.
  pose proof (next_pending_spec s Hi) as Hs. destruct (next_pending s) as [[sig|] s1] eqn:He.
  - destruct Hs as (Hd & Hmin & _ & Hbl & _). pose proof (next_pending_inv s sig s1 Hi He) as Hi1.
    assert (∀ n, deliverable s1 n ↔ deliverable s n ∧ n ≠ sig) as Hd1 by (intros; by apply next_pending_deliverable).
    assert (1 ≤ sig ≤ 31) as Hr by (destruct Hi as (_&_&_&Hr); apply Hr; destruct Hd as (?&?&?); split; [lia|done]).
    specialize (Hlow sig Hd) as Hls.
    destruct (IH s1 Hi1) as (l & s2 & -> & Hsort & Hel & Hnone & Hbl2).
    { destruct fuel; lia. }
    { intros n [Hn Hne]%Hd1. specialize (Hmin n Hn). lia. }
    exists (sig :: l), s2. split; [done|]. split_and!; [|intros n|done|congruence].
    + constructor; [done|]. apply list.Forall_forall. intros n [Hn Hne]%Hel%Hd1. specialize (Hmin n Hn). lia.
    + rewrite elem_of_cons, Hel, Hd1. destruct (decide (n = sig)) as [->|]; naive_solver.
  - destruct Hs as [-> Hnone]. exists [], s. split; [done|]. split_and!; [constructor| | |done].
    + intros n. split; [by intros ?%elem_of_nil | by intros ?%Hnone].
    + apply not_true_is_false. rewrite has_pending_spec by apply Hi. intros [n Hn]. by apply (Hnone n).
Qed.

(** ** Histories of a task's signal state *)

Inductive sig_step (s : SignalState) : SignalState → Prop :=
| sig_step_kill sig : 0 ≤ sig → sig_step s (sys_kill s sig).2
| sig_step_signal sig h r s' : 0 ≤ sig → sys_signal s sig h = Ret (r, s') → sig_step s s'
| sig_step_mask how mask : is_uint 64 mask → sig_step s (sys_sigprocmask s how (Some mask)).2
| sig_step_next : sig_step s (next_pending s).2.

Lemma send_signal_inv s sig : 0 ≤ sig → sig_inv s → sig_inv (send_signal s sig).
Proof.
  intros H0 Hi. unfold send_signal. destruct (_ || _) eqn:E; [done|].
  apply orb_false_iff in E as [E1%Z.eqb_neq E2]. rewrite Z.gtb_ltb, Z.ltb_ge in E2.
  destruct Hi as (Hp & Hb & Hl & Hr). unfold MAX_SIGNUM in *. split_and!; [|done|done|].
  - apply is_uint_lor; [lia|done|apply is_uint_shiftl1; lia].
  - intros n [Hn Hbit]. simpl in Hbit. rewrite testbit_set in Hbit by lia.
    apply orb_true_iff in Hbit as [Hbit|?%Z.eqb_eq]; [apply Hr; by split | unfold MAX_SIGNUM; lia].
Qed.

Lemma sig_step_inv s s' :
  sig_step s s' → sig_inv s → sig_inv s' ∧ handlers s' !! Z.to_nat SIGKILL = handlers s !! Z.to_nat SIGKILL.
Proof.
  destruct 1 as [sig H0|sig h r s' H0 Hs|how mask Hm|]; intros Hi.
  - unfold sys_kill. destruct (negb _); [done|]. destruct (_ || _); [done|]. simpl. split; [by apply send_signal_inv|].
    unfold send_signal. by destruct (_ || _).
  - unfold sys_signal in Hs. destruct (negb _); [by simplify_eq|]. destruct (_ || _); [by simplify_eq|].
    destruct (Z.eqb_spec sig SIGKILL); [by simplify_eq|]. apply bind_ret in Hs as (old & _ & [= _ <-]).
    destruct Hi as (Hp & Hb & Hl & Hr). split; [split_and!; [done..| |done]; simpl; by rewrite length_insert|].
    simpl. apply list_lookup_insert_ne. unfold SIGKILL in *. lia.
  - destruct Hi as (Hp & Hb & Hl & Hr). unfold sys_sigprocmask.
    destruct (how =? SIG_BLOCK); [|destruct (how =? SIG_UNBLOCK); [|destruct (how =? SIG_SETMASK)]];
      (split; [|done]); split_and!; try done; simpl.
    + by apply is_uint_lor.
    + by apply is_uint_land_l.
  - pose proof (next_pending_spec s Hi) as Hs. destruct (next_pending s) as [[sig|] s1] eqn:He; simpl.
    + split; [by eapply next_pending_inv|]. destruct Hs as (_ & _ & _ & _ & -> & _). done.
    + by destruct Hs as [-> _].
Qed.

Lemma sig_inv_new : sig_inv SignalState_new.
Proof. split_and!; [done..|]. intros n [_ Hn]. by rewrite Z.bits_0 in Hn. Qed.

Lemma sig_reachable s :
  rtc sig_step SignalState_new s → sig_inv s ∧ handlers s !! Z.to_nat SIGKILL = Some SIG_DFL.
Proof.
  assert (∀ s0 s, rtc sig_step s0 s → sig_inv s0 → handlers s0 !! Z.to_nat SIGKILL = Some SIG_DFL →
            sig_inv s ∧ handlers s !! Z.to_nat SIGKILL = Some SIG_DFL) as Hgen.
  { induction 1 as [|s0 s1 s2 Hs _ IH]; [done|]. intros Hi Hk. destruct (sig_step_inv _ _ Hs Hi) as [Hi1 Hk1].
    apply IH; [done | congruence]. }
  intros Hr. apply (Hgen _ _ Hr); [apply sig_inv_new | done].
Qed.

(** In every reachable signal state, dequeuing until nothing is left
    delivers each pending unblocked signal exactly once, lowest number first,
    in at most 32 dequeues, and leaves none deliverable. *)
Theorem signals_drain_in_order s :
  rtc sig_step SignalState_new s →
  ∃ l s', drain 32 s = Some (l, s') ∧ StronglySorted Z.lt l ∧ (∀ n, n ∈ l ↔ deliverable s n) ∧
    has_pending s' = false.
Proof.
  intros [Hi _]%sig_reachable.
  destruct (drain_spec 32 s Hi) as (l & s' & ? & ? & ? & ? & _); [lia| |eauto 6].
  intros n (Hn & _). lia.
Qed.

(** No sequence of system calls catches or ignores SIGKILL: its handler
    stays the default, whose action is to terminate, and reading a handler
    never panics. *)
Theorem sigkill_uncatchable s sig :
  rtc sig_step SignalState_new s → 0 ≤ sig →
  get_handler s SIGKILL = Ret SIG_DFL ∧ default_action SIGKILL = Terminate ∧ get_handler s sig ≠ Panic.
Proof.
  intros [Hi Hk]%sig_reachable Hs. split_and!; [|done|].
  - unfold get_handler. simpl. by apply index_lookup.
  - unfold get_handler. destruct (_ || _) eqn:E; [done|].
    apply orb_false_iff in E as [_ E]. rewrite Z.gtb_ltb, Z.ltb_ge in E. unfold MAX_SIGNUM in E.
    destruct Hi as (_ & _ & Hl & _).
    destruct (lookup_lt_is_Some_2 (handlers s) (Z.to_nat sig)) as [h Hh]; [lia|].
    by rewrite (index_lookup _ _ _ Hs Hh).
Qed.

(** SIGKILL can be blocked: after a task adds bit 9 to its mask, a SIGKILL
    sent to it succeeds, stays pending and is never deliverable while the mask
    keeps that bit, although the call's documentation says SIGKILL cannot be
    blocked. *)
Theorem sigkill_can_be_blocked s mask :
  sig_inv s → is_uint 64 mask → Z.testbit mask SIGKILL = true →
  let s1 := (sys_sigprocmask s SIG_BLOCK (Some mask)).2 in
  let '(r, s2) := sys_kill s1 SIGKILL in
  r = 0 ∧ is_pending s2 SIGKILL ∧ ¬ deliverable s2 SIGKILL ∧ (next_pending s2).1 ≠ Some SIGKILL.
Proof.
  intros Hi Hm Hbit. unfold sys_kill. simpl. split; [done|].
  set (s1 := mkSignalState _ _ _). set (s2 := send_signal s1 SIGKILL).
  assert (¬ deliverable s2 SIGKILL) as Hnd.
  { intros (_ & _ & Hb). unfold s2 in Hb. simpl in Hb. by rewrite Z.lor_spec, Hbit, orb_true_r in Hb. }
  split_and!; [|done|].
  - split; [done|]. unfold s2, s1. simpl. rewrite testbit_set by done. by rewrite orb_true_r.
  - assert (sig_inv s2) as Hi2.
    { apply send_signal_inv; [done|]. exact (proj1 (sig_step_inv _ _ (sig_step_mask s SIG_BLOCK mask Hm) Hi)). }
    pose proof (next_pending_spec s2 Hi2) as Hn. destruct (next_pending s2) as [[sig|] ?]; [|done].
    simpl. intros [= ->]. by destruct Hn.
Qed.

(** ** Witnesses *)

Definition signals_ex : SignalState :=
  (sys_kill (sys_sigprocmask (sys_kill (sys_kill SignalState_new 15).2 2).2 SIG_BLOCK (Some 4)).2 10).2.

Lemma signals_ex_reachable : rtc sig_step SignalState_new signals_ex.
Proof.
  eapply rtc_l; [by apply (sig_step_kill _ 15)|]. eapply rtc_l; [by apply (sig_step_kill _ 2)|].
  eapply rtc_l; [by apply (sig_step_mask _ SIG_BLOCK 4)|]. eapply rtc_l; [by apply (sig_step_kill _ 10)|].
  apply rtc_refl.
Qed.

Lemma signals_drain_in_order_witness : fst <$> drain 32 signals_ex = Some [10; 15] ∧ deliverable signals_ex 15.
Proof.
  destruct (signals_drain_in_order signals_ex signals_ex_reachable) as (l & s' & Hd & _ & Hel & _).
  assert (l = [10; 15]) as -> by (vm_compute in Hd; congruence).
  rewrite Hd. split; [reflexivity|]. apply Hel. set_solver.
Defined.

Lemma sigkill_uncatchable_witness : get_handler signals_ex SIGKILL = Ret SIG_DFL.
Proof. apply (sigkill_uncatchable signals_ex 9); [apply signals_ex_reachable | done]. Defined.

Lemma sigkill_can_be_blocked_witness :
  has_pending (sys_kill (sys_sigprocmask SignalState_new SIG_BLOCK (Some 512)).2 SIGKILL).2 = false ∧
  ¬ deliverable (sys_kill (sys_sigprocmask SignalState_new SIG_BLOCK (Some 512)).2 SIGKILL).2 SIGKILL.
Proof.
  split; [reflexivity|]. assert (Hm : is_uint 64 512) by done.
  destruct (sigkill_can_be_blocked SignalState_new 512 sig_inv_new Hm eq_refl) as (_ & _ & Hn & _). exact Hn.
Defined.
