(* ===== verification/Ip.v ===== *)
(** * Ethernet and IPv4 headers, the Internet checksum (kernel/src/net/mod.rs)

    Packets are lists of bytes.  The readers index like the source and panic
    where it would. *)

From S2P Require Import Prelude.

Definition ETHERNET_HEADER_SIZE : Z := 14.
Definition ETHERTYPE_ARP : Z := 0x0806.
Definition ETHERTYPE_IPV4 : Z := 0x0800.
Definition ETHERTYPE_IPV6 : Z := 0x86DD.
Definition IP_HEADER_MIN_SIZE : Z := 20.
Definition IP_VERSION_4 : Z := 4.
Definition IP_IHL_NO_OPTIONS : Z := 5.
Definition IP_DEFAULT_TTL : Z := 64.

Record EthernetHeader : Type := mkEthernetHeader {
  dst_mac : list Z;
  src_mac : list Z;
  ethertype : Z;
}.

Record Ipv4Header : Type := mkIpv4Header {
  protocol : Z;
  src_ip : Z;
  dst_ip : Z;
  total_len : Z;
  header_len : Z;
}.

(** [u16::from_be_bytes] and [u32::from_be_bytes], and the converse. *)
Definition u16_from_be_bytes (a b : Z) : Z := a * 256 + b.
Definition u32_from_be_bytes (a b c d : Z) : Z := ((a * 256 + b) * 256 + c) * 256 + d.
Definition u16_to_be_bytes (x : Z) : list Z := [x `div` 256; x mod 256].
Definition u32_to_be_bytes (x : Z) : list Z :=
  [x `div` 2 ^ 24; (x `div` 2 ^ 16) mod 256; (x `div` 2 ^ 8) mod 256; x mod 256].

Definition read_u16_be (bytes : list Z) (offset : Z) : outcome Z :=
  a ← index bytes offset; b ← index bytes (offset + 1); Ret (u16_from_be_bytes a b).

Definition read_u32_be (bytes : list Z) (offset : Z) : outcome Z :=
  a ← index bytes offset; b ← index bytes (offset + 1);
  c ← index bytes (offset + 2); d ← index bytes (offset + 3);
  Ret (u32_from_be_bytes a b c d).

Definition write_u16_be (buf : list Z) (offset value : Z) : outcome (list Z) :=
  buf ← store buf offset (value `div` 256); store buf (offset + 1) (value mod 256).

Definition write_u32_be (buf : list Z) (offset value : Z) : outcome (list Z) :=
  buf ← store buf offset (value `div` 2 ^ 24);
  buf ← store buf (offset + 1) ((value `div` 2 ^ 16) mod 256);
  buf ← store buf (offset + 2) ((value `div` 2 ^ 8) mod 256);
  store buf (offset + 3) (value mod 256).

Definition build_ethernet (dst src : list Z) (et : Z) (payload : list Z) : outcome (list Z) :=
  let total := ETHERNET_HEADER_SIZE + len payload in
  let frame := replicate (Z.to_nat total) 0 in
  frame ← copy_into frame 0 6 dst;
  frame ← copy_into frame 6 12 src;
  frame ← write_u16_be frame 12 et;
  copy_into frame ETHERNET_HEADER_SIZE total payload.

Definition parse_ethernet (bytes : list Z) : outcome (option (EthernetHeader * list Z)) :=
  if len bytes <? ETHERNET_HEADER_SIZE then Ret None
  else
    dst ← slice bytes 0 6;
    src ← slice bytes 6 12;
    et ← read_u16_be bytes 12;
    payload ← slice bytes ETHERNET_HEADER_SIZE (len bytes);
    Ret (Some (mkEthernetHeader dst src et, payload)).

Definition parse_ipv4 (bytes : list Z) : outcome (option Ipv4Header) :=
  if len bytes <? IP_HEADER_MIN_SIZE then Ret None
  else
    version_ihl ← index bytes 0;
    let version := Z.shiftr version_ihl 4 in
    let ihl := Z.land version_ihl 0x0F in
    if negb (version =? IP_VERSION_4) || (ihl <? IP_IHL_NO_OPTIONS) then Ret None
    else
      let hl := ihl * 4 in
      if len bytes <? hl then Ret None
      else
        tl ← read_u16_be bytes 2;
        proto ← index bytes 9;
        s ← read_u32_be bytes 12;
        d ← read_u32_be bytes 16;
        Ret (Some (mkIpv4Header proto s d tl hl)).

Section checksum.
Context `{BuildProfile}.

(** The loop over 16-bit words and the odd last byte. *)
Fixpoint checksum_words (bytes : list Z) (sum : Z) : outcome Z :=
  match bytes with
  | a :: b :: rest => s ← add32 sum (u16_from_be_bytes a b); checksum_words rest s
  | [a] => add32 sum (Z.shiftl a 8)
  | [] => Ret sum
  end.

(** [while (sum >> 16) != 0]; [None] means that [fuel] rounds were not
    enough. *)
Fixpoint checksum_fold (fuel : nat) (sum : Z) : outcome (option Z) :=
  match fuel with
  | O => Ret None
  | S fuel =>
      if Z.shiftr sum 16 =? 0 then Ret (Some sum)
      else s ← add32 (Z.land sum 0xFFFF) (Z.shiftr sum 16); checksum_fold fuel s
  end.

Definition CHECKSUM_FOLDS : nat := 3.

Definition internet_checksum (bytes : list Z) : outcome Z :=
  sum ← checksum_words bytes 0;
  folded ← checksum_fold CHECKSUM_FOLDS sum;
  match folded with
  | Some s => Ret (cast 16 (unot 32 s))
  | None => Panic
  end.

End checksum.

(** ** Lemmas *)

Lemma u16_bytes_roundtrip x : is_uint 16 x →
  u16_from_be_bytes (x `div` 256) (x mod 256) = x ∧ is_byte (x `div` 256) ∧ is_byte (x mod 256).
Proof.
  unfold u16_from_be_bytes, is_byte, is_uint. intros Hx.
  pose proof (Z.div_mod x 256). pose proof (Z.mod_pos_bound x 256).
  split_and!; lia.
Qed.

Lemma u32_bytes_roundtrip x : is_uint 32 x →
  u32_from_be_bytes (x `div` 2 ^ 24) ((x `div` 2 ^ 16) mod 256) ((x `div` 2 ^ 8) mod 256) (x mod 256) = x.
Proof.
  unfold u32_from_be_bytes, is_uint. intros Hx.
  assert (x `div` 2 ^ 16 = (x `div` 2 ^ 8) `div` 256) as -> by (by rewrite Z.div_div).
  assert (x `div` 2 ^ 24 = ((x `div` 2 ^ 8) `div` 256) `div` 256) as -> by (by rewrite !Z.div_div).
  change (2 ^ 8) with 256.
  pose proof (Z.div_mod x 256). pose proof (Z.div_mod (x `div` 256) 256).
  pose proof (Z.div_mod ((x `div` 256) `div` 256) 256). lia.
Qed.

(** Reading in range succeeds and gives a number of the right width. *)
Lemma index_byte bytes i :
  Forall is_byte bytes → 0 ≤ i < len bytes → ∃ b, index bytes i = Ret b ∧ is_byte b.
Proof.
  intros Hb Hi. destruct (lookup_lt_is_Some_2 bytes (Z.to_nat i)) as [b Hl]; [unfold len in Hi; lia|].
  exists b. split; [by apply index_lookup; [lia|]|]. by eapply Forall_lookup_1.
Qed.

Lemma read_u16_ok bytes i :
  Forall is_byte bytes → 0 ≤ i → i + 2 ≤ len bytes → ∃ v, read_u16_be bytes i = Ret v ∧ is_uint 16 v.
Proof.
  intros Hb Hi Hl. unfold read_u16_be.
  destruct (index_byte bytes i) as (a & -> & Ha); [done|lia|]. destruct (index_byte bytes (i + 1)) as (b & -> & Hb'); [done|lia|].
  eexists. split; [done|]. unfold u16_from_be_bytes, is_byte, is_uint in *. lia.
Qed.

Lemma read_u32_ok bytes i :
  Forall is_byte bytes → 0 ≤ i → i + 4 ≤ len bytes → ∃ v, read_u32_be bytes i = Ret v ∧ is_uint 32 v.
Proof.
  intros Hb Hi Hl. unfold read_u32_be.
  destruct (index_byte bytes i) as (a & -> & ?); [done|lia|]. destruct (index_byte bytes (i + 1)) as (b & -> & ?); [done|lia|].
  destruct (index_byte bytes (i + 2)) as (c & -> & ?); [done|lia|]. destruct (index_byte bytes (i + 3)) as (d & -> & ?); [done|lia|].
  eexists. split; [done|]. unfold u32_from_be_bytes, is_byte, is_uint in *. lia.
Qed.

(** One round of the folding keeps the sum modulo 65535 and shrinks it. *)
Lemma fold_step s :
  is_uint 32 s → 65535 < s →
  (Z.land s 0xFFFF + Z.shiftr s 16) mod 65535 = s mod 65535 ∧
  0 < Z.land s 0xFFFF + Z.shiftr s 16 ≤ 131070.
Proof.
  intros Hs Hlt. change 0xFFFF with (2 ^ 16 - 1). rewrite land_mask, Z.shiftr_div_pow2 by lia.
  change (2 ^ 16) with 65536. pose proof (Z.div_mod s 65536). pose proof (Z.mod_pos_bound s 65536).
  assert (s `div` 65536 < 65536) by (apply Z.div_lt_upper_bound; unfold is_uint in Hs; lia).
  assert (0 < s `div` 65536) by (apply Z.div_str_pos; lia). split; [|lia].
  replace s with (s mod 65536 + s `div` 65536 + s `div` 65536 * 65535) at 3 by lia.
  by rewrite Z_mod_plus_full.
Qed.

(** The 16-bit words of a byte string, added up. *)
Fixpoint words_sum (bytes : list Z) : Z :=
  match bytes with
  | a :: b :: rest => u16_from_be_bytes a b + words_sum rest
  | [a] => a * 256
  | [] => 0
  end.

(** Induction two bytes at a time. *)
Lemma two_step_ind (P : list Z → Prop) :
  P [] → (∀ a, P [a]) → (∀ a b l, P l → P (a :: b :: l)) → ∀ l, P l.
Proof.
  intros H0 H1 H2 l. assert (P l ∧ ∀ a, P (a :: l)) as [? _]; [|done].
  induction l as [|b l [IH1 IH2]]; split; auto.
Qed.

Lemma words_sum_nonneg bytes : Forall is_byte bytes → 0 ≤ words_sum bytes.
Proof.
  induction bytes as [|a|a b l IH] using two_step_ind; simpl; [done|..]; rewrite !list.Forall_cons;
    unfold is_byte, is_uint, u16_from_be_bytes in *; [lia|].
  intros (? & ? & ?%IH). lia.
Qed.

(** Short enough byte strings cannot overflow the 32-bit accumulator. *)
Lemma words_sum_bound bytes : Forall is_byte bytes → words_sum bytes ≤ 65535 * ((len bytes + 1) `div` 2).
Proof.
  unfold len. induction bytes as [|a|a b l IH] using two_step_ind; simpl; [done|..]; rewrite !list.Forall_cons;
    unfold is_byte, is_uint, u16_from_be_bytes in *.
  - change ((Z.of_nat 1 + 1) `div` 2) with 1. lia.
  - intros (? & ? & ?%IH). replace (Z.of_nat (S (S (length l))) + 1) with (Z.of_nat (length l) + 1 + 1 * 2) by lia.
    rewrite Z.div_add by lia. lia.
Qed.

Lemma words_sum_app p q : Nat.Even (length p) → words_sum (p ++ q) = words_sum p + words_sum q.
Proof.
  induction p as [|a|a b l IH] using two_step_ind; simpl; intros Hev; [done| |].
  - destruct Hev as [n Hn]. lia.
  - rewrite IH; [lia|]. destruct Hev as [[|n] Hn]; [lia|]. exists n. lia.
Qed.

(** Writing into a header of known length. *)
Lemma write_u16_be_app h t i v :
  0 ≤ i → i + 2 ≤ len h →
  write_u16_be (h ++ t) i v =
  Ret (<[Z.to_nat (i + 1) := v mod 256]> (<[Z.to_nat i := v `div` 256]> h) ++ t).
Proof.
  intros Hi Hl. unfold write_u16_be. rewrite store_app_l by lia. cbn [mbind outcome_bind].
  by rewrite store_app_l by (unfold len in *; rewrite ?length_insert; lia).
Qed.

Lemma write_u32_be_app h t i v :
  0 ≤ i → i + 4 ≤ len h →
  write_u32_be (h ++ t) i v =
  Ret (<[Z.to_nat (i + 3) := v mod 256]> (<[Z.to_nat (i + 2) := (v `div` 2 ^ 8) mod 256]>
    (<[Z.to_nat (i + 1) := (v `div` 2 ^ 16) mod 256]> (<[Z.to_nat i := v `div` 2 ^ 24]> h))) ++ t).
Proof.
  intros Hi Hl. unfold write_u32_be.
  repeat (rewrite store_app_l by (unfold len in *; rewrite ?length_insert; lia); cbn [mbind outcome_bind]). done.
Qed.

(** A MAC address spelled out. *)
Lemma six_bytes {A} (l : list A) : len l = 6 → ∃ a b c d e f, l = [a; b; c; d; e; f].
Proof.
  unfold len. intros Hl. do 6 (destruct l as [|? l]; [simpl in Hl; lia|]).
  destruct l; [by repeat eexists | simpl in Hl; lia].
Qed.

Lemma build_ethernet_ok dst src et payload :
  len dst = 6 → len src = 6 →
  build_ethernet dst src et payload = Ret (dst ++ src ++ u16_to_be_bytes et ++ payload).
Proof.
  intros (? & ? & ? & ? & ? & ? & ->)%six_bytes (? & ? & ? & ? & ? & ? & ->)%six_bytes.
  unfold build_ethernet, ETHERNET_HEADER_SIZE.
  replace (replicate _ 0) with (replicate 14 0 ++ replicate (length payload) 0);
    [|rewrite <- replicate_add; f_equal; unfold len; lia].
  rewrite copy_into_ok by (unfold len; rewrite ?length_app, ?length_replicate; simpl; lia). cbn [mbind outcome_bind].
  rewrite copy_into_ok by (unfold len; simpl; rewrite ?length_replicate; lia). cbn [mbind outcome_bind].
  match goal with |- context [write_u16_be ?l 12 et] =>
    change l with ((take 14 l) ++ replicate (length payload) 0) end.
  rewrite write_u16_be_app by (done || unfold len; simpl; lia). cbn [mbind outcome_bind].
  rewrite copy_into_ok by (unfold len; simpl; rewrite ?length_replicate; lia). f_equal.
  rewrite (drop_ge _ (Z.to_nat (14 + len payload))); [by rewrite app_nil_r|].
  unfold len. simpl. rewrite length_replicate. lia.
Qed.

Lemma parse_build_ethernet dst src et payload :
  len dst = 6 → len src = 6 → is_uint 16 et →
  parse_ethernet (dst ++ src ++ u16_to_be_bytes et ++ payload) =
  Ret (Some (mkEthernetHeader dst src et, payload)).
Proof.
  intros (? & ? & ? & ? & ? & ? & ->)%six_bytes (? & ? & ? & ? & ? & ? & ->)%six_bytes Het.
  unfold parse_ethernet, ETHERNET_HEADER_SIZE, len. cbn [app length u16_to_be_bytes].
  match goal with |- context [?n <? 14] => destruct (Z.ltb_spec n 14); [lia|] end. rewrite !slice_ok by (unfold len; simpl; lia).
  cbn [mbind outcome_bind]. destruct (u16_bytes_roundtrip et Het) as (Hrt & _).
  unfold read_u16_be, index. simpl. rewrite Hrt. repeat f_equal.
  match goal with |- take ?k _ = _ => replace k with (length payload) by lia end. by rewrite firstn_all.
Qed.

(** A 20-byte header without options. *)
Definition wire_header (tl id fl proto c1 c2 s d : Z) : list Z :=
  [0x45; 0] ++ u16_to_be_bytes tl ++ u16_to_be_bytes id ++ u16_to_be_bytes fl ++
  [IP_DEFAULT_TTL; proto; c1; c2] ++ u32_to_be_bytes s ++ u32_to_be_bytes d.

Lemma wire_header_bytes tl id fl proto c1 c2 s d :
  is_uint 16 tl → is_uint 16 id → is_uint 16 fl → is_byte proto → is_byte c1 → is_byte c2 →
  is_uint 32 s → is_uint 32 d → Forall is_byte (wire_header tl id fl proto c1 c2 s d).
Proof.
  intros Ht Hi Hf Hp H1 H2 Hs Hd. unfold wire_header, u16_to_be_bytes, u32_to_be_bytes. cbn [app].
  pose proof (u16_bytes_roundtrip _ Ht) as (_ & ? & ?). pose proof (u16_bytes_roundtrip _ Hi) as (_ & ? & ?).
  pose proof (u16_bytes_roundtrip _ Hf) as (_ & ? & ?).
  assert (∀ x, is_uint 32 x → is_byte (x `div` 2 ^ 24)) as Hdiv.
  { intros x Hx. unfold is_byte, is_uint in *. split; [apply Z.div_pos; lia | apply Z.div_lt_upper_bound; lia]. }
  assert (∀ x, is_byte (x mod 256)) as Hmod by (intros; apply Z.mod_pos_bound; lia).
  repeat (apply list.Forall_cons; split); auto; done.
Qed.

Lemma length_wire_header tl id fl proto c1 c2 s d : length (wire_header tl id fl proto c1 c2 s d) = 20%nat.
Proof. done. Qed.

Lemma parse_ipv4_wire tl id fl proto c1 c2 s d body :
  is_uint 16 tl → is_uint 32 s → is_uint 32 d →
  parse_ipv4 (wire_header tl id fl proto c1 c2 s d ++ body) = Ret (Some (mkIpv4Header proto s d tl 20)).
Proof.
  intros Ht Hs Hd. unfold parse_ipv4, IP_HEADER_MIN_SIZE, len. rewrite length_app, length_wire_header.
  destruct (Z.ltb_spec (Z.of_nat (20 + length body)) 20); [lia|]. cbn [mbind outcome_bind].
  change (index _ 0) with (Ret 0x45). cbn [mbind outcome_bind].
  change (negb (Z.shiftr 0x45 4 =? IP_VERSION_4) || (Z.land 0x45 0x0F <? IP_IHL_NO_OPTIONS)) with false.
  change (Z.land 0x45 0x0F * 4) with 20. cbn [negb].
  destruct (Z.ltb_spec (Z.of_nat (20 + length body)) 20); [lia|].
  pose proof (u16_bytes_roundtrip tl Ht) as (Ht' & _). pose proof (u32_bytes_roundtrip s Hs) as Hs'.
  pose proof (u32_bytes_roundtrip d Hd) as Hd'. simpl in Ht', Hs', Hd'.
  unfold read_u16_be, read_u32_be, index. simpl. by rewrite Ht', Hs', Hd'.
Qed.

Section checksum_lemmas.
Context `{BuildProfile}.

Lemma checksum_words_ok bytes s :
  Forall is_byte bytes → 0 ≤ s → s + words_sum bytes < 2 ^ 32 →
  checksum_words bytes s = Ret (s + words_sum bytes).
Proof.
  revert s. induction bytes as [|a|a b l IH] using two_step_ind; intros s Hb Hs Hlt; simpl in *.
  - f_equal. lia.
  - apply list.Forall_cons in Hb as [Ha _]. unfold is_byte, is_uint in Ha.
    rewrite Z.shiftl_mul_pow2 by lia. apply add32_ok. split; lia.
  - rewrite !list.Forall_cons in Hb. destruct Hb as (Ha & Hb & Hl).
    pose proof (words_sum_nonneg l Hl). unfold is_byte, is_uint, u16_from_be_bytes in *.
    rewrite add32_ok by (unfold is_uint; lia). cbn [mbind outcome_bind]. rewrite IH by (done || lia). f_equal. lia.
Qed.

(** Three rounds always suffice for a 32-bit sum. *)
Lemma checksum_fold_ok s :
  is_uint 32 s →
  ∃ f, checksum_fold CHECKSUM_FOLDS s = Ret (Some f) ∧ 0 ≤ f ≤ 65535 ∧
    f mod 65535 = s mod 65535 ∧ (0 < s → 0 < f) ∧ (s ≤ 65535 → f = s).
Proof.
  assert (∀ n t, 0 ≤ t ≤ 65535 → checksum_fold (S n) t = Ret (Some t)) as Hdone.
  { intros n t Ht. simpl. by rewrite Z.shiftr_div_pow2, Z.div_small by (simpl; lia). }
  assert (∀ n t, is_uint 32 t → 65535 < t →
            checksum_fold (S n) t = checksum_fold n (Z.land t 0xFFFF + Z.shiftr t 16)) as Hgo.
  { intros n t Ht Hlt. cbn [checksum_fold]. destruct (Z.eqb_spec (Z.shiftr t 16) 0) as [Hz|_].
    - rewrite Z.shiftr_div_pow2 in Hz by lia. assert (0 < t `div` 2 ^ 16) by (apply Z.div_str_pos; simpl; lia). lia.
    - rewrite add32_ok; [done|]. pose proof (fold_step t Ht Hlt). unfold is_uint. lia. }
  intros Hs. unfold CHECKSUM_FOLDS. destruct (decide (s ≤ 65535)) as [|Hgt].
  { exists s. rewrite Hdone by (unfold is_uint in Hs; lia). unfold is_uint in Hs. split_and!; (done || lia). }
  rewrite Hgo by (done || lia). destruct (fold_step s Hs) as [Hm Hb]; [lia|].
  set (s1 := Z.land s 0xFFFF + Z.shiftr s 16) in *. destruct (decide (s1 ≤ 65535)) as [|Hgt1].
  { exists s1. rewrite Hdone by lia. split_and!; (done || lia). }
  assert (is_uint 32 s1) as Hs1 by (unfold is_uint; lia).
  rewrite Hgo by (done || lia). destruct (fold_step s1 Hs1) as [Hm1 Hb1]; [lia|].
  set (s2 := Z.land s1 0xFFFF + Z.shiftr s1 16) in *.
  assert (s2 ≤ 65535) as Hs2.
  { unfold s2. change 0xFFFF with (2 ^ 16 - 1). rewrite land_mask, Z.shiftr_div_pow2 by lia.
    pose proof (Z.div_mod s1 (2 ^ 16)). pose proof (Z.mod_pos_bound s1 (2 ^ 16)).
    assert (s1 `div` 2 ^ 16 < 2) by (apply Z.div_lt_upper_bound; simpl; lia).
    assert (0 ≤ s1 `div` 2 ^ 16) by (apply Z.div_pos; simpl; lia). lia. }
  exists s2. rewrite Hdone by lia. split_and!; [done|lia|lia|congruence|lia|lia].
Qed.

Lemma internet_checksum_ok bytes :
  Forall is_byte bytes → words_sum bytes < 2 ^ 32 →
  ∃ f, internet_checksum bytes = Ret (65535 - f) ∧ 0 ≤ f ≤ 65535 ∧
    f mod 65535 = words_sum bytes mod 65535 ∧ (0 < words_sum bytes → 0 < f) ∧
    (words_sum bytes ≤ 65535 → f = words_sum bytes).
Proof.
  intros Hb Hlt. pose proof (words_sum_nonneg _ Hb).
  destruct (checksum_fold_ok (words_sum bytes)) as (f & Hf & Hr & Hm & Hp & He); [done|].
  exists f. split_and!; [|lia..|done|done|done]. unfold internet_checksum.
  rewrite checksum_words_ok by (done || lia). cbn [mbind outcome_bind]. rewrite Z.add_0_l, Hf.
  cbn [mbind outcome_bind]. f_equal. unfold cast, wrap, unot. symmetry. apply (Z.mod_unique _ _ 65535); lia.
Qed.

(** Writing the checksum into its zeroed field makes the checksum vanish. *)
Lemma checksum_cancels p q c :
  Nat.Even (length p) → Forall is_byte p → Forall is_byte q →
  words_sum (p ++ 0 :: 0 :: q) < 2 ^ 32 - 65535 →
  internet_checksum (p ++ 0 :: 0 :: q) = Ret c →
  is_uint 16 c ∧ internet_checksum (p ++ c `div` 256 :: c mod 256 :: q) = Ret 0.
Proof.
  intros Hev Hp Hq Hs Hc.
  assert (Forall is_byte (p ++ 0 :: 0 :: q)) as Hall by (by apply Forall_app_2; [|repeat constructor]).
  pose proof (words_sum_nonneg _ Hall) as Hnn.
  destruct (internet_checksum_ok (p ++ 0 :: 0 :: q)) as (f & Hf & Hr & Hm & Hpos & He); [done|lia|].
  rewrite Hf in Hc. injection Hc as <-.
  assert (is_uint 16 (65535 - f)) as Hu by (unfold is_uint; lia). split; [done|].
  destruct (u16_bytes_roundtrip _ Hu) as (Hrt & Hb1 & Hb2).
  rewrite words_sum_app in Hs, Hm, Hnn, Hpos, He by done. cbn [words_sum] in Hs, Hm, Hnn, Hpos, He.
  assert (words_sum (p ++ (65535 - f) `div` 256 :: (65535 - f) mod 256 :: q)
          = words_sum p + words_sum q + (65535 - f)) as Hsum
    by (rewrite words_sum_app by done; cbn [words_sum]; rewrite Hrt; lia).
  destruct (internet_checksum_ok (p ++ (65535 - f) `div` 256 :: (65535 - f) mod 256 :: q))
    as (g & -> & Hg & Hgm & Hgp & _); [by apply Forall_app_2; [|rewrite !list.Forall_cons] | |].
  { rewrite Hsum. change (u16_from_be_bytes 0 0) with 0 in Hs. lia. }
  rewrite Hsum in Hgm, Hgp. change (u16_from_be_bytes 0 0) with 0 in *. f_equal.
  assert (g mod 65535 = 0) as Hz.
  { rewrite Hgm. rewrite <- Z.add_mod_idemp_l by lia. rewrite Z.add_0_l in Hm. rewrite <- Hm.
    rewrite Z.add_mod_idemp_l by lia. by replace (f + (65535 - f)) with 65535 by lia. }
  assert (0 < g) by (apply Hgp; destruct (decide (words_sum p + (0 + words_sum q) = 0)); lia).
  apply Z.mod_divide in Hz as [k Hk]; [lia|done].
Qed.

(** The checksum the builders compute over the header makes it verify. *)
Lemma wire_header_checksum tl id fl proto s d :
  is_uint 16 tl → is_uint 16 id → is_uint 16 fl → is_byte proto → is_uint 32 s → is_uint 32 d →
  ∃ c, internet_checksum (wire_header tl id fl proto 0 0 s d) = Ret c ∧ is_uint 16 c ∧
    internet_checksum (wire_header tl id fl proto (c `div` 256) (c mod 256) s d) = Ret 0.
Proof.
  intros Ht Hi Hf Hp Hs Hd. set (h0 := wire_header tl id fl proto 0 0 s d).
  assert (Forall is_byte h0) as Hb by (by apply wire_header_bytes).
  assert (words_sum h0 < 2 ^ 32 - 65535) as Hsum.
  { pose proof (words_sum_bound h0 Hb) as Hbd. change ((len h0 + 1) `div` 2) with 10 in Hbd. lia. }
  destruct (internet_checksum_ok h0) as (f & Hck & _); [done|lia|]. exists (65535 - f). split; [done|].
  set (p := take 10 h0) in *. set (q := drop 12 h0) in *. change h0 with (p ++ 0 :: 0 :: q) in Hb, Hsum, Hck.
  apply Forall_app in Hb as [Hbp Hbq]. apply list.Forall_cons in Hbq as [_ Hbq]. apply list.Forall_cons in Hbq as [_ Hbq].
  by apply (checksum_cancels p q (65535 - f)); [exists 5%nat|..].
Qed.

End checksum_lemmas.
