(* ===== verification/Arp.v ===== *)
(** * The network interface, ARP and ICMP echo (kernel/src/net/mod.rs,
    kernel/src/drivers/net.rs)

    The virtio driver is the class [NetDriver]: it may accept or refuse a frame
    and has a MAC address; [NetDriverLaws] adds the log of accepted frames.
    [NetState] holds what the handlers share: the driver, [ARP_TABLE], the
    address DHCP assigned and the timer tick.  A handler reads the timer as
    one value. *)

From S2P Require Import Prelude Ip.

Definition BROADCAST_MAC : list Z := replicate 6 0xFF.
Definition ZERO_MAC : list Z := replicate 6 0.
Definition ARP_HW_TYPE_ETHERNET : Z := 1.
Definition ARP_PROTO_TYPE_IPV4 : Z := 0x0800.
Definition ARP_HW_LEN : Z := 6.
Definition ARP_PROTO_LEN : Z := 4.
Definition ARP_OP_REQUEST : Z := 1.
Definition ARP_OP_REPLY : Z := 2.
Definition ARP_HEADER_SIZE : Z := 28.
Definition ARP_EXPIRY_TICKS : Z := 6000.
Definition ICMP_TYPE_ECHO_REQUEST : Z := 8.
Definition ICMP_TYPE_ECHO_REPLY : Z := 0.
Definition ICMP_CODE_ZERO : Z := 0.
Definition ICMP_HEADER_SIZE : Z := 8.
Definition IP_PROTO_ICMP : Z := 1.
Definition DEFAULT_LOCAL_IP : Z := 0x0F02000A.

(** ** The driver *)

Definition MAX_FRAME_SIZE : Z := 1518.
Definition MIN_FRAME_SIZE : Z := 14.

Inductive NetError : Type := FrameTooLarge | FrameTooSmall | NotInitialized | TxQueueFull.

Class NetDriver (D : Type) : Type := {
  nic_send : D → list Z → bool * D;
  nic_mac : D → list Z;
}.

(** [wire d] is the list of frames the device has accepted. *)
Class NetDriverLaws (D : Type) `{NetDriver D} : Type := {
  wire : D → list (list Z);
  mac_length d : len (nic_mac d) = 6;
  send_wire d f : wire (nic_send d f).2 = wire d ++ (if (nic_send d f).1 then [f] else []);
  send_mac d f : nic_mac (nic_send d f).2 = nic_mac d;
}.

Definition send_frame {D} `{NetDriver D} (d : D) (frame : list Z) : result Z NetError * D :=
  if MAX_FRAME_SIZE <? len frame then (Err FrameTooLarge, d)
  else if len frame <? MIN_FRAME_SIZE then (Err FrameTooSmall, d)
  else
    let '(ok, d) := nic_send d frame in
    (if ok then Ok (len frame) else Err TxQueueFull, d).

(** ** State *)

Record ArpEntry : Type := mkArpEntry { mac : list Z; timestamp : Z }.

Record ArpHeader : Type := mkArpHeader {
  hw_type : Z;
  proto_type : Z;
  hw_len : Z;
  proto_len : Z;
  opcode : Z;
  sender_mac : list Z;
  sender_ip : Z;
  target_mac : list Z;
  target_ip : Z;
}.

Record IcmpHeader : Type := mkIcmpHeader {
  msg_type : Z;
  icmp_code : Z;
  icmp_checksum : Z;
  icmp_id : Z;
  icmp_seq : Z;
}.

(** [configured] and [ip] are the fields of DHCP's [NetworkState] that
    [local_ip] reads. *)
Record NetState (D : Type) : Type := mkNetState {
  nic : D;
  ARP_TABLE : gmap Z ArpEntry;
  configured : bool;
  assigned_ip : list Z;
  TICKS : Z;
}.
Arguments mkNetState {D} _ _ _ _ _.
Arguments nic {D} _.
Arguments ARP_TABLE {D} _.
Arguments configured {D} _.
Arguments assigned_ip {D} _.
Arguments TICKS {D} _.

Section arp.
Context {D : Type} `{NetDriver D} `{BuildProfile}.
Implicit Types st : NetState D.

Definition with_nic st (d : D) : NetState D :=
  mkNetState d (ARP_TABLE st) (configured st) (assigned_ip st) (TICKS st).
Definition with_arp st (t : gmap Z ArpEntry) : NetState D :=
  mkNetState (nic st) t (configured st) (assigned_ip st) (TICKS st).

Definition local_ip st : Z :=
  if configured st then
    match assigned_ip st with
    | [a; b; c; d] => u32_from_be_bytes a b c d
    | _ => DEFAULT_LOCAL_IP
    end
  else DEFAULT_LOCAL_IP.

(** Handing a frame to the driver; callers only log the result. *)
Definition transmit st (frame : list Z) : NetState D := with_nic st (send_frame (nic st) frame).2.

Definition mac_address st : list Z := nic_mac (nic st).

(** ** ARP *)

Definition parse_arp (bytes : list Z) : outcome (option ArpHeader) :=
  if len bytes <? ARP_HEADER_SIZE then Ret None
  else
    hw ← read_u16_be bytes 0;
    proto ← read_u16_be bytes 2;
    hl ← index bytes 4;
    pl ← index bytes 5;
    op ← read_u16_be bytes 6;
    if negb (hw =? ARP_HW_TYPE_ETHERNET) || negb (proto =? ARP_PROTO_TYPE_IPV4) ||
       negb (hl =? ARP_HW_LEN) || negb (pl =? ARP_PROTO_LEN)
    then Ret None
    else
      smac ← slice bytes 8 14;
      sip ← read_u32_be bytes 14;
      tmac ← slice bytes 18 24;
      tip ← read_u32_be bytes 24;
      Ret (Some (mkArpHeader hw proto hl pl op smac sip tmac tip)).

(** The common shape of [build_arp_reply] and [build_arp_request]. *)
Definition build_arp (op : Z) (smac : list Z) (sip : Z) (tmac : list Z) (tip : Z) : outcome (list Z) :=
  let buf := replicate (Z.to_nat ARP_HEADER_SIZE) 0 in
  buf ← write_u16_be buf 0 ARP_HW_TYPE_ETHERNET;
  buf ← write_u16_be buf 2 ARP_PROTO_TYPE_IPV4;
  buf ← store buf 4 ARP_HW_LEN;
  buf ← store buf 5 ARP_PROTO_LEN;
  buf ← write_u16_be buf 6 op;
  buf ← copy_into buf 8 14 smac;
  buf ← write_u32_be buf 14 sip;
  buf ← copy_into buf 18 24 tmac;
  write_u32_be buf 24 tip.

Definition build_arp_reply (smac : list Z) (sip : Z) (tmac : list Z) (tip : Z) : outcome (list Z) :=
  build_arp ARP_OP_REPLY smac sip tmac tip.

Definition build_arp_request (smac : list Z) (sip tip : Z) : outcome (list Z) :=
  build_arp ARP_OP_REQUEST smac sip ZERO_MAC tip.

Definition handle_arp st (payload : list Z) : outcome (NetState D) :=
  parsed ← parse_arp payload;
  match parsed with
  | None => Ret st
  | Some arp =>
      let st :=
        if sender_ip arp =? 0 then st
        else with_arp st (<[sender_ip arp := mkArpEntry (sender_mac arp) (TICKS st)]> (ARP_TABLE st)) in
      if opcode arp =? ARP_OP_REQUEST then
        if negb (target_ip arp =? local_ip st) then Ret st
        else
          let local_mac := mac_address st in
          reply ← build_arp_reply local_mac (local_ip st) (sender_mac arp) (sender_ip arp);
          frame ← build_ethernet (sender_mac arp) local_mac ETHERTYPE_ARP reply;
          Ret (transmit st frame)
      else Ret st
  end.

Definition send_arp_request st (tip : Z) : outcome (NetState D) :=
  let local_mac := mac_address st in
  request ← build_arp_request local_mac (local_ip st) tip;
  frame ← build_ethernet BROADCAST_MAC local_mac ETHERTYPE_ARP request;
  Ret (transmit st frame).

Definition arp_fresh (now : Z) (e : ArpEntry) : bool :=
  saturating_sub now (timestamp e) <? ARP_EXPIRY_TICKS.

Definition arp_lookup st (ip : Z) : option (list Z) * NetState D :=
  match ARP_TABLE st !! ip with
  | Some entry =>
      if arp_fresh (TICKS st) entry then (Some (mac entry), st)
      else (None, with_arp st (delete ip (ARP_TABLE st)))
  | None => (None, st)
  end.

Definition expire_arp_entries st : NetState D :=
  with_arp st (filter (λ p, arp_fresh (TICKS st) p.2 = true) (ARP_TABLE st)).

(** ** ICMP echo *)

Definition parse_icmp (bytes : list Z) : outcome (option IcmpHeader) :=
  if len bytes <? ICMP_HEADER_SIZE then Ret None
  else
    ty ← index bytes 0;
    code ← index bytes 1;
    c ← read_u16_be bytes 2;
    id ← read_u16_be bytes 4;
    sq ← read_u16_be bytes 6;
    Ret (Some (mkIcmpHeader ty code c id sq)).

Definition build_echo_reply (icmp_payload : list Z) : outcome (list Z) :=
  let reply := replicate (length icmp_payload) 0 in
  reply ← store reply 0 ICMP_TYPE_ECHO_REPLY;
  reply ← store reply 1 ICMP_CODE_ZERO;
  reply ← store reply 2 0;
  reply ← store reply 3 0;
  rest ← slice icmp_payload 4 (len icmp_payload);
  reply ← copy_into reply 4 (len reply) rest;
  checksum ← internet_checksum reply;
  write_u16_be reply 2 checksum.

(** A 20-byte IPv4 header without options: fields, then its checksum. *)
Definition build_ipv4_header (total : Z) (flags_byte proto s d : Z) : outcome (list Z) :=
  let h := replicate (Z.to_nat IP_HEADER_MIN_SIZE) 0 in
  h ← store h 0 (Z.lor (Z.shiftl IP_VERSION_4 4) IP_IHL_NO_OPTIONS);
  h ← write_u16_be h 2 (cast 16 total);
  h ← store h 6 flags_byte;
  h ← store h 8 IP_DEFAULT_TTL;
  h ← store h 9 proto;
  h ← write_u32_be h 12 s;
  h ← write_u32_be h 16 d;
  checksum ← internet_checksum h;
  write_u16_be h 10 checksum.

Definition handle_icmp st (eth_src : list Z) (src : Z) (icmp_payload : list Z) : outcome (NetState D) :=
  parsed ← parse_icmp icmp_payload;
  match parsed with
  | None => Ret st
  | Some icmp =>
      if negb (msg_type icmp =? ICMP_TYPE_ECHO_REQUEST) then Ret st
      else
        reply ← build_echo_reply icmp_payload;
        header ← build_ipv4_header (IP_HEADER_MIN_SIZE + len reply) 0 IP_PROTO_ICMP (local_ip st) src;
        frame ← build_ethernet eth_src (mac_address st) ETHERTYPE_IPV4 (header ++ reply);
        Ret (transmit st frame)
  end.

End arp.

(** ** Messages on the wire *)

Definition arp_bytes (op : Z) (smac : list Z) (sip : Z) (tmac : list Z) (tip : Z) : list Z :=
  [0; 1; 8; 0; 6; 4] ++ u16_to_be_bytes op ++ smac ++ u32_to_be_bytes sip ++ tmac ++ u32_to_be_bytes tip.

Lemma build_arp_ok op smac sip tmac tip :
  len smac = 6 → len tmac = 6 → build_arp op smac sip tmac tip = Ret (arp_bytes op smac sip tmac tip).
Proof.
  by intros (? & ? & ? & ? & ? & ? & ->)%six_bytes (? & ? & ? & ? & ? & ? & ->)%six_bytes.
Qed.

Lemma length_arp_bytes op smac sip tmac tip :
  len smac = 6 → len tmac = 6 → len (arp_bytes op smac sip tmac tip) = 28.
Proof. unfold len, arp_bytes. intros. rewrite !length_app. simpl. lia. Qed.

Lemma length_frame dst src et payload :
  len dst = 6 → len src = 6 → len (dst ++ src ++ u16_to_be_bytes et ++ payload) = 14 + len payload.
Proof. unfold len. intros. rewrite !length_app. simpl. lia. Qed.

Lemma parse_arp_bytes op smac sip tmac tip :
  len smac = 6 → len tmac = 6 → is_uint 16 op → is_uint 32 sip → is_uint 32 tip →
  parse_arp (arp_bytes op smac sip tmac tip) =
  Ret (Some (mkArpHeader 1 0x0800 6 4 op smac sip tmac tip)).
Proof.
  intros (? & ? & ? & ? & ? & ? & ->)%six_bytes (? & ? & ? & ? & ? & ? & ->)%six_bytes Hop Hs Ht.
  pose proof (u16_bytes_roundtrip op Hop) as (Ho & _). pose proof (u32_bytes_roundtrip sip Hs) as Hs'.
  pose proof (u32_bytes_roundtrip tip Ht) as Ht'.
  change (parse_arp _) with (@Ret (option ArpHeader) (Some (mkArpHeader 1 0x0800 6 4
    (u16_from_be_bytes (op `div` 256) (op mod 256)) [x; x0; x1; x2; x3; x4]
    (u32_from_be_bytes (sip `div` 2 ^ 24) ((sip `div` 2 ^ 16) mod 256) ((sip `div` 2 ^ 8) mod 256) (sip mod 256))
    [x5; x6; x7; x8; x9; x10]
    (u32_from_be_bytes (tip `div` 2 ^ 24) ((tip `div` 2 ^ 16) mod 256) ((tip `div` 2 ^ 8) mod 256) (tip mod 256))))).
  by rewrite Ho, Hs', Ht'.
Qed.

(** ** Properties *)

#[global] Arguments mac_address : simpl never.
#[global] Arguments local_ip : simpl never.
#[global] Arguments transmit : simpl never.

Section arp_proofs.
Context {D : Type} `{NetDriverLaws D} `{BuildProfile}.
Implicit Types st a b : NetState D.

Definition accepting st : Prop := ∀ f, (nic_send (nic st) f).1 = true.

(** The address in use is a usable 32-bit address. *)
Definition addressed st : Prop := is_uint 32 (local_ip st) ∧ local_ip st ≠ 0.

Lemma local_ip_with_arp st t : local_ip (with_arp st t) = local_ip st.
Proof. done. Qed.

Lemma transmit_accepted st frame :
  accepting st → MIN_FRAME_SIZE ≤ len frame ≤ MAX_FRAME_SIZE →
  wire (nic (transmit st frame)) = wire (nic st) ++ [frame].
Proof.
  intros Hok Hlen. unfold transmit, send_frame. destruct (Z.ltb_spec MAX_FRAME_SIZE (len frame)); [lia|].
  destruct (Z.ltb_spec (len frame) MIN_FRAME_SIZE); [lia|]. pose proof (send_wire (nic st) frame) as Hw.
  specialize (Hok frame). destruct (nic_send (nic st) frame) as [ok d]. simpl in *. by rewrite Hw, Hok.
Qed.

Lemma transmit_keeps st frame :
  ARP_TABLE (transmit st frame) = ARP_TABLE st ∧ TICKS (transmit st frame) = TICKS st ∧
  local_ip (transmit st frame) = local_ip st ∧ mac_address (transmit st frame) = mac_address st.
Proof.
  split_and!; [done..|]. unfold transmit, mac_address, send_frame. destruct (_ <? _); [done|].
  destruct (_ <? _); [done|]. pose proof (send_mac (nic st) frame) as Hm.
  by destruct (nic_send (nic st) frame) as [ok d].
Qed.

Lemma arp_lookup_learned st ip m :
  ARP_TABLE st !! ip = Some (mkArpEntry m (TICKS st)) → (arp_lookup st ip).1 = Some m.
Proof.
  intros Hl. unfold arp_lookup. rewrite Hl. unfold arp_fresh, saturating_sub. simpl. by rewrite Z.sub_diag.
Qed.

(** An ARP packet from a host with an address is learned; a request for this
    host is answered. *)
Lemma handle_arp_learns st op smac sip tmac tip :
  len smac = 6 → len tmac = 6 → is_uint 16 op → is_uint 32 sip → is_uint 32 tip → sip ≠ 0 →
  let st1 := with_arp st (<[sip := mkArpEntry smac (TICKS st)]> (ARP_TABLE st)) in
  handle_arp st (arp_bytes op smac sip tmac tip) =
  if (op =? ARP_OP_REQUEST) && (tip =? local_ip st)
  then Ret (transmit st1 (smac ++ mac_address st ++ u16_to_be_bytes ETHERTYPE_ARP ++
                          arp_bytes ARP_OP_REPLY (mac_address st) (local_ip st) smac sip))
  else Ret st1.
Proof.
  intros Hsm Htm Hop Hs Ht Hne st1. unfold handle_arp. rewrite parse_arp_bytes by done. cbn [mbind outcome_bind].
  simpl sender_ip. destruct (Z.eqb_spec sip 0); [done|]. simpl opcode. destruct (op =? ARP_OP_REQUEST); [|done].
  cbn [andb]. simpl target_ip. rewrite local_ip_with_arp. destruct (Z.eqb_spec tip (local_ip st)); [|done].
  simpl sender_mac. unfold build_arp_reply. rewrite build_arp_ok by (apply mac_length || done).
  cbn [mbind outcome_bind]. rewrite build_ethernet_ok by (apply mac_length || done). done.
Qed.

(** address resolution works between any two hosts running this code: the
    request host [a] broadcasts is answered by host [b] with one frame to [a];
    after [b] handles the request and [a] the answer, each has the other's
    hardware address under the other's IP address. *)
Theorem arp_resolution a b :
  accepting a → accepting b → addressed a → addressed b →
  ∃ req rep a1 b1 a2,
    send_arp_request a (local_ip b) = Ret a1 ∧
    wire (nic a1) = wire (nic a) ++ [BROADCAST_MAC ++ mac_address a ++ u16_to_be_bytes ETHERTYPE_ARP ++ req] ∧
    handle_arp b req = Ret b1 ∧
    wire (nic b1) = wire (nic b) ++ [mac_address a ++ mac_address b ++ u16_to_be_bytes ETHERTYPE_ARP ++ rep] ∧
    handle_arp a1 rep = Ret a2 ∧
    (arp_lookup a2 (local_ip b)).1 = Some (mac_address b) ∧
    (arp_lookup b1 (local_ip a)).1 = Some (mac_address a).
Proof.
  intros Hoka Hokb [Hua Hna] [Hub Hnb].
  assert (len (mac_address a) = 6 ∧ len (mac_address b) = 6) as [Hma Hmb] by (split; apply mac_length).
  set (req := arp_bytes ARP_OP_REQUEST (mac_address a) (local_ip a) ZERO_MAC (local_ip b)).
  set (rep := arp_bytes ARP_OP_REPLY (mac_address b) (local_ip b) (mac_address a) (local_ip a)).
  set (f := BROADCAST_MAC ++ mac_address a ++ u16_to_be_bytes ETHERTYPE_ARP ++ req).
  exists req, rep, (transmit a f). eexists _, _. split_and!.
  - unfold send_arp_request, build_arp_request. rewrite build_arp_ok by done. cbn [mbind outcome_bind].
    by rewrite build_ethernet_ok by done.
  - apply transmit_accepted; [done|]. unfold f, req. by rewrite length_frame, length_arp_bytes by done.
  - unfold req. rewrite handle_arp_learns by done. rewrite !Z.eqb_refl. reflexivity.
  - rewrite transmit_accepted; [done|exact Hokb|].
    by rewrite length_frame, length_arp_bytes by done.
  - unfold rep. rewrite handle_arp_learns by done. done.
  - apply arp_lookup_learned, lookup_insert_eq.
  - apply arp_lookup_learned, lookup_insert_eq.
Qed.

(** ** Echo *)

Lemma build_ipv4_header_ok total fl proto s d :
  is_uint 16 total → is_byte fl → is_byte proto → is_uint 32 s → is_uint 32 d →
  ∃ c1 c2, build_ipv4_header total fl proto s d = Ret (wire_header total 0 (fl * 256) proto c1 c2 s d) ∧
    internet_checksum (wire_header total 0 (fl * 256) proto c1 c2 s d) = Ret 0.
Proof.
  intros Ht Hfl Hp Hs Hd. assert (is_uint 16 (fl * 256)) as Hf by (unfold is_byte, is_uint in *; lia).
  destruct (wire_header_checksum total 0 (fl * 256) proto s d) as (c & Hck & Hc & Hz); [done..|].
  exists (c `div` 256), (c mod 256). split; [|done].
  assert (cast 16 total = total) as Hcast by (by apply Z.mod_small).
  set (h := [0x45; 0] ++ u16_to_be_bytes (cast 16 total) ++ [0; 0; fl; 0; IP_DEFAULT_TTL; proto; 0; 0] ++
            u32_to_be_bytes s ++ u32_to_be_bytes d).
  change (build_ipv4_header total fl proto s d) with (ck ← internet_checksum h; write_u16_be h 10 ck).
  assert (h = wire_header total 0 (fl * 256) proto 0 0 s d) as ->.
  { unfold h, wire_header. rewrite Hcast. unfold u16_to_be_bytes. by rewrite Z.div_mul, Z_mod_mult. }
  rewrite Hck. reflexivity.
Qed.

Lemma build_echo_reply_ok ty code c1 c2 rest :
  Forall is_byte rest → len rest ≤ 1500 →
  ∃ k1 k2, build_echo_reply ([ty; code; c1; c2] ++ rest) = Ret ([0; 0; k1; k2] ++ rest) ∧
    internet_checksum ([0; 0; k1; k2] ++ rest) = Ret 0.
Proof.
  intros Hb Hl. set (z := [0; 0] ++ 0 :: 0 :: rest).
  assert (build_echo_reply ([ty; code; c1; c2] ++ rest) = (ck ← internet_checksum z; write_u16_be z 2 ck)) as ->.
  { unfold build_echo_reply. rewrite slice_tail by (unfold len; simpl; lia).
    change (replicate _ 0) with (replicate 4 0 ++ replicate (length rest) 0).
    repeat (rewrite store_app_l by done; cbn [mbind outcome_bind]).
    rewrite copy_into_tail; [done|done|]. unfold len. simpl. rewrite length_replicate, drop_0. lia. }
  assert (words_sum z < 2 ^ 32 - 65535) as Hsum.
  { assert (Forall is_byte z) as Hz by (unfold z; simpl; repeat constructor; done).
    pose proof (words_sum_bound z Hz) as Hbd. assert ((len z + 1) `div` 2 ≤ 1000); [|lia].
    apply Z.div_le_upper_bound; [lia|]. unfold z, len in *. simpl. lia. }
  destruct (internet_checksum_ok z) as (f & Hck & _); [unfold z; simpl; repeat constructor; done|lia|].
  rewrite Hck. destruct (checksum_cancels [0; 0] rest (65535 - f)) as [Hc Hz];
    [by exists 1%nat|repeat constructor; done|done|done|done|].
  exists ((65535 - f) `div` 256), ((65535 - f) mod 256). split; [|done].
  cbn [mbind outcome_bind]. change z with ([0; 0; 0; 0] ++ rest). by rewrite write_u16_be_app.
Qed.

Lemma parse_icmp_type ty code c1 c2 rest :
  4 ≤ len rest → ∃ h, parse_icmp ([ty; code; c1; c2] ++ rest) = Ret (Some h) ∧ msg_type h = ty.
Proof.
  intros Hl. unfold len in Hl. do 4 (destruct rest as [|? rest]; [simpl in Hl; lia|]).
  unfold parse_icmp, ICMP_HEADER_SIZE, len. cbn [app length].
  match goal with |- context [?n <? 8] => destruct (Z.ltb_spec n 8); [lia|] end.
  eexists. split; [reflexivity|done].
Qed.

(** a ping is answered. For an echo request of any content that fits a
    frame, exactly one frame goes out to the asker's hardware address; its IPv4
    header comes from this host, goes to the asker and verifies, and its body
    is an echo reply that verifies and carries the identifier, sequence number
    and data of the request unchanged. *)
Theorem echo_reply st eth_src src code c1 c2 rest :
  accepting st → addressed st → len eth_src = 6 → is_uint 32 src → Forall is_byte rest → 4 ≤ len rest ≤ 1476 →
  ∃ st' hdr k1 k2,
    let body := [ICMP_TYPE_ECHO_REPLY; ICMP_CODE_ZERO; k1; k2] ++ rest in
    handle_icmp st eth_src src ([ICMP_TYPE_ECHO_REQUEST; code; c1; c2] ++ rest) = Ret st' ∧
    wire (nic st') = wire (nic st) ++ [eth_src ++ mac_address st ++ u16_to_be_bytes ETHERTYPE_IPV4 ++ hdr ++ body] ∧
    ARP_TABLE st' = ARP_TABLE st ∧
    parse_ipv4 (hdr ++ body) = Ret (Some (mkIpv4Header IP_PROTO_ICMP (local_ip st) src (len (hdr ++ body)) 20)) ∧
    len hdr = 20 ∧ internet_checksum hdr = Ret 0 ∧ internet_checksum body = Ret 0.
Proof.
  intros Hok [Hip _] He Hs Hb Hl.
  destruct (build_echo_reply_ok ICMP_TYPE_ECHO_REQUEST code c1 c2 rest) as (k1 & k2 & Hr & Hck); [done|lia|].
  set (body := [ICMP_TYPE_ECHO_REPLY; ICMP_CODE_ZERO; k1; k2] ++ rest).
  change ([0; 0; k1; k2] ++ rest) with body in Hr, Hck.
  assert (len body = 4 + len rest) as Hlb by (unfold body, len; rewrite length_app; simpl; lia).
  destruct (build_ipv4_header_ok (20 + len body) 0 IP_PROTO_ICMP (local_ip st) src)
    as (h1 & h2 & Hh & Hhc); [unfold is_uint; lia|done..|].
  set (hdr := wire_header _ _ _ _ _ _ _ _) in *.
  assert (len (hdr ++ body) = 20 + len body) as Hlp by (unfold len; rewrite length_app; unfold hdr; rewrite length_wire_header; lia).
  exists (transmit st (eth_src ++ mac_address st ++ u16_to_be_bytes ETHERTYPE_IPV4 ++ hdr ++ body)), hdr, k1, k2.
  split_and!; [| |done| |done|done|done].
  - unfold handle_icmp. destruct (parse_icmp_type ICMP_TYPE_ECHO_REQUEST code c1 c2 rest) as (h & -> & Hty); [lia|].
    cbn [mbind outcome_bind]. rewrite Hty, Hr. cbn [negb Z.eqb mbind outcome_bind].
    unfold IP_HEADER_MIN_SIZE. change (negb _) with false. cbn [mbind outcome_bind]. rewrite Hh.
    cbn [mbind outcome_bind]. by rewrite build_ethernet_ok by (done || apply mac_length).
  - apply transmit_accepted; [done|]. rewrite length_frame by (done || apply mac_length).
    fold body. unfold MIN_FRAME_SIZE, MAX_FRAME_SIZE. lia.
  - fold body. rewrite Hlp. apply parse_ipv4_wire; [unfold is_uint; lia|done..].
Qed.

End arp_proofs.

(** ** A driver for concrete runs *)

(** A device that accepts every frame. *)
Record MemNic : Type := mkMemNic { mem_mac : list Z; mem_wire : list (list Z) }.

#[export] Instance MemNic_driver : NetDriver MemNic := {|
  nic_send d f := (true, mkMemNic (mem_mac d) (mem_wire d ++ [f]));
  nic_mac d := match mem_mac d with [a; b; c; d; e; f] => [a; b; c; d; e; f] | _ => ZERO_MAC end;
|}.

#[export] Instance MemNic_laws : NetDriverLaws MemNic.
Proof.
  refine {| wire := mem_wire |}; [|done|done].
  intros [m w]. simpl. do 7 (destruct m as [|? m]; [done|]). done.
Defined.

Definition host (last : Z) : NetState MemNic :=
  mkNetState (mkMemNic [0x52; 0x54; 0; 0; 0; last] []) ∅ true [10; 0; 2; last] 100.

Lemma arp_resolution_witness :
  accepting (host 1) ∧ addressed (host 1) ∧ addressed (host 2) ∧
  ∃ req rep a1 b1 a2,
    send_arp_request (host 1) (local_ip (host 2)) = Ret a1 ∧ handle_arp (host 2) req = Ret b1 ∧
    handle_arp a1 rep = Ret a2 ∧ (arp_lookup a2 (local_ip (host 2))).1 = Some [0x52; 0x54; 0; 0; 0; 2].
Proof.
  split_and!; [done..|].
  destruct (arp_resolution (host 1) (host 2)) as (req & rep & a1 & b1 & a2 & Ha & _ & Hb & _ & Hc & Hd & _); [done..|].
  exists req, rep, a1, b1, a2. split_and!; [exact Ha|exact Hb|exact Hc|exact Hd].
Defined.

Lemma echo_reply_witness :
  ∃ st', handle_icmp (H0 := dev_profile) (host 1) [0x52; 0x54; 0; 0; 0; 2] 0x0A000202
           ([8; 0; 0; 0] ++ [1; 2; 0; 7; 104; 105; 33]) = Ret st' ∧
    length (wire (nic st')) = 1%nat.
Proof.
  destruct (echo_reply (H1 := dev_profile) (host 1) [0x52; 0x54; 0; 0; 0; 2] 0x0A000202 0 0 0 [1; 2; 0; 7; 104; 105; 33])
    as (st' & hdr & k1 & k2 & Hh & Hw & _); [done|done|done|done|repeat constructor; done|done|].
  exists st'. split; [exact Hh|]. rewrite Hw. reflexivity.
Defined.
