(* ===== verification/Route.v ===== *)
(** * The IPv4 routing table (kernel/src/net/mod.rs)

    [ROUTING_TABLE] is a vector in insertion order.  [route_lookup] is shown
    to be longest prefix match with ties broken by metric and then by
    insertion order. *)

From S2P Require Import Prelude.

Record RouteEntry : Type := mkRoute {
  dest : Z;
  mask : Z;
  gateway : Z;
  interface : Z;
  metric : Z;
}.

Definition same_net (d m : Z) (e : RouteEntry) : bool := (dest e =? d) && (mask e =? m).

(** [table.iter_mut().find(..)] and the update of the entry found. *)
Fixpoint replace_route (t : list RouteEntry) (d m g i mt : Z) : option (list RouteEntry) :=
  match t with
  | [] => None
  | e :: t =>
      if same_net d m e then Some (mkRoute (dest e) (mask e) g i mt :: t)
      else cons e <$> replace_route t d m g i mt
  end.

Definition route_add (t : list RouteEntry) (d m g i mt : Z) : list RouteEntry :=
  match replace_route t d m g i mt with
  | Some t => t
  | None => t ++ [mkRoute d m g i mt]
  end.

Definition route_remove (t : list RouteEntry) (d m : Z) : bool * list RouteEntry :=
  let t' := filter (λ e, same_net d m e = false) t in
  (len t' <? len t, t').

Definition route_delete (t : list RouteEntry) (d m : Z) : bool * list RouteEntry := route_remove t d m.

Definition route_matches (ip : Z) (e : RouteEntry) : bool :=
  Z.land ip (mask e) =? Z.land (dest e) (mask e).

(** The loop, with [best] as the entry it was taken from. *)
Fixpoint lookup_loop (ip : Z) (t : list RouteEntry) (best : option RouteEntry) : option RouteEntry :=
  match t with
  | [] => best
  | e :: t =>
      let best :=
        if route_matches ip e then
          match best with
          | None => Some e
          | Some b =>
              if mask b <? mask e then Some e
              else if (mask e =? mask b) && (metric e <? metric b) then Some e
              else Some b
          end
        else best in
      lookup_loop ip t best
  end.

Definition route_lookup (t : list RouteEntry) (ip : Z) : option (Z * Z) :=
  (λ e, (gateway e, interface e)) <$> lookup_loop ip t None.

Definition LOOPBACK_NETWORK : Z := 0x7F000000.
Definition LOOPBACK_MASK : Z := 0xFF000000.
Definition LOOPBACK_INTERFACE : Z := 127.

Definition init_routing_table (t : list RouteEntry) (local_ip netmask gw iface : Z) : list RouteEntry :=
  let t := route_add t LOOPBACK_NETWORK LOOPBACK_MASK 0 LOOPBACK_INTERFACE 0 in
  let network := Z.land local_ip netmask in
  let t := route_add t network netmask 0 iface 0 in
  if gw =? 0 then t else route_add t 0 0 gw iface 2.

(** ** Longest prefix match *)

(** [e] at position [i] is preferred to [e'] at position [j]. *)
Definition preferred (i : nat) (e : RouteEntry) (j : nat) (e' : RouteEntry) : Prop :=
  mask e' < mask e ∨
  (mask e' = mask e ∧ (metric e < metric e' ∨ (metric e = metric e' ∧ (i ≤ j)%nat))).

Definition best_route (ip : Z) (t : list RouteEntry) (r : option RouteEntry) : Prop :=
  match r with
  | None => ∀ j e', t !! j = Some e' → route_matches ip e' = false
  | Some e => ∃ i, t !! i = Some e ∧ route_matches ip e = true ∧
      ∀ j e', t !! j = Some e' → route_matches ip e' = true → preferred i e j e'
  end.

Lemma best_route_snoc ip t b e :
  best_route ip t b →
  best_route ip (t ++ [e])
    (if route_matches ip e then
       match b with
       | None => Some e
       | Some b => if mask b <? mask e then Some e
                   else if (mask e =? mask b) && (metric e <? metric b) then Some e else Some b
       end
     else b).
Proof.
  assert (∀ j x, (t ++ [e]) !! j = Some x → t !! j = Some x ∨ (j = length t ∧ x = e)) as Hin.
  { intros j x [?|(? & Hx)]%lookup_app_Some; [by left|]. apply list_lookup_singleton_Some in Hx. right. split; [lia|naive_solver]. }
  intros Hb. destruct (route_matches ip e) eqn:He.
  - assert ((∀ j x, t !! j = Some x → route_matches ip x = true → preferred (length t) e j x) →
            best_route ip (t ++ [e]) (Some e)) as Hnew.
    { intros Hall. exists (length t). split_and!; [by rewrite list_lookup_middle|done|].
      intros j x [Hx|[-> ->]]%Hin Hm; [by apply Hall|]. right. split; [done|]. right. split; lia. }
    destruct b as [b|]; [|apply Hnew; intros j x Hx Hm; by rewrite (Hb j x Hx) in Hm].
    destruct Hb as (i & Hi & Hbm & Hall). pose proof (lookup_lt_Some _ _ _ Hi) as Hlt. unfold preferred in *.
    destruct (Z.ltb_spec (mask b) (mask e)) as [Hmk|Hmk]; [|destruct (_ && _) eqn:Hc].
    + apply Hnew. intros j x Hx Hm. destruct (Hall j x Hx Hm); lia.
    + apply andb_true_iff in Hc as [?%Z.eqb_eq ?%Z.ltb_lt]. apply Hnew. intros j x Hx Hm.
      destruct (Hall j x Hx Hm); lia.
    + exists i. split_and!; [by apply lookup_app_l_Some|done|]. intros j x [Hx|[-> ->]]%Hin Hm; [by apply Hall|].
      unfold preferred. apply andb_false_iff in Hc as [?%Z.eqb_neq|?%Z.ltb_ge]; lia.
  - destruct b as [b|].
    + destruct Hb as (i & Hi & Hbm & Hall). exists i. split_and!; [by apply lookup_app_l_Some|done|].
      intros j x [Hx|[-> ->]]%Hin Hm; [by apply Hall|congruence].
    + intros j x [Hx|[-> ->]]%Hin; [by eapply Hb|done].
Qed.

Lemma lookup_loop_best ip t done b :
  best_route ip done b → best_route ip (done ++ t) (lookup_loop ip t b).
Proof.
  revert done b. induction t as [|e t IH]; intros done b Hb; simpl; [by rewrite app_nil_r|].
  replace (done ++ e :: t) with ((done ++ [e]) ++ t) by (by rewrite <- app_assoc).
  apply IH. by apply best_route_snoc.
Qed.

(** The mask of a prefix length. *)
Definition prefix_mask (p : Z) : Z := 2 ^ 32 - 2 ^ (32 - p).

Lemma prefix_mask_lt p q : 0 ≤ p ≤ 32 → 0 ≤ q ≤ 32 → prefix_mask p < prefix_mask q ↔ p < q.
Proof.
  intros Hp Hq. unfold prefix_mask. rewrite <- Z.sub_lt_mono_l, <- Z.pow_lt_mono_r_iff by lia. lia.
Qed.

(** C23: [route_lookup] is longest prefix match. On a table of contiguous masks
    it finds nothing exactly when no route matches, and otherwise the gateway
    and interface of the matching route with the longest prefix, the lowest
    metric among those, and the earliest insertion among those. *)
Theorem route_lookup_lpm t ip :
  (∀ e, e ∈ t → ∃ p, 0 ≤ p ≤ 32 ∧ mask e = prefix_mask p) →
  match route_lookup t ip with
  | None => ∀ e, e ∈ t → route_matches ip e = false
  | Some (g, i) => ∃ n e p,
      t !! n = Some e ∧ route_matches ip e = true ∧ gateway e = g ∧ interface e = i ∧ mask e = prefix_mask p ∧
      ∀ j e' q, t !! j = Some e' → route_matches ip e' = true → 0 ≤ q ≤ 32 → mask e' = prefix_mask q →
        q < p ∨ (q = p ∧ (metric e < metric e' ∨ (metric e = metric e' ∧ (n ≤ j)%nat)))
  end.
Proof.
  intros Hm. pose proof (lookup_loop_best ip t [] None ltac:(done)) as Hb. simpl in Hb. unfold route_lookup.
  destruct (lookup_loop ip t None) as [e|]; simpl.
  - destruct Hb as (n & Hn & He & Hall). destruct (Hm e) as (p & Hp & Hep); [by eapply list_elem_of_lookup_2|].
    exists n, e, p. split_and!; [done..|]. intros j e' q Hj Hmt Hq Heq.
    destruct (Hall j e' Hj Hmt) as [Hlt|[Hmk Hrest]].
    + left. rewrite Heq, Hep in Hlt. by apply prefix_mask_lt.
    + right. split; [|done]. rewrite Heq, Hep in Hmk.
      pose proof (prefix_mask_lt p q Hp Hq). pose proof (prefix_mask_lt q p Hq Hp). lia.
  - intros e (j & Hj)%list_elem_of_lookup_1. by eapply Hb.
Qed.

(** ** The table built at boot *)

Definition is_loopback (ip : Z) : bool := Z.land ip LOOPBACK_MASK =? LOOPBACK_NETWORK.

Lemma prefix_mask_loopback p : 8 ≤ p ≤ 32 → Z.land (prefix_mask p) LOOPBACK_MASK = LOOPBACK_MASK.
Proof.
  intros Hp. replace p with (8 + Z.of_nat (Z.to_nat (p - 8))) by lia.
  assert (Z.to_nat (p - 8) ≤ 24)%nat as Hk by lia. revert Hk. generalize (Z.to_nat (p - 8)). intros k Hk.
  do 25 (destruct k as [|k]; [reflexivity|]). lia.
Qed.

Lemma route_add_new t d m g i mt :
  (∀ e, e ∈ t → same_net d m e = false) → route_add t d m g i mt = t ++ [mkRoute d m g i mt].
Proof.
  intros Hno. unfold route_add. assert (replace_route t d m g i mt = None) as ->; [|done].
  induction t as [|e t IH]; [done|]. simpl. rewrite Hno by set_solver. rewrite IH; [done|set_solver].
Qed.

(** The three routes of a configured host, in order. *)
Lemma init_routing_table_entries local p gw iface :
  1 ≤ p ≤ 32 → is_loopback local = false → gw ≠ 0 →
  init_routing_table [] local (prefix_mask p) gw iface =
  [mkRoute LOOPBACK_NETWORK LOOPBACK_MASK 0 LOOPBACK_INTERFACE 0;
   mkRoute (Z.land local (prefix_mask p)) (prefix_mask p) 0 iface 0; mkRoute 0 0 gw iface 2].
Proof.
  intros Hp Hl Hg. unfold init_routing_table. rewrite (proj2 (Z.eqb_neq gw 0) Hg).
  rewrite (route_add_new []); [|intros e He; by apply elem_of_nil in He].
  rewrite (route_add_new ([] ++ _)); [rewrite route_add_new; [done|]|].
  - pose proof (prefix_mask_lt 0 p). change (prefix_mask 0) with 0 in *.
    intros e [He|He]%elem_of_app; apply list_elem_of_singleton in He as ->; apply andb_false_iff; right; [done|].
    apply Z.eqb_neq. cbn [mask]. lia.
  - intros e He. apply list_elem_of_singleton in He as ->. apply andb_false_iff. cbn [dest mask].
    destruct (Z.eqb_spec LOOPBACK_MASK (prefix_mask p)) as [Heq|]; [left|by right]. rewrite <- Heq.
    by rewrite Z.eqb_sym.
Qed.

(** the table built from a DHCP lease routes as intended: loopback
    addresses to the loopback interface, hosts of the leased subnet directly,
    everything else through the gateway. *)
Theorem init_routes local p gw iface ip :
  1 ≤ p ≤ 32 → is_loopback local = false → gw ≠ 0 →
  route_lookup (init_routing_table [] local (prefix_mask p) gw iface) ip =
  if is_loopback ip then Some (0, LOOPBACK_INTERFACE)
  else if Z.land ip (prefix_mask p) =? Z.land local (prefix_mask p) then Some (0, iface)
  else Some (gw, iface).
Proof.
  intros Hp Hl Hg. rewrite init_routing_table_entries by done. set (m := prefix_mask p).
  set (lo := mkRoute LOOPBACK_NETWORK _ _ _ _). set (net := mkRoute (Z.land local m) _ _ _ _). set (def := mkRoute 0 _ _ _ _).
  assert (0 < m) as Hpos.
  { pose proof (prefix_mask_lt 0 p). change (prefix_mask 0) with 0 in *. unfold m. lia. }
  assert (route_matches ip lo = is_loopback ip) as M1 by done.
  assert (route_matches ip net = (Z.land ip m =? Z.land local m)) as M2.
  { unfold route_matches. cbn [dest mask net]. by rewrite <- (Z.land_assoc local), Z.land_diag. }
  assert (route_matches ip def = true) as M3 by (unfold route_matches; cbn [dest mask def]; by rewrite !Z.land_0_r).
  unfold route_lookup. cbn [lookup_loop]. rewrite M1, M2, M3. destruct (is_loopback ip) eqn:Hi.
  - destruct (Z.eqb_spec (Z.land ip m) (Z.land local m)) as [Heq|]; [|done]. cbn [mask lo net].
    destruct (Z.ltb_spec LOOPBACK_MASK m) as [Hlt|Hge]; [|by cbn [metric lo net]; rewrite andb_false_r].
    exfalso. assert (8 ≤ p) as H8.
    { apply Z.le_ngt. intros ?. change LOOPBACK_MASK with (prefix_mask 8) in Hlt. apply (prefix_mask_lt 8 p) in Hlt; lia. }
    apply (f_equal (λ x, Z.land x LOOPBACK_MASK)) in Heq. unfold m in Heq.
    rewrite <- !Z.land_assoc, prefix_mask_loopback in Heq by lia. unfold is_loopback in *. rewrite Heq in Hi. congruence.
  - destruct (_ =? _); [|done]. cbn [mask def net]. rewrite (proj2 (Z.ltb_ge m 0)), (proj2 (Z.eqb_neq 0 m)) by lia. done.
Qed.

Lemma route_lookup_lpm_witness :
  let t := [mkRoute 0 0 1 0 2; mkRoute 0x0A000000 (prefix_mask 8) 0 1 0; mkRoute 0x0A000200 (prefix_mask 24) 0 2 0] in
  route_lookup t 0x0A00020F = Some (0, 2) ∧
  ∃ n e p, t !! n = Some e ∧ gateway e = 0 ∧ interface e = 2 ∧ mask e = prefix_mask p.
Proof.
  set (t := [_; _; _]). split; [reflexivity|].
  assert (∀ e, e ∈ t → ∃ p, 0 ≤ p ≤ 32 ∧ mask e = prefix_mask p) as Hm.
  { intros e He. unfold t in He. rewrite !elem_of_cons, elem_of_nil in He.
    destruct He as [->|[->|[->|[]]]]; [exists 0|exists 8|exists 24]; done. }
  destruct (route_lookup_lpm t 0x0A00020F Hm) as (n & e & p & Hn & _ & Hg & Hi & Hmk & _).
  exists n, e, p. split_and!; [exact Hn|exact Hg|exact Hi|exact Hmk].
Defined.

Lemma init_routes_witness :
  route_lookup (init_routing_table [] 0x0A00020F (prefix_mask 24) 0x0A000202 0) 0x08080808 = Some (0x0A000202, 0).
Proof. rewrite (init_routes 0x0A00020F 24 0x0A000202 0 0x08080808); [reflexivity|lia|reflexivity|lia]. Defined.
