(* ===== verification/TcpSegment.v ===== *)
(** * TCP segments (kernel/src/net/tcp.rs: headers, checksum, frames)

    Building a segment and wrapping it into IPv4 and Ethernet, parsing it back,
    and the proof that the two are inverse and that both checksums verify. *)

From S2P Require Import Prelude Ip Arp.

Definition TCP_HEADER_MIN_SIZE : Z := 20.
Definition TCP_DATA_OFFSET_5 : Z := 5.
Definition DEFAULT_WINDOW_SIZE : Z := 65535.
Definition MAX_SEGMENT_SIZE : Z := 1460.
Definition IP_PROTO_TCP : Z := 6.
Definition TCP_FLAG_FIN : Z := 0x01.
Definition TCP_FLAG_SYN : Z := 0x02.
Definition TCP_FLAG_RST : Z := 0x04.
Definition TCP_FLAG_PSH : Z := 0x08.
Definition TCP_FLAG_ACK : Z := 0x10.

Record TcpHeader : Type := mkTcpHeader {
  src_port : Z;
  dst_port : Z;
  seq : Z;
  ack : Z;
  flags : Z;
  window : Z;
  checksum : Z;
  urgent : Z;
  data_offset : Z;
}.

Definition parse_tcp (bytes : list Z) : outcome (option (TcpHeader * list Z)) :=
  if len bytes <? TCP_HEADER_MIN_SIZE then Ret None
  else
    b12 ← index bytes 12;
    let data_offset := Z.land (Z.shiftr b12 4) 0x0F in
    let header_len := data_offset * 4 in
    if (header_len <? TCP_HEADER_MIN_SIZE) || (len bytes <? header_len) then Ret None
    else
      sp ← read_u16_be bytes 0;
      dp ← read_u16_be bytes 2;
      sq ← read_u32_be bytes 4;
      ak ← read_u32_be bytes 8;
      fl ← index bytes 13;
      win ← read_u16_be bytes 14;
      ck ← read_u16_be bytes 16;
      urg ← read_u16_be bytes 18;
      payload ← slice bytes header_len (len bytes);
      Ret (Some (mkTcpHeader sp dp sq ak fl win ck urg header_len, payload)).

Definition build_tcp (sp dp sq ak fl win : Z) (payload : list Z) : outcome (list Z) :=
  let total_len := TCP_HEADER_MIN_SIZE + len payload in
  let segment := replicate (Z.to_nat total_len) 0 in
  segment ← write_u16_be segment 0 sp;
  segment ← write_u16_be segment 2 dp;
  segment ← write_u32_be segment 4 sq;
  segment ← write_u32_be segment 8 ak;
  segment ← store segment 12 (cast 8 (Z.shiftl TCP_DATA_OFFSET_5 4));
  segment ← store segment 13 fl;
  segment ← write_u16_be segment 14 win;
  segment ← write_u16_be segment 18 0;
  copy_into segment TCP_HEADER_MIN_SIZE (len segment) payload.

Section segment.
Context `{BuildProfile}.

(** The pseudo-header: addresses, protocol and segment length. *)
Definition pseudo_header (s d tcp_len : Z) : list Z :=
  u32_to_be_bytes s ++ u32_to_be_bytes d ++ [0; IP_PROTO_TCP] ++ u16_to_be_bytes (cast 16 tcp_len).

Definition tcp_checksum (s d : Z) (tcp_segment : list Z) : outcome Z :=
  internet_checksum (pseudo_header s d (len tcp_segment) ++ tcp_segment).

Definition build_tcp_ip_packet (s d : Z) (tcp_segment : list Z) : outcome (list Z) :=
  ip_header ← build_ipv4_header (IP_HEADER_MIN_SIZE + len tcp_segment) 0x40 IP_PROTO_TCP s d;
  checksum ← tcp_checksum s d tcp_segment;
  segment ← write_u16_be tcp_segment 16 checksum;
  Ret (ip_header ++ segment).

Definition build_tcp_frame (dst_mac src_mac : list Z) (s d : Z) (tcp_segment : list Z) : outcome (list Z) :=
  ip_packet ← build_tcp_ip_packet s d tcp_segment;
  build_ethernet dst_mac src_mac ETHERTYPE_IPV4 ip_packet.

End segment.

(** ** The bytes of a segment *)

Definition tcp_bytes (sp dp sq ak fl win k1 k2 : Z) (payload : list Z) : list Z :=
  (u16_to_be_bytes sp ++ u16_to_be_bytes dp ++ u32_to_be_bytes sq ++ u32_to_be_bytes ak ++
   [0x50; fl] ++ u16_to_be_bytes win ++ [k1; k2; 0; 0]) ++ payload.

Lemma length_tcp_bytes sp dp sq ak fl win k1 k2 payload :
  len (tcp_bytes sp dp sq ak fl win k1 k2 payload) = 20 + len payload.
Proof. unfold len, tcp_bytes. rewrite length_app. simpl. lia. Qed.

Lemma build_tcp_ok sp dp sq ak fl win payload :
  build_tcp sp dp sq ak fl win payload = Ret (tcp_bytes sp dp sq ak fl win 0 0 payload).
Proof.
  unfold build_tcp, TCP_HEADER_MIN_SIZE.
  replace (replicate _ 0) with (replicate 20 0 ++ replicate (length payload) 0);
    [|rewrite <- replicate_add; f_equal; unfold len; lia].
  repeat (first [rewrite write_u16_be_app by done | rewrite write_u32_be_app by done | rewrite store_app_l by done];
          cbn [mbind outcome_bind]).
  rewrite copy_into_tail; [done|done|]. unfold len. rewrite length_app, length_replicate, !length_insert. simpl. lia.
Qed.

(** Every field is in its range. *)
Definition segment_fields (sp dp sq ak fl win : Z) (payload : list Z) : Prop :=
  is_uint 16 sp ∧ is_uint 16 dp ∧ is_uint 32 sq ∧ is_uint 32 ak ∧ is_byte fl ∧ is_uint 16 win ∧
  Forall is_byte payload ∧ len payload ≤ MAX_SEGMENT_SIZE.

Lemma u16_bytes x : is_uint 16 x → Forall is_byte (u16_to_be_bytes x).
Proof. intros (_ & ? & ?)%u16_bytes_roundtrip. by repeat (apply list.Forall_cons; split). Qed.

Lemma u32_bytes x : is_uint 32 x → Forall is_byte (u32_to_be_bytes x).
Proof.
  intros Hx. assert (∀ y, is_byte (y mod 256)) by (intros; by apply Z.mod_pos_bound).
  repeat (apply list.Forall_cons; split); try done. unfold is_byte, is_uint in *.
  split; [apply Z.div_pos; lia | apply Z.div_lt_upper_bound; lia].
Qed.

Lemma tcp_bytes_bytes sp dp sq ak fl win k1 k2 payload :
  segment_fields sp dp sq ak fl win payload → is_byte k1 → is_byte k2 →
  Forall is_byte (tcp_bytes sp dp sq ak fl win k1 k2 payload).
Proof.
  intros (? & ? & ? & ? & ? & ? & ? & _) ??. unfold tcp_bytes.
  repeat first [apply Forall_app_2 | apply u16_bytes | apply u32_bytes | done | apply list.Forall_cons; split].
Qed.

Lemma parse_tcp_bytes sp dp sq ak fl win k1 k2 payload :
  is_uint 16 sp → is_uint 16 dp → is_uint 32 sq → is_uint 32 ak → is_uint 16 win →
  parse_tcp (tcp_bytes sp dp sq ak fl win k1 k2 payload) =
  Ret (Some (mkTcpHeader sp dp sq ak fl win (u16_from_be_bytes k1 k2) 0 20, payload)).
Proof.
  intros Hsp Hdp Hsq Hak Hwin. unfold parse_tcp, TCP_HEADER_MIN_SIZE. rewrite length_tcp_bytes.
  destruct (Z.ltb_spec (20 + len payload) 20); [unfold len in *; lia|].
  change (index _ 12) with (Ret 0x50). cbn [mbind outcome_bind].
  change (Z.land (Z.shiftr 0x50 4) 0x0F * 4) with 20.
  destruct (Z.ltb_spec (20 + len payload) 20); [unfold len in *; lia|]. change ((20 <? 20) || false) with false.
  rewrite <- (length_tcp_bytes sp dp sq ak fl win k1 k2 payload), slice_tail
    by (rewrite length_tcp_bytes; unfold len; lia).
  pose proof (u16_bytes_roundtrip sp Hsp) as (Hsp' & _). pose proof (u16_bytes_roundtrip dp Hdp) as (Hdp' & _).
  pose proof (u16_bytes_roundtrip win Hwin) as (Hwin' & _). pose proof (u32_bytes_roundtrip sq Hsq) as Hsq'.
  pose proof (u32_bytes_roundtrip ak Hak) as Hak'. simpl in *.
  by rewrite Hsp', Hdp', Hwin', Hsq', Hak'.
Qed.

Section wire_roundtrip.
Context `{BuildProfile}.

(** The checksum the sender writes makes the receiver's sum vanish. *)
Lemma tcp_checksum_ok s d sp dp sq ak fl win payload :
  is_uint 32 s → is_uint 32 d → segment_fields sp dp sq ak fl win payload →
  ∃ c, tcp_checksum s d (tcp_bytes sp dp sq ak fl win 0 0 payload) = Ret c ∧ is_uint 16 c ∧
    tcp_checksum s d (tcp_bytes sp dp sq ak fl win (c `div` 256) (c mod 256) payload) = Ret 0.
Proof.
  intros Hs Hd Hf. pose proof Hf as (_ & _ & _ & _ & _ & _ & Hpb & Hlen).
  unfold tcp_checksum. rewrite length_tcp_bytes.
  set (p := pseudo_header s d (20 + len payload) ++ take 16 (tcp_bytes sp dp sq ak fl win 0 0 payload)).
  set (q := 0 :: 0 :: payload).
  assert (Forall is_byte p ∧ Forall is_byte q) as [Hp Hq].
  { split; [|by repeat (apply list.Forall_cons; split)]. unfold p, pseudo_header.
    assert (is_uint 16 (cast 16 (20 + len payload))) by (by apply Z.mod_pos_bound).
    pose proof (tcp_bytes_bytes sp dp sq ak fl win 0 0 payload Hf ltac:(done) ltac:(done)) as Hb.
    repeat first [done | apply Forall_take | apply Forall_app_2 | apply u16_bytes | apply u32_bytes | apply list.Forall_cons; split]. }
  assert (∀ k1 k2, pseudo_header s d (20 + len payload) ++ tcp_bytes sp dp sq ak fl win k1 k2 payload = p ++ k1 :: k2 :: q)
    as Heq by (intros; unfold p, q, tcp_bytes; by rewrite <- app_assoc).
  assert (Forall is_byte (p ++ 0 :: 0 :: q)) as Hall.
  { apply Forall_app_2; [done|]. by repeat (apply list.Forall_cons; split). }
  assert (words_sum (p ++ 0 :: 0 :: q) < 2 ^ 32 - 65535) as Hsum.
  { pose proof (words_sum_bound _ Hall) as Hbd. assert ((len (p ++ 0 :: 0 :: q) + 1) `div` 2 ≤ 1000); [|lia].
    apply Z.div_le_upper_bound; [lia|]. unfold p, q, len, MAX_SEGMENT_SIZE in *. rewrite length_app. simpl. lia. }
  destruct (internet_checksum_ok (p ++ 0 :: 0 :: q)) as (f & Hck & _); [done|lia|].
  exists (65535 - f). rewrite length_tcp_bytes, !Heq. split; [done|].
  by apply checksum_cancels; [exists 14%nat|..].
Qed.

Lemma build_tcp_ip_packet_ok s d sp dp sq ak fl win payload :
  is_uint 32 s → is_uint 32 d → segment_fields sp dp sq ak fl win payload →
  ∃ h1 h2 k1 k2,
    let hdr := wire_header (40 + len payload) 0 0x4000 IP_PROTO_TCP h1 h2 s d in
    let body := tcp_bytes sp dp sq ak fl win k1 k2 payload in
    build_tcp_ip_packet s d (tcp_bytes sp dp sq ak fl win 0 0 payload) = Ret (hdr ++ body) ∧
    internet_checksum hdr = Ret 0 ∧ tcp_checksum s d body = Ret 0.
Proof.
  intros Hs Hd Hf. pose proof Hf as (_ & _ & _ & _ & _ & _ & _ & Hlen). unfold build_tcp_ip_packet.
  rewrite length_tcp_bytes. replace (IP_HEADER_MIN_SIZE + (20 + len payload)) with (40 + len payload) by (unfold IP_HEADER_MIN_SIZE; lia).
  destruct (build_ipv4_header_ok (40 + len payload) 0x40 IP_PROTO_TCP s d) as (h1 & h2 & -> & Hh);
    [unfold is_uint, MAX_SEGMENT_SIZE, len in *; lia|done..|]. cbn [mbind outcome_bind].
  destruct (tcp_checksum_ok s d sp dp sq ak fl win payload) as (c & -> & _ & Hc); [done..|].
  cbn [mbind outcome_bind]. exists h1, h2, (c `div` 256), (c mod 256). split; [|done].
  unfold tcp_bytes. rewrite write_u16_be_app by done. done.
Qed.

(** C25: a segment survives the wire. Any segment built here, wrapped for the
    link, is parsed back by the Ethernet, IPv4 and TCP parsers into the same
    addresses, ports, sequence numbers, flags, window and payload, and both
    its header checksum and its TCP checksum verify. *)
Theorem tcp_wire_roundtrip dst src s d sp dp sq ak fl win payload :
  len dst = 6 → len src = 6 → is_uint 32 s → is_uint 32 d → segment_fields sp dp sq ak fl win payload →
  ∃ segment frame packet hdr body c,
    build_tcp sp dp sq ak fl win payload = Ret segment ∧
    build_tcp_frame dst src s d segment = Ret frame ∧ len frame ≤ MAX_FRAME_SIZE ∧
    parse_ethernet frame = Ret (Some (mkEthernetHeader dst src ETHERTYPE_IPV4, packet)) ∧ packet = hdr ++ body ∧
    parse_ipv4 packet = Ret (Some (mkIpv4Header IP_PROTO_TCP s d (len packet) (len hdr))) ∧
    internet_checksum hdr = Ret 0 ∧ tcp_checksum s d body = Ret 0 ∧
    parse_tcp body = Ret (Some (mkTcpHeader sp dp sq ak fl win c 0 20, payload)).
Proof.
  intros Hdst Hsrc Hs Hd Hf. pose proof Hf as (? & ? & ? & ? & ? & ? & _ & Hlen).
  destruct (build_tcp_ip_packet_ok s d sp dp sq ak fl win payload Hs Hd Hf) as (h1 & h2 & k1 & k2 & Hp & Hh & Hc).
  set (hdr := wire_header _ _ _ _ _ _ _ _) in *. set (body := tcp_bytes sp dp sq ak fl win k1 k2 payload) in *.
  assert (len (hdr ++ body) = 40 + len payload) as Hl.
  { unfold body, len. rewrite length_app. pose proof (length_tcp_bytes sp dp sq ak fl win k1 k2 payload) as Ht.
    unfold len in Ht. unfold hdr. rewrite length_wire_header. lia. }
  exists (tcp_bytes sp dp sq ak fl win 0 0 payload), (dst ++ src ++ u16_to_be_bytes ETHERTYPE_IPV4 ++ hdr ++ body),
    (hdr ++ body), hdr, body, (u16_from_be_bytes k1 k2).
  split_and!; [apply build_tcp_ok| | | |done| |done|done|by apply parse_tcp_bytes].
  - unfold build_tcp_frame. rewrite Hp. cbn [mbind outcome_bind]. by apply build_ethernet_ok.
  - rewrite length_frame, Hl by done. unfold MAX_FRAME_SIZE, MAX_SEGMENT_SIZE in *. lia.
  - by apply parse_build_ethernet.
  - rewrite Hl. apply parse_ipv4_wire; [unfold is_uint, MAX_SEGMENT_SIZE, len in *; lia|done..].
Qed.

End wire_roundtrip.

Lemma tcp_wire_roundtrip_witness :
  let payload := [104; 101; 108; 108; 111] in
  segment_fields 49152 80 1001 5001 0x18 65535 payload ∧
  ∃ segment frame, build_tcp 49152 80 1001 5001 0x18 65535 payload = Ret segment ∧
    build_tcp_frame (H := dev_profile) (replicate 6 2) (replicate 6 4) 0x0A00020F 0x0A000202 segment = Ret frame.
Proof.
  intros payload. assert (segment_fields 49152 80 1001 5001 0x18 65535 payload) as Hf.
  { unfold segment_fields. split_and!; try done. repeat (apply list.Forall_cons; split); done. }
  split; [exact Hf|].
  destruct (tcp_wire_roundtrip (H := dev_profile) (replicate 6 2) (replicate 6 4) 0x0A00020F 0x0A000202
    49152 80 1001 5001 0x18 65535 payload) as (seg & frame & _ & _ & _ & _ & Hs & Hfr & _); [done..|].
  exists seg, frame. split; [exact Hs|exact Hfr].
Defined.
