(* ===== verification/Tcp.v ===== *)
(** * TCP connections (kernel/src/net/tcp.rs)

    The connection table, the listen queues and the state machine over the
    network interface of Arp.v.  An operation takes its locks, works and sends;
    it is one step here, with one reading of the timer.  The send loop of
    [send_data] is bounded by fuel: [None] means that the fuel ran out. *)

From stdpp Require Import sorting.
From S2P Require Import Prelude Ip Arp TcpSegment.

Definition INITIAL_SEQ : Z := 1000.
Definition RETRANSMIT_TIMEOUT_TICKS : Z := 18.
Definition KEEPALIVE_INTERVAL_TICKS : Z := 1092.
Definition MAX_RETRANSMIT_ATTEMPTS : Z := 5.
Definition TIME_WAIT_DURATION_TICKS : Z := 1092.
Definition EPHEMERAL_START : Z := 49152.

Inductive TcpState : Type :=
| Closed | SynSent | SynReceived | Established | FinWait1 | FinWait2 | CloseWait | LastAck | TimeWait | Closing.

#[export] Instance TcpState_eq_dec : EqDecision TcpState.
Proof. solve_decision. Defined.

Record RetransmitEntry : Type := mkEntry {
  re_seq : Z;
  re_data : list Z;
  re_remote_addr : Z;
  sent_at : Z;
  attempts : Z;
}.

Inductive TcpError : Type := ConnectionReset.
Inductive TcpOpError : Type := OpFailed | OpConnectionReset.

Record TcpConnection : Type := mkConn {
  state : TcpState;
  local_port : Z;
  remote_addr : Z;
  remote_port : Z;
  seq_num : Z;
  ack_num : Z;
  recv_window : Z;
  send_window : Z;
  retransmit_queue : list RetransmitEntry;
  recv_buffer : list Z;
  cwnd : Z;
  ssthresh : Z;
  last_recv_tick : Z;
  last_send_tick : Z;
  error : option TcpError;
}.

Section setters.
Implicit Types c : TcpConnection.

Definition set_state s c :=
  mkConn s (local_port c) (remote_addr c) (remote_port c) (seq_num c) (ack_num c) (recv_window c) (send_window c)
    (retransmit_queue c) (recv_buffer c) (cwnd c) (ssthresh c) (last_recv_tick c) (last_send_tick c) (error c).
Definition set_seq n c :=
  mkConn (state c) (local_port c) (remote_addr c) (remote_port c) n (ack_num c) (recv_window c) (send_window c)
    (retransmit_queue c) (recv_buffer c) (cwnd c) (ssthresh c) (last_recv_tick c) (last_send_tick c) (error c).
Definition set_ack n c :=
  mkConn (state c) (local_port c) (remote_addr c) (remote_port c) (seq_num c) n (recv_window c) (send_window c)
    (retransmit_queue c) (recv_buffer c) (cwnd c) (ssthresh c) (last_recv_tick c) (last_send_tick c) (error c).
Definition set_send_window n c :=
  mkConn (state c) (local_port c) (remote_addr c) (remote_port c) (seq_num c) (ack_num c) (recv_window c) n
    (retransmit_queue c) (recv_buffer c) (cwnd c) (ssthresh c) (last_recv_tick c) (last_send_tick c) (error c).
Definition set_queue q c :=
  mkConn (state c) (local_port c) (remote_addr c) (remote_port c) (seq_num c) (ack_num c) (recv_window c) (send_window c)
    q (recv_buffer c) (cwnd c) (ssthresh c) (last_recv_tick c) (last_send_tick c) (error c).
Definition set_buffer b c :=
  mkConn (state c) (local_port c) (remote_addr c) (remote_port c) (seq_num c) (ack_num c) (recv_window c) (send_window c)
    (retransmit_queue c) b (cwnd c) (ssthresh c) (last_recv_tick c) (last_send_tick c) (error c).
Definition set_cong w t c :=
  mkConn (state c) (local_port c) (remote_addr c) (remote_port c) (seq_num c) (ack_num c) (recv_window c) (send_window c)
    (retransmit_queue c) (recv_buffer c) w t (last_recv_tick c) (last_send_tick c) (error c).
Definition set_last_recv t c :=
  mkConn (state c) (local_port c) (remote_addr c) (remote_port c) (seq_num c) (ack_num c) (recv_window c) (send_window c)
    (retransmit_queue c) (recv_buffer c) (cwnd c) (ssthresh c) t (last_send_tick c) (error c).
Definition set_last_send t c :=
  mkConn (state c) (local_port c) (remote_addr c) (remote_port c) (seq_num c) (ack_num c) (recv_window c) (send_window c)
    (retransmit_queue c) (recv_buffer c) (cwnd c) (ssthresh c) (last_recv_tick c) t (error c).
Definition set_error e c :=
  mkConn (state c) (local_port c) (remote_addr c) (remote_port c) (seq_num c) (ack_num c) (recv_window c) (send_window c)
    (retransmit_queue c) (recv_buffer c) (cwnd c) (ssthresh c) (last_recv_tick c) (last_send_tick c) e.
End setters.

(** [(local_port, remote_ip, remote_port)]. *)
Abbreviation ConnKey := (Z * Z * Z)%type.

Record TcpStack (D : Type) : Type := mkStack {
  net : NetState D;
  CONNECTIONS : gmap ConnKey TcpConnection;
  PENDING_ACCEPT : gmap Z (list (Z * Z));
}.
Arguments mkStack {D} _ _ _.
Arguments net {D} _.
Arguments CONNECTIONS {D} _.
Arguments PENDING_ACCEPT {D} _.

Definition has_flag (fl bit : Z) : bool := negb (Z.land fl bit =? 0).

(** [(seq_a.wrapping_sub(seq_b) as i32) < 0]. *)
Definition is_seq_before (a b : Z) : bool := 2 ^ 31 <=? wrap 32 (a - b).

Definition key_le (a b : ConnKey) : Prop :=
  a.1.1 < b.1.1 ∨ (a.1.1 = b.1.1 ∧ (a.1.2 < b.1.2 ∨ (a.1.2 = b.1.2 ∧ a.2 ≤ b.2))).
#[export] Instance key_le_dec a b : Decision (key_le a b).
Proof. unfold key_le. apply _. Defined.

(** The keys of the connections in a state, in the order of the map. *)
Definition keys_in (s : TcpState) (m : gmap ConnKey TcpConnection) : list ConnKey :=
  merge_sort key_le ((map_to_list (filter (λ p, state p.2 = s) m)).*1).

Section tcp.
Context {D : Type} `{NetDriver D} `{BuildProfile}.
Implicit Types (n : NetState D) (st : TcpStack D) (c : TcpConnection) (h : TcpHeader).

Definition with_net st n : TcpStack D := mkStack n (CONNECTIONS st) (PENDING_ACCEPT st).
Definition with_conns st m : TcpStack D := mkStack (net st) m (PENDING_ACCEPT st).
Definition with_pending st p : TcpStack D := mkStack (net st) (CONNECTIONS st) p.

(** ** Listening *)

Definition register_listen_port st (lp : Z) : TcpStack D :=
  match PENDING_ACCEPT st !! lp with
  | Some _ => st
  | None => with_pending st (<[lp := []]> (PENDING_ACCEPT st))
  end.

Definition unregister_listen_port st (lp : Z) : TcpStack D := with_pending st (delete lp (PENDING_ACCEPT st)).

Definition accept_next st (lp : Z) : option (Z * Z) * TcpStack D :=
  match PENDING_ACCEPT st !! lp with
  | Some (peer :: queue) => (Some peer, with_pending st (<[lp := queue]> (PENDING_ACCEPT st)))
  | _ => (None, st)
  end.

Definition has_pending_accept st (lp : Z) : bool :=
  match PENDING_ACCEPT st !! lp with Some (_ :: _) => true | _ => false end.

(** ** Sending *)

Definition send_tcp_segment n (addr lp rp sq ak fl win : Z) (payload : list Z) : outcome (NetState D) :=
  segment ← build_tcp lp rp sq ak fl win payload;
  let '(m, n) := arp_lookup n addr in
  match m with
  | None => send_arp_request n addr
  | Some dst_mac =>
      frame ← build_tcp_frame dst_mac (mac_address n) (local_ip n) addr segment;
      Ret (transmit n frame)
  end.

(** A bare segment of the connection to [src]. *)
Definition send_bare n c (src fl : Z) : outcome (NetState D) :=
  send_tcp_segment n src (local_port c) (remote_port c) (seq_num c) (ack_num c) fl (recv_window c) [].

Definition send_reset n (addr lp rp sq ak fl : Z) : outcome (NetState D) :=
  send_tcp_segment n addr lp rp sq ak fl 0 [].

(** ** Connection management *)

Definition fresh_connection (lp addr rp now : Z) : TcpConnection :=
  mkConn Closed lp addr rp INITIAL_SEQ 0 DEFAULT_WINDOW_SIZE DEFAULT_WINDOW_SIZE [] [] MAX_SEGMENT_SIZE
    (Z.min (DEFAULT_WINDOW_SIZE * 2) (2 ^ 64 - 1)) now now None.

Definition new_connection st (lp addr rp : Z) : bool * TcpStack D :=
  match CONNECTIONS st !! (lp, addr, rp) with
  | Some _ => (false, st)
  | None => (true, with_conns st (<[(lp, addr, rp) := fresh_connection lp addr rp (TICKS (net st))]> (CONNECTIONS st)))
  end.

Definition port_in_use st (lp : Z) : bool := existsb (λ p, p.1.1 =? lp) (map_to_list (CONNECTIONS st)).*1.

Fixpoint port_loop st (fuel : nat) (port : Z) : option Z :=
  match fuel with
  | O => None
  | S fuel => if negb (port_in_use st port) then Some port
              else if port =? u16_max then None else port_loop st fuel (port + 1)
  end.

Definition EPHEMERAL_PORTS : nat := Z.to_nat 16384.

Definition allocate_local_port st : option Z := port_loop st EPHEMERAL_PORTS EPHEMERAL_START.

Definition get_connection_state st (lp addr rp : Z) : option TcpState := state <$> CONNECTIONS st !! (lp, addr, rp).

Definition remove_connection st (lp addr rp : Z) : bool * TcpStack D :=
  (bool_decide (is_Some (CONNECTIONS st !! (lp, addr, rp))), with_conns st (delete (lp, addr, rp) (CONNECTIONS st))).

Definition connect st (lp addr rp : Z) : outcome (result unit unit * TcpStack D) :=
  let '(created, st) := new_connection st lp addr rp in
  if negb created then Ret (Err tt, st)
  else
    match CONNECTIONS st !! (lp, addr, rp) with
    | None => Ret (Err tt, st)
    | Some c =>
        let c := set_state SynSent c in
        n ← send_tcp_segment (net st) addr lp rp (seq_num c) 0 TCP_FLAG_SYN (recv_window c) [];
        syn ← build_tcp lp rp (seq_num c) 0 TCP_FLAG_SYN (recv_window c) [];
        let c := set_queue (retransmit_queue c ++ [mkEntry (seq_num c) syn addr (TICKS n) 0]) c in
        Ret (Ok tt, mkStack n (<[(lp, addr, rp) := c]> (CONNECTIONS st)) (PENDING_ACCEPT st))
    end.

(** ** Data transfer *)

(** One pass of the [while] loop: [None] is [break]. *)
Definition send_chunk n c (lp addr rp : Z) (bytes : list Z) (total : Z)
    : outcome (option (TcpConnection * Z) * NetState D) :=
  let cwnd_limit := Z.min (cwnd c) (send_window c) in
  let chunk_size := Z.min (Z.min (len bytes - total) MAX_SEGMENT_SIZE) cwnd_limit in
  chunk ← slice bytes total (total + chunk_size);
  segment ← build_tcp lp rp (seq_num c) (ack_num c) (Z.lor TCP_FLAG_PSH TCP_FLAG_ACK) (recv_window c) chunk;
  let '(m, n) := arp_lookup n addr in
  match m with
  | None => Ret (None, n)
  | Some dst_mac =>
      frame ← build_tcp_frame dst_mac (mac_address n) (local_ip n) addr segment;
      let '(r, d) := send_frame (nic n) frame in
      let n := with_nic n d in
      match r with
      | Err _ => Ret (None, n)
      | Ok _ =>
          let entry := mkEntry (seq_num c) segment addr (TICKS n) 0 in
          let c := set_last_send (TICKS n) (set_queue (retransmit_queue c ++ [entry]) c) in
          let c := set_seq (wrapping_add 32 (seq_num c) (cast 32 chunk_size)) c in
          Ret (Some (c, total + chunk_size), n)
      end
  end.

Fixpoint send_loop (fuel : nat) n c (lp addr rp : Z) (bytes : list Z) (total : Z)
    : outcome (option (Z * TcpConnection * NetState D)) :=
  match fuel with
  | O => Ret None
  | S fuel =>
      if total <? len bytes then
        '(step, n) ← send_chunk n c lp addr rp bytes total;
        match step with
        | None => Ret (Some (total, c, n))
        | Some (c, total) => send_loop fuel n c lp addr rp bytes total
        end
      else Ret (Some (total, c, n))
  end.

Definition is_reset c : bool := match error c with Some ConnectionReset => true | None => false end.

Definition send_data (fuel : nat) st (lp addr rp : Z) (bytes : list Z)
    : outcome (option (result Z TcpOpError * TcpStack D)) :=
  match CONNECTIONS st !! (lp, addr, rp) with
  | None => Ret (Some (Err OpFailed, st))
  | Some c =>
      if is_reset c then Ret (Some (Err OpConnectionReset, st))
      else if negb (bool_decide (state c = Established)) then Ret (Some (Err OpFailed, st))
      else
        r ← send_loop fuel (net st) c lp addr rp bytes 0;
        match r with
        | None => Ret None
        | Some (total, c, n) =>
            Ret (Some (Ok total, mkStack n (<[(lp, addr, rp) := c]> (CONNECTIONS st)) (PENDING_ACCEPT st)))
        end
  end.

(** The bytes copied out; [room] is the length of the caller's buffer. *)
Definition recv_data st (lp addr rp room : Z) : result (list Z) TcpOpError * TcpStack D :=
  match CONNECTIONS st !! (lp, addr, rp) with
  | None => (Err OpFailed, st)
  | Some c =>
      if is_reset c then (Err OpConnectionReset, st)
      else if negb (bool_decide (state c = Established)) && negb (bool_decide (state c = CloseWait))
      then (Err OpFailed, st)
      else
        let available := len (recv_buffer c) in
        if available =? 0 then (Ok [], st)
        else
          let to_copy := Z.to_nat (Z.min available room) in
          (Ok (take to_copy (recv_buffer c)),
           with_conns st (<[(lp, addr, rp) := set_buffer (drop to_copy (recv_buffer c)) c]> (CONNECTIONS st)))
  end.

(** ** Teardown *)

Definition close st (lp addr rp : Z) : outcome (result unit unit * TcpStack D) :=
  match CONNECTIONS st !! (lp, addr, rp) with
  | None => Ret (Err tt, st)
  | Some c =>
      let next := match state c with Established => Some FinWait1 | CloseWait => Some LastAck | _ => None end in
      match next with
      | None => Ret (Err tt, st)
      | Some s =>
          n ← send_tcp_segment (net st) addr lp rp (seq_num c) (ack_num c) (Z.lor TCP_FLAG_FIN TCP_FLAG_ACK)
                (recv_window c) [];
          let c := set_seq (wrapping_add 32 (seq_num c) 1) (set_state s c) in
          Ret (Ok tt, mkStack n (<[(lp, addr, rp) := c]> (CONNECTIONS st)) (PENDING_ACCEPT st))
      end
  end.

(** ** Segments for a connection *)

Definition handle_reset c : TcpConnection :=
  set_error (Some ConnectionReset) (set_buffer [] (set_queue [] (set_state Closed c))).

Definition process_ack c (ack_number : Z) : outcome TcpConnection :=
  let before := len (retransmit_queue c) in
  let q := filter (λ e, is_seq_before ack_number (re_seq e) = true) (retransmit_queue c) in
  let acked := saturating_sub before (len q) in
  let c := set_queue q c in
  if 0 <? acked then
    if cwnd c <? ssthresh c then
      w ← add64 (cwnd c) MAX_SEGMENT_SIZE;
      Ret (set_cong (Z.min w (ssthresh c)) (ssthresh c) c)
    else if cwnd c =? 0 then Panic
    else
      w ← add64 (cwnd c) ((MAX_SEGMENT_SIZE * MAX_SEGMENT_SIZE) `div` cwnd c);
      Ret (set_cong w (ssthresh c) c)
  else Ret c.

Definition append_payload c (payload : list Z) : TcpConnection :=
  set_ack (wrapping_add 32 (ack_num c) (cast 32 (len payload))) (set_buffer (recv_buffer c ++ payload) c).

Definition handle_syn_sent n c h (src : Z) (payload : list Z) : outcome (NetState D * TcpConnection) :=
  let syn_ack := Z.lor TCP_FLAG_SYN TCP_FLAG_ACK in
  if Z.land (flags h) syn_ack =? syn_ack then
    if negb (ack h =? wrapping_add 32 (seq_num c) 1) then Ret (n, c)
    else
      let c := set_ack (wrapping_add 32 (seq h) 1) c in
      let c := set_queue [] (set_state Established (set_send_window (window h) (set_seq (ack h) c))) in
      n ← send_bare n c src TCP_FLAG_ACK;
      Ret (n, if len payload =? 0 then c else set_buffer (recv_buffer c ++ payload) c)
  else if has_flag (flags h) TCP_FLAG_RST then Ret (n, handle_reset c)
  else Ret (n, c).

Definition handle_syn_received n c h (payload : list Z) : outcome (NetState D * TcpConnection) :=
  if has_flag (flags h) TCP_FLAG_ACK then
    if ack h =? seq_num c then
      let c := set_queue [] (set_send_window (window h) (set_state Established c)) in
      Ret (n, if len payload =? 0 then c else append_payload c payload)
    else Ret (n, c)
  else if has_flag (flags h) TCP_FLAG_RST then Ret (n, handle_reset c)
  else Ret (n, c).

Definition handle_established n c h (src : Z) (payload : list Z) : outcome (NetState D * TcpConnection) :=
  if has_flag (flags h) TCP_FLAG_RST then Ret (n, handle_reset c)
  else
    let c := set_send_window (window h) (set_last_recv (TICKS n) c) in
    c ← (if has_flag (flags h) TCP_FLAG_ACK then process_ack c (ack h) else Ret c);
    if has_flag (flags h) TCP_FLAG_FIN then
      let c := set_state CloseWait (set_ack (wrapping_add 32 (seq h) 1) c) in
      n ← send_bare n c src TCP_FLAG_ACK;
      Ret (n, c)
    else if len payload =? 0 then Ret (n, c)
    else
      let c := append_payload c payload in
      n ← send_bare n c src TCP_FLAG_ACK;
      Ret (n, c).

Definition handle_fin_wait1 n c h (src : Z) : outcome (NetState D * TcpConnection) :=
  if has_flag (flags h) TCP_FLAG_RST then Ret (n, handle_reset c)
  else
    c ← (if has_flag (flags h) TCP_FLAG_ACK then process_ack c (ack h) else Ret c);
    if has_flag (flags h) TCP_FLAG_FIN then
      let c := set_ack (wrapping_add 32 (seq h) 1) c in
      let c := set_state (if has_flag (flags h) TCP_FLAG_ACK then TimeWait else Closing) c in
      n ← send_bare n c src TCP_FLAG_ACK;
      Ret (n, c)
    else if has_flag (flags h) TCP_FLAG_ACK then Ret (n, set_queue [] (set_state FinWait2 c))
    else Ret (n, c).

Definition handle_fin_wait2 n c h (src : Z) : outcome (NetState D * TcpConnection) :=
  if has_flag (flags h) TCP_FLAG_RST then Ret (n, handle_reset c)
  else if has_flag (flags h) TCP_FLAG_FIN then
    let c := set_state TimeWait (set_ack (wrapping_add 32 (seq h) 1) c) in
    n ← send_bare n c src TCP_FLAG_ACK;
    Ret (n, c)
  else Ret (n, c).

Definition handle_close_wait n c h : outcome (NetState D * TcpConnection) :=
  if has_flag (flags h) TCP_FLAG_RST then Ret (n, handle_reset c)
  else
    c ← (if has_flag (flags h) TCP_FLAG_ACK then process_ack c (ack h) else Ret c);
    Ret (n, c).

Definition handle_last_ack n c h : outcome (NetState D * TcpConnection) :=
  if has_flag (flags h) TCP_FLAG_RST then Ret (n, handle_reset c)
  else if has_flag (flags h) TCP_FLAG_ACK then Ret (n, set_queue [] (set_state Closed c))
  else Ret (n, c).

Definition handle_closing n c h : outcome (NetState D * TcpConnection) :=
  if has_flag (flags h) TCP_FLAG_RST then Ret (n, handle_reset c)
  else if has_flag (flags h) TCP_FLAG_ACK then Ret (n, set_queue [] (set_state TimeWait c))
  else Ret (n, c).

Definition handle_time_wait n c h (src : Z) : outcome (NetState D * TcpConnection) :=
  if has_flag (flags h) TCP_FLAG_RST then Ret (n, handle_reset c)
  else n ← send_bare n c src TCP_FLAG_ACK; Ret (n, c).

(** The [match conn.state] of [handle_tcp_packet]. *)
Definition handle_segment n c h (src : Z) (payload : list Z) : outcome (NetState D * TcpConnection) :=
  match state c with
  | SynSent => handle_syn_sent n c h src payload
  | SynReceived => handle_syn_received n c h payload
  | Established => handle_established n c h src payload
  | FinWait1 => handle_fin_wait1 n c h src
  | FinWait2 => handle_fin_wait2 n c h src
  | CloseWait => handle_close_wait n c h
  | LastAck => handle_last_ack n c h
  | TimeWait => handle_time_wait n c h src
  | Closing => handle_closing n c h
  | Closed => Ret (n, c)
  end.

Definition handle_passive_syn st (src lp rp : Z) h : outcome (TcpStack D) :=
  let '(created, st) := new_connection st lp src rp in
  if negb created then Ret st
  else
    match CONNECTIONS st !! (lp, src, rp) with
    | None => Ret st
    | Some c =>
        let c := set_seq (wrapping_add 32 INITIAL_SEQ 1) c in
        let c := set_state SynReceived (set_ack (wrapping_add 32 (seq h) 1) c) in
        let fl := Z.lor TCP_FLAG_SYN TCP_FLAG_ACK in
        let now := TICKS (net st) in
        syn_ack ← build_tcp lp rp INITIAL_SEQ (ack_num c) fl (recv_window c) [];
        let c := set_queue (retransmit_queue c ++ [mkEntry INITIAL_SEQ syn_ack src now 0]) c in
        let c := set_last_send now (set_last_recv now c) in
        n ← send_tcp_segment (net st) src lp rp INITIAL_SEQ (wrapping_add 32 (seq h) 1) fl (recv_window c) [];
        let pending :=
          match PENDING_ACCEPT st !! lp with
          | Some queue => <[lp := queue ++ [(src, rp)]]> (PENDING_ACCEPT st)
          | None => PENDING_ACCEPT st
          end in
        Ret (mkStack n (<[(lp, src, rp) := c]> (CONNECTIONS st)) pending)
    end.

(** [u32::from(header.flags & SYN != 0) + payload.len() as u32]. *)
Definition segment_length h (payload : list Z) : outcome Z :=
  add32 (if has_flag (flags h) TCP_FLAG_SYN then 1 else 0) (cast 32 (len payload)).

Definition handle_unknown st (src : Z) h (payload : list Z) : outcome (TcpStack D) :=
  let lp := dst_port h in
  let rp := src_port h in
  if has_flag (flags h) TCP_FLAG_RST then Ret st
  else if has_flag (flags h) TCP_FLAG_SYN && negb (has_flag (flags h) TCP_FLAG_ACK) then
    match PENDING_ACCEPT st !! lp with
    | Some _ => handle_passive_syn st src lp rp h
    | None =>
        off ← segment_length h payload;
        n ← send_reset (net st) src lp rp 0 (wrapping_add 32 (seq h) off) (Z.lor TCP_FLAG_RST TCP_FLAG_ACK);
        Ret (with_net st n)
    end
  else if has_flag (flags h) TCP_FLAG_ACK then
    n ← send_reset (net st) src lp rp (ack h) 0 TCP_FLAG_RST;
    Ret (with_net st n)
  else
    off ← segment_length h payload;
    n ← send_reset (net st) src lp rp 0 (wrapping_add 32 (seq h) off) (Z.lor TCP_FLAG_RST TCP_FLAG_ACK);
    Ret (with_net st n).

Definition handle_tcp_packet st (src : Z) (tcp_data : list Z) : outcome (TcpStack D) :=
  parsed ← parse_tcp tcp_data;
  match parsed with
  | None => Ret st
  | Some (h, payload) =>
      let key := (dst_port h, src, src_port h) in
      match CONNECTIONS st !! key with
      | None => handle_unknown st src h payload
      | Some c =>
          '(n, c) ← handle_segment (net st) c h src payload;
          Ret (mkStack n (<[key := c]> (CONNECTIONS st)) (PENDING_ACCEPT st))
      end
  end.

(** ** Periodic maintenance *)

Fixpoint expire_time_wait (keys : list ConnKey) (now : Z) (m : gmap ConnKey TcpConnection) : gmap ConnKey TcpConnection :=
  match keys with
  | [] => m
  | key :: keys =>
      let m :=
        match m !! key with
        | Some c =>
            if TIME_WAIT_DURATION_TICKS <=? saturating_sub now (last_recv_tick c) then delete key m else m
        | None => m
        end in
      expire_time_wait keys now m
  end.

(** One entry of the retransmission loop: what to send again, the entry and
    the congestion state after it. *)
Definition check_entry (now : Z) (e : RetransmitEntry) (w t : Z)
    : outcome (list (list Z * Z) * RetransmitEntry * Z * Z) :=
  if (RETRANSMIT_TIMEOUT_TICKS <=? saturating_sub now (sent_at e)) && (attempts e <? MAX_RETRANSMIT_ATTEMPTS) then
    a ← add32 (attempts e) 1;
    let w := Z.max (w `div` 2) MAX_SEGMENT_SIZE in
    Ret ([(re_data e, re_remote_addr e)], mkEntry (re_seq e) (re_data e) (re_remote_addr e) now a, w, w)
  else Ret ([], e, w, t).

Fixpoint check_queue (now : Z) (q : list RetransmitEntry) (w t : Z)
    : outcome (list (list Z * Z) * list RetransmitEntry * Z * Z) :=
  match q with
  | [] => Ret ([], [], w, t)
  | e :: q =>
      '(out, e, w, t) ← check_entry now e w t;
      '(outs, q, w, t) ← check_queue now q w t;
      Ret (out ++ outs, e :: q, w, t)
  end.

Definition send_raw n (segment : list Z) (addr : Z) : outcome (NetState D) :=
  let '(m, n) := arp_lookup n addr in
  match m with
  | None => Ret n
  | Some dst_mac =>
      frame ← build_tcp_frame dst_mac (mac_address n) (local_ip n) addr segment;
      Ret (transmit n frame)
  end.

Fixpoint send_all n (l : list (list Z * Z)) : outcome (NetState D) :=
  match l with
  | [] => Ret n
  | (segment, addr) :: l => n ← send_raw n segment addr; send_all n l
  end.

Definition tick_connection n c : outcome (NetState D * TcpConnection) :=
  let now := TICKS n in
  '(outs, q, w, t) ← check_queue now (retransmit_queue c) (cwnd c) (ssthresh c);
  let c := set_queue (filter (λ e, attempts e < MAX_RETRANSMIT_ATTEMPTS) q) (set_cong w t c) in
  let idle := saturating_sub now (last_recv_tick c) in
  let keepalive := (KEEPALIVE_INTERVAL_TICKS <=? idle) && (len (retransmit_queue c) =? 0) in
  let c := if keepalive then set_last_send now c else c in
  n ← send_all n outs;
  if keepalive then
    probe ← build_tcp (local_port c) (remote_port c) (wrap 32 (seq_num c - 1)) (ack_num c) TCP_FLAG_ACK (recv_window c) [];
    n ← send_raw n probe (remote_addr c);
    Ret (n, c)
  else Ret (n, c).

Fixpoint tick_all (keys : list ConnKey) st : outcome (TcpStack D) :=
  match keys with
  | [] => Ret st
  | key :: keys =>
      match CONNECTIONS st !! key with
      | None => tick_all keys st
      | Some c =>
          '(n, c) ← tick_connection (net st) c;
          tick_all keys (mkStack n (<[key := c]> (CONNECTIONS st)) (PENDING_ACCEPT st))
      end
  end.

Definition periodic_tick st : outcome (TcpStack D) :=
  let m := expire_time_wait (keys_in TimeWait (CONNECTIONS st)) (TICKS (net st)) (CONNECTIONS st) in
  tick_all (keys_in Established m) (with_conns st m).

End tcp.
