(* ===== verification/TcpProofs.v ===== *)
(** * Properties of TCP connections (kernel/src/net/tcp.rs)

    The invariant of the connection table over every history of calls and
    arbitrary incoming packets, the state machine they follow and what a
    reset leaves. *)

From stdpp Require Import sorting.
From S2P Require Import Prelude Ip Arp TcpSegment Tcp.

Create HintDb tcp.

(** ** Invariant *)

Definition CWND_MAX : Z := MAX_SEGMENT_SIZE * MAX_SEGMENT_SIZE + MAX_SEGMENT_SIZE.

(** A queued segment is one [build_tcp] made, not yet given up. *)
Definition entry_ok (e : RetransmitEntry) : Prop :=
  (∃ sp dp sq ak fl win payload, segment_fields sp dp sq ak fl win payload ∧
     re_data e = tcp_bytes sp dp sq ak fl win 0 0 payload) ∧
  is_uint 32 (re_remote_addr e) ∧ 0 ≤ attempts e < MAX_RETRANSMIT_ATTEMPTS.

Record conn_ok (k : ConnKey) (c : TcpConnection) : Prop := mkConnOk {
  co_key : (local_port c, remote_addr c, remote_port c) = k;
  co_lp : is_uint 16 (local_port c);
  co_ra : is_uint 32 (remote_addr c);
  co_rp : is_uint 16 (remote_port c);
  co_seq : is_uint 32 (seq_num c);
  co_ack : is_uint 32 (ack_num c);
  co_rw : is_uint 16 (recv_window c);
  co_sw : is_uint 16 (send_window c);
  co_queue : Forall entry_ok (retransmit_queue c);
  co_buffer : Forall is_byte (recv_buffer c);
  co_cwnd : MAX_SEGMENT_SIZE ≤ cwnd c ≤ CWND_MAX;
  co_ssthresh : MAX_SEGMENT_SIZE ≤ ssthresh c ≤ CWND_MAX;
  co_error : error c ≠ None → state c = Closed ∧ retransmit_queue c = [] ∧ recv_buffer c = [];
}.

Section ok.
Context {D : Type}.

Definition net_ok (n : NetState D) : Prop :=
  is_uint 32 (local_ip n) ∧ map_Forall (λ _ e, len (mac e) = 6) (ARP_TABLE n).

Definition stack_ok (st : TcpStack D) : Prop := net_ok (net st) ∧ map_Forall conn_ok (CONNECTIONS st).

End ok.

(** A header whose fields are in range. *)
Record header_ok (h : TcpHeader) : Prop := mkHeaderOk {
  ho_sp : is_uint 16 (src_port h);
  ho_dp : is_uint 16 (dst_port h);
  ho_seq : is_uint 32 (seq h);
  ho_ack : is_uint 32 (ack h);
  ho_win : is_uint 16 (window h);
}.

Lemma is_uint_wrapping w a b : 0 ≤ w → is_uint w (wrapping_add w a b).
Proof. intros. apply Z.mod_pos_bound. lia. Qed.
#[export] Hint Resolve co_lp co_ra co_rp co_seq co_ack co_rw co_sw co_queue co_buffer co_cwnd co_ssthresh : tcp.
#[export] Hint Resolve ho_sp ho_dp ho_seq ho_ack ho_win : tcp.

(** ** Each update keeps the invariant of the connection *)

Section updates.
Context (k : ConnKey).
Implicit Types c : TcpConnection.

Ltac update := intros []; intros; constructor; simpl in *; try done; intros; exfalso; eauto.

Lemma set_state_ok s c : conn_ok k c → error c = None → conn_ok k (set_state s c).
Proof. update. Qed.
Lemma set_seq_ok x c : conn_ok k c → is_uint 32 x → conn_ok k (set_seq x c).
Proof. intros []; intros; constructor; done. Qed.
Lemma set_ack_ok x c : conn_ok k c → is_uint 32 x → conn_ok k (set_ack x c).
Proof. intros []; intros; constructor; done. Qed.
Lemma next_ack_ok x y c : conn_ok k c → conn_ok k (set_ack (wrapping_add 32 x y) c).
Proof. intros. apply set_ack_ok; [done|]. by apply is_uint_wrapping. Qed.
Lemma next_seq_ok x y c : conn_ok k c → conn_ok k (set_seq (wrapping_add 32 x y) c).
Proof. intros. apply set_seq_ok; [done|]. by apply is_uint_wrapping. Qed.
Lemma set_send_window_ok x c : conn_ok k c → is_uint 16 x → conn_ok k (set_send_window x c).
Proof. intros []; intros; constructor; done. Qed.
Lemma set_queue_ok q c : conn_ok k c → error c = None → Forall entry_ok q → conn_ok k (set_queue q c).
Proof. update. Qed.
Lemma set_buffer_ok b c : conn_ok k c → error c = None → Forall is_byte b → conn_ok k (set_buffer b c).
Proof. update. Qed.
Lemma set_cong_ok w t c :
  conn_ok k c → MAX_SEGMENT_SIZE ≤ w ≤ CWND_MAX → MAX_SEGMENT_SIZE ≤ t ≤ CWND_MAX → conn_ok k (set_cong w t c).
Proof. intros []; intros; constructor; done. Qed.
Lemma set_last_recv_ok x c : conn_ok k c → conn_ok k (set_last_recv x c).
Proof. intros []; intros; constructor; done. Qed.
Lemma set_last_send_ok x c : conn_ok k c → conn_ok k (set_last_send x c).
Proof. intros []; intros; constructor; done. Qed.

Lemma handle_reset_ok c : conn_ok k c → conn_ok k (handle_reset c).
Proof. intros []; constructor; simpl; try done; constructor. Qed.

(** Only a closed connection carries an error. *)
Lemma open_no_error c : conn_ok k c → state c ≠ Closed → error c = None.
Proof. intros [] Hs. destruct (error c); [|done]. by destruct co_error0. Qed.

Lemma append_payload_ok c p : conn_ok k c → error c = None → Forall is_byte p → conn_ok k (append_payload c p).
Proof.
  intros Hc He Hp. unfold append_payload. apply set_ack_ok; [|by apply is_uint_wrapping].
  apply set_buffer_ok; [done|done|]. apply Forall_app_2; [apply Hc|done].
Qed.

End updates.

#[export] Hint Resolve next_ack_ok next_seq_ok set_seq_ok set_ack_ok set_send_window_ok set_queue_ok set_buffer_ok set_last_recv_ok
  set_last_send_ok set_state_ok handle_reset_ok append_payload_ok : tcp.

(** ** Congestion control *)

Section cong.
Context `{BuildProfile}.

(** [process_ack] never divides by zero or overflows, and touches only the
    queue and the congestion window. *)
Lemma process_ack_ok k c x :
  conn_ok k c → error c = None →
  ∃ c', process_ack c x = Ret c' ∧ conn_ok k c' ∧ error c' = None ∧
    c' = set_cong (cwnd c') (ssthresh c)
           (set_queue (filter (λ e, is_seq_before x (re_seq e) = true) (retransmit_queue c)) c).
Proof.
  intros Hc He. unfold process_ack. set (q := filter _ _). set (c1 := set_queue q c).
  assert (conn_ok k c1) as Hc1.
  { apply set_queue_ok; [done..|]. apply Forall_filtered. apply Hc. }
  pose proof (co_cwnd _ _ Hc1) as Hw. pose proof (co_ssthresh _ _ Hc1) as Ht. unfold CWND_MAX, MAX_SEGMENT_SIZE in *.
  destruct (_ <? _); [|exists c1; split_and!; try done; by destruct c].
  destruct (Z.ltb_spec (cwnd c1) (ssthresh c1)).
  - rewrite add64_ok by (unfold is_uint; lia). cbn [mbind outcome_bind]. eexists. split; [done|]. split_and!; [|done|done].
    apply set_cong_ok; [done|unfold CWND_MAX, MAX_SEGMENT_SIZE; lia..].
  - destruct (Z.eqb_spec (cwnd c1) 0); [lia|].
    assert (0 ≤ (1460 * 1460) `div` cwnd c1 ≤ 1460) as Hd.
    { split; [apply Z.div_pos; lia|]. apply Z.div_le_upper_bound; lia. }
    assert (1460 * 1460 < cwnd c1 → (1460 * 1460) `div` cwnd c1 = 0) as Hz by (intros; apply Z.div_small; lia).
    rewrite add64_ok by (unfold is_uint; lia). cbn [mbind outcome_bind]. eexists. split; [done|]. split_and!; [|done|done].
    apply set_cong_ok; [done|unfold CWND_MAX, MAX_SEGMENT_SIZE; lia..].
Qed.
End cong.

(** ** Sending never fails *)

Section send.
Context {D : Type} `{NetDriverLaws D} `{BuildProfile}.
Implicit Types (n : NetState D) (st : TcpStack D) (c : TcpConnection).

(** What sending may change: the device and expired ARP entries. *)
Definition net_after n n' : Prop :=
  net_ok n' ∧ TICKS n' = TICKS n ∧ local_ip n' = local_ip n ∧ mac_address n' = mac_address n.

Lemma arp_lookup_ok n addr :
  net_ok n → net_after n (arp_lookup n addr).2 ∧
    (∀ m, (arp_lookup n addr).1 = Some m → len m = 6 ∧ (arp_lookup n addr).2 = n).
Proof.
  intros Hok. pose proof Hok as [Hip Hmac]. unfold arp_lookup. destruct (ARP_TABLE n !! addr) as [e|] eqn:He; [|done].
  destruct (arp_fresh _ _); simpl.
  - split; [done|]. intros m [= <-]. split; [by eapply Hmac|done].
  - split; [|done]. split_and!; [|done..]. split; [done|]. by apply map_Forall_delete.
Qed.

Lemma transmit_after n f : net_ok n → net_after n (transmit n f).
Proof. intros Hok. destruct (transmit_keeps n f) as (Ht & ? & Hip & ?). split_and!; try done; by rewrite ?Hip, ?Ht. Qed.

Lemma net_after_trans n1 n2 n3 : net_after n1 n2 → net_after n2 n3 → net_after n1 n3.
Proof. intros (? & ? & ? & ?) (? & ? & ? & ?). split_and!; congruence. Qed.

Lemma net_after_refl n : net_ok n → net_after n n.
Proof. done. Qed.

Lemma send_arp_request_ok n addr : net_ok n → ∃ n', send_arp_request n addr = Ret n' ∧ net_after n n'.
Proof.
  intros Hok. unfold send_arp_request, build_arp_request.
  rewrite build_arp_ok by (apply mac_length || done). cbn [mbind outcome_bind].
  rewrite build_ethernet_ok by (apply mac_length || done). eexists. split; [done|]. by apply transmit_after.
Qed.

Lemma build_tcp_frame_ok dst src s d sp dp sq ak fl win payload :
  len dst = 6 → len src = 6 → is_uint 32 s → is_uint 32 d → segment_fields sp dp sq ak fl win payload →
  ∃ h1 h2 k1 k2, build_tcp_frame dst src s d (tcp_bytes sp dp sq ak fl win 0 0 payload) =
    Ret (dst ++ src ++ u16_to_be_bytes ETHERTYPE_IPV4 ++
         wire_header (40 + len payload) 0 0x4000 IP_PROTO_TCP h1 h2 s d ++ tcp_bytes sp dp sq ak fl win k1 k2 payload).
Proof.
  intros Hd Hs Hsi Hdi Hf. unfold build_tcp_frame.
  destruct (build_tcp_ip_packet_ok s d sp dp sq ak fl win payload) as (h1 & h2 & k1 & k2 & -> & _); [done..|].
  cbn [mbind outcome_bind]. exists h1, h2, k1, k2. by apply build_ethernet_ok.
Qed.

Lemma send_raw_ok n sp dp sq ak fl win payload addr :
  net_ok n → is_uint 32 addr → segment_fields sp dp sq ak fl win payload →
  ∃ n', send_raw n (tcp_bytes sp dp sq ak fl win 0 0 payload) addr = Ret n' ∧ net_after n n'.
Proof.
  intros Hok Ha Hf. unfold send_raw. destruct (arp_lookup_ok n addr Hok) as [Hn1 Hm].
  destruct (arp_lookup n addr) as [[m|] n1]; [|by exists n1]. cbn [fst snd] in *. destruct (Hm m) as [Hl ->]; [done|].
  destruct (build_tcp_frame_ok m (mac_address n) (local_ip n) addr sp dp sq ak fl win payload)
    as (? & ? & ? & ? & ->); [done|apply mac_length|apply Hok|done|done|]. cbn [mbind outcome_bind].
  eexists. split; [done|]. by apply transmit_after.
Qed.

Lemma send_tcp_segment_ok n addr sp dp sq ak fl win payload :
  net_ok n → is_uint 32 addr → segment_fields sp dp sq ak fl win payload →
  ∃ n', send_tcp_segment n addr sp dp sq ak fl win payload = Ret n' ∧ net_after n n'.
Proof.
  intros Hok Ha Hf. unfold send_tcp_segment. rewrite build_tcp_ok. cbn [mbind outcome_bind].
  destruct (send_raw_ok n sp dp sq ak fl win payload addr Hok Ha Hf) as (n' & Hs & Hn'). unfold send_raw in Hs.
  destruct (arp_lookup_ok n addr Hok) as [Hn1 Hm]. destruct (arp_lookup n addr) as [[m|] n1]; [eauto|].
  destruct (send_arp_request_ok n1 addr) as (n2 & -> & Hn2); [apply Hn1|].
  exists n2. split; [done|]. by eapply net_after_trans.
Qed.

Lemma bare_fields sp dp sq ak fl win :
  is_uint 16 sp → is_uint 16 dp → is_uint 32 sq → is_uint 32 ak → is_byte fl → is_uint 16 win →
  segment_fields sp dp sq ak fl win [].
Proof. intros. split_and!; try done; constructor. Qed.

Lemma send_bare_ok k n c src fl :
  net_ok n → conn_ok k c → is_uint 32 src → is_byte fl →
  ∃ n', send_bare n c src fl = Ret n' ∧ net_after n n'.
Proof.
  intros Hn Hc Hs Hf. apply send_tcp_segment_ok; [done..|]. apply bare_fields; try done; apply Hc.
Qed.

End send.

(** ** Parsing arbitrary bytes *)

Lemma parse_tcp_ok bytes :
  Forall is_byte bytes →
  ∃ r, parse_tcp bytes = Ret r ∧
    match r with
    | None => True
    | Some (h, p) => header_ok h ∧ Forall is_byte p ∧ len p ≤ len bytes
    end.
Proof.
  intros Hb. unfold parse_tcp, TCP_HEADER_MIN_SIZE. destruct (Z.ltb_spec (len bytes) 20) as [|Hl]; [by eexists|].
  destruct (index_byte bytes 12) as (b12 & -> & H12); [done|lia|]. cbn [mbind outcome_bind].
  set (hl := Z.land (Z.shiftr b12 4) 0x0F * 4). destruct (_ || _) eqn:Hc; [by eexists|].
  apply orb_false_iff in Hc as [Hc1%Z.ltb_ge Hc2%Z.ltb_ge].
  destruct (read_u16_ok bytes 0) as (? & -> & ?); [done|lia..|]. destruct (read_u16_ok bytes 2) as (? & -> & ?); [done|lia..|].
  destruct (read_u32_ok bytes 4) as (? & -> & ?); [done|lia..|]. destruct (read_u32_ok bytes 8) as (? & -> & ?); [done|lia..|].
  destruct (index_byte bytes 13) as (? & -> & ?); [done|lia|]. destruct (read_u16_ok bytes 14) as (? & -> & ?); [done|lia..|].
  destruct (read_u16_ok bytes 16) as (? & -> & ?); [done|lia..|]. destruct (read_u16_ok bytes 18) as (? & -> & ?); [done|lia..|].
  rewrite slice_tail by lia. cbn [mbind outcome_bind]. eexists. split; [done|]. split_and!; [done|by apply Forall_drop|].
  unfold len. rewrite length_drop. lia.
Qed.

(** ** The state machine *)

(** The moves the arrival of a segment can make: the diagram of the module's
    documentation, the simultaneous close, and resets. *)
Inductive segment_edge : TcpState → TcpState → Prop :=
  | edge_stay s : segment_edge s s
  | edge_reset s : s ≠ Closed → segment_edge s Closed
  | edge_active_open : segment_edge SynSent Established
  | edge_passive_open : segment_edge SynReceived Established
  | edge_peer_close : segment_edge Established CloseWait
  | edge_fin_acked : segment_edge FinWait1 FinWait2
  | edge_fin_fin_acked : segment_edge FinWait1 TimeWait
  | edge_simultaneous : segment_edge FinWait1 Closing
  | edge_fin : segment_edge FinWait2 TimeWait
  | edge_closing : segment_edge Closing TimeWait.
#[export] Hint Constructors segment_edge : tcp.

Section handlers.
Context {D : Type} `{NetDriverLaws D} `{BuildProfile}.
Implicit Types (n : NetState D) (st : TcpStack D) (c : TcpConnection).

Lemma maybe_ack_ok k c (b : bool) x :
  conn_ok k c → error c = None →
  ∃ c', (if b then process_ack c x else Ret c) = Ret c' ∧ conn_ok k c' ∧ error c' = None ∧ state c' = state c.
Proof.
  intros Hc He. destruct b; [|by exists c]. destruct (process_ack_ok k c x Hc He) as (c' & -> & Hc' & He' & Heq).
  exists c'. split_and!; [done..|]. by rewrite Heq.
Qed.

Definition handled k n c (r : outcome (NetState D * TcpConnection)) : Prop :=
  ∃ n' c', r = Ret (n', c') ∧ net_after n n' ∧ conn_ok k c' ∧ segment_edge (state c) (state c').

(** Answering with a bare segment and keeping [c']. *)
Lemma handled_bare k n c c' src fl (f : TcpConnection → TcpConnection) :
  net_ok n → conn_ok k c' → is_uint 32 src → is_byte fl → segment_edge (state c) (state (f c')) → conn_ok k (f c') →
  handled k n c (n ← send_bare n c' src fl; Ret (n, f c')).
Proof.
  intros Hn Hc Hs Hf He Hfc. destruct (send_bare_ok k n c' src fl) as (n' & -> & Hn'); [done..|].
  exists n', (f c'). by split_and!.
Qed.

Lemma handled_ret k n c c' :
  net_ok n → conn_ok k c' → segment_edge (state c) (state c') → handled k n c (Ret (n, c')).
Proof. intros. exists n, c'. by split_and!. Qed.

Section one.
Context (k : ConnKey) (n : NetState D) (c : TcpConnection) (h : TcpHeader) (src : Z) (payload : list Z).
Context (Hn : net_ok n) (Hc : conn_ok k c) (He : error c = None) (Hh : header_ok h) (Hs : is_uint 32 src)
  (Hp : Forall is_byte payload).

Lemma handled_reset : state c ≠ Closed → handled k n c (Ret (n, handle_reset c)).
Proof. intros. apply handled_ret; [done|by apply handle_reset_ok|by constructor]. Qed.

Lemma handled_stay : handled k n c (Ret (n, c)).
Proof. apply handled_ret; [done..|constructor]. Qed.

Lemma syn_sent_ok : state c = SynSent → handled k n c (handle_syn_sent n c h src payload).
Proof.
  intros Hst. unfold handle_syn_sent. destruct (_ =? _); [destruct (negb _); [apply handled_stay|]|].
  - set (c1 := set_queue [] _). assert (conn_ok k c1) as Hc1.
    { apply set_queue_ok; [|done|constructor]. apply set_state_ok; [|done]. eauto 8 with tcp. }
    apply (handled_bare k n c c1 src TCP_FLAG_ACK (λ c, if len payload =? 0 then c else set_buffer (recv_buffer c ++ payload) c));
      try done; destruct (_ =? _); try done; try (rewrite Hst; constructor).
    apply set_buffer_ok; [done..|]. apply Forall_app_2; [apply Hc|done].
  - destruct (has_flag _ _); [apply handled_reset; congruence|apply handled_stay].
Qed.

Lemma syn_received_ok : state c = SynReceived → handled k n c (handle_syn_received n c h payload).
Proof.
  intros Hst. unfold handle_syn_received. destruct (has_flag _ _); [destruct (_ =? _); [|apply handled_stay]|].
  - set (c1 := set_queue [] _). assert (conn_ok k c1) as Hc1.
    { apply set_queue_ok; [|done|constructor]. apply set_send_window_ok; [|apply Hh]. by apply set_state_ok. }
    apply handled_ret; [done| |]; destruct (_ =? _); try done; [by apply append_payload_ok|rewrite Hst; constructor..].
  - destruct (has_flag _ _); [apply handled_reset; congruence|apply handled_stay].
Qed.

Lemma established_ok : state c = Established → handled k n c (handle_established n c h src payload).
Proof.
  intros Hst. unfold handle_established. destruct (has_flag _ TCP_FLAG_RST); [apply handled_reset; congruence|].
  set (c1 := set_send_window _ _). assert (conn_ok k c1) as Hc1 by (apply set_send_window_ok; [by apply set_last_recv_ok|apply Hh]).
  destruct (maybe_ack_ok k c1 (has_flag (flags h) TCP_FLAG_ACK) (ack h)) as (c2 & -> & Hc2 & He2 & Hst2); [done..|].
  change (state c1) with (state c) in Hst2.
  cbn [mbind outcome_bind]. destruct (has_flag _ TCP_FLAG_FIN); [|destruct (_ =? _)].
  - apply (handled_bare k n c _ src TCP_FLAG_ACK id); try done; [|rewrite Hst; constructor|];
      (apply set_state_ok; [|done]); eauto 8 with tcp.
  - apply handled_ret; [done..|]. rewrite Hst2, Hst. constructor.
  - apply (handled_bare k n c _ src TCP_FLAG_ACK id); try done; [by apply append_payload_ok| |by apply append_payload_ok].
    simpl. rewrite Hst2, Hst. constructor.
Qed.

Lemma fin_wait1_ok : state c = FinWait1 → handled k n c (handle_fin_wait1 n c h src).
Proof.
  intros Hst. unfold handle_fin_wait1. destruct (has_flag _ TCP_FLAG_RST); [apply handled_reset; congruence|].
  destruct (maybe_ack_ok k c (has_flag (flags h) TCP_FLAG_ACK) (ack h)) as (c2 & -> & Hc2 & He2 & Hst2); [done..|].
  cbn [mbind outcome_bind]. destruct (has_flag _ TCP_FLAG_FIN).
  - apply (handled_bare k n c _ src TCP_FLAG_ACK id); try done.
    + apply set_state_ok; [|done]. eauto 8 with tcp.
    + rewrite Hst. simpl. destruct (has_flag _ _); constructor.
    + apply set_state_ok; [|done]. eauto 8 with tcp.
  - destruct (has_flag _ _); apply handled_ret; try done.
    + apply set_queue_ok; [by apply set_state_ok|done|constructor].
    + rewrite Hst. constructor.
    + rewrite Hst2. constructor.
Qed.

Lemma fin_wait2_ok : state c = FinWait2 → handled k n c (handle_fin_wait2 n c h src).
Proof.
  intros Hst. unfold handle_fin_wait2. destruct (has_flag _ TCP_FLAG_RST); [apply handled_reset; congruence|].
  destruct (has_flag _ _); [|apply handled_stay].
  apply (handled_bare k n c _ src TCP_FLAG_ACK id); try done; [|rewrite Hst; constructor|];
    (apply set_state_ok; [|done]); eauto 8 with tcp.
Qed.

Lemma close_wait_ok : state c = CloseWait → handled k n c (handle_close_wait n c h).
Proof.
  intros Hst. unfold handle_close_wait. destruct (has_flag _ TCP_FLAG_RST); [apply handled_reset; congruence|].
  destruct (maybe_ack_ok k c (has_flag (flags h) TCP_FLAG_ACK) (ack h)) as (c2 & -> & Hc2 & He2 & Hst2); [done..|].
  apply handled_ret; [done..|]. rewrite Hst2. constructor.
Qed.

Lemma last_ack_ok : state c = LastAck → handled k n c (handle_last_ack n c h).
Proof.
  intros Hst. unfold handle_last_ack. destruct (has_flag _ TCP_FLAG_RST); [apply handled_reset; congruence|].
  destruct (has_flag _ _); [|apply handled_stay].
  apply handled_ret; [done| |rewrite Hst; by constructor]. apply set_queue_ok; [by apply set_state_ok|done|constructor].
Qed.

Lemma closing_ok : state c = Closing → handled k n c (handle_closing n c h).
Proof.
  intros Hst. unfold handle_closing. destruct (has_flag _ TCP_FLAG_RST); [apply handled_reset; congruence|].
  destruct (has_flag _ _); [|apply handled_stay].
  apply handled_ret; [done| |rewrite Hst; by constructor]. apply set_queue_ok; [by apply set_state_ok|done|constructor].
Qed.

Lemma time_wait_ok : state c = TimeWait → handled k n c (handle_time_wait n c h src).
Proof.
  intros Hst. unfold handle_time_wait. destruct (has_flag _ TCP_FLAG_RST); [apply handled_reset; congruence|].
  apply (handled_bare k n c c src TCP_FLAG_ACK id); try done. constructor.
Qed.

End one.

Lemma handle_segment_ok k n c h src payload :
  net_ok n → conn_ok k c → header_ok h → is_uint 32 src → Forall is_byte payload →
  handled k n c (handle_segment n c h src payload).
Proof.
  intros Hn Hc Hh Hs Hp. unfold handle_segment.
  destruct (decide (state c = Closed)) as [Hcl|Hop]; [rewrite Hcl; by apply handled_stay|].
  pose proof (open_no_error _ _ Hc Hop) as He.
  destruct (state c) eqn:Hst; [done|by apply syn_sent_ok|by apply syn_received_ok|by apply established_ok
    |by apply fin_wait1_ok|by apply fin_wait2_ok|by apply close_wait_ok|by apply last_ack_ok|by apply time_wait_ok|by apply closing_ok].
Qed.

End handlers.

(** ** Steps on the table *)

(** The moves of a connection over one operation: those of a segment and the
    two of [close]. *)
Inductive tcp_edge : TcpState → TcpState → Prop :=
  | tcp_edge_segment s s' : segment_edge s s' → tcp_edge s s'
  | tcp_edge_close : tcp_edge Established FinWait1
  | tcp_edge_last : tcp_edge CloseWait LastAck.

(** What one operation, other than [remove_connection], does to an entry of the
    table: it moves along an edge, and not at all once closed; a new entry is
    opening; an entry disappears only from [TimeWait]. *)
Definition entry_step (o o' : option TcpConnection) : Prop :=
  match o, o' with
  | Some c, Some c' => tcp_edge (state c) (state c') ∧ (state c = Closed → c' = c)
  | None, Some c' => state c' = SynSent ∨ state c' = SynReceived
  | Some c, None => state c = TimeWait
  | None, None => True
  end.

Definition table_step (m m' : gmap ConnKey TcpConnection) : Prop := ∀ k, entry_step (m !! k) (m' !! k).

Lemma entry_step_refl o : entry_step o o.
Proof. destruct o as [c|]; simpl; [|done]. split; [|done]. do 2 constructor. Qed.

Lemma table_step_refl m : table_step m m.
Proof. intros k. apply entry_step_refl. Qed.

Lemma table_step_insert m k c' : entry_step (m !! k) (Some c') → table_step m (<[k := c']> m).
Proof.
  intros He k'. destruct (decide (k = k')) as [<-|Hne]; [by rewrite lookup_insert_eq|].
  rewrite lookup_insert_ne by done. apply entry_step_refl.
Qed.

Section ops.
Context {D : Type} `{NetDriverLaws D} `{BuildProfile}.
Implicit Types (n : NetState D) (st : TcpStack D) (c : TcpConnection).

(** An operation returns, keeps the invariant and makes one table step. *)
Definition op_ok {R} st (r : outcome (R * TcpStack D)) : Prop :=
  ∃ x st', r = Ret (x, st') ∧ stack_ok st' ∧ table_step (CONNECTIONS st) (CONNECTIONS st').

Definition st_ok st (r : outcome (TcpStack D)) : Prop :=
  ∃ st', r = Ret st' ∧ stack_ok st' ∧ table_step (CONNECTIONS st) (CONNECTIONS st').

Lemma stack_ok_insert n m p k c :
  net_ok n → map_Forall conn_ok m → conn_ok k c → stack_ok (mkStack n (<[k := c]> m) p).
Proof. intros. split; [done|]. by apply map_Forall_insert_2. Qed.

Lemma fresh_connection_ok lp addr rp now :
  is_uint 16 lp → is_uint 32 addr → is_uint 16 rp → conn_ok (lp, addr, rp) (fresh_connection lp addr rp now).
Proof. intros. constructor; simpl; try done; constructor. Qed.

Lemma entry_ok_new sp dp sq ak fl win payload addr now :
  segment_fields sp dp sq ak fl win payload → is_uint 32 addr →
  entry_ok (mkEntry sq (tcp_bytes sp dp sq ak fl win 0 0 payload) addr now 0).
Proof. intros Hf Ha. split_and!; [by exists sp, dp, sq, ak, fl, win, payload|done..]. Qed.

Lemma syn_queue_ok lp rp sq ak fl addr now :
  segment_fields lp rp sq ak fl DEFAULT_WINDOW_SIZE [] → is_uint 32 addr →
  Forall entry_ok [mkEntry sq (tcp_bytes lp rp sq ak fl DEFAULT_WINDOW_SIZE 0 0 []) addr now 0].
Proof. intros. apply list.Forall_singleton. by apply entry_ok_new. Qed.

Lemma connect_ok st lp addr rp :
  stack_ok st → is_uint 16 lp → is_uint 32 addr → is_uint 16 rp → op_ok st (connect st lp addr rp).
Proof.
  intros [Hn Hm] Hlp Ha Hrp. unfold connect, new_connection.
  destruct (CONNECTIONS st !! (lp, addr, rp)) as [c0|] eqn:Hk; cbn [negb].
  { exists (Err tt), st. split_and!; [done..|]. apply table_step_refl. }
  cbn [with_conns CONNECTIONS net]. rewrite lookup_insert_eq. rewrite build_tcp_ok.
  cbn [fresh_connection set_state seq_num recv_window retransmit_queue].
  assert (segment_fields lp rp INITIAL_SEQ 0 TCP_FLAG_SYN DEFAULT_WINDOW_SIZE []) as Hf by (by apply bare_fields).
  destruct (send_tcp_segment_ok (net st) addr lp rp INITIAL_SEQ 0 TCP_FLAG_SYN DEFAULT_WINDOW_SIZE [])
    as (n' & -> & Hn'); [done..|]. cbn [mbind outcome_bind]. eexists _, _. split; [done|].
  rewrite insert_insert_eq. split.
  - apply stack_ok_insert; [apply Hn'|done|]. apply set_queue_ok; [|done|by apply syn_queue_ok].
    apply set_state_ok; [|done]. by apply fresh_connection_ok.
  - apply table_step_insert. rewrite Hk. by left.
Qed.

Lemma handle_passive_syn_ok st src lp rp h :
  stack_ok st → is_uint 32 src → is_uint 16 lp → is_uint 16 rp → st_ok st (handle_passive_syn st src lp rp h).
Proof.
  intros [Hn Hm] Hs Hlp Hrp. unfold handle_passive_syn, new_connection.
  destruct (CONNECTIONS st !! (lp, src, rp)) as [c0|] eqn:Hk; cbn [negb].
  { exists st. split_and!; [done..|]. apply table_step_refl. }
  cbn [with_conns CONNECTIONS net PENDING_ACCEPT]. rewrite lookup_insert_eq. rewrite build_tcp_ok.
  set (fl := Z.lor TCP_FLAG_SYN TCP_FLAG_ACK). set (ak := wrapping_add 32 (seq h) 1).
  cbn [fresh_connection set_state set_seq set_ack set_queue set_last_send set_last_recv ack_num recv_window retransmit_queue
       mbind outcome_bind].
  assert (segment_fields lp rp INITIAL_SEQ ak fl DEFAULT_WINDOW_SIZE []) as Hf.
  { apply bare_fields; try done. by apply is_uint_wrapping. }
  destruct (send_tcp_segment_ok (net st) src lp rp INITIAL_SEQ ak fl DEFAULT_WINDOW_SIZE []) as (n' & -> & Hn'); [done..|].
  cbn [mbind outcome_bind]. eexists. split; [done|]. rewrite insert_insert_eq. split.
  - apply stack_ok_insert; [apply Hn'|done|].
    pose proof (fresh_connection_ok lp src rp (TICKS (net st)) Hlp Hs Hrp) as [].
    constructor; cbn in *; try done; [by apply is_uint_wrapping|by apply syn_queue_ok].
  - apply table_step_insert. rewrite Hk. by right.
Qed.

(** A reset answer leaves the table alone. *)
Lemma reset_ok st src lp rp sq ak fl :
  stack_ok st → is_uint 32 src → is_uint 16 lp → is_uint 16 rp → is_uint 32 sq → is_uint 32 ak → is_byte fl →
  st_ok st (n ← send_reset (net st) src lp rp sq ak fl; Ret (with_net st n)).
Proof.
  intros [Hn Hm] Hs Hlp Hrp Hsq Hak Hf. unfold send_reset.
  destruct (send_tcp_segment_ok (net st) src lp rp sq ak fl 0 []) as (n' & -> & Hn'); [done..|by apply bare_fields|].
  exists (with_net st n'). split_and!; [done|split; [apply Hn'|done]|apply table_step_refl].
Qed.

Lemma handle_unknown_ok st src h payload :
  stack_ok st → is_uint 32 src → header_ok h → len payload < 2 ^ 31 → st_ok st (handle_unknown st src h payload).
Proof.
  intros Hst Hs Hh Hlen. unfold handle_unknown. destruct Hh as [Hsp Hdp _ Hak _].
  assert (∃ off, segment_length h payload = Ret off) as [off Hoff].
  { unfold segment_length, cast, wrap. rewrite Z.mod_small by (unfold len in *; lia).
    rewrite add32_ok; [eauto|]. unfold is_uint, len in *. destruct (has_flag _ _); lia. }
  rewrite Hoff. cbn [mbind outcome_bind].
  destruct (has_flag _ TCP_FLAG_RST); [exists st; split_and!; [done..|apply table_step_refl]|].
  destruct (_ && _); [destruct (PENDING_ACCEPT st !! dst_port h)|destruct (has_flag _ _)].
  - by apply handle_passive_syn_ok.
  - apply reset_ok; try done. by apply is_uint_wrapping.
  - by apply reset_ok.
  - apply reset_ok; try done. by apply is_uint_wrapping.
Qed.

Lemma handle_tcp_packet_ok st src bytes :
  stack_ok st → is_uint 32 src → Forall is_byte bytes → len bytes < 2 ^ 31 → st_ok st (handle_tcp_packet st src bytes).
Proof.
  intros Hst Hs Hb Hl. unfold handle_tcp_packet. destruct (parse_tcp_ok bytes Hb) as (r & -> & Hr).
  cbn [mbind outcome_bind]. destruct r as [[h p]|]; [|exists st; split_and!; [done..|apply table_step_refl]].
  destruct Hr as (Hh & Hp & Hpl). set (k := (dst_port h, src, src_port h)).
  destruct (CONNECTIONS st !! k) as [c|] eqn:Hk; [|apply handle_unknown_ok; try done; lia].
  destruct Hst as [Hn Hm]. pose proof (Hm _ _ Hk) as Hc.
  destruct (handle_segment_ok k (net st) c h src p) as (n' & c' & Hseg & Hn' & Hc' & Hedge); [done..|].
  rewrite Hseg. cbn [mbind outcome_bind]. eexists. split; [done|]. split; [apply stack_ok_insert; [apply Hn'|done..]|].
  apply table_step_insert. rewrite Hk. split; [by constructor|]. intros Hcl.
  unfold handle_segment in Hseg. rewrite Hcl in Hseg. congruence.
Qed.

Lemma close_ok st lp addr rp : stack_ok st → op_ok st (close st lp addr rp).
Proof.
  intros [Hn Hm]. assert (op_ok st (Ret (Err tt : result unit unit, st))) as Herr.
  { exists (Err tt), st. split_and!; [done..|]. apply table_step_refl. }
  unfold close. destruct (CONNECTIONS st !! (lp, addr, rp)) as [c|] eqn:Hk; [|done]. pose proof (Hm _ _ Hk) as Hc.
  set (next := match state c with Established => _ | _ => _ end). destruct next as [s|] eqn:Hnext; [|done].
  assert (state c ≠ Closed ∧ tcp_edge (state c) s) as [Hop Hedge].
  { unfold next in Hnext. by destruct (state c); simplify_eq; (split; [|constructor]). }
  pose proof (co_key _ _ Hc) as Hkey. injection Hkey as Hlp Hra Hrp.
  destruct (send_tcp_segment_ok (net st) addr lp rp (seq_num c) (ack_num c) (Z.lor TCP_FLAG_FIN TCP_FLAG_ACK)
    (recv_window c) []) as (n' & -> & Hn'); [done|rewrite <- Hra; apply Hc| |].
  { rewrite <- Hlp, <- Hrp. apply bare_fields; try done; apply Hc. }
  cbn [mbind outcome_bind]. eexists _, _. split; [done|]. split.
  - apply stack_ok_insert; [apply Hn'|done|]. apply next_seq_ok, set_state_ok; [done|]. by eapply open_no_error.
  - apply table_step_insert. rewrite Hk. by split.
Qed.

Lemma send_chunk_ok n c lp addr rp bytes total :
  let k := (lp, addr, rp) in
  net_ok n → conn_ok k c → error c = None → Forall is_byte bytes → 0 ≤ total < len bytes →
  ∃ r n', send_chunk n c lp addr rp bytes total = Ret (r, n') ∧ net_after n n' ∧
    match r with
    | None => True
    | Some (c', t) => conn_ok k c' ∧ error c' = None ∧ state c' = state c ∧ send_window c' = send_window c ∧
        cwnd c' = cwnd c ∧
        t = total + Z.min (Z.min (len bytes - total) MAX_SEGMENT_SIZE) (Z.min (cwnd c) (send_window c))
    end.
Proof.
  intros k Hn Hc He Hb Ht. pose proof (co_key _ _ Hc) as Hkey. injection Hkey as Hlp Hra Hrp.
  pose proof (co_cwnd _ _ Hc). pose proof (co_sw _ _ Hc). unfold send_chunk.
  set (chunk := Z.min (Z.min (len bytes - total) _) _).
  assert (0 ≤ chunk ≤ len bytes - total ∧ chunk ≤ MAX_SEGMENT_SIZE) as [Hch Hmss].
  { unfold chunk, is_uint, MAX_SEGMENT_SIZE in *. lia. }
  rewrite slice_ok by lia. cbn [mbind outcome_bind]. rewrite build_tcp_ok. cbn [mbind outcome_bind].
  set (p := take _ _). assert (segment_fields lp rp (seq_num c) (ack_num c) (Z.lor TCP_FLAG_PSH TCP_FLAG_ACK) (recv_window c) p) as Hf.
  { rewrite <- Hlp, <- Hrp. split_and!; try apply Hc; [done|by apply Forall_take, Forall_drop|].
    unfold p, len. rewrite length_take. lia. }
  destruct (arp_lookup_ok n addr Hn) as [Hn1 Hm]. destruct (arp_lookup n addr) as [[m|] n1]; cbn [fst snd] in *.
  2: { by exists None, n1. }
  destruct (Hm m) as [Hml ->]; [done|].
  destruct (build_tcp_frame_ok m (mac_address n) (local_ip n) addr lp rp (seq_num c) (ack_num c)
    (Z.lor TCP_FLAG_PSH TCP_FLAG_ACK) (recv_window c) p) as (h1 & h2 & k1 & k2 & ->);
    [done|apply mac_length|apply Hn|rewrite <- Hra; apply Hc|done|]. cbn [mbind outcome_bind].
  match goal with |- context [send_frame (nic n) ?f] => pose proof (transmit_after n f Hn) as Htr; unfold transmit in Htr end.
  destruct (send_frame (nic n) _) as [[r|e] d]; cbn [fst snd] in Htr; [|by exists None, (with_nic n d)].
  eexists (Some (_, _)), _. split; [done|]. split; [done|]. split_and!; try done. apply next_seq_ok, set_last_send_ok.
  apply set_queue_ok; [done..|]. apply Forall_app_2; [apply Hc|]. apply list.Forall_singleton.
  apply entry_ok_new; [done|]. rewrite <- Hra. apply Hc.
Qed.

Lemma send_loop_ok fuel n c lp addr rp bytes total :
  let k := (lp, addr, rp) in
  net_ok n → conn_ok k c → error c = None → Forall is_byte bytes → 0 ≤ total ≤ len bytes →
  ∃ r, send_loop fuel n c lp addr rp bytes total = Ret r ∧
    match r with
    | None => True
    | Some (t, c', n') => net_after n n' ∧ conn_ok k c' ∧ state c' = state c ∧ total ≤ t ≤ len bytes
    end.
Proof.
  intros k Hn Hc He Hb. revert n c total Hn Hc He. induction fuel as [|fuel IH]; intros n c total Hn Hc He Ht; simpl.
  { by exists None. }
  destruct (Z.ltb_spec total (len bytes)); [|exists (Some (total, c, n)); split_and!; (done || lia)].
  destruct (send_chunk_ok n c lp addr rp bytes total) as (r & n1 & -> & Hn1 & Hr); [done..|lia|].
  cbn [mbind outcome_bind]. destruct r as [[c1 t1]|]; [|exists (Some (total, c, n1)); split_and!; (done || lia)].
  destruct Hr as (Hc1 & He1 & Hst1 & _ & _ & Ht1). pose proof (co_cwnd _ _ Hc). pose proof (co_sw _ _ Hc).
  unfold is_uint, MAX_SEGMENT_SIZE in *.
  destruct (IH n1 c1 t1) as (r & -> & Hr); [apply Hn1|done..|lia|].
  exists r. split; [done|]. destruct r as [[[t c'] n']|]; [|done]. destruct Hr as (Hn' & Hc' & Hst' & Ht').
  split_and!; [by eapply net_after_trans|done|congruence|lia|lia].
Qed.

Lemma send_data_ok fuel st lp addr rp bytes :
  stack_ok st → Forall is_byte bytes →
  ∃ r, send_data fuel st lp addr rp bytes = Ret r ∧
    match r with
    | None => True
    | Some (_, st') => stack_ok st' ∧ table_step (CONNECTIONS st) (CONNECTIONS st')
    end.
Proof.
  intros [Hn Hm] Hb. unfold send_data.
  assert (∀ e : result Z TcpOpError, ∃ r, Ret (Some (e, st)) = Ret r ∧
    match r with None => True | Some (_, st') => stack_ok st' ∧ table_step (CONNECTIONS st) (CONNECTIONS st') end) as Hkeep.
  { intros e. eexists. split; [done|]. split; [done|apply table_step_refl]. }
  destruct (CONNECTIONS st !! (lp, addr, rp)) as [c|] eqn:Hk; [|apply Hkeep]. pose proof (Hm _ _ Hk) as Hc.
  destruct (is_reset c); [apply Hkeep|]. destruct (bool_decide _) eqn:Hst; cbn [negb]; [|apply Hkeep].
  apply bool_decide_eq_true in Hst.
  destruct (send_loop_ok fuel (net st) c lp addr rp bytes 0) as (r & -> & Hr);
    [done..|by eapply open_no_error; [|congruence]|done|unfold len; lia|]. cbn [mbind outcome_bind].
  destruct r as [[[t c'] n']|]; [|by exists None]. destruct Hr as (Hn' & Hc' & Hst' & _).
  eexists. split; [done|]. split; [apply stack_ok_insert; [apply Hn'|done..]|].
  apply table_step_insert. rewrite Hk. split; [rewrite Hst', Hst; do 2 constructor|congruence].
Qed.

(** ** Maintenance *)

(** A queued segment that may be given up on this tick. *)
Definition entry_ok' (e : RetransmitEntry) : Prop :=
  (∃ sp dp sq ak fl win payload, segment_fields sp dp sq ak fl win payload ∧
     re_data e = tcp_bytes sp dp sq ak fl win 0 0 payload) ∧
  is_uint 32 (re_remote_addr e) ∧ 0 ≤ attempts e.

Definition cong_ok (w t : Z) : Prop := MAX_SEGMENT_SIZE ≤ w ≤ CWND_MAX ∧ MAX_SEGMENT_SIZE ≤ t ≤ CWND_MAX.

(** What goes out again is the data of queue entries. *)
Definition resend_ok (q : list RetransmitEntry) (out : list (list Z * Z)) : Prop :=
  ∀ x, x ∈ out → ∃ e, e ∈ q ∧ entry_ok e ∧ x = (re_data e, re_remote_addr e).

Lemma check_queue_ok now q w t :
  Forall entry_ok q → cong_ok w t →
  ∃ out q' w' t', check_queue now q w t = Ret (out, q', w', t') ∧ Forall entry_ok' q' ∧ cong_ok w' t' ∧ resend_ok q out.
Proof.
  revert w t. induction q as [|e q IH]; intros w t Hq Hw; simpl.
  { exists [], [], w, t. split_and!; [done|constructor|done|]. intros x Hx. by apply elem_of_nil in Hx. }
  apply list.Forall_cons in Hq as [He Hq]. pose proof He as (Hd & Ha & Hatt).
  assert (∃ out e' w1 t1, check_entry now e w t = Ret (out, e', w1, t1) ∧ entry_ok' e' ∧ cong_ok w1 t1 ∧
    (∀ x, x ∈ out → x = (re_data e, re_remote_addr e))) as (o & e' & w1 & t1 & -> & He' & Hw1 & Ho).
  { unfold check_entry. destruct (_ && _).
    - rewrite add32_ok by (unfold is_uint, MAX_RETRANSMIT_ATTEMPTS in *; lia). cbn [mbind outcome_bind].
      eexists _, _, _, _. split; [done|]. split; [split; [exact Hd|split; [done|simpl; lia]]|]. split.
      { destruct Hw as [? _]. unfold cong_ok, CWND_MAX, MAX_SEGMENT_SIZE in *. pose proof (Z.div_le_upper_bound w 2 w). lia. }
      intros x Hx. by apply list_elem_of_singleton in Hx.
    - eexists _, _, _, _. split; [done|]. split; [split; [exact Hd|split; [done|lia]]|]. split; [done|].
      intros x Hx. by apply elem_of_nil in Hx. }
  cbn [mbind outcome_bind]. destruct (IH w1 t1 Hq Hw1) as (os & q' & w2 & t2 & -> & Hq' & Hw2 & Hos).
  cbn [mbind outcome_bind]. eexists _, _, _, _. split; [done|]. split_and!; [by apply list.Forall_cons|done|].
  intros x [Hx%Ho|Hx%Hos]%elem_of_app; [exists e; set_solver|]. destruct Hx as (e0 & ? & ?). exists e0. set_solver.
Qed.

Lemma send_all_ok q out n :
  net_ok n → resend_ok q out → ∃ n', send_all n out = Ret n' ∧ net_after n n'.
Proof.
  intros Hn Ho. revert n Hn. induction out as [|[seg a] out IH]; intros n Hn; simpl; [by exists n|].
  destruct (Ho (seg, a)) as (e & _ & ((sp & dp & sq & ak & fl & win & p & Hf & Hd) & Ha & _) & [= -> ->]); [set_solver|].
  rewrite Hd. destruct (send_raw_ok n sp dp sq ak fl win p (re_remote_addr e) Hn Ha Hf) as (n1 & -> & Hn1).
  cbn [mbind outcome_bind]. destruct (IH (λ x Hx, Ho x (list_elem_of_further _ _ _ Hx)) n1) as (n2 & -> & Hn2); [apply Hn1|].
  exists n2. split; [done|]. by eapply net_after_trans.
Qed.

Lemma tick_connection_ok k n c :
  net_ok n → conn_ok k c → error c = None →
  ∃ n' c', tick_connection n c = Ret (n', c') ∧ net_after n n' ∧ conn_ok k c' ∧ state c' = state c.
Proof.
  intros Hn Hc He. unfold tick_connection.
  destruct (check_queue_ok (TICKS n) (retransmit_queue c) (cwnd c) (ssthresh c)) as (out & q & w & t & -> & Hq & Hw & Ho);
    [apply Hc|split; apply Hc|]. cbn [mbind outcome_bind].
  set (c1 := set_queue _ _). assert (conn_ok k c1) as Hc1.
  { apply set_queue_ok; [apply set_cong_ok; [done|apply Hw|apply Hw]|done|]. apply list.Forall_forall.
    intros e [Hlt Hin]%list_elem_of_filter. destruct (proj1 (list.Forall_forall _ _) Hq e Hin) as (Hd & Ha & Hat).
    split; [exact Hd|]. by split. }
  set (ka := (_ <=? _) && _). set (c2 := if ka then _ else c1).
  assert (conn_ok k c2) as Hc2 by (unfold c2; destruct ka; [by apply set_last_send_ok|done]).
  destruct (send_all_ok (retransmit_queue c) out n Hn Ho) as (n1 & -> & Hn1). cbn [mbind outcome_bind].
  assert (state c2 = state c) as Hst by (unfold c2; by destruct ka). destruct ka eqn:Hka.
  - rewrite build_tcp_ok. cbn [mbind outcome_bind].
    destruct (send_raw_ok n1 (local_port c2) (remote_port c2) (wrap 32 (seq_num c2 - 1)) (ack_num c2) TCP_FLAG_ACK
      (recv_window c2) [] (remote_addr c2)) as (n2 & -> & Hn2); [apply Hn1|apply Hc2| |].
    { apply bare_fields; try done; try apply Hc2. by apply Z.mod_pos_bound. }
    exists n2, c2. split_and!; [done|by eapply net_after_trans|done|done].
  - exists n1, c2. by split_and!.
Qed.

(** Maintenance only rewrites established connections in place. *)
Definition ticked (m m' : gmap ConnKey TcpConnection) : Prop :=
  ∀ k, m' !! k = m !! k ∨
    (∃ c c', m !! k = Some c ∧ m' !! k = Some c' ∧ state c = Established ∧ state c' = Established).

Lemma tick_all_ok keys st :
  stack_ok st → (∀ k c, k ∈ keys → CONNECTIONS st !! k = Some c → state c = Established) →
  ∃ st', tick_all keys st = Ret st' ∧ stack_ok st' ∧ ticked (CONNECTIONS st) (CONNECTIONS st').
Proof.
  revert st. induction keys as [|k keys IH]; intros st Hst Hkeys; simpl; [exists st; split_and!; [done..|by left]|].
  destruct (CONNECTIONS st !! k) as [c|] eqn:Hk; [|apply IH; [done|set_solver]].
  destruct Hst as [Hn Hm]. pose proof (Hm _ _ Hk) as Hc. assert (state c = Established) as Hest by (apply (Hkeys k); set_solver).
  destruct (tick_connection_ok k (net st) c) as (n' & c' & -> & Hn' & Hc' & Hst'); [done..|by eapply open_no_error; [|congruence]|].
  cbn [mbind outcome_bind]. set (st1 := mkStack n' _ _).
  assert (∀ j, j ≠ k → CONNECTIONS st1 !! j = CONNECTIONS st !! j) as Hother by (intros; by apply lookup_insert_ne).
  assert (CONNECTIONS st1 !! k = Some c') as Hk1 by apply lookup_insert_eq.
  destruct (IH st1) as (st' & -> & Hok & Htk).
  - apply stack_ok_insert; [apply Hn'|done..].
  - intros j cj Hj Hl. destruct (decide (j = k)) as [->|Hne]; [congruence|]. rewrite Hother in Hl by done.
    apply (Hkeys j); [set_solver|done].
  - exists st'. split_and!; [done..|]. intros j. destruct (decide (j = k)) as [->|Hne].
    + right. destruct (Htk k) as [Heq|(d & d' & Hd & Hd' & _ & ?)]; [|by exists c, d'].
      exists c, c'. rewrite Heq. split_and!; [done..|congruence].
    + rewrite <- (Hother j Hne). apply Htk.
Qed.

Lemma keys_in_elem s m k : k ∈ keys_in s m → ∃ c, m !! k = Some c ∧ state c = s.
Proof.
  unfold keys_in. rewrite merge_sort_Permutation. intros Hin.
  apply list_elem_of_fmap in Hin as ([k' c] & -> & Hin).
  apply elem_of_map_to_list in Hin. apply map_lookup_filter_Some in Hin as [Hl Hs]. by exists c.
Qed.

Lemma keys_in_state s m k c : k ∈ keys_in s m → m !! k = Some c → state c = s.
Proof. intros (c' & Hl & Hs)%keys_in_elem Hk. congruence. Qed.

Lemma expire_time_wait_spec keys now m k :
  expire_time_wait keys now m !! k = m !! k ∨
  (k ∈ keys ∧ expire_time_wait keys now m !! k = None).
Proof.
  revert m. induction keys as [|k0 keys IH]; intros m; simpl; [by left|]. set (m1 := match m !! k0 with Some _ => _ | _ => _ end).
  assert (m1 !! k = m !! k ∨ (k = k0 ∧ m1 !! k = None)) as Hm1.
  { unfold m1. destruct (m !! k0); [|by left]. destruct (_ <=? _); [|by left].
    destruct (decide (k = k0)) as [->|]; [right; by rewrite lookup_delete_eq|left; by rewrite lookup_delete_ne]. }
  destruct (IH m1) as [Heq|[Hin Heq]]; rewrite Heq; [|right; set_solver].
  destruct Hm1 as [->|[-> ->]]; [by left|right; set_solver].
Qed.

Lemma periodic_tick_ok st : stack_ok st → st_ok st (periodic_tick st).
Proof.
  intros [Hn Hm]. unfold periodic_tick. set (tw := keys_in TimeWait (CONNECTIONS st)).
  set (m := expire_time_wait _ _ _).
  assert (∀ k, m !! k = CONNECTIONS st !! k ∨ (k ∈ tw ∧ m !! k = None)) as Hexp by (intros; apply expire_time_wait_spec).
  assert (map_Forall conn_ok m) as Hm'.
  { intros k c Hk. destruct (Hexp k) as [Heq|[_ Heq]]; rewrite Heq in Hk; [by apply Hm|done]. }
  destruct (tick_all_ok (keys_in Established m) (with_conns st m)) as (st' & -> & Hok & Htk);
    [done|intros k c Hk Hl; by eapply keys_in_state|].
  exists st'. split_and!; [done..|]. intros k. destruct (Htk k) as [->|(c & c' & Hc & -> & Hs & Hs')]; simpl.
  - destruct (Hexp k) as [->|[Htw ->]]; [apply entry_step_refl|].
    destruct (CONNECTIONS st !! k) as [c|] eqn:Hk; [|done]. by apply (keys_in_state TimeWait (CONNECTIONS st) k).
  - simpl in Hc. destruct (Hexp k) as [Heq|[_ Heq]]; rewrite Heq in Hc; [|done]. rewrite Hc. split; [|congruence].
    rewrite Hs, Hs'. do 2 constructor.
Qed.

Lemma recv_data_ok st lp addr rp room r st' :
  stack_ok st → recv_data st lp addr rp room = (r, st') →
  stack_ok st' ∧ table_step (CONNECTIONS st) (CONNECTIONS st').
Proof.
  intros [Hn Hm]. unfold recv_data. assert (stack_ok st ∧ table_step (CONNECTIONS st) (CONNECTIONS st)) as Hkeep
    by (split; [done|apply table_step_refl]).
  destruct (CONNECTIONS st !! (lp, addr, rp)) as [c|] eqn:Hk; [|by intros [= _ <-]]. pose proof (Hm _ _ Hk) as Hc.
  destruct (is_reset c) eqn:Hr; [by intros [= _ <-]|]. destruct (_ && _) eqn:Hs; [by intros [= _ <-]|].
  destruct (_ =? 0); [by intros [= _ <-]|]. intros [= _ <-].
  assert (state c ≠ Closed) as Hop by (intros Hcl; by rewrite Hcl in Hs).
  split.
  - apply stack_ok_insert; [done..|]. apply set_buffer_ok; [done|by eapply open_no_error|]. apply Forall_drop, Hc.
  - apply table_step_insert. rewrite Hk. split; [do 2 constructor|done].
Qed.

End ops.

(** ** Histories *)

Section histories.
Context {D : Type} `{NetDriverLaws D} `{BuildProfile}.
Implicit Types (n : NetState D) (st : TcpStack D) (c : TcpConnection).

(** Everything that can happen to the stack: an arbitrary packet, each call,
    the timer, and any sound change of the interface below (ARP traffic, time,
    a new lease). *)
Inductive tcp_op : TcpStack D → TcpStack D → Prop :=
  | op_packet st src bytes st' :
      is_uint 32 src → Forall is_byte bytes → len bytes ≤ u16_max →
      handle_tcp_packet st src bytes = Ret st' → tcp_op st st'
  | op_connect st lp addr rp r st' :
      is_uint 16 lp → is_uint 32 addr → is_uint 16 rp → connect st lp addr rp = Ret (r, st') → tcp_op st st'
  | op_send fuel st lp addr rp bytes r st' :
      Forall is_byte bytes → send_data fuel st lp addr rp bytes = Ret (Some (r, st')) → tcp_op st st'
  | op_recv st lp addr rp room r st' : recv_data st lp addr rp room = (r, st') → tcp_op st st'
  | op_close st lp addr rp r st' : close st lp addr rp = Ret (r, st') → tcp_op st st'
  | op_tick st st' : periodic_tick st = Ret st' → tcp_op st st'
  | op_listen st lp : tcp_op st (register_listen_port st lp)
  | op_unlisten st lp : tcp_op st (unregister_listen_port st lp)
  | op_accept st lp : tcp_op st (accept_next st lp).2
  | op_net st n : net_ok n → tcp_op st (with_net st n).

Inductive tcp_step : TcpStack D → TcpStack D → Prop :=
  | step_op st st' : tcp_op st st' → tcp_step st st'
  | step_remove st lp addr rp : tcp_step st (remove_connection st lp addr rp).2.

Definition tcp_boot n : TcpStack D := mkStack n ∅ ∅.

Lemma tcp_op_ok st st' :
  tcp_op st st' → stack_ok st → stack_ok st' ∧ table_step (CONNECTIONS st) (CONNECTIONS st').
Proof.
  intros Hop Hst. assert (stack_ok st ∧ table_step (CONNECTIONS st) (CONNECTIONS st)) as Hkeep
    by (split; [done|apply table_step_refl]).
  destruct Hop as [st src bytes st' Hs Hb Hl Hp|st lp a rp r st' ? ? ? Hp|fuel st lp a rp bytes r st' Hb Hp
    |st lp a rp room r st' Hp|st lp a rp r st' Hp|st st' Hp|st lp|st lp|st lp|st n Hn].
  - destruct (handle_tcp_packet_ok st src bytes) as (s & Hp' & ?); [done..|unfold u16_max in Hl; lia|].
    rewrite Hp in Hp'. by injection Hp' as <-.
  - destruct (connect_ok st lp a rp) as (x & s & Hp' & ?); [done..|]. rewrite Hp in Hp'. by injection Hp' as <- <-.
  - destruct (send_data_ok fuel st lp a rp bytes) as (x & Hp' & Hx); [done..|]. rewrite Hp in Hp'. by injection Hp' as <-.
  - by eapply recv_data_ok.
  - destruct (close_ok st lp a rp) as (x & s & Hp' & ?); [done..|]. rewrite Hp in Hp'. by injection Hp' as <- <-.
  - destruct (periodic_tick_ok st) as (s & Hp' & ?); [done|]. rewrite Hp in Hp'. by injection Hp' as <-.
  - unfold register_listen_port. by destruct (_ !! _).
  - done.
  - unfold accept_next. by destruct (PENDING_ACCEPT st !! lp) as [[|]|].
  - split; [|apply table_step_refl]. split; [done|apply Hst].
Qed.

Lemma tcp_step_ok st st' : tcp_step st st' → stack_ok st → stack_ok st'.
Proof.
  intros [s s' Hop|s lp a rp] Hst; [by apply (tcp_op_ok s)|].
  destruct Hst as [Hn Hm]. split; [done|]. simpl. by apply map_Forall_delete.
Qed.

Lemma tcp_reachable_ok n st : net_ok n → rtc tcp_step (tcp_boot n) st → stack_ok st.
Proof.
  intros Hn Hr. eapply (rtc_ind_r (λ s, stack_ok s)); [|intros y z _ Hs Hy; by eapply tcp_step_ok|exact Hr].
  split; [done|]. apply map_Forall_empty.
Qed.

(** C9: the TCP code is robust. Over every history of calls, timer ticks and
    arbitrary packets from the network, in both build profiles, the connection
    table stays well formed (keys match, counters in range, congestion window
    between one segment and its bound, queued segments intact) and no packet,
    call or tick can panic the kernel. *)
Theorem tcp_robust n st :
  net_ok n → rtc tcp_step (tcp_boot n) st →
  stack_ok st ∧
  (∀ src bytes, is_uint 32 src → Forall is_byte bytes → len bytes ≤ u16_max → handle_tcp_packet st src bytes ≠ Panic) ∧
  (∀ lp addr rp, is_uint 16 lp → is_uint 32 addr → is_uint 16 rp → connect st lp addr rp ≠ Panic) ∧
  (∀ lp addr rp, close st lp addr rp ≠ Panic) ∧
  (∀ fuel lp addr rp bytes, Forall is_byte bytes → send_data fuel st lp addr rp bytes ≠ Panic) ∧
  periodic_tick st ≠ Panic.
Proof.
  intros Hn Hr. pose proof (tcp_reachable_ok n st Hn Hr) as Hst. split_and!; [exact Hst|..].
  - intros src bytes Hs Hb Hl. destruct (handle_tcp_packet_ok st src bytes) as (? & -> & _); [done..|unfold u16_max in Hl; lia|done].
  - intros lp addr rp ???. destruct (connect_ok st lp addr rp) as (? & ? & -> & _); done.
  - intros lp addr rp. destruct (close_ok st lp addr rp) as (? & ? & -> & _); done.
  - intros fuel lp addr rp bytes Hb. destruct (send_data_ok fuel st lp addr rp bytes) as (? & -> & _); done.
  - destruct (periodic_tick_ok st) as (? & -> & _); done.
Qed.


(** A closed connection stays as it is until it is removed. *)
Lemma closed_stays st st' k c :
  stack_ok st → rtc tcp_op st st' → CONNECTIONS st !! k = Some c → state c = Closed → CONNECTIONS st' !! k = Some c.
Proof.
  intros Hst Hr. induction Hr as [|x y z Hop _ IH]; intros Hk Hc; [done|].
  destruct (tcp_op_ok x y Hop Hst) as [Hy Hstep]. specialize (Hstep k). rewrite Hk in Hstep.
  apply IH; [done| |done]. simpl in Hstep. destruct (CONNECTIONS y !! k); [|congruence].
  destruct Hstep as [_ Heq]. by rewrite Heq.
Qed.

(** a reset is final. A segment with RST on an established connection closes
    it, and from then on, whatever happens short of removing the entry, both
    sending and receiving report the reset. *)
Theorem reset_is_final st lp addr rp c h src payload n' c' st' st'' fuel bytes room :
  stack_ok st →
  CONNECTIONS st !! (lp, addr, rp) = Some c → state c = Established → has_flag (flags h) TCP_FLAG_RST = true →
  handle_segment (net st) c h src payload = Ret (n', c') →
  st' = mkStack n' (<[(lp, addr, rp) := c']> (CONNECTIONS st)) (PENDING_ACCEPT st) →
  rtc tcp_op st' st'' →
  get_connection_state st'' lp addr rp = Some Closed ∧
  send_data fuel st'' lp addr rp bytes = Ret (Some (Err OpConnectionReset, st'')) ∧
  recv_data st'' lp addr rp room = (Err OpConnectionReset, st'').
Proof.
  intros [Hnok Hm] Hk Hest Hrst Hh -> Hops.
  unfold handle_segment in Hh. rewrite Hest in Hh. unfold handle_established in Hh. rewrite Hrst in Hh.
  injection Hh as <- <-. set (st' := mkStack _ _ _) in Hops.
  assert (stack_ok st') as Hst'.
  { apply stack_ok_insert; [done..|]. apply handle_reset_ok. by apply Hm. }
  assert (CONNECTIONS st'' !! (lp, addr, rp) = Some (handle_reset c)) as Hk''.
  { apply (closed_stays st'); [done..| |done]. apply lookup_insert_eq. }
  unfold get_connection_state, send_data, recv_data. by rewrite Hk''.
Qed.

End histories.

(** ** Instances on a concrete host *)

Lemma host_ok : net_ok (D := MemNic) (host 1).
Proof. split; [done|]. apply map_Forall_empty. Qed.

(** An established connection of the host to port 80 of 10.0.2.2. *)
Definition sample_conn : TcpConnection :=
  mkConn Established 49152 0x0A000202 80 7 9 8192 8192 [mkEntry 7 (tcp_bytes 49152 80 7 9 (Z.lor TCP_FLAG_PSH TCP_FLAG_ACK) 8192 0 0 [1; 2]) 0x0A000202 100 0] [] MAX_SEGMENT_SIZE 65535 100 100 None.

Lemma sample_conn_ok : conn_ok (49152, 0x0A000202, 80) sample_conn.
Proof.
  constructor; try done. apply list.Forall_singleton, entry_ok_new; [|done].
  unfold segment_fields. split_and!; try done. repeat (apply list.Forall_cons; split); done.
Qed.

Definition sample_stack (n : NetState MemNic) : TcpStack MemNic := mkStack n {[ (49152, 0x0A000202, 80) := sample_conn ]} ∅.

Lemma sample_stack_ok n : net_ok n → stack_ok (sample_stack n).
Proof. intros. split; [done|]. apply map_Forall_singleton, sample_conn_ok. Qed.

Lemma tcp_robust_witness :
  ∃ r st, connect (H0 := dev_profile) (tcp_boot (host 1)) 49152 0x0A000202 80 = Ret (r, st) ∧
    handle_tcp_packet (H0 := dev_profile) st 0x0A000202 [1; 2; 3] ≠ Panic ∧ periodic_tick (H0 := dev_profile) st ≠ Panic.
Proof.
  destruct (connect_ok (H1 := dev_profile) (tcp_boot (host 1)) 49152 0x0A000202 80) as (r & st & Hc & _);
    [split; [apply host_ok|apply map_Forall_empty]|done..|].
  destruct (tcp_robust (H1 := dev_profile) (host 1) st host_ok) as (_ & Hp & _ & _ & _ & Ht).
  { eapply rtc_once, step_op, op_connect; [..|exact Hc]; done. }
  exists r, st. split_and!; [exact Hc| |exact Ht]. apply Hp; [done| |done]. repeat (apply list.Forall_cons; split); done.
Defined.


Lemma reset_is_final_witness :
  ∃ st : TcpStack MemNic, get_connection_state st 49152 0x0A000202 80 = Some Closed ∧
    recv_data st 49152 0x0A000202 80 16 = (Err OpConnectionReset, st).
Proof.
  set (h := mkTcpHeader 80 49152 9 0 TCP_FLAG_RST 0 0 0 5).
  destruct (reset_is_final (H1 := dev_profile) (sample_stack (host 1)) 49152 0x0A000202 80 sample_conn h 0x0A000202 []
    (host 1) (handle_reset sample_conn) _ _ 1 [1] 16 (sample_stack_ok _ host_ok) (lookup_singleton_eq _ _)
    eq_refl eq_refl eq_refl eq_refl (rtc_refl _ _)) as (Hs & _ & Hr).
  eexists. split; [exact Hs|exact Hr].
Defined.
