(* ===== verification/Udp.v ===== *)
(** * UDP datagrams (kernel/src/net/udp.rs)

    Building and sending datagrams, and the per-port receive queues. *)

From S2P Require Import Prelude Ip Arp TcpSegment.

Definition UDP_HEADER_SIZE : Z := 8.
Definition UDP_QUEUE_MAX_DEPTH : Z := 64.
Definition IP_PROTOCOL_UDP : Z := 17.

Record UdpDatagram : Type := mkDatagram {
  dg_src_addr : Z;
  dg_src_port : Z;
  dg_dst_port : Z;
  dg_data : list Z;
}.

Abbreviation UdpQueues := (gmap Z (list UdpDatagram)).

Definition bind_udp_port (q : UdpQueues) (port : Z) : UdpQueues :=
  match q !! port with Some _ => q | None => <[port := []]> q end.

Definition unbind_udp_port (q : UdpQueues) (port : Z) : UdpQueues := delete port q.

Definition handle_incoming_udp (q : UdpQueues) (src_addr : Z) (udp_data : list Z) : outcome UdpQueues :=
  if len udp_data <? UDP_HEADER_SIZE then Ret q
  else
    sp ← read_u16_be udp_data 0;
    dp ← read_u16_be udp_data 2;
    length_field ← read_u16_be udp_data 4;
    payload ← slice udp_data UDP_HEADER_SIZE (len udp_data);
    match q !! dp with
    | Some queue =>
        if len queue <? UDP_QUEUE_MAX_DEPTH
        then Ret (<[dp := queue ++ [mkDatagram src_addr sp dp payload]]> q)
        else Ret q
    | None => Ret q
    end.

(** The bytes copied out with the sender's address and port; [room] is the
    length of the caller's buffer.  [Vec::pop] takes the last element. *)
Definition recv_udp_packet (q : UdpQueues) (port room : Z) : result (list Z * Z * Z) unit * UdpQueues :=
  match q !! port with
  | None => (Err tt, q)
  | Some queue =>
      match list.last queue with
      | None => (Ok ([], 0, 0), q)
      | Some d =>
          (Ok (take (Z.to_nat (Z.min (len (dg_data d)) room)) (dg_data d), dg_src_addr d, dg_src_port d),
           <[port := removelast queue]> q)
      end
  end.

Section send.
Context {D : Type} `{NetDriver D} `{BuildProfile}.

Definition udp_header (sp dp udp_length ck : Z) : list Z :=
  u16_to_be_bytes sp ++ u16_to_be_bytes dp ++ u16_to_be_bytes (cast 16 udp_length) ++ u16_to_be_bytes ck.

(** [build_ip_header] of udp.rs: the same header bytes as the echo reply's,
    with Don't Fragment set. *)
Definition udp_ip_header (s d total : Z) : outcome (list Z) := build_ipv4_header total 0x40 IP_PROTOCOL_UDP s d.

Definition udp_pseudo_header (s d udp_length : Z) : list Z :=
  u32_to_be_bytes s ++ u32_to_be_bytes d ++ [0; IP_PROTOCOL_UDP] ++ u16_to_be_bytes (cast 16 udp_length).

Definition build_udp (s d sp dp : Z) (payload : list Z) : outcome (list Z) :=
  let udp_length := UDP_HEADER_SIZE + len payload in
  let ip_total_length := IP_HEADER_MIN_SIZE + udp_length in
  checksum ← internet_checksum (udp_pseudo_header s d udp_length ++ udp_header sp dp udp_length 0 ++ payload);
  ip_header ← udp_ip_header s d (cast 16 ip_total_length);
  Ret (ip_header ++ udp_header sp dp udp_length checksum ++ payload).

Definition send_udp_packet (n : NetState D) (sp addr dp : Z) (bytes : list Z)
    : outcome (result Z unit * NetState D) :=
  packet ← build_udp (local_ip n) addr sp dp bytes;
  let '(m, n) := arp_lookup n addr in
  match m with
  | None => Ret (Err tt, n)
  | Some dst_mac =>
      frame ← build_ethernet dst_mac (mac_address n) ETHERTYPE_IPV4 packet;
      let '(r, d) := send_frame (nic n) frame in
      Ret (match r with Ok sent => Ok sent | Err _ => Err tt end, with_nic n d)
  end.

End send.

(** ** The bytes of a datagram *)

Section udp_proofs.
Context {D : Type} `{NetDriverLaws D} `{BuildProfile}.

Definition datagram_fields (sp dp : Z) (payload : list Z) : Prop :=
  is_uint 16 sp ∧ is_uint 16 dp ∧ Forall is_byte payload ∧ len payload ≤ 1472.

(** A built datagram: header, UDP header and payload; both checksums verify. *)
Lemma build_udp_ok s d sp dp payload :
  is_uint 32 s → is_uint 32 d → datagram_fields sp dp payload →
  ∃ h1 h2 ck,
    let hdr := wire_header (28 + len payload) 0 0x4000 IP_PROTOCOL_UDP h1 h2 s d in
    let body := udp_header sp dp (8 + len payload) ck ++ payload in
    build_udp s d sp dp payload = Ret (hdr ++ body) ∧ is_uint 16 ck ∧
    internet_checksum hdr = Ret 0 ∧ internet_checksum (udp_pseudo_header s d (8 + len payload) ++ body) = Ret 0.
Proof.
  intros Hs Hd (Hsp & Hdp & Hb & Hl). unfold build_udp, UDP_HEADER_SIZE, IP_HEADER_MIN_SIZE, udp_ip_header.
  set (ph := udp_pseudo_header s d (8 + len payload)).
  set (p := ph ++ u16_to_be_bytes sp ++ u16_to_be_bytes dp ++ u16_to_be_bytes (cast 16 (8 + len payload))).
  assert (∀ ck, ph ++ udp_header sp dp (8 + len payload) ck ++ payload = p ++ u16_to_be_bytes ck ++ payload) as Heq.
  { intros ck. unfold p, udp_header. by rewrite <- !app_assoc. }
  assert (is_uint 16 (cast 16 (8 + len payload))) as Hul by (by apply Z.mod_pos_bound).
  assert (Forall is_byte p) as Hp.
  { unfold p, ph, udp_pseudo_header. repeat first [done | apply Forall_app_2 | apply u16_bytes | apply u32_bytes | apply list.Forall_cons; split]. }
  assert (words_sum (p ++ 0 :: 0 :: payload) < 2 ^ 32 - 65535) as Hsum.
  { assert (Forall is_byte (p ++ 0 :: 0 :: payload)) as Hall.
    { apply Forall_app_2; [done|]. by repeat (apply list.Forall_cons; split). }
    pose proof (words_sum_bound _ Hall) as Hbd. assert ((len (p ++ 0 :: 0 :: payload) + 1) `div` 2 ≤ 1000); [|lia].
    apply Z.div_le_upper_bound; [lia|]. unfold p, ph, len in *. rewrite length_app. simpl. lia. }
  rewrite Heq. change (u16_to_be_bytes 0 ++ payload) with (0 :: 0 :: payload).
  destruct (internet_checksum_ok (p ++ 0 :: 0 :: payload)) as (f & Hck & _).
  { apply Forall_app_2; [done|]. by repeat (apply list.Forall_cons; split). }
  { lia. }
  rewrite Hck. cbn [mbind outcome_bind].
  destruct (checksum_cancels p payload (65535 - f)) as [Hc Hz]; [by exists 9%nat|done..|].
  replace (20 + (8 + len payload)) with (28 + len payload) by lia.
  assert (cast 16 (28 + len payload) = 28 + len payload) as -> by (apply Z.mod_small; unfold len in *; lia).
  destruct (build_ipv4_header_ok (28 + len payload) 0x40 IP_PROTOCOL_UDP s d) as (h1 & h2 & -> & Hh);
    [unfold is_uint, len in *; lia|done..|]. cbn [mbind outcome_bind].
  exists h1, h2, (65535 - f). split; [done|]. split; [done|]. split; [done|]. by rewrite Heq.
Qed.

(** ** Queues *)

(** What the receiver makes of such a datagram. *)
Lemma handle_incoming_udp_ok q src sp dp ck payload queue :
  is_uint 16 sp → is_uint 16 dp → q !! dp = Some queue → len queue < UDP_QUEUE_MAX_DEPTH →
  handle_incoming_udp q src (udp_header sp dp (8 + len payload) ck ++ payload) =
  Ret (<[dp := queue ++ [mkDatagram src sp dp payload]]> q).
Proof.
  intros Hsp Hdp Hq Hroom. unfold handle_incoming_udp, UDP_HEADER_SIZE.
  set (l := udp_header sp dp (8 + len payload) ck ++ payload).
  assert (len l = 8 + len payload) as Hl by (unfold l, len, udp_header; rewrite length_app; simpl; lia).
  destruct (Z.ltb_spec (len l) 8); [unfold len in *; lia|]. rewrite slice_tail by (rewrite Hl; unfold len; lia).
  pose proof (u16_bytes_roundtrip sp Hsp) as (Hsp' & _). pose proof (u16_bytes_roundtrip dp Hdp) as (Hdp' & _).
  change (read_u16_be l 0) with (Ret (u16_from_be_bytes (sp `div` 256) (sp mod 256))).
  change (read_u16_be l 2) with (Ret (u16_from_be_bytes (dp `div` 256) (dp mod 256))).
  change (drop (Z.to_nat 8) l) with payload. rewrite Hsp', Hdp'. cbn [mbind outcome_bind].
  change (read_u16_be l 4) with (Ret (u16_from_be_bytes (cast 16 (8 + len payload) `div` 256) (cast 16 (8 + len payload) mod 256))).
  cbn [mbind outcome_bind]. rewrite Hq. by rewrite (proj2 (Z.ltb_lt _ _) Hroom).
Qed.


(** datagrams come out newest first. Of two datagrams that arrive at an
    empty queue, the first receive returns the second one, although the
    contract says the oldest is dequeued. *)
Theorem udp_newest_first q src sp1 p1 ck1 sp2 p2 ck2 dp room1 room2 :
  is_uint 16 sp1 → is_uint 16 sp2 → is_uint 16 dp → q !! dp = Some [] → len p1 ≤ room2 → len p2 ≤ room1 →
  ∃ q1 q2 q3,
    handle_incoming_udp q src (udp_header sp1 dp (8 + len p1) ck1 ++ p1) = Ret q1 ∧
    handle_incoming_udp q1 src (udp_header sp2 dp (8 + len p2) ck2 ++ p2) = Ret q2 ∧
    recv_udp_packet q2 dp room1 = (Ok (p2, src, sp2), q3) ∧
    (recv_udp_packet q3 dp room2).1 = Ok (p1, src, sp1).
Proof.
  intros Hsp1 Hsp2 Hdp Hq Hr1 Hr2.
  eexists _, _, _. split; [by apply (handle_incoming_udp_ok q src sp1 dp ck1 p1 [])|].
  split; [apply (handle_incoming_udp_ok _ src sp2 dp ck2 p2 [mkDatagram src sp1 dp p1]); [done..|apply lookup_insert_eq|done]|].
  assert (∀ (l : list Z) r, len l ≤ r → take (Z.to_nat (Z.min (len l) r)) l = l) as Htk.
  { intros l r Hl. apply take_ge. unfold len in *. lia. }
  unfold recv_udp_packet at 1. rewrite lookup_insert_eq. simpl. rewrite Htk by done. split; [done|].
  unfold recv_udp_packet. rewrite lookup_insert_eq. simpl. by rewrite Htk.
Qed.

End udp_proofs.

(** ** Concrete runs *)

(** The host 10.0.2.1 after it has resolved 10.0.2.2. *)
Definition resolved_host : NetState MemNic :=
  with_arp (host 1) {[ 0x0A000202 := mkArpEntry [0x52; 0x54; 0; 0; 0; 2] 100 ]}.


Lemma udp_newest_first_witness :
  ∃ q2 q3, recv_udp_packet q2 53 512 = (Ok ([2], 0x0A000202, 7), q3) ∧ (recv_udp_packet q3 53 512).1 = Ok ([1], 0x0A000202, 7).
Proof.
  destruct (udp_newest_first {[ 53 := [] ]} 0x0A000202 7 [1] 0 7 [2] 0 53 512 512) as (q1 & q2 & q3 & _ & _ & Hr2 & Hr3); try done.
  exists q2, q3. split; [exact Hr2|exact Hr3].
Defined.
