(* ===== verification/Fragment.v ===== *)
(** * IPv4 fragmentation and reassembly (kernel/src/net/fragment.rs), and the
    IPv4 path of the frame dispatcher (kernel/src/net/mod.rs)

    The two globals [FRAGMENT_CACHE] and [FRAGMENT_STATS] are one state.
    Offsets are at most 65528 and payloads at most 65535 bytes, so sums of
    offsets and lengths stay far below the width of [usize] and are plain
    additions. *)

From stdpp Require Import relations sorting.
From S2P Require Import Prelude Ip.

Definition FRAGMENT_TIMEOUT_TICKS : Z := 546.
Definition MAX_FRAGMENT_SETS : nat := 256.
Definition MAX_FRAGMENTS_PER_DATAGRAM : nat := 64.
Definition FRAGMENT_OFFSET_UNIT : Z := 8.
Definition MF_FLAG : Z := 0x2000.
Definition DF_FLAG : Z := 0x4000.
Definition OFFSET_MASK : Z := 0x1FFF.

Record FragmentKey : Type := mkFragmentKey {
  key_src_ip : Z;
  key_dst_ip : Z;
  identification : Z;
  key_protocol : Z;
}.
#[export] Instance FragmentKey_eq_dec : EqDecision FragmentKey.
Proof. solve_decision. Defined.
#[export] Instance FragmentKey_countable : Countable FragmentKey.
Proof.
  refine (inj_countable' (λ k, (key_src_ip k, key_dst_ip k, identification k, key_protocol k))
            (λ '(s, d, i, p), mkFragmentKey s d i p) _). by intros [].
Defined.

Record FragmentData : Type := mkFragmentData {
  offset : Z;
  frag_data : list Z;
  more_fragments : bool;
}.

Record FragmentSet : Type := mkFragmentSet {
  timestamp : Z;
  fragments : list FragmentData;
  total_payload_length : option Z;
}.

Record FragmentStats : Type := mkFragmentStats {
  fragments_received : Z;
  datagrams_reassembled : Z;
  timed_out : Z;
  overlap_errors : Z;
  cache_full_drops : Z;
  too_many_fragments : Z;
  invalid_fragments : Z;
}.

Definition FRAGMENT_STATS_DEFAULT : FragmentStats := mkFragmentStats 0 0 0 0 0 0 0.

Record FragState : Type := mkFragState {
  cache : gmap FragmentKey FragmentSet;
  stats : FragmentStats;
}.

(** The error strings, by the condition they report. *)
Inductive frag_error : Type :=
| ErrTooShort | ErrTotalLength | ErrUnaligned | ErrCacheFull | ErrTooMany | ErrOverlap.

Definition with_cache (st : FragState) (c : gmap FragmentKey FragmentSet) : FragState :=
  mkFragState c (stats st).

Definition frag_end (f : FragmentData) : Z := offset f + len (frag_data f).

Definition parse_fragment_info (packet : list Z) : outcome (option (Z * bool * bool * Z)) :=
  if len packet <? IP_HEADER_MIN_SIZE then Ret None
  else
    i1 ← index packet 4; i2 ← index packet 5;
    f1 ← index packet 6; f2 ← index packet 7;
    let id := u16_from_be_bytes i1 i2 in
    let flags_offset := u16_from_be_bytes f1 f2 in
    let mf := negb (Z.land flags_offset MF_FLAG =? 0) in
    let df_set := negb (Z.land flags_offset DF_FLAG =? 0) in
    let offset_bytes := Z.land flags_offset OFFSET_MASK * FRAGMENT_OFFSET_UNIT in
    let is_fragment := negb df_set && (mf || (offset_bytes >? 0)) in
    Ret (Some (id, is_fragment, mf, offset_bytes)).

(** The test of [has_overlap] for one existing fragment. *)
Definition partial_overlap (f new : FragmentData) : bool :=
  let new_start := offset new in let new_end := frag_end new in
  let exist_start := offset f in let exist_end := frag_end f in
  if (new_start <? exist_end) && (exist_start <? new_end) then
    let new_contained := (new_start >=? exist_start) && (new_end <=? exist_end) in
    let exist_contained := (exist_start >=? new_start) && (exist_end <=? new_end) in
    negb new_contained && negb exist_contained
  else false.

Definition has_overlap (existing : list FragmentData) (new : FragmentData) : bool :=
  existsb (λ f, partial_overlap f new) existing.

(** [slice::binary_search_by] on the offset: the window [base, base + size) is
    halved while it has more than one element.  [Err i] is the position where
    the key would go. *)
Fixpoint bs_loop (fuel : nat) (l : list FragmentData) (k : Z) (base size : nat) : nat :=
  match fuel with
  | O => base
  | S fuel =>
      if Nat.leb size 1 then base
      else
        let half := Nat.div2 size in
        let mid := (base + half)%nat in
        let go_right := match l !! mid with Some f => offset f <=? k | None => false end in
        bs_loop fuel l k (if go_right then mid else base) (size - half)
  end.

Definition binary_search (l : list FragmentData) (k : Z) : result nat nat :=
  if Nat.eqb (length l) 0 then Err O
  else
    let base := bs_loop (length l) l k 0 (length l) in
    match l !! base with
    | Some f =>
        if offset f =? k then Ok base else Err (if offset f <? k then S base else base)
    | None => Err base
    end.

Definition insert_at {A} (l : list A) (i : nat) (x : A) : list A := take i l ++ x :: drop i l.

(** [sort_by_key] is a stable sort. *)
Fixpoint sort_insert (f : FragmentData) (l : list FragmentData) : list FragmentData :=
  match l with
  | [] => [f]
  | g :: l' => if offset f <=? offset g then f :: l else g :: sort_insert f l'
  end.

Definition sort_by_offset (l : list FragmentData) : list FragmentData := foldr sort_insert [] l.

(** The end of the last fragment with [more_fragments = false], if any. *)
Definition last_end (l : list FragmentData) : option Z :=
  foldl (λ acc f, if more_fragments f then acc else Some (frag_end f)) None l.

(** The coverage loop: [None] on a gap. *)
Fixpoint covered_loop (l : list FragmentData) (covered_up_to : Z) : option Z :=
  match l with
  | [] => Some covered_up_to
  | f :: l => if offset f >? covered_up_to then None else covered_loop l (Z.max covered_up_to (frag_end f))
  end.

(** [payload[f.offset..end].copy_from_slice(&f.data[..end - f.offset])]. *)
Definition copy_fragment (payload : list Z) (f : FragmentData) (total_length : Z) : outcome (list Z) :=
  let e := Z.min (frag_end f) total_length in
  _ ← slice payload (offset f) e;
  src ← slice (frag_data f) 0 (e - offset f);
  Ret (take (Z.to_nat (offset f)) payload ++ src ++ drop (Z.to_nat e) payload).

Fixpoint copy_all (l : list FragmentData) (payload : list Z) (total_length : Z) : outcome (list Z) :=
  match l with
  | [] => Ret payload
  | f :: l => p ← copy_fragment payload f total_length; copy_all l p total_length
  end.

Definition check_complete (set : FragmentSet) : outcome (option (list Z)) :=
  match last_end (fragments set) with
  | None => Ret None
  | Some total_length =>
      match covered_loop (sort_by_offset (fragments set)) 0 with
      | None => Ret None
      | Some covered_up_to =>
          if covered_up_to <? total_length then Ret None
          else
            p ← copy_all (fragments set) (replicate (Z.to_nat total_length) 0) total_length;
            Ret (Some p)
      end
  end.

Section ops.
Context `{BuildProfile}.

(** ** Statistics counters *)

Definition set_stats (st : FragState) (s : FragmentStats) : FragState := mkFragState (cache st) s.

Definition count_received (st : FragState) : outcome FragState :=
  let s := stats st in
  c ← add64 (fragments_received s) 1;
  Ret (set_stats st (mkFragmentStats c (datagrams_reassembled s) (timed_out s) (overlap_errors s)
    (cache_full_drops s) (too_many_fragments s) (invalid_fragments s))).

Definition count_reassembled (st : FragState) : outcome FragState :=
  let s := stats st in
  c ← add64 (datagrams_reassembled s) 1;
  Ret (set_stats st (mkFragmentStats (fragments_received s) c (timed_out s) (overlap_errors s)
    (cache_full_drops s) (too_many_fragments s) (invalid_fragments s))).

Definition count_timed_out (st : FragState) (n : Z) : outcome FragState :=
  let s := stats st in
  c ← add64 (timed_out s) n;
  Ret (set_stats st (mkFragmentStats (fragments_received s) (datagrams_reassembled s) c (overlap_errors s)
    (cache_full_drops s) (too_many_fragments s) (invalid_fragments s))).

Definition count_overlap (st : FragState) : outcome FragState :=
  let s := stats st in
  c ← add64 (overlap_errors s) 1;
  Ret (set_stats st (mkFragmentStats (fragments_received s) (datagrams_reassembled s) (timed_out s) c
    (cache_full_drops s) (too_many_fragments s) (invalid_fragments s))).

Definition count_cache_full (st : FragState) : outcome FragState :=
  let s := stats st in
  c ← add64 (cache_full_drops s) 1;
  Ret (set_stats st (mkFragmentStats (fragments_received s) (datagrams_reassembled s) (timed_out s)
    (overlap_errors s) c (too_many_fragments s) (invalid_fragments s))).

Definition count_too_many (st : FragState) : outcome FragState :=
  let s := stats st in
  c ← add64 (too_many_fragments s) 1;
  Ret (set_stats st (mkFragmentStats (fragments_received s) (datagrams_reassembled s) (timed_out s)
    (overlap_errors s) (cache_full_drops s) c (invalid_fragments s))).

Definition count_invalid (st : FragState) : outcome FragState :=
  let s := stats st in
  c ← add64 (invalid_fragments s) 1;
  Ret (set_stats st (mkFragmentStats (fragments_received s) (datagrams_reassembled s) (timed_out s)
    (overlap_errors s) (cache_full_drops s) (too_many_fragments s) c)).

(** ** Reassembly *)

Definition frag_result : Type := result (option (list Z)) frag_error * FragState.

Definition reassemble_fragment (st : FragState) (key : FragmentKey) (fragment : FragmentData) (now : Z)
    : outcome frag_result :=
  if bool_decide (cache st !! key = None) && Nat.leb MAX_FRAGMENT_SETS (size (cache st)) then
    st ← count_cache_full st; Ret (Err ErrCacheFull, st)
  else
    let old := default (mkFragmentSet now [] None) (cache st !! key) in
    let set := mkFragmentSet now (fragments old) (total_payload_length old) in
    let st := with_cache st (<[key := set]> (cache st)) in
    if Nat.leb MAX_FRAGMENTS_PER_DATAGRAM (length (fragments set)) then
      st ← count_too_many st; Ret (Err ErrTooMany, st)
    else if has_overlap (fragments set) fragment then
      st ← count_overlap st; Ret (Err ErrOverlap, st)
    else
      let insert_idx := match binary_search (fragments set) (offset fragment) with Ok i | Err i => i end in
      let set := mkFragmentSet now (insert_at (fragments set) insert_idx fragment) (total_payload_length set) in
      let st := with_cache st (<[key := set]> (cache st)) in
      st ← count_received st;
      complete ← check_complete set;
      match complete with
      | Some payload =>
          let st := with_cache st (delete key (cache st)) in
          st ← count_reassembled st; Ret (Ok (Some payload), st)
      | None => Ret (Ok None, st)
      end.

Definition try_reassemble (st : FragState) (packet : list Z) (now : Z) : outcome frag_result :=
  if len packet <? IP_HEADER_MIN_SIZE then Ret (Err ErrTooShort, st)
  else
    info ← parse_fragment_info packet;
    match info with
    | None => Ret (Err ErrTooShort, st)
    | Some (id, is_fragment, mf, offset_bytes) =>
        if negb is_fragment then Ret (Ok None, st)
        else
          s ← read_u32_be packet 12;
          d ← read_u32_be packet 16;
          proto ← index packet 9;
          tl ← read_u16_be packet 2;
          b0 ← index packet 0;
          let hl := Z.land b0 0x0F * 4 in
          if tl <? hl then Ret (Err ErrTotalLength, st)
          else
            frag_payload ← slice packet hl tl;
            if negb (len frag_payload mod FRAGMENT_OFFSET_UNIT =? 0) && mf then
              st ← count_invalid st; Ret (Err ErrUnaligned, st)
            else
              reassemble_fragment st (mkFragmentKey s d id proto)
                (mkFragmentData offset_bytes frag_payload mf) now
    end.

Definition expire_fragments (st : FragState) (now : Z) : outcome FragState :=
  let kept := filter (λ kv, saturating_sub now (timestamp kv.2) < FRAGMENT_TIMEOUT_TICKS) (cache st) in
  expired ← sub64 (Z.of_nat (size (cache st))) (Z.of_nat (size kept));
  let st := with_cache st kept in
  if expired >? 0 then count_timed_out st expired else Ret st.

Definition clear_fragment_cache (st : FragState) : FragState := with_cache st ∅.
Definition reset_fragment_stats (st : FragState) : FragState := set_stats st FRAGMENT_STATS_DEFAULT.
Definition get_fragment_stats (st : FragState) : FragmentStats := stats st.

(** ** Sending *)

Definition build_ip_header (buf : list Z) (tl identification units : Z) (mf : bool) (proto s d : Z)
    : outcome (list Z) :=
  if len buf <? IP_HEADER_MIN_SIZE then Panic
  else
    let flags0 := Z.land units OFFSET_MASK in
    let flags_offset := if mf then Z.lor flags0 MF_FLAG else flags0 in
    Ret ([0x45; 0] ++ u16_to_be_bytes tl ++ u16_to_be_bytes identification ++ u16_to_be_bytes flags_offset ++
         [IP_DEFAULT_TTL; proto; 0; 0] ++ u32_to_be_bytes s ++ u32_to_be_bytes d ++
         drop (Z.to_nat IP_HEADER_MIN_SIZE) buf).

(** The packet around one piece of the payload: zeroed buffer, header, data,
    checksum. *)
Definition build_packet (piece : list Z) (identification units : Z) (mf : bool) (proto s d : Z)
    : outcome (list Z) :=
  let total := IP_HEADER_MIN_SIZE + len piece in
  let buf := replicate (Z.to_nat total) 0 in
  buf ← build_ip_header buf (cast 16 total) identification (cast 16 units) mf proto s d;
  let packet := take (Z.to_nat IP_HEADER_MIN_SIZE) buf ++ piece in
  header ← slice packet 0 IP_HEADER_MIN_SIZE;
  c ← internet_checksum header;
  Ret (<[11%nat := Z.land c 0xFF]> (<[10%nat := Z.shiftr c 8]> packet)).

Fixpoint build_fragments (idxs : list nat) (payload : list Z) (max_frag_data num_fragments : Z)
    (s d identification proto : Z) : outcome (list (list Z)) :=
  match idxs with
  | [] => Ret []
  | i :: idxs =>
      let off := Z.of_nat i * max_frag_data in
      let is_last := Z.of_nat i =? num_fragments - 1 in
      let frag_size := if is_last then len payload - off else max_frag_data in
      piece ← slice payload off (off + frag_size);
      packet ← build_packet piece identification (off `div` FRAGMENT_OFFSET_UNIT) (negb is_last) proto s d;
      rest ← build_fragments idxs payload max_frag_data num_fragments s d identification proto;
      Ret (packet :: rest)
  end.

Definition fragment_payload (payload : list Z) (s d identification proto mtu : Z)
    : outcome (list (list Z)) :=
  if len payload + IP_HEADER_MIN_SIZE <=? mtu then
    packet ← build_packet payload identification 0 false proto s d; Ret [packet]
  else
    room ← sub64 mtu IP_HEADER_MIN_SIZE;
    let max_frag_data := room `div` FRAGMENT_OFFSET_UNIT * FRAGMENT_OFFSET_UNIT in
    if max_frag_data =? 0 then Panic
    else
      let num_fragments := div_ceil (len payload) max_frag_data in
      build_fragments (seq 0 (Z.to_nat num_fragments)) payload max_frag_data num_fragments s d identification proto.

(** ** The dispatcher *)

(** Where [handle_frame] sends a frame; [dispatch_ipv4_payload] and the other
    protocol handlers are outside this model. *)
Inductive frame_action : Type :=
| Drop
| ToArp (eth : EthernetHeader) (payload : list Z)
| ToIpv4 (eth_src : list Z) (proto s d : Z) (payload : list Z)
| ToIpv6 (eth_src : list Z) (payload : list Z).

Definition handle_frame (st : FragState) (frame : list Z) (now : Z) : outcome (frame_action * FragState) :=
  parsed ← parse_ethernet frame;
  match parsed with
  | None => Ret (Drop, st)
  | Some (eth, payload) =>
      if ethertype eth =? ETHERTYPE_ARP then Ret (ToArp eth payload, st)
      else if ethertype eth =? ETHERTYPE_IPV4 then
        hdr ← parse_ipv4 payload;
        match hdr with
        | None => Ret (Drop, st)
        | Some ipv4 =>
            '(r, st) ← try_reassemble st payload now;
            match r with
            | Err _ => Ret (Drop, st)
            | Ok (Some reassembled) =>
                Ret (ToIpv4 (src_mac eth) (protocol ipv4) (src_ip ipv4) (dst_ip ipv4) reassembled, st)
            | Ok None =>
                body ← slice payload (header_len ipv4) (len payload);
                Ret (ToIpv4 (src_mac eth) (protocol ipv4) (src_ip ipv4) (dst_ip ipv4) body, st)
            end
        end
      else if ethertype eth =? ETHERTYPE_IPV6 then Ret (ToIpv6 (src_mac eth) payload, st)
      else Ret (Drop, st)
  end.

End ops.

(** ** Insertion keeps the fragments sorted *)

Definition offset_lt (f g : FragmentData) : Prop := offset f < offset g.

Lemma sorted_lookup_lt l i j f g :
  StronglySorted offset_lt l → l !! i = Some f → l !! j = Some g → (i < j)%nat → offset f < offset g.
Proof.
  intros Hs. revert i j. induction Hs as [|h l Hs IH Hh]; intros i j Hi Hj Hlt; [done|].
  destruct j as [|j]; [lia|]. simpl in Hj. destruct i as [|i]; simpl in Hi.
  - simplify_eq. rewrite Forall_lookup in Hh. by apply (Hh j).
  - apply (IH i j); [done..|lia].
Qed.

(** The loop ends at the last position whose offset is at most the key, or at
    the first position. *)
Lemma bs_loop_spec fuel l k base size :
  (size ≤ fuel)%nat → (0 < size)%nat → (base + size ≤ length l)%nat →
  (base = O ∨ ∃ f, l !! base = Some f ∧ offset f ≤ k) →
  (∀ j f, l !! j = Some f → (base + size ≤ j)%nat → k < offset f) →
  StronglySorted offset_lt l →
  let r := bs_loop fuel l k base size in
  (r < length l)%nat ∧ (r = O ∨ ∃ f, l !! r = Some f ∧ offset f ≤ k) ∧
  (∀ j f, l !! j = Some f → (r < j)%nat → k < offset f).
Proof.
  revert base size. induction fuel as [|fuel IH]; intros base size Hf Hpos Hlen Hlo Hhi Hs; simpl; [lia|].
  destruct (Nat.leb_spec size 1).
  { split_and!; [lia|done|]. intros j f Hj ?. apply (Hhi j f Hj). lia. }
  assert (0 < Nat.div2 size ∧ 2 * Nat.div2 size ≤ size)%nat as Hhalf.
  { rewrite Nat.div2_div. split; [apply Nat.div_str_pos; lia | apply Nat.Div0.mul_div_le]. }
  assert (∃ f, l !! (base + Nat.div2 size)%nat = Some f) as [f Hmid] by (apply lookup_lt_is_Some; lia).
  rewrite Hmid. destruct (Z.leb_spec (offset f) k).
  - apply IH; [lia..|eauto| |done]. intros j g Hj ?. apply (Hhi j g Hj). lia.
  - apply IH; [lia..|done| |done]. intros j g Hj Hle.
    destruct (decide (j = base + Nat.div2 size)%nat) as [->|]; [by simplify_eq|].
    pose proof (sorted_lookup_lt l _ _ _ _ Hs Hmid Hj ltac:(lia)). lia.
Qed.

(** On a sorted list without the key, the search returns the insertion point. *)
Lemma binary_search_spec l k :
  StronglySorted offset_lt l → Forall (λ f, offset f ≠ k) l →
  ∃ i, binary_search l k = Err i ∧ (i ≤ length l)%nat ∧
    Forall (λ f, offset f < k) (take i l) ∧ Forall (λ f, k < offset f) (drop i l).
Proof.
  intros Hs Hne. unfold binary_search. destruct (Nat.eqb_spec (length l) 0) as [H0|H0].
  { apply nil_length_inv in H0 as ->. exists O. split_and!; [done|done|constructor|constructor]. }
  destruct (bs_loop_spec (length l) l k 0 (length l)) as (Hr & Hlo & Hhi);
    [lia|lia|lia|by left|intros j f ?%lookup_lt_Some; lia|done|].
  set (r := bs_loop _ _ _ _ _) in *. assert (∃ f, l !! r = Some f) as [f Hf] by by apply lookup_lt_is_Some.
  rewrite Hf. assert (offset f ≠ k) as Hfk by (rewrite Forall_lookup in Hne; by apply (Hne r)).
  rewrite (proj2 (Z.eqb_neq _ _) Hfk).
  assert (∀ i, (∀ j g, l !! j = Some g → (j < i)%nat → offset g < k) →
               (∀ j g, l !! j = Some g → (i ≤ j)%nat → k < offset g) →
               Forall (λ f, offset f < k) (take i l) ∧ Forall (λ f, k < offset f) (drop i l)) as Hsplit.
  { intros i Hl Hg. split; apply Forall_lookup; intros j g Hj.
    - apply lookup_take_Some in Hj as [Hj ?]. eauto.
    - rewrite lookup_drop in Hj. apply (Hg _ _ Hj). lia. }
  destruct (Z.ltb_spec (offset f) k) as [Hlt|Hge].
  - exists (S r). split; [done|]. split; [lia|]. apply Hsplit; intros j g Hj Hji.
    + destruct (decide (j = r)) as [->|]; [congruence|].
      pose proof (sorted_lookup_lt l _ _ _ _ Hs Hj Hf ltac:(lia)). lia.
    + apply (Hhi j g Hj). lia.
  - exists r. split; [done|]. split; [lia|]. destruct Hlo as [Hr0|(f' & Hf' & Hle)]; [|simplify_eq; lia].
    rewrite Hr0 in *. apply Hsplit; intros j g Hj Hji; [lia|].
    destruct j as [|j]; [simplify_eq; lia|]. apply (Hhi _ _ Hj). lia.
Qed.

Lemma sort_insert_head f l : Forall (offset_lt f) l → sort_insert f l = f :: l.
Proof.
  destruct l as [|g l]; [done|]. intros [Hlt _]%list.Forall_cons. simpl. unfold offset_lt in Hlt.
  by rewrite (proj2 (Z.leb_le (offset f) (offset g))) by lia.
Qed.

Lemma sort_by_offset_sorted l : StronglySorted offset_lt l → sort_by_offset l = l.
Proof. induction 1 as [|f l Hs IH Hf]; simpl; [done|]. fold (sort_by_offset l). by rewrite IH, sort_insert_head. Qed.

Lemma last_end_snoc l f :
  last_end (l ++ [f]) = if more_fragments f then last_end l else Some (frag_end f).
Proof. unfold last_end. by rewrite foldl_app. Qed.

Lemma last_end_none l : Forall (λ f, more_fragments f = true) l → last_end l = None.
Proof.
  induction l as [|f l IH] using rev_ind; [done|]. intros [Hl Hf]%Forall_app. rewrite last_end_snoc.
  rewrite (Forall_inv Hf). auto.
Qed.

(** ** The pieces of a payload *)

Section pieces.
(** [n] pieces of [m] bytes, the last one possibly shorter. *)
Context (payload : list Z) (m n : nat).
Hypothesis (Hm : (0 < m)%nat) (Hn : (0 < n)%nat)
  (Hlast : ((n - 1) * m < length payload)%nat) (Htot : (length payload ≤ n * m)%nat).

Definition piece (i : nat) : FragmentData :=
  mkFragmentData (Z.of_nat (i * m)) (take m (drop (i * m) payload)) (negb (Nat.eqb i (n - 1))).

(** Where the bytes of the first [i] pieces end. *)
Definition covered (i : nat) : nat := Nat.min (i * m) (length payload).

Lemma covered_lt i : (i < n)%nat → covered i = (i * m)%nat ∧ (i * m < length payload)%nat.
Proof. intros Hi. unfold covered. assert (i * m ≤ (n - 1) * m)%nat by (apply Nat.mul_le_mono_r; lia). lia. Qed.

Lemma frag_end_piece i : (i < n)%nat → frag_end (piece i) = Z.of_nat (covered (S i)).
Proof.
  intros Hi. destruct (covered_lt i Hi). unfold frag_end, piece, covered, len. simpl.
  rewrite length_take, length_drop. lia.
Qed.

Lemma covered_end : covered n = length payload.
Proof. unfold covered. lia. Qed.

Lemma piece_sorted js : StronglySorted lt js → StronglySorted offset_lt (piece <$> js).
Proof.
  induction 1 as [|j js Hs IH Hj]; csimpl; constructor; [done|]. apply Forall_fmap.
  eapply list.Forall_impl; [done|]. intros j' Hlt. unfold offset_lt. simpl.
  apply inj_lt. by apply Nat.mul_lt_mono_pos_r.
Qed.

Lemma piece_offset_inj i j : offset (piece i) = offset (piece j) → i = j.
Proof. simpl. intros Heq%Nat2Z.inj. apply Nat.mul_cancel_r in Heq; lia. Qed.

(** The coverage loop finds a gap unless the pieces are consecutive. *)
Lemma covered_loop_pieces js k :
  StronglySorted lt js → Forall (λ j, k ≤ j < n)%nat js → (k ≤ n)%nat →
  covered_loop (piece <$> js) (Z.of_nat (covered k)) =
    if decide (js = seq k (length js)) then Some (Z.of_nat (covered (k + length js))) else None.
Proof.
  intros Hs. revert k. induction Hs as [|j js Hs IH Hj]; intros k Hall Hk; csimpl.
  { by rewrite Nat.add_0_r. }
  apply list.Forall_cons in Hall as [Hjk Hall]. destruct (covered_lt j) as [Hcj Hjl]; [lia|].
  destruct (decide (j = k)) as [->|Hne].
  - rewrite Hcj. destruct (Z.gtb_spec (Z.of_nat (k * m)) (Z.of_nat (k * m))); [lia|].
    rewrite frag_end_piece by lia. rewrite <- Hcj, Z.max_r by (unfold covered; lia).
    rewrite IH; [| |lia].
    + rewrite <- Nat.add_succ_comm.
      destruct (decide (js = _)) as [He|He], (decide (k :: js = _)) as [He'|He']; try done.
      * by rewrite <- He in He'.
      * by injection He'.
    + rewrite list.Forall_forall in Hj, Hall |- *. intros x Hx.
      specialize (Hj x Hx). specialize (Hall x Hx). simpl in *. lia.
  - destruct (covered_lt k) as [Hck _]; [lia|]. rewrite Hck.
    assert (k * m < j * m)%nat by (apply Nat.mul_lt_mono_pos_r; lia).
    destruct (Z.gtb_spec (Z.of_nat (j * m)) (Z.of_nat (k * m))); [|lia].
    rewrite decide_False; [done|]. by intros [= ? _].
Qed.

(** The buffer after the first [k] pieces have been copied into it. *)
Definition partial_copy (k : nat) : list Z :=
  take (k * m) payload ++ replicate (length payload - k * m) 0.

Lemma copy_piece k :
  (k < n)%nat →
  copy_fragment (partial_copy k) (piece k) (Z.of_nat (length payload)) = Ret (partial_copy (S k)).
Proof.
  intros Hk. destruct (covered_lt k Hk) as [_ Hlt]. unfold copy_fragment.
  rewrite frag_end_piece by done. unfold covered, piece, partial_copy. cbn [offset frag_data].
  rewrite (Nat.mul_succ_l k m). set (q := (k * m)%nat) in *. clearbody q.
  remember (Nat.min (q + m) (length payload)) as e eqn:He.
  replace (Z.min (Z.of_nat e) (Z.of_nat (length payload))) with (Z.of_nat e) by lia.
  assert (length (take q payload) = q) as Htl by (rewrite length_take; lia).
  rewrite !slice_ok by (unfold len; rewrite ?length_app, ?length_replicate, ?length_take, ?length_drop; lia).
  cbn [mbind outcome_bind]. f_equal. rewrite drop_0, !Nat2Z.id.
  replace (Z.to_nat (Z.of_nat e - Z.of_nat q - 0)) with (e - q)%nat by lia.
  rewrite take_take, take_app_length', drop_app_ge, Htl, drop_replicate, app_assoc by (done || lia). f_equal.
  - rewrite take_take_drop. destruct (decide (q + m ≤ length payload)%nat).
    + f_equal. lia.
    + rewrite !take_ge by lia. done.
  - f_equal. lia.
Qed.

Lemma copy_pieces k j :
  (k + j ≤ n)%nat →
  copy_all (piece <$> seq k j) (partial_copy k) (Z.of_nat (length payload)) = Ret (partial_copy (k + j)).
Proof.
  revert k. induction j as [|j IH]; intros k Hle; csimpl; [by rewrite Nat.add_0_r|].
  rewrite copy_piece by lia. cbn [mbind outcome_bind]. rewrite IH by lia. do 2 f_equal. lia.
Qed.

Lemma partial_copy_all : partial_copy n = payload.
Proof.
  unfold partial_copy. rewrite take_ge by done. replace (length payload - n * m)%nat with O by lia.
  apply app_nil_r.
Qed.

(** The last piece is the one without [more_fragments]. *)
Lemma last_end_pieces js :
  StronglySorted lt js → Forall (λ j, j < n)%nat js →
  last_end (piece <$> js) = if decide ((n - 1)%nat ∈ js) then Some (Z.of_nat (length payload)) else None.
Proof.
  intros Hs Hall. rewrite list.Forall_forall in Hall. destruct (decide _) as [Hin|Hout].
  - apply list_elem_of_split in Hin as (l1 & l2 & ->).
    assert (l2 = []) as ->.
    { destruct l2 as [|j l2]; [done|]. exfalso.
      apply StronglySorted_app_1_r in Hs. apply StronglySorted_inv in Hs as [_ Hh%Forall_inv].
      assert (j < n)%nat by (apply Hall; set_solver). lia. }
    rewrite fmap_app. cbn [fmap list_fmap]. rewrite last_end_snoc. unfold piece at 1. cbn [more_fragments].
    rewrite Nat.eqb_refl. cbn [negb]. rewrite frag_end_piece by lia.
    replace (S (n - 1)) with n by lia. by rewrite covered_end.
  - apply last_end_none, Forall_fmap, list.Forall_forall. intros j Hj. simpl.
    destruct (Nat.eqb_spec j (n - 1)); [by subst | done].
Qed.

(** A datagram is complete exactly when all its pieces are there. *)
Lemma check_complete_pieces js ts tpl :
  StronglySorted lt js → Forall (λ j, j < n)%nat js →
  check_complete (mkFragmentSet ts (piece <$> js) tpl) =
    Ret (if decide (js = seq 0 n) then Some payload else None).
Proof.
  intros Hs Hall. unfold check_complete. cbn [fragments]. rewrite last_end_pieces by done.
  rewrite sort_by_offset_sorted by by apply piece_sorted.
  pose proof (covered_loop_pieces js 0 Hs) as Hcov. rewrite Nat.add_0_l in Hcov.
  change (Z.of_nat (covered 0)) with 0 in Hcov.
  rewrite Hcov by (first [lia | eapply list.Forall_impl; [exact Hall|]; simpl; lia]). clear Hcov.
  destruct (decide ((n - 1)%nat ∈ js)) as [Hin|Hout].
  - destruct (decide (js = seq 0 (length js))) as [He|He].
    + assert (length js = n) as Hl.
      { rewrite He in Hin. apply elem_of_seq in Hin.
        assert (¬ n < length js)%nat; [|lia]. intros Hgt. rewrite list.Forall_forall in Hall.
        assert (n ∈ js) as Hnj by (rewrite He; apply elem_of_seq; lia). apply Hall in Hnj. lia. }
      rewrite Hl in *. rewrite decide_True by done. rewrite covered_end, He, Z.ltb_irrefl, Nat2Z.id.
      pose proof (copy_pieces 0 n ltac:(lia)) as Hcp. unfold partial_copy at 1 in Hcp.
      rewrite Nat.mul_0_l, take_0, Nat.sub_0_r in Hcp. cbn [app] in Hcp. rewrite Hcp.
      cbn [mbind outcome_bind]. by rewrite Nat.add_0_l, partial_copy_all.
    + rewrite decide_False; [done|]. intros ->. by rewrite length_seq in He.
  - rewrite decide_False; [done|]. intros ->. apply Hout, elem_of_seq. lia.
Qed.

(** ** Receiving one piece *)

Lemma sorted_length_le js a b :
  StronglySorted lt js → Forall (λ j, a ≤ j < b)%nat js → (length js ≤ b - a)%nat.
Proof.
  intros Hs. revert a. induction Hs as [|j js Hs IH Hj]; intros a Hall; simpl; [lia|].
  apply list.Forall_cons in Hall as [Haj Hall]. assert (length js ≤ b - S j)%nat; [|lia]. apply IH.
  rewrite list.Forall_forall in *. intros x Hx. specialize (Hj x Hx). specialize (Hall x Hx). simpl in *. lia.
Qed.

Lemma sorted_full js k :
  StronglySorted lt js → Forall (λ j, k ≤ j < k + length js)%nat js → js = seq k (length js).
Proof.
  intros Hs. revert k. induction Hs as [|j js Hs IH Hj]; intros k Hall; [done|].
  pose proof (sorted_length_le js (S j) (k + S (length js)) Hs) as Hle.
  simpl in *. apply list.Forall_cons in Hall as [Hjk Hall].
  assert (Forall (λ x, S j ≤ x < k + S (length js))%nat js) as Hup.
  { rewrite list.Forall_forall in *. intros x Hx. specialize (Hj x Hx). specialize (Hall x Hx). simpl in *. lia. }
  specialize (Hle Hup). assert (j = k) as -> by lia. f_equal. apply IH.
  eapply list.Forall_impl; [exact Hup|]. simpl. lia.
Qed.

Lemma pieces_disjoint i j : (i < n)%nat → (j < n)%nat → i ≠ j → partial_overlap (piece j) (piece i) = false.
Proof.
  intros Hi Hj Hne. unfold partial_overlap. rewrite !frag_end_piece by done. unfold covered. simpl offset.
  assert (S i * m ≤ j * m ∨ S j * m ≤ i * m)%nat as Hor.
  { destruct (decide (i < j)%nat); [left|right]; apply Nat.mul_le_mono_r; lia. }
  destruct (Z.ltb_spec (Z.of_nat (i * m)) (Z.of_nat (Nat.min (S j * m) (length payload)))); [|done].
  destruct (Z.ltb_spec (Z.of_nat (j * m)) (Z.of_nat (Nat.min (S i * m) (length payload)))); [|done].
  lia.
Qed.

Lemma has_overlap_pieces js i :
  Forall (λ j, j < n)%nat js → (i < n)%nat → i ∉ js → has_overlap (piece <$> js) (piece i) = false.
Proof.
  intros Hall Hi Hnin. unfold has_overlap. apply not_true_is_false. rewrite existsb_exists.
  intros (f & Hf & Ho). apply list_elem_of_In, list_elem_of_fmap in Hf as (j & -> & Hj).
  rewrite list.Forall_forall in Hall. rewrite pieces_disjoint in Ho; [done|done|by apply Hall|by intros ->].
Qed.

(** Inserting a new piece at the point the binary search returns. *)
Lemma insert_piece js i :
  StronglySorted lt js → i ∉ js →
  ∃ k js', binary_search (piece <$> js) (offset (piece i)) = Err k ∧
    insert_at (piece <$> js) k (piece i) = piece <$> js' ∧ StronglySorted lt js' ∧ js' ≡ₚ i :: js.
Proof.
  intros Hs Hnin. destruct (binary_search_spec (piece <$> js) (offset (piece i))) as (k & Hk & _ & Hlo & Hhi).
  { by apply piece_sorted. }
  { apply Forall_fmap, list.Forall_forall. intros j Hj Heq%piece_offset_inj. by subst. }
  exists k, (take k js ++ i :: drop k js). rewrite <- fmap_take in Hlo. rewrite <- fmap_drop in Hhi.
  rewrite list.Forall_fmap, list.Forall_forall in Hlo. rewrite list.Forall_fmap, list.Forall_forall in Hhi.
  assert (∀ x, x ∈ take k js → (x < i)%nat) as Hl.
  { intros x Hx. specialize (Hlo x Hx). simpl in Hlo. apply Nat2Z.inj_lt in Hlo.
    by apply Nat.mul_lt_mono_pos_r in Hlo. }
  assert (∀ x, x ∈ drop k js → (i < x)%nat) as Hr.
  { intros x Hx. specialize (Hhi x Hx). simpl in Hhi. apply Nat2Z.inj_lt in Hhi.
    by apply Nat.mul_lt_mono_pos_r in Hhi. }
  rewrite <- (take_drop k js) in Hs. apply StronglySorted_app in Hs as (_ & Hs1 & Hs2). split_and!.
  - done.
  - unfold insert_at. rewrite <- fmap_take, <- fmap_drop. by rewrite fmap_app.
  - apply StronglySorted_app_2; [|done|].
    + intros x1 x2 H1 [->|H2]%elem_of_cons; [by apply Hl|]. specialize (Hl _ H1). specialize (Hr _ H2). lia.
    + constructor; [done|]. by apply list.Forall_forall.
  - rewrite <- Permutation_middle. by rewrite take_drop.
Qed.

Section receive.
Context `{BuildProfile}.

(** The cache holds exactly the pieces [js] of the datagram [key]. *)
Definition holds_pieces (st : FragState) (key : FragmentKey) (js : list nat) : Prop :=
  match cache st !! key with
  | None => js = []
  | Some set => fragments set = piece <$> js
  end.

(** Room in the two counters a successful reassembly increments. *)
Definition stats_room (st : FragState) (k : nat) : Prop :=
  0 ≤ fragments_received (stats st) ∧ fragments_received (stats st) + Z.of_nat k < 2 ^ 64 ∧
  0 ≤ datagrams_reassembled (stats st) ∧ datagrams_reassembled (stats st) + 1 < 2 ^ 64.

Lemma count_received_ok st k :
  stats_room st (S k) → ∃ st', count_received st = Ret st' ∧ cache st' = cache st ∧ stats_room st' k.
Proof.
  intros (? & ? & ? & ?). unfold count_received. rewrite add64_ok by (unfold is_uint; lia).
  eexists. split; [done|]. split; [done|]. unfold stats_room. simpl. lia.
Qed.

Lemma count_reassembled_ok st k :
  stats_room st k → ∃ st', count_reassembled st = Ret st' ∧ cache st' = cache st.
Proof.
  intros (? & ? & ? & ?). unfold count_reassembled. rewrite add64_ok by (unfold is_uint; lia). by eexists.
Qed.

Lemma stats_room_with_cache st c k : stats_room (with_cache st c) k ↔ stats_room st k.
Proof. done. Qed.

(** The answer once the pieces [js] and one more are there, and the state it
    leaves. *)
Definition received_state (st st' : FragState) (key : FragmentKey) (i : nat) (js : list nat) : Prop :=
  if decide (S (length js) = n) then cache st' = delete key (cache st)
  else ∃ js', js' ≡ₚ i :: js ∧ StronglySorted lt js' ∧ holds_pieces st' key js' ∧
       delete key (cache st') = delete key (cache st) ∧ is_Some (cache st' !! key).

(** Whether all [n] pieces are there is a matter of counting them. *)
Lemma complete_iff js :
  StronglySorted lt js → Forall (λ j, j < n)%nat js → js = seq 0 n ↔ length js = n.
Proof.
  intros Hs Hall. split; [intros ->; apply length_seq|]. intros Hl. rewrite <- Hl. apply sorted_full; [done|].
  eapply list.Forall_impl; [exact Hall|]. simpl. lia.
Qed.

Lemma reassemble_piece st key js i now k :
  holds_pieces st key js → StronglySorted lt js → Forall (λ j, j < n)%nat js → (i < n)%nat → i ∉ js →
  (length js < MAX_FRAGMENTS_PER_DATAGRAM)%nat →
  (is_Some (cache st !! key) ∨ size (cache st) < MAX_FRAGMENT_SETS)%nat → stats_room st (S k) →
  ∃ st', reassemble_fragment st key (piece i) now
         = Ret (Ok (if decide (S (length js) = n) then Some payload else None), st') ∧
    received_state st st' key i js ∧ (S (length js) ≠ n → stats_room st' k).
Proof.
  intros Hh Hs Hall Hi Hnin Hmax Hroom Hst. unfold reassemble_fragment.
  replace (bool_decide (cache st !! key = None) && _) with false; cycle 1.
  { symmetry. apply andb_false_iff. destruct Hroom as [[? ->]|Hsz]; [left; done|right; apply Nat.leb_gt; lia]. }
  set (old := default (mkFragmentSet now [] None) (cache st !! key)).
  assert (fragments old = piece <$> js) as Hold.
  { unfold old, holds_pieces in *. destruct (cache st !! key); [done | by subst js]. }
  cbn [fragments total_payload_length]. rewrite Hold, length_fmap.
  destruct (Nat.leb_spec MAX_FRAGMENTS_PER_DATAGRAM (length js)); [lia|].
  rewrite has_overlap_pieces by done.
  destruct (insert_piece js i Hs Hnin) as (pos & js' & -> & -> & Hs' & Hperm).
  cbn [with_cache cache stats].
  edestruct (count_received_ok) as (st1 & -> & Hc1 & Hst1); [by apply stats_room_with_cache|].
  cbn [mbind outcome_bind with_cache cache] in *.
  assert (Forall (λ j, j < n)%nat js') as Hall' by (rewrite Hperm; by constructor).
  rewrite check_complete_pieces by done. cbn [mbind outcome_bind].
  assert (length js' = S (length js)) as Hlen by (by rewrite Hperm).
  pose proof (complete_iff js' Hs' Hall') as Hiff. rewrite Hlen in Hiff. unfold received_state.
  destruct (decide (S (length js) = n)) as [Hn'|Hn'].
  - rewrite decide_True by tauto.
    destruct (count_reassembled_ok (with_cache st1 (delete key (cache st1))) k) as (st2 & -> & Hc2); [done|].
    exists st2. split; [done|]. split; [|done]. rewrite Hc2. cbn [with_cache cache].
    by rewrite Hc1, !delete_insert_eq.
  - rewrite decide_False by tauto. exists st1. split; [done|]. split; [|done].
    exists js'. unfold holds_pieces. rewrite Hc1, lookup_insert_eq, !delete_insert_eq. split_and!; eauto.
Qed.

(** ** Receiving all pieces in any order *)

Fixpoint reassemble_all (st : FragState) (key : FragmentKey) (fs : list (FragmentData * Z))
    : outcome (list (result (option (list Z)) frag_error) * FragState) :=
  match fs with
  | [] => Ret ([], st)
  | (f, now) :: fs =>
      '(r, st) ← reassemble_fragment st key f now;
      '(rs, st) ← reassemble_all st key fs;
      Ret (r :: rs, st)
  end.

Lemma reassemble_rest order times st key js :
  length times = length order → order ++ js ≡ₚ seq 0 n → order ≠ [] →
  holds_pieces st key js → StronglySorted lt js → (n ≤ MAX_FRAGMENTS_PER_DATAGRAM)%nat →
  (is_Some (cache st !! key) ∨ size (cache st) < MAX_FRAGMENT_SETS)%nat → stats_room st (length order) →
  ∃ st', reassemble_all st key (zip (piece <$> order) times)
         = Ret (replicate (length order - 1) (Ok None) ++ [Ok (Some payload)], st') ∧
    cache st' = delete key (cache st).
Proof.
  revert times st js. induction order as [|i order IH]; intros [|now times] st js Hlen Hperm Hne Hh Hs Hmax Hroom Hst;
    try done.
  assert (Forall (λ j, j < n)%nat (i :: order ++ js)) as Hall
    by (rewrite Hperm; apply list.Forall_forall; intros j ?%elem_of_seq; lia).
  assert (NoDup (i :: order ++ js)) as Hnd by (rewrite Hperm; apply NoDup_seq).
  apply list.Forall_cons in Hall as [Hi [_ Hjs]%Forall_app]. apply list.NoDup_cons in Hnd as [Hnin _].
  assert (length order + length js = n - 1)%nat as Hcount.
  { apply Permutation_length in Hperm. simpl in Hperm. rewrite length_app, length_seq in Hperm. lia. }
  destruct (reassemble_piece st key js i now (length order)) as (st1 & He & Hrs & Hst1);
    [done..|set_solver|lia|done|done|].
  csimpl. rewrite He. cbn [mbind outcome_bind]. unfold received_state in Hrs.
  destruct order as [|i2 order].
  - assert (S (length js) = n) as Hnn by (simpl in Hcount; lia). rewrite decide_True in Hrs by done.
    rewrite decide_True by done. exists st1. split; [by destruct times | done].
  - assert (S (length js) ≠ n) as Hnn by (simpl in Hcount; lia). rewrite decide_False in Hrs by done.
    rewrite decide_False by done.
    destruct Hrs as (js' & Hp' & Hs' & Hh' & Hdel & Hsome).
    destruct (IH times st1 js') as (st2 & -> & Hc2); [simpl in *; lia| |done..|by left|by apply Hst1|].
    { rewrite Hp', <- Permutation_middle. exact Hperm. }
    exists st2. split; [|by rewrite Hc2, Hdel]. cbn [mbind outcome_bind]. do 2 f_equal.
    simpl length. by rewrite !Nat.sub_succ, !Nat.sub_0_r.
Qed.

End receive.
End pieces.

(** ** Packets on the wire *)

(** The flags and offset word. *)
Definition flags_word (units : Z) (mf : bool) : Z :=
  let flags0 := Z.land units OFFSET_MASK in if mf then Z.lor flags0 MF_FLAG else flags0.

Lemma flags_word_fields units mf :
  is_uint 13 units →
  let w := flags_word units mf in
  is_uint 16 w ∧ negb (Z.land w MF_FLAG =? 0) = mf ∧ negb (Z.land w DF_FLAG =? 0) = false ∧
  Z.land w OFFSET_MASK = units.
Proof.
  intros Hu w. assert (Z.land units OFFSET_MASK = units) as Hmask.
  { change OFFSET_MASK with (2 ^ 13 - 1). rewrite land_mask by lia. by apply Z.mod_small. }
  assert (is_uint 16 units) as Hu16 by (unfold is_uint in *; lia).
  assert (∀ b, 13 ≤ b → Z.testbit units b = false) as Hhigh by (intros; by apply (testbit_above 13)).
  change MF_FLAG with (Z.shiftl 1 13). change DF_FLAG with (Z.shiftl 1 14).
  unfold w, flags_word. rewrite Hmask. rewrite !land_shiftl1_eqb, !negb_involutive by lia. destruct mf.
  - change MF_FLAG with (Z.shiftl 1 13). rewrite !testbit_set, !Hhigh by lia. split_and!; [|done..|].
    + apply is_uint_lor; [done|done|by apply is_uint_shiftl1].
    + rewrite Z.land_lor_distr_l, Hmask. apply Z.lor_0_r.
  - by rewrite !Hhigh, Hmask by lia.
Qed.

Section wire.
Context `{BuildProfile}.

Lemma build_packet_ok piece id units mf proto s d :
  is_uint 16 id → is_uint 13 units → is_byte proto → is_uint 32 s → is_uint 32 d →
  IP_HEADER_MIN_SIZE + len piece < 65536 →
  ∃ c1 c2,
    let hdr := wire_header (IP_HEADER_MIN_SIZE + len piece) id (flags_word units mf) proto c1 c2 s d in
    build_packet piece id units mf proto s d = Ret (hdr ++ piece) ∧ internet_checksum hdr = Ret 0.
Proof.
  intros Hid Hun Hpr Hs Hd Hlen. unfold build_packet, build_ip_header.
  set (total := IP_HEADER_MIN_SIZE + len piece) in *.
  assert (is_uint 16 total) as Ht by (unfold is_uint, total, len, IP_HEADER_MIN_SIZE in *; lia).
  destruct (flags_word_fields units mf Hun) as (Hfl & _).
  unfold len at 1. rewrite length_replicate, Z2Nat.id by (unfold is_uint in Ht; lia).
  destruct (Z.ltb_spec total IP_HEADER_MIN_SIZE); [unfold total, len in *; lia|]. cbn [mbind outcome_bind].
  assert (cast 16 total = total) as -> by (by apply Z.mod_small).
  assert (cast 16 units = units) as -> by (apply Z.mod_small; unfold is_uint in *; lia).
  fold (flags_word units mf).
  change (take _ _) with (wire_header total id (flags_word units mf) proto 0 0 s d).
  destruct (wire_header_checksum total id (flags_word units mf) proto s d) as (c & Hck & Hc & Hz); [done..|].
  set (h0 := wire_header total id (flags_word units mf) proto 0 0 s d) in *.
  rewrite slice_ok by (unfold len, IP_HEADER_MIN_SIZE; rewrite ?length_app; simpl; lia).
  change (Z.to_nat 0) with O. rewrite drop_0. change (Z.to_nat (IP_HEADER_MIN_SIZE - 0)) with (length h0).
  rewrite take_app_length. cbn [mbind outcome_bind]. rewrite Hck. cbn [mbind outcome_bind].
  exists (c `div` 256), (c mod 256). split; [|exact Hz].
  rewrite Z.shiftr_div_pow2 by lia. change 0xFF with (2 ^ 8 - 1). rewrite land_mask by lia. reflexivity.
Qed.

(** What the receiver makes of such a packet. *)
Lemma try_reassemble_wire st piece id units mf proto c1 c2 s d now :
  is_uint 16 id → is_uint 13 units → is_uint 32 s → is_uint 32 d →
  IP_HEADER_MIN_SIZE + len piece < 65536 → mf = true ∨ 0 < units →
  (mf = true → len piece mod FRAGMENT_OFFSET_UNIT = 0) →
  try_reassemble st
    (wire_header (IP_HEADER_MIN_SIZE + len piece) id (flags_word units mf) proto c1 c2 s d ++ piece) now
  = reassemble_fragment st (mkFragmentKey s d id proto)
      (mkFragmentData (units * FRAGMENT_OFFSET_UNIT) piece mf) now.
Proof.
  intros Hid Hun Hs Hd Hlen Hfrag Hal. set (total := IP_HEADER_MIN_SIZE + len piece) in *.
  assert (is_uint 16 total) as Ht by (unfold is_uint, total, len, IP_HEADER_MIN_SIZE in *; lia).
  destruct (flags_word_fields units mf Hun) as (Hfl & Hmf & Hdf & Hoff).
  set (pkt := wire_header _ _ _ _ _ _ _ _ ++ piece).
  assert (len pkt = total) as Hpl.
  { unfold pkt, len, total, IP_HEADER_MIN_SIZE. rewrite length_app, length_wire_header. unfold len. lia. }
  assert (∀ k v, pkt !! Z.to_nat k = Some v → 0 ≤ k → index pkt k = Ret v) as Hix by eauto using index_lookup.
  unfold try_reassemble, parse_fragment_info, read_u32_be, read_u16_be. rewrite !Hpl.
  destruct (Z.ltb_spec total IP_HEADER_MIN_SIZE); [unfold total, len in *; lia|].
  repeat (erewrite Hix; [|reflexivity|done]; cbn [mbind outcome_bind]).
  rewrite !u32_bytes_roundtrip by done.
  rewrite !(proj1 (u16_bytes_roundtrip _ Ht)), !(proj1 (u16_bytes_roundtrip _ Hid)),
    !(proj1 (u16_bytes_roundtrip _ Hfl)), Hmf, Hdf, Hoff.
  replace (negb false && _) with true; cycle 1.
  { destruct Hfrag as [->|Hpos]; [done|]. destruct mf; [done|]. simpl.
    symmetry. apply Z.gtb_lt. unfold FRAGMENT_OFFSET_UNIT. lia. }
  change (Z.land 69 15 * 4) with 20. cbn [negb].
  destruct (Z.ltb_spec total 20); [unfold total, IP_HEADER_MIN_SIZE, len in *; lia|].
  assert (slice pkt 20 total = Ret piece) as ->.
  { rewrite slice_ok by lia. f_equal. unfold pkt. change (Z.to_nat 20) with (length (wire_header total id
      (flags_word units mf) proto c1 c2 s d)). rewrite drop_app_length. apply take_ge.
    unfold total, IP_HEADER_MIN_SIZE, len. lia. }
  cbn [mbind outcome_bind]. destruct mf; [|by rewrite andb_false_r]. by rewrite Hal.
Qed.

(** ** Splitting a payload into packets *)

Section split.
Context (payload : list Z) (m n : nat) (s d id proto : Z).
Hypothesis (Hm8 : Z.of_nat m mod 8 = 0) (Hm : (0 < m)%nat) (Hn : (0 < n)%nat)
  (Hlast : ((n - 1) * m < length payload)%nat) (Htot : (length payload ≤ n * m)%nat)
  (Hsize : len payload ≤ 65535) (Hmtu : IP_HEADER_MIN_SIZE + Z.of_nat m < 65536)
  (Hid : is_uint 16 id) (Hproto : is_byte proto) (Hs : is_uint 32 s) (Hd : is_uint 32 d).

(** The packet carries piece [i]: the receiver reads exactly that piece from
    it, its header checksum verifies, and it is no longer than header and
    piece. *)
Definition carries (i : nat) (pkt : list Z) : Prop :=
  (n ≠ 1%nat → ∀ st now, try_reassemble st pkt now
     = reassemble_fragment st (mkFragmentKey s d id proto) (piece payload m n i) now) ∧
  internet_checksum (take 20 pkt) = Ret 0 ∧ len pkt ≤ IP_HEADER_MIN_SIZE + Z.of_nat m.

Lemma piece_aligned i : more_fragments (piece payload m n i) = true → (i < n)%nat →
  len (frag_data (piece payload m n i)) mod FRAGMENT_OFFSET_UNIT = 0.
Proof.
  simpl. intros Hne Hi. apply negb_true_iff, Nat.eqb_neq in Hne. unfold len.
  assert (S i * m ≤ (n - 1) * m)%nat by (apply Nat.mul_le_mono_r; lia).
  rewrite length_take, length_drop, Nat.min_l by lia. exact Hm8.
Qed.

Lemma build_fragment_carries i :
  (i < n)%nat →
  ∃ pkt, carries i pkt ∧
    (pc ← slice payload (Z.of_nat (i * m))
            (Z.of_nat (i * m) + (if Z.of_nat i =? Z.of_nat n - 1 then len payload - Z.of_nat (i * m) else Z.of_nat m));
     build_packet pc id (Z.of_nat (i * m) `div` FRAGMENT_OFFSET_UNIT) (negb (Z.of_nat i =? Z.of_nat n - 1)) proto s d)
    = Ret pkt.
Proof.
  intros Hi. assert (i * m < length payload)%nat as Hlt.
  { assert (i * m ≤ (n - 1) * m)%nat by (apply Nat.mul_le_mono_r; lia). lia. }
  assert ((Z.of_nat i =? Z.of_nat n - 1) = Nat.eqb i (n - 1)) as ->.
  { destruct (Nat.eqb_spec i (n - 1)); [apply Z.eqb_eq | apply Z.eqb_neq]; lia. }
  assert ((i =? n - 1)%nat = false → S i * m ≤ length payload)%nat as Hin.
  { intros ?%Nat.eqb_neq. assert (S i * m ≤ (n - 1) * m)%nat by (apply Nat.mul_le_mono_r; lia). lia. }
  assert ((i =? n - 1)%nat = true → length payload ≤ i * m + m)%nat as Hfin.
  { intros ->%Nat.eqb_eq. replace n with (S (n - 1)) in Htot by lia. rewrite Nat.mul_succ_l in Htot. lia. }
  rewrite slice_ok by (unfold len; destruct (i =? n - 1)%nat; lia). cbn [mbind outcome_bind].
  set (pc := frag_data (piece payload m n i)).
  replace (take _ _) with pc; cycle 1.
  { unfold pc, piece. cbn [frag_data]. rewrite Nat2Z.id. unfold len. destruct (i =? n - 1)%nat; simpl in *.
    - rewrite !take_ge by (rewrite length_drop; lia). done.
    - f_equal. lia. }
  assert (len pc ≤ Z.of_nat m) as Hpl by (unfold pc, len; simpl; rewrite length_take; lia).
  assert (Z.of_nat (i * m) = Z.of_nat (i * m) `div` 8 * 8) as Hoff.
  { pose proof (Z.div_mod (Z.of_nat (i * m)) 8) as Hdm.
    rewrite (Nat2Z.inj_mul i m), <- Z.mul_mod_idemp_r, Hm8, Z.mul_0_r in Hdm by lia.
    rewrite Nat2Z.inj_mul. change (0 mod 8) with 0 in Hdm. lia. }
  assert (is_uint 13 (Z.of_nat (i * m) `div` 8)) as Hun.
  { split; [apply Z.div_pos; lia|]. unfold len in Hsize. lia. }
  destruct (build_packet_ok pc id (Z.of_nat (i * m) `div` FRAGMENT_OFFSET_UNIT) (negb (i =? n - 1)%nat) proto s d)
    as (c1 & c2 & Hb & Hck); [done..|unfold IP_HEADER_MIN_SIZE in *; lia|].
  eexists. split; [|exact Hb]. split_and!.
  - intros Hn1 st now. rewrite try_reassemble_wire; try done.
    + unfold piece. do 2 f_equal. by symmetry.
    + unfold IP_HEADER_MIN_SIZE in *. lia.
    + destruct i as [|i]; [left|right].
      * apply negb_true_iff, Nat.eqb_neq. lia.
      * change FRAGMENT_OFFSET_UNIT with 8. assert (0 < S i * m)%nat by (apply Nat.mul_pos_pos; lia). lia.
    + intros. by apply piece_aligned.
  - rewrite <- Hck. f_equal.
  - unfold len. rewrite length_app, length_wire_header. unfold len, IP_HEADER_MIN_SIZE in *. lia.
Qed.

Lemma build_fragments_carries idxs :
  Forall (λ i, i < n)%nat idxs →
  ∃ pkts, build_fragments idxs payload (Z.of_nat m) (Z.of_nat n) s d id proto = Ret pkts ∧
    Forall2 carries idxs pkts.
Proof.
  induction 1 as [|i idxs Hi _ (pkts & IH & Hall)]; [by exists []|].
  destruct (build_fragment_carries i Hi) as (pkt & Hc & Hb). exists (pkt :: pkts). split; [|by constructor].
  cbn [build_fragments]. rewrite <- Nat2Z.inj_mul.
  destruct (slice payload _ _) as [pc|]; [|done]. cbn [mbind outcome_bind] in *.
  rewrite Hb. cbn [mbind outcome_bind]. by rewrite IH.
Qed.
End split.

Lemma Forall2_permute {A B} (P : A → B → Prop) (l : list A) (k k' : list B) :
  k ≡ₚ k' → Forall2 P l k → ∃ l', l ≡ₚ l' ∧ Forall2 P l' k'.
Proof.
  intros Hp. revert l. induction Hp as [|y k k' Hp IH|x y k|k1 k2 k3 _ IH1 _ IH2]; intros l Hl.
  - by exists l.
  - apply Forall2_cons_inv_r in Hl as (x & l0 & Hx & Hl & ->). destruct (IH _ Hl) as (l' & ? & ?).
    exists (x :: l'). split; [by f_equiv | by constructor].
  - apply Forall2_cons_inv_r in Hl as (a & l0 & Ha & Hl & ->).
    apply Forall2_cons_inv_r in Hl as (b & l1 & Hb & Hl & ->).
    exists (b :: a :: l1). split; [apply Permutation_swap | by repeat constructor].
  - destruct (IH1 _ Hl) as (l2 & ? & Hl2). destruct (IH2 _ Hl2) as (l3 & ? & ?). exists l3. split; [by etrans | done].
Qed.

End wire.

(** ** Properties *)

Section properties.
Context `{BuildProfile}.

(** A receiver that is handed packets at given times. *)
Fixpoint receive_all (st : FragState) (pkts : list (list Z * Z))
    : outcome (list (result (option (list Z)) frag_error) * FragState) :=
  match pkts with
  | [] => Ret ([], st)
  | (pkt, now) :: pkts =>
      '(r, st) ← try_reassemble st pkt now;
      '(rs, st) ← receive_all st pkts;
      Ret (r :: rs, st)
  end.

(** The number of bytes per fragment, and the number of fragments. *)
Definition frag_room (mtu : Z) : Z := (mtu - IP_HEADER_MIN_SIZE) `div` FRAGMENT_OFFSET_UNIT * FRAGMENT_OFFSET_UNIT.
Definition frag_count (payload : list Z) (mtu : Z) : Z := div_ceil (len payload) (frag_room mtu).

Lemma frag_room_bounds mtu :
  28 ≤ mtu → 8 ≤ frag_room mtu ≤ mtu - 20 ∧ frag_room mtu mod 8 = 0.
Proof.
  intros Hm. unfold frag_room, IP_HEADER_MIN_SIZE, FRAGMENT_OFFSET_UNIT.
  pose proof (Z.div_mod (mtu - 20) 8). pose proof (Z.mod_pos_bound (mtu - 20) 8).
  split; [lia|]. by apply Z.mod_mul.
Qed.

Lemma div_ceil_bounds a b : 0 < a → 0 < b → (div_ceil a b - 1) * b < a ≤ div_ceil a b * b ∧ 0 < div_ceil a b.
Proof.
  intros Ha Hb. unfold div_ceil. pose proof (Z.div_mod (a + b - 1) b).
  pose proof (Z.mod_pos_bound (a + b - 1) b). assert (0 < (a + b - 1) `div` b) by (apply Z.div_str_pos; lia). nia.
Qed.

(** The packets [fragment_payload] makes when fragmentation is needed. *)
Lemma fragment_payload_split payload s d id proto mtu :
  is_uint 16 id → is_byte proto → is_uint 32 s → is_uint 32 d →
  28 ≤ mtu ≤ 65535 → mtu < len payload + IP_HEADER_MIN_SIZE → len payload ≤ 65535 →
  let m := Z.to_nat (frag_room mtu) in let n := Z.to_nat (frag_count payload mtu) in
  ∃ pkts, fragment_payload payload s d id proto mtu = Ret pkts ∧
    Forall2 (carries payload m n s d id proto) (seq 0 n) pkts ∧
    (1 < n)%nat ∧ ((n - 1) * m < length payload)%nat ∧ (length payload ≤ n * m)%nat ∧ (0 < m)%nat.
Proof.
  intros Hid Hpr Hs Hd Hmtu Hbig Hsz m n. destruct (frag_room_bounds mtu) as [Hr Hr8]; [lia|].
  unfold IP_HEADER_MIN_SIZE in Hbig.
  destruct (div_ceil_bounds (len payload) (frag_room mtu)) as [Hb Hb0]; [lia..|].
  fold (frag_count payload mtu) in Hb, Hb0.
  assert (frag_room mtu = Z.of_nat m) as Hm by (unfold m; lia).
  assert (frag_count payload mtu = Z.of_nat n) as Hn by (unfold n; lia).
  rewrite Hm, Hn in Hb. unfold len in Hb, Hbig.
  assert ((n - 1) * m < length payload)%nat as Hlo.
  { apply Nat2Z.inj_lt. rewrite Nat2Z.inj_mul. replace (Z.of_nat (n - 1)) with (Z.of_nat n - 1) by lia. lia. }
  assert (length payload ≤ n * m)%nat as Hhi by (apply Nat2Z.inj_le; rewrite Nat2Z.inj_mul; lia).
  assert (1 < n)%nat as Hn1.
  { destruct (decide (n = 1)%nat) as [He|]; [|lia]. rewrite He in Hhi. lia. }
  destruct (build_fragments_carries payload m n s d id proto ltac:(by rewrite <- Hm) ltac:(lia) ltac:(lia) Hlo Hhi
              Hsz ltac:(unfold IP_HEADER_MIN_SIZE; lia) Hid Hpr Hs Hd (seq 0 n)) as (pkts & Hbf & Hall).
  { apply list.Forall_forall. intros i ?%elem_of_seq. lia. }
  exists pkts. split; [|split_and!; (done || lia)]. unfold fragment_payload.
  destruct (Z.leb_spec (len payload + IP_HEADER_MIN_SIZE) mtu); [unfold len, IP_HEADER_MIN_SIZE in *; lia|].
  rewrite sub64_ok by (unfold is_uint, IP_HEADER_MIN_SIZE; lia). cbn [mbind outcome_bind].
  fold (frag_room mtu). destruct (Z.eqb_spec (frag_room mtu) 0); [lia|].
  fold (frag_count payload mtu). rewrite Hn, Nat2Z.id, Hm. exact Hbf.
Qed.

Lemma receive_all_carried payload m n s d id proto js pkts times st :
  n ≠ 1%nat → Forall2 (carries payload m n s d id proto) js pkts →
  receive_all st (zip pkts times) = reassemble_all st (mkFragmentKey s d id proto) (zip (piece payload m n <$> js) times).
Proof.
  intros Hn Hall. revert times st. induction Hall as [|i pkt js pkts Hc _ IH]; intros times st; [done|].
  destruct times as [|now times]; [done|]. csimpl. rewrite (proj1 Hc Hn).
  destruct (reassemble_fragment _ _ _ _) as [[r st']|]; [|done]. cbn [mbind outcome_bind]. by rewrite IH.
Qed.

(** C38: Fragmentation and reassembly are inverse, in any order of arrival: the
    packets [fragment_payload] makes for a payload that exceeds the MTU, handed
    to a receiver in any order and at any times, give "more needed" for all
    but the last to arrive, the original payload for that one, and leave no
    trace in the fragment cache. *)
Theorem fragment_roundtrip payload s d id proto mtu :
  is_uint 16 id → is_byte proto → is_uint 32 s → is_uint 32 d →
  28 ≤ mtu ≤ 65535 → mtu < len payload + IP_HEADER_MIN_SIZE → len payload ≤ 65535 →
  frag_count payload mtu ≤ Z.of_nat MAX_FRAGMENTS_PER_DATAGRAM →
  ∃ pkts, fragment_payload payload s d id proto mtu = Ret pkts ∧
    ∀ order st, order.*1 ≡ₚ pkts →
      cache st !! (mkFragmentKey s d id proto) = None → (size (cache st) < MAX_FRAGMENT_SETS)%nat →
      stats_room st (length pkts) →
      ∃ st', receive_all st order = Ret (replicate (length pkts - 1) (Ok None) ++ [Ok (Some payload)], st') ∧
        cache st' = cache st.
Proof.
  intros Hid Hpr Hs Hd Hmtu Hbig Hsz Hcount.
  destruct (fragment_payload_split payload s d id proto mtu) as (pkts & Hf & Hall & Hn & Hlo & Hhi & Hm); [done..|].
  set (m := Z.to_nat (frag_room mtu)) in *. set (n := Z.to_nat (frag_count payload mtu)) in *.
  exists pkts. split; [done|]. intros order st Hperm Hnone Hroom Hst.
  destruct (Forall2_permute _ _ _ (order.*1) ltac:(by symmetry) Hall) as (js & Hjs & Hcs).
  pose proof (Permutation_length Hjs) as Hlj. rewrite length_seq in Hlj.
  pose proof (Forall2_length Hcs) as Hlc. rewrite length_fmap in Hlc.
  pose proof (Permutation_length Hperm) as Hlp. rewrite length_fmap in Hlp.
  assert (receive_all st order = receive_all st (zip order.*1 order.*2)) as -> by (by rewrite zip_fst_snd).
  rewrite (receive_all_carried _ m n s d id proto js) by (done || lia).
  destruct (reassemble_rest payload m n Hm ltac:(lia) Hlo Hhi js (order.*2) st (mkFragmentKey s d id proto) [])
    as (st' & Hr & Hc').
  - rewrite length_fmap. lia.
  - rewrite app_nil_r. by symmetry.
  - intros ->. simpl in *. lia.
  - unfold holds_pieces. by rewrite Hnone.
  - constructor.
  - unfold n. unfold MAX_FRAGMENTS_PER_DATAGRAM in *. lia.
  - by right.
  - by rewrite Hlc, Hlp.
  - exists st'. rewrite Hr, Hlc, Hlp. split; [done|]. rewrite Hc'. by apply delete_id.
Qed.

(** Every packet [fragment_payload] makes fits the MTU and carries a header
    whose Internet checksum verifies. *)
Theorem fragments_well_formed payload s d id proto mtu :
  is_uint 16 id → is_byte proto → is_uint 32 s → is_uint 32 d →
  28 ≤ mtu ≤ 65535 → mtu < len payload + IP_HEADER_MIN_SIZE → len payload ≤ 65535 →
  ∃ pkts, fragment_payload payload s d id proto mtu = Ret pkts ∧
    Forall (λ pkt, len pkt ≤ mtu ∧ internet_checksum (take 20 pkt) = Ret 0) pkts.
Proof.
  intros Hid Hpr Hs Hd Hmtu Hbig Hsz.
  destruct (fragment_payload_split payload s d id proto mtu) as (pkts & Hf & Hall & _); [done..|].
  exists pkts. split; [done|]. destruct (frag_room_bounds mtu) as [Hr _]; [lia|].
  eapply Forall2_Forall_r; [exact Hall|]. apply list.Forall_forall. intros i _ pkt (_ & Hck & Hl).
  split; [|done]. unfold IP_HEADER_MIN_SIZE in Hl. lia.
Qed.

(** ** Bounds on the cache *)

Definition cache_bounded (st : FragState) : Prop :=
  (size (cache st) ≤ MAX_FRAGMENT_SETS)%nat ∧
  map_Forall (λ _ set, length (fragments set) ≤ MAX_FRAGMENTS_PER_DATAGRAM)%nat (cache st).

Inductive frag_step (st : FragState) : FragState → Prop :=
| frag_step_receive pkt now r st' : try_reassemble st pkt now = Ret (r, st') → frag_step st st'
| frag_step_expire now st' : expire_fragments st now = Ret st' → frag_step st st'
| frag_step_clear : frag_step st (clear_fragment_cache st)
| frag_step_reset : frag_step st (reset_fragment_stats st).

Lemma counted_cache (f : FragState → outcome FragState) st st' :
  f ∈ [count_received; count_reassembled; count_overlap; count_cache_full; count_too_many; count_invalid] →
  f st = Ret st' → cache st' = cache st.
Proof.
  intros Hf He. repeat (apply elem_of_cons in Hf as [->|Hf]; [|]); [..|by apply elem_of_nil in Hf];
    apply bind_ret in He as (c & _ & [= <-]); done.
Qed.

Lemma cache_bounded_ext st st' : cache st' = cache st → cache_bounded st → cache_bounded st'.
Proof. unfold cache_bounded. by intros ->. Qed.

Lemma cache_bounded_insert st key set :
  cache_bounded st → (length (fragments set) ≤ MAX_FRAGMENTS_PER_DATAGRAM)%nat →
  (is_Some (cache st !! key) ∨ size (cache st) < MAX_FRAGMENT_SETS)%nat →
  cache_bounded (with_cache st (<[key := set]> (cache st))).
Proof.
  intros [Hsz Hall] Hlen Hroom. split; [|by apply map_Forall_insert_2]. simpl.
  destruct (cache st !! key) as [old|] eqn:Hk.
  - by rewrite map_size_insert_Some by eauto.
  - rewrite map_size_insert_None by done. destruct Hroom as [[? ?]|]; [done|lia].
Qed.

Lemma length_insert_at {A} (l : list A) i x : length (insert_at l i x) = S (length l).
Proof.
  unfold insert_at. rewrite length_app. simpl. rewrite Nat.add_succ_r, <- length_app, take_drop. done.
Qed.

Lemma reassemble_fragment_bounded st key f now r st' :
  cache_bounded st → reassemble_fragment st key f now = Ret (r, st') → cache_bounded st'.
Proof.
  intros Hb. unfold reassemble_fragment. destruct (_ && _) eqn:Hfull.
  { intros (st1 & Hc & [= _ ->])%bind_ret. eapply cache_bounded_ext; [|done].
    eapply counted_cache; [|done]. set_solver. }
  assert (is_Some (cache st !! key) ∨ size (cache st) < MAX_FRAGMENT_SETS)%nat as Hroom.
  { apply andb_false_iff in Hfull as [Hn|Hsz]; [left|right; by apply Nat.leb_gt].
    apply bool_decide_eq_false in Hn. by apply not_eq_None_Some. }
  set (old := default (mkFragmentSet now [] None) (cache st !! key)).
  assert (length (fragments old) ≤ MAX_FRAGMENTS_PER_DATAGRAM)%nat as Hold.
  { unfold old. destruct (cache st !! key) as [set|] eqn:Hk; [by apply (proj2 Hb key set) | simpl; lia]. }
  cbn [fragments total_payload_length].
  set (set1 := mkFragmentSet now (fragments old) (total_payload_length old)).
  assert (cache_bounded (with_cache st (<[key := set1]> (cache st)))) as Hb1 by by apply cache_bounded_insert.
  destruct (Nat.leb_spec MAX_FRAGMENTS_PER_DATAGRAM (length (fragments old))) as [|Hlt].
  { intros (st1 & Hc & [= _ ->])%bind_ret. eapply cache_bounded_ext; [|exact Hb1].
    eapply counted_cache; [|exact Hc]. set_solver. }
  destruct (has_overlap _ _).
  { intros (st1 & Hc & [= _ ->])%bind_ret. eapply cache_bounded_ext; [|exact Hb1].
    eapply counted_cache; [|exact Hc]. set_solver. }
  intros (st1 & Hc & (complete & _ & Hres)%bind_ret)%bind_ret.
  apply counted_cache in Hc; [|set_solver].
  assert (cache_bounded st1) as Hb2.
  { eapply cache_bounded_ext; [exact Hc|]. apply cache_bounded_insert; [exact Hb1| |].
    - simpl. rewrite length_insert_at. lia.
    - left. simpl. rewrite lookup_insert_eq. eauto. }
  destruct complete as [payload|]; [|by injection Hres as _ <-].
  apply bind_ret in Hres as (st2 & Hc2 & [= _ <-]). apply counted_cache in Hc2; [|set_solver].
  eapply cache_bounded_ext; [exact Hc2|]. destruct Hb2 as [Hsz Hall]. split; simpl.
  - etrans; [apply map_subseteq_size, delete_subseteq | exact Hsz].
  - by apply map_Forall_delete.
Qed.

Lemma try_reassemble_bounded st pkt now r st' :
  cache_bounded st → try_reassemble st pkt now = Ret (r, st') → cache_bounded st'.
Proof.
  intros Hb. unfold try_reassemble. destruct (_ <? _); [by intros [= _ <-]|].
  intros (info & _ & Hr)%bind_ret. destruct info as [[[[id frag] mf] off]|]; [|by injection Hr as _ <-].
  destruct frag; simpl in Hr; [|by injection Hr as _ <-]. outcome_inv Hr.
  destruct (_ <? _); [by injection Hr as _ <-|]. outcome_inv Hr. destruct (_ && _).
  - apply bind_ret in Hr as (st1 & Hc & [= _ <-]). eapply cache_bounded_ext; [|done].
    eapply counted_cache; [|done]. set_solver.
  - by eapply reassemble_fragment_bounded.
Qed.

Lemma frag_step_bounded st st' : frag_step st st' → cache_bounded st → cache_bounded st'.
Proof.
  destruct 1 as [pkt now r st' Hr|now st' Hr| |]; intros Hb.
  - by eapply try_reassemble_bounded.
  - unfold expire_fragments in Hr. apply bind_ret in Hr as (e & _ & Hr).
    assert (cache st' = filter (λ kv, saturating_sub now (timestamp kv.2) < FRAGMENT_TIMEOUT_TICKS) (cache st)) as Hc.
    { destruct (e >? 0); [|by injection Hr as <-]. by apply bind_ret in Hr as (c & _ & [= <-]). }
    destruct Hb as [Hsz Hall]. unfold cache_bounded. rewrite Hc. split.
    + etrans; [|exact Hsz]. apply map_subseteq_size, map_filter_subseteq.
    + intros k set [Hk _]%map_lookup_filter_Some. by apply (Hall k set).
  - split; simpl; [rewrite map_size_empty; lia | apply map_Forall_empty].
  - done.
Qed.

(** Whatever packets arrive and however they interleave with expiry, the
    cache never holds more than 256 datagrams or more than 64 fragments of
    one datagram. *)
Theorem fragment_cache_bounded st :
  rtc frag_step (mkFragState ∅ FRAGMENT_STATS_DEFAULT) st →
  (size (cache st) ≤ MAX_FRAGMENT_SETS)%nat ∧
  ∀ key set, cache st !! key = Some set → (length (fragments set) ≤ MAX_FRAGMENTS_PER_DATAGRAM)%nat.
Proof.
  intros Hr. assert (cache_bounded (mkFragState ∅ FRAGMENT_STATS_DEFAULT)) as H0
    by (split; simpl; [rewrite map_size_empty; lia | apply map_Forall_empty]).
  assert (cache_bounded st) as [Hsz Hall] by (induction Hr; eauto using frag_step_bounded).
  split; [done|]. intros key set Hk. by apply (Hall key set).
Qed.

(** ** What reaches the dispatcher *)

(** What a successful header parse says about the packet. *)
Lemma parse_ipv4_fields p h :
  parse_ipv4 p = Ret (Some h) →
  IP_HEADER_MIN_SIZE ≤ len p ∧ read_u16_be p 2 = Ret (total_len h) ∧ index p 9 = Ret (protocol h) ∧
  read_u32_be p 12 = Ret (src_ip h) ∧ read_u32_be p 16 = Ret (dst_ip h) ∧
  (∃ b0, index p 0 = Ret b0 ∧ header_len h = Z.land b0 0x0F * 4) ∧ 0 ≤ header_len h ≤ len p.
Proof.
  unfold parse_ipv4. destruct (Z.ltb_spec (len p) IP_HEADER_MIN_SIZE); [done|].
  intros (b0 & Hb0 & Hp)%bind_ret. destruct (_ || _) eqn:Hor; [done|].
  apply orb_false_iff in Hor as [_ Hihl%Z.ltb_ge].
  destruct (Z.ltb_spec (len p) (Z.land b0 15 * 4)); [done|]. outcome_inv Hp. injection Hp as <-. simpl.
  unfold IP_IHL_NO_OPTIONS in Hihl. split_and!; eauto; lia.
Qed.

Lemma handle_ipv4 st frame now eth p h :
  parse_ethernet frame = Ret (Some (eth, p)) → ethertype eth = ETHERTYPE_IPV4 → parse_ipv4 p = Ret (Some h) →
  handle_frame st frame now =
    ('(r, st) ← try_reassemble st p now;
     match r with
     | Err _ => Ret (Drop, st)
     | Ok (Some reassembled) => Ret (ToIpv4 (src_mac eth) (protocol h) (src_ip h) (dst_ip h) reassembled, st)
     | Ok None =>
         body ← slice p (header_len h) (len p);
         Ret (ToIpv4 (src_mac eth) (protocol h) (src_ip h) (dst_ip h) body, st)
     end).
Proof.
  intros Heth Hty Hip. unfold handle_frame. rewrite Heth. cbn [mbind outcome_bind].
  rewrite Hty. change (ETHERTYPE_IPV4 =? ETHERTYPE_ARP) with false.
  change (ETHERTYPE_IPV4 =? ETHERTYPE_IPV4) with true. cbn iota. by rewrite Hip.
Qed.

(** One frame is enough to stop the machine: an IPv4 fragment whose total
    length field exceeds the bytes that arrived makes the frame handler slice
    out of range and panic, in every build and whatever the cache holds. *)
Theorem truncated_fragment_panics st frame now eth p h id mf off :
  parse_ethernet frame = Ret (Some (eth, p)) → ethertype eth = ETHERTYPE_IPV4 → parse_ipv4 p = Ret (Some h) →
  parse_fragment_info p = Ret (Some (id, true, mf, off)) → len p < total_len h →
  handle_frame st frame now = Panic.
Proof.
  intros Heth Hty Hip Hinfo Hshort. rewrite (handle_ipv4 _ _ _ _ _ _ Heth Hty Hip).
  apply parse_ipv4_fields in Hip as (Hlen & Htl & Hpr & Hs & Hd & (b0 & Hb0 & Hhl) & Hhb).
  unfold try_reassemble. destruct (Z.ltb_spec (len p) IP_HEADER_MIN_SIZE); [lia|].
  rewrite Hinfo. cbn [mbind outcome_bind negb]. rewrite Hs, Hd, Hpr, Htl, Hb0. cbn [mbind outcome_bind].
  rewrite <- Hhl. destruct (Z.ltb_spec (total_len h) (header_len h)); [lia|].
  unfold slice. rewrite (proj2 (Z.leb_gt (total_len h) (Z.of_nat (length p)))) by (unfold len in *; lia).
  by rewrite andb_false_r.
Qed.

(** A fragment that was only buffered is nevertheless delivered: when
    reassembly answers that more fragments are needed, the frame handler hands
    the body of that one fragment to the protocol as if it were a whole
    datagram, together with any bytes beyond the packet's total length. *)
Theorem buffered_fragment_dispatched st st' frame now eth p h id mf off :
  parse_ethernet frame = Ret (Some (eth, p)) → ethertype eth = ETHERTYPE_IPV4 → parse_ipv4 p = Ret (Some h) →
  parse_fragment_info p = Ret (Some (id, true, mf, off)) → try_reassemble st p now = Ret (Ok None, st') →
  handle_frame st frame now =
    Ret (ToIpv4 (src_mac eth) (protocol h) (src_ip h) (dst_ip h) (drop (Z.to_nat (header_len h)) p), st').
Proof.
  intros Heth Hty Hip _ Hr. rewrite (handle_ipv4 _ _ _ _ _ _ Heth Hty Hip), Hr. cbn [mbind outcome_bind].
  apply parse_ipv4_fields in Hip as (_ & _ & _ & _ & _ & _ & Hhb).
  rewrite slice_ok by lia. cbn [mbind outcome_bind]. rewrite take_ge; [done|].
  rewrite length_drop. unfold len in *. lia.
Qed.

End properties.

(** ** Witnesses *)

Definition bytes_ex : list Z := Z.of_nat <$> seq 1 20.
Definition empty_state : FragState := mkFragState ∅ FRAGMENT_STATS_DEFAULT.

Lemma fragment_roundtrip_witness :
  ∃ pkts, fragment_payload (H := dev_profile) bytes_ex 0x0a000001 0x0a000002 7 17 30 = Ret pkts ∧
    ∃ st', receive_all (H := dev_profile) empty_state (reverse ((λ p, (p, 5)) <$> pkts))
      = Ret (replicate 2 (Ok None) ++ [Ok (Some bytes_ex)], st').
Proof.
  destruct (fragment_roundtrip (H := dev_profile) bytes_ex 0x0a000001 0x0a000002 7 17 30) as (pkts & Hf & Hall);
    [done..|].
  exists pkts. split; [exact Hf|].
  assert (Hlen : length pkts = 3%nat) by (vm_compute in Hf; injection Hf as <-; reflexivity).
  destruct (Hall (reverse ((λ p, (p, 5)) <$> pkts)) empty_state) as (st' & Hr & _).
  - rewrite fmap_reverse, <- list_fmap_compose. etrans; [apply reverse_Permutation|].
    rewrite (list_fmap_ext _ id); [by rewrite list_fmap_id | done].
  - done.
  - vm_compute. lia.
  - rewrite Hlen. unfold stats_room. simpl. lia.
  - exists st'. rewrite Hr, Hlen. reflexivity.
Defined.

Lemma fragments_well_formed_witness :
  ∃ pkts, fragment_payload (H := dev_profile) bytes_ex 0x0a000001 0x0a000002 7 17 30 = Ret pkts ∧
    Forall (λ pkt, len pkt ≤ 30 ∧ internet_checksum (H := dev_profile) (take 20 pkt) = Ret 0) pkts.
Proof.
  destruct (fragments_well_formed (H := dev_profile) bytes_ex 0x0a000001 0x0a000002 7 17 30) as (pkts & Hf & Hall);
    [done..|]. exists pkts. split; [exact Hf | exact Hall].
Defined.

(** An Ethernet frame with the first 8 bytes of a fragmented datagram. *)
Definition frame_ex (tl : Z) : list Z :=
  replicate 6 0xff ++ replicate 6 2 ++ [8; 0] ++
  [0x45; 0; 0; tl; 0; 7; 0x20; 0; 64; 17; 0; 0; 10; 0; 0; 1; 10; 0; 0; 2] ++ [1; 2; 3; 4; 5; 6; 7; 8].

Lemma fragment_cache_bounded_witness :
  ∃ st, handle_frame (H := dev_profile) empty_state (frame_ex 28) 5 = Ret (ToIpv4 (replicate 6 2) 17 0x0a000001 0x0a000002 [1; 2; 3; 4; 5; 6; 7; 8], st) ∧
    (size (cache st) ≤ MAX_FRAGMENT_SETS)%nat.
Proof.
  eexists. split; [vm_compute; reflexivity|].
  refine (proj1 (fragment_cache_bounded (H := dev_profile) _ _)).
  apply rtc_once, (frag_step_receive _ (drop 14 (frame_ex 28)) 5 (Ok None)). vm_compute. reflexivity.
Defined.

Lemma truncated_fragment_panics_witness :
  handle_frame (H := release_profile) empty_state (frame_ex 200) 5 = Panic.
Proof.
  eapply (truncated_fragment_panics (H := release_profile)); [reflexivity|reflexivity|reflexivity|reflexivity|].
  vm_compute. reflexivity.
Defined.

Definition eth_ex : EthernetHeader := mkEthernetHeader (replicate 6 0xff) (replicate 6 2) ETHERTYPE_IPV4.
Definition ipv4_ex : Ipv4Header := mkIpv4Header 17 0x0a000001 0x0a000002 28 20.
Definition buffered_ex : FragState :=
  match try_reassemble (H := dev_profile) empty_state (drop 14 (frame_ex 28)) 5 with
  | Ret (_, st) => st
  | Panic => empty_state
  end.

Lemma buffered_fragment_dispatched_witness :
  handle_frame (H := dev_profile) empty_state (frame_ex 28) 5
  = Ret (ToIpv4 (replicate 6 2) 17 0x0a000001 0x0a000002 [1; 2; 3; 4; 5; 6; 7; 8], buffered_ex).
Proof.
  apply (buffered_fragment_dispatched (H := dev_profile) empty_state buffered_ex (frame_ex 28) 5 eth_ex
    (drop 14 (frame_ex 28)) ipv4_ex 7 true 0); [reflexivity..|].
  unfold buffered_ex. destruct (try_reassemble _ _ _) as [[[[v|]|e] st]|] eqn:He;
    try reflexivity; vm_compute in He; done.
Defined.

(** Three fragments that are each accepted but do not fit together: the one
    that ends the datagram lies inside the first, so the second starts beyond
    the total length and copying it panics. *)
Lemma overlapping_fragments_panic :
  let frag off mf data := mkFragmentData off data mf in
  let key := mkFragmentKey 1 2 7 17 in
  reassemble_all (H := release_profile) empty_state key
    [(frag 0 true (replicate 32 1), 5); (frag 32 true (replicate 8 2), 6); (frag 8 false (replicate 8 3), 7)]
  = Panic.
Proof. vm_compute. reflexivity. Qed.
