(* ===== verification/NetStack.v ===== *)
(** * The network stack put together (kernel/src/net/mod.rs)

    The frame dispatcher over reassembly, ARP, ICMP, TCP and UDP, and what two
    hosts running it achieve: a TCP handshake and a transfer of data.  IPv6
    frames leave the model: the dispatcher answers [None] for them. *)

From S2P Require Import Prelude Ip Arp TcpSegment Tcp TcpProofs Udp Fragment.

Definition IP_PROTO_UDP : Z := 17.

Record NetStack (D : Type) : Type := mkNetStack {
  tcp : TcpStack D;
  udp_queues : UdpQueues;
  fragments_state : FragState;
}.
Arguments mkNetStack {D} _ _ _.
Arguments tcp {D} _.
Arguments udp_queues {D} _.
Arguments fragments_state {D} _.

Section stack.
Context {D : Type} `{NetDriver D} `{BuildProfile}.
Implicit Types s : NetStack D.

Definition with_tcp s (t : TcpStack D) : NetStack D := mkNetStack t (udp_queues s) (fragments_state s).
Definition with_interface s (n : NetState D) : NetStack D := with_tcp s (with_net (tcp s) n).

Definition dispatch_ipv4_payload s (eth_src : list Z) (proto src : Z) (bytes : list Z) : outcome (NetStack D) :=
  if proto =? IP_PROTO_ICMP then
    n ← handle_icmp (net (tcp s)) eth_src src bytes; Ret (with_interface s n)
  else if proto =? IP_PROTO_TCP then
    t ← handle_tcp_packet (tcp s) src bytes; Ret (with_tcp s t)
  else if proto =? IP_PROTO_UDP then
    q ← handle_incoming_udp (udp_queues s) src bytes; Ret (mkNetStack (tcp s) q (fragments_state s))
  else Ret s.

(** [handle_frame] with the handlers it calls. *)
Definition receive s (frame : list Z) : outcome (option (NetStack D)) :=
  '(action, f) ← handle_frame (fragments_state s) frame (TICKS (net (tcp s)));
  let s := mkNetStack (tcp s) (udp_queues s) f in
  match action with
  | Drop => Ret (Some s)
  | ToArp _ payload => n ← handle_arp (net (tcp s)) payload; Ret (Some (with_interface s n))
  | ToIpv4 eth_src proto src _ payload => s ← dispatch_ipv4_payload s eth_src proto src payload; Ret (Some s)
  | ToIpv6 _ _ => Ret None
  end.

Fixpoint receive_frames s (frames : list (list Z)) : outcome (option (NetStack D)) :=
  match frames with
  | [] => Ret (Some s)
  | f :: frames =>
      r ← receive s f;
      match r with
      | None => Ret None
      | Some s => receive_frames s frames
      end
  end.

End stack.

(** ** Frames that carry a segment *)

Section frames.
Context {D : Type} `{NetDriverLaws D} `{BuildProfile}.
Implicit Types (s : NetStack D) (n : NetState D) (c : TcpConnection).

(** The frame of a segment from host [sip] to host [dip]. *)
Definition tcp_frame (dst src : list Z) (sip dip sp dp sq ak fl win : Z) (payload frame : list Z) : Prop :=
  ∃ h1 h2 k1 k2, frame = dst ++ src ++ u16_to_be_bytes ETHERTYPE_IPV4 ++
    wire_header (40 + len payload) 0 0x4000 IP_PROTO_TCP h1 h2 sip dip ++ tcp_bytes sp dp sq ak fl win k1 k2 payload.

(** A packet with Don't Fragment set passes reassembly untouched. *)
Lemma try_reassemble_df f tl proto h1 h2 sip dip body now :
  try_reassemble f (wire_header tl 0 0x4000 proto h1 h2 sip dip ++ body) now = Ret (Ok None, f).
Proof.
  unfold try_reassemble, parse_fragment_info. rewrite !(proj2 (Z.ltb_ge _ _)); [reflexivity|..];
    unfold len; rewrite length_app, length_wire_header; unfold IP_HEADER_MIN_SIZE; lia.
Qed.

Lemma receive_tcp s dst src sip dip sp dp sq ak fl win payload frame :
  len dst = 6 → len src = 6 → is_uint 32 sip → is_uint 32 dip → segment_fields sp dp sq ak fl win payload →
  tcp_frame dst src sip dip sp dp sq ak fl win payload frame →
  ∃ ck, receive s frame =
    (let h := mkTcpHeader sp dp sq ak fl win ck 0 20 in
     t ← match CONNECTIONS (tcp s) !! (dp, sip, sp) with
         | None => handle_unknown (tcp s) sip h payload
         | Some c =>
             '(n, c) ← handle_segment (net (tcp s)) c h sip payload;
             Ret (mkStack n (<[(dp, sip, sp) := c]> (CONNECTIONS (tcp s))) (PENDING_ACCEPT (tcp s)))
         end;
     Ret (Some (with_tcp s t))).
Proof.
  intros Hd Hs Hsip Hdip Hf (h1 & h2 & k1 & k2 & ->). pose proof Hf as (? & ? & ? & ? & ? & ? & _ & Hl).
  exists (u16_from_be_bytes k1 k2). unfold receive, handle_frame. rewrite parse_build_ethernet by done.
  cbn [mbind outcome_bind ethertype]. rewrite parse_ipv4_wire by (try done; unfold is_uint, len, MAX_SEGMENT_SIZE in *; lia).
  change (ETHERTYPE_IPV4 =? ETHERTYPE_ARP) with false. rewrite Z.eqb_refl. cbn [mbind outcome_bind]. rewrite try_reassemble_df.
  cbn [mbind outcome_bind header_len]. rewrite slice_tail by (unfold len; rewrite length_app, length_wire_header; lia).
  cbn [mbind outcome_bind]. change (drop (Z.to_nat 20) _) with (tcp_bytes sp dp sq ak fl win k1 k2 payload).
  unfold dispatch_ipv4_payload. change (IP_PROTO_TCP =? IP_PROTO_ICMP) with false. rewrite Z.eqb_refl.
  cbn [tcp protocol src_ip]. unfold handle_tcp_packet. rewrite parse_tcp_bytes by done. cbn [mbind outcome_bind dst_port src_port].
  destruct (CONNECTIONS (tcp s) !! (dp, sip, sp)) as [c|].
  - by destruct (handle_segment _ _ _ _ _) as [[? ?]|].
  - by destruct (handle_unknown _ _ _ _).
Qed.

(** ** Sending over a resolved link *)

(** [n] has a fresh ARP entry for [addr]. *)
Definition resolves n (addr : Z) (m : list Z) : Prop :=
  ∃ e, ARP_TABLE n !! addr = Some e ∧ arp_fresh (TICKS n) e = true ∧ mac e = m.

(** The device never refuses a frame. *)
Definition reliable : Prop := ∀ (d : D) f, (nic_send d f).1 = true.

Lemma resolves_transmit n f addr m : resolves n addr m → resolves (transmit n f) addr m.
Proof. done. Qed.

Lemma arp_lookup_resolves n addr m : resolves n addr m → arp_lookup n addr = (Some m, n).
Proof. intros (e & He & Hf & <-). unfold arp_lookup. by rewrite He, Hf. Qed.

Lemma resolves_length n addr m : net_ok n → resolves n addr m → len m = 6.
Proof. intros [_ Hm] (e & He & _ & <-). by apply (Hm addr). Qed.

Lemma tcp_frame_length dst src sip dip sp dp sq ak fl win payload f :
  len dst = 6 → len src = 6 → tcp_frame dst src sip dip sp dp sq ak fl win payload f → len f = 54 + len payload.
Proof.
  intros Hd Hs (h1 & h2 & k1 & k2 & ->). rewrite length_frame by done.
  pose proof (length_tcp_bytes sp dp sq ak fl win k1 k2 payload) as Ht. unfold len in *.
  rewrite length_app, length_wire_header. lia.
Qed.

Lemma send_segment_frame n addr m sp dp sq ak fl win payload :
  reliable → net_ok n → is_uint 32 addr → resolves n addr m → segment_fields sp dp sq ak fl win payload →
  ∃ f, send_tcp_segment n addr sp dp sq ak fl win payload = Ret (transmit n f) ∧
    tcp_frame m (mac_address n) (local_ip n) addr sp dp sq ak fl win payload f ∧
    wire (nic (transmit n f)) = wire (nic n) ++ [f].
Proof.
  intros Hrel Hn Ha Hr Hf. pose proof (resolves_length _ _ _ Hn Hr) as Hm. unfold send_tcp_segment. rewrite build_tcp_ok.
  cbn [mbind outcome_bind]. rewrite (arp_lookup_resolves n addr m Hr).
  destruct (build_tcp_frame_ok m (mac_address n) (local_ip n) addr sp dp sq ak fl win payload) as (h1 & h2 & k1 & k2 & ->);
    [done|apply mac_length|apply Hn|done|done|]. cbn [mbind outcome_bind].
  set (f := m ++ _). exists f. assert (tcp_frame m (mac_address n) (local_ip n) addr sp dp sq ak fl win payload f) as Hfr
    by (by exists h1, h2, k1, k2). split_and!; [done..|].
  apply transmit_accepted; [intros g; apply Hrel|].
  rewrite (tcp_frame_length _ _ _ _ _ _ _ _ _ _ _ _ Hm (mac_length _) Hfr). destruct Hf as (_ & _ & _ & _ & _ & _ & _ & Hl).
  unfold MIN_FRAME_SIZE, MAX_FRAME_SIZE, MAX_SEGMENT_SIZE, len in *. lia.
Qed.

(** ** The three-way handshake *)

(** The client after [connect]. *)
Lemma connect_sends (st : TcpStack D) lp addr rp m :
  reliable → net_ok (net st) → is_uint 16 lp → is_uint 32 addr → is_uint 16 rp → resolves (net st) addr m →
  CONNECTIONS st !! (lp, addr, rp) = None →
  ∃ f q, let n := net st in
    connect st lp addr rp = Ret (Ok tt, mkStack (transmit n f)
      (<[(lp, addr, rp) := set_queue q (set_state SynSent (fresh_connection lp addr rp (TICKS n)))]> (CONNECTIONS st))
      (PENDING_ACCEPT st)) ∧
    tcp_frame m (mac_address n) (local_ip n) addr lp rp INITIAL_SEQ 0 TCP_FLAG_SYN DEFAULT_WINDOW_SIZE [] f ∧
    wire (nic (transmit n f)) = wire (nic n) ++ [f].
Proof.
  intros Hrel Hn Hlp Ha Hrp Hr Hk.
  destruct (send_segment_frame (net st) addr m lp rp INITIAL_SEQ 0 TCP_FLAG_SYN DEFAULT_WINDOW_SIZE [])
    as (f & Hs & Hf & Hw); [done..|by apply bare_fields|].
  unfold connect, new_connection. rewrite Hk. cbn [negb with_conns CONNECTIONS net PENDING_ACCEPT].
  rewrite lookup_insert_eq, build_tcp_ok. cbn [fresh_connection set_state seq_num recv_window retransmit_queue]. rewrite Hs.
  cbn [mbind outcome_bind]. rewrite insert_insert_eq. exists f. eexists. split; [done|]. done.
Qed.

(** The server on the SYN. *)
Lemma passive_open (st : TcpStack D) src lp rp h m queue :
  reliable → net_ok (net st) → is_uint 16 lp → is_uint 32 src → is_uint 16 rp → resolves (net st) src m →
  CONNECTIONS st !! (lp, src, rp) = None → PENDING_ACCEPT st !! lp = Some queue →
  ∃ f c, let n := net st in let ak := wrapping_add 32 (seq h) 1 in
    handle_passive_syn st src lp rp h =
      Ret (mkStack (transmit n f) (<[(lp, src, rp) := c]> (CONNECTIONS st)) (<[lp := queue ++ [(src, rp)]]> (PENDING_ACCEPT st))) ∧
    tcp_frame m (mac_address n) (local_ip n) src lp rp INITIAL_SEQ ak (Z.lor TCP_FLAG_SYN TCP_FLAG_ACK) DEFAULT_WINDOW_SIZE [] f ∧
    wire (nic (transmit n f)) = wire (nic n) ++ [f] ∧
    state c = SynReceived ∧ seq_num c = INITIAL_SEQ + 1 ∧ ack_num c = ak ∧ recv_buffer c = [].
Proof.
  intros Hrel Hn Hlp Ha Hrp Hr Hk Hq. set (ak := wrapping_add 32 (seq h) 1). set (fl := Z.lor TCP_FLAG_SYN TCP_FLAG_ACK).
  destruct (send_segment_frame (net st) src m lp rp INITIAL_SEQ ak fl DEFAULT_WINDOW_SIZE [])
    as (f & Hs & Hf & Hw); [done..|apply bare_fields; try done; by apply is_uint_wrapping|].
  unfold handle_passive_syn, new_connection. rewrite Hk. cbn [negb with_conns CONNECTIONS net PENDING_ACCEPT].
  rewrite lookup_insert_eq, build_tcp_ok. fold ak fl.
  cbn [fresh_connection set_state set_seq set_ack set_queue set_last_send set_last_recv ack_num recv_window retransmit_queue
       mbind outcome_bind]. rewrite Hs. cbn [mbind outcome_bind]. rewrite insert_insert_eq, Hq. exists f. eexists. split; [done|]. done.
Qed.

Lemma unknown_syn (st : TcpStack D) src h payload queue :
  flags h = TCP_FLAG_SYN → PENDING_ACCEPT st !! dst_port h = Some queue →
  handle_unknown st src h payload = handle_passive_syn st src (dst_port h) (src_port h) h.
Proof. intros Hfl Hq. unfold handle_unknown. by rewrite Hfl, Hq. Qed.

(** The client on the SYN-ACK. *)
Lemma client_established n c h src m :
  reliable → net_ok n → is_uint 32 src → resolves n src m → state c = SynSent →
  is_uint 16 (local_port c) → is_uint 16 (remote_port c) → is_uint 16 (recv_window c) → is_uint 32 (ack h) →
  flags h = Z.lor TCP_FLAG_SYN TCP_FLAG_ACK → ack h = wrapping_add 32 (seq_num c) 1 →
  ∃ f c', handle_segment n c h src [] = Ret (transmit n f, c') ∧
    tcp_frame m (mac_address n) (local_ip n) src (local_port c) (remote_port c) (ack h) (wrapping_add 32 (seq h) 1)
      TCP_FLAG_ACK (recv_window c) [] f ∧ wire (nic (transmit n f)) = wire (nic n) ++ [f] ∧
    state c' = Established ∧ seq_num c' = ack h ∧ ack_num c' = wrapping_add 32 (seq h) 1.
Proof.
  intros Hrel Hn Hs Hr Hst Hlp Hrp Hrw Hah Hfl Hack. unfold handle_segment. rewrite Hst. unfold handle_syn_sent. rewrite Hfl.
  rewrite Z.land_diag, Z.eqb_refl, (proj2 (Z.eqb_eq _ _) Hack). cbn [negb].
  unfold send_bare. cbn [local_port remote_port seq_num ack_num recv_window set_queue set_state set_send_window set_seq set_ack].
  destruct (send_segment_frame n src m (local_port c) (remote_port c) (ack h) (wrapping_add 32 (seq h) 1) TCP_FLAG_ACK (recv_window c) [])
    as (f & -> & Hf & Hw); [done..|apply bare_fields; try done; by apply is_uint_wrapping|].
  cbn [mbind outcome_bind]. exists f. eexists. split; [done|]. done.
Qed.

(** The server on the final acknowledgement. *)
Lemma server_established n c h src :
  state c = SynReceived → flags h = TCP_FLAG_ACK → ack h = seq_num c →
  ∃ c', handle_segment n c h src [] = Ret (n, c') ∧
    state c' = Established ∧ seq_num c' = seq_num c ∧ ack_num c' = ack_num c.
Proof.
  intros Hst Hfl Hack. unfold handle_segment. rewrite Hst. unfold handle_syn_received. rewrite Hfl, Hack, Z.eqb_refl.
  change (has_flag TCP_FLAG_ACK TCP_FLAG_ACK) with true. eexists. split; [done|]. done.
Qed.

(** The three legs at the frame level. *)

Lemma receive_syn s dst src sip dip sp dp m queue f :
  reliable → net_ok (net (tcp s)) → len dst = 6 → len src = 6 → is_uint 32 sip → is_uint 32 dip →
  is_uint 16 sp → is_uint 16 dp → resolves (net (tcp s)) sip m →
  CONNECTIONS (tcp s) !! (dp, sip, sp) = None → PENDING_ACCEPT (tcp s) !! dp = Some queue →
  tcp_frame dst src sip dip sp dp INITIAL_SEQ 0 TCP_FLAG_SYN DEFAULT_WINDOW_SIZE [] f →
  ∃ f' c, let n := net (tcp s) in
    receive s f = Ret (Some (with_tcp s (mkStack (transmit n f') (<[(dp, sip, sp) := c]> (CONNECTIONS (tcp s)))
      (<[dp := queue ++ [(sip, sp)]]> (PENDING_ACCEPT (tcp s)))))) ∧
    tcp_frame m (mac_address n) (local_ip n) sip dp sp INITIAL_SEQ (INITIAL_SEQ + 1) (Z.lor TCP_FLAG_SYN TCP_FLAG_ACK)
      DEFAULT_WINDOW_SIZE [] f' ∧
    wire (nic (transmit n f')) = wire (nic n) ++ [f'] ∧
    state c = SynReceived ∧ seq_num c = INITIAL_SEQ + 1 ∧ ack_num c = INITIAL_SEQ + 1.
Proof.
  intros Hrel Hn Hd Hs Hsip Hdip Hsp Hdp Hr Hk Hq Hf.
  destruct (receive_tcp s _ _ _ _ _ _ _ _ _ _ _ _ Hd Hs Hsip Hdip
    (bare_fields sp dp INITIAL_SEQ 0 TCP_FLAG_SYN DEFAULT_WINDOW_SIZE Hsp Hdp ltac:(done) ltac:(done) ltac:(done) ltac:(done)) Hf)
    as (ck & Hrec). rewrite Hk in Hrec. cbn zeta in Hrec. set (h := mkTcpHeader _ _ _ _ _ _ _ _ _) in Hrec.
  rewrite (unknown_syn _ _ h [] queue) in Hrec by done.
  destruct (passive_open (tcp s) sip dp sp h m queue) as (f' & c & Hps & Hf' & Hw & Hst & Hsq & Hak & _); [done..|].
  cbn [dst_port src_port h] in Hrec. rewrite Hps in Hrec. exists f', c. by split_and!.
Qed.

Lemma receive_syn_ack s dst src sip dip sp dp m c f :
  reliable → net_ok (net (tcp s)) → len dst = 6 → len src = 6 → is_uint 32 sip → is_uint 32 dip →
  is_uint 16 sp → is_uint 16 dp → resolves (net (tcp s)) sip m →
  CONNECTIONS (tcp s) !! (dp, sip, sp) = Some c → state c = SynSent → local_port c = dp → remote_port c = sp →
  recv_window c = DEFAULT_WINDOW_SIZE → seq_num c = INITIAL_SEQ →
  tcp_frame dst src sip dip sp dp INITIAL_SEQ (INITIAL_SEQ + 1) (Z.lor TCP_FLAG_SYN TCP_FLAG_ACK) DEFAULT_WINDOW_SIZE [] f →
  ∃ f' c', let n := net (tcp s) in
    receive s f = Ret (Some (with_tcp s (mkStack (transmit n f') (<[(dp, sip, sp) := c']> (CONNECTIONS (tcp s)))
      (PENDING_ACCEPT (tcp s))))) ∧
    tcp_frame m (mac_address n) (local_ip n) sip dp sp (INITIAL_SEQ + 1) (INITIAL_SEQ + 1) TCP_FLAG_ACK DEFAULT_WINDOW_SIZE [] f' ∧
    wire (nic (transmit n f')) = wire (nic n) ++ [f'] ∧
    state c' = Established ∧ seq_num c' = INITIAL_SEQ + 1 ∧ ack_num c' = INITIAL_SEQ + 1.
Proof.
  intros Hrel Hn Hd Hs Hsip Hdip Hsp Hdp Hr Hk Hst Hlp Hrp Hrw Hsq Hf.
  destruct (receive_tcp s _ _ _ _ _ _ _ _ _ _ _ _ Hd Hs Hsip Hdip
    (bare_fields sp dp INITIAL_SEQ (INITIAL_SEQ + 1) (Z.lor TCP_FLAG_SYN TCP_FLAG_ACK) DEFAULT_WINDOW_SIZE
      Hsp Hdp ltac:(done) ltac:(done) ltac:(done) ltac:(done)) Hf) as (ck & Hrec).
  rewrite Hk in Hrec. cbn zeta in Hrec. set (h := mkTcpHeader _ _ _ _ _ _ _ _ _) in Hrec.
  destruct (client_established (net (tcp s)) c h sip m) as (f' & c' & Hcl & Hf' & Hw & Hs' & Hsq' & Hak');
    rewrite ?Hlp, ?Hrp, ?Hrw, ?Hsq; try done.
  rewrite Hcl in Hrec. rewrite Hlp, Hrp, Hrw in Hf'. exists f', c'. by split_and!.
Qed.

Lemma receive_final_ack s dst src sip dip sp dp c f :
  len dst = 6 → len src = 6 → is_uint 32 sip → is_uint 32 dip → is_uint 16 sp → is_uint 16 dp →
  CONNECTIONS (tcp s) !! (dp, sip, sp) = Some c → state c = SynReceived → seq_num c = INITIAL_SEQ + 1 →
  tcp_frame dst src sip dip sp dp (INITIAL_SEQ + 1) (INITIAL_SEQ + 1) TCP_FLAG_ACK DEFAULT_WINDOW_SIZE [] f →
  ∃ c', receive s f = Ret (Some (with_tcp s (mkStack (net (tcp s)) (<[(dp, sip, sp) := c']> (CONNECTIONS (tcp s)))
      (PENDING_ACCEPT (tcp s))))) ∧
    state c' = Established ∧ seq_num c' = seq_num c ∧ ack_num c' = ack_num c.
Proof.
  intros Hd Hs Hsip Hdip Hsp Hdp Hk Hst Hsq Hf.
  destruct (receive_tcp s _ _ _ _ _ _ _ _ _ _ _ _ Hd Hs Hsip Hdip
    (bare_fields sp dp (INITIAL_SEQ + 1) (INITIAL_SEQ + 1) TCP_FLAG_ACK DEFAULT_WINDOW_SIZE
      Hsp Hdp ltac:(done) ltac:(done) ltac:(done) ltac:(done)) Hf) as (ck & Hrec).
  rewrite Hk in Hrec. cbn zeta in Hrec. set (h := mkTcpHeader _ _ _ _ _ _ _ _ _) in Hrec.
  destruct (server_established (net (tcp s)) c h sip) as (c' & Hsv & Hrest); [done..|].
  rewrite Hsv in Hrec. by exists c'.
Qed.

End frames.

Section two_hosts.
Context {D : Type} `{NetDriverLaws D} `{BuildProfile}.
Implicit Types (a b : NetStack D).

Definition interface (s : NetStack D) : NetState D := net (tcp s).
Definition ip_of (s : NetStack D) : Z := local_ip (interface s).

(** Two hosts that have each other's hardware address. *)
Definition linked a b : Prop :=
  stack_ok (tcp a) ∧ stack_ok (tcp b) ∧
  resolves (interface a) (ip_of b) (mac_address (interface b)) ∧
  resolves (interface b) (ip_of a) (mac_address (interface a)).

(** C3: the three-way handshake succeeds. When host [a] connects to a port host
    [b] listens on, the three frames the two hosts send each other, each
    received through the full frame dispatcher, leave both connections
    established with matching sequence numbers, and the connection is queued
    for [accept]. *)
Theorem tcp_handshake a b lp rp queue :
  reliable (D := D) → linked a b → is_uint 16 lp → is_uint 16 rp →
  CONNECTIONS (tcp a) !! (lp, ip_of b, rp) = None → CONNECTIONS (tcp b) !! (rp, ip_of a, lp) = None →
  PENDING_ACCEPT (tcp b) !! rp = Some queue →
  ∃ f1 f2 f3 t1 b1 a2 b2 ca cb,
    connect (tcp a) lp (ip_of b) rp = Ret (Ok tt, t1) ∧
    receive b f1 = Ret (Some b1) ∧ receive (with_tcp a t1) f2 = Ret (Some a2) ∧ receive b1 f3 = Ret (Some b2) ∧
    wire (nic (interface a2)) = wire (nic (interface a)) ++ [f1; f3] ∧
    wire (nic (interface b2)) = wire (nic (interface b)) ++ [f2] ∧
    CONNECTIONS (tcp a2) !! (lp, ip_of b, rp) = Some ca ∧ CONNECTIONS (tcp b2) !! (rp, ip_of a, lp) = Some cb ∧
    state ca = Established ∧ state cb = Established ∧
    seq_num ca = ack_num cb ∧ seq_num cb = ack_num ca ∧
    PENDING_ACCEPT (tcp b2) !! rp = Some (queue ++ [(ip_of a, lp)]).
Proof.
  intros Hrel ([Hna Hca] & [Hnb Hcb] & Hra & Hrb) Hlp Hrp Hka Hkb Hq.
  assert (is_uint 32 (ip_of a) ∧ is_uint 32 (ip_of b)) as [Hia Hib] by (split; [apply Hna|apply Hnb]).
  destruct (connect_sends (tcp a) lp (ip_of b) rp (mac_address (interface b))) as (f1 & q & Hcon & Hf1 & Hw1); [done..|].
  set (t1 := mkStack _ _ _) in Hcon. set (na := transmit (net (tcp a)) f1) in *.
  assert (net_after (net (tcp a)) na) as Hna1 by (by apply transmit_after).
  destruct (receive_syn b (mac_address (interface b)) (mac_address (interface a)) (ip_of a) (ip_of b) lp rp
    (mac_address (interface a)) queue f1) as (f2 & cb0 & Hr1 & Hf2 & Hw2 & Hs0 & Hsq0 & Hak0); try done; [apply mac_length..|]. set (tb1 := mkStack _ _ _) in Hr1.
  destruct (receive_syn_ack (with_tcp a t1) (mac_address (interface a)) (mac_address (interface b)) (ip_of b) (ip_of a) rp lp
    (mac_address (interface b)) (set_queue q (set_state SynSent (fresh_connection lp (ip_of b) rp (TICKS (net (tcp a)))))) f2)
    as (f3 & ca & Hr2 & Hf3 & Hw3 & Hsa & Hsqa & Haka); try first [done | apply mac_length | apply lookup_insert_eq].
  destruct (receive_final_ack (with_tcp b tb1) (mac_address (interface b)) (mac_address na) (ip_of a) (ip_of b) lp rp cb0 f3)
    as (cb & Hr3 & Hsb & Hsqb & Hakb); try first [done | apply mac_length | apply lookup_insert_eq].
  exists f1, f2, f3, t1. eexists _, _, _, ca, cb. split; [exact Hcon|]. split; [exact Hr1|]. split; [exact Hr2|]. split; [exact Hr3|].
  split_and!; [|exact Hw2|apply lookup_insert_eq..|exact Hsa|exact Hsb|congruence|congruence|apply lookup_insert_eq].
  change (wire (nic (transmit na f3)) = wire (nic (net (tcp a))) ++ [f1; f3]).
  change (net (tcp (with_tcp a t1))) with na in Hw3. rewrite Hw3, Hw1. by rewrite <- app_assoc.
Qed.

End two_hosts.

(** ** Two hosts on one link *)

(** Host 10.0.2.[x], which knows the hardware address of 10.0.2.[y]. *)
Definition peer_net (x y : Z) : NetState MemNic :=
  with_arp (host x) {[ 0x0A000200 + y := mkArpEntry [0x52; 0x54; 0; 0; 0; y] 100 ]}.

Definition no_fragments : FragState := mkFragState ∅ (mkFragmentStats 0 0 0 0 0 0 0).

Definition peer (x y : Z) (conns : gmap ConnKey TcpConnection) (listening : gmap Z (list (Z * Z))) : NetStack MemNic :=
  mkNetStack (mkStack (peer_net x y) conns listening) ∅ no_fragments.

Lemma mem_reliable : reliable (D := MemNic).
Proof. done. Qed.

Lemma peers_linked ma mb la lb :
  map_Forall conn_ok ma → map_Forall conn_ok mb → linked (peer 1 2 ma la) (peer 2 1 mb lb).
Proof.
  intros Ha Hb. split_and!; [split; [split; [done|]|exact Ha]|split; [split; [done|]|exact Hb]|by eexists|by eexists];
    by apply map_Forall_singleton.
Qed.

Lemma tcp_handshake_witness :
  ∃ t1 b2 : NetStack MemNic, connect (H0 := dev_profile) (tcp (peer 1 2 ∅ ∅)) 49152 0x0A000202 80 = Ret (Ok tt, tcp t1) ∧
    PENDING_ACCEPT (tcp b2) !! 80 = Some [(0x0A000201, 49152)].
Proof.
  destruct (tcp_handshake (H1 := dev_profile) (peer 1 2 ∅ ∅) (peer 2 1 ∅ {[ 80 := [] ]}) 49152 80 [] mem_reliable
    (peers_linked _ _ _ _ (map_Forall_empty _) (map_Forall_empty _)) ltac:(done) ltac:(done)
    (lookup_empty _) (lookup_empty _) (lookup_singleton_eq _ _))
    as (f1 & f2 & f3 & t1 & b1 & a2 & b2 & ca & cb & Hc & _ & _ & _ & _ & _ & _ & _ & _ & _ & _ & _ & Hq).
  exists (mkNetStack t1 ∅ no_fragments), b2. split; [exact Hc|exact Hq].
Defined.
