(* ===== verification/TcpTransfer.v ===== *)
(** * Data transfer over TCP (kernel/src/net/tcp.rs, kernel/src/net/mod.rs)

    What [send_data] puts on the wire and what the peer makes of it: delivery
    of a byte string of any length between two hosts, and the three situations
    the code gets wrong: a peer that closes its window, a duplicate
    acknowledgement and a segment that arrives twice. *)

From S2P Require Import Prelude Ip Arp TcpSegment Tcp TcpProofs Udp Fragment NetStack.

Definition DATA_FLAGS : Z := Z.lor TCP_FLAG_PSH TCP_FLAG_ACK.

(** ** Receiving *)

Section receiving.
Context {D : Type} `{NetDriverLaws D} `{BuildProfile}.
Implicit Types (s : NetStack D) (n : NetState D) (c : TcpConnection).

(** A data segment is appended to the buffer, whatever its sequence number. *)
Lemma established_data k n c h src payload :
  net_ok n → conn_ok k c → state c = Established → header_ok h → is_uint 32 src → Forall is_byte payload →
  payload ≠ [] → flags h = DATA_FLAGS →
  ∃ n' c', handle_segment n c h src payload = Ret (n', c') ∧ net_after n n' ∧ conn_ok k c' ∧
    state c' = Established ∧ recv_buffer c' = recv_buffer c ++ payload ∧
    ack_num c' = wrapping_add 32 (ack_num c) (cast 32 (len payload)) ∧ seq_num c' = seq_num c.
Proof.
  intros Hn Hc Hst Hh Hs Hp Hne Hfl. pose proof (open_no_error _ _ Hc ltac:(congruence)) as He.
  unfold handle_segment. rewrite Hst. unfold handle_established. rewrite Hfl.
  change (has_flag DATA_FLAGS TCP_FLAG_RST) with false. change (has_flag DATA_FLAGS TCP_FLAG_ACK) with true.
  change (has_flag DATA_FLAGS TCP_FLAG_FIN) with false. cbv iota.
  set (c1 := set_send_window _ _). assert (conn_ok k c1) as Hc1 by (apply set_send_window_ok; [by apply set_last_recv_ok|apply Hh]).
  destruct (process_ack_ok k c1 (ack h) Hc1 He) as (c2 & -> & Hc2 & He2 & Heq). cbn [mbind outcome_bind].
  destruct (Z.eqb_spec (len payload) 0) as [Hz|_]; [by destruct payload|].
  assert (conn_ok k (append_payload c2 payload)) as Hc3 by (by apply append_payload_ok).
  destruct (send_bare_ok k n (append_payload c2 payload) src TCP_FLAG_ACK) as (n' & -> & Hn'); [done..|].
  exists n', (append_payload c2 payload). split; [done|]. split; [done|]. split; [done|]. unfold append_payload. rewrite Heq. by split_and!.
Qed.

Lemma receive_data s dst src sip dip sp dp sq ak win payload c f :
  stack_ok (tcp s) → len dst = 6 → len src = 6 → is_uint 32 sip → is_uint 32 dip →
  segment_fields sp dp sq ak DATA_FLAGS win payload → payload ≠ [] →
  CONNECTIONS (tcp s) !! (dp, sip, sp) = Some c → state c = Established →
  tcp_frame dst src sip dip sp dp sq ak DATA_FLAGS win payload f →
  ∃ s' c', receive s f = Ret (Some s') ∧ stack_ok (tcp s') ∧ CONNECTIONS (tcp s') !! (dp, sip, sp) = Some c' ∧
    state c' = Established ∧ recv_buffer c' = recv_buffer c ++ payload ∧
    ack_num c' = wrapping_add 32 (ack_num c) (cast 32 (len payload)) ∧ seq_num c' = seq_num c.
Proof.
  intros [Hn Hm] Hd Hs Hsip Hdip Hf Hne Hk Hst Hfr. destruct (receive_tcp s _ _ _ _ _ _ _ _ _ _ _ _ Hd Hs Hsip Hdip Hf Hfr) as (ck & Hrec).
  rewrite Hk in Hrec. cbn zeta in Hrec. set (h := mkTcpHeader _ _ _ _ _ _ _ _ _) in Hrec.
  destruct Hf as (? & ? & ? & ? & ? & ? & ? & _).
  destruct (established_data (dp, sip, sp) (net (tcp s)) c h sip payload) as (n' & c' & Hh & Hn' & Hc' & Hrest); try done; [by apply Hm|].
  rewrite Hh in Hrec. cbn [mbind outcome_bind] in Hrec. eexists _, c'. split; [exact Hrec|].
  split; [apply stack_ok_insert; [apply Hn'|done..]|]. split; [apply lookup_insert_eq|done].
Qed.

(** ** A stream of data segments *)

(** [fs] are the frames of consecutive data segments carrying [chunks] from
    sequence number [sq] on. *)
Fixpoint data_frames (dst src : list Z) (sip dip sp dp ak win sq : Z) (chunks fs : list (list Z)) : Prop :=
  match chunks, fs with
  | [], [] => True
  | p :: chunks, f :: fs =>
      p ≠ [] ∧ segment_fields sp dp sq ak DATA_FLAGS win p ∧ tcp_frame dst src sip dip sp dp sq ak DATA_FLAGS win p f ∧
      data_frames dst src sip dip sp dp ak win (wrapping_add 32 sq (cast 32 (len p))) chunks fs
  | _, _ => False
  end.

Lemma wrap_add_assoc a l1 l2 : wrap 32 (wrapping_add 32 a (cast 32 l1) + l2) = wrap 32 (a + (l1 + l2)).
Proof.
  unfold wrapping_add, cast, wrap. rewrite Z.add_mod_idemp_l by lia.
  rewrite <- Z.add_assoc, (Z.add_comm (l1 mod _)), Z.add_assoc, Z.add_mod_idemp_r by lia. f_equal. lia.
Qed.

Lemma receive_stream dst src sip dip sp dp ak win chunks fs :
  len dst = 6 → len src = 6 → is_uint 32 sip → is_uint 32 dip → ∀ sq s c,
  data_frames dst src sip dip sp dp ak win sq chunks fs →
  stack_ok (tcp s) → CONNECTIONS (tcp s) !! (dp, sip, sp) = Some c → state c = Established →
  ∃ s' c', receive_frames s fs = Ret (Some s') ∧ stack_ok (tcp s') ∧ CONNECTIONS (tcp s') !! (dp, sip, sp) = Some c' ∧
    state c' = Established ∧ recv_buffer c' = recv_buffer c ++ mjoin chunks ∧
    ack_num c' = wrap 32 (ack_num c + len (mjoin chunks)) ∧ seq_num c' = seq_num c.
Proof.
  intros Hd Hs Hsip Hdip. revert fs. induction chunks as [|p chunks IH]; intros [|f fs] sq s c Hfs Hok Hk Hst; simpl in Hfs; try done.
  - exists s, c. rewrite app_nil_r. split_and!; try done. unfold len. simpl. rewrite Z.add_0_r. symmetry. apply Z.mod_small.
    destruct Hok as [_ Hm]. apply (Hm _ _ Hk).
  - destruct Hfs as (Hne & Hf & Hfr & Hrest).
    destruct (receive_data s dst src sip dip sp dp sq ak win p c f) as (s1 & c1 & Hr & Hok1 & Hk1 & Hst1 & Hbuf & Hack & Hseq); [done..|].
    destruct (IH fs _ s1 c1 Hrest Hok1 Hk1 Hst1) as (s2 & c2 & Hr2 & Hok2 & Hk2 & Hst2 & Hbuf2 & Hack2 & Hseq2).
    exists s2, c2. cbn [receive_frames]. rewrite Hr. cbn [mbind outcome_bind].
    change (mjoin (p :: chunks)) with (p ++ mjoin chunks). split_and!; [done..| | |congruence].
    + by rewrite Hbuf2, Hbuf, <- app_assoc.
    + rewrite Hack2, Hack, wrap_add_assoc. unfold len. rewrite length_app. f_equal. lia.
Qed.

End receiving.

(** ** Sending *)

Section sending.
Context {D : Type} `{NetDriverLaws D} `{BuildProfile}.
Implicit Types (s : NetStack D) (n : NetState D) (c : TcpConnection).

Definition chunk_size c (remaining : Z) : Z :=
  Z.min (Z.min remaining MAX_SEGMENT_SIZE) (Z.min (cwnd c) (send_window c)).

Lemma send_frame_accepted n f :
  (nic_send (nic n) f).1 = true → MIN_FRAME_SIZE ≤ len f ≤ MAX_FRAME_SIZE →
  send_frame (nic n) f = (Ok (len f), nic (transmit n f)).
Proof.
  intros Hacc Hl. unfold transmit, send_frame. destruct (Z.ltb_spec MAX_FRAME_SIZE (len f)); [lia|].
  destruct (Z.ltb_spec (len f) MIN_FRAME_SIZE); [lia|]. destruct (nic_send (nic n) f) as [ok d]. simpl in *. by subst.
Qed.

(** One pass of the loop over a resolved link and a willing device. *)
Lemma send_chunk_frame n c lp addr rp m bytes total :
  let k := (lp, addr, rp) in
  let p := take (Z.to_nat (chunk_size c (len bytes - total))) (drop (Z.to_nat total) bytes) in
  reliable (D := D) → net_ok n → resolves n addr m → conn_ok k c → error c = None → Forall is_byte bytes → 0 ≤ total < len bytes →
  ∃ f q, send_chunk n c lp addr rp bytes total =
      Ret (Some (set_seq (wrapping_add 32 (seq_num c) (cast 32 (len p))) (set_last_send (TICKS n) (set_queue (retransmit_queue c ++ [q]) c)),
                 total + len p), transmit n f) ∧
    entry_ok q ∧ segment_fields lp rp (seq_num c) (ack_num c) DATA_FLAGS (recv_window c) p ∧
    tcp_frame m (mac_address n) (local_ip n) addr lp rp (seq_num c) (ack_num c) DATA_FLAGS (recv_window c) p f ∧
    wire (nic (transmit n f)) = wire (nic n) ++ [f] ∧ len p = chunk_size c (len bytes - total).
Proof.
  intros k p Hrel Hn Hr Hc He Hb Ht. pose proof (co_key _ _ Hc) as Hkey. injection Hkey as Hlp Hra Hrp.
  pose proof (co_cwnd _ _ Hc). pose proof (co_sw _ _ Hc). set (sz := chunk_size c (len bytes - total)) in *.
  assert (0 ≤ sz ≤ len bytes - total ∧ sz ≤ MAX_SEGMENT_SIZE) as [Hsz Hmss].
  { unfold sz, chunk_size, is_uint, MAX_SEGMENT_SIZE in *. lia. }
  assert (len p = sz) as Hlen by (unfold p, len in *; rewrite length_take, length_drop; lia).
  assert (segment_fields lp rp (seq_num c) (ack_num c) DATA_FLAGS (recv_window c) p) as Hf.
  { rewrite <- Hlp, <- Hrp. split_and!; try apply Hc; [done|by apply Forall_take, Forall_drop|lia]. }
  pose proof (resolves_length _ _ _ Hn Hr) as Hm6. unfold send_chunk. fold (chunk_size c (len bytes - total)). fold sz.
  rewrite slice_ok by lia. cbn [mbind outcome_bind]. replace (total + sz - total) with sz by lia. fold p.
  rewrite build_tcp_ok, (arp_lookup_resolves n addr m Hr). cbn [mbind outcome_bind].
  destruct (build_tcp_frame_ok m (mac_address n) (local_ip n) addr lp rp (seq_num c) (ack_num c) DATA_FLAGS (recv_window c) p)
    as (h1 & h2 & k1 & k2 & Hbf); [done|apply mac_length|apply Hn|rewrite <- Hra; apply Hc|done|].
  unfold DATA_FLAGS in Hbf. rewrite Hbf. cbn [mbind outcome_bind]. set (f := m ++ _).
  assert (tcp_frame m (mac_address n) (local_ip n) addr lp rp (seq_num c) (ack_num c) DATA_FLAGS (recv_window c) p f) as Hfr
    by (by exists h1, h2, k1, k2).
  pose proof (tcp_frame_length _ _ _ _ _ _ _ _ _ _ _ _ Hm6 (mac_length _) Hfr) as Hfl.
  assert (MIN_FRAME_SIZE ≤ len f ≤ MAX_FRAME_SIZE) as Hfs by (unfold MIN_FRAME_SIZE, MAX_FRAME_SIZE, MAX_SEGMENT_SIZE in *; lia).
  pose proof (transmit_accepted n f (λ g, Hrel _ g) Hfs) as Hw. rewrite (send_frame_accepted n f (Hrel _ f) Hfs).
  rewrite <- Hlen. exists f. eexists. split; [done|]. split; [apply entry_ok_new; [done|rewrite <- Hra; apply Hc]|]. by rewrite Hlen.
Qed.

(** The whole loop: with a positive window it terminates, having sent every
    byte. *)
Lemma send_loop_stream lp addr rp m bytes fuel :
  reliable (D := D) → Forall is_byte bytes → ∀ n c total,
  net_ok n → resolves n addr m → conn_ok (lp, addr, rp) c → error c = None → 1 ≤ send_window c →
  0 ≤ total ≤ len bytes → len bytes - total < Z.of_nat fuel →
  ∃ chunks fs c' n', send_loop fuel n c lp addr rp bytes total = Ret (Some (len bytes, c', n')) ∧
    data_frames m (mac_address n) (local_ip n) addr lp rp (ack_num c) (recv_window c) (seq_num c) chunks fs ∧
    mjoin chunks = drop (Z.to_nat total) bytes ∧ wire (nic n') = wire (nic n) ++ fs ∧
    net_after n n' ∧ conn_ok (lp, addr, rp) c' ∧ state c' = state c ∧
    seq_num c' = wrap 32 (seq_num c + (len bytes - total)) ∧ ack_num c' = ack_num c.
Proof.
  intros Hrel Hb. induction fuel as [|fuel IH]; intros n c total Hn Hr Hc He Hw Ht Hfuel; [lia|]. simpl.
  destruct (Z.ltb_spec total (len bytes)) as [Hlt|Hge].
  2: { assert (total = len bytes) as -> by lia. exists [], [], c, n. rewrite drop_ge by (unfold len; lia). rewrite app_nil_r.
       split_and!; try done. rewrite Z.sub_diag, Z.add_0_r. symmetry. apply Z.mod_small, Hc. }
  destruct (send_chunk_frame n c lp addr rp m bytes total) as (f & q & -> & Hq & Hf & Hfr & Hwire & Hlen); [done..|lia|].
  cbn [mbind outcome_bind]. set (p := take _ (drop _ bytes)) in *. pose proof (co_cwnd _ _ Hc).
  assert (1 ≤ len p ≤ len bytes - total) as Hp by (rewrite Hlen; unfold chunk_size, MAX_SEGMENT_SIZE in *; lia).
  set (c1 := set_seq _ _). assert (conn_ok (lp, addr, rp) c1) as Hc1.
  { apply next_seq_ok, set_last_send_ok, set_queue_ok; [done..|]. apply Forall_app_2; [apply Hc|]. by apply list.Forall_singleton. }
  pose proof (transmit_after n f Hn) as Hn1. destruct (transmit_keeps n f) as (_ & _ & Hip & Hmac).
  destruct (IH (transmit n f) c1 (total + len p)) as (chunks & fs & c' & n' & -> & Hfs & Hj & Hw' & Hn' & Hc' & Hst & Hsq & Hak);
    [apply Hn1|done..|lia|lia|].
  exists (p :: chunks), (f :: fs), c', n'. rewrite Hip, Hmac in Hfs.
  split; [done|]. split; [split; [intros Hnil; rewrite Hnil in Hp; unfold len in Hp; simpl in Hp; lia|done]|]. split.
  - change (mjoin (p :: chunks)) with (p ++ mjoin chunks). rewrite Hj.
    assert (Z.to_nat (total + len p) = Z.to_nat total + Z.to_nat (chunk_size c (len bytes - total)))%nat as ->
      by (rewrite <- Hlen; lia).
    unfold p. rewrite <- drop_drop. apply take_drop.
  - rewrite Hw', Hwire, <- app_assoc. split; [done|]. split; [by eapply net_after_trans|]. split; [done|]. split; [by rewrite Hst|].
    split; [|by rewrite Hak]. rewrite Hsq. unfold c1. cbn [seq_num set_seq]. rewrite wrap_add_assoc. f_equal. lia.
Qed.

End sending.

(** ** Two hosts *)

Section transfer.
Context {D : Type} `{NetDriverLaws D} `{BuildProfile}.
Implicit Types (a b : NetStack D).

(** Both ends of a connection are established and agree on the next byte. *)
Definition in_sync a b (lp rp : Z) (ca cb : TcpConnection) : Prop :=
  CONNECTIONS (tcp a) !! (lp, ip_of b, rp) = Some ca ∧ CONNECTIONS (tcp b) !! (rp, ip_of a, lp) = Some cb ∧
  state ca = Established ∧ state cb = Established ∧ seq_num ca = ack_num cb.

(** C5: data arrives. On an established connection over a working link with a
    window that is not closed, [send_data] of any byte string returns its full
    length within one pass per byte; the frames it put on the wire, received in
    order by the peer through the frame dispatcher, append exactly these bytes
    to the peer's buffer, and the two ends agree again on the next sequence
    number. *)
Theorem tcp_transfer a b lp rp ca cb bytes :
  reliable (D := D) → linked a b → in_sync a b lp rp ca cb → 1 ≤ send_window ca → Forall is_byte bytes →
  ∃ t' fs b' ca' cb',
    send_data (S (length bytes)) (tcp a) lp (ip_of b) rp bytes = Ret (Some (Ok (len bytes), t')) ∧
    wire (nic (net t')) = wire (nic (interface a)) ++ fs ∧
    receive_frames b fs = Ret (Some b') ∧
    CONNECTIONS t' !! (lp, ip_of b, rp) = Some ca' ∧ CONNECTIONS (tcp b') !! (rp, ip_of a, lp) = Some cb' ∧
    recv_buffer cb' = recv_buffer cb ++ bytes ∧ state ca' = Established ∧ state cb' = Established ∧
    seq_num ca' = ack_num cb'.
Proof.
  intros Hrel ([Hna Hma] & Hokb & Hra & Hrb) (Hka & Hkb & Hsa & Hsb & Hsync) Hw Hb. pose proof Hokb as [Hnb Hmb].
  pose proof (Hma _ _ Hka) as Hca. pose proof (open_no_error _ _ Hca ltac:(congruence)) as He.
  destruct (send_loop_stream lp (ip_of b) rp (mac_address (interface b)) bytes (S (length bytes)) Hrel Hb (interface a) ca 0)
    as (chunks & fs & ca' & n' & Hsend & Hfs & Hj & Hwire & Hn' & Hca' & Hst' & Hsq & _); try done; [unfold len; lia..|].
  destruct (receive_stream _ _ (ip_of a) (ip_of b) lp rp _ _ chunks fs (mac_length (nic (interface b))) (mac_length (nic (interface a)))
    (proj1 Hna) (proj1 Hnb) _ b cb Hfs Hokb Hkb Hsb) as (b' & cb' & Hrec & _ & Hkb' & Hsb' & Hbuf & Hack & _).
  exists (mkStack n' (<[(lp, ip_of b, rp) := ca']> (CONNECTIONS (tcp a))) (PENDING_ACCEPT (tcp a))), fs, b', ca', cb'.
  rewrite drop_0 in Hj. rewrite Hj in Hbuf, Hack. split.
  { unfold send_data. rewrite Hka. unfold is_reset. rewrite He, bool_decide_true by done. cbn [negb].
    change (net (tcp a)) with (interface a). by rewrite Hsend. }
  split_and!; [done|done|apply lookup_insert_eq|done|done|congruence|done|].
  rewrite Hsq, Hack, Hsync. by rewrite Z.sub_0_r.
Qed.

End transfer.

(** ** What goes wrong *)

Section defects.
Context {D : Type} `{NetDriverLaws D} `{BuildProfile}.
Implicit Types (s : NetStack D) (n : NetState D) (c : TcpConnection) (st : TcpStack D).

Lemma send_loop_zero_window lp addr rp m bytes fuel :
  reliable (D := D) → Forall is_byte bytes → bytes ≠ [] → ∀ n c,
  net_ok n → resolves n addr m → conn_ok (lp, addr, rp) c → error c = None → send_window c = 0 →
  send_loop fuel n c lp addr rp bytes 0 = Ret None.
Proof.
  intros Hrel Hb Hne. assert (0 < len bytes) as Hlen by (destruct bytes; [done|unfold len; simpl; lia]).
  induction fuel as [|fuel IH]; intros n c Hn Hr Hc He Hw; [done|]. simpl. rewrite (proj2 (Z.ltb_lt 0 (len bytes)) Hlen).
  destruct (send_chunk_frame n c lp addr rp m bytes 0) as (f & q & -> & Hq & _ & _ & _ & Hp); [done..|].
  cbn [mbind outcome_bind]. pose proof (co_cwnd _ _ Hc).
  assert (len (take (Z.to_nat (chunk_size c (len bytes - 0))) (drop (Z.to_nat 0) bytes)) = 0) as ->.
  { rewrite Hp. unfold chunk_size, MAX_SEGMENT_SIZE in *. rewrite Hw. lia. }
  apply IH; [apply transmit_after|done| |done|done]; [done|].
  apply next_seq_ok, set_last_send_ok, set_queue_ok; [done..|]. apply Forall_app_2; [apply Hc|]. by apply list.Forall_singleton.
Qed.

(** a peer that closes its window hangs the sender. When the window the
    peer last advertised is zero, [send_data] of a non-empty byte string over a
    working link does not return, whatever the number of passes: each pass
    sends and queues an empty segment while the connection table is locked. *)
Theorem zero_window_hangs st lp addr rp m c bytes fuel :
  reliable (D := D) → stack_ok st → resolves (net st) addr m → CONNECTIONS st !! (lp, addr, rp) = Some c →
  state c = Established → send_window c = 0 → Forall is_byte bytes → bytes ≠ [] →
  send_data fuel st lp addr rp bytes = Ret None.
Proof.
  intros Hrel [Hn Hm] Hr Hk Hst Hw Hb Hne. pose proof (Hm _ _ Hk) as Hc.
  pose proof (open_no_error _ _ Hc ltac:(congruence)) as He. unfold send_data. rewrite Hk. unfold is_reset. rewrite He.
  rewrite bool_decide_true by done. cbn [negb]. by rewrite (send_loop_zero_window lp addr rp m).
Qed.

(** an acknowledgement that asks for a segment discards it. A segment of an
    established connection that acknowledges exactly up to the first byte of a
    queued segment, as a receiver does that is missing this segment, removes it
    from the retransmission queue: it is never sent again. *)
Theorem duplicate_ack_forgets k n c h src payload e :
  net_ok n → conn_ok k c → state c = Established → header_ok h → is_uint 32 src → Forall is_byte payload →
  has_flag (flags h) TCP_FLAG_RST = false → has_flag (flags h) TCP_FLAG_ACK = true →
  e ∈ retransmit_queue c → ack h = re_seq e →
  ∃ n' c', handle_segment n c h src payload = Ret (n', c') ∧ e ∉ retransmit_queue c'.
Proof.
  intros Hn Hc Hst Hh Hs Hp Hrst Hack He Heq. pose proof (open_no_error _ _ Hc ltac:(congruence)) as Herr.
  assert (is_seq_before (ack h) (re_seq e) = false) as Hno by (unfold is_seq_before; by rewrite Heq, Z.sub_diag).
  unfold handle_segment. rewrite Hst. unfold handle_established. rewrite Hrst, Hack.
  set (c1 := set_send_window _ _). assert (conn_ok k c1) as Hc1 by (apply set_send_window_ok; [by apply set_last_recv_ok|apply Hh]).
  destruct (process_ack_ok k c1 (ack h) Hc1 Herr) as (c2 & -> & Hc2 & He2 & Hq). cbn [mbind outcome_bind].
  assert (e ∉ retransmit_queue c2) as Hout.
  { rewrite Hq. simpl. intros [Hb _]%list_elem_of_filter. congruence. }
  destruct (has_flag _ TCP_FLAG_FIN); [|destruct (_ =? _)].
  - destruct (send_bare_ok k n (set_state CloseWait (set_ack (wrapping_add 32 (seq h) 1) c2)) src TCP_FLAG_ACK)
      as (n' & -> & _); [done|apply set_state_ok; [by apply next_ack_ok|done]|done..|]. by eexists _, _.
  - by eexists _, _.
  - destruct (send_bare_ok k n (append_payload c2 payload) src TCP_FLAG_ACK) as (n' & -> & _);
      [done|by apply append_payload_ok|done..|]. by eexists _, _.
Qed.

(** a segment that arrives twice is delivered twice: the handler never
    looks at the sequence number of a data segment, so the same frame received
    again appends its payload again. *)
Theorem replay_duplicates s dst src sip dip sp dp sq ak win payload c f :
  stack_ok (tcp s) → len dst = 6 → len src = 6 → is_uint 32 sip → is_uint 32 dip →
  segment_fields sp dp sq ak DATA_FLAGS win payload → payload ≠ [] →
  CONNECTIONS (tcp s) !! (dp, sip, sp) = Some c → state c = Established →
  tcp_frame dst src sip dip sp dp sq ak DATA_FLAGS win payload f →
  ∃ s' c', receive_frames s [f; f] = Ret (Some s') ∧ CONNECTIONS (tcp s') !! (dp, sip, sp) = Some c' ∧
    recv_buffer c' = recv_buffer c ++ payload ++ payload.
Proof.
  intros Hok Hd Hs Hsip Hdip Hf Hne Hk Hst Hfr.
  destruct (receive_data s dst src sip dip sp dp sq ak win payload c f) as (s1 & c1 & Hr1 & Hok1 & Hk1 & Hst1 & Hb1 & _); [done..|].
  destruct (receive_data s1 dst src sip dip sp dp sq ak win payload c1 f) as (s2 & c2 & Hr2 & _ & Hk2 & _ & Hb2 & _); [done..|].
  exists s2, c2. cbn [receive_frames]. rewrite Hr1. cbn [mbind outcome_bind]. rewrite Hr2. cbn [mbind outcome_bind].
  split_and!; [done..|]. by rewrite Hb2, Hb1, <- app_assoc.
Qed.

(** The timer does nothing for connections that are not established: in
    particular the SYN that [connect] queues is never sent again. *)
Lemma opening_never_retransmitted st :
  (∀ k c, CONNECTIONS st !! k = Some c → state c ≠ Established ∧ state c ≠ TimeWait) → periodic_tick st = Ret st.
Proof.
  intros Hall. assert (∀ x, x = Established ∨ x = TimeWait → keys_in x (CONNECTIONS st) = []) as Hnone.
  { intros x Hx. apply elem_of_nil_inv. intros k (c & Hl & Hc)%keys_in_elem. destruct (Hall _ _ Hl). naive_solver. }
  unfold periodic_tick. rewrite (Hnone TimeWait) by tauto. simpl. rewrite (Hnone Established) by tauto. by destruct st.
Qed.

End defects.

(** ** Instances on two linked hosts *)

Definition open_conn (lp y rp sq ak win : Z) (queue : list RetransmitEntry) : TcpConnection :=
  mkConn Established lp (0x0A000200 + y) rp sq ak 8192 win queue [] MAX_SEGMENT_SIZE 65535 100 100 None.

Lemma open_conn_ok lp y rp sq ak win :
  is_uint 16 lp → is_uint 8 y → is_uint 16 rp → is_uint 32 sq → is_uint 32 ak → is_uint 16 win →
  conn_ok (lp, 0x0A000200 + y, rp) (open_conn lp y rp sq ak win []).
Proof. intros ? [? ?] **. constructor; try done; constructor; cbn [remote_addr open_conn]; lia. Qed.

Definition client (win : Z) : NetStack MemNic :=
  peer 1 2 {[ (49152, 0x0A000202, 80) := open_conn 49152 2 80 7 9 win [] ]} ∅.
Definition server : NetStack MemNic :=
  peer 2 1 {[ (80, 0x0A000201, 49152) := open_conn 80 1 49152 9 7 8192 [] ]} ∅.

Lemma client_server_linked win : is_uint 16 win → linked (client win) server.
Proof. intros. apply peers_linked; apply map_Forall_singleton; [by apply (open_conn_ok 49152 2 80)|by apply (open_conn_ok 80 1 49152)]. Qed.

Lemma tcp_transfer_witness :
  ∃ t' cb', send_data (H0 := dev_profile) 4 (tcp (client 2)) 49152 0x0A000202 80 [5; 6; 7] = Ret (Some (Ok 3, t')) ∧
    recv_buffer cb' = [5; 6; 7].
Proof.
  destruct (tcp_transfer (H1 := dev_profile) (client 2) server 49152 80 (open_conn 49152 2 80 7 9 2 []) (open_conn 80 1 49152 9 7 8192 [])
    [5; 6; 7] mem_reliable (client_server_linked 2 ltac:(done))) as (t' & fs & b' & ca' & cb' & Hs & _ & _ & _ & _ & Hb & _).
  - split_and!; try done; apply lookup_singleton_eq.
  - done.
  - repeat (apply list.Forall_cons; split); done.
  - exists t', cb'. split; [exact Hs|exact Hb].
Defined.

Lemma zero_window_hangs_witness :
  send_data (H0 := dev_profile) 1000 (tcp (client 0)) 49152 0x0A000202 80 [5] = Ret None.
Proof.
  destruct (client_server_linked 0 ltac:(done)) as (Hok & _ & Hr & _).
  apply (zero_window_hangs (H1 := dev_profile) _ _ _ _ _ (open_conn 49152 2 80 7 9 0 []) _ _ mem_reliable Hok Hr (lookup_singleton_eq _ _)); try done.
  by apply list.Forall_singleton.
Defined.

Lemma duplicate_ack_forgets_witness :
  ∃ e n' c', retransmit_queue sample_conn = [e] ∧
    handle_segment (H0 := dev_profile) (host 1) sample_conn (mkTcpHeader 80 49152 9 7 TCP_FLAG_ACK 8192 0 0 5) 0x0A000202 []
      = Ret (n', c') ∧ e ∉ retransmit_queue c'.
Proof.
  destruct (duplicate_ack_forgets (H1 := dev_profile) (49152, 0x0A000202, 80) (host 1) sample_conn
    (mkTcpHeader 80 49152 9 7 TCP_FLAG_ACK 8192 0 0 5) 0x0A000202 [] _ host_ok sample_conn_ok eq_refl
    ltac:(by constructor) ltac:(done) ltac:(constructor) eq_refl eq_refl (list_elem_of_here _ _) eq_refl) as (n' & c' & Hh & Hq).
  eexists _, n', c'. split; [reflexivity|]. split; [exact Hh|exact Hq].
Defined.

Lemma replay_duplicates_witness :
  ∃ f s' c', receive_frames (H0 := dev_profile) server [f; f] = Ret (Some s') ∧
    CONNECTIONS (tcp s') !! (80, 0x0A000201, 49152) = Some c' ∧ recv_buffer c' = [5; 6; 5; 6].
Proof.
  destruct (client_server_linked 2 ltac:(done)) as (_ & Hok & _ & _).
  destruct (replay_duplicates (H1 := dev_profile) server (mac_address (host 2)) (mac_address (host 1)) 0x0A000201 0x0A000202
    49152 80 7 9 8192 [5; 6] (open_conn 80 1 49152 9 7 8192 []) _ Hok (mac_length _) (mac_length _) ltac:(done) ltac:(done)
    ltac:(unfold segment_fields; split_and!; try done; repeat (apply list.Forall_cons; split); done) ltac:(done)
    (lookup_singleton_eq _ _) eq_refl (ex_intro _ 0 (ex_intro _ 0 (ex_intro _ 0 (ex_intro _ 0 eq_refl))))) as (s' & c' & Hr & Hk & Hb).
  eexists _, s', c'. split; [exact Hr|]. split; [exact Hk|exact Hb].
Defined.
