(* ===== verification/RustStr.v ===== *)
(** * Strings of the Rust standard library

    A [String] or [&str] is the list of its bytes. [from_utf8] is the check of
    [core::str::from_utf8], written out from the table of well-formed byte
    sequences; the other functions are the methods the file system code uses on
    paths, which only look for the ASCII byte of a slash. *)

From Stdlib Require Import String Ascii.
From S2P Require Import Prelude.

(** The bytes of a string literal. *)
Definition str (s : string) : list Z := map (λ a, Z.of_N (N_of_ascii a)) (list_ascii_of_string s).

Definition SLASH : Z := 47.

Definition in_range (lo hi b : Z) : bool := (lo <=? b) && (b <=? hi).
Definition continuation (b : Z) : bool := in_range 0x80 0xBF b.

(** The allowed second byte after the lead byte of a three-byte sequence. *)
Definition second_of_three (lead b : Z) : bool :=
  if lead =? 0xE0 then in_range 0xA0 0xBF b
  else if lead =? 0xED then in_range 0x80 0x9F b
  else continuation b.

(** The same for a four-byte sequence. *)
Definition second_of_four (lead b : Z) : bool :=
  if lead =? 0xF0 then in_range 0x90 0xBF b
  else if lead =? 0xF4 then in_range 0x80 0x8F b
  else continuation b.

Fixpoint utf8_valid (l : list Z) : bool :=
  match l with
  | [] => true
  | b :: l =>
      if b <? 0x80 then utf8_valid l
      else if in_range 0xC2 0xDF b then
        match l with b1 :: l => continuation b1 && utf8_valid l | _ => false end
      else if in_range 0xE0 0xEF b then
        match l with b1 :: b2 :: l => second_of_three b b1 && continuation b2 && utf8_valid l | _ => false end
      else if in_range 0xF0 0xF4 b then
        match l with
        | b1 :: b2 :: b3 :: l => second_of_four b b1 && continuation b2 && continuation b3 && utf8_valid l
        | _ => false
        end
      else false
  end.

(** [core::str::from_utf8]. *)
Definition from_utf8 (l : list Z) : option (list Z) := if utf8_valid l then Some l else None.

Definition bytes_eqb (a b : list Z) : bool := bool_decide (a = b).

Fixpoint starts_with (l p : list Z) {struct p} : bool :=
  match p, l with
  | [], _ => true
  | x :: p, y :: l => (x =? y) && starts_with l p
  | _ :: _, [] => false
  end.

Definition ends_with_byte (l : list Z) (b : Z) : bool :=
  match list.last l with Some x => x =? b | None => false end.

Fixpoint trim_start_matches (b : Z) (l : list Z) : list Z :=
  match l with
  | x :: l' => if x =? b then trim_start_matches b l' else l
  | [] => []
  end.

Definition trim_end_matches (b : Z) (l : list Z) : list Z := reverse (trim_start_matches b (reverse l)).

(** [str::strip_prefix] with a single byte. *)
Definition strip_prefix (b : Z) (l : list Z) : option (list Z) :=
  match l with x :: l' => if x =? b then Some l' else None | [] => None end.

(** The position of the first byte that satisfies the test ([Iterator::position]). *)
Fixpoint position {A} (f : A → bool) (l : list A) : option nat :=
  match l with
  | [] => None
  | x :: l => if f x then Some 0%nat else S <$> position f l
  end.

(** [str::rfind] of a single byte. *)
Fixpoint rfind (b : Z) (l : list Z) : option nat :=
  match l with
  | [] => None
  | x :: l => match rfind b l with Some i => Some (S i) | None => if x =? b then Some 0%nat else None end
  end.

(** ** Properties *)

Lemma bytes_eqb_true a b : bytes_eqb a b = true ↔ a = b.
Proof. apply bool_decide_eq_true. Qed.

Lemma bytes_eqb_refl a : bytes_eqb a a = true.
Proof. by apply bytes_eqb_true. Qed.

Lemma starts_with_app l p : starts_with l p = true ↔ ∃ r, l = p ++ r.
Proof.
  revert l. induction p as [|x p IH]; intros l; [split; [by exists l|done]|].
  destruct l as [|y l]; simpl; [split; [done|by intros [? ?]]|].
  rewrite andb_true_iff, Z.eqb_eq, IH. split; [intros [-> [r ->]]; by exists r|intros [r [= -> ->]]; eauto].
Qed.

Lemma rfind_Some b l i : rfind b l = Some i → l !! i = Some b ∧ b ∉ drop (S i) l.
Proof.
  revert i. induction l as [|x l IH]; intros i; simpl; [done|].
  destruct (rfind b l) as [j|] eqn:Hj.
  - intros [= <-]. by apply IH.
  - destruct (Z.eqb_spec x b) as [->|]; [|done]. intros [= <-]. split; [done|]. simpl. rewrite drop_0.
    clear IH. induction l as [|y l IHl]; [apply not_elem_of_nil|]. simpl in Hj.
    destruct (rfind b l); [done|]. destruct (Z.eqb_spec y b); [done|]. apply not_elem_of_cons. auto.
Qed.

Lemma rfind_app b p n : b ∉ n → rfind b (p ++ b :: n) = Some (length p).
Proof.
  intros Hn. assert (rfind b n = None) as Hnone.
  { induction n as [|x n IH]; [done|]. apply not_elem_of_cons in Hn as [Hx Hn]. simpl. rewrite IH by done.
    by destruct (Z.eqb_spec x b). }
  induction p as [|x p IH]; simpl; [|by rewrite IH]. by rewrite Hnone, Z.eqb_refl.
Qed.

Lemma trim_start_id b l : l !! 0%nat ≠ Some b → trim_start_matches b l = l.
Proof. destruct l as [|x l]; [done|]. simpl. intros Hx. destruct (Z.eqb_spec x b); [congruence|done]. Qed.

Lemma trim_end_id b l : list.last l ≠ Some b → trim_end_matches b l = l.
Proof.
  intros Hl. unfold trim_end_matches. rewrite trim_start_id, reverse_involutive; [done|].
  by rewrite <- head_lookup, head_reverse.
Qed.

Lemma position_Some {A} (f : A → bool) l i :
  position f l = Some i ↔ (∃ x, l !! i = Some x ∧ f x = true) ∧ ∀ j x, (j < i)%nat → l !! j = Some x → f x = false.
Proof.
  revert i. induction l as [|y l IH]; intros i; simpl; [split; [done|by intros [(? & ? & ?) _]]|].
  destruct (f y) eqn:Hy.
  - split; [intros [= <-]; split; [by exists y|lia]|]. intros [(x & Hx & Hfx) Hall]. destruct i as [|i]; [done|].
    by rewrite (Hall 0%nat y) in Hy by (done || lia).
  - destruct i as [|i].
    + split; [by destruct (position f l)|]. intros [(x & [= <-] & Hfx) _]. congruence.
    + transitivity (position f l = Some i); [destruct (position f l); simpl; naive_solver|]. rewrite IH. simpl. split.
      * intros [? Hall]. split; [done|]. intros [|j] x Hj; [by intros [= <-]|]. intros. eapply Hall; [|done]. lia.
      * intros [? Hall]. split; [done|]. intros j x Hj Hx. apply (Hall (S j)); [lia|done].
Qed.

Lemma position_None {A} (f : A → bool) l : position f l = None ↔ ∀ i x, l !! i = Some x → f x = false.
Proof.
  induction l as [|y l IH]; simpl; [split; [done|done]|]. destruct (f y) eqn:Hy.
  - split; [done|]. intros Hall. specialize (Hall 0%nat y eq_refl). congruence.
  - transitivity (position f l = None); [by destruct (position f l)|]. rewrite IH. split.
    + intros Hall [|i] x; [by intros [= <-]|]. apply Hall.
    + intros Hall i x. apply (Hall (S i)).
Qed.

Lemma position_zero n k : 0 ∉ n → position (λ b, b =? 0) (n ++ replicate (S k) 0) = Some (length n).
Proof.
  induction n as [|x n IH]; [done|]. intros [Hx Hn]%not_elem_of_cons. cbn [position app].
  destruct (Z.eqb_spec x 0); [congruence|]. by rewrite IH.
Qed.
