(* ===== verification/Vfs.v ===== *)
(** * The virtual file system (kernel/src/fs/vfs.rs)

    The errors, metadata and flags every file system shares, the [FileSystem]
    trait as a class, and the mount table that maps a path to the file system
    behind it. A trait object is an identity of type [I]; the state all objects
    act on is of type [S], so two references to one object share its state. *)

From stdpp Require Import strings.
From S2P Require Import Prelude RustStr.
Local Open Scope Z_scope.

Inductive FsError : Type :=
| NotFound
| AlreadyExists
| PermissionDenied
| NoSpace
| InvalidName
| FileTooLarge
| BadFileDescriptor
| NotSupported
| IoError
| NotADirectory
| TooManyLinks
| InvalidArgument.

#[export] Instance FsError_eq_dec : EqDecision FsError.
Proof. solve_decision. Defined.

(** ** Permission bits *)

Definition S_IRUSR : Z := 0x100.
Definition S_IWUSR : Z := 0x80.
Definition S_IXUSR : Z := 0x40.
Definition S_IRWXU : Z := 0x1C0.
Definition S_IRGRP : Z := 0x20.
Definition S_IWGRP : Z := 0x10.
Definition S_IXGRP : Z := 0x8.
Definition S_IRWXG : Z := 0x38.
Definition S_IROTH : Z := 0x4.
Definition S_IWOTH : Z := 0x2.
Definition S_IXOTH : Z := 0x1.
Definition S_IRWXO : Z := 0x7.
Definition DEFAULT_FILE_MODE : Z := Z.lor (Z.lor (Z.lor S_IRUSR S_IWUSR) S_IRGRP) S_IROTH.
Definition DEFAULT_DIR_MODE : Z := Z.lor (Z.lor (Z.lor (Z.lor S_IRWXU S_IRGRP) S_IXGRP) S_IROTH) S_IXOTH.

(** ** Metadata and flags *)

Record InodeMeta : Type := mkInodeMeta {
  im_ino : Z;
  im_is_dir : bool;
  im_is_symlink : bool;
  im_is_fifo : bool;
  im_size : Z;
  im_nlink : Z;
  im_mode : Z;
}.

Record DirEntry : Type := mkDirEntry {
  de_name : list Z;
  de_ino : Z;
  de_is_dir : bool;
}.

Definition OpenFlags : Type := Z.
Definition OpenFlags_READ : OpenFlags := Z.shiftl 1 0.
Definition OpenFlags_WRITE : OpenFlags := Z.shiftl 1 1.
Definition OpenFlags_CREATE : OpenFlags := Z.shiftl 1 2.
Definition OpenFlags_TRUNCATE : OpenFlags := Z.shiftl 1 3.
Definition OpenFlags_READ_WRITE : OpenFlags := Z.lor OpenFlags_READ OpenFlags_WRITE.
Definition OpenFlags_from_raw (raw : Z) : OpenFlags := raw.
Definition OpenFlags_contains (self flag : OpenFlags) : bool := Z.land self flag =? flag.
Definition OpenFlags_bitor (self rhs : OpenFlags) : OpenFlags := Z.lor self rhs.

(** ** The trait

    Every method takes the object, its arguments and the shared state. A buffer
    to fill is given by its length; the result is what was copied into it. *)

Notation fs_result A S := (outcome (result A FsError * S)) (only parsing).

Class FileSystem (I S : Type) : Type := {
  fs_open : I → list Z → OpenFlags → S → fs_result Z S;
  fs_close : I → Z → S → fs_result unit S;
  fs_read : I → Z → Z → Z → S → fs_result (list Z) S;
  fs_write : I → Z → Z → list Z → S → fs_result Z S;
  fs_stat : I → Z → S → fs_result InodeMeta S;
  fs_readdir : I → Z → S → fs_result (list DirEntry) S;
  fs_create : I → Z → list Z → S → fs_result Z S;
  fs_unlink : I → Z → list Z → S → fs_result unit S;
  fs_symlink : I → Z → list Z → list Z → S → fs_result Z S;
  fs_readlink : I → Z → Z → S → fs_result (list Z) S;
  fs_mkdir : I → Z → list Z → S → fs_result Z S;
  fs_rmdir : I → Z → list Z → S → fs_result unit S;
  fs_mkfifo : I → Z → list Z → S → fs_result Z S;
  fs_chmod : I → Z → Z → S → fs_result unit S;
  fs_get_fifo_buffer : I → Z → S → fs_result positive S;
}.

(** The default methods of the trait. *)
Definition default_mkfifo {I S} (_ : I) (_ : Z) (_ : list Z) (s : S) : fs_result Z S := Ret (Err NotSupported, s).
Definition default_get_fifo_buffer {I S} (_ : I) (_ : Z) (s : S) : fs_result positive S := Ret (Err NotSupported, s).

(** ** The mount table *)

Record MountPoint (I : Type) : Type := mkMountPoint {
  mp_path : list Z;
  mp_device_idx : Z;
  mp_fs : I;
}.
Arguments mkMountPoint {I} _ _ _.
Arguments mp_path {I} _.
Arguments mp_device_idx {I} _.
Arguments mp_fs {I} _.

Section mounts.
Context {I : Type}.
Implicit Types t : list (MountPoint I).

Definition mount t (path : list Z) (device_idx : Z) (fs : I) : result unit unit * list (MountPoint I) :=
  if bool_decide (path = []) || negb (starts_with path [SLASH]) then (Err tt, t)
  else if existsb (λ mp, bytes_eqb (mp_path mp) path) t then (Err tt, t)
  else (Ok tt, t ++ [mkMountPoint path device_idx fs]).

Definition unmount t (path : list Z) : result unit unit * list (MountPoint I) :=
  let t' := filter (λ mp, mp_path mp ≠ path) t in
  if len t' =? len t then (Err tt, t') else (Ok tt, t').

(** The loop of [resolve_fs]: the best match so far and its length. *)
Fixpoint best_loop t (path : list Z) (best : option (MountPoint I)) (best_len : Z) : option (MountPoint I) * Z :=
  match t with
  | [] => (best, best_len)
  | mp :: t =>
      if starts_with path (mp_path mp) && (best_len <? len (mp_path mp))
      then best_loop t path (Some mp) (len (mp_path mp))
      else best_loop t path best best_len
  end.

Definition resolve_fs t (path : list Z) : outcome (I * list Z) :=
  match best_loop t path None 0 with
  | (None, _) => Panic
  | (Some mp, best_len) =>
      let relative :=
        if best_len <? len path then
          let rest := drop (Z.to_nat best_len) path in default rest (strip_prefix SLASH rest)
        else [] in
      Ret (mp_fs mp, relative)
  end.

(** ** Properties *)

(** The mount table: every path starts with a slash and is mounted once. *)
Definition mounts_ok t : Prop := NoDup (mp_path <$> t) ∧ Forall (λ mp, starts_with (mp_path mp) [SLASH] = true) t.

Lemma mount_ok t path d fs : mounts_ok t → mounts_ok (mount t path d fs).2.
Proof.
  intros [Hn Hf]. unfold mount. destruct (_ || _) eqn:Hp; [done|]. apply orb_false_iff in Hp as [_ Hp].
  destruct (existsb _ _) eqn:Hex; [done|]. split; simpl.
  - rewrite fmap_app. apply list.NoDup_app. split_and!; [done| |apply NoDup_singleton].
    intros p Hp1 Hp2. apply list_elem_of_singleton in Hp2. simpl in Hp2. subst p. apply list_elem_of_fmap in Hp1 as (mp & Hpath & Hin).
    apply not_true_iff_false in Hex. apply Hex, existsb_exists. exists mp. split; [by apply list_elem_of_In|].
    by apply bytes_eqb_true.
  - apply Forall_app_2; [done|]. apply list.Forall_singleton. by apply negb_false_iff in Hp.
Qed.

Lemma unmount_ok t path : mounts_ok t → mounts_ok (unmount t path).2.
Proof.
  intros [Hn Hf]. unfold unmount. set (t' := filter _ _).
  assert (t' `sublist_of` t) as Hs.
  { unfold t'. clear. induction t as [|x t IH]; [done|]. rewrite filter_cons. destruct (decide _); by constructor. }
  assert (mounts_ok t'); [|by destruct (_ =? _)].
  split; [eapply sublist_NoDup; [exact Hn|by apply fmap_sublist]|by apply Forall_filtered].
Qed.

(** The loop keeps the longest of the matching prefixes it has seen. *)
Lemma best_loop_spec path t best n :
  (∀ mp, best = Some mp → len (mp_path mp) = n ∧ starts_with path (mp_path mp) = true) → (best = None → n = 0) →
  ∃ b m, best_loop t path best n = (b, m) ∧
    (b = None → m = 0 ∧ best = None) ∧
    (∀ mp, b = Some mp → len (mp_path mp) = m ∧ starts_with path (mp_path mp) = true ∧ (mp ∈ t ∨ best = Some mp)) ∧
    n ≤ m ∧ ∀ mp, mp ∈ t → starts_with path (mp_path mp) = true → len (mp_path mp) ≤ m.
Proof.
  revert best n. induction t as [|x t IH]; intros best n Hb Hn.
  { exists best, n. split; [done|]. split_and!; [auto|naive_solver|lia|]. intros mp Hmp. by apply not_elem_of_nil in Hmp. }
  cbn [best_loop]. destruct (starts_with path (mp_path x)) eqn:Hx; [destruct (Z.ltb_spec n (len (mp_path x))) as [Hl|Hl]|]; cbn [andb].
  - destruct (IH (Some x) (len (mp_path x))) as (b & m & Heq & Hb0 & Hb1 & Hm & Hall); [naive_solver|done|].
    exists b, m. split; [done|]. split_and!; [|intros mp Hmp; destruct (Hb1 mp Hmp) as (? & ? & [?|[= ->]]); set_solver|lia|].
    + intros ->. destruct (Hb0 eq_refl). done.
    + intros mp [->|Hin]%elem_of_cons Hp; [lia|auto].
  - destruct (IH best n Hb Hn) as (b & m & Heq & Hb0 & Hb1 & Hm & Hall). exists b, m. split; [done|].
    split_and!; [done|intros mp Hmp; destruct (Hb1 mp Hmp) as (? & ? & [?|?]); set_solver|lia|].
    intros mp [->|Hin]%elem_of_cons Hp; [lia|auto].
  - destruct (IH best n Hb Hn) as (b & m & Heq & Hb0 & Hb1 & Hm & Hall). exists b, m. split; [done|].
    split_and!; [done|intros mp Hmp; destruct (Hb1 mp Hmp) as (? & ? & [?|?]); set_solver|lia|].
    intros mp [->|Hin]%elem_of_cons Hp; [congruence|auto].
Qed.

Lemma same_length_prefix path (p q : list Z) :
  starts_with path p = true → starts_with path q = true → len p = len q → p = q.
Proof.
  intros [r Hr]%starts_with_app [r' Hr']%starts_with_app Hl. rewrite Hr in Hr'. apply app_inj_1 in Hr' as [? _]; [done|].
  unfold len in Hl. lia.
Qed.

(** [resolve_fs] on an absolute path with the root mounted finds the mount
    point with the longest prefix, the only one of that length, and the rest of
    the path without the mount prefix and the slash after it. *)
Theorem resolve_fs_longest t root path :
  mounts_ok t → root ∈ t → mp_path root = [SLASH] → starts_with path [SLASH] = true →
  ∃ mp rel, resolve_fs t path = Ret (mp_fs mp, rel) ∧ mp ∈ t ∧
    (path = mp_path mp ++ rel ∨ path = mp_path mp ++ SLASH :: rel) ∧
    ∀ mp', mp' ∈ t → starts_with path (mp_path mp') = true → mp_path mp' = mp_path mp ∨ len (mp_path mp') < len (mp_path mp).
Proof.
  intros Hok Hroot Hr Hp. destruct (best_loop_spec path t None 0) as (b & m & Heq & _ & Hb & _ & Hall); [done..|].
  assert (1 ≤ m) as Hm by (pose proof (Hall _ Hroot) as Hl; rewrite Hr in Hl; exact (Hl Hp)).
  destruct b as [mp|]; [|destruct (best_loop_spec path t None 0) as (? & ? & Heq' & Hn & _); [done..|]; rewrite Heq in Heq';
    injection Heq' as <- <-; destruct (Hn eq_refl); lia].
  destruct (Hb mp eq_refl) as (Hl & Hs & [Hin|?]); [|done]. pose proof Hs as [r Hpath]%starts_with_app.
  unfold resolve_fs. rewrite Heq. eexists mp, _. split; [done|]. split; [done|]. split.
  - destruct (Z.ltb_spec m (len path)) as [Hlt|Hge].
    + rewrite Hpath, drop_app_length' by (unfold len in Hl; lia). destruct r as [|x r]; [by left|]. simpl.
      destruct (Z.eqb_spec x SLASH) as [->|]; [by right|by left].
    + left. rewrite Hpath in *. unfold len in *. rewrite length_app in Hge. destruct r; [done|simpl in Hge; lia].
  - intros mp' Hin' Hs'. specialize (Hall _ Hin' Hs'). destruct (decide (len (mp_path mp') = m)); [left|right; lia].
    apply (same_length_prefix path); [done..|lia].
Qed.

(** A path that does not start with a slash matches no mount point. *)
Lemma resolve_relative_panics t path : mounts_ok t → starts_with path [SLASH] = false → resolve_fs t path = Panic.
Proof.
  intros [_ Hf] Hp. destruct (best_loop_spec path t None 0) as (b & m & Heq & _ & Hb & _); [done..|].
  unfold resolve_fs. rewrite Heq. destruct b as [mp|]; [|done]. destruct (Hb mp eq_refl) as (_ & [r ->]%starts_with_app & [Hin|]); [|done].
  rewrite list.Forall_forall in Hf. apply Hf, starts_with_app in Hin as [r' Hr']. rewrite Hr' in Hp.
  by rewrite <- app_assoc in Hp.
Qed.

(** the prefix is not compared at a component boundary. With a file system
    mounted at [p] and no other mount point inside the path, a sibling whose name
    merely begins with [p] is sent to that file system, with the rest of its
    name as the path. *)
Theorem mount_captures_sibling t mp x r :
  mounts_ok t → mp ∈ t → x ≠ SLASH →
  (∀ mp', mp' ∈ t → starts_with (mp_path mp ++ x :: r) (mp_path mp') = true → len (mp_path mp') ≤ len (mp_path mp)) →
  resolve_fs t (mp_path mp ++ x :: r) = Ret (mp_fs mp, x :: r).
Proof.
  intros [Hn Hf] Hin Hx Hall. set (path := mp_path mp ++ x :: r).
  assert (starts_with path (mp_path mp) = true) as Hs by (apply starts_with_app; by eexists).
  destruct (best_loop_spec path t None 0) as (b & m & Heq & Hb0 & Hb & _ & Hbest); [done..|].
  pose proof (Hbest _ Hin Hs). assert (0 < len (mp_path mp)) as Hpos.
  { rewrite list.Forall_forall in Hf. apply Hf, starts_with_app in Hin as [r' ->]. unfold len. simpl. lia. }
  destruct b as [mp'|]; [|destruct (Hb0 eq_refl); lia]. destruct (Hb mp' eq_refl) as (Hl & Hs' & [Hin'|]); [|done].
  assert (mp_path mp' = mp_path mp) as Hpath by (apply (same_length_prefix path); [done..|specialize (Hall _ Hin' Hs'); lia]).
  assert (mp' = mp) as ->.
  { apply list_elem_of_lookup in Hin as [i Hi], Hin' as [j Hj].
    assert (j = i) as ->; [|congruence]. eapply (NoDup_lookup _ j i (mp_path mp)); [exact Hn|..]; rewrite list_lookup_fmap, ?Hi, ?Hj; simpl; congruence. }
  unfold resolve_fs. rewrite Heq. rewrite (proj2 (Z.ltb_lt m (len path)))
    by (unfold path, len in *; rewrite length_app; simpl; lia).
  unfold path. rewrite drop_app_length' by (unfold len in Hl; lia). simpl. by destruct (Z.eqb_spec x SLASH).
Qed.

End mounts.

(** The mount table of a machine with a disk, as [main] builds it. *)
Definition boot_mounts : list (MountPoint nat) :=
  (mount (mount [] (str "/") 0 0%nat).2 (str "/disk") 0 1%nat).2.

Lemma boot_mounts_ok : mounts_ok boot_mounts.
Proof. apply mount_ok, mount_ok. split; constructor. Qed.

Lemma resolve_fs_longest_witness :
  ∃ mp rel, resolve_fs boot_mounts (str "/disk/a") = Ret (mp_fs mp, rel) ∧ mp ∈ boot_mounts.
Proof.
  destruct (resolve_fs_longest boot_mounts (mkMountPoint (str "/") 0 0%nat) (str "/disk/a") boot_mounts_ok)
    as (mp & rel & Hr & Hin & _); [left|done|done|]. exists mp, rel. split; [exact Hr|exact Hin].
Defined.

Lemma mount_captures_sibling_witness : resolve_fs boot_mounts (str "/diskette") = Ret (1%nat, str "ette").
Proof.
  apply (mount_captures_sibling boot_mounts (mkMountPoint (str "/disk") 0 1%nat) 101 [116; 116; 101] boot_mounts_ok).
  - right. left.
  - done.
  - intros mp' [->|[->|Hn]%elem_of_cons]%elem_of_cons _; [done|done|by apply not_elem_of_nil in Hn].
Defined.
