(* ===== verification/Ramfs.v ===== *)
(** * The in-memory file system (kernel/src/fs/ramfs.rs)

    A table of 32 entries, each a file, a symbolic link or a directory. A
    directory lists the names and slots of its children; the root is the entry
    named [.], created on first use. Inode 0 is the root, inode [slot + 1] any
    other entry. A slot index is a [nat], an inode number a [Z]; a name is the
    64-byte array of the code. *)

From stdpp Require Import strings.
From S2P Require Import Prelude RustStr Vfs.

Definition MAX_FILES : Z := 32.
Definition MAX_NAME_LEN : Z := 64.
Definition MAX_FILE_SIZE : Z := 2048.
Definition ROOT_INO : Z := 0.
Definition FILE_INO_OFFSET : Z := 1.

Definition EMPTY_NAME : list Z := replicate (Z.to_nat MAX_NAME_LEN) 0.

Record FileEntry : Type := mkFile {
  name : list Z;
  data : list Z;
  in_use : bool;
  symlink_target : option (list Z);
  is_dir : bool;
  is_fifo : bool;
  children : list (list Z * nat);
  mode : Z;
}.

Notation RamFs := (list FileEntry) (only parsing).

Definition empty_entry : FileEntry := mkFile EMPTY_NAME [] false None false false [] 0.

Definition RamFs_new : RamFs := replicate (Z.to_nat MAX_FILES) empty_entry.

(** Field updates. *)
Definition set_data (d : list Z) (e : FileEntry) : FileEntry :=
  mkFile (name e) d (in_use e) (symlink_target e) (is_dir e) (is_fifo e) (children e) (mode e).
Definition set_children (c : list (list Z * nat)) (e : FileEntry) : FileEntry :=
  mkFile (name e) (data e) (in_use e) (symlink_target e) (is_dir e) (is_fifo e) c (mode e).
Definition set_mode (m : Z) (e : FileEntry) : FileEntry :=
  mkFile (name e) (data e) (in_use e) (symlink_target e) (is_dir e) (is_fifo e) (children e) m.
Definition set_target (t : list Z) (e : FileEntry) : FileEntry :=
  mkFile (name e) (data e) (in_use e) (Some t) (is_dir e) (is_fifo e) (children e) (mode e).
Definition set_dir (e : FileEntry) : FileEntry :=
  mkFile (name e) (data e) (in_use e) (symlink_target e) true (is_fifo e) (children e) DEFAULT_DIR_MODE.

(** The bytes of a name array before the first zero. *)
Definition cstr (a : list Z) : list Z :=
  take (default (Z.to_nat MAX_NAME_LEN) (position (λ b, b =? 0) a)) a.

(** [debug_assert!] is compiled in when the overflow checks are. *)
Definition debug_assert `{BuildProfile} (b : bool) : outcome unit :=
  if overflow_checks then rust_assert b else Ret tt.

(** ** Slots and names *)

Section ramfs.
Context `{BuildProfile}.
Implicit Types (fs : RamFs) (n : list Z) (ino : Z).

Definition entry fs (i : nat) : outcome FileEntry :=
  match fs !! i with Some e => Ret e | None => Panic end.

Definition update fs (i : nat) (f : FileEntry → FileEntry) : outcome RamFs :=
  match fs !! i with Some e => Ret (<[i := f e]> fs) | None => Panic end.

(** An entry whose stored name is [n]. *)
Definition named n (e : FileEntry) : bool := in_use e && bool_decide (from_utf8 (cstr (name e)) = Some n).

Definition find_file fs n : option nat := position (named n) fs.
Definition find_free_slot fs : option nat := position (λ e, negb (in_use e)) fs.

Definition clear_slot fs (idx : nat) : outcome RamFs :=
  if MAX_FILES <=? Z.of_nat idx then Ret fs else update fs idx (λ _, empty_entry).

(** [entry.name = [0; 64]; entry.name[..n.len()].copy_from_slice(n)]. *)
Definition name_array n : outcome (list Z) := copy_into EMPTY_NAME 0 (len n) n.

Definition init_slot fs (slot : nat) n : outcome RamFs :=
  _ ← debug_assert (Z.of_nat slot <? MAX_FILES);
  e ← entry fs slot;
  _ ← debug_assert (negb (in_use e));
  a ← name_array n;
  update fs slot (λ _, mkFile a [] true None false false [] DEFAULT_FILE_MODE).

Definition child_named n (c : list Z * nat) : bool := bool_decide (from_utf8 (cstr c.1) = Some n).

Definition find_child fs (dir_idx : nat) n : outcome (option nat) :=
  d ← entry fs dir_idx;
  Ret (if is_dir d then snd <$> List.find (child_named n) (children d) else None).

(** The entry of the root directory. *)
Definition is_root (e : FileEntry) : bool :=
  in_use e && is_dir e && bool_decide (from_utf8 (cstr (name e)) = Some (str ".")).

Definition get_root_dir_idx fs : option nat := position is_root fs.

Definition ensure_root_dir fs : outcome (nat * RamFs) :=
  match get_root_dir_idx fs with
  | Some idx => Ret (idx, fs)
  | None =>
      match find_free_slot fs with
      | None => Panic
      | Some slot =>
          a ← name_array (str ".");
          fs ← update fs slot (λ _, mkFile a [] true None true false [] DEFAULT_DIR_MODE);
          Ret (slot, fs)
      end
  end.

Definition slot_of ino : nat := Z.to_nat (ino - FILE_INO_OFFSET).
Definition ino_of (slot : nat) : Z := Z.of_nat slot + FILE_INO_OFFSET.

(** [idx >= MAX_FILES || !fs.files[idx].in_use]: the entry of an inode other
    than the root, if it is live. *)
Definition live_entry fs ino : outcome (option FileEntry) :=
  if MAX_FILES <=? ino - FILE_INO_OFFSET then Ret None
  else e ← entry fs (slot_of ino); Ret (if in_use e then Some e else None).

(** The same with [|| !fs.files[idx].is_dir]. *)
Definition live_dir fs ino : outcome (option FileEntry) :=
  e ← live_entry fs ino; Ret (match e with Some e => if is_dir e then Some e else None | None => None end).

(** Registers slot [slot] as a child of [parent_idx] under its stored name. *)
Definition add_child fs (parent_idx slot : nat) : outcome RamFs :=
  e ← entry fs slot;
  update fs parent_idx (λ p, set_children (children p ++ [(name e, slot)]) p).

(** [children.retain(|(_, ci)| *ci != child_idx)]. *)
Definition remove_child fs (parent_idx child_idx : nat) : outcome RamFs :=
  update fs parent_idx (λ p, set_children (filter (λ c, c.2 ≠ child_idx) (children p)) p).

(** ** The operations of the trait *)

Definition open fs (path : list Z) (flags : OpenFlags) : fs_result Z RamFs :=
  let n := trim_start_matches SLASH path in
  if bool_decide (n = []) then
    '(_, fs) ← ensure_root_dir fs; Ret (Ok ROOT_INO, fs)
  else
    match find_file fs n with
    | Some idx =>
        fs ← (if OpenFlags_contains flags OpenFlags_TRUNCATE then update fs idx (set_data []) else Ret fs);
        Ret (Ok (ino_of idx), fs)
    | None =>
        if OpenFlags_contains flags OpenFlags_CREATE then
          match find_free_slot fs with
          | None => Ret (Err NoSpace, fs)
          | Some slot =>
              fs ← init_slot fs slot n;
              fs ← (match get_root_dir_idx fs with Some root_idx => add_child fs root_idx slot | None => Ret fs end);
              Ret (Ok (ino_of slot), fs)
          end
        else Ret (Err NotFound, fs)
    end.

Definition close fs ino : fs_result unit RamFs := Ret (Ok tt, fs).

Definition read fs ino (offset buf_len : Z) : fs_result (list Z) RamFs :=
  if ino =? ROOT_INO then Ret (Err NotSupported, fs)
  else
    e ← live_entry fs ino;
    match e with
    | None => Ret (Err NotFound, fs)
    | Some e =>
        if len (data e) <=? offset then Ret (Ok [], fs)
        else
          let to_read := Z.min buf_len (len (data e) - offset) in
          bytes ← slice (data e) offset (offset + to_read);
          Ret (Ok bytes, fs)
    end.

(** [Vec::resize] with zeros. *)
Definition extend_to (e : Z) (d : list Z) : list Z :=
  if len d <? e then d ++ replicate (Z.to_nat (e - len d)) 0 else d.

Definition write fs ino (offset : Z) (bytes : list Z) : fs_result Z RamFs :=
  if ino =? ROOT_INO then Ret (Err NotSupported, fs)
  else
    e ← live_entry fs ino;
    match e with
    | None => Ret (Err NotFound, fs)
    | Some e =>
        end_ ← add64 offset (len bytes);
        if MAX_FILE_SIZE <? end_ then Ret (Err FileTooLarge, fs)
        else
          d ← copy_into (extend_to end_ (data e)) offset end_ bytes;
          fs ← update fs (slot_of ino) (set_data d);
          Ret (Ok (len bytes), fs)
    end.

Definition stat fs ino : fs_result InodeMeta RamFs :=
  if ino =? ROOT_INO then
    size ← (match get_root_dir_idx fs with
            | Some idx => e ← entry fs idx; Ret (len (children e))
            | None => Ret 0
            end);
    Ret (Ok (mkInodeMeta ROOT_INO true false false size 1 DEFAULT_DIR_MODE), fs)
  else
    e ← live_entry fs ino;
    match e with
    | None => Ret (Err NotFound, fs)
    | Some e =>
        let size := if is_dir e then len (children e) else len (data e) in
        Ret (Ok (mkInodeMeta ino (is_dir e) (bool_decide (is_Some (symlink_target e))) (is_fifo e) size 1 (mode e)), fs)
    end.

(** The listing of a children list: live children with a readable name. *)
Fixpoint list_children fs (cs : list (list Z * nat)) : outcome (list DirEntry) :=
  match cs with
  | [] => Ret []
  | (a, idx) :: cs =>
      match from_utf8 (cstr a) with
      | None => list_children fs cs
      | Some cn =>
          child ← entry fs idx;
          rest ← list_children fs cs;
          Ret (if in_use child then mkDirEntry cn (ino_of idx) (is_dir child) :: rest else rest)
      end
  end.

(** The listing of all live files, used while there is no root entry. *)
Fixpoint list_flat (i : nat) (l : list FileEntry) : list DirEntry :=
  match l with
  | [] => []
  | f :: l =>
      match from_utf8 (cstr (name f)) with
      | Some n => if in_use f && negb (is_dir f) then mkDirEntry n (ino_of i) false :: list_flat (S i) l else list_flat (S i) l
      | None => list_flat (S i) l
      end
  end.

(** The entries [.] and [..] both name the directory itself. *)
Definition dots (dir_ino : Z) : list DirEntry :=
  [mkDirEntry (str ".") dir_ino true; mkDirEntry (str "..") dir_ino true].

Definition readdir fs (dir_ino : Z) : fs_result (list DirEntry) RamFs :=
  if dir_ino =? ROOT_INO then
    match get_root_dir_idx fs with
    | Some root_idx =>
        r ← entry fs root_idx;
        l ← list_children fs (children r);
        Ret (Ok (dots ROOT_INO ++ l), fs)
    | None => Ret (Ok (dots ROOT_INO ++ list_flat 0 fs), fs)
    end
  else
    d ← live_dir fs dir_ino;
    match d with
    | None => Ret (Err NotFound, fs)
    | Some d => l ← list_children fs (children d); Ret (Ok (dots dir_ino ++ l), fs)
    end.

Definition valid_name n : bool := negb (bool_decide (n = [])) && (len n <? MAX_NAME_LEN).

(** The parent of a new entry: the root, created if need be, or a live
    directory; [e] is the error for anything else. *)
Definition parent_for_new fs (parent_ino : Z) (e : FsError) : outcome (result nat FsError * RamFs) :=
  if parent_ino =? ROOT_INO then '(idx, fs) ← ensure_root_dir fs; Ret (Ok idx, fs)
  else d ← live_dir fs parent_ino; Ret (match d with Some _ => Ok (slot_of parent_ino) | None => Err e end, fs).

(** Takes a free slot, initialises it, adjusts it with [f] and registers it. *)
Definition new_entry fs (parent_idx : nat) n (f : FileEntry → FileEntry) : fs_result Z RamFs :=
  match find_free_slot fs with
  | None => Ret (Err NoSpace, fs)
  | Some slot =>
      fs ← init_slot fs slot n;
      fs ← update fs slot f;
      fs ← add_child fs parent_idx slot;
      Ret (Ok (ino_of slot), fs)
  end.

Definition create fs (parent_ino : Z) n : fs_result Z RamFs :=
  if negb (valid_name n) then Ret (Err InvalidName, fs)
  else
    '(p, fs) ← parent_for_new fs parent_ino NotFound;
    match p with
    | Err e => Ret (Err e, fs)
    | Ok parent_idx =>
        c ← find_child fs parent_idx n;
        match c with Some _ => Ret (Err AlreadyExists, fs) | None => new_entry fs parent_idx n id end
    end.

(** The slot of a file removed in flat mode keeps its other fields. *)
Definition release_flat (e : FileEntry) : FileEntry :=
  mkFile EMPTY_NAME [] false None (is_dir e) (is_fifo e) (children e) (mode e).

(** The parent of an entry to remove. *)
Definition parent_to_remove fs (parent_ino : Z) (e : FsError) : outcome (result (option nat) FsError) :=
  if parent_ino =? ROOT_INO then Ret (Ok (get_root_dir_idx fs))
  else d ← live_dir fs parent_ino; Ret (match d with Some _ => Ok (Some (slot_of parent_ino)) | None => Err e end).

Definition unlink fs (parent_ino : Z) n : fs_result unit RamFs :=
  p ← parent_to_remove fs parent_ino NotFound;
  match p with
  | Err e => Ret (Err e, fs)
  | Ok None =>
      match find_file fs n with
      | None => Ret (Err NotFound, fs)
      | Some idx => fs ← update fs idx release_flat; Ret (Ok tt, fs)
      end
  | Ok (Some parent_idx) =>
      c ← find_child fs parent_idx n;
      match c with
      | None => Ret (Err NotFound, fs)
      | Some child_idx =>
          fs ← remove_child fs parent_idx child_idx;
          fs ← clear_slot fs child_idx;
          Ret (Ok tt, fs)
      end
  end.

Definition symlink fs (parent_ino : Z) n (target : list Z) : fs_result Z RamFs :=
  if negb (valid_name n) then Ret (Err InvalidName, fs)
  else if parent_ino =? ROOT_INO then
    match find_file fs n with
    | Some _ => Ret (Err AlreadyExists, fs)
    | None => '(parent_idx, fs) ← ensure_root_dir fs; new_entry fs parent_idx n (set_target target)
    end
  else
    d ← live_dir fs parent_ino;
    match d with
    | None => Ret (Err NotFound, fs)
    | Some _ =>
        c ← find_child fs (slot_of parent_ino) n;
        match c with
        | Some _ => Ret (Err AlreadyExists, fs)
        | None => new_entry fs (slot_of parent_ino) n (set_target target)
        end
    end.

Definition readlink fs ino (buf_len : Z) : fs_result (list Z) RamFs :=
  if ino =? ROOT_INO then Ret (Err NotSupported, fs)
  else
    e ← live_entry fs ino;
    match e with
    | None => Ret (Err NotFound, fs)
    | Some e =>
        match symlink_target e with
        | None => Ret (Err NotSupported, fs)
        | Some t => bytes ← slice t 0 (Z.min buf_len (len t)); Ret (Ok bytes, fs)
        end
    end.

Definition mkdir fs (parent_ino : Z) n : fs_result Z RamFs :=
  if negb (valid_name n) then Ret (Err InvalidName, fs)
  else
    '(p, fs) ← parent_for_new fs parent_ino NotADirectory;
    match p with
    | Err e => Ret (Err e, fs)
    | Ok parent_idx =>
        c ← find_child fs parent_idx n;
        match c with Some _ => Ret (Err AlreadyExists, fs) | None => new_entry fs parent_idx n set_dir end
    end.

Definition rmdir fs (parent_ino : Z) n : fs_result unit RamFs :=
  p ← parent_to_remove fs parent_ino NotADirectory;
  match p with
  | Err e => Ret (Err e, fs)
  | Ok None => Ret (Err NotFound, fs)
  | Ok (Some parent_idx) =>
      c ← find_child fs parent_idx n;
      match c with
      | None => Ret (Err NotFound, fs)
      | Some child_idx =>
          child ← entry fs child_idx;
          if negb (is_dir child) then Ret (Err NotADirectory, fs)
          else if negb (bool_decide (children child = [])) then Ret (Err IoError, fs)
          else
            fs ← remove_child fs parent_idx child_idx;
            fs ← clear_slot fs child_idx;
            Ret (Ok tt, fs)
      end
  end.

Definition chmod fs ino (m : Z) : fs_result unit RamFs :=
  if ino =? ROOT_INO then Ret (Err NotSupported, fs)
  else
    e ← live_entry fs ino;
    match e with
    | None => Ret (Err NotFound, fs)
    | Some _ => fs ← update fs (slot_of ino) (set_mode (Z.land m 0xFFF)); Ret (Ok tt, fs)
    end.

(** ** The functions kept for older callers *)

Definition create_file fs n (bytes : list Z) : fs_result unit RamFs :=
  if negb (valid_name n) then Ret (Err InvalidName, fs)
  else if MAX_FILE_SIZE <? len bytes then Ret (Err FileTooLarge, fs)
  else
    match find_file fs n with
    | Some _ => Ret (Err AlreadyExists, fs)
    | None =>
        match find_free_slot fs with
        | None => Ret (Err NoSpace, fs)
        | Some slot =>
            a ← name_array n;
            fs ← update fs slot (λ e, mkFile a bytes true (symlink_target e) (is_dir e) (is_fifo e) (children e) (mode e));
            Ret (Ok tt, fs)
        end
    end.

Definition read_file fs n : outcome (result (list Z) FsError) :=
  match find_file fs n with
  | None => Ret (Err NotFound)
  | Some idx => e ← entry fs idx; Ret (Ok (data e))
  end.

Definition write_file fs n (bytes : list Z) : fs_result unit RamFs :=
  if MAX_FILE_SIZE <? len bytes then Ret (Err FileTooLarge, fs)
  else
    match find_file fs n with
    | None => Ret (Err NotFound, fs)
    | Some idx => fs ← update fs idx (set_data bytes); Ret (Ok tt, fs)
    end.

Definition write_file_at fs n (offset : Z) (bytes : list Z) : fs_result Z RamFs :=
  if bool_decide (bytes = []) then Ret (Ok 0, fs)
  else if u64_max <? offset + len bytes then Ret (Err FileTooLarge, fs)
  else
    let end_ := offset + len bytes in
    if MAX_FILE_SIZE <? end_ then Ret (Err FileTooLarge, fs)
    else
      match find_file fs n with
      | None => Ret (Err NotFound, fs)
      | Some idx =>
          e ← entry fs idx;
          d ← copy_into (extend_to end_ (extend_to offset (data e))) offset end_ bytes;
          fs ← update fs idx (set_data d);
          Ret (Ok (len bytes), fs)
      end.

Definition file_size fs n : outcome (result Z FsError) :=
  match find_file fs n with
  | None => Ret (Err NotFound)
  | Some idx => e ← entry fs idx; Ret (Ok (len (data e)))
  end.

Definition delete_file fs n : fs_result unit RamFs :=
  match find_file fs n with
  | None => Ret (Err NotFound, fs)
  | Some idx =>
      fs ← update fs idx (λ e, mkFile EMPTY_NAME [] false (symlink_target e) (is_dir e) (is_fifo e) (children e) (mode e));
      Ret (Ok tt, fs)
  end.

End ramfs.

(** [RamFsVfs] is a unit struct: all its values denote the one file system. *)
Inductive RamFsVfs : Type := RamFsVfs_.

#[export] Instance RamFsVfs_FileSystem `{BuildProfile} : FileSystem RamFsVfs RamFs := {|
  fs_open _ path flags fs := open fs path flags;
  fs_close _ ino fs := close fs ino;
  fs_read _ ino offset n fs := read fs ino offset n;
  fs_write _ ino offset bytes fs := write fs ino offset bytes;
  fs_stat _ ino fs := stat fs ino;
  fs_readdir _ ino fs := readdir fs ino;
  fs_create _ ino n fs := create fs ino n;
  fs_unlink _ ino n fs := unlink fs ino n;
  fs_symlink _ ino n t fs := symlink fs ino n t;
  fs_readlink _ ino n fs := readlink fs ino n;
  fs_mkdir _ ino n fs := mkdir fs ino n;
  fs_rmdir _ ino n fs := rmdir fs ino n;
  fs_mkfifo := default_mkfifo;
  fs_chmod _ ino m fs := chmod fs ino m;
  fs_get_fifo_buffer := default_get_fifo_buffer;
|}.
