(* ===== verification/RamfsProofs.v ===== *)
(** * Properties of the in-memory file system (kernel/src/fs/ramfs.rs)

    The directory structure is a forest over every history of operations, the
    exact conditions under which an operation can panic, what reads return
    after writes, and how names and slots can go wrong. *)

From stdpp Require Import strings relations.
From S2P Require Import Prelude RustStr Vfs Ramfs.

(** ** Names *)

(** A name as [&str] gives it, without a zero byte. *)
Definition good_name (n : list Z) : Prop := utf8_valid n = true ∧ 0 ∉ n.

Definition pad_name (n : list Z) : list Z := n ++ replicate (Z.to_nat (MAX_NAME_LEN - len n)) 0.

Lemma name_array_ok n : len n ≤ MAX_NAME_LEN → name_array n = Ret (pad_name n).
Proof.
  intros Hn. unfold name_array. rewrite copy_into_ok; [|unfold len; lia|done|lia].
  simpl. unfold pad_name, EMPTY_NAME. rewrite drop_replicate. do 3 f_equal. unfold len, MAX_NAME_LEN in *. lia.
Qed.

Lemma name_array_long n : MAX_NAME_LEN < len n → name_array n = Panic.
Proof.
  intros Hn. unfold name_array, copy_into. assert (len EMPTY_NAME = MAX_NAME_LEN) as -> by done.
  rewrite (proj2 (Z.leb_gt (len n) MAX_NAME_LEN)) by done. by rewrite andb_false_r.
Qed.

Lemma length_pad_name n : len n ≤ MAX_NAME_LEN → len (pad_name n) = MAX_NAME_LEN.
Proof. intros. unfold pad_name, len, MAX_NAME_LEN in *. rewrite length_app, length_replicate. lia. Qed.

Lemma cstr_pad n : 0 ∉ n → len n ≤ MAX_NAME_LEN → cstr (pad_name n) = n.
Proof.
  intros H0 Hn. unfold cstr, pad_name. destruct (Z.to_nat (MAX_NAME_LEN - len n)) as [|k] eqn:Hk.
  - rewrite app_nil_r. assert (position (λ b, b =? 0) n = None) as ->.
    { apply position_None. intros i x Hx. apply Z.eqb_neq. intros ->. by apply H0, (list_elem_of_lookup_2 _ i). }
    simpl. apply take_ge. unfold len, MAX_NAME_LEN in *. lia.
  - rewrite position_zero by done. simpl. by rewrite take_app_length.
Qed.

Lemma from_utf8_good n m : utf8_valid n = true → from_utf8 m = Some n ↔ m = n.
Proof.
  intros Hn. unfold from_utf8. split; [by destruct (utf8_valid m) eqn:E; intros [= ->]|]. intros ->. by rewrite Hn.
Qed.

Lemma from_utf8_pad n : good_name n → len n ≤ MAX_NAME_LEN → from_utf8 (cstr (pad_name n)) = Some n.
Proof. intros [Hu H0] Hl. rewrite cstr_pad by done. by apply from_utf8_good. Qed.

(** ** Invariant *)

Record entry_ok (e : FileEntry) : Prop := mkEntryOk {
  eo_name : len (name e) = MAX_NAME_LEN;
  eo_data : len (data e) ≤ MAX_FILE_SIZE;
  eo_free : in_use e = false → is_dir e = false ∧ data e = [] ∧ name e = EMPTY_NAME;
  eo_leaf : is_dir e = false → children e = [];
  eo_fifo : is_fifo e = false;
  eo_names : NoDup (cstr <$> (children e).*1);
  eo_once : NoDup ((children e).*2);
}.

(** Slot [j] is a child of slot [i]. *)
Definition child_of (fs : RamFs) (i j : nat) : Prop := ∃ d, fs !! i = Some d ∧ j ∈ (children d).*2.

Definition orphan (fs : RamFs) (j : nat) : Prop := ∀ i, ¬ child_of fs i j.

(** The table is a forest: children are live and stored under their own name,
    no slot has two parents, names are unique in a directory, and as soon as
    there is a directory there is a root without a parent. *)
Record fs_ok (fs : RamFs) : Prop := mkFsOk {
  fo_length : len fs = MAX_FILES;
  fo_entry : ∀ i e, fs !! i = Some e → entry_ok e;
  fo_child : ∀ i d a j, fs !! i = Some d → (a, j) ∈ children d → ∃ e, fs !! j = Some e ∧ in_use e = true ∧ name e = a;
  fo_parent : ∀ i i' j, child_of fs i j → child_of fs i' j → i = i';
  fo_root : (∃ i e, fs !! i = Some e ∧ in_use e = true ∧ is_dir e = true) →
    ∃ r e, fs !! r = Some e ∧ is_root e = true ∧ orphan fs r;
}.

Lemma elem_children (l : list (list Z * nat)) a j : (a, j) ∈ l → a ∈ l.*1 ∧ j ∈ l.*2.
Proof. intros Hin. split; apply list_elem_of_fmap; by exists (a, j). Qed.

Lemma elem_children_inv (l : list (list Z * nat)) j : j ∈ l.*2 → ∃ a, (a, j) ∈ l.
Proof. intros ([a j'] & -> & Hin)%list_elem_of_fmap. by exists a. Qed.

Lemma fs_ok_new : fs_ok RamFs_new.
Proof.
  assert (∀ i e, RamFs_new !! i = Some e → e = empty_entry) as Hall.
  { intros i e He. unfold RamFs_new in He. by apply lookup_replicate in He as [-> _]. }
  assert (∀ i j, ¬ child_of RamFs_new i j) as Hno.
  { intros i j (d & ->%Hall & Hj). by apply not_elem_of_nil in Hj. }
  split; [done| | | |].
  - intros i e ->%Hall. split; try done; constructor.
  - intros i d a j ->%Hall Hin. by apply not_elem_of_nil in Hin.
  - intros i i' j Hc. by apply Hno in Hc.
  - intros (i & e & ->%Hall & ? & ?). done.
Qed.

Lemma free_slot fs slot :
  find_free_slot fs = Some slot → ∃ e, fs !! slot = Some e ∧ in_use e = false.
Proof. intros [(e & He & Hf) _]%position_Some. exists e. by apply negb_true_iff in Hf. Qed.

Lemma live_lookup fs i e : fs_ok fs → fs !! i = Some e → Z.of_nat i < MAX_FILES.
Proof. intros Hok He%lookup_lt_Some. pose proof (fo_length _ Hok). unfold len in *. lia. Qed.

Lemma lookup_below fs i : fs_ok fs → Z.of_nat i < MAX_FILES → ∃ e, fs !! i = Some e.
Proof. intros Hok Hi. apply lookup_lt_is_Some. pose proof (fo_length _ Hok). unfold len in *. lia. Qed.

(** A free slot is nobody's child. *)
Lemma free_orphan fs j e : fs_ok fs → fs !! j = Some e → in_use e = false → orphan fs j.
Proof.
  intros Hok Hj Hf i (d & Hd & (a & Hin)%elem_children_inv). destruct (fo_child _ Hok _ _ _ _ Hd Hin) as (e' & He' & Hu & _). congruence.
Qed.

(** The children after the four kinds of update. *)
Lemma child_of_update fs i e e' k j :
  fs !! i = Some e → children e' = children e → child_of (<[i := e']> fs) k j → child_of fs k j.
Proof.
  intros Hi Hc (d & [(-> & <- & _)|[_ Hk]]%list_lookup_insert_Some & Hj); [|by exists d]. rewrite Hc in Hj. by exists e.
Qed.

Lemma child_of_alloc fs i e k j : children e = [] → child_of (<[i := e]> fs) k j → child_of fs k j.
Proof.
  intros Hc (d & [(-> & <- & _)|[_ Hk]]%list_lookup_insert_Some & Hj); [|by exists d]. rewrite Hc in Hj. by apply not_elem_of_nil in Hj.
Qed.

Lemma child_of_add fs p d a x k j :
  fs !! p = Some d → child_of (<[p := set_children (children d ++ [(a, x)]) d]> fs) k j → child_of fs k j ∨ (k = p ∧ j = x).
Proof.
  intros Hp (z & [(-> & <- & _)|[_ Hk]]%list_lookup_insert_Some & Hj); [|left; by exists z].
  simpl in Hj. rewrite fmap_app in Hj. apply elem_of_app in Hj as [Hj|Hj%list_elem_of_singleton]; [left; by exists d|by right].
Qed.

(** The table after a removal. *)
Definition removed (fs : RamFs) (p : nat) (d : FileEntry) (c : nat) : RamFs :=
  <[c := empty_entry]> (<[p := set_children (filter (λ x, x.2 ≠ c) (children d)) d]> fs).

Lemma removed_lookup fs p d c k y :
  removed fs p d c !! k = Some y →
  (k = c ∧ y = empty_entry) ∨
  (k ≠ c ∧ k = p ∧ y = set_children (filter (λ x, x.2 ≠ c) (children d)) d) ∨ (k ≠ c ∧ k ≠ p ∧ fs !! k = Some y).
Proof.
  intros [(-> & <- & _)|[Hkc Hk]]%list_lookup_insert_Some; [by left|].
  apply list_lookup_insert_Some in Hk as [(-> & <- & _)|[Hkp Hk]]; [right; left; split_and!; congruence|right; right; split_and!; congruence].
Qed.

(** What is left of an entry other than the removed one. *)
Lemma removed_keeps fs p d c k y :
  fs !! p = Some d → fs !! k = Some y → k ≠ c →
  ∃ z, removed fs p d c !! k = Some z ∧ in_use z = in_use y ∧ is_dir z = is_dir y ∧ name z = name y.
Proof.
  intros Hp Hk Hkc. unfold removed. rewrite list_lookup_insert_ne by done. destruct (decide (k = p)) as [->|Hkp].
  - eexists. rewrite list_lookup_insert_eq by (by eapply lookup_lt_Some). rewrite Hp in Hk. by injection Hk as <-.
  - exists y. by rewrite list_lookup_insert_ne by done.
Qed.

Lemma removed_children fs p d c k y b j :
  fs_ok fs → fs !! p = Some d → child_of fs p c →
  removed fs p d c !! k = Some y → (b, j) ∈ children y → ∃ z, fs !! k = Some z ∧ (b, j) ∈ children z ∧ j ≠ c.
Proof.
  intros Hok Hp Hpc [[-> ->]|[(Hkc & -> & ->)|(Hkc & Hkp & Hk)]]%removed_lookup Hin; [by apply not_elem_of_nil in Hin|..].
  - apply list_elem_of_filter in Hin as [? ?]. by exists d.
  - exists y. split_and!; [done..|]. intros ->. apply Hkp, (fo_parent _ Hok _ _ c); [|done]. exists y. split; [done|].
    by apply elem_children in Hin as [_ ?].
Qed.

Lemma child_of_removed fs p d c k j :
  fs_ok fs → fs !! p = Some d → child_of fs p c → child_of (removed fs p d c) k j → child_of fs k j ∧ j ≠ c.
Proof.
  intros Hok Hp Hpc (y & Hy & (b & Hb)%elem_children_inv).
  destruct (removed_children _ _ _ _ _ _ _ _ Hok Hp Hpc Hy Hb) as (z & ? & ? & ?). split; [|done].
  exists z. split; [done|]. by eapply elem_children.
Qed.

(** An update that keeps what the invariant relates across entries. *)
Lemma fs_ok_update fs i e e' :
  fs_ok fs → fs !! i = Some e → entry_ok e' →
  in_use e' = in_use e → is_dir e' = is_dir e → name e' = name e → children e' = children e →
  fs_ok (<[i := e']> fs).
Proof.
  intros Hok Hi He' Hu Hd Hn Hc. pose proof (lookup_lt_Some _ _ _ Hi) as Hlt.
  assert (∀ k d', <[i := e']> fs !! k = Some d' → ∃ d, fs !! k = Some d ∧ in_use d' = in_use d ∧ is_dir d' = is_dir d ∧
    name d' = name d ∧ children d' = children d ∧ entry_ok d') as Hback.
  { intros k d' [(-> & -> & _)|[Hne Hk]]%list_lookup_insert_Some; [by exists e|]. exists d'. split_and!; try done. by apply (fo_entry _ Hok k). }
  assert (∀ k d, fs !! k = Some d → ∃ d', <[i := e']> fs !! k = Some d' ∧ in_use d' = in_use d ∧ is_dir d' = is_dir d ∧ name d' = name d) as Hfwd.
  { intros k d Hk. destruct (decide (k = i)) as [->|Hne]; [exists e'|exists d].
    - rewrite list_lookup_insert_eq by done. rewrite Hi in Hk. injection Hk as <-. done.
    - by rewrite list_lookup_insert_ne by done. }
  assert (∀ k j, child_of (<[i := e']> fs) k j → child_of fs k j) as Hch.
  { intros k j. by eapply child_of_update. }
  split.
  - unfold len. rewrite length_insert. apply Hok.
  - intros k d' (d & _ & _ & _ & _ & _ & Hd')%Hback. done.
  - intros k d' a j (d & Hk & _ & _ & _ & Heq & _)%Hback Hin. rewrite Heq in Hin.
    destruct (fo_child _ Hok _ _ _ _ Hk Hin) as (x & Hx & Hux & Hnx). destruct (Hfwd _ _ Hx) as (x' & ? & ? & ? & ?).
    exists x'. split_and!; congruence.
  - intros k k' j ?%Hch ?%Hch. by eapply (fo_parent _ Hok).
  - intros (k & d' & (d & Hk & Hud & Hdd & _)%Hback & Hu' & Hd'). destruct (fo_root _ Hok) as (r & x & Hr & Hroot & Horph); [exists k, d; split_and!; congruence|].
    destruct (Hfwd _ _ Hr) as (x' & Hx' & Hux & Hdx & Hnx). exists r, x'. split_and!; [done| |].
    + unfold is_root in *. by rewrite Hux, Hdx, Hnx.
    + intros k' Hk'%Hch. by eapply Horph.
Qed.

(** Some slot is a root without a parent. *)
Definition has_root (fs : RamFs) : Prop := ∃ r e, fs !! r = Some e ∧ is_root e = true ∧ orphan fs r.

(** A new entry in a free slot, not yet registered anywhere. *)
Lemma fs_ok_alloc fs j e0 e :
  fs_ok fs → fs !! j = Some e0 → in_use e0 = false → entry_ok e → in_use e = true → children e = [] →
  (is_dir e = true → is_root e = true ∨ has_root fs) →
  fs_ok (<[j := e]> fs) ∧ orphan (<[j := e]> fs) j.
Proof.
  intros Hok Hj Hf He Hu Hc Hdir. pose proof (lookup_lt_Some _ _ _ Hj) as Hlt. pose proof (free_orphan _ _ _ Hok Hj Hf) as Hfree.
  assert (∀ k x, child_of (<[j := e]> fs) k x → child_of fs k x) as Hch.
  { intros k x. by apply child_of_alloc. }
  assert (orphan (<[j := e]> fs) j) as Horph by (intros i Hi%Hch; by eapply Hfree).
  assert (∀ r x, fs !! r = Some x → is_root x = true → r ≠ j) as Hrj.
  { intros r x Hr Hx ->. unfold is_root in Hx. rewrite Hj in Hr. injection Hr as ->. by rewrite Hf in Hx. }
  assert (has_root fs → has_root (<[j := e]> fs)) as Hkeep.
  { intros (r & x & Hr & Hx & Ho). exists r, x. rewrite list_lookup_insert_ne by (apply not_eq_sym; by eapply Hrj).
    split_and!; [done..|]. intros k Hk%Hch. by eapply Ho. }
  split; [|done]. split.
  - unfold len. rewrite length_insert. apply Hok.
  - intros k d [(-> & -> & _)|[Hne Hk]]%list_lookup_insert_Some; [done|by apply (fo_entry _ Hok k)].
  - intros k d a x [(-> & -> & _)|[Hne Hk]]%list_lookup_insert_Some Hin; [rewrite Hc in Hin; by apply not_elem_of_nil in Hin|].
    destruct (fo_child _ Hok _ _ _ _ Hk Hin) as (y & Hy & Huy & Hny). exists y.
    rewrite list_lookup_insert_ne; [done|]. intros ->. congruence.
  - intros k k' x ?%Hch ?%Hch. by eapply (fo_parent _ Hok).
  - intros (k & d & [(-> & <- & _)|[Hne Hk]]%list_lookup_insert_Some & Hud & Hdd).
    + destruct (Hdir Hdd) as [Hroot|Hr]; [|by apply Hkeep]. exists k, e. rewrite list_lookup_insert_eq by done. done.
    + apply Hkeep. apply (fo_root _ Hok). by exists k, d.
Qed.

(** Registering an orphan that is not the only root. *)
Lemma fs_ok_add fs p d j e :
  fs_ok fs → fs !! p = Some d → in_use d = true → is_dir d = true → fs !! j = Some e → in_use e = true →
  orphan fs j → (∃ r x, fs !! r = Some x ∧ is_root x = true ∧ orphan fs r ∧ r ≠ j) →
  cstr (name e) ∉ cstr <$> (children d).*1 →
  fs_ok (<[p := set_children (children d ++ [(name e, j)]) d]> fs).
Proof.
  intros Hok Hp Hu Hd Hj Huj Horph (r & x & Hr & Hx & Ho & Hrj) Hname. pose proof (lookup_lt_Some _ _ _ Hp) as Hlt.
  set (d' := set_children _ d). assert (∀ k y, <[p := d']> fs !! k = Some y → ∃ z, fs !! k = Some z ∧ in_use y = in_use z ∧ is_dir y = is_dir z ∧ name y = name z) as Hback.
  { intros k y [(-> & <- & _)|[Hne Hk]]%list_lookup_insert_Some; [by exists d|by exists y]. }
  assert (∀ k y, fs !! k = Some y → ∃ z, <[p := d']> fs !! k = Some z ∧ in_use z = in_use y ∧ is_dir z = is_dir y ∧ name z = name y) as Hfwd.
  { intros k y Hk. destruct (decide (k = p)) as [->|Hne]; [exists d'|exists y].
    - rewrite list_lookup_insert_eq by done. rewrite Hp in Hk. injection Hk as <-. done.
    - by rewrite list_lookup_insert_ne by done. }
  assert (∀ k y, child_of (<[p := d']> fs) k y → child_of fs k y ∨ (k = p ∧ y = j)) as Hch.
  { intros k y. by apply child_of_add. }
  pose proof (fo_entry _ Hok _ _ Hp) as Hdok. split.
  - unfold len. rewrite length_insert. apply Hok.
  - intros k y [(-> & <- & _)|[Hne Hk]]%list_lookup_insert_Some; [|by apply (fo_entry _ Hok k)].
    destruct Hdok as [? ? ? ? ? Hnn Hno]. split; try done; simpl; rewrite ?fmap_app; [congruence|..].
    + apply list.NoDup_app. split_and!; [done| |apply NoDup_singleton]. intros a Ha ->%list_elem_of_singleton. done.
    + apply list.NoDup_app. split_and!; [done| |apply NoDup_singleton]. intros a Ha ->%list_elem_of_singleton.
      apply (Horph k). by exists d.
  - assert (∀ a y, (a, y) ∈ children d' → (a, y) ∈ children d ∨ (a, y) = (name e, j)) as Hin'.
    { intros a y [Hy|Hy%list_elem_of_singleton]%elem_of_app; auto. }
    assert (∀ a y z, fs !! y = Some z → in_use z = true → name z = a → ∃ z', <[p := d']> fs !! y = Some z' ∧ in_use z' = true ∧ name z' = a) as Hlive.
    { intros a y z Hy Hz Hn. destruct (Hfwd _ _ Hy) as (z' & ? & ? & ? & ?). exists z'. split_and!; congruence. }
    intros k y a i [(-> & <- & _)|[Hne Hk]]%list_lookup_insert_Some Hin.
    + destruct (Hin' _ _ Hin) as [Hin0|[= -> ->]]; [|by eapply Hlive].
      destruct (fo_child _ Hok _ _ _ _ Hp Hin0) as (z & ? & ? & ?). by eapply Hlive.
    + destruct (fo_child _ Hok _ _ _ _ Hk Hin) as (z & ? & ? & ?). by eapply Hlive.
  - intros k k' y [Hk|[-> ->]]%Hch [Hk'|[-> Heq]]%Hch; [by eapply (fo_parent _ Hok)|subst; by apply Horph in Hk|by apply Horph in Hk'|done].
  - intros _. destruct (Hfwd _ _ Hr) as (z & Hz & Huz & Hdz & Hnz). exists r, z. split_and!; [done| |].
    + unfold is_root in *. by rewrite Huz, Hdz, Hnz.
    + intros k [Hk|[_ Heq]]%Hch; [by apply Ho in Hk|done].
Qed.

(** Removing a child and clearing its slot. *)
Lemma fs_ok_remove fs p d a c : fs_ok fs → fs !! p = Some d → (a, c) ∈ children d → fs_ok (removed fs p d c).
Proof.
  intros Hok Hp Hac. destruct (fo_child _ Hok _ _ _ _ Hp Hac) as (e & He & Hue & Hne).
  assert (child_of fs p c) as Hpc by (exists d; split; [done|by apply elem_children in Hac as [_ ?]]). split.
  - unfold len, removed. rewrite !length_insert. apply Hok.
  - intros k y [[-> ->]|[(Hkc & -> & ->)|(Hkc & Hkp & Hk)]]%removed_lookup; [split; try done; constructor| |by apply (fo_entry _ Hok k)].
    destruct (fo_entry _ Hok _ _ Hp) as [? ? Hf Hl ? Hn Ho].
    assert (filter (λ x, x.2 ≠ c) (children d) `sublist_of` children d) as Hsub.
    { clear. induction (children d) as [|x l IH]; [done|]. rewrite filter_cons. destruct (decide _); by constructor. }
    split; try done; simpl.
    + intros Hnd. by rewrite Hl by done.
    + eapply sublist_NoDup; [exact Hn|]. by do 2 apply fmap_sublist.
    + eapply sublist_NoDup; [exact Ho|]. by apply fmap_sublist.
  - intros k y b j Hy Hin. destruct (removed_children _ _ _ _ _ _ _ _ Hok Hp Hpc Hy Hin) as (z & Hz & Hb & Hj).
    destruct (fo_child _ Hok _ _ _ _ Hz Hb) as (x & Hx & ? & ?).
    destruct (removed_keeps _ _ _ c _ _ Hp Hx Hj) as (x' & ? & ? & ? & ?). exists x'. split_and!; congruence.
  - intros k k' j [? _]%child_of_removed [? _]%child_of_removed; [|done..]. by eapply (fo_parent _ Hok).
  - intros (k & y & Hk & Huy & Hdy). destruct (fo_root _ Hok) as (r & x & Hr & Hx & Ho).
    { destruct (removed_lookup _ _ _ _ _ _ Hk) as [[-> ->]|[(Hkc & -> & ->)|(Hkc & Hkp & Hk')]]; [done|by exists p, d|by exists k, y]. }
    assert (r ≠ c) as Hrc by (intros ->; by eapply Ho). destruct (removed_keeps _ _ _ c _ _ Hp Hr Hrc) as (z & Hz & Huz & Hdz & Hnz).
    exists r, z. split_and!; [done|unfold is_root in *; by rewrite Huz, Hdz, Hnz|]. intros i [Hi _]%child_of_removed; [|done..]. by apply Ho in Hi.
Qed.

(** ** What an operation may do *)

(** A live slot without a parent keeps its name and kind and stays so, as long
    as there is a root. *)
Definition stays (fs fs' : RamFs) : Prop := ∀ j e,
  fs !! j = Some e → in_use e = true → orphan fs j → has_root fs →
  (∃ e', fs' !! j = Some e' ∧ in_use e' = true ∧ is_dir e' = is_dir e ∧ name e' = name e) ∧ orphan fs' j.

Lemma is_root_live e : is_root e = true → in_use e = true ∧ is_dir e = true.
Proof. unfold is_root. by intros [[? ?]%andb_true_iff _]%andb_true_iff. Qed.

Lemma stays_root fs fs' : stays fs fs' → has_root fs → has_root fs'.
Proof.
  intros Hs Hr. pose proof Hr as (r & e & He & Hroot & Ho). destruct (is_root_live _ Hroot) as [Hu _].
  destruct (Hs r e He Hu Ho Hr) as [(e' & He' & Hu' & Hd' & Hn') Ho']. exists r, e'. split_and!; [done| |done].
  unfold is_root in *. rewrite Hu', Hd', Hn'. by rewrite Hu in Hroot.
Qed.

Lemma stays_refl fs : stays fs fs.
Proof. intros j e He Hu Ho _. split; [by exists e|done]. Qed.

Lemma stays_trans fs fs' fs'' : stays fs fs' → stays fs' fs'' → stays fs fs''.
Proof.
  intros H1 H2 j e He Hu Ho Hr. destruct (H1 j e He Hu Ho Hr) as [(e' & He' & Hu' & Hd' & Hn') Ho'].
  destruct (H2 j e' He' Hu' Ho' (stays_root _ _ H1 Hr)) as [(e'' & ? & ? & ? & ?) ?]. split; [|done]. exists e''. split_and!; congruence.
Qed.

(** The outcome of an operation: a sound table, or a panic for the reason [P]. *)
Definition op_safe {A} (P : Prop) (fs : RamFs) (r : outcome (A * RamFs)) : Prop :=
  match r with Ret (_, fs') => fs_ok fs' ∧ stays fs fs' | Panic => P end.

Lemma op_safe_keep {A} P fs (x : A) : fs_ok fs → op_safe P fs (Ret (x, fs)).
Proof. intros. split; [done|apply stays_refl]. Qed.

Lemma op_safe_mono {A} (P : Prop) fs (r : outcome (A * RamFs)) : op_safe False fs r → op_safe P fs r.
Proof. by destruct r as [[? ?]|]. Qed.

Lemma op_safe_after {A} P fs fs' (r : outcome (A * RamFs)) : stays fs fs' → op_safe P fs' r → op_safe P fs r.
Proof. intros Hs. destruct r as [[? ?]|]; simpl; [|done]. intros [? ?]. split; [done|by eapply stays_trans]. Qed.

(** There is room for the root directory. *)
Definition room (fs : RamFs) : Prop := has_root fs ∨ is_Some (find_free_slot fs).

Section steps.
Context `{BuildProfile}.
Implicit Types (fs : RamFs) (n : list Z).

Lemma root_idx_ok fs : fs_ok fs →
  match get_root_dir_idx fs with
  | Some r => ∃ e, fs !! r = Some e ∧ is_root e = true ∧ has_root fs
  | None => ¬ has_root fs ∧ ∀ i e, fs !! i = Some e → in_use e = true → is_dir e = false
  end.
Proof.
  intros Hok. destruct (get_root_dir_idx fs) as [r|] eqn:Hr.
  - apply position_Some in Hr as [(e & He & Hroot) _]. exists e. split_and!; [done..|]. apply (fo_root _ Hok).
    destruct (is_root_live _ Hroot). by exists r, e.
  - pose proof (proj1 (position_None _ _) Hr) as Hn. assert (¬ has_root fs) as Hno.
    { intros (r & e & He & Hroot & _). apply Hn in He. congruence. }
    split; [done|]. intros i e He Hu. destruct (is_dir e) eqn:Hd; [|done]. destruct Hno. apply (fo_root _ Hok). by exists i, e.
Qed.

Lemma stays_update fs i e e' :
  fs !! i = Some e → in_use e' = in_use e → is_dir e' = is_dir e → name e' = name e → children e' = children e →
  stays fs (<[i := e']> fs).
Proof.
  intros Hi Hu Hd Hn Hc j x Hj Hx Ho _. split; [|intros k Hk%(child_of_update _ _ e); [by eapply Ho|done..]].
  destruct (decide (j = i)) as [->|Hne]; [|by exists x; rewrite list_lookup_insert_ne by done].
  exists e'. rewrite list_lookup_insert_eq by (by eapply lookup_lt_Some). split_and!; congruence.
Qed.

Lemma stays_alloc fs j e0 e : fs !! j = Some e0 → in_use e0 = false → children e = [] → stays fs (<[j := e]> fs).
Proof.
  intros Hj Hf Hc k x Hk Hx Ho _. split; [|intros i Hi%child_of_alloc; [by eapply Ho|done]].
  exists x. rewrite list_lookup_insert_ne; [done|]. intros ->. congruence.
Qed.

Lemma stays_removed fs p d a c : fs_ok fs → fs !! p = Some d → (a, c) ∈ children d → stays fs (removed fs p d c).
Proof.
  intros Hok Hp Hac j e He Hu Ho _.
  assert (child_of fs p c) as Hpc by (exists d; split; [done|by apply elem_children in Hac as [_ ?]]).
  assert (j ≠ c) as Hjc by (intros ->; by eapply Ho). destruct (removed_keeps _ _ _ c _ _ Hp He Hjc) as (z & ? & ? & ? & ?).
  split; [exists z; split_and!; congruence|]. intros k [Hk _]%child_of_removed; [by apply Ho in Hk|done..].
Qed.

Lemma live_entry_ok fs ino : fs_ok fs → 1 ≤ ino →
  ∃ r, live_entry fs ino = Ret r ∧ match r with Some e => fs !! slot_of ino = Some e ∧ in_use e = true | None => True end.
Proof.
  intros Hok Hi. unfold live_entry. destruct (Z.leb_spec MAX_FILES (ino - FILE_INO_OFFSET)); [by exists None|].
  destruct (lookup_below fs (slot_of ino) Hok) as [e He]; [unfold slot_of, FILE_INO_OFFSET in *; lia|].
  unfold entry. rewrite He. cbn [mbind outcome_bind]. eexists. split; [done|]. by destruct (in_use e) eqn:?.
Qed.

Lemma live_dir_ok fs ino : fs_ok fs → 1 ≤ ino →
  ∃ r, live_dir fs ino = Ret r ∧
    match r with Some e => fs !! slot_of ino = Some e ∧ in_use e = true ∧ is_dir e = true | None => True end.
Proof.
  intros Hok Hi. unfold live_dir. destruct (live_entry_ok fs ino Hok Hi) as (r & -> & Hr). cbn [mbind outcome_bind].
  eexists. split; [done|]. destruct r as [e|]; [|done]. destruct (is_dir e) eqn:?; [|done]. by destruct Hr.
Qed.

Lemma ino_positive ino : 0 ≤ ino → (ino =? ROOT_INO) = false → 1 ≤ ino.
Proof. intros ? ?%Z.eqb_neq. unfold ROOT_INO in *. lia. Qed.

Lemma update_ok fs i e f : fs !! i = Some e → update fs i f = Ret (<[i := f e]> fs).
Proof. intros Hi. unfold update. by rewrite Hi. Qed.

Definition fresh_file n : FileEntry := mkFile (pad_name n) [] true None false false [] DEFAULT_FILE_MODE.

Lemma fresh_file_ok n : len n ≤ MAX_NAME_LEN → entry_ok (fresh_file n).
Proof. intros Hn. split; try done; [by apply length_pad_name|constructor|constructor]. Qed.

Lemma init_slot_cases fs slot e0 n :
  fs_ok fs → fs !! slot = Some e0 → in_use e0 = false →
  init_slot fs slot n = if len n <=? MAX_NAME_LEN then Ret (<[slot := fresh_file n]> fs) else Panic.
Proof.
  intros Hok Hs Hf. unfold init_slot, debug_assert, entry. rewrite (proj2 (Z.ltb_lt _ _)) by (by eapply live_lookup).
  rewrite Hs. cbn [mbind outcome_bind]. rewrite Hf. destruct overflow_checks; cbn [mbind outcome_bind rust_assert negb];
  (destruct (Z.leb_spec (len n) MAX_NAME_LEN); [rewrite name_array_ok by done|by rewrite name_array_long]);
  cbn [mbind outcome_bind]; by apply (update_ok _ _ e0).
Qed.

(** Facts about the root directory entry after it has been looked up or made. *)
Lemma ensure_root_cases fs : fs_ok fs →
  (∃ idx fs' d, ensure_root_dir fs = Ret (idx, fs') ∧ fs_ok fs' ∧ stays fs fs' ∧ has_root fs' ∧
     fs' !! idx = Some d ∧ is_root d = true) ∨
  (ensure_root_dir fs = Panic ∧ ¬ room fs).
Proof.
  intros Hok. unfold ensure_root_dir. pose proof (root_idx_ok fs Hok) as Hr. destruct (get_root_dir_idx fs) as [r|].
  { destruct Hr as (e & He & Hroot & Hhas). left. exists r, fs, e. split_and!; try done. apply stays_refl. }
  destruct Hr as [Hno _]. destruct (find_free_slot fs) as [slot|] eqn:Hs.
  2: { right. split; [done|]. intros [?|[? ?]]; congruence. }
  left. destruct (free_slot _ _ Hs) as (e0 & He0 & Hf). rewrite name_array_ok by done. cbn [mbind outcome_bind].
  rewrite (update_ok _ _ e0) by done. cbn [mbind outcome_bind]. set (d := mkFile _ _ _ _ _ _ _ _).
  assert (is_root d = true) as Hroot by reflexivity.
  assert (entry_ok d) as Hd by (split; try done; constructor).
  destruct (fs_ok_alloc fs slot e0 d) as [Hok' Ho]; [done..|by left|].
  assert (<[slot := d]> fs !! slot = Some d) as Hl by (apply list_lookup_insert_eq; by eapply lookup_lt_Some).
  exists slot, (<[slot := d]> fs), d. split; [done|]. split; [done|]. split; [by eapply stays_alloc|]. split; [by exists slot, d|done].
Qed.

Lemma find_child_cases fs p d n :
  fs !! p = Some d → is_dir d = true → utf8_valid n = true →
  ∃ r, find_child fs p n = Ret r ∧
    match r with
    | Some c => ∃ a, (a, c) ∈ children d ∧ cstr a = n
    | None => n ∉ cstr <$> (children d).*1
    end.
Proof.
  intros Hp Hd Hn. unfold find_child, entry. rewrite Hp. cbn [mbind outcome_bind]. rewrite Hd. eexists. split; [done|].
  destruct (List.find _ _) as [[a c]|] eqn:Hf; simpl.
  - apply List.find_some in Hf as [Hin Hc]. apply list_elem_of_In in Hin. exists a. split; [done|].
    apply bool_decide_eq_true in Hc. by apply (from_utf8_good n) in Hc.
  - intros (a & -> & ([a' c] & -> & Hin)%list_elem_of_fmap)%list_elem_of_fmap.
    apply list_elem_of_In in Hin. apply (List.find_none _ _ Hf) in Hin. apply bool_decide_eq_false in Hin.
    apply Hin. by apply from_utf8_good.
Qed.

(** How a new entry may differ from a plain file. *)
Definition decorates (f : FileEntry → FileEntry) n : Prop :=
  entry_ok (f (fresh_file n)) ∧ in_use (f (fresh_file n)) = true ∧ children (f (fresh_file n)) = [] ∧
  name (f (fresh_file n)) = pad_name n.

Lemma decorates_id n : len n ≤ MAX_NAME_LEN → decorates id n.
Proof. intros Hn. split_and!; [by apply fresh_file_ok|done..]. Qed.
Lemma decorates_dir n : len n ≤ MAX_NAME_LEN → decorates set_dir n.
Proof. intros Hn. split_and!; try done. destruct (fresh_file_ok n Hn). by split. Qed.
Lemma decorates_target t n : len n ≤ MAX_NAME_LEN → decorates (set_target t) n.
Proof. intros Hn. split_and!; try done. destruct (fresh_file_ok n Hn). by split. Qed.

(** The table after [new_entry]. *)
Definition with_entry fs (p : nat) (d : FileEntry) (slot : nat) (e : FileEntry) : RamFs :=
  <[p := set_children (children d ++ [(name e, slot)]) d]> (<[slot := e]> fs).

Lemma with_entry_ok fs p d slot e0 e :
  fs_ok fs → has_root fs → fs !! p = Some d → in_use d = true → is_dir d = true →
  fs !! slot = Some e0 → in_use e0 = false → entry_ok e → in_use e = true → children e = [] →
  cstr (name e) ∉ cstr <$> (children d).*1 →
  fs_ok (with_entry fs p d slot e) ∧ stays fs (with_entry fs p d slot e).
Proof.
  intros Hok Hr Hp Hu Hd Hs Hf He Hue Hc Hn. assert (p ≠ slot) as Hps by congruence.
  destruct (fs_ok_alloc fs slot e0 e) as [Hok1 Ho1]; try done; [by right|].
  assert (<[slot := e]> fs !! p = Some d) as Hp1 by (by rewrite list_lookup_insert_ne by done).
  assert (<[slot := e]> fs !! slot = Some e) as Hs1 by (apply list_lookup_insert_eq; by eapply lookup_lt_Some).
  assert (stays fs (<[slot := e]> fs)) as Hst by (by eapply stays_alloc). split.
  - apply (fs_ok_add (<[slot := e]> fs) p d slot e); try done. destruct Hr as (r & x & Hrx & Hroot & Ho).
    destruct (is_root_live _ Hroot) as [Hux _]. assert (r ≠ slot) as Hrs by congruence.
    exists r, x. rewrite list_lookup_insert_ne by done. split_and!; try done. intros k Hk%child_of_alloc; [by eapply Ho|done].
  - intros j x Hj Hx Ho Hr'. destruct (Hst j x Hj Hx Ho Hr') as [(x' & Hx' & ? & ? & ?) Ho']. assert (j ≠ slot) by congruence. split.
    + destruct (decide (j = p)) as [->|Hne]; [|exists x'; unfold with_entry; by rewrite list_lookup_insert_ne by done].
      eexists. unfold with_entry. rewrite list_lookup_insert_eq by (by eapply lookup_lt_Some). split; [done|]. simpl. split_and!; congruence.
    + intros k [Hk|[_ ?]]%child_of_add; [by eapply Ho'|done|done].
Qed.

Lemma new_entry_cases fs p d n f :
  fs_ok fs → has_root fs → fs !! p = Some d → in_use d = true → is_dir d = true →
  good_name n → len n ≤ MAX_NAME_LEN → n ∉ cstr <$> (children d).*1 → decorates f n →
  match find_free_slot fs with
  | Some slot => new_entry fs p n f = Ret (Ok (ino_of slot), with_entry fs p d slot (f (fresh_file n)))
  | None => new_entry fs p n f = Ret (Err NoSpace, fs)
  end ∧ op_safe False fs (new_entry fs p n f).
Proof.
  intros Hok Hr Hp Hu Hd [Hg1 Hg2] Hl Hn (He & Hue & Hc & Hname). unfold new_entry.
  destruct (find_free_slot fs) as [slot|] eqn:Hs; [|split; [done|by apply op_safe_keep]].
  destruct (free_slot _ _ Hs) as (e0 & He0 & Hf). rewrite (init_slot_cases _ _ e0), (proj2 (Z.leb_le _ _) Hl) by done.
  cbn [mbind outcome_bind]. assert (∀ x, <[slot := x]> fs !! slot = Some x) as Hlk
    by (intros x; apply list_lookup_insert_eq; by eapply lookup_lt_Some).
  rewrite (update_ok _ _ _ f (Hlk _)). cbn [mbind outcome_bind]. rewrite list_insert_insert_eq.
  unfold add_child, entry. rewrite Hlk. cbn [mbind outcome_bind].
  rewrite (update_ok _ _ d) by (rewrite list_lookup_insert_ne; [done|congruence]). cbn [mbind outcome_bind]. split; [done|].
  apply (with_entry_ok fs p d slot e0); try done. by rewrite Hname, cstr_pad.
Qed.

(** ** The operations *)

Lemma good_trim path : good_name path → good_name (trim_start_matches SLASH path).
Proof.
  intros [Hu H0]. induction path as [|x path IH]; [done|]. simpl. destruct (Z.eqb_spec x SLASH) as [->|]; [|done].
  apply not_elem_of_cons in H0 as [_ H0]. by apply IH.
Qed.

(** A name no live entry has is free in every directory. *)
Lemma find_file_None fs n i d :
  fs_ok fs → utf8_valid n = true → find_file fs n = None → fs !! i = Some d → n ∉ cstr <$> (children d).*1.
Proof.
  intros Hok Hn Hf Hi (a & -> & ([a' c] & -> & Hin)%list_elem_of_fmap)%list_elem_of_fmap.
  destruct (fo_child _ Hok _ _ _ _ Hi Hin) as (e & He & Hu & <-). apply (proj1 (position_None _ _) Hf) in He.
  unfold named in He. rewrite Hu in He. simpl in *. apply bool_decide_eq_false in He. apply He. by apply from_utf8_good.
Qed.

Lemma find_file_Some fs n idx : find_file fs n = Some idx → ∃ e, fs !! idx = Some e ∧ in_use e = true ∧ from_utf8 (cstr (name e)) = Some n.
Proof.
  intros [(e & He & Hn) _]%position_Some. exists e. unfold named in Hn. apply andb_true_iff in Hn as [Hu Hn].
  by apply bool_decide_eq_true in Hn.
Qed.

Lemma set_data_safe {A} P (x : A) fs i e d :
  fs_ok fs → fs !! i = Some e → in_use e = true → len d ≤ MAX_FILE_SIZE →
  op_safe P fs (Ret (x, <[i := set_data d e]> fs)).
Proof.
  intros Hok Hi Hu Hd. destruct (fo_entry _ Hok _ _ Hi) as [? ? Hf ? ? ? ?]. split; [|by eapply stays_update].
  apply (fs_ok_update fs i e); try done. split; try done. simpl. congruence.
Qed.

(** Why [open] can panic: no room for the root, or a name longer than the
    array it is copied to. *)
Definition open_panics fs (path : list Z) (flags : OpenFlags) : Prop :=
  ¬ room fs ∨ (OpenFlags_contains flags OpenFlags_CREATE = true ∧ MAX_NAME_LEN < len (trim_start_matches SLASH path)).

Lemma open_safe fs path flags : fs_ok fs → good_name path → op_safe (open_panics fs path flags) fs (open fs path flags).
Proof.
  intros Hok Hg%good_trim. unfold open, open_panics. set (n := trim_start_matches SLASH path) in *.
  destruct (bool_decide (n = [])).
  { destruct (ensure_root_cases fs Hok) as [(idx & fs' & d & -> & Hok' & Hs & _)|[-> Hno]]; [done|by left]. }
  destruct (find_file fs n) as [idx|] eqn:Hf.
  { destruct (find_file_Some _ _ _ Hf) as (e & He & Hu & _). destruct (OpenFlags_contains flags OpenFlags_TRUNCATE); [|by apply op_safe_keep].
    rewrite (update_ok _ _ e) by done. by apply (set_data_safe _ _ fs idx e). }
  destruct (OpenFlags_contains flags OpenFlags_CREATE); [|by apply op_safe_keep].
  destruct (find_free_slot fs) as [slot|] eqn:Hs; [|by apply op_safe_keep].
  destruct (free_slot _ _ Hs) as (e0 & He0 & Hf0). rewrite (init_slot_cases _ _ e0) by done.
  destruct (Z.leb_spec (len n) MAX_NAME_LEN) as [Hl|Hl]; [|by right]. cbn [mbind outcome_bind]. pose proof (fresh_file_ok n Hl) as Hnew.
  assert (∀ x, <[slot := x]> fs !! slot = Some x) as Hlk by (intros x; apply list_lookup_insert_eq; by eapply lookup_lt_Some).
  destruct (fs_ok_alloc fs slot e0 (fresh_file n)) as [Hok1 _]; try done.
  assert (stays fs (<[slot := fresh_file n]> fs)) as Hst by (by eapply stays_alloc).
  pose proof (root_idx_ok _ Hok1) as Hr. destruct (get_root_dir_idx _) as [root_idx|]; [|done].
  destruct Hr as (d & Hd & Hroot & _). unfold add_child, entry. rewrite Hlk. cbn [mbind outcome_bind].
  rewrite (update_ok _ _ d) by done. cbn [mbind outcome_bind].
  assert (root_idx ≠ slot) as Hne by (intros ->; rewrite Hlk in Hd; by injection Hd as <-).
  rewrite list_lookup_insert_ne in Hd by done. destruct (is_root_live _ Hroot) as [Hu Hdir].
  apply (with_entry_ok fs root_idx d slot e0); try done; [apply (fo_root _ Hok); by exists root_idx, d|].
  destruct Hg as [Hg1 Hg2]. simpl. rewrite cstr_pad by done. by apply (find_file_None fs n root_idx).
Qed.

Lemma read_safe fs ino offset m : fs_ok fs → 0 ≤ ino → 0 ≤ offset → 0 ≤ m → op_safe False fs (read fs ino offset m).
Proof.
  intros Hok Hi Ho Hn. unfold read. destruct (ino =? ROOT_INO) eqn:E; [by apply op_safe_keep|].
  destruct (live_entry_ok fs ino Hok) as (r & -> & Hr); [by apply ino_positive|]. cbn [mbind outcome_bind].
  destruct r as [e|]; [|by apply op_safe_keep]. destruct (Z.leb_spec (len (data e)) offset); [by apply op_safe_keep|].
  rewrite slice_ok by lia. by apply op_safe_keep.
Qed.

Lemma len_extend_to e d : 0 ≤ e → len (extend_to e d) = Z.max e (len d).
Proof.
  intros He. unfold extend_to. destruct (Z.ltb_spec (len d) e); [|lia]. unfold len in *. rewrite length_app, length_replicate. lia.
Qed.

(** Why [write] can panic: the end of the write overflows. *)
Lemma write_safe fs ino offset bytes :
  fs_ok fs → 0 ≤ ino → is_uint 64 offset → op_safe (2 ^ 64 ≤ offset + len bytes) fs (write fs ino offset bytes).
Proof.
  intros Hok Hi Ho. unfold write. destruct (ino =? ROOT_INO) eqn:E; [by apply op_safe_keep|].
  destruct (live_entry_ok fs ino Hok) as (r & -> & Hr); [by apply ino_positive|]. cbn [mbind outcome_bind].
  destruct r as [e|]; [|by apply op_safe_keep]. destruct Hr as [He Hu]. assert (0 ≤ len bytes) by (unfold len; lia). unfold is_uint in Ho.
  destruct (decide (2 ^ 64 ≤ offset + len bytes)) as [Hov|Hov].
  - destruct (add64 offset (len bytes)) as [x|] eqn:Hx; [|done]. cbn [mbind outcome_bind]. apply arith_wrap in Hx.
    destruct (Z.ltb_spec MAX_FILE_SIZE x); [by apply op_safe_keep|]. unfold copy_into.
    destruct (_ && _ && _ && _) eqn:Hg; [|exact Hov]. apply andb_true_iff in Hg as [_ Hg%Z.eqb_eq].
    unfold wrap in Hx. pose proof (Z.mod_pos_bound (offset + len bytes) (2 ^ 64)). lia.
  - rewrite add64_ok by (unfold is_uint; lia). cbn [mbind outcome_bind].
    destruct (Z.ltb_spec MAX_FILE_SIZE (offset + len bytes)); [by apply op_safe_keep|].
    pose proof (len_extend_to (offset + len bytes) (data e)). rewrite copy_into_ok by lia. cbn [mbind outcome_bind].
    rewrite (update_ok _ _ e) by done. apply (set_data_safe _ _ fs _ e); [done..|]. pose proof (eo_data _ (fo_entry _ Hok _ _ He)).
    unfold len in *. rewrite !length_app, length_take, length_drop. lia.
Qed.

Lemma stat_safe fs ino : fs_ok fs → 0 ≤ ino → op_safe False fs (stat fs ino).
Proof.
  intros Hok Hi. unfold stat. destruct (ino =? ROOT_INO) eqn:E.
  - pose proof (root_idx_ok fs Hok) as Hr. destruct (get_root_dir_idx fs) as [r|]; [|by apply op_safe_keep].
    destruct Hr as (e & He & _). unfold entry. rewrite He. by apply op_safe_keep.
  - destruct (live_entry_ok fs ino Hok) as (r & -> & Hr); [by apply ino_positive|]. destruct r; by apply op_safe_keep.
Qed.

Lemma list_children_ok fs cs :
  (∀ a j, (a, j) ∈ cs → ∃ e, fs !! j = Some e ∧ in_use e = true) →
  ∃ l, list_children fs cs = Ret l ∧
    ∀ x, x ∈ l ↔ ∃ a j e, (a, j) ∈ cs ∧ fs !! j = Some e ∧ from_utf8 (cstr a) = Some (de_name x) ∧
      de_ino x = ino_of j ∧ de_is_dir x = is_dir e.
Proof.
  induction cs as [|[a j] cs IH]; intros Hall.
  { exists []. split; [done|]. intros x. split; [by intros ?%not_elem_of_nil|]. intros (? & ? & ? & ?%not_elem_of_nil & _). done. }
  destruct IH as (l & Hl & Hin); [intros b k Hk; apply (Hall b); by right|]. simpl. rewrite Hl.
  destruct (Hall a j) as (e & He & Hu); [left|]. unfold entry. rewrite He. cbn [mbind outcome_bind]. rewrite Hu.
  destruct (from_utf8 (cstr a)) as [cn|] eqn:Hcn; eexists; (split; [done|]); intros x.
  - rewrite elem_of_cons, Hin. split.
    + intros [->|(b & k & e' & ? & ?)]; [exists a, j, e; split; [left|done]|exists b, k, e'; split; [by right|done]].
    + intros (b & k & e' & [[= -> ->]|Hb]%elem_of_cons & Hk & Hn & Hi & Hd); [left|right; by exists b, k, e'].
      destruct x; simpl in *. congruence.
  - rewrite Hin. split.
    + intros (b & k & e' & ? & ?). exists b, k, e'. split; [by right|done].
    + intros (b & k & e' & [[= -> ->]|Hb]%elem_of_cons & Hk & Hn & ?); [congruence|by exists b, k, e'].
Qed.

Lemma children_live fs i d : fs_ok fs → fs !! i = Some d → ∀ a j, (a, j) ∈ children d → ∃ e, fs !! j = Some e ∧ in_use e = true.
Proof. intros Hok Hi a j Hin. destruct (fo_child _ Hok _ _ _ _ Hi Hin) as (e & ? & ? & _). by exists e. Qed.

Lemma readdir_safe fs ino : fs_ok fs → 0 ≤ ino → op_safe False fs (readdir fs ino).
Proof.
  intros Hok Hi. unfold readdir. destruct (ino =? ROOT_INO) eqn:E.
  - pose proof (root_idx_ok fs Hok) as Hr. destruct (get_root_dir_idx fs) as [r|]; [|by apply op_safe_keep].
    destruct Hr as (e & He & _). unfold entry. rewrite He. cbn [mbind outcome_bind].
    destruct (list_children_ok fs (children e)) as (l & -> & _); [by eapply children_live|by apply op_safe_keep].
  - destruct (live_dir_ok fs ino Hok) as (r & -> & Hr); [by apply ino_positive|]. cbn [mbind outcome_bind].
    destruct r as [e|]; [|by apply op_safe_keep]. destruct Hr as [He _].
    destruct (list_children_ok fs (children e)) as (l & -> & _); [by eapply children_live|by apply op_safe_keep].
Qed.

Lemma has_root_dir fs i e : fs_ok fs → fs !! i = Some e → in_use e = true → is_dir e = true → has_root fs.
Proof. intros Hok ???. apply (fo_root _ Hok). by exists i, e. Qed.

Lemma valid_name_len n : negb (valid_name n) = false → len n < MAX_NAME_LEN.
Proof. unfold valid_name. by intros [_ ?%Z.ltb_lt]%negb_false_iff%andb_true_iff. Qed.

(** [create] and [mkdir], which differ in the error for a bad parent and in
    what they make of the new entry. *)
Lemma make_safe fs parent_ino n err f :
  fs_ok fs → 0 ≤ parent_ino → good_name n → len n < MAX_NAME_LEN → decorates f n →
  op_safe (¬ room fs) fs
    ('(p, fs) ← parent_for_new fs parent_ino err;
     match p with
     | Err e => Ret (Err e, fs)
     | Ok parent_idx =>
         c ← find_child fs parent_idx n;
         match c with Some _ => Ret (Err AlreadyExists, fs) | None => new_entry fs parent_idx n f end
     end).
Proof.
  intros Hok Hi Hg Hl Hf. unfold parent_for_new. pose proof Hg as [Hg1 Hg2]. destruct (parent_ino =? ROOT_INO) eqn:E.
  - destruct (ensure_root_cases fs Hok) as [(idx & fs' & d & -> & Hok' & Hs & Hr & Hd & Hroot)|[-> Hno]]; [|done].
    cbn [mbind outcome_bind]. apply (op_safe_after _ _ fs'); [done|]. destruct (is_root_live _ Hroot).
    destruct (find_child_cases fs' idx d n) as (c & -> & Hc); [done..|]. cbn [mbind outcome_bind].
    destruct c; [by apply op_safe_keep|]. destruct (new_entry_cases fs' idx d n f) as [_ Hsafe]; try done; [lia|].
    by apply op_safe_mono.
  - destruct (live_dir_ok fs parent_ino Hok) as (r & -> & Hr); [by apply ino_positive|]. cbn [mbind outcome_bind].
    destruct r as [d|]; [|by apply op_safe_keep]. destruct Hr as (Hd & Hu & Hdir).
    destruct (find_child_cases fs (slot_of parent_ino) d n) as (c & -> & Hc); [done..|]. cbn [mbind outcome_bind].
    destruct c; [by apply op_safe_keep|]. destruct (new_entry_cases fs (slot_of parent_ino) d n f) as [_ Hsafe]; try done;
      [by eapply has_root_dir|lia|]. by apply op_safe_mono.
Qed.

Lemma create_safe fs parent_ino n :
  fs_ok fs → 0 ≤ parent_ino → good_name n → op_safe (¬ room fs) fs (create fs parent_ino n).
Proof.
  intros Hok Hi Hg. unfold create. destruct (negb (valid_name n)) eqn:Hv; [by apply op_safe_keep|]. apply valid_name_len in Hv.
  apply make_safe; try done. apply decorates_id. lia.
Qed.

Lemma mkdir_safe fs parent_ino n :
  fs_ok fs → 0 ≤ parent_ino → good_name n → op_safe (¬ room fs) fs (mkdir fs parent_ino n).
Proof.
  intros Hok Hi Hg. unfold mkdir. destruct (negb (valid_name n)) eqn:Hv; [by apply op_safe_keep|]. apply valid_name_len in Hv.
  apply make_safe; try done. apply decorates_dir. lia.
Qed.

Lemma symlink_safe fs parent_ino n t :
  fs_ok fs → 0 ≤ parent_ino → good_name n → op_safe (¬ room fs) fs (symlink fs parent_ino n t).
Proof.
  intros Hok Hi Hg. unfold symlink. destruct (negb (valid_name n)) eqn:Hv; [by apply op_safe_keep|]. apply valid_name_len in Hv.
  pose proof Hg as [Hg1 Hg2]. assert (decorates (set_target t) n) as Hdec by (apply decorates_target; lia).
  destruct (parent_ino =? ROOT_INO) eqn:E.
  - destruct (find_file fs n) eqn:Hf; [by apply op_safe_keep|].
    destruct (ensure_root_cases fs Hok) as [(idx & fs' & d & Hens & Hok' & Hs & Hr & Hd & Hroot)|[-> Hno]]; [|done].
    rewrite Hens. cbn [mbind outcome_bind]. apply (op_safe_after _ _ fs'); [done|]. destruct (is_root_live _ Hroot).
    destruct (new_entry_cases fs' idx d n (set_target t)) as [_ Hsafe]; try done; [lia| |by apply op_safe_mono].
    unfold ensure_root_dir in Hens. destruct (get_root_dir_idx fs) as [r|].
    { injection Hens as -> ->. by eapply (find_file_None fs'). }
    destruct (find_free_slot fs) as [slot|] eqn:Hfree; [|done]. destruct (free_slot _ _ Hfree) as (e0 & He0 & _).
    rewrite name_array_ok in Hens by done. cbn [mbind outcome_bind] in Hens. rewrite (update_ok _ _ e0) in Hens by done.
    injection Hens as <- <-. rewrite list_lookup_insert_eq in Hd by (by eapply lookup_lt_Some). injection Hd as <-.
    apply not_elem_of_nil.
  - destruct (live_dir_ok fs parent_ino Hok) as (r & -> & Hr); [by apply ino_positive|]. cbn [mbind outcome_bind].
    destruct r as [d|]; [|by apply op_safe_keep]. destruct Hr as (Hd & Hu & Hdir).
    destruct (find_child_cases fs (slot_of parent_ino) d n) as (c & -> & Hc); [done..|]. cbn [mbind outcome_bind].
    destruct c; [by apply op_safe_keep|]. destruct (new_entry_cases fs (slot_of parent_ino) d n (set_target t)) as [_ Hsafe]; try done;
      [by eapply has_root_dir|lia|]. by apply op_safe_mono.
Qed.

Lemma detach_eq fs p d a c :
  fs_ok fs → fs !! p = Some d → (a, c) ∈ children d →
  (fs1 ← remove_child fs p c; fs2 ← clear_slot fs1 c; Ret (@Ok unit FsError tt, fs2)) = Ret (Ok tt, removed fs p d c).
Proof.
  intros Hok Hp Hin. destruct (fo_child _ Hok _ _ _ _ Hp Hin) as (e & He & _). unfold remove_child, clear_slot.
  rewrite (update_ok _ _ d) by done. cbn [mbind outcome_bind]. rewrite (proj2 (Z.leb_gt _ _)) by (by eapply live_lookup).
  set (fs1 := <[p := _]> fs). destruct (lookup_lt_is_Some_2 fs1 c) as [e' He'];
    [unfold fs1; rewrite length_insert; by eapply lookup_lt_Some|].
  by rewrite (update_ok _ _ e').
Qed.

Lemma detach_safe fs p d a c :
  fs_ok fs → fs !! p = Some d → (a, c) ∈ children d →
  op_safe False fs (fs1 ← remove_child fs p c; fs2 ← clear_slot fs1 c; Ret (@Ok unit FsError tt, fs2)).
Proof.
  intros Hok Hp Hin. rewrite (detach_eq _ _ d a) by done. split; [by eapply fs_ok_remove|by eapply stays_removed].
Qed.

(** Without a root there are no directories and no children. *)
Lemma flat_release_ok fs idx e :
  fs_ok fs → get_root_dir_idx fs = None → fs !! idx = Some e → in_use e = true →
  fs_ok (<[idx := release_flat e]> fs) ∧ stays fs (<[idx := release_flat e]> fs).
Proof.
  intros Hok Hr He Hu. pose proof (root_idx_ok fs Hok) as Hno. rewrite Hr in Hno. destruct Hno as [Hno Hdirs].
  assert (∀ i d, fs !! i = Some d → is_dir d = false ∧ children d = []) as Hleaf.
  { intros i d Hd. pose proof (fo_entry _ Hok _ _ Hd) as Hd'. assert (is_dir d = false) as Hf.
    { destruct (in_use d) eqn:Hud; [by eapply Hdirs|by destruct (eo_free _ Hd' Hud)]. }
    split; [done|by apply (eo_leaf _ Hd')]. }
  destruct (Hleaf _ _ He) as [Hed Hec].
  assert (∀ i d, <[idx := release_flat e]> fs !! i = Some d → is_dir d = false ∧ children d = [] ∧ entry_ok d) as Hall.
  { intros i d [(-> & <- & _)|[_ Hd]]%list_lookup_insert_Some.
    - destruct (fo_entry _ Hok _ _ He). split_and!; [done..|]. split; simpl; try done; rewrite Hec; constructor.
    - destruct (Hleaf _ _ Hd). split_and!; [done..|by apply (fo_entry _ Hok i)]. }
  split; [|intros j x _ _ _ Hroot; done]. split.
  - unfold len. rewrite length_insert. apply Hok.
  - intros i d Hd. by destruct (Hall _ _ Hd) as (_ & _ & ?).
  - intros i d a j (_ & Hc & _)%Hall Hin. rewrite Hc in Hin. by apply not_elem_of_nil in Hin.
  - intros i i' j (d & (_ & Hc & _)%Hall & Hin). rewrite Hc in Hin. by apply not_elem_of_nil in Hin.
  - intros (i & d & (Hd & _)%Hall & _ & Hd'). congruence.
Qed.

Lemma unlink_safe fs parent_ino n :
  fs_ok fs → 0 ≤ parent_ino → utf8_valid n = true → op_safe False fs (unlink fs parent_ino n).
Proof.
  intros Hok Hi Hg. unfold unlink, parent_to_remove. destruct (parent_ino =? ROOT_INO) eqn:E; cbn [mbind outcome_bind].
  - pose proof (root_idx_ok fs Hok) as Hr. destruct (get_root_dir_idx fs) as [r|] eqn:Hidx.
    + destruct Hr as (d & Hd & Hroot & _). destruct (is_root_live _ Hroot).
      destruct (find_child_cases fs r d n) as (c & -> & Hc); [done..|]. cbn [mbind outcome_bind].
      destruct c as [c|]; [|by apply op_safe_keep]. destruct Hc as (a & Ha & _). by eapply detach_safe.
    + destruct (find_file fs n) as [idx|] eqn:Hf; [|by apply op_safe_keep].
      destruct (find_file_Some _ _ _ Hf) as (e & He & Hu & _). rewrite (update_ok _ _ e) by done. by apply flat_release_ok.
  - destruct (live_dir_ok fs parent_ino Hok) as (r & -> & Hr); [by apply ino_positive|]. cbn [mbind outcome_bind].
    destruct r as [d|]; [|by apply op_safe_keep]. destruct Hr as (Hd & Hu & Hdir).
    destruct (find_child_cases fs (slot_of parent_ino) d n) as (c & -> & Hc); [done..|]. cbn [mbind outcome_bind].
    destruct c as [c|]; [|by apply op_safe_keep]. destruct Hc as (a & Ha & _). by eapply detach_safe.
Qed.

Lemma rmdir_safe fs parent_ino n :
  fs_ok fs → 0 ≤ parent_ino → utf8_valid n = true → op_safe False fs (rmdir fs parent_ino n).
Proof.
  intros Hok Hi Hg. unfold rmdir, parent_to_remove.
  assert (∀ p d, fs !! p = Some d → is_dir d = true → op_safe False fs
    (c ← find_child fs p n;
     match c with
     | None => Ret (Err NotFound, fs)
     | Some child_idx =>
         child ← entry fs child_idx;
         if negb (is_dir child) then Ret (Err NotADirectory, fs)
         else if negb (bool_decide (children child = [])) then Ret (Err IoError, fs)
         else fs ← remove_child fs p child_idx; fs ← clear_slot fs child_idx; Ret (Ok tt, fs)
     end)) as Hmain.
  { intros p d Hp Hdir. destruct (find_child_cases fs p d n) as (c & -> & Hc); [done..|]. cbn [mbind outcome_bind].
    destruct c as [c|]; [|by apply op_safe_keep]. destruct Hc as (a & Ha & _).
    destruct (fo_child _ Hok _ _ _ _ Hp Ha) as (e & He & _). unfold entry. rewrite He. cbn [mbind outcome_bind].
    destruct (negb (is_dir e)); [by apply op_safe_keep|]. destruct (negb (bool_decide _)); [by apply op_safe_keep|]. by eapply detach_safe. }
  destruct (parent_ino =? ROOT_INO) eqn:E; cbn [mbind outcome_bind].
  - pose proof (root_idx_ok fs Hok) as Hr. destruct (get_root_dir_idx fs) as [r|] eqn:Hidx; [|by apply op_safe_keep].
    destruct Hr as (d & Hd & Hroot & _). destruct (is_root_live _ Hroot). by eapply Hmain.
  - destruct (live_dir_ok fs parent_ino Hok) as (r & -> & Hr); [by apply ino_positive|]. cbn [mbind outcome_bind].
    destruct r as [d|]; [|by apply op_safe_keep]. destruct Hr as (Hd & Hu & Hdir). by eapply Hmain.
Qed.

Lemma readlink_safe fs ino m : fs_ok fs → 0 ≤ ino → 0 ≤ m → op_safe False fs (readlink fs ino m).
Proof.
  intros Hok Hi Hm. unfold readlink. destruct (ino =? ROOT_INO) eqn:E; [by apply op_safe_keep|].
  destruct (live_entry_ok fs ino Hok) as (r & -> & Hr); [by apply ino_positive|]. cbn [mbind outcome_bind].
  destruct r as [e|]; [|by apply op_safe_keep]. destruct (symlink_target e) as [t|]; [|by apply op_safe_keep].
  rewrite slice_ok by (unfold len; lia). by apply op_safe_keep.
Qed.

Lemma chmod_safe fs ino m : fs_ok fs → 0 ≤ ino → op_safe False fs (chmod fs ino m).
Proof.
  intros Hok Hi. unfold chmod. destruct (ino =? ROOT_INO) eqn:E; [by apply op_safe_keep|].
  destruct (live_entry_ok fs ino Hok) as (r & -> & Hr); [by apply ino_positive|]. cbn [mbind outcome_bind].
  destruct r as [e|]; [|by apply op_safe_keep]. destruct Hr as [He Hu]. rewrite (update_ok _ _ e) by done.
  split; [|by eapply stays_update]. apply (fs_ok_update fs _ e); try done. destruct (fo_entry _ Hok _ _ He). by split.
Qed.

End steps.

Lemma op_safe_no_panic {A} (P : Prop) fs (r : outcome (A * RamFs)) : op_safe P fs r → ¬ P → r ≠ Panic.
Proof. by intros Hs HP ->. Qed.

Lemma op_safe_ret {A} (P : Prop) fs (x : A) fs' r : op_safe P fs r → r = Ret (x, fs') → fs_ok fs' ∧ stays fs fs'.
Proof. by intros Hs ->. Qed.

(** ** Histories *)

Section histories.
Context `{BuildProfile}.
Implicit Types (fs : RamFs) (n : list Z).

(** Every operation of the trait, with names that have no zero byte. *)
Inductive ramfs_step fs : RamFs → Prop :=
  | step_open path flags r fs' : good_name path → open fs path flags = Ret (r, fs') → ramfs_step fs fs'
  | step_read ino off m r fs' : 0 ≤ ino → 0 ≤ off → 0 ≤ m → read fs ino off m = Ret (r, fs') → ramfs_step fs fs'
  | step_write ino off bytes r fs' : 0 ≤ ino → is_uint 64 off → write fs ino off bytes = Ret (r, fs') → ramfs_step fs fs'
  | step_stat ino r fs' : 0 ≤ ino → stat fs ino = Ret (r, fs') → ramfs_step fs fs'
  | step_readdir ino r fs' : 0 ≤ ino → readdir fs ino = Ret (r, fs') → ramfs_step fs fs'
  | step_create ino n r fs' : 0 ≤ ino → good_name n → create fs ino n = Ret (r, fs') → ramfs_step fs fs'
  | step_unlink ino n r fs' : 0 ≤ ino → good_name n → unlink fs ino n = Ret (r, fs') → ramfs_step fs fs'
  | step_symlink ino n t r fs' : 0 ≤ ino → good_name n → symlink fs ino n t = Ret (r, fs') → ramfs_step fs fs'
  | step_readlink ino m r fs' : 0 ≤ ino → 0 ≤ m → readlink fs ino m = Ret (r, fs') → ramfs_step fs fs'
  | step_mkdir ino n r fs' : 0 ≤ ino → good_name n → mkdir fs ino n = Ret (r, fs') → ramfs_step fs fs'
  | step_rmdir ino n r fs' : 0 ≤ ino → good_name n → rmdir fs ino n = Ret (r, fs') → ramfs_step fs fs'
  | step_chmod ino m r fs' : 0 ≤ ino → chmod fs ino m = Ret (r, fs') → ramfs_step fs fs'.

Lemma ramfs_step_ok fs fs' : fs_ok fs → ramfs_step fs fs' → fs_ok fs' ∧ stays fs fs'.
Proof.
  intros Hok Hs. destruct Hs as [? ? ? ? ? Heq|? ? ? ? ? ? ? ? Heq|? ? ? ? ? ? ? Heq|? ? ? ? Heq|? ? ? ? Heq|? ? ? ? ? Hg Heq
    |? ? ? ? ? Hg Heq|? ? ? ? ? ? Hg Heq|? ? ? ? ? ? Heq|? ? ? ? ? Hg Heq|? ? ? ? ? Hg Heq|? ? ? ? ? Heq];
    (eapply op_safe_ret; [|exact Heq]).
  - by apply open_safe.
  - by apply read_safe.
  - by apply write_safe.
  - by apply stat_safe.
  - by apply readdir_safe.
  - by apply create_safe.
  - apply unlink_safe; [done..|apply Hg].
  - by apply symlink_safe.
  - by apply readlink_safe.
  - by apply mkdir_safe.
  - apply rmdir_safe; [done..|apply Hg].
  - by apply chmod_safe.
Qed.

Lemma ramfs_history_ok fs fs' : fs_ok fs → rtc ramfs_step fs fs' → fs_ok fs' ∧ stays fs fs'.
Proof.
  intros Hok Hr. induction Hr as [|x y z Hstep _ IH]; [split; [done|apply stays_refl]|].
  destruct (ramfs_step_ok x y Hok Hstep) as [Hy Hs]. destruct (IH Hy) as [Hz Hs']. split; [done|by eapply stays_trans].
Qed.


(** [ino] denotes the directory in slot [p]: the root inode, or the slot's own. *)
Definition dir_inode fs (ino : Z) (p : nat) : Prop := (ino = ROOT_INO ∧ get_root_dir_idx fs = Some p) ∨ ino = ino_of p.

Lemma slot_of_ino p : slot_of (ino_of p) = p.
Proof. unfold slot_of, ino_of. lia. Qed.

Lemma live_dir_at fs p d : fs_ok fs → fs !! p = Some d → in_use d = true → is_dir d = true → live_dir fs (ino_of p) = Ret (Some d).
Proof.
  intros Hok Hp Hu Hd. unfold live_dir, live_entry. rewrite slot_of_ino. pose proof (live_lookup _ _ _ Hok Hp).
  rewrite (proj2 (Z.leb_gt _ _)) by (unfold ino_of; lia). unfold entry. rewrite Hp. cbn [mbind outcome_bind]. by rewrite Hu, Hd.
Qed.

Lemma not_root_ino p : (ino_of p =? ROOT_INO) = false.
Proof. apply Z.eqb_neq. unfold ino_of, ROOT_INO, FILE_INO_OFFSET. lia. Qed.

Lemma parent_to_remove_at fs ino p d e :
  fs_ok fs → fs !! p = Some d → in_use d = true → is_dir d = true → dir_inode fs ino p →
  parent_to_remove fs ino e = Ret (Ok (Some p)).
Proof.
  intros Hok Hp Hu Hd [[-> Hr]| -> ]; unfold parent_to_remove; [by rewrite Z.eqb_refl, Hr|].
  rewrite not_root_ino, (live_dir_at _ _ d) by done. cbn [mbind outcome_bind]. by rewrite slot_of_ino.
Qed.

Lemma unlink_at fs ino p d n c :
  fs_ok fs → fs !! p = Some d → in_use d = true → is_dir d = true → dir_inode fs ino p → utf8_valid n = true →
  find_child fs p n = Ret (Some c) → unlink fs ino n = Ret (Ok tt, removed fs p d c) ∧ ∃ a, (a, c) ∈ children d.
Proof.
  intros Hok Hp Hu Hd Hi Hn Hf. unfold unlink. rewrite (parent_to_remove_at _ _ p d) by done. cbn [mbind outcome_bind].
  destruct (find_child_cases fs p d n) as (r & Hr & Hc); [done..|]. rewrite Hf in Hr. injection Hr as <-.
  destruct Hc as (a & Ha & _). rewrite Hf. cbn [mbind outcome_bind]. split; [by eapply detach_eq|by exists a].
Qed.

Lemma same_name (l : list (list Z * nat)) a b i j :
  NoDup (cstr <$> l.*1) → (a, i) ∈ l → (b, j) ∈ l → cstr a = cstr b → i = j.
Proof.
  intros Hn [x Hx]%list_elem_of_lookup [y Hy]%list_elem_of_lookup Heq.
  assert (x = y) as ->; [|congruence]. eapply (NoDup_lookup _ x y (cstr a)); [exact Hn|..]; rewrite !list_lookup_fmap, ?Hx, ?Hy; simpl; congruence.
Qed.

(** A removed name is not found again. *)
Lemma find_child_removed fs p d n c :
  fs_ok fs → fs !! p = Some d → is_dir d = true → utf8_valid n = true → find_child fs p n = Ret (Some c) → p ≠ c →
  find_child (removed fs p d c) p n = Ret None.
Proof.
  intros Hok Hp Hd Hn Hf Hpc. destruct (find_child_cases fs p d n) as (r & Hr & Hc); [done..|]. rewrite Hf in Hr. injection Hr as <-.
  destruct Hc as (a & Ha & Hca). destruct (removed_keeps fs p d c p d Hp Hp Hpc) as (z & Hz & _ & Hdz & _).
  destruct (find_child_cases (removed fs p d c) p z n) as (r & -> & Hr); [done|congruence|done|]. destruct r as [j|]; [|done]. exfalso.
  destruct Hr as (b & Hb & Hcb). destruct (removed_lookup _ _ _ _ _ _ Hz) as [[? _]|[(_ & _ & ->)|(_ & ? & _)]]; [done| |done].
  simpl in Hb. apply list_elem_of_filter in Hb as [Hjc Hb]. simpl in Hjc.
  apply Hjc. eapply same_name; [apply (eo_names _ (fo_entry _ Hok _ _ Hp))|exact Hb|exact Ha|congruence].
Qed.

(** removing a directory that is not empty with [unlink] leaks its contents:
    the slot of each entry inside stays taken, outside every directory, after any
    further history of operations. *)
Theorem unlink_directory_leaks fs ino p d n c dir b j r fs1 fs2 :
  fs_ok fs → fs !! p = Some d → in_use d = true → is_dir d = true → dir_inode fs ino p → utf8_valid n = true →
  find_child fs p n = Ret (Some c) → fs !! c = Some dir → (b, j) ∈ children dir → j ≠ c →
  unlink fs ino n = Ret (r, fs1) → rtc ramfs_step fs1 fs2 →
  r = Ok tt ∧ (∃ e, fs2 !! j = Some e ∧ in_use e = true ∧ name e = b) ∧ ∀ i, ¬ child_of fs2 i j.
Proof.
  intros Hok Hp Hud Hd Hi Hn Hfc Hc Hbj Hjc Hun Hr.
  destruct (unlink_at fs ino p d n c) as (Heq & a & Hac); [done..|]. rewrite Heq in Hun. injection Hun as <- <-. split; [done|].
  destruct (fo_child _ Hok _ _ _ _ Hc Hbj) as (e & He & Hu & Hne).
  assert (child_of fs p c) as Hpc by (exists d; split; [done|by apply elem_children in Hac as [_ ?]]).
  assert (child_of fs c j) as Hcj by (exists dir; split; [done|by apply elem_children in Hbj as [_ ?]]).
  assert (fs_ok (removed fs p d c)) as Hok1 by (by eapply fs_ok_remove).
  destruct (removed_keeps fs p d c j e) as (e1 & He1 & Hu1 & _ & Hn1); [done..|].
  assert (orphan (removed fs p d c) j) as Ho.
  { intros k Hk. pose proof Hk as (y & Hy & Hyj). destruct (child_of_removed _ _ _ _ _ _ Hok Hp Hpc Hk) as [Hk' _].
    assert (k = c) as -> by (by eapply (fo_parent _ Hok)).
    destruct (removed_lookup _ _ _ _ _ _ Hy) as [[_ ->]|[(? & _)|(? & _)]]; [by apply not_elem_of_nil in Hyj|done..]. }
  assert (has_root (removed fs p d c)) as Hroot.
  { apply (stays_root fs); [by eapply stays_removed|by apply (has_root_dir fs p d)]. }
  destruct (ramfs_history_ok _ _ Hok1 Hr) as [_ Hstay].
  destruct (Hstay j e1) as [(e2 & He2 & Hu2 & _ & Hn2) Ho2]; [done|congruence|done..|]. split; [|done].
  exists e2. split_and!; congruence.
Qed.

(** ** Contents *)

(** The contents of a file after [bytes] are written at [off]: what was before
    and after stays, a gap is filled with zeros. *)
Definition overlay (off : Z) (bytes d : list Z) : list Z :=
  take (Z.to_nat off) (extend_to off d) ++ bytes ++ drop (Z.to_nat (off + len bytes)) d.

Lemma live_entry_at fs ino e :
  fs_ok fs → 1 ≤ ino → fs !! slot_of ino = Some e → in_use e = true → live_entry fs ino = Ret (Some e).
Proof.
  intros Hok Hi He Hu. unfold live_entry. pose proof (live_lookup _ _ _ Hok He).
  rewrite (proj2 (Z.leb_gt _ _)) by (unfold slot_of, FILE_INO_OFFSET in *; lia). unfold entry. rewrite He. cbn [mbind outcome_bind]. by rewrite Hu.
Qed.

Lemma overlay_eq off bytes d :
  0 ≤ off →
  take (Z.to_nat off) (extend_to (off + len bytes) d) ++ bytes ++ drop (Z.to_nat (off + len bytes)) (extend_to (off + len bytes) d)
  = overlay off bytes d.
Proof.
  intros Ho. unfold overlay, extend_to. assert (0 ≤ len bytes) as Hb by (unfold len; lia). f_equal; [|f_equal].
  - destruct (Z.ltb_spec (len d) (off + len bytes)) as [H1|H1], (Z.ltb_spec (len d) off) as [H2|H2]; try done; [| |lia].
    + unfold len in *. rewrite !take_app, !take_replicate. do 2 f_equal. lia.
    + unfold len in *. rewrite take_app_le by lia. done.
  - destruct (Z.ltb_spec (len d) (off + len bytes)) as [H1|H1]; [|done]. unfold len in *.
    rewrite !drop_ge; [done|lia|]. rewrite length_app, length_replicate. lia.
Qed.

(** [write] and [read]. A write to a live file that ends within 2048 bytes
    stores exactly these bytes at its offset, filling a gap with zeros, and
    changes no other entry; a later read of any range returns the bytes of the
    new contents there; a write that ends beyond the limit changes nothing. *)
Theorem write_then_read fs ino e off bytes off' m :
  fs_ok fs → 1 ≤ ino → fs !! slot_of ino = Some e → in_use e = true →
  is_uint 64 off → off + len bytes < 2 ^ 64 → 0 ≤ off' → 0 ≤ m →
  if off + len bytes <=? MAX_FILE_SIZE then
    let d := overlay off bytes (data e) in
    let fs' := <[slot_of ino := set_data d e]> fs in
    write fs ino off bytes = Ret (Ok (len bytes), fs') ∧
    read fs' ino off' m = Ret (Ok (take (Z.to_nat m) (drop (Z.to_nat off') d)), fs') ∧
    read fs' ino off (len bytes) = Ret (Ok bytes, fs')
  else write fs ino off bytes = Ret (Err FileTooLarge, fs).
Proof.
  intros Hok Hi He Hu Ho Hov Ho' Hm. unfold is_uint in Ho. assert (0 ≤ len bytes) as Hb by (unfold len; lia).
  assert ((ino =? ROOT_INO) = false) as Hroot by (apply Z.eqb_neq; unfold ROOT_INO; lia).
  assert (write fs ino off bytes = if off + len bytes <=? MAX_FILE_SIZE
    then Ret (Ok (len bytes), <[slot_of ino := set_data (overlay off bytes (data e)) e]> fs) else Ret (Err FileTooLarge, fs)) as Hw.
  { unfold write. rewrite Hroot, (live_entry_at _ _ e) by done. cbn [mbind outcome_bind]. rewrite add64_ok by (unfold is_uint; lia).
    cbn [mbind outcome_bind]. rewrite Z.leb_antisym. destruct (MAX_FILE_SIZE <? _); [done|]. cbn [negb].
    pose proof (len_extend_to (off + len bytes) (data e)). rewrite copy_into_ok by lia. cbn [mbind outcome_bind].
    rewrite (update_ok _ _ e) by done. cbn [mbind outcome_bind]. by rewrite overlay_eq by lia. }
  destruct (off + len bytes <=? MAX_FILE_SIZE) eqn:Hsz; [|done]. apply Z.leb_le in Hsz. cbv zeta. set (d := overlay off bytes (data e)) in *. set (fs' := <[slot_of ino := set_data d e]> fs) in *.
  pose proof (set_data_safe True tt fs (slot_of ino) e d Hok He Hu) as Hok'.
  assert (len d = Z.max (off + len bytes) (len (data e))) as Hld.
  { unfold d, overlay. pose proof (len_extend_to off (data e)). unfold len in *. rewrite !length_app, length_take, length_drop. lia. }
  destruct Hok' as [Hok' _]; [pose proof (eo_data _ (fo_entry _ Hok _ _ He)); lia|].
  assert (fs' !! slot_of ino = Some (set_data d e)) as He' by (apply list_lookup_insert_eq; by eapply lookup_lt_Some).
  assert (∀ o k, 0 ≤ o → 0 ≤ k → read fs' ino o k = Ret (Ok (take (Z.to_nat k) (drop (Z.to_nat o) d)), fs')) as Hread.
  { intros o k Hoo Hk. unfold read. rewrite Hroot, (live_entry_at _ _ (set_data d e)) by done. cbn [mbind outcome_bind data set_data].
    destruct (Z.leb_spec (len d) o) as [Hge|Hlt]; [rewrite drop_ge by (unfold len in *; lia); by rewrite take_nil|].
    rewrite slice_ok by (unfold len in *; lia). cbn [mbind outcome_bind]. do 3 f_equal.
    destruct (Z.le_ge_cases k (len d - o)); [f_equal; lia|]. rewrite !take_ge; [done|..]; rewrite length_drop; unfold len in *; lia. }
  split; [exact Hw|]. split; [by apply Hread|]. rewrite Hread by lia. do 3 f_equal. unfold d, overlay.
  pose proof (len_extend_to off (data e)). unfold len in *.
  rewrite drop_app_length' by (rewrite length_take; lia). rewrite take_app_length'; [done|lia].
Qed.

(** ** Creating and removing *)

Lemma position_map {A} (f : A → bool) l : position f l = position id (f <$> l).
Proof. induction l as [|x l IH]; [done|]. simpl. by rewrite IH. Qed.

Lemma position_insert {A} (f : A → bool) l i x y : l !! i = Some x → f y = f x → position f (<[i := y]> l) = position f l.
Proof.
  intros Hi Hf. rewrite (position_map f (<[i := y]> l)), (position_map f l). f_equal. rewrite list_fmap_insert, Hf.
  apply list_insert_id. by rewrite list_lookup_fmap, Hi.
Qed.

Lemma root_idx_with_entry fs p d slot e0 e :
  fs !! p = Some d → fs !! slot = Some e0 → in_use e0 = false → is_dir e = false → in_use d = true →
  get_root_dir_idx (with_entry fs p d slot e) = get_root_dir_idx fs.
Proof.
  intros Hp Hs Hf Hd Hu. unfold get_root_dir_idx, with_entry.
  assert (<[slot := e]> fs !! p = Some d) as Hp' by (rewrite list_lookup_insert_ne; [done|congruence]).
  rewrite (position_insert is_root _ p d _ Hp') by done. apply (position_insert _ _ _ e0); [done|].
  unfold is_root. by rewrite Hd, Hf, andb_false_r.
Qed.

Lemma parent_for_new_at fs ino p d err :
  fs_ok fs → fs !! p = Some d → in_use d = true → is_dir d = true → dir_inode fs ino p →
  parent_for_new fs ino err = Ret (Ok p, fs).
Proof.
  intros Hok Hp Hu Hd [[-> Hr]| -> ]; unfold parent_for_new; [by rewrite Z.eqb_refl; unfold ensure_root_dir; rewrite Hr|].
  rewrite not_root_ino, (live_dir_at _ _ d) by done. cbn [mbind outcome_bind]. by rewrite slot_of_ino.
Qed.

Lemma filter_all {A} (P : A → Prop) `{∀ x, Decision (P x)} l : Forall P l → filter P l = l.
Proof. induction 1 as [|x l Hx _ IH]; [done|]. by rewrite filter_cons_True, IH. Qed.

(** Removing the entry just added restores the table. *)
Lemma removed_with_entry fs p d slot e :
  fs_ok fs → fs !! p = Some d → in_use d = true → fs !! slot = Some empty_entry →
  removed (with_entry fs p d slot e) p (set_children (children d ++ [(name e, slot)]) d) slot = fs.
Proof.
  intros Hok Hp Hu Hs. assert (p ≠ slot) as Hps by (intros ->; rewrite Hp in Hs; by injection Hs as ->).
  assert (filter (λ x, x.2 ≠ slot) (children d ++ [(name e, slot)]) = children d) as Hf.
  { rewrite list.filter_app, filter_cons_False by (simpl; tauto). rewrite filter_nil, app_nil_r. apply filter_all.
    rewrite list.Forall_forall. intros [b j] Hin Heq. simpl in Heq. subst j. eapply (free_orphan _ slot _ Hok Hs eq_refl p). exists d.
    split; [done|]. by apply elem_children in Hin as [_ ?]. }
  unfold removed, with_entry. cbn [children set_children]. rewrite Hf, list_insert_insert_eq.
  assert (set_children (children d) (set_children (children d ++ [(name e, slot)]) d) = d) as -> by (by destruct d).
  rewrite (list_insert_insert_ne _ p slot) by done. rewrite list_insert_insert_eq.
  rewrite (list_insert_id _ p) by done. by apply list_insert_id.
Qed.

Lemma find_child_new fs p d slot e0 e n :
  fs_ok fs → fs !! p = Some d → in_use d = true → is_dir d = true → fs !! slot = Some e0 → in_use e0 = false →
  utf8_valid n = true → cstr (name e) = n → n ∉ cstr <$> (children d).*1 →
  find_child (with_entry fs p d slot e) p n = Ret (Some slot).
Proof.
  intros Hok Hp Hu Hd Hs Hf Hn He Hnot. set (d' := set_children (children d ++ [(name e, slot)]) d).
  assert (with_entry fs p d slot e !! p = Some d') as Hp'.
  { apply list_lookup_insert_eq. rewrite length_insert. by eapply lookup_lt_Some. }
  destruct (find_child_cases (with_entry fs p d slot e) p d' n) as (r & Hr & Hc); [done..|]. rewrite Hr. do 2 f_equal.
  destruct r as [c|].
  - destruct Hc as (a & [Ha|Ha%list_elem_of_singleton]%elem_of_app & Hca); [|by injection Ha as _ ->].
    destruct Hnot. apply list_elem_of_fmap. exists a. split; [done|]. by eapply elem_children.
  - destruct Hc. simpl. rewrite !fmap_app. apply elem_of_app. right. simpl. rewrite He. left.
Qed.

(** C22: creating and removing a file. In a live directory without that name and
    with a clean free slot, [create] succeeds; the new inode is then listed by
    [readdir], reads as an empty regular file and cannot be created again; and
    [unlink] brings the file system back to exactly what it was. *)
Theorem create_unlink_roundtrip fs ino p d n slot :
  fs_ok fs → fs !! p = Some d → in_use d = true → is_dir d = true → dir_inode fs ino p →
  good_name n → valid_name n = true → find_child fs p n = Ret None →
  find_free_slot fs = Some slot → fs !! slot = Some empty_entry →
  ∃ fs1 l, create fs ino n = Ret (Ok (ino_of slot), fs1) ∧
    readdir fs1 ino = Ret (Ok (dots ino ++ l), fs1) ∧ mkDirEntry n (ino_of slot) false ∈ l ∧
    read fs1 (ino_of slot) 0 1 = Ret (Ok [], fs1) ∧
    create fs1 ino n = Ret (Err AlreadyExists, fs1) ∧
    unlink fs1 ino n = Ret (Ok tt, fs).
Proof.
  intros Hok Hp Hu Hd Hi Hg Hv Hc Hfree Hs. pose proof Hg as [Hg1 Hg2]. assert (negb (valid_name n) = false) as Hv' by (by rewrite Hv).
  pose proof (valid_name_len _ Hv') as Hl. assert (n ∉ cstr <$> (children d).*1) as Hnot.
  { destruct (find_child_cases fs p d n) as (r & Hr & Hc'); [done..|]. rewrite Hc in Hr. by injection Hr as <-. }
  set (e := fresh_file n). set (fs1 := with_entry fs p d slot e). set (d' := set_children (children d ++ [(name e, slot)]) d).
  assert (decorates id n) as Hdec by (apply decorates_id; lia). assert (cstr (name e) = n) as Hname by (apply cstr_pad; [done|lia]).
  destruct (new_entry_cases fs p d n id) as [Hnew Hsafe]; try done; [by apply (has_root_dir fs p d)|lia|]. rewrite Hfree in Hnew.
  destruct (op_safe_ret _ _ _ _ _ Hsafe Hnew) as [Hok1 _]. change (with_entry fs p d slot (id (fresh_file n))) with fs1 in *.
  assert (p ≠ slot) as Hps by (intros ->; rewrite Hp in Hs; by injection Hs as ->).
  assert (fs1 !! p = Some d') as Hp1 by (apply list_lookup_insert_eq; rewrite length_insert; by eapply lookup_lt_Some).
  assert (fs1 !! slot = Some e) as Hs1.
  { unfold fs1, with_entry. rewrite list_lookup_insert_ne by done. apply list_lookup_insert_eq. by eapply lookup_lt_Some. }
  assert (dir_inode fs1 ino p) as Hi1.
  { destruct Hi as [[-> Hr]| -> ]; [left|by right]. split; [done|]. unfold fs1. by rewrite (root_idx_with_entry _ _ _ _ empty_entry). }
  assert (find_child fs1 p n = Ret (Some slot)) as Hc1 by (by eapply find_child_new).
  destruct (list_children_ok fs1 (children d')) as (l & Hlist & Hin); [by eapply children_live|].
  exists fs1, l. split; [unfold create; rewrite Hv', (parent_for_new_at _ _ p d) by done; cbn [mbind outcome_bind]; by rewrite Hc|].
  split; [|split; [|split; [|split]]].
  - unfold readdir. destruct Hi1 as [[-> Hr]| -> ].
    + rewrite Z.eqb_refl, Hr. unfold entry. rewrite Hp1. cbn [mbind outcome_bind]. by rewrite Hlist.
    + rewrite not_root_ino, (live_dir_at _ _ d') by done. cbn [mbind outcome_bind]. by rewrite Hlist.
  - apply Hin. exists (name e), slot, e. split; [apply elem_of_app; right; left|]. split; [done|]. split; [apply from_utf8_pad; [done|apply Z.lt_le_incl, Hl]|done].
  - unfold read. rewrite not_root_ino, (live_entry_at _ _ e); [done|done|unfold ino_of, FILE_INO_OFFSET; lia|by rewrite slot_of_ino|done].
  - unfold create. rewrite Hv', (parent_for_new_at _ _ p d') by done. cbn [mbind outcome_bind]. by rewrite Hc1.
  - destruct (unlink_at fs1 ino p d' n slot) as [-> _]; [done..|]. do 2 f_equal. by apply removed_with_entry.
Qed.

(** ** Two ways to write *)

Lemma extend_twice a b d : 0 ≤ a ≤ b → extend_to b (extend_to a d) = extend_to b d.
Proof.
  intros Hab. unfold extend_to. destruct (Z.ltb_spec (len d) a) as [H1|H1]; [|done].
  assert (len (d ++ replicate (Z.to_nat (a - len d)) 0) = a) as -> by (unfold len in *; rewrite length_app, length_replicate; lia).
  rewrite (proj2 (Z.ltb_lt (len d) b)) by lia. destruct (Z.ltb_spec a b) as [H2|H2].
  - rewrite <- app_assoc, <- replicate_add. do 2 f_equal. lia.
  - do 2 f_equal. lia.
Qed.

(** the two write paths agree. On the file that [find_file] finds,
    [write_file_at], which extends the file in two steps and checks the sum of
    offset and length, computes the same result and the same table as [write]
    through the inode, for every non-empty buffer whose end does not overflow. *)
Theorem write_paths_agree fs n idx off bytes :
  fs_ok fs → find_file fs n = Some idx → bytes ≠ [] → is_uint 64 off → off + len bytes < 2 ^ 64 →
  write_file_at fs n off bytes = write fs (ino_of idx) off bytes.
Proof.
  intros Hok Hf Hne Ho Hov. unfold is_uint in Ho. assert (0 ≤ len bytes) as Hb by (unfold len; lia).
  destruct (find_file_Some _ _ _ Hf) as (e & He & Hu & _). unfold write_file_at, write.
  rewrite bool_decide_false by done. rewrite (proj2 (Z.ltb_ge u64_max _)) by (unfold u64_max; lia).
  rewrite not_root_ino, (live_entry_at _ _ e); [|done|unfold ino_of, FILE_INO_OFFSET; lia|by rewrite slot_of_ino|done].
  cbn [mbind outcome_bind]. rewrite add64_ok by (unfold is_uint; lia). cbn [mbind outcome_bind]. rewrite slot_of_ino, Hf.
  destruct (MAX_FILE_SIZE <? off + len bytes); [done|]. unfold entry. rewrite He. cbn [mbind outcome_bind].
  by rewrite extend_twice by lia.
Qed.

(** ** Panics *)

(** opening a new file with a name longer than 64 bytes panics: [open] does
    not check the length that [create] checks, and the copy into the name array
    is out of range. *)
Theorem open_long_name_panics fs path flags :
  fs_ok fs → OpenFlags_contains flags OpenFlags_CREATE = true →
  MAX_NAME_LEN < len (trim_start_matches SLASH path) →
  find_file fs (trim_start_matches SLASH path) = None → is_Some (find_free_slot fs) →
  open fs path flags = Panic.
Proof.
  intros Hok Hc Hl Hf [slot Hs]. unfold open. set (n := trim_start_matches SLASH path) in *.
  rewrite bool_decide_false by (intros ->; done). rewrite Hf, Hc, Hs. destruct (free_slot _ _ Hs) as (e0 & He0 & Hf0).
  rewrite (init_slot_cases _ _ e0) by done. by rewrite (proj2 (Z.leb_gt _ _) Hl).
Qed.

(** A write whose end overflows 64 bits panics in both build profiles, unless
    the buffer itself is larger than a file may be. *)
Lemma write_overflow_panics fs ino e off bytes :
  fs_ok fs → 1 ≤ ino → fs !! slot_of ino = Some e → in_use e = true → is_uint 64 off →
  len bytes ≤ MAX_FILE_SIZE → 2 ^ 64 ≤ off + len bytes → write fs ino off bytes = Panic.
Proof.
  intros Hok Hi He Hu Ho Hl Hov. unfold is_uint, MAX_FILE_SIZE in *. unfold write.
  assert ((ino =? ROOT_INO) = false) as -> by (apply Z.eqb_neq; unfold ROOT_INO; lia).
  rewrite (live_entry_at _ _ e) by done. cbn [mbind outcome_bind].
  destruct (add64 off (len bytes)) as [x|] eqn:Hx; [|done]. cbn [mbind outcome_bind]. apply arith_wrap in Hx. unfold wrap in Hx.
  assert (x = off + len bytes - 2 ^ 64) as -> by (rewrite Hx; symmetry; apply (Zmod_unique _ _ 1); lia).
  rewrite (proj2 (Z.ltb_ge _ _)) by (unfold MAX_FILE_SIZE; lia). unfold copy_into.
  rewrite (proj2 (Z.leb_gt off _)) by lia. by rewrite andb_false_r.
Qed.

End histories.

(** ** Instances on small file systems *)

Definition state_of {A} (r : outcome (A * RamFs)) : RamFs := match r with Ret (_, fs) => fs | Panic => [] end.

(** The root alone, and a directory [d] with a file [x] in it. *)
Definition root_fs : RamFs := state_of (open (H := dev_profile) RamFs_new (str "/") OpenFlags_READ).
Definition tree_fs : RamFs :=
  state_of (create (H := dev_profile) (state_of (mkdir (H := dev_profile) root_fs ROOT_INO (str "d"))) 2 (str "x")).

Lemma good_ascii n : forallb (λ b, (0 <? b) && (b <? 0x80)) n = true → good_name n.
Proof.
  induction n as [|b n IH]; [split; [done|apply not_elem_of_nil]|]. simpl. intros [[Hb1 Hb2]%andb_true_iff Hn]%andb_true_iff.
  destruct (IH Hn) as [Hu H0]. split; [simpl; by rewrite Hb2|]. apply not_elem_of_cons. split; [|done]. apply Z.ltb_lt in Hb1. lia.
Qed.

Lemma root_fs_step : ramfs_step (H := dev_profile) RamFs_new root_fs.
Proof. by apply (step_open (H := dev_profile) _ (str "/") OpenFlags_READ (Ok ROOT_INO)); [apply good_ascii|vm_compute]. Qed.

Lemma root_fs_ok : fs_ok root_fs.
Proof. by destruct (ramfs_step_ok (H := dev_profile) _ _ fs_ok_new root_fs_step). Qed.

Lemma tree_fs_ok : fs_ok tree_fs.
Proof.
  set (fs1 := state_of (mkdir (H := dev_profile) root_fs ROOT_INO (str "d"))).
  assert (fs_ok fs1) as Hok1.
  { eapply (ramfs_step_ok (H := dev_profile) root_fs); [apply root_fs_ok|].
    by apply (step_mkdir (H := dev_profile) _ ROOT_INO (str "d") (Ok 2)); [|apply good_ascii|vm_compute]. }
  eapply (ramfs_step_ok (H := dev_profile) fs1); [done|].
  by apply (step_create (H := dev_profile) _ 2 (str "x") (Ok 3)); [|apply good_ascii|vm_compute].
Qed.


Lemma unlink_directory_leaks_witness :
  ∃ e, state_of (unlink tree_fs ROOT_INO (str "d")) !! 2%nat = Some e ∧ in_use e = true.
Proof.
  destruct (unlink_directory_leaks (H := dev_profile) tree_fs ROOT_INO 0 (default empty_entry (tree_fs !! 0%nat)) (str "d") 1
    (default empty_entry (tree_fs !! 1%nat)) (pad_name (str "x")) 2 (Ok tt) (state_of (unlink tree_fs ROOT_INO (str "d")))
    (state_of (unlink tree_fs ROOT_INO (str "d"))) tree_fs_ok) as (_ & (e & He & Hu & _) & _);
    [reflexivity..|by left|reflexivity|reflexivity|reflexivity|left|done|reflexivity|apply rtc_refl|].
  exists e. split; [exact He|exact Hu].
Defined.

Lemma write_then_read_witness :
  read (<[2%nat := set_data [0; 0; 7; 8] (fresh_file (str "x"))]> tree_fs) 3 2 2
  = Ret (Ok [7; 8], <[2%nat := set_data [0; 0; 7; 8] (fresh_file (str "x"))]> tree_fs).
Proof.
  assert (tree_fs !! slot_of 3 = Some (fresh_file (str "x"))) as Hx by reflexivity.
  pose proof (write_then_read (H := dev_profile) tree_fs 3 (fresh_file (str "x")) 2 [7; 8] 2 2 tree_fs_ok ltac:(lia) Hx eq_refl
    ltac:(done) ltac:(done) ltac:(lia) ltac:(lia)) as Hw. cbv zeta in Hw. exact (proj2 (proj2 Hw)).
Defined.

Lemma create_unlink_roundtrip_witness :
  ∃ fs1, create (H := dev_profile) root_fs ROOT_INO (str "a") = Ret (Ok 2, fs1) ∧ unlink fs1 ROOT_INO (str "a") = Ret (Ok tt, root_fs).
Proof.
  destruct (create_unlink_roundtrip (H := dev_profile) root_fs ROOT_INO 0 (default empty_entry (root_fs !! 0%nat)) (str "a") 1
    root_fs_ok) as (fs1 & l & Hc & _ & _ & _ & _ & Hu); [reflexivity|reflexivity|reflexivity|by left|by apply good_ascii|reflexivity..|].
  exists fs1. split; [exact Hc|exact Hu].
Defined.

Lemma write_paths_agree_witness :
  write_file_at tree_fs (str "x") 5 [1] = write (H := dev_profile) tree_fs 3 5 [1].
Proof.
  apply (write_paths_agree (H := dev_profile) tree_fs (str "x") 2 5 [1] tree_fs_ok eq_refl ltac:(done) ltac:(done) ltac:(done)).
Defined.

Lemma open_long_name_panics_witness : open (H := release_profile) root_fs (replicate 65 97) 7 = Panic.
Proof.
  apply (open_long_name_panics (H := release_profile) root_fs (replicate 65 97) 7 root_fs_ok eq_refl eq_refl eq_refl). by exists 1%nat.
Defined.
