(* ===== verification/FsSyscalls.v ===== *)
(** * The file system calls (kernel/src/syscall/mod.rs)

    The calls on paths and file descriptors, on the state they share: the
    current task, the bytes of user memory, the mount table, the state of the
    file systems and the buffers of the pipes. An [Arc] to a pipe end is the
    location of the buffer. The file systems are a parameter, any instance of
    the class [FileSystem]; a task switch inside a call is not modelled. *)

From stdpp Require Import strings.
From S2P Require Import Prelude RustStr Handle Pipe Vma Vfs.

(** ** Error codes and limits *)

Definition Error_InvalidArgument : Z := -1.
Definition Error_NotFound : Z := -2.
Definition Error_PermissionDenied : Z := -3.
Definition Error_OutOfMemory : Z := -4.
Definition Error_Busy : Z := -5.
Definition Error_BadPointer : Z := -9.
Definition Error_NotSupported : Z := -11.
Definition Error_AlreadyExists : Z := -12.

Definition MAX_MSG_SIZE : Z := 4096.
Definition FD_STDIN : Z := 0.
Definition FD_STDOUT : Z := 1.
Definition FD_FIRST_USABLE : Z := 2.
Definition FD_LIMIT : Z := 1024.
Definition SEEK_SET : Z := 0.
Definition SEEK_CUR : Z := 1.
Definition SEEK_END : Z := 2.
Definition ACCESS_F_OK : Z := 0.
Definition ACCESS_R_OK : Z := 1.
Definition ACCESS_W_OK : Z := 2.
Definition ACCESS_X_OK : Z := 4.
Definition DIRENT_TYPE_FILE : Z := 8.
Definition DIRENT_TYPE_DIR : Z := 4.
Definition DIRENT_HEADER_SIZE : Z := 19.

(** ** State *)

Record FdEntry : Type := mkFdEntry {
  fd_path : list Z;
  fd_ino : Z;
  fd_offset : Z;
}.

Record Task : Type := mkTask {
  handle_table : HandleTable;
  fd_table : gmap Z FdEntry;
  cwd : list Z;
  umask : Z;
}.

Definition set_fds (t : Task) (m : gmap Z FdEntry) : Task := mkTask (handle_table t) m (cwd t) (umask t).
Definition set_handles (t : Task) (h : HandleTable) : Task := mkTask h (fd_table t) (cwd t) (umask t).
Definition set_cwd (t : Task) (c : list Z) : Task := mkTask (handle_table t) (fd_table t) c (umask t).
Definition set_umask (t : Task) (u : Z) : Task := mkTask (handle_table t) (fd_table t) (cwd t) u.

Record Kernel (I S : Type) : Type := mkKernel {
  current : option Task;
  user_mem : Z → Z;
  mounts : list (MountPoint I);
  fs_state : S;
  pipes : gmap positive PipeBuffer;
  console : list Z;
}.
Arguments mkKernel {I S} _ _ _ _ _ _.
Arguments current {I S} _.
Arguments user_mem {I S} _ _.
Arguments mounts {I S} _.
Arguments fs_state {I S} _.
Arguments pipes {I S} _.
Arguments console {I S} _.

Section syscalls.
Context {I W : Type} `{FileSystem I W} `{BuildProfile}.
Notation K := (Kernel I W).
Implicit Types k : Kernel I W.

Definition with_task k (t : Task) : K := mkKernel (Some t) (user_mem k) (mounts k) (fs_state k) (pipes k) (console k).
Definition with_mem k (m : Z → Z) : K := mkKernel (current k) m (mounts k) (fs_state k) (pipes k) (console k).
Definition with_fs k (s : W) : K := mkKernel (current k) (user_mem k) (mounts k) s (pipes k) (console k).
Definition with_pipes k (p : gmap positive PipeBuffer) : K := mkKernel (current k) (user_mem k) (mounts k) (fs_state k) p (console k).
Definition with_console k (c : list Z) : K := mkKernel (current k) (user_mem k) (mounts k) (fs_state k) (pipes k) c.

(** ** User memory *)

(** The checks common to both directions. *)
Definition user_range (ptr n : Z) : bool :=
  negb (ptr =? 0) && negb (n =? 0) && (n <=? MAX_MSG_SIZE) && (ptr <? USER_SPACE_MAX) &&
  (saturating_add 64 ptr n <=? USER_SPACE_MAX).

Definition copy_from_user k (src n : Z) : option (list Z) :=
  if user_range src n then Some (map (λ i, user_mem k (src + i)) (seqZ 0 n)) else None.

Definition poke (m : Z → Z) (dst : Z) (bytes : list Z) : Z → Z :=
  λ a, if (dst <=? a) && (a <? dst + len bytes) then default 0 (bytes !! Z.to_nat (a - dst)) else m a.

Definition copy_to_user k (dst : Z) (bytes : list Z) : option K :=
  if user_range dst (len bytes) then Some (with_mem k (poke (user_mem k) dst bytes)) else None.

(** A path argument: copied in and checked for UTF-8. *)
Definition user_str k (ptr n : Z) : result (list Z) Z :=
  match copy_from_user k ptr n with
  | None => Err Error_BadPointer
  | Some bytes => match from_utf8 bytes with None => Err Error_InvalidArgument | Some s => Ok s end
  end.

(** ** Paths *)

Definition resolve_path k (path : list Z) : list Z :=
  if starts_with path [SLASH] then path
  else
    let c := match current k with Some t => cwd t | None => str "/" end in
    if bool_decide (path = []) then c
    else if ends_with_byte c SLASH then c ++ path else c ++ [SLASH] ++ path.

Definition split_parent_name (path : list Z) : option (list Z * list Z) :=
  let trimmed := trim_end_matches SLASH path in
  match rfind SLASH trimmed with
  | None => None
  | Some pos =>
      let parent := if (pos =? 0)%nat then str "/" else take pos trimmed in
      let name := drop (pos + 1) trimmed in
      if bool_decide (name = []) then None else Some (parent, name)
  end.

(** A call of a file system method. *)
Definition fs_call {A} k (f : W → outcome (result A FsError * W)) : outcome (result A FsError * K) :=
  '(r, s) ← f (fs_state k); Ret (r, with_fs k s).

(** ** File descriptors *)

(** The search for a free descriptor from [fd] on; the loop leaves the range
    within [FD_LIMIT] passes. *)
Fixpoint fd_loop (fuel : nat) (m : gmap Z FdEntry) (fd : Z) : option Z :=
  match fuel with
  | O => None
  | S fuel =>
      match m !! fd with
      | None => Some fd
      | Some _ => if FD_LIMIT <=? fd + 1 then None else fd_loop fuel m (fd + 1)
      end
  end.

Definition free_fd (m : gmap Z FdEntry) (start : Z) : option Z := fd_loop (Z.to_nat FD_LIMIT) m start.

(** [with_current_task_mut] around the insertion of a new entry. *)
Definition install_fd k (e : FdEntry) : Z * K :=
  match current k with
  | None => (Error_NotFound, k)
  | Some t =>
      match free_fd (fd_table t) FD_FIRST_USABLE with
      | None => (Error_OutOfMemory, k)
      | Some fd => (fd, with_task k (set_fds t (<[fd := e]> (fd_table t))))
      end
  end.

(** The descriptors of a FIFO: a reader, with a writer if also opened for
    writing, or a writer alone. *)
Definition open_fifo k (full_path : list Z) (open_flags : OpenFlags) (buf : positive) : outcome (Z * K) :=
  let is_read := OpenFlags_contains open_flags OpenFlags_READ in
  let is_write := OpenFlags_contains open_flags OpenFlags_WRITE in
  let label := str "<fifo:" ++ full_path ++ str ">" in
  match current k with
  | None => Ret (Error_NotFound, k)
  | Some t =>
      match free_fd (fd_table t) FD_FIRST_USABLE with
      | None => Ret (Error_OutOfMemory, k)
      | Some fd =>
          if is_read then
            '(reader, h) ← HandleTable_insert (handle_table t) (PipeReaderObj buf) Rights_READ;
            h ← (if is_write then '(_, h) ← HandleTable_insert h (PipeWriterObj buf) Rights_WRITE; Ret h else Ret h);
            Ret (fd, with_task k (set_fds (set_handles t h) (<[fd := mkFdEntry label (Handle_as_u64 reader) 0]> (fd_table t))))
          else if is_write then
            '(writer, h) ← HandleTable_insert (handle_table t) (PipeWriterObj buf) Rights_WRITE;
            Ret (fd, with_task k (set_fds (set_handles t h) (<[fd := mkFdEntry label (Handle_as_u64 writer) 0]> (fd_table t))))
          else Ret (Error_OutOfMemory, k)
      end
  end.

Definition sys_fs_open k (name_ptr name_len flags : Z) : outcome (Z * K) :=
  if 1 <? flags then Ret (Error_InvalidArgument, k)
  else
    match user_str k name_ptr name_len with
    | Err e => Ret (e, k)
    | Ok filename =>
        let full_path := resolve_path k filename in
        '(fs, rel_path) ← resolve_fs (mounts k) full_path;
        let open_flags := if flags =? 0 then OpenFlags_READ else OpenFlags_from_raw 7 in
        '(r, k) ← fs_call k (fs_open fs rel_path open_flags);
        match r with
        | Err _ => Ret (Error_NotFound, k)
        | Ok ino =>
            '(meta, k) ← fs_call k (fs_stat fs ino);
            match meta with
            | Ok meta =>
                if im_is_fifo meta then
                  '(_, k) ← fs_call k (fs_close fs ino);
                  '(b, k) ← fs_call k (fs_get_fifo_buffer fs ino);
                  match b with
                  | Err _ => Ret (Error_NotSupported, k)
                  | Ok buf => open_fifo k full_path open_flags buf
                  end
                else Ret (install_fd k (mkFdEntry full_path ino 0))
            | Err _ => Ret (install_fd k (mkFdEntry full_path ino 0))
            end
        end
    end.

(** The entry of a descriptor of the current task. *)
Definition lookup_fd k (fd : Z) : option (Task * FdEntry) :=
  match current k with
  | None => None
  | Some t => match fd_table t !! fd with Some e => Some (t, e) | None => None end
  end.

(** [if let Some(entry) = task.fd_table.get_mut(&fd) { entry.offset = f(entry.offset) }]. *)
Definition update_offset k (fd : Z) (f : Z → outcome Z) : outcome K :=
  match lookup_fd k fd with
  | None => Ret k
  | Some (t, e) => o ← f (fd_offset e); Ret (with_task k (set_fds t (<[fd := mkFdEntry (fd_path e) (fd_ino e) o]> (fd_table t))))
  end.

Definition is_pipe_path (path : list Z) : bool := starts_with path (str "<pipe:") || starts_with path (str "<fifo:").

Definition pipe_read k (t : Task) (e : FdEntry) (buf_ptr buf_len : Z) : outcome (Z * K) :=
  let read_len := Z.min buf_len MAX_MSG_SIZE in
  match HandleTable_get (handle_table t) (Handle_from_raw (fd_ino e)) with
  | Some (PipeReaderObj l) =>
      match pipes k !! l with
      | None => Ret (Error_NotFound, k)
      | Some p =>
          let '(n, buf, p) := PipeReader_read p (replicate (Z.to_nat read_len) 0) in
          let k := with_pipes k (<[l := p]> (pipes k)) in
          if 0 <? n then
            bytes ← slice buf 0 n;
            match copy_to_user k buf_ptr bytes with
            | None => Ret (Error_BadPointer, k)
            | Some k => Ret (n, k)
            end
          else Ret (n, k)
      end
  | _ => Ret (Error_NotFound, k)
  end.

Definition sys_fs_read k (fd buf_ptr buf_len : Z) : outcome (Z * K) :=
  if (fd =? FD_STDIN) || (fd =? FD_STDOUT) then Ret (Error_InvalidArgument, k)
  else
    match lookup_fd k fd with
    | None => Ret (Error_NotFound, k)
    | Some (t, e) =>
        if is_pipe_path (fd_path e) then pipe_read k t e buf_ptr buf_len
        else
          '(fs, _) ← resolve_fs (mounts k) (fd_path e);
          let read_len := Z.min buf_len MAX_MSG_SIZE in
          '(r, k) ← fs_call k (fs_read fs (fd_ino e) (fd_offset e) read_len);
          match r with
          | Err _ => Ret (Error_NotFound, k)
          | Ok bytes =>
              match copy_to_user k buf_ptr bytes with
              | None => Ret (Error_BadPointer, k)
              | Some k => k ← update_offset k fd (λ o, add64 o (len bytes)); Ret (len bytes, k)
              end
          end
    end.

Definition pipe_write k (t : Task) (e : FdEntry) (bytes : list Z) : outcome (Z * K) :=
  match HandleTable_get (handle_table t) (Handle_from_raw (fd_ino e)) with
  | Some (PipeWriterObj l) =>
      match pipes k !! l with
      | None => Ret (Error_NotFound, k)
      | Some p =>
          '(r, p) ← PipeWriter_write p bytes;
          let k := with_pipes k (<[l := p]> (pipes k)) in
          Ret (match r with Ok n => n | Err epipe => epipe end, k)
      end
  | _ => Ret (Error_NotFound, k)
  end.

Definition sys_fs_write k (fd data_ptr data_len : Z) : outcome (Z * K) :=
  if fd =? FD_STDOUT then
    match copy_from_user k data_ptr data_len with
    | None => Ret (Error_BadPointer, k)
    | Some msg => Ret (data_len, with_console k (console k ++ msg))
    end
  else if fd =? FD_STDIN then Ret (Error_InvalidArgument, k)
  else
    match copy_from_user k data_ptr data_len with
    | None => Ret (Error_BadPointer, k)
    | Some bytes =>
        match lookup_fd k fd with
        | None => Ret (Error_NotFound, k)
        | Some (t, e) =>
            if is_pipe_path (fd_path e) then pipe_write k t e bytes
            else
              '(fs, _) ← resolve_fs (mounts k) (fd_path e);
              '(r, k) ← fs_call k (fs_write fs (fd_ino e) (fd_offset e) bytes);
              match r with
              | Err _ => Ret (Error_InvalidArgument, k)
              | Ok written => k ← update_offset k fd (λ o, add64 o written); Ret (written, k)
              end
        end
    end.

Definition sys_fs_close k (fd : Z) : outcome (Z * K) :=
  if fd <? FD_FIRST_USABLE then Ret (Error_InvalidArgument, k)
  else
    match lookup_fd k fd with
    | None => Ret (Error_NotFound, k)
    | Some (t, e) =>
        let k := with_task k (set_fds t (delete fd (fd_table t))) in
        '(fs, _) ← resolve_fs (mounts k) (fd_path e);
        '(_, k) ← fs_call k (fs_close fs (fd_ino e));
        Ret (0, k)
    end.

(** The two's complement value of a 64-bit word. *)
Definition as_i64 (x : Z) : Z := if x <? 2 ^ 63 then x else x - 2 ^ 64.

(** [-x] on [i64], which overflows at the smallest value. *)
Definition neg_i64 (x : Z) : outcome Z :=
  if x =? - 2 ^ 63 then (if overflow_checks then Panic else Ret x) else Ret (- x).

Definition sys_fs_seek k (fd offset_raw whence : Z) : outcome (Z * K) :=
  if (fd =? FD_STDIN) || (fd =? FD_STDOUT) then Ret (Error_InvalidArgument, k)
  else
    let offset := as_i64 offset_raw in
    match lookup_fd k fd with
    | None => Ret (Error_NotFound, k)
    | Some (t, e) =>
        '(fs, _) ← resolve_fs (mounts k) (fd_path e);
        '(meta, k) ← fs_call k (fs_stat fs (fd_ino e));
        match meta with
        | Err _ => Ret (Error_NotFound, k)
        | Ok meta =>
            new_offset ←
              (if whence =? SEEK_SET then Ret (if offset <? 0 then None else Some offset)
               else if whence =? SEEK_CUR then
                 if 0 <=? offset then Ret (Some (saturating_add 64 (fd_offset e) offset))
                 else abs ← neg_i64 offset; Ret (Some (saturating_sub (fd_offset e) (cast 64 abs)))
               else if whence =? SEEK_END then
                 if 0 <=? offset then Ret (Some (im_size meta))
                 else abs ← neg_i64 offset; Ret (Some (saturating_sub (im_size meta) (cast 64 abs)))
               else Ret None);
            match new_offset with
            | None => Ret (Error_InvalidArgument, k)
            | Some o => k ← update_offset k fd (λ _, Ret o); Ret (as_i64 o, k)
            end
        end
    end.

(** [dup2] copies the entry, offset included. *)
Definition sys_dup2 k (old_fd new_fd : Z) : outcome (Z * K) :=
  if old_fd =? new_fd then
    if old_fd <? FD_FIRST_USABLE then Ret (Error_InvalidArgument, k)
    else match lookup_fd k old_fd with Some _ => Ret (as_i64 new_fd, k) | None => Ret (Error_NotFound, k) end
  else if (old_fd <? FD_FIRST_USABLE) || (new_fd <? FD_FIRST_USABLE) then Ret (Error_InvalidArgument, k)
  else if (FD_LIMIT <=? old_fd) || (FD_LIMIT <=? new_fd) then Ret (Error_InvalidArgument, k)
  else
    match lookup_fd k old_fd with
    | None => Ret (Error_NotFound, k)
    | Some (t, e) => Ret (new_fd, with_task k (set_fds t (<[new_fd := e]> (delete new_fd (fd_table t)))))
    end.

Definition u64_le_bytes (x : Z) : list Z := map (λ i, Z.land (Z.shiftr x (8 * i)) 0xFF) (seqZ 0 8).
Definition u32_le_bytes (x : Z) : list Z := map (λ i, Z.land (Z.shiftr x (8 * i)) 0xFF) (seqZ 0 4).
Definition u16_le_bytes (x : Z) : list Z := map (λ i, Z.land (Z.shiftr x (8 * i)) 0xFF) (seqZ 0 2).

Definition sys_pipe k (fds_ptr : Z) : outcome (Z * K) :=
  if (fds_ptr =? 0) || (USER_SPACE_MAX <=? fds_ptr) then Ret (Error_BadPointer, k)
  else if USER_SPACE_MAX <? saturating_add 64 fds_ptr 16 then Ret (Error_BadPointer, k)
  else
    match current k with
    | None => Ret (Error_NotFound, k)
    | Some t =>
        let l := fresh (dom (pipes k)) in
        let k := with_pipes k (<[l := create_pipe]> (pipes k)) in
        '(read_handle, h) ← HandleTable_insert (handle_table t) (PipeReaderObj l) Rights_READ;
        '(write_handle, h) ← HandleTable_insert h (PipeWriterObj l) Rights_WRITE;
        let t := set_handles t h in
        match free_fd (fd_table t) FD_FIRST_USABLE with
        | None => Ret (Error_OutOfMemory, with_task k t)
        | Some read_fd =>
            let t := set_fds t (<[read_fd := mkFdEntry (str "<pipe:r>") (Handle_as_u64 read_handle) 0]> (fd_table t)) in
            match free_fd (fd_table t) (read_fd + 1) with
            | None => Ret (Error_OutOfMemory, with_task k t)
            | Some write_fd =>
                let t := set_fds t (<[write_fd := mkFdEntry (str "<pipe:w>") (Handle_as_u64 write_handle) 0]> (fd_table t)) in
                let k := with_task k t in
                match copy_to_user k fds_ptr (u64_le_bytes read_fd ++ u64_le_bytes write_fd) with
                | None => Ret (Error_BadPointer, k)
                | Some k => Ret (0, k)
                end
            end
        end
    end.

(** ** Working directory and mask *)

Definition sys_chdir k (path_ptr path_len : Z) : outcome (Z * K) :=
  match user_str k path_ptr path_len with
  | Err e => Ret (e, k)
  | Ok path =>
      let full_path := resolve_path k path in
      '(fs, rel) ← resolve_fs (mounts k) full_path;
      '(r, k) ← fs_call k (fs_open fs rel OpenFlags_READ);
      match r with
      | Err _ => Ret (Error_NotFound, k)
      | Ok ino =>
          '(st, k) ← fs_call k (fs_stat fs ino);
          '(_, k) ← fs_call k (fs_close fs ino);
          match st with
          | Err _ => Ret (Error_NotFound, k)
          | Ok meta =>
              if negb (im_is_dir meta) then Ret (Error_InvalidArgument, k)
              else match current k with Some t => Ret (0, with_task k (set_cwd t full_path)) | None => Ret (Error_NotFound, k) end
          end
      end
  end.

Definition sys_getcwd k (buf_ptr buf_len : Z) : outcome (Z * K) :=
  match current k with
  | None => Ret (Error_NotFound, k)
  | Some t =>
      if buf_len <? len (cwd t) then Ret (Error_InvalidArgument, k)
      else
        match copy_to_user k buf_ptr (cwd t) with
        | None => Ret (Error_BadPointer, k)
        | Some k => Ret (len (cwd t), k)
        end
  end.

Definition sys_umask k (mask : Z) : outcome (Z * K) :=
  match current k with
  | None => Ret (Error_NotFound, k)
  | Some t => Ret (umask t, with_task k (set_umask t (Z.land mask 0x1FF)))
  end.

(** ** Calls on a name in its parent directory *)

(** The common frame: resolve the path, open the parent directory, run [body]
    on it, close it, and map an error with [code]. *)
Definition in_parent {A} k (path_ptr path_len : Z)
    (body : I → Z → list Z → W → outcome (result A FsError * W)) (code : FsError → Z) : outcome (Z * K) :=
  match user_str k path_ptr path_len with
  | Err e => Ret (e, k)
  | Ok path =>
      match split_parent_name (resolve_path k path) with
      | None => Ret (Error_InvalidArgument, k)
      | Some (parent, name) =>
          '(fs, rel_parent) ← resolve_fs (mounts k) parent;
          '(p, k) ← fs_call k (fs_open fs rel_parent OpenFlags_READ);
          match p with
          | Err _ => Ret (Error_NotFound, k)
          | Ok parent_ino =>
              '(r, k) ← fs_call k (body fs parent_ino name);
              '(_, k) ← fs_call k (fs_close fs parent_ino);
              Ret (match r with Ok _ => 0 | Err e => code e end, k)
          end
      end
  end.

Definition sys_fs_unlink k (path_ptr path_len : Z) : outcome (Z * K) :=
  in_parent k path_ptr path_len (λ fs p n, fs_unlink fs p n) (λ _, Error_NotFound).

Definition mkdir_code (e : FsError) : Z :=
  match e with
  | NotFound => Error_NotFound
  | NoSpace => Error_OutOfMemory
  | NotADirectory | InvalidName => Error_InvalidArgument
  | _ => Error_Busy
  end.
Definition sys_fs_mkdir k (path_ptr path_len perms : Z) : outcome (Z * K) :=
  in_parent k path_ptr path_len (λ fs p n, fs_mkdir fs p n) mkdir_code.

Definition rmdir_code (e : FsError) : Z :=
  match e with NotFound => Error_NotFound | NotADirectory => Error_InvalidArgument | _ => Error_Busy end.
Definition sys_fs_rmdir k (path_ptr path_len : Z) : outcome (Z * K) :=
  in_parent k path_ptr path_len (λ fs p n, fs_rmdir fs p n) rmdir_code.

Definition mkfifo_code (e : FsError) : Z :=
  match e with
  | NotFound => Error_NotFound
  | NoSpace => Error_OutOfMemory
  | AlreadyExists => Error_AlreadyExists
  | _ => Error_InvalidArgument
  end.
Definition sys_mkfifo k (path_ptr path_len : Z) : outcome (Z * K) :=
  in_parent k path_ptr path_len (λ fs p n, fs_mkfifo fs p n) mkfifo_code.

Definition symlink_code (e : FsError) : Z :=
  match e with
  | AlreadyExists => Error_AlreadyExists
  | PermissionDenied => Error_PermissionDenied
  | _ => Error_InvalidArgument
  end.
Definition sys_symlink k (target_ptr target_len link_ptr link_len : Z) : outcome (Z * K) :=
  match user_str k target_ptr target_len with
  | Err e => Ret (e, k)
  | Ok target => in_parent k link_ptr link_len (λ fs p n, fs_symlink fs p n target) symlink_code
  end.

(** Rename: copy up to 8192 bytes to the new path, then unlink the old one. *)
Definition RENAME_BUF : Z := 8192.

Definition unlink_path k (full : list Z) : outcome K :=
  match split_parent_name full with
  | None => Ret k
  | Some (parent, name) =>
      '(fs_p, rel_p) ← resolve_fs (mounts k) parent;
      '(p, k) ← fs_call k (fs_open fs_p rel_p OpenFlags_READ);
      match p with
      | Err _ => Ret k
      | Ok p_ino =>
          '(_, k) ← fs_call k (fs_unlink fs_p p_ino name);
          '(_, k) ← fs_call k (fs_close fs_p p_ino);
          Ret k
      end
  end.

Definition rename_paths k (full_old full_new : list Z) : outcome (Z * K) :=
  '(fs_old, rel_old) ← resolve_fs (mounts k) full_old;
  '(o, k) ← fs_call k (fs_open fs_old rel_old OpenFlags_READ);
  match o with
  | Err _ => Ret (Error_NotFound, k)
  | Ok old_ino =>
      '(r, k) ← fs_call k (fs_read fs_old old_ino 0 RENAME_BUF);
      let bytes := match r with Ok b => b | Err _ => [] end in
      '(_, k) ← fs_call k (fs_close fs_old old_ino);
      '(fs_new, rel_new) ← resolve_fs (mounts k) full_new;
      '(n, k) ← fs_call k (fs_open fs_new rel_new (OpenFlags_from_raw 7));
      match n with
      | Err _ => Ret (Error_Busy, k)
      | Ok new_ino =>
          k ← (if 0 <? len bytes then '(_, k) ← fs_call k (fs_write fs_new new_ino 0 bytes); Ret k else Ret k);
          '(_, k) ← fs_call k (fs_close fs_new new_ino);
          k ← unlink_path k full_old;
          Ret (0, k)
      end
  end.

Definition sys_fs_rename k (old_ptr old_len new_ptr new_len : Z) : outcome (Z * K) :=
  match copy_from_user k old_ptr old_len, copy_from_user k new_ptr new_len with
  | Some old_bytes, Some new_bytes =>
      match from_utf8 old_bytes, from_utf8 new_bytes with
      | Some old_path, Some new_path => rename_paths k (resolve_path k old_path) (resolve_path k new_path)
      | _, _ => Ret (Error_InvalidArgument, k)
      end
  | _, _ => Ret (Error_BadPointer, k)
  end.

(** ** Metadata *)

Definition stat_bytes (meta : InodeMeta) : list Z :=
  u64_le_bytes (im_size meta) ++ u64_le_bytes (im_ino meta) ++ u32_le_bytes (if im_is_dir meta then 0x41ED else 0x81A4).

Definition put_stat k (out_ptr : Z) (meta : InodeMeta) : Z * K :=
  match copy_to_user k out_ptr (stat_bytes meta) with
  | None => (Error_BadPointer, k)
  | Some k => (0, k)
  end.

(** The calls that open a path for reading and act on its inode. *)
Definition with_inode k (full_path : list Z) (body : K → I → Z → outcome (Z * K)) : outcome (Z * K) :=
  '(fs, rel) ← resolve_fs (mounts k) full_path;
  '(r, k) ← fs_call k (fs_open fs rel OpenFlags_READ);
  match r with Err _ => Ret (Error_NotFound, k) | Ok ino => body k fs ino end.

Definition sys_fs_stat k (path_ptr path_len out_ptr : Z) : outcome (Z * K) :=
  match user_str k path_ptr path_len with
  | Err e => Ret (e, k)
  | Ok path =>
      with_inode k (resolve_path k path) (λ k fs ino,
        '(st, k) ← fs_call k (fs_stat fs ino);
        '(_, k) ← fs_call k (fs_close fs ino);
        Ret (match st with Ok meta => put_stat k out_ptr meta | Err _ => (Error_NotFound, k) end))
  end.

Definition sys_lstat k (path_ptr path_len out_ptr : Z) : outcome (Z * K) := sys_fs_stat k path_ptr path_len out_ptr.

Definition sys_fstat k (fd out_ptr : Z) : outcome (Z * K) :=
  match lookup_fd k fd with
  | None => Ret (Error_NotFound, k)
  | Some (_, e) =>
      '(fs, _) ← resolve_fs (mounts k) (fd_path e);
      '(st, k) ← fs_call k (fs_stat fs (fd_ino e));
      Ret (match st with Ok meta => put_stat k out_ptr meta | Err _ => (Error_NotFound, k) end)
  end.

(** The names, each with a zero byte, that fit in 4096 bytes. *)
Fixpoint pack_names (entries : list DirEntry) (pos : Z) : list Z :=
  match entries with
  | [] => []
  | e :: entries =>
      if 4096 <? pos + len (de_name e) + 1 then []
      else de_name e ++ [0] ++ pack_names entries (pos + len (de_name e) + 1)
  end.

Definition sys_fs_readdir k (path_ptr path_len out_ptr : Z) : outcome (Z * K) :=
  match user_str k path_ptr path_len with
  | Err e => Ret (e, k)
  | Ok path =>
      with_inode k (resolve_path k path) (λ k fs ino,
        '(r, k) ← fs_call k (fs_readdir fs ino);
        '(_, k) ← fs_call k (fs_close fs ino);
        match r with
        | Err _ => Ret (Error_NotFound, k)
        | Ok entries =>
            let buf := pack_names entries 0 in
            match copy_to_user k out_ptr buf with
            | None => Ret (Error_BadPointer, k)
            | Some k => Ret (len buf, k)
            end
        end)
  end.

(** The records of [getdents64]: number, offset of the next record, record
    length, type and name, padded to a multiple of eight bytes. *)
Fixpoint pack_dirents (entries : list DirEntry) (buf_len : Z) (out : list Z) (pos : Z) : outcome (list Z * Z) :=
  match entries with
  | [] => Ret (out, pos)
  | e :: entries =>
      let name_len := len (de_name e) + 1 in
      let reclen := cast 16 (Z.land (DIRENT_HEADER_SIZE + name_len + 7) (unot 64 7)) in
      if buf_len <? pos + reclen then Ret (out, pos)
      else
        out ← copy_into out pos (pos + 8) (u64_le_bytes (de_ino e));
        let next_off := pos + reclen in
        out ← copy_into out (pos + 8) (pos + 16) (u64_le_bytes next_off);
        out ← copy_into out (pos + 16) (pos + 18) (u16_le_bytes reclen);
        out ← store out (pos + 18) (if de_is_dir e then DIRENT_TYPE_DIR else DIRENT_TYPE_FILE);
        let name_start := pos + DIRENT_HEADER_SIZE in
        out ← copy_into out name_start (name_start + len (de_name e)) (de_name e);
        out ← store out (name_start + len (de_name e)) 0;
        pack_dirents entries buf_len out next_off
  end.

Definition sys_getdents64 k (fd buf_ptr buf_len : Z) : outcome (Z * K) :=
  if (fd =? FD_STDIN) || (fd =? FD_STDOUT) then Ret (Error_InvalidArgument, k)
  else if (buf_ptr =? 0) || (USER_SPACE_MAX <=? buf_ptr) then Ret (Error_BadPointer, k)
  else if USER_SPACE_MAX <? saturating_add 64 buf_ptr buf_len then Ret (Error_BadPointer, k)
  else
    let buf_len := Z.min buf_len MAX_MSG_SIZE in
    if buf_len <? DIRENT_HEADER_SIZE + 2 then Ret (Error_InvalidArgument, k)
    else
      match lookup_fd k fd with
      | None => Ret (Error_NotFound, k)
      | Some (_, e) =>
          '(fs, _) ← resolve_fs (mounts k) (fd_path e);
          '(r, k) ← fs_call k (fs_readdir fs (fd_ino e));
          match r with
          | Err _ => Ret (Error_NotFound, k)
          | Ok entries =>
              if bool_decide (entries = []) then Ret (0, k)
              else
                '(out, pos) ← pack_dirents entries buf_len (replicate (Z.to_nat buf_len) 0) 0;
                if pos =? 0 then Ret (0, k)
                else
                  bytes ← slice out 0 pos;
                  match copy_to_user k buf_ptr bytes with
                  | None => Ret (Error_BadPointer, k)
                  | Some k => Ret (pos, k)
                  end
          end
      end.

Definition sys_access k (path_ptr path_len mode : Z) : outcome (Z * K) :=
  match user_str k path_ptr path_len with
  | Err e => Ret (e, k)
  | Ok path =>
      let known_bits := Z.lor (Z.lor (Z.lor ACCESS_F_OK ACCESS_R_OK) ACCESS_W_OK) ACCESS_X_OK in
      if negb (Z.land mode (unot 64 known_bits) =? 0) then Ret (Error_InvalidArgument, k)
      else
        '(fs, rel) ← resolve_fs (mounts k) (resolve_path k path);
        '(r, k) ← fs_call k (fs_open fs rel OpenFlags_READ);
        match r with
        | Err _ => Ret (Error_NotFound, k)
        | Ok ino =>
            if mode =? ACCESS_F_OK then '(_, k) ← fs_call k (fs_close fs ino); Ret (0, k)
            else
              '(st, k) ← fs_call k (fs_stat fs ino);
              match st with
              | Err _ => '(_, k) ← fs_call k (fs_close fs ino); Ret (Error_NotFound, k)
              | Ok meta =>
                  '(w, k) ←
                    (if negb (Z.land mode ACCESS_W_OK =? 0) then
                       '(_, k) ← fs_call k (fs_close fs ino);
                       '(w, k) ← fs_call k (fs_open fs rel (OpenFlags_from_raw 3));
                       match w with
                       | Err _ => Ret (Some Error_PermissionDenied, k)
                       | Ok write_ino =>
                           '(_, k) ← fs_call k (fs_close fs write_ino);
                           if negb (Z.land mode ACCESS_X_OK =? 0) then
                             '(x, k) ← fs_call k (fs_open fs rel OpenFlags_READ);
                             match x with
                             | Err _ => Ret (Some Error_NotFound, k)
                             | Ok reopened => '(_, k) ← fs_call k (fs_close fs reopened); Ret (None, k)
                             end
                           else Ret (None, k)
                       end
                     else Ret (None, k));
                  match w with
                  | Some code => Ret (code, k)
                  | None =>
                      '(_, k) ← fs_call k (fs_close fs ino);
                      if negb (Z.land mode ACCESS_X_OK =? 0) && im_is_dir meta then Ret (Error_PermissionDenied, k)
                      else Ret (0, k)
                  end
              end
        end
  end.

(** [readlink] gives the path to [resolve_fs] as it is, without the working
    directory. *)
Definition sys_readlink k (path_ptr path_len buf_ptr buf_len : Z) : outcome (Z * K) :=
  match user_str k path_ptr path_len with
  | Err e => Ret (e, k)
  | Ok path =>
      with_inode k path (λ k fs ino,
        '(r, k) ← fs_call k (fs_readlink fs ino (Z.min buf_len MAX_MSG_SIZE));
        '(_, k) ← fs_call k (fs_close fs ino);
        match r with
        | Err _ => Ret (Error_NotFound, k)
        | Ok bytes =>
            match copy_to_user k buf_ptr bytes with
            | None => Ret (Error_BadPointer, k)
            | Some k => Ret (len bytes, k)
            end
        end)
  end.

Definition chmod_code (e : FsError) : Z :=
  match e with
  | NotFound => Error_NotFound
  | PermissionDenied => Error_PermissionDenied
  | _ => Error_NotSupported
  end.

Definition sys_chmod k (path_ptr path_len mode : Z) : outcome (Z * K) :=
  match user_str k path_ptr path_len with
  | Err e => Ret (e, k)
  | Ok path =>
      with_inode k (resolve_path k path) (λ k fs ino,
        '(r, k) ← fs_call k (fs_chmod fs ino (Z.land mode 0xFFF));
        '(_, k) ← fs_call k (fs_close fs ino);
        Ret (match r with Ok _ => 0 | Err e => chmod_code e end, k))
  end.

End syscalls.
