(* ===== verification/FsProofs.v ===== *)
(** * Properties of the file system calls (kernel/src/syscall/mod.rs)

    Files read back what was written through descriptors and user memory, on
    the in-memory file system mounted at the root as at boot; descriptors are
    fresh and bounded; and the calls that panic the kernel or lose data. *)

From stdpp Require Import strings.
From S2P Require Import Prelude RustStr Handle Pipe Vma Vfs FsSyscalls Ramfs RamfsProofs.

(** ** User memory *)

Section memory.
Context {I W : Type}.
Implicit Types k : Kernel I W.

Lemma user_range_spec ptr n :
  user_range ptr n = true ↔ ptr ≠ 0 ∧ n ≠ 0 ∧ n ≤ MAX_MSG_SIZE ∧ ptr < USER_SPACE_MAX ∧ ptr + n ≤ USER_SPACE_MAX.
Proof.
  unfold user_range, saturating_add. rewrite !andb_true_iff, !negb_true_iff, !Z.eqb_neq, !Z.leb_le, Z.ltb_lt.
  unfold USER_SPACE_MAX. lia.
Qed.

(** What [copy_to_user] stores is what [copy_from_user] reads back. *)
Lemma copy_roundtrip k dst bytes k' :
  copy_to_user k dst bytes = Some k' → copy_from_user k' dst (len bytes) = Some bytes.
Proof.
  unfold copy_to_user, copy_from_user. destruct (user_range dst (len bytes)); [|done]. intros [= <-]. f_equal.
  cbn [user_mem with_mem]. apply list_eq. intros i. rewrite list_lookup_fmap.
  destruct (decide (i < length bytes)%nat) as [Hi|Hi].
  - rewrite lookup_seqZ_lt by (unfold len; lia). simpl. unfold poke.
    rewrite (proj2 (Z.leb_le _ _)), (proj2 (Z.ltb_lt _ _)) by (unfold len; lia). simpl.
    replace (Z.to_nat (dst + (0 + Z.of_nat i) - dst)) with i by lia.
    apply lookup_lt_is_Some in Hi as [x Hx]. by rewrite Hx.
  - rewrite lookup_seqZ_ge by (unfold len; lia). symmetry. apply lookup_ge_None. lia.
Qed.

Lemma copy_to_user_ok k dst bytes : user_range dst (len bytes) = true →
  ∃ k', copy_to_user k dst bytes = Some k' ∧ current k' = current k ∧ mounts k' = mounts k ∧ fs_state k' = fs_state k.
Proof. intros Hr. unfold copy_to_user. rewrite Hr. by eexists. Qed.

End memory.

(** ** Descriptors *)

Lemma fd_loop_spec fuel m fd : 0 ≤ fd → FD_LIMIT - fd ≤ Z.of_nat fuel → 
  match fd_loop fuel m fd with
  | Some x => m !! x = None ∧ fd ≤ x ∧ (x < FD_LIMIT ∨ x = fd)
  | None => ∀ x, fd ≤ x < FD_LIMIT → m !! x ≠ None
  end.
Proof.
  revert fd. induction fuel as [|fuel IH]; intros fd Hfd Hf; simpl; [intros; lia|].
  destruct (m !! fd) as [e|] eqn:He; [|split; [done|lia]].
  destruct (Z.leb_spec FD_LIMIT (fd + 1)) as [Hl|Hl].
  - intros x Hx. assert (x = fd) as -> by lia. congruence.
  - specialize (IH (fd + 1)). destruct (fd_loop fuel m (fd + 1)) as [x|].
    + destruct IH as (? & ? & ?); [lia..|]. split; [done|]. lia.
    + intros x Hx. destruct (decide (x = fd)) as [->|]; [congruence|]. apply IH; lia.
Qed.

(** The descriptor chosen is the free one the loop finds; there is none exactly
    when all of them are taken. *)
Lemma free_fd_spec m :
  match free_fd m FD_FIRST_USABLE with
  | Some fd => m !! fd = None ∧ FD_FIRST_USABLE ≤ fd < FD_LIMIT
  | None => ∀ fd, FD_FIRST_USABLE ≤ fd < FD_LIMIT → m !! fd ≠ None
  end.
Proof.
  pose proof (fd_loop_spec (Z.to_nat FD_LIMIT) m FD_FIRST_USABLE) as Hs. unfold free_fd.
  destruct (fd_loop _ _ _) as [fd|]; [|apply Hs; unfold FD_FIRST_USABLE, FD_LIMIT; lia].
  unfold FD_FIRST_USABLE, FD_LIMIT in *. destruct Hs as (? & ? & ?); [lia..|]. split; [done|lia].
Qed.

Section anyfs.
Context {I W : Type} `{FileSystem I W} `{BuildProfile}.
Implicit Types k : Kernel I W.

Lemma resolve_pipe_panics k path : mounts_ok (mounts k) → is_pipe_path path = true → resolve_fs (mounts k) path = Panic.
Proof.
  intros Hm Hp. apply resolve_relative_panics; [done|]. unfold is_pipe_path in Hp.
  by apply orb_true_iff in Hp as [[r ->]%starts_with_app|[r ->]%starts_with_app].
Qed.

(** closing a pipe panics the kernel. After a successful [pipe] call both
    new descriptors are in the table, and [close], [seek] and [fstat] on either
    of them look the label of the pipe up in the mount table and abort. *)
Theorem close_pipe_panics k ptr k' :
  mounts_ok (mounts k) → sys_pipe k ptr = Ret (0, k') →
  ∃ r w, r ≠ w ∧
    ∀ fd, fd = r ∨ fd = w →
      is_Some (lookup_fd k' fd) ∧ sys_fs_close k' fd = Panic ∧
      (∀ off whence, sys_fs_seek k' fd off whence = Panic) ∧ (∀ out, sys_fstat k' fd out = Panic).
Proof.
  intros Hm. unfold sys_pipe. destruct (_ || _); [done|]. destruct (_ <? _); [done|].
  destruct (current k) as [t|] eqn:Ht; [|done]. intros Hp.
  apply bind_ret in Hp as ([h1 t1] & _ & Hp). apply bind_ret in Hp as ([h2 t2] & _ & Hp). cbn [fd_table set_handles] in Hp.
  pose proof (free_fd_spec (fd_table t)) as Hr. destruct (free_fd (fd_table t) FD_FIRST_USABLE) as [r|]; [|done].
  destruct Hr as [Hr1 Hr2]. cbn [fd_table set_fds set_handles] in Hp. set (m := <[r := _]> (fd_table t)) in Hp.
  pose proof (fd_loop_spec (Z.to_nat FD_LIMIT) m (r + 1)) as Hw. unfold free_fd in Hp.
  destruct (fd_loop _ m (r + 1)) as [w|]; [|done]. unfold FD_FIRST_USABLE, FD_LIMIT in *.
  destruct Hw as (_ & Hw & _); [lia..|]. set (kk := with_task _ _) in Hp. destruct (copy_to_user kk ptr _) as [k1|] eqn:Hc; [|done].
  injection Hp as <-. assert (current k1 = current kk ∧ mounts k1 = mounts k) as [Hcur Hmnt].
  { unfold copy_to_user in Hc. destruct (user_range _ _); [|done]. by injection Hc as <-. }
  exists r, w. split; [lia|]. intros fd Hfd.
  assert (∃ t' e, lookup_fd k1 fd = Some (t', e) ∧ is_pipe_path (fd_path e) = true) as (t' & e & Hl & He).
  { unfold lookup_fd. rewrite Hcur. simpl. destruct (decide (fd = w)) as [->|Hne].
    - rewrite lookup_insert_eq. by eexists _, _.
    - destruct Hfd as [->|]; [|done]. rewrite lookup_insert_ne by done. unfold m. rewrite lookup_insert_eq. by eexists _, _. }
  pose proof (resolve_pipe_panics k1 (fd_path e)) as Hres. rewrite Hmnt in Hres. specialize (Hres Hm He).
  assert (2 ≤ fd) as Hge by lia. split_and!; [by rewrite Hl|..].
  - unfold sys_fs_close. rewrite (proj2 (Z.ltb_ge _ _)) by (unfold FD_FIRST_USABLE; lia). rewrite Hl. cbn [mounts with_task]. by rewrite Hmnt, Hres.
  - intros off whence. unfold sys_fs_seek. rewrite !(proj2 (Z.eqb_neq _ _)) by (unfold FD_STDIN, FD_STDOUT; lia).
    cbn [orb]. by rewrite Hl, Hmnt, Hres.
  - intros out. unfold sys_fstat. by rewrite Hl, Hmnt, Hres.
Qed.

(** [readlink] of a relative path panics the kernel: the path is not
    resolved against the working directory and matches no mount point. *)
Theorem readlink_relative_panics k ptr n buf_ptr buf_len path :
  mounts_ok (mounts k) → user_str k ptr n = Ok path → starts_with path [SLASH] = false →
  sys_readlink k ptr n buf_ptr buf_len = Panic.
Proof.
  intros Hm Hs Hp. unfold sys_readlink, with_inode. rewrite Hs. by rewrite resolve_relative_panics.
Qed.

Lemma fs_call_current {A} k (f : W → outcome (result A FsError * W)) r k' : fs_call k f = Ret (r, k') → current k' = current k.
Proof. unfold fs_call. intros ([r0 s] & _ & [= _ <-])%bind_ret. done. Qed.

(** The entry of descriptor [fd], if the current task has it open. *)
Definition fd_entry k (fd : Z) : option FdEntry := snd <$> lookup_fd k fd.

(** [k'] has one more descriptor than [k], in the allowed range. *)
Definition new_descriptor k (fd : Z) k' : Prop :=
  fd_entry k fd = None ∧ is_Some (fd_entry k' fd) ∧ FD_FIRST_USABLE ≤ fd < FD_LIMIT ∧
  ∀ fd', fd' ≠ fd → fd_entry k' fd' = fd_entry k fd'.

Lemma new_descriptor_insert k k0 t t' fd e :
  current k = Some t → current k0 = Some t → free_fd (fd_table t) FD_FIRST_USABLE = Some fd →
  fd_table t' = <[fd := e]> (fd_table t) → new_descriptor k fd (with_task k0 t').
Proof.
  intros Ht Ht0 Hfd Htab. pose proof (free_fd_spec (fd_table t)) as Hs. rewrite Hfd in Hs. destruct Hs as [Hnone Hr].
  unfold new_descriptor, fd_entry, lookup_fd. rewrite Ht. cbn [current with_task]. rewrite Htab, Hnone. split_and!; try done; [|lia..|].
  - rewrite lookup_insert_eq. by eexists.
  - intros fd' Hne. rewrite lookup_insert_ne by done. by destruct (fd_table t !! fd').
Qed.

Lemma install_fd_new k k0 e fd k' :
  current k0 = current k → install_fd k0 e = (fd, k') → 0 ≤ fd → new_descriptor k fd k'.
Proof.
  intros Hc. unfold install_fd. rewrite Hc. destruct (current k) as [t|] eqn:Ht; [|by intros [= <- _]].
  destruct (free_fd _ _) as [x|] eqn:Hx; [|by intros [= <- _]]. intros [= <- <-] _. by eapply new_descriptor_insert.
Qed.

Lemma open_fifo_new k k0 path flags buf fd k' :
  current k0 = current k → open_fifo k0 path flags buf = Ret (fd, k') → 0 ≤ fd → new_descriptor k fd k'.
Proof.
  intros Hc. unfold open_fifo. rewrite Hc. destruct (current k) as [t|] eqn:Ht; [|by intros [= <- _]].
  destruct (free_fd _ _) as [x|] eqn:Hx; [|by intros [= <- _]]. destruct (OpenFlags_contains flags OpenFlags_READ).
  - intros ([reader h] & _ & ([] & _ & [= <- <-])%bind_ret)%bind_ret _. by eapply new_descriptor_insert.
  - destruct (OpenFlags_contains flags OpenFlags_WRITE); [|by intros [= <- _]].
    intros ([writer h] & _ & [= <- <-])%bind_ret _. by eapply new_descriptor_insert.
Qed.

(** descriptors are fresh. Over any file systems, a successful [open]
    returns a descriptor that was not open before, between 2 and 1023, and
    leaves every other descriptor of the task as it was. *)
Theorem open_fresh_descriptor k np nl flags fd k' :
  sys_fs_open k np nl flags = Ret (fd, k') → 0 ≤ fd → new_descriptor k fd k'.
Proof.
  unfold sys_fs_open. destruct (1 <? flags); [by intros [= <- _]|]. destruct (user_str k np nl) as [path|c] eqn:Hu.
  2: { intros [= <- _] Hc. exfalso. unfold user_str in Hu. destruct (copy_from_user k np nl); [destruct (from_utf8 _)|]; try done;
       injection Hu as <-; unfold Error_InvalidArgument, Error_BadPointer in Hc; lia. }
  intros ([fs rel] & _ & ([r k1] & Hc1%fs_call_current & Hr)%bind_ret)%bind_ret.
  destruct r as [ino|]; [|by injection Hr as <- _]. apply bind_ret in Hr as ([meta k2] & Hc2%fs_call_current & Hr).
  destruct meta as [meta|]; [|injection Hr as Hr; apply (install_fd_new k k2 _ _ _ ltac:(congruence) Hr)].
  destruct (im_is_fifo meta); [|injection Hr as Hr; apply (install_fd_new k k2 _ _ _ ltac:(congruence) Hr)].
  apply bind_ret in Hr as ([u k3] & Hc3%fs_call_current & Hr). apply bind_ret in Hr as ([b k4] & Hc4%fs_call_current & Hr).
  destruct b as [b|]; [|by injection Hr as <- _]. apply (open_fifo_new k k4 _ _ _ _ _ ltac:(congruence) Hr).
Qed.

End anyfs.

(** ** On the in-memory file system *)

Definition root_mount : list (MountPoint RamFsVfs) := [mkMountPoint [SLASH] 0 RamFsVfs_].

Lemma root_mount_ok : mounts_ok root_mount.
Proof. split; [apply NoDup_singleton|by apply list.Forall_singleton]. Qed.

Lemma resolve_root r : resolve_fs root_mount (SLASH :: r) = Ret (RamFsVfs_, default r (strip_prefix SLASH r)).
Proof.
  unfold resolve_fs, root_mount. cbn [best_loop mp_path]. replace (starts_with (SLASH :: r) [SLASH]) with true by done.
  cbn [andb]. change (0 <? len [SLASH]) with true. cbn [mp_fs]. change (len [SLASH]) with 1.
  destruct (Z.ltb_spec 1 (len (SLASH :: r))) as [Hl|Hl]; [done|]. destruct r; [done|]. unfold len in Hl. simpl in Hl. lia.
Qed.

Section ramfs_calls.
Context `{BuildProfile}.
Implicit Types (k : Kernel RamFsVfs (list FileEntry)) (n : list Z).

(** The file systems as they are after boot. *)
Definition booted k : Prop := mounts k = root_mount ∧ fs_ok (fs_state k).

(** Descriptor [fd] of the current task is open on the live file [x]. *)
Record on_file k (fd : Z) (t : Task) (e : FdEntry) (x : FileEntry) : Prop := mkOnFile {
  of_fd : FD_FIRST_USABLE ≤ fd;
  of_lookup : lookup_fd k fd = Some (t, e);
  of_path : ∃ r, fd_path e = SLASH :: r;
  of_ino : 1 ≤ fd_ino e;
  of_live : fs_state k !! slot_of (fd_ino e) = Some x;
  of_use : in_use x = true;
}.

Lemma with_fs_same k : with_fs k (fs_state k) = k.
Proof. by destruct k. Qed.

Lemma fd_not_std k fd t e x : on_file k fd t e x → (fd =? FD_STDIN) = false ∧ (fd =? FD_STDOUT) = false.
Proof. intros Hf. pose proof (of_fd _ _ _ _ _ Hf). unfold FD_FIRST_USABLE, FD_STDIN, FD_STDOUT in *. split; apply Z.eqb_neq; lia. Qed.

Lemma not_pipe_path r : is_pipe_path (SLASH :: r) = false.
Proof. reflexivity. Qed.

Lemma ino_not_root i : 1 ≤ i → (i =? ROOT_INO) = false.
Proof. intros. apply Z.eqb_neq. unfold ROOT_INO. lia. Qed.

Lemma stat_live (fs : list FileEntry) ino x :
  fs_ok fs → 1 ≤ ino → fs !! slot_of ino = Some x → in_use x = true →
  ∃ m, stat fs ino = Ret (Ok m, fs) ∧ im_is_fifo m = false.
Proof.
  intros Hok Hi Hx Hu. unfold stat. rewrite ino_not_root, (live_entry_at _ _ x) by done. cbn [mbind outcome_bind].
  eexists. split; [done|]. simpl. apply (eo_fifo _ (fo_entry _ Hok _ _ Hx)).
Qed.

(** The state after the offset of [fd] is set to [o]. *)
Definition at_offset k (t : Task) (fd : Z) (e : FdEntry) (o : Z) : Kernel RamFsVfs (list FileEntry) :=
  with_task k (set_fds t (<[fd := mkFdEntry (fd_path e) (fd_ino e) o]> (fd_table t))).

Lemma update_offset_ok k fd t e f o :
  lookup_fd k fd = Some (t, e) → f (fd_offset e) = Ret o → update_offset k fd f = Ret (at_offset k t fd e o).
Proof. intros Hl Hf. unfold update_offset. rewrite Hl, Hf. done. Qed.

Lemma on_file_offset k fd t e x o :
  on_file k fd t e x →
  on_file (at_offset k t fd e o) fd (set_fds t (<[fd := mkFdEntry (fd_path e) (fd_ino e) o]> (fd_table t)))
    (mkFdEntry (fd_path e) (fd_ino e) o) x.
Proof.
  intros [? Hl ? ? ? ?]. split; try done. unfold lookup_fd. simpl. by rewrite lookup_insert_eq.
Qed.

Lemma seek_set k fd t e x o :
  booted k → on_file k fd t e x → 0 ≤ o < 2 ^ 63 → sys_fs_seek k fd o SEEK_SET = Ret (o, at_offset k t fd e o).
Proof.
  intros [Hm Hok] Hf Ho. destruct (fd_not_std _ _ _ _ _ Hf) as [Hs1 Hs2]. pose proof Hf as [_ Hl [r Hp] Hi Hx Hu].
  assert (as_i64 o = o) as Ho' by (unfold as_i64; by rewrite (proj2 (Z.ltb_lt _ _)) by lia).
  unfold sys_fs_seek. rewrite Hs1, Hs2. cbn [orb]. rewrite Hl, Hm, Hp, resolve_root. cbn [mbind outcome_bind].
  destruct (stat_live _ _ _ Hok Hi Hx Hu) as (m & Hst & _). unfold fs_call. cbn [fs_stat RamFsVfs_FileSystem]. rewrite Hst.
  cbn [mbind outcome_bind]. rewrite with_fs_same, Ho'. change (SEEK_SET =? SEEK_SET) with true. cbn [mbind outcome_bind].
  rewrite (proj2 (Z.ltb_ge _ _)) by lia. rewrite (update_offset_ok _ _ t e _ o) by done. cbn [mbind outcome_bind]. by rewrite Ho'.
Qed.

Lemma seek_cur k fd t e x o :
  booted k → on_file k fd t e x → 0 ≤ o < 2 ^ 63 → 0 ≤ fd_offset e → fd_offset e + o < 2 ^ 64 →
  sys_fs_seek k fd o SEEK_CUR = Ret (as_i64 (fd_offset e + o), at_offset k t fd e (fd_offset e + o)).
Proof.
  intros [Hm Hok] Hf Ho Hoff Hsum. destruct (fd_not_std _ _ _ _ _ Hf) as [Hs1 Hs2]. pose proof Hf as [_ Hl [r Hp] Hi Hx Hu].
  assert (as_i64 o = o) as Ho' by (unfold as_i64; by rewrite (proj2 (Z.ltb_lt _ _)) by lia).
  unfold sys_fs_seek. rewrite Hs1, Hs2. cbn [orb]. rewrite Hl, Hm, Hp, resolve_root. cbn [mbind outcome_bind].
  destruct (stat_live _ _ _ Hok Hi Hx Hu) as (m & Hst & _). unfold fs_call. cbn [fs_stat RamFsVfs_FileSystem]. rewrite Hst.
  cbn [mbind outcome_bind]. rewrite with_fs_same, Ho'. change (SEEK_CUR =? SEEK_SET) with false. change (SEEK_CUR =? SEEK_CUR) with true.
  cbn iota. rewrite (proj2 (Z.leb_le _ _)) by lia. cbn [mbind outcome_bind].
  assert (saturating_add 64 (fd_offset e) o = fd_offset e + o) as -> by (unfold saturating_add; lia).
  by rewrite (update_offset_ok _ _ t e _ (fd_offset e + o)).
Qed.

(** a program can stop the machine with two seeks and a write. On any open
    regular file, seeking twice by [i64::MAX] and writing two bytes or more
    makes the end of the write overflow, which panics in both build profiles. *)
Theorem seek_write_panics k fd t e x ptr m bytes :
  booted k → on_file k fd t e x → copy_from_user k ptr m = Some bytes → 2 ≤ m ≤ MAX_FILE_SIZE →
  ∃ k1 k2, sys_fs_seek k fd (2 ^ 63 - 1) SEEK_SET = Ret (2 ^ 63 - 1, k1) ∧
    sys_fs_seek k1 fd (2 ^ 63 - 1) SEEK_CUR = Ret (-2, k2) ∧ sys_fs_write k2 fd ptr m = Panic.
Proof.
  intros Hb Hf Hc Hm. set (o := 2 ^ 63 - 1). set (k1 := at_offset k t fd e o).
  pose proof (on_file_offset _ _ _ _ _ o Hf) as Hf1. fold k1 in Hf1. assert (booted k1) as Hb1 by exact Hb.
  set (t1 := set_fds _ _) in Hf1. set (e1 := mkFdEntry _ _ _) in Hf1.
  exists k1, (at_offset k1 t1 fd e1 (o + o)). split_and!; [by apply (seek_set k fd t e x)| |].
  { by rewrite (seek_cur k1 fd t1 e1 x o) by done. }
  pose proof (on_file_offset _ _ _ _ _ (o + o) Hf1) as Hf2. set (k2 := at_offset k1 _ _ _ _) in *.
  destruct (fd_not_std _ _ _ _ _ Hf2) as [Hs1 Hs2]. pose proof Hf2 as [_ Hl [r Hp] Hi Hx Hu].
  unfold sys_fs_write. rewrite Hs1, Hs2. change (copy_from_user k2 ptr m) with (copy_from_user k ptr m). rewrite Hc, Hl, Hp.
  rewrite not_pipe_path. destruct Hb as [Hmnt Hok]. change (mounts k2) with (mounts k). rewrite Hmnt, resolve_root. cbn [mbind outcome_bind].
  assert (len bytes = m) as Hlen.
  { unfold copy_from_user in Hc. destruct (user_range ptr m); [|done]. injection Hc as <-. unfold len. rewrite length_fmap, length_seqZ. lia. }
  unfold fs_call. cbn [fs_write RamFsVfs_FileSystem fd_ino fd_offset e1].
  rewrite (write_overflow_panics _ _ x); [done|exact Hok|exact Hi|exact Hx|exact Hu|unfold is_uint, o; lia|lia|rewrite Hlen; unfold o; lia].
Qed.

(** the end of a file reads as a bad pointer. At or beyond the end of a
    regular file [read] returns the error for an invalid buffer, whatever buffer
    is given, because copying zero bytes out counts as a failure. *)
Theorem read_at_eof k fd t e x ptr m :
  booted k → on_file k fd t e x → len (data x) ≤ fd_offset e → sys_fs_read k fd ptr m = Ret (Error_BadPointer, k).
Proof.
  intros [Hmnt Hok] Hf Ho. destruct (fd_not_std _ _ _ _ _ Hf) as [Hs1 Hs2]. pose proof Hf as [_ Hl [r Hp] Hi Hx Hu].
  unfold sys_fs_read. rewrite Hs1, Hs2. cbn [orb]. rewrite Hl, Hp, not_pipe_path, Hmnt, resolve_root. cbn [mbind outcome_bind].
  unfold fs_call. cbn [fs_read RamFsVfs_FileSystem]. unfold read. rewrite ino_not_root, (live_entry_at _ _ x) by done.
  cbn [mbind outcome_bind]. rewrite (proj2 (Z.leb_le _ _) Ho). cbn [mbind outcome_bind]. rewrite with_fs_same.
  unfold copy_to_user, user_range. change (len (@nil Z) =? 0) with true. by rewrite andb_false_r.
Qed.

(** ** Reading back what was written *)

Lemma copy_from_user_len k ptr m bytes : copy_from_user k ptr m = Some bytes → 0 < m → len bytes = m.
Proof.
  unfold copy_from_user. destruct (user_range ptr m); [|done]. intros [= <-] Hm. unfold len. rewrite length_fmap, length_seqZ. lia.
Qed.

(** The state after [bytes] are written at the offset of the descriptor. *)
Definition after_write k (t : Task) (fd : Z) (e : FdEntry) (x : FileEntry) (bytes : list Z) : Kernel RamFsVfs (list FileEntry) :=
  at_offset (with_fs k (<[slot_of (fd_ino e) := set_data (overlay (fd_offset e) bytes (data x)) x]> (fs_state k)))
    t fd e (fd_offset e + len bytes).

Lemma fs_write_ok k fd t e x ptr m bytes :
  booted k → on_file k fd t e x → copy_from_user k ptr m = Some bytes → 0 < m → 0 ≤ fd_offset e →
  fd_offset e + m ≤ MAX_FILE_SIZE → sys_fs_write k fd ptr m = Ret (m, after_write k t fd e x bytes).
Proof.
  intros [Hmnt Hok] Hf Hc Hm Ho Hsz. pose proof (copy_from_user_len _ _ _ _ Hc Hm) as Hlen. unfold MAX_FILE_SIZE in Hsz.
  destruct (fd_not_std _ _ _ _ _ Hf) as [Hs1 Hs2]. pose proof Hf as [_ Hl [r Hp] Hi Hx Hu].
  unfold sys_fs_write. rewrite Hs1, Hs2, Hc, Hl, Hp, not_pipe_path, Hmnt, resolve_root. cbn [mbind outcome_bind].
  unfold fs_call. cbn [fs_write RamFsVfs_FileSystem].
  pose proof (write_then_read (fs_state k) (fd_ino e) x (fd_offset e) bytes 0 0 Hok Hi Hx Hu) as Hw.
  rewrite (proj2 (Z.leb_le _ _)) in Hw by (rewrite Hlen; unfold MAX_FILE_SIZE; lia).
  destruct Hw as [Hw _]; [unfold is_uint; lia|rewrite Hlen; lia|lia..|]. rewrite Hw. cbn [mbind outcome_bind].
  rewrite (update_offset_ok _ fd t e _ (fd_offset e + len bytes)); [|exact Hl|apply add64_ok; unfold is_uint; lia].
  cbn [mbind outcome_bind]. unfold after_write. by rewrite Hlen.
Qed.

Lemma after_write_ok k fd t e x bytes :
  booted k → on_file k fd t e x → 0 ≤ fd_offset e → fd_offset e + len bytes ≤ MAX_FILE_SIZE →
  booted (after_write k t fd e x bytes) ∧
  on_file (after_write k t fd e x bytes) fd (set_fds t (<[fd := mkFdEntry (fd_path e) (fd_ino e) (fd_offset e + len bytes)]> (fd_table t)))
    (mkFdEntry (fd_path e) (fd_ino e) (fd_offset e + len bytes)) (set_data (overlay (fd_offset e) bytes (data x)) x).
Proof.
  intros [Hmnt Hok] Hf Ho Hsz. pose proof Hf as [_ Hl [r Hp] Hi Hx Hu]. split.
  - split; [done|]. pose proof (eo_data _ (fo_entry _ Hok _ _ Hx)).
    destruct (set_data_safe True tt (fs_state k) (slot_of (fd_ino e)) x (overlay (fd_offset e) bytes (data x)) Hok Hx Hu) as [Hok' _]; [|exact Hok'].
    unfold overlay. pose proof (len_extend_to (fd_offset e) (data x)). unfold len in *. rewrite !length_app, length_take, length_drop. lia.
  - apply on_file_offset. destruct Hf. split; try done. simpl. apply list_lookup_insert_eq. by eapply lookup_lt_Some.
Qed.

Lemma fs_read_ok k fd t e x ptr m :
  booted k → on_file k fd t e x → user_range ptr m = true → 0 < m → is_uint 64 (fd_offset e) → fd_offset e + m ≤ len (data x) →
  ∃ k', sys_fs_read k fd ptr m = Ret (m, k') ∧ copy_from_user k' ptr m = Some (take (Z.to_nat m) (drop (Z.to_nat (fd_offset e)) (data x))).
Proof.
  intros [Hmnt Hok] Hf Hr Hm Ho Hsz. destruct (fd_not_std _ _ _ _ _ Hf) as [Hs1 Hs2]. pose proof Hf as [_ Hl [r Hp] Hi Hx Hu].
  pose proof (eo_data _ (fo_entry _ Hok _ _ Hx)) as Hmax. unfold is_uint, MAX_FILE_SIZE in *.
  set (bytes := take (Z.to_nat m) (drop (Z.to_nat (fd_offset e)) (data x))).
  assert (len bytes = m) as Hlen by (unfold bytes, len in *; rewrite length_take, length_drop; lia).
  unfold sys_fs_read. rewrite Hs1, Hs2. cbn [orb]. rewrite Hl, Hp, not_pipe_path, Hmnt, resolve_root. cbn [mbind outcome_bind].
  unfold fs_call. cbn [fs_read RamFsVfs_FileSystem]. unfold read. rewrite ino_not_root, (live_entry_at _ _ x) by done.
  cbn [mbind outcome_bind]. rewrite (proj2 (Z.leb_gt (len (data x)) _)) by lia.
  pose proof (proj1 (user_range_spec _ _) Hr) as (_ & _ & Hmsg & _).
  rewrite slice_ok by lia. cbn [mbind outcome_bind]. rewrite with_fs_same.
  replace (fd_offset e + Z.min (Z.min m MAX_MSG_SIZE) (len (data x) - fd_offset e) - fd_offset e) with m by lia. fold bytes.
  destruct (copy_to_user_ok k ptr bytes) as (k1 & Hc & Hcur & _); [by rewrite Hlen|]. rewrite Hc.
  pose proof (copy_roundtrip _ _ _ _ Hc) as Hrt. rewrite Hlen in Hrt.
  rewrite (update_offset_ok _ fd t e _ (fd_offset e + len bytes)); [|unfold lookup_fd in *; by rewrite Hcur|apply add64_ok; unfold is_uint; lia].
  cbn [mbind outcome_bind]. rewrite Hlen. by eexists.
Qed.

(** A creating [open] of a new name takes the free slot. *)
Lemma open_creates (fs : list FileEntry) n slot :
  fs_ok fs → good_name n → n ≠ [] → n !! 0%nat ≠ Some SLASH → len n ≤ MAX_NAME_LEN → find_file fs n = None → find_free_slot fs = Some slot →
  ∃ fs', open fs n (OpenFlags_from_raw 7) = Ret (Ok (ino_of slot), fs') ∧ fs_ok fs' ∧ fs' !! slot = Some (fresh_file n) ∧
    ((∃ r d, fs !! r = Some d ∧ is_root d = true ∧ fs' = with_entry fs r d slot (fresh_file n)) ∨ fs' = <[slot := fresh_file n]> fs).
Proof.
  intros Hok Hg Hne H0 Hl Hf Hs. pose proof (open_safe fs n (OpenFlags_from_raw 7) Hok Hg) as Hsafe.
  unfold open in *. rewrite (trim_start_id SLASH n H0) in *. rewrite bool_decide_false, Hf in * by done.
  change (OpenFlags_contains (OpenFlags_from_raw 7) OpenFlags_CREATE) with true in *. rewrite Hs in *.
  destruct (free_slot _ _ Hs) as (e0 & He0 & Hf0). rewrite (init_slot_cases _ _ e0), (proj2 (Z.leb_le _ _) Hl) in * by done.
  cbn [mbind outcome_bind] in *.
  assert (∀ x, <[slot := x]> fs !! slot = Some x) as Hlk by (intros x; apply list_lookup_insert_eq; by eapply lookup_lt_Some).
  destruct (get_root_dir_idx _) as [r|] eqn:Hr; [|destruct Hsafe; eexists; by split_and!; [..|right]].
  apply position_Some in Hr as [(d & Hd & Hroot) _]. unfold add_child, entry in *. rewrite Hlk in *. cbn [mbind outcome_bind] in *.
  rewrite (update_ok _ _ d) in * by done. cbn [mbind outcome_bind] in *. destruct Hsafe as [Hok' _]. eexists. split; [done|]. split; [done|].
  assert (r ≠ slot) by (intros ->; rewrite Hlk in Hd; by injection Hd as <-). split; [by rewrite list_lookup_insert_ne|].
  left. exists r, d. by rewrite list_lookup_insert_ne in Hd.
Qed.

(** What remains of a path below the root, and a single component of one. *)
Record flat_path n : Prop := mkFlatPath {
  fp_good : good_name n;
  fp_head : n !! 0%nat ≠ Some SLASH;
  fp_nonempty : n ≠ [];
  fp_len : len n ≤ MAX_NAME_LEN;
}.

Record root_name n : Prop := mkRootName {
  rn_good : good_name n;
  rn_slash : SLASH ∉ n;
  rn_nonempty : n ≠ [];
  rn_len : len n ≤ MAX_NAME_LEN;
}.

Lemma root_name_flat n : root_name n → flat_path n.
Proof. intros [? Hs ? ?]. split; [done| |done..]. intros Heq. apply Hs. by eapply list_elem_of_lookup_2. Qed.

Lemma flat_path_rel n : flat_path n → default n (strip_prefix SLASH n) = n.
Proof.
  intros Hn. pose proof (fp_head _ Hn) as Hh. destruct n as [|x n]; [done|]. simpl in *.
  destruct (Z.eqb_spec x SLASH); [congruence|done].
Qed.

Lemma fs_open_creates k t np nl n slot :
  booted k → current k = Some t → user_str k np nl = Ok (SLASH :: n) → flat_path n →
  find_file (fs_state k) n = None → find_free_slot (fs_state k) = Some slot →
  ∀ fd, free_fd (fd_table t) FD_FIRST_USABLE = Some fd →
  ∃ k1 t1 e1, sys_fs_open k np nl 1 = Ret (fd, k1) ∧ booted k1 ∧ on_file k1 fd t1 e1 (fresh_file n) ∧
    fd_offset e1 = 0 ∧ user_mem k1 = user_mem k ∧ fd_table t1 = <[fd := e1]> (fd_table t) ∧
    open (fs_state k) n (OpenFlags_from_raw 7) = Ret (Ok (ino_of slot), fs_state k1).
Proof.
  intros [Hmnt Hok] Ht Hs Hn Hf Hfree fd Hfd.
  destruct (open_creates (fs_state k) n slot) as (fs' & Hopen & Hok' & Hslot & _); try done; [apply Hn..|].
  pose proof (free_fd_spec (fd_table t)) as Hspec. rewrite Hfd in Hspec. destruct Hspec as [_ Hrange].
  unfold sys_fs_open. change (1 <? 1) with false. cbn iota. rewrite Hs.
  assert (resolve_path k (SLASH :: n) = SLASH :: n) as -> by (unfold resolve_path; reflexivity).
  rewrite Hmnt, resolve_root, flat_path_rel by done. cbn [mbind outcome_bind]. change (1 =? 0) with false. cbn iota.
  unfold fs_call. cbn [fs_open fs_stat RamFsVfs_FileSystem]. rewrite Hopen. cbn [mbind outcome_bind fs_state with_fs].
  destruct (stat_live fs' (ino_of slot) (fresh_file n)) as (m & Hst & Hfifo); [done|unfold ino_of, FILE_INO_OFFSET; lia|by rewrite slot_of_ino|done|].
  rewrite Hst. cbn [mbind outcome_bind]. rewrite Hfifo. unfold install_fd. cbn [current with_fs]. rewrite Ht, Hfd.
  set (e1 := mkFdEntry (SLASH :: n) (ino_of slot) 0).
  eexists _, (set_fds t (<[fd := e1]> (fd_table t))), e1. split; [done|]. split; [done|]. split; [|done].
  split; [lia|unfold lookup_fd; simpl; by rewrite lookup_insert_eq|by eexists|simpl; unfold ino_of, FILE_INO_OFFSET; lia| |done].
  simpl. by rewrite slot_of_ino.
Qed.


(** ** Renaming *)

Lemma last_not_in (l : list Z) b : b ∉ l → list.last l ≠ Some b.
Proof. intros Hb Hl. apply Hb. rewrite last_lookup in Hl. by eapply list_elem_of_lookup_2. Qed.

(** The parent and name of a path with at least one slash before its last
    component. *)
Lemma split_parent_ok p n : SLASH ∉ n → n ≠ [] →
  split_parent_name (p ++ SLASH :: n) = Some (if (length p =? 0)%nat then str "/" else p, n).
Proof.
  intros Hs Hne. unfold split_parent_name. rewrite trim_end_id.
  2: { destruct n as [|x n _] using rev_ind; [done|]. rewrite app_comm_cons, app_assoc, last_snoc. intros [= ->].
       apply Hs, elem_of_app. right. left. }
  rewrite rfind_app by done. rewrite take_app_length.
  assert (drop (length p + 1) (p ++ SLASH :: n) = n) as -> by (rewrite drop_app_add'; [done|done]).
  by rewrite bool_decide_false.
Qed.

Lemma split_root_name n : root_name n → split_parent_name (SLASH :: n) = Some (str "/", n).
Proof. intros Hn. apply (split_parent_ok []); apply Hn. Qed.

(** Opening an existing name does not change the file system. *)
Lemma open_existing (fs : list FileEntry) n idx flags :
  n ≠ [] → n !! 0%nat ≠ Some SLASH → find_file fs n = Some idx → OpenFlags_contains flags OpenFlags_TRUNCATE = false →
  open fs n flags = Ret (Ok (ino_of idx), fs).
Proof.
  intros Hne H0 Hf Ht. unfold open. rewrite trim_start_id by done. rewrite bool_decide_false by done. by rewrite Hf, Ht.
Qed.

Lemma read_whole (fs : list FileEntry) idx x m :
  fs_ok fs → fs !! idx = Some x → in_use x = true → MAX_FILE_SIZE ≤ m → read fs (ino_of idx) 0 m = Ret (Ok (data x), fs).
Proof.
  intros Hok Hx Hu Hm. unfold read. rewrite not_root_ino.
  rewrite (live_entry_at _ _ x); [|done|unfold ino_of, FILE_INO_OFFSET; lia|by rewrite slot_of_ino|done]. cbn [mbind outcome_bind].
  pose proof (eo_data _ (fo_entry _ Hok _ _ Hx)) as Hd. destruct (Z.leb_spec (len (data x)) 0) as [Hz|Hz].
  - unfold len in Hz. destruct (data x); [done|simpl in Hz; lia].
  - rewrite slice_ok by lia. cbn [mbind outcome_bind]. simpl. rewrite drop_0, take_ge; [done|unfold len in *; lia].
Qed.

Lemma rewrite_same (fs : list FileEntry) idx x :
  fs_ok fs → fs !! idx = Some x → in_use x = true → write fs (ino_of idx) 0 (data x) = Ret (Ok (len (data x)), fs).
Proof.
  intros Hok Hx Hu. pose proof (eo_data _ (fo_entry _ Hok _ _ Hx)) as Hd. unfold MAX_FILE_SIZE in Hd.
  pose proof (write_then_read fs (ino_of idx) x 0 (data x) 0 0 Hok) as Hw. rewrite slot_of_ino in Hw.
  rewrite (proj2 (Z.leb_le _ _)) in Hw by (unfold MAX_FILE_SIZE; lia).
  destruct Hw as [-> _]; [unfold ino_of, FILE_INO_OFFSET; lia|done|done|done|lia..|]. do 2 f_equal. apply list_insert_id.
  assert (overlay 0 (data x) (data x) = data x) as Ho; [|rewrite Ho; by destruct x].
  unfold overlay. simpl. rewrite drop_ge, app_nil_r; [done|unfold len; lia].
Qed.

(** renaming a file to itself deletes it. For a regular file directly below
    the root, [rename] with the same path twice reports success and leaves the
    file removed, its contents lost. *)
Theorem rename_to_itself_deletes k p l n r d idx x :
  booted k → copy_from_user k p l = Some (SLASH :: n) → root_name n →
  get_root_dir_idx (fs_state k) = Some r → fs_state k !! r = Some d →
  find_file (fs_state k) n = Some idx → find_child (fs_state k) r n = Ret (Some idx) →
  fs_state k !! idx = Some x → is_dir x = false →
  ∃ k', sys_fs_rename k p l p l = Ret (0, k') ∧ fs_state k' !! idx = Some empty_entry ∧ find_child (fs_state k') r n = Ret None.
Proof.
  intros [Hmnt Hok] Hc Hn Hr Hd Hf Hfc Hx Hdir. pose proof (rn_good _ Hn) as [Hu8 H0]. set (fs := fs_state k) in *.
  destruct (find_file_Some _ _ _ Hf) as (x' & Hx' & Hu & _). rewrite Hx in Hx'. injection Hx' as <-.
  pose proof (root_idx_ok fs Hok) as Hroot. rewrite Hr in Hroot. destruct Hroot as (d' & Hd' & Hroot & _).
  rewrite Hd in Hd'. injection Hd' as <-. destruct (is_root_live _ Hroot) as [Hud Hdd].
  destruct (unlink_at fs ROOT_INO r d n idx) as (Hun & a & Hin); [done..|by left|done|done|].
  unfold sys_fs_rename. rewrite Hc. assert (from_utf8 (SLASH :: n) = Some (SLASH :: n)) as -> by (by apply from_utf8_good).
  assert (resolve_path k (SLASH :: n) = SLASH :: n) as -> by (unfold resolve_path; reflexivity).
  unfold rename_paths. pose proof (root_name_flat _ Hn) as Hflat. rewrite Hmnt, resolve_root, flat_path_rel by done. cbn [mbind outcome_bind].
  unfold fs_call. cbn [fs_open fs_read fs_close fs_write RamFsVfs_FileSystem]. pose proof (fp_head _ Hflat) as Hh.
  fold fs. rewrite (open_existing fs n idx) by (done || apply Hn). cbn [mbind outcome_bind fs_state with_fs].
  rewrite (read_whole fs idx x) by done. unfold close. cbn [mbind outcome_bind fs_state with_fs mounts]. rewrite Hmnt, resolve_root, flat_path_rel by done.
  cbn [mbind outcome_bind]. rewrite (open_existing fs n idx) by (done || apply Hn). cbn [mbind outcome_bind fs_state with_fs].
  set (w := if 0 <? len (data x) then _ else _). assert (w = Ret (with_fs k fs)) as ->.
  { unfold w. destruct (0 <? len (data x)); [|done]. by rewrite (rewrite_same fs idx x). }
  cbn [mbind outcome_bind fs_state with_fs]. unfold unlink_path. rewrite split_root_name by done. cbn [mounts with_fs].
  rewrite Hmnt. change (str "/") with [SLASH]. rewrite resolve_root. cbn [mbind outcome_bind strip_prefix default].
  unfold fs_call. cbn [fs_open fs_unlink fs_close RamFsVfs_FileSystem fs_state with_fs]. unfold open at 1, ensure_root_dir.
  cbn [trim_start_matches]. rewrite bool_decide_true by done. rewrite Hr. cbn [mbind outcome_bind fs_state with_fs].
  rewrite Hun. unfold close. cbn [mbind outcome_bind fs_state with_fs].
  eexists. split; [done|]. cbn [fs_state with_fs].
  split; [unfold removed; apply list_lookup_insert_eq; rewrite length_insert; by eapply lookup_lt_Some|].
  apply find_child_removed; try done. congruence.
Qed.

(** ** Directories *)

(** Other names are found where they were after a creating [open]. *)
Lemma open_creates_find (fs fs' : list FileEntry) n m slot :
  fs_ok fs → good_name n → len n ≤ MAX_NAME_LEN → find_free_slot fs = Some slot → m ≠ n →
  ((∃ r d, fs !! r = Some d ∧ is_root d = true ∧ fs' = with_entry fs r d slot (fresh_file n)) ∨ fs' = <[slot := fresh_file n]> fs) →
  find_file fs' m = find_file fs m.
Proof.
  intros Hok Hg Hl Hs Hmn Hfs'. destruct (free_slot _ _ Hs) as (e0 & He0 & Hf0).
  assert (find_file (<[slot := fresh_file n]> fs) m = find_file fs m) as Heq.
  { apply (position_insert _ _ _ e0); [done|]. unfold named. rewrite Hf0. cbn [in_use fresh_file name andb].
    apply bool_decide_eq_false. rewrite from_utf8_pad by done. congruence. }
  destruct Hfs' as [(r & d & Hr & Hroot & ->)| -> ]; [|done]. rewrite <- Heq. destruct (is_root_live _ Hroot) as [Hu _].
  apply (position_insert _ _ _ d); [|done]. rewrite list_lookup_insert_ne; [done|congruence].
Qed.

Lemma open_creates_children (fs fs' : list FileEntry) n slot i x :
  good_name n → len n ≤ MAX_NAME_LEN → find_free_slot fs = Some slot → fs !! i = Some x → in_use x = true →
  ((∃ r d, fs !! r = Some d ∧ is_root d = true ∧ fs' = with_entry fs r d slot (fresh_file n)) ∨ fs' = <[slot := fresh_file n]> fs) →
  ∃ x', fs' !! i = Some x' ∧ in_use x' = true ∧ is_dir x' = is_dir x ∧
    ∀ m, m ∈ cstr <$> (children x').*1 → m = n ∨ m ∈ cstr <$> (children x).*1.
Proof.
  intros Hg Hl Hs Hi Hu Hfs'. destruct (free_slot _ _ Hs) as (e0 & He0 & Hf0). assert (i ≠ slot) as Hne by congruence.
  destruct Hfs' as [(r & d & Hr & Hroot & ->)| -> ].
  - unfold with_entry. destruct (decide (i = r)) as [->|Hir].
    + rewrite list_lookup_insert_eq by (rewrite length_insert; by eapply lookup_lt_Some). rewrite Hi in Hr. injection Hr as <-.
      eexists. split_and!; [done..|]. intros m. simpl. rewrite !fmap_app. intros [?|Hm%list_elem_of_singleton]%elem_of_app; [by right|left].
      rewrite Hm. apply cstr_pad; [apply Hg|done].
    + exists x. rewrite !list_lookup_insert_ne by done. auto.
  - exists x. rewrite list_lookup_insert_ne by done. auto.
Qed.

(** a file opened in a subdirectory is not in it. When the directory [/d]
    exists and [/d/x] does not, a creating [open] of [/d/x] succeeds, but
    [unlink] of the same path reports that there is no such file and leaves the
    file system as it is: the file was made under the flat name [d/x]. *)
Theorem subdirectory_file_misplaced k t p l dn xn i dir slot fd :
  booted k → current k = Some t → user_str k p l = Ok (SLASH :: dn ++ SLASH :: xn) →
  root_name dn → root_name xn → len (dn ++ SLASH :: xn) ≤ MAX_NAME_LEN →
  find_file (fs_state k) dn = Some i → fs_state k !! i = Some dir → is_dir dir = true →
  find_child (fs_state k) i xn = Ret None → find_file (fs_state k) (dn ++ SLASH :: xn) = None →
  find_free_slot (fs_state k) = Some slot → free_fd (fd_table t) FD_FIRST_USABLE = Some fd →
  ∃ k1 k2, sys_fs_open k p l 1 = Ret (fd, k1) ∧ sys_fs_unlink k1 p l = Ret (Error_NotFound, k2) ∧ fs_state k2 = fs_state k1.
Proof.
  intros Hb Ht Hs Hdn Hxn Hl Hfd Hi Hdir Hfc Hff Hfree Hfdt. set (n := dn ++ SLASH :: xn) in *.
  assert (flat_path n) as Hn.
  { pose proof (fp_head _ (root_name_flat _ Hdn)) as Hh. destruct Hdn as [[Hu1 Hz1] _ Hne _], Hxn as [[Hu2 Hz2] _ _ _]. split; [|by destruct dn|by destruct dn|done].
    unfold user_str in Hs. destruct (copy_from_user k p l) as [bytes|]; [|done]. unfold from_utf8 in Hs. destruct (utf8_valid bytes) eqn:Hv; [|done].
    injection Hs as ->. split; [done|]. unfold n. rewrite elem_of_app, elem_of_cons. intros [?|[?|?]]; done. }
  destruct (fs_open_creates k t p l n slot) with (fd := fd) as (k1 & t1 & e1 & Hopen & [Hm1 Hok1] & _ & _ & Hmem & _ & Hopen'); [done..|].
  destruct Hb as [Hmnt Hok]. destruct (open_creates (fs_state k) n slot) as (fs' & Hopen2 & _ & _ & Hshape); try done; [apply Hn..|].
  rewrite Hopen' in Hopen2. injection Hopen2 as <-. exists k1, k1. split_and!; [done| |done].
  destruct (find_file_Some _ _ _ Hfd) as (dir' & Hi' & Hu & _). rewrite Hi in Hi'. injection Hi' as <-.
  assert (find_file (fs_state k1) dn = Some i) as Hfd1.
  { rewrite (open_creates_find (fs_state k) _ n dn slot); try done; [apply Hn|]. unfold n. intros Heq. apply (f_equal length) in Heq. rewrite length_app in Heq. simpl in Heq. lia. }
  destruct (open_creates_children (fs_state k) (fs_state k1) n slot i dir) as (x1 & Hx1 & Hu1 & Hd1 & Hkids); try done; [apply Hn|].
  destruct (find_child_cases (fs_state k) i dir xn) as (r0 & Hr0 & Hnot); [done..|apply Hxn|]. rewrite Hfc in Hr0. injection Hr0 as <-.
  assert (find_child (fs_state k1) i xn = Ret None) as Hfc1.
  { destruct (find_child_cases (fs_state k1) i x1 xn) as (r & -> & Hr); [done|congruence|apply Hxn|]. destruct r as [c|]; [|done]. exfalso.
    destruct Hr as (a & Ha & Hca). destruct (Hkids xn) as [Heq|]; [rewrite <- Hca; apply list_elem_of_fmap; exists a; split; [done|by eapply elem_children]| |done].
    apply (f_equal length) in Heq. unfold n in Heq. rewrite length_app in Heq. simpl in Heq. lia. }
  unfold sys_fs_unlink, in_parent. assert (user_str k1 p l = Ok (SLASH :: n)) as ->.
  { unfold user_str, copy_from_user in *. by rewrite Hmem. }
  assert (resolve_path k1 (SLASH :: n) = SLASH :: n) as -> by (unfold resolve_path; reflexivity).
  change (SLASH :: n) with ((SLASH :: dn) ++ SLASH :: xn). rewrite split_parent_ok by apply Hxn. cbn [length Nat.eqb].
  pose proof (root_name_flat _ Hdn) as Hflat. rewrite Hm1, resolve_root, flat_path_rel by done. cbn [mbind outcome_bind].
  unfold fs_call. cbn [fs_open fs_unlink fs_close RamFsVfs_FileSystem].
  rewrite (open_existing (fs_state k1) dn i) by (done || apply Hflat). cbn [mbind outcome_bind]. rewrite with_fs_same.
  unfold unlink, parent_to_remove. rewrite not_root_ino, (live_dir_at _ _ x1) by (done || congruence). cbn [mbind outcome_bind].
  rewrite slot_of_ino, Hfc1. cbn [mbind outcome_bind]. unfold close. rewrite with_fs_same. cbn [mbind outcome_bind]. by rewrite with_fs_same.
Qed.

End ramfs_calls.

(** ** Instances on a small system *)

(** User memory with a path at 0x1000 and some data at 0x2000. *)
Definition sample_mem (path bytes : list Z) : Z → Z := poke (poke (λ _, 0) 0x1000 path) 0x2000 bytes.

Definition sample_task (fds : gmap Z FdEntry) : Task := mkTask HandleTable_new fds (str "/") 0.

Definition sample_kernel (fs : list FileEntry) (fds : gmap Z FdEntry) (path : list Z) : Kernel RamFsVfs (list FileEntry) :=
  mkKernel (Some (sample_task fds)) (sample_mem path [1; 2; 3]) root_mount fs ∅ [].

(** The file [x] of the small tree, open at offset 0 as descriptor 2. *)
Definition open_x : FdEntry := mkFdEntry (str "/x") 3 0.

Lemma open_x_on_file :
  on_file (sample_kernel tree_fs {[ 2 := open_x ]} (str "/a")) 2 (sample_task {[ 2 := open_x ]}) open_x (fresh_file (str "x")).
Proof. split; [done| |by eexists|done|reflexivity|done]. reflexivity. Qed.

Lemma root_name_ascii n :
  forallb (λ b, (0 <? b) && (b <? 0x80) && negb (b =? SLASH)) n = true → n ≠ [] → len n ≤ MAX_NAME_LEN → root_name n.
Proof.
  intros Hn Hne Hl. split; [| |done|done].
  - apply good_ascii. rewrite forallb_forall in *. intros b Hb. by apply Hn, andb_true_iff in Hb as [? _].
  - intros Hin%list_elem_of_In. rewrite forallb_forall in Hn. apply Hn, andb_true_iff in Hin as [_ Hin]. done.
Qed.

#[local] Existing Instance dev_profile.

Lemma close_pipe_panics_witness :
  ∃ k' r, sys_pipe (sample_kernel root_fs ∅ []) 0x3000 = Ret (0, k') ∧ sys_fs_close k' r = Panic.
Proof.
  destruct (sys_pipe (sample_kernel root_fs ∅ []) 0x3000) as [[c k']|] eqn:Hp; [|discriminate Hp].
  assert (c = 0) as -> by (injection Hp as <- _; reflexivity).
  destruct (close_pipe_panics (sample_kernel root_fs ∅ []) 0x3000 k' root_mount_ok Hp) as (r & w & _ & Hall).
  exists k', r. split; [reflexivity|]. apply (Hall r (or_introl eq_refl)).
Defined.

Lemma readlink_relative_panics_witness : sys_readlink (sample_kernel root_fs ∅ (str "abc")) 0x1000 3 0x2000 16 = Panic.
Proof. by apply (readlink_relative_panics (sample_kernel root_fs ∅ (str "abc")) 0x1000 3 0x2000 16 (str "abc") root_mount_ok). Defined.

Lemma open_fresh_descriptor_witness :
  ∃ k', sys_fs_open (sample_kernel root_fs ∅ (str "/abc")) 0x1000 4 1 = Ret (2, k') ∧ is_Some (fd_entry k' 2).
Proof.
  destruct (sys_fs_open (sample_kernel root_fs ∅ (str "/abc")) 0x1000 4 1) as [[c k']|] eqn:Hp; [|discriminate Hp].
  assert (c = 2) as -> by (injection Hp as <- _; reflexivity).
  exists k'. split; [reflexivity|]. apply (open_fresh_descriptor (sample_kernel root_fs ∅ (str "/abc")) 0x1000 4 1 2 k' Hp). lia.
Defined.

Lemma seek_write_panics_witness :
  ∃ k, sys_fs_write k 2 0x2000 3 = Panic.
Proof.
  destruct (seek_write_panics (sample_kernel tree_fs {[ 2 := open_x ]} (str "/a")) 2 _ _ _ 0x2000 3 [1; 2; 3]
    (conj eq_refl tree_fs_ok) open_x_on_file) as (k1 & k2 & _ & _ & Hw); [reflexivity|done|].
  exists k2. exact Hw.
Defined.

Lemma read_at_eof_witness :
  sys_fs_read (sample_kernel tree_fs {[ 2 := open_x ]} (str "/a")) 2 0x2000 10
  = Ret (Error_BadPointer, sample_kernel tree_fs {[ 2 := open_x ]} (str "/a")).
Proof. by apply (read_at_eof (sample_kernel tree_fs {[ 2 := open_x ]} (str "/a")) 2 _ _ _ 0x2000 10 (conj eq_refl tree_fs_ok) open_x_on_file). Defined.


(** The root with one file [f] of one byte. *)
Definition file_fs : list FileEntry :=
  state_of (write (state_of (create root_fs ROOT_INO (str "f"))) 2 0 [9]).

Lemma file_fs_ok : fs_ok file_fs.
Proof.
  set (fs1 := state_of (create root_fs ROOT_INO (str "f"))).
  assert (fs_ok fs1) as Hok1.
  { eapply (ramfs_step_ok root_fs); [apply root_fs_ok|].
    by apply (step_create _ ROOT_INO (str "f") (Ok 2)); [|apply good_ascii|vm_compute]. }
  eapply (ramfs_step_ok fs1); [done|]. by apply (step_write _ 2 0 [9] (Ok 1)); [|done|vm_compute].
Qed.

Lemma rename_to_itself_deletes_witness :
  ∃ k', sys_fs_rename (sample_kernel file_fs ∅ (str "/f")) 0x1000 2 0x1000 2 = Ret (0, k') ∧ fs_state k' !! 1%nat = Some empty_entry.
Proof.
  destruct (rename_to_itself_deletes (sample_kernel file_fs ∅ (str "/f")) 0x1000 2 (str "f") 0 (default empty_entry (file_fs !! 0%nat)) 1
    (default empty_entry (file_fs !! 1%nat)) (conj eq_refl file_fs_ok)) as (k' & Hr & He & _);
    [reflexivity|by apply root_name_ascii|reflexivity..|].
  exists k'. split; [exact Hr|exact He].
Defined.

Lemma subdirectory_file_misplaced_witness :
  ∃ k1 k2, sys_fs_open (sample_kernel tree_fs ∅ (str "/d/y")) 0x1000 4 1 = Ret (2, k1) ∧
    sys_fs_unlink k1 0x1000 4 = Ret (Error_NotFound, k2).
Proof.
  destruct (subdirectory_file_misplaced (sample_kernel tree_fs ∅ (str "/d/y")) (sample_task ∅) 0x1000 4 (str "d") (str "y") 1
    (default empty_entry (tree_fs !! 1%nat)) 3 2 (conj eq_refl tree_fs_ok) eq_refl) as (k1 & k2 & Ho & Hu & _);
    [reflexivity|by apply root_name_ascii|by apply root_name_ascii|done|reflexivity..|].
  exists k1, k2. split; [exact Ho|exact Hu].
Defined.
