(* ===== verification/Bytes.v ===== *)
(** * Little-endian integers in byte slices

    [to_le_bytes] and [from_le_bytes] of the integer types, and slices of lists
    put together from known parts. *)

From S2P Require Import Prelude.

(** The [n] bytes of [x], the lowest first. *)
Fixpoint le_bytes (n : nat) (x : Z) : list Z :=
  match n with O => [] | S n => x mod 256 :: le_bytes n (x `div` 256) end.

Fixpoint le_val (l : list Z) : Z :=
  match l with [] => 0 | b :: l => b + 256 * le_val l end.

(** [uN::from_le_bytes(data[a..b].try_into().unwrap())]. *)
Definition read_le (bytes : list Z) (a b : Z) : outcome Z := l ← slice bytes a b; Ret (le_val l).

Definition all_bytes (l : list Z) : bool := forallb (λ b, (0 <=? b) && (b <? 256)) l.

(** ** Properties *)

Lemma all_bytes_ok l : all_bytes l = true → Forall is_byte l.
Proof.
  unfold all_bytes. induction l as [|b l IH]; simpl; [constructor|]. rewrite !andb_true_iff, Z.leb_le, Z.ltb_lt.
  intros [Hb Hl]. constructor; [exact Hb|auto].
Qed.

Lemma length_le_bytes n x : length (le_bytes n x) = n.
Proof. revert x. induction n as [|n IH]; intros x; simpl; [done|by rewrite IH]. Qed.

Lemma le_bytes_val n x : 0 ≤ x < 256 ^ Z.of_nat n → le_val (le_bytes n x) = x.
Proof.
  revert x. induction n as [|n IH]; intros x Hx; simpl; [simpl in Hx; lia|].
  rewrite Nat2Z.inj_succ, Z.pow_succ_r in Hx by lia.
  rewrite IH; [pose proof (Z.div_mod x 256); lia|].
  split; [apply Z.div_pos; lia|apply Z.div_lt_upper_bound; lia].
Qed.

Lemma le_bytes_byte n x : Forall is_byte (le_bytes n x).
Proof.
  revert x. induction n as [|n IH]; intros x; simpl; constructor; [|done].
  unfold is_byte, is_uint. apply Z.mod_pos_bound. lia.
Qed.

Lemma le_val_bound l : Forall is_byte l → 0 ≤ le_val l < 256 ^ len l.
Proof.
  unfold len. induction 1 as [|b l Hb Hl IH]; [simpl; lia|].
  cbn [le_val length]. unfold is_byte, is_uint in Hb. rewrite Nat2Z.inj_succ, Z.pow_succ_r by lia. lia.
Qed.

Lemma index_mid (p : list Z) x s i : i = len p → index (p ++ x :: s) i = Ret x.
Proof. intros ->. apply index_lookup; [unfold len; lia|]. unfold len. rewrite Nat2Z.id. by apply list_lookup_middle. Qed.

(** A slice that is one part of the whole. *)
Lemma slice_mid {A} (p m s : list A) a b :
  a = len p → b = len p + len m → slice (p ++ m ++ s) a b = Ret m.
Proof.
  unfold len. intros -> ->. rewrite slice_ok; [|lia|lia|unfold len; rewrite !length_app; lia].
  rewrite Nat2Z.id, drop_app_length.
  replace (Z.to_nat _) with (length m) by lia. by rewrite take_app_length.
Qed.

Lemma slice_prefix {A} (m s : list A) b : b = len m → slice (m ++ s) 0 b = Ret m.
Proof. intros ->. by apply (slice_mid [] m s). Qed.

Lemma read_le_mid p n x s a b :
  0 ≤ x < 256 ^ Z.of_nat n → a = len p → b = len p + Z.of_nat n → read_le (p ++ le_bytes n x ++ s) a b = Ret x.
Proof.
  intros Hx -> ->. unfold read_le.
  rewrite slice_mid; [|done|unfold len at 3; by rewrite length_le_bytes].
  simpl. by rewrite le_bytes_val.
Qed.

Lemma read_le_prefix n x s b : 0 ≤ x < 256 ^ Z.of_nat n → b = Z.of_nat n → read_le (le_bytes n x ++ s) 0 b = Ret x.
Proof. intros ? ->. by apply (read_le_mid []). Qed.

Lemma slice_length {A} (l m : list A) a b : slice l a b = Ret m → len m = b - a.
Proof.
  unfold slice, len. destruct (_ && _) eqn:E; [|done]. intros [= <-].
  rewrite !andb_true_iff, !Z.leb_le in E. rewrite length_take, length_drop. lia.
Qed.

Lemma slice_Forall {A} (P : A → Prop) (l m : list A) a b : Forall P l → slice l a b = Ret m → Forall P m.
Proof.
  intros Hl. unfold slice. destruct (_ && _); [|done]. intros [= <-]. by apply Forall_take, Forall_drop.
Qed.

Lemma read_le_ok bytes a b :
  Forall is_byte bytes → 0 ≤ a ≤ b → b ≤ len bytes → ∃ x, read_le bytes a b = Ret x ∧ 0 ≤ x < 256 ^ (b - a).
Proof.
  intros Hb Ha Hl. unfold read_le. destruct (slice bytes a b) as [m|] eqn:E.
  - exists (le_val m). split; [done|]. rewrite <- (slice_length _ _ _ _ E).
    apply le_val_bound. by eapply slice_Forall.
  - rewrite slice_ok in E by lia. done.
Qed.

#[global] Arguments le_bytes : simpl never.
#[global] Arguments le_val : simpl never.
