(* ===== verification/Loop.v ===== *)
(** * Loops that are not structural

    A [while] loop of the source as the iteration of its body, with a binary
    number of turns as fuel, so that it evaluates; [while_spec] shows with an
    invariant and a measure that the loop ends. *)

From S2P Require Import Prelude.
Local Open Scope Z_scope.

Lemma bind_Ret {A B} (f : A → outcome B) a : (Ret a ≫= f) = f a.
Proof. done. Qed.

(** A [for] loop over known values. *)
Fixpoint for_each {A S} (body : A → S → outcome S) (l : list A) (s : S) : outcome S :=
  match l with [] => Ret s | a :: l => s ← body a s; for_each body l s end.

Lemma for_each_app {A S} (l l' : list A) (f : A → S → outcome S) s :
  for_each f (l ++ l') s = (s ← for_each f l s; for_each f l' s).
Proof. revert s. induction l as [|a l IH]; intros s; [done|]. cbn [for_each app]. destruct (f a s); [apply IH|done]. Qed.

(** A loop whose turns do not panic is a fold. *)
Lemma for_each_foldl {A S} (l : list A) (f : A → S → outcome S) (g : S → A → S) (P : S → Prop) s :
  (∀ a s, a ∈ l → P s → f a s = Ret (g s a) ∧ P (g s a)) → P s → for_each f l s = Ret (foldl g s l) ∧ P (foldl g s l).
Proof.
  revert s. induction l as [|a l IH]; intros s Hf Hs; [done|]. cbn [for_each foldl]. destruct (Hf a s) as [-> Hg]; [by left|done|].
  rewrite bind_Ret. apply IH; [|done]. intros. apply Hf; [by right|done].
Qed.

Section loop.
Context {S R : Type} (body : S → outcome (S + R)).

(** At most [p] turns; [inl] when they did not suffice. *)
Fixpoint while_loop (p : positive) (s : S) : outcome (S + R) :=
  match p with
  | xH => body s
  | xO p => r ← while_loop p s; match r with inl s => while_loop p s | inr x => Ret (inr x) end
  | xI p =>
      r ← body s;
      match r with
      | inl s => r ← while_loop p s; match r with inl s => while_loop p s | inr x => Ret (inr x) end
      | inr x => Ret (inr x)
      end
  end.

(** More turns than any loop over 64-bit quantities needs. *)
Definition FOREVER : positive := 2 ^ 65.

(** The loop of the source; running out of turns counts as a panic. *)
Definition while_do (s : S) : outcome R :=
  r ← while_loop FOREVER s; match r with inr x => Ret x | inl _ => Panic end.

Context (I : S → Prop) (measure : S → Z) (Q : R → Prop).

(** A turn keeps the invariant and decreases the measure, or ends the loop. *)
Definition turn_ok : Prop :=
  ∀ s, I s → ∃ r, body s = Ret r ∧ match r with inl s' => I s' ∧ 0 ≤ measure s' < measure s | inr x => Q x end.

Lemma while_turns p s :
  turn_ok → I s → ∃ r, while_loop p s = Ret r ∧
    match r with inl s' => I s' ∧ 0 ≤ measure s' ≤ measure s - Z.pos p | inr x => Q x end.
Proof.
  intros Hb. revert s. induction p as [p IH|p IH|]; intros s Hi; cbn [while_loop].
  - destruct (Hb s Hi) as ([s1|x] & -> & H1); cbn [mbind outcome_bind]; [|by exists (inr x)]. destruct H1 as [H1 Hm1].
    destruct (IH s1 H1) as ([s2|x] & -> & H2); cbn [mbind outcome_bind]; [|by exists (inr x)]. destruct H2 as [H2 Hm2].
    destruct (IH s2 H2) as ([s3|x] & -> & H3); [|by exists (inr x)]. exists (inl s3). destruct H3. split; [done|]. split; [done|lia].
  - destruct (IH s Hi) as ([s2|x] & -> & H2); cbn [mbind outcome_bind]; [|by exists (inr x)]. destruct H2 as [H2 Hm2].
    destruct (IH s2 H2) as ([s3|x] & -> & H3); [|by exists (inr x)]. exists (inl s3). destruct H3. split; [done|]. split; [done|lia].
  - destruct (Hb s Hi) as ([s1|x] & -> & H1); [|by exists (inr x)]. exists (inl s1). destruct H1. split; [done|]. split; [done|lia].
Qed.

Lemma while_spec s : turn_ok → I s → measure s < 2 ^ 65 → ∃ x, while_do s = Ret x ∧ Q x.
Proof.
  intros Hb Hi Hm. unfold while_do. destruct (while_turns FOREVER s Hb Hi) as ([s'|x] & -> & H); cbn [mbind outcome_bind]; [|by exists x].
  destruct H as [_ H]. change (Z.pos FOREVER) with (2 ^ 65) in H. lia.
Qed.

End loop.
