(* ===== verification/PhysMem.v ===== *)
(** * Physical memory

    A function from physical addresses to bytes, as the kernel writes it
    through the linear map of all of it ([phys_to_virt] of
    kernel/src/memory/mod.rs, once its offset is set): [write_bytes] and
    [copy_nonoverlapping] on frames, and the 64-bit words of page tables. *)

From S2P Require Import Prelude Bytes.

Definition memory_map : Type := Z → Z.
Implicit Types m : memory_map.

Definition zero_page m (dst : Z) : memory_map := λ a, if (dst <=? a) && (a <? dst + 4096) then 0 else m a.
Definition copy_bytes m (dst : Z) (src : list Z) : memory_map :=
  λ a, if (dst <=? a) && (a <? dst + len src) then default 0 (src !! Z.to_nat (a - dst)) else m a.

Definition read64 m (a : Z) : Z := le_val (map m (seqZ a 8)).
Definition write64 m (a v : Z) : memory_map := copy_bytes m a (le_bytes 8 v).

(** A loop that writes consecutive words. *)
Definition write_words m (a : Z) (ws : list Z) : memory_map := copy_bytes m a (concat (map (le_bytes 8) ws)).

(** The frame that contains an address. *)
Definition frame_of (a : Z) : Z := a - a mod 4096.

(** ** Properties *)

Lemma frame_of_bounds x : frame_of x ≤ x < frame_of x + 4096 ∧ frame_of x mod 4096 = 0.
Proof.
  unfold frame_of. pose proof (Z.mod_pos_bound x 4096). split; [lia|].
  rewrite Zminus_mod, Z.mod_mod by lia. by rewrite Z.sub_diag.
Qed.

Lemma frame_of_unique x p : p mod 4096 = 0 → p ≤ x < p + 4096 → frame_of x = p.
Proof.
  intros Hp Hx. pose proof (frame_of_bounds x) as [Hb Hm].
  pose proof (Z.div_mod (frame_of x) 4096). pose proof (Z.div_mod p 4096). lia.
Qed.

Lemma page_frame v j : v mod 4096 = 0 → 0 ≤ j < 4096 → frame_of (v + j) = v.
Proof. intros Hv Hj. apply frame_of_unique; [done|lia]. Qed.

Lemma copy_bytes_at m dst src a :
  copy_bytes m dst src a = if decide (dst ≤ a < dst + len src) then default 0 (src !! Z.to_nat (a - dst)) else m a.
Proof.
  unfold copy_bytes. destruct (decide _) as [[? ?]|Hn].
  - by rewrite (proj2 (Z.leb_le _ _)), (proj2 (Z.ltb_lt _ _)) by lia.
  - destruct (Z.leb_spec dst a), (Z.ltb_spec a (dst + len src)); simpl; lia || done.
Qed.

Lemma zero_page_at m p a : zero_page m p a = if decide (p ≤ a < p + 4096) then 0 else m a.
Proof.
  unfold zero_page. destruct (decide _) as [[? ?]|Hn].
  - by rewrite (proj2 (Z.leb_le _ _)), (proj2 (Z.ltb_lt _ _)) by lia.
  - destruct (Z.leb_spec p a), (Z.ltb_spec a (p + 4096)); simpl; lia || done.
Qed.

Lemma read64_ext m m' a : (∀ x, a ≤ x < a + 8 → m x = m' x) → read64 m a = read64 m' a.
Proof.
  intros Heq. unfold read64. f_equal. apply map_ext_in. intros x Hx%list_elem_of_In%elem_of_seqZ. apply Heq. lia.
Qed.

Lemma read64_list m a l :
  len l = 8 → (∀ j, 0 ≤ j < 8 → m (a + j) = default 0 (l !! Z.to_nat j)) → read64 m a = le_val l.
Proof.
  intros Hl Hm. unfold read64. f_equal. apply list_eq. intros i. rewrite list_lookup_fmap. unfold len in Hl.
  destruct (decide (i < 8)%nat) as [Hi|Hi].
  - rewrite lookup_seqZ_lt by lia. simpl. rewrite Hm, Nat2Z.id by lia.
    destruct (lookup_lt_is_Some_2 l i) as [x Hx]; [lia|]. by rewrite Hx.
  - rewrite lookup_seqZ_ge by lia. simpl. symmetry. apply lookup_ge_None. lia.
Qed.

Lemma read_write_same m a v : is_uint 64 v → read64 (write64 m a v) a = v.
Proof.
  intros Hv. rewrite (read64_list _ _ (le_bytes 8 v)).
  - apply le_bytes_val. exact Hv.
  - unfold len. by rewrite length_le_bytes.
  - intros j Hj. unfold write64. rewrite copy_bytes_at. unfold len. rewrite length_le_bytes, decide_True by lia. do 2 f_equal. lia.
Qed.

Lemma write64_other m a v x : (x < a ∨ a + 8 ≤ x) → write64 m a v x = m x.
Proof. intros Hx. unfold write64. rewrite copy_bytes_at. unfold len. rewrite length_le_bytes, decide_False; [done|lia]. Qed.

Lemma read_write_other m a v b : (b + 8 ≤ a ∨ a + 8 ≤ b) → read64 (write64 m a v) b = read64 m b.
Proof. intros Hb. apply read64_ext. intros x Hx. apply write64_other. lia. Qed.

Lemma words_bytes ws i w j :
  ws !! i = Some w → (j < 8)%nat → concat (map (le_bytes 8) ws) !! (8 * i + j)%nat = le_bytes 8 w !! j.
Proof.
  revert i. induction ws as [|w' ws IH]; intros i Hw Hj; [done|]. cbn [map concat]. destruct i as [|i].
  - injection Hw as ->. rewrite lookup_app_l by (rewrite length_le_bytes; lia). done.
  - rewrite lookup_app_r by (rewrite length_le_bytes; lia). rewrite length_le_bytes.
    replace (8 * S i + j - 8)%nat with (8 * i + j)%nat by lia. auto.
Qed.

Lemma words_length ws : len (concat (map (le_bytes 8) ws)) = 8 * len ws.
Proof.
  unfold len. induction ws as [|w ws IH]; cbn [map concat length]; [done|]. rewrite length_app, length_le_bytes. lia.
Qed.

Lemma write_words_other m a ws x : (x < a ∨ a + 8 * len ws ≤ x) → write_words m a ws x = m x.
Proof. intros Hx. unfold write_words. rewrite copy_bytes_at, words_length, decide_False; [done|lia]. Qed.

Lemma read_write_words m a ws i w :
  0 ≤ i → ws !! Z.to_nat i = Some w → is_uint 64 w → read64 (write_words m a ws) (a + 8 * i) = w.
Proof.
  intros Hi Hw Hu. assert (i < len ws) as Hlt by (apply lookup_lt_Some in Hw; unfold len; lia).
  rewrite (read64_list _ _ (le_bytes 8 w)); [by apply le_bytes_val|unfold len; by rewrite length_le_bytes|].
  intros j Hj. unfold write_words. rewrite copy_bytes_at, words_length, decide_True by lia.
  rewrite <- (words_bytes ws _ _ _ Hw) by lia. do 2 f_equal. lia.
Qed.
