(* ===== verification/Initrd.v ===== *)
(** * The initial ramdisk: the archive the build tool writes
    (tools/mkinitrd/src/main.rs) and its parser in the kernel
    (kernel/src/initrd.rs)

    The tool reads its files and writes one archive; a file is its name and its
    contents, the archive a list of bytes. Reading the files and creating the
    output are not modelled. Lengths are those of vectors in memory, far below
    the width of [usize]. *)

From stdpp Require Import strings.
From S2P Require Import Prelude RustStr Bytes.
Local Open Scope Z_scope.

#[local] Arguments replicate : simpl never.

Definition MAGIC : Z := 0x4F535244.
Definition ENTRY_SIZE : Z := 264.
Definition NAME_MAX : Z := 256.
Definition HEADER_SIZE : Z := 8.

Record InitrdFile : Type := mkInitrdFile { file_name : list Z; file_data : list Z }.

Inductive InitrdError : Type := TooSmall | BadMagic | IndexOutOfBounds | InvalidFilename | DataOutOfBounds.

(** ** The parser *)

Definition parse_header (bytes : list Z) : outcome (result Z InitrdError) :=
  if len bytes <? 8 then Ret (Err TooSmall)
  else
    magic ← read_le bytes 0 4;
    if negb (magic =? MAGIC) then Ret (Err BadMagic)
    else count ← read_le bytes 4 8; Ret (Ok count).

Definition get_file (bytes : list Z) (idx : Z) : outcome (result InitrdFile InitrdError) :=
  h ← parse_header bytes;
  match h with
  | Err e => Ret (Err e)
  | Ok count =>
      if count <=? idx then Ret (Err IndexOutOfBounds)
      else
        let entry_offset := 8 + idx * ENTRY_SIZE in
        if len bytes <? entry_offset + ENTRY_SIZE then Ret (Err TooSmall)
        else
          entry ← slice bytes entry_offset (entry_offset + ENTRY_SIZE);
          name_bytes ← slice entry 0 NAME_MAX;
          let name_len := match position (λ b, b =? 0) name_bytes with Some n => Z.of_nat n | None => NAME_MAX end in
          name ← slice name_bytes 0 name_len;
          match from_utf8 name with
          | None => Ret (Err InvalidFilename)
          | Some name =>
              file_offset ← read_le entry 256 260;
              file_size ← read_le entry 260 264;
              if len bytes <? file_offset + file_size then Ret (Err DataOutOfBounds)
              else d ← slice bytes file_offset (file_offset + file_size); Ret (Ok (mkInitrdFile name d))
          end
  end.

(** The loop over the indices from [i], [n] of them. *)
Fixpoint find_loop (bytes target : list Z) (n : nat) (i : Z) : outcome (option InitrdFile) :=
  match n with
  | O => Ret None
  | S n =>
      f ← get_file bytes i;
      match f with
      | Ok f => if bool_decide (file_name f = target) then Ret (Some f) else find_loop bytes target n (i + 1)
      | Err _ => find_loop bytes target n (i + 1)
      end
  end.

Definition find_file (bytes target : list Z) : outcome (option InitrdFile) :=
  h ← parse_header bytes;
  match h with
  | Err _ => Ret None
  | Ok count => find_loop bytes target (Z.to_nat count) 0
  end.

(** ** The builder *)

Definition align_up (value alignment : Z) : Z := Z.land (value + alignment - 1) (unot 64 (alignment - 1)).

Definition name_buf (name : list Z) : outcome (list Z) :=
  let copy_len := Z.min (len name) 255 in
  src ← slice name 0 copy_len;
  copy_into (replicate 256 0) 0 copy_len src.

(** The entries of [files], whose data starts at [offset]. *)
Fixpoint entry_table (files : list InitrdFile) (offset : Z) : outcome (list Z) :=
  match files with
  | [] => Ret []
  | f :: files =>
      name ← name_buf (file_name f);
      rest ← entry_table files (offset + len (file_data f));
      Ret (name ++ le_bytes 4 (cast 32 offset) ++ le_bytes 4 (cast 32 (len (file_data f))) ++ rest)
  end.

Definition create_initrd (files : list InitrdFile) : outcome (list Z) :=
  let count := len files in
  let table_size := HEADER_SIZE + count * ENTRY_SIZE in
  let data_offset := align_up table_size 4096 in
  table ← entry_table files data_offset;
  Ret (le_bytes 4 MAGIC ++ le_bytes 4 (cast 32 count) ++ table ++
       (if table_size <? data_offset then replicate (Z.to_nat (data_offset - table_size)) 0 else []) ++
       concat (map file_data files)).

(** ** The parser reads what the builder wrote *)

(** A file the format can hold: its name is UTF-8, has no zero byte and leaves
    room for the terminator. *)
Definition storable (f : InitrdFile) : Prop :=
  utf8_valid (file_name f) = true ∧ (0 ∉ file_name f) ∧ len (file_name f) ≤ 255.

Definition padded (name : list Z) : list Z := name ++ replicate (256 - length name) 0.

Definition entry_bytes (f : InitrdFile) (offset : Z) : list Z :=
  padded (file_name f) ++ le_bytes 4 (cast 32 offset) ++ le_bytes 4 (cast 32 (len (file_data f))).

(** The data of the files, and the offset where it starts. *)
Definition contents (files : list InitrdFile) : list Z := concat (map file_data files).
Definition data_start (files : list InitrdFile) : Z := align_up (HEADER_SIZE + len files * ENTRY_SIZE) 4096.

(** The archive stays below 4 GiB, the range of its offsets. *)
Definition fits (files : list InitrdFile) : Prop :=
  HEADER_SIZE + len files * ENTRY_SIZE + 4096 + len (contents files) ≤ u32_max.

Lemma length_padded name : len name ≤ 255 → len (padded name) = 256.
Proof. unfold len, padded. intros. rewrite length_app, length_replicate. lia. Qed.

Lemma name_buf_ok name : len name ≤ 255 → name_buf name = Ret (padded name).
Proof.
  intros Hl. unfold name_buf. rewrite Z.min_l by done.
  rewrite <- (app_nil_r name) at 1. rewrite slice_prefix by done. simpl.
  rewrite copy_into_ok; [|unfold len; lia|unfold len in *; rewrite length_replicate; lia|lia].
  unfold padded, len. rewrite Nat2Z.id, drop_replicate. done.
Qed.

Lemma length_entry f off : storable f → len (entry_bytes f off) = ENTRY_SIZE.
Proof.
  intros (_ & _ & Hl). pose proof (length_padded _ Hl) as Hp. unfold entry_bytes, len in *.
  rewrite !length_app, !length_le_bytes. unfold ENTRY_SIZE. lia.
Qed.

Lemma entry_table_ok files off :
  Forall storable files → ∃ t, entry_table files off = Ret t ∧ len t = len files * ENTRY_SIZE ∧
    ∀ i f, files !! i = Some f → ∃ p s,
      t = p ++ entry_bytes f (off + len (contents (take i files))) ++ s ∧ len p = Z.of_nat i * ENTRY_SIZE.
Proof.
  intros Hs. revert off. induction Hs as [|f files Hf Hs IH]; intros off; [by exists []|]. simpl.
  destruct (IH (off + len (file_data f))) as (t & -> & Hlt & Hat).
  rewrite name_buf_ok by apply Hf. simpl.
  replace (padded (file_name f) ++ _) with (entry_bytes f off ++ t) by (unfold entry_bytes; by rewrite <- !app_assoc).
  pose proof (length_entry f off Hf) as He. exists (entry_bytes f off ++ t).
  split; [done|]. split; [unfold len in *; rewrite length_app; cbn [length]; lia|].
  intros [|i] g; simpl.
  - intros [= <-]. exists [], t. unfold contents, len at 1. simpl. rewrite Z.add_0_r. done.
  - intros Hg. destruct (Hat i g Hg) as (p & s & -> & Hp). exists (entry_bytes f off ++ p), s.
    split; [|unfold len in *; rewrite length_app; lia].
    rewrite <- app_assoc. unfold contents, len. simpl. rewrite length_app, Nat2Z.inj_add, Z.add_assoc. done.
Qed.

Lemma contents_split files i f :
  files !! i = Some f → contents files = contents (take i files) ++ file_data f ++ contents (drop (S i) files).
Proof.
  intros Hf. rewrite <- (take_drop_middle files i f Hf) at 1.
  unfold contents. by rewrite map_app, concat_app.
Qed.

Lemma data_start_bounds files :
  fits files → HEADER_SIZE + len files * ENTRY_SIZE ≤ data_start files ∧ data_start files + len (contents files) ≤ u32_max.
Proof.
  unfold fits, data_start, align_up, HEADER_SIZE, ENTRY_SIZE, u32_max, len. intros Hd.
  rewrite (land_align_down 64 _ 12) by (unfold is_uint; lia).
  pose proof (Z.mod_pos_bound (8 + Z.of_nat (length files) * 264 + 4096 - 1) (2 ^ 12)). lia.
Qed.

(** The parts of an archive. *)
Lemma create_initrd_ok files :
  Forall storable files → fits files → ∃ table gap,
    create_initrd files =
      Ret (le_bytes 4 MAGIC ++ le_bytes 4 (len files) ++ table ++ gap ++ contents files) ∧
    len table = len files * ENTRY_SIZE ∧ HEADER_SIZE + len table + len gap = data_start files ∧
    ∀ i f, files !! i = Some f → ∃ p s, len p = Z.of_nat i * ENTRY_SIZE ∧
      table = p ++ entry_bytes f (data_start files + len (contents (take i files))) ++ s.
Proof.
  intros Hs Hf. pose proof (data_start_bounds files Hf) as [Hlo Hhi].
  destruct (entry_table_ok files (data_start files) Hs) as (table & Ht & Hl & Hat).
  unfold create_initrd. fold (data_start files). rewrite Ht. simpl.
  assert (0 ≤ len (contents files)) by (unfold len; lia).
  assert (cast 32 (len files) = len files) as ->.
  { apply Z.mod_small. unfold u32_max, len, HEADER_SIZE, ENTRY_SIZE in *. lia. }
  eexists table, _. split; [done|]. split; [done|]. split; [|naive_solver].
  unfold len in *. destruct (Z.ltb_spec (HEADER_SIZE + Z.of_nat (length files) * ENTRY_SIZE) (data_start files)).
  - rewrite length_replicate. lia.
  - simpl. lia.
Qed.

Lemma parse_header_ok count rest :
  0 ≤ count ≤ u32_max → parse_header (le_bytes 4 MAGIC ++ le_bytes 4 count ++ rest) = Ret (Ok count).
Proof.
  intros Hc. unfold parse_header. destruct (Z.ltb_spec (len (le_bytes 4 MAGIC ++ le_bytes 4 count ++ rest)) 8) as [Hlt|_].
  { unfold len in Hlt. rewrite !length_app, !length_le_bytes in Hlt. lia. }
  rewrite read_le_prefix by done. cbn [mbind outcome_bind]. rewrite Z.eqb_refl. cbn [negb].
  rewrite (read_le_mid (le_bytes 4 MAGIC) 4 count); [done|unfold u32_max in Hc; lia|done|done].
Qed.

(** The fields of an entry. *)
Lemma entry_fields f off :
  storable f → 0 ≤ off ≤ u32_max → len (file_data f) ≤ u32_max →
  slice (entry_bytes f off) 0 NAME_MAX = Ret (padded (file_name f)) ∧
  read_le (entry_bytes f off) 256 260 = Ret off ∧ read_le (entry_bytes f off) 260 264 = Ret (len (file_data f)).
Proof.
  intros (_ & _ & Hn) Ho Hd. pose proof (length_padded _ Hn) as Hp. unfold entry_bytes.
  assert (∀ x, 0 ≤ x ≤ u32_max → cast 32 x = x) as Hcast by (intros; apply Z.mod_small; unfold u32_max in *; lia).
  assert (0 ≤ len (file_data f)) by (unfold len; lia). rewrite !Hcast by done. unfold u32_max in *.
  split; [by apply slice_prefix|]. split; [apply read_le_mid; [lia|lia|lia]|].
  rewrite app_assoc, <- (app_nil_r (le_bytes 4 (len (file_data f)))).
  assert (len (padded (file_name f) ++ le_bytes 4 off) = 260) by (unfold len in *; rewrite length_app, length_le_bytes; lia).
  apply read_le_mid; lia.
Qed.

Lemma padded_name name :
  0 ∉ name → len name ≤ 255 → position (λ b, b =? 0) (padded name) = Some (length name).
Proof.
  unfold len, padded. intros H0 Hl. replace (256 - length name)%nat with (S (255 - length name)) by lia.
  by apply position_zero.
Qed.

(** An entry found in its place. *)
Lemma get_file_at pre f off post count idx (bytes := pre ++ entry_bytes f off ++ post) :
  storable f → 0 ≤ off → off + len (file_data f) ≤ u32_max → parse_header bytes = Ret (Ok count) → idx < count →
  len pre = 8 + idx * ENTRY_SIZE → off + len (file_data f) ≤ len bytes →
  slice bytes off (off + len (file_data f)) = Ret (file_data f) →
  get_file bytes idx = Ret (Ok f).
Proof.
  intros Hs Ho Hm Hh Hi Hp Hb Hd. unfold get_file. rewrite Hh. cbn [mbind outcome_bind].
  pose proof (length_entry f off Hs) as Hl. assert (0 ≤ len (file_data f)) by (unfold len; lia).
  destruct (entry_fields f off Hs) as (Hname & Hro & Hrs); [lia|lia|].
  destruct (Z.leb_spec count idx); [lia|].
  destruct (Z.ltb_spec (len bytes) (8 + idx * ENTRY_SIZE + ENTRY_SIZE)) as [Hlt|_].
  { unfold bytes, len in *. rewrite !length_app in Hlt. lia. }
  assert (slice bytes (8 + idx * ENTRY_SIZE) (8 + idx * ENTRY_SIZE + ENTRY_SIZE) = Ret (entry_bytes f off)) as ->
    by (apply slice_mid; lia). cbn [mbind outcome_bind]. rewrite Hname. cbn [mbind outcome_bind].
  destruct Hs as (Hu & Hz & Hn). rewrite padded_name by done.
  assert (slice (padded (file_name f)) 0 (Z.of_nat (length (file_name f))) = Ret (file_name f)) as ->
    by (by apply slice_prefix). cbn [mbind outcome_bind].
  unfold from_utf8. rewrite Hu, Hro, Hrs. cbn [mbind outcome_bind].
  destruct (Z.ltb_spec (len bytes) (off + len (file_data f))); [lia|]. rewrite Hd. simpl. by destruct f.
Qed.

Lemma get_file_ok files archive i f :
  Forall storable files → fits files → create_initrd files = Ret archive → files !! i = Some f →
  get_file archive (Z.of_nat i) = Ret (Ok f).
Proof.
  intros Hs Hf Ha Hi. destruct (create_initrd_ok files Hs Hf) as (table & gap & Hc & Hl & Hg & Hat).
  destruct (Hat i f Hi) as (p & s & Hp & Htab).
  pose proof (data_start_bounds files Hf) as [Hlo Hhi].
  pose proof (contents_split files i f Hi) as Hcs. pose proof (lookup_lt_Some _ _ _ Hi) as Hlt.
  set (off := data_start files + len (contents (take i files))) in *.
  assert (0 ≤ off ∧ off + len (file_data f) ≤ data_start files + len (contents files)) as [Hoff Hend].
  { unfold off, len in *. rewrite Hcs, !length_app. unfold HEADER_SIZE, ENTRY_SIZE in *. lia. }
  assert (archive = le_bytes 4 MAGIC ++ le_bytes 4 (len files) ++ table ++ gap ++ contents files) as Hwhole by congruence.
  assert (len archive = data_start files + len (contents files)) as Hlen.
  { rewrite Hwhole. unfold len in *. rewrite !length_app, !length_le_bytes. unfold HEADER_SIZE in *. lia. }
  assert (archive = (le_bytes 4 MAGIC ++ le_bytes 4 (len files) ++ p) ++ entry_bytes f off ++ (s ++ gap ++ contents files)) as Harch.
  { rewrite Hwhole, Htab, <- !app_assoc. done. }
  assert (slice archive off (off + len (file_data f)) = Ret (file_data f)) as Hsl.
  { rewrite Hwhole, Hcs, !app_assoc, <- (app_assoc _ (file_data f)).
    apply slice_mid; unfold off, len in *; rewrite !length_app, !length_le_bytes; unfold HEADER_SIZE in *; lia. }
  clear Hwhole Ha Hc. subst archive. apply (get_file_at _ f off _ (len files)); [by eapply Forall_lookup_1|lia|lia| | | |lia|done].
  - rewrite <- !app_assoc. apply parse_header_ok. unfold u32_max, len, HEADER_SIZE, ENTRY_SIZE in *. lia.
  - unfold len in *. lia.
  - unfold len in *. rewrite !length_app, !length_le_bytes. unfold HEADER_SIZE in *. lia.
Qed.

Lemma find_loop_ok files archive target k n :
  (∀ i f, files !! i = Some f → get_file archive (Z.of_nat i) = Ret (Ok f)) → (k + n)%nat = length files →
  find_loop archive target n (Z.of_nat k) = Ret (List.find (λ f, bool_decide (file_name f = target)) (drop k files)).
Proof.
  intros Hget. revert k. induction n as [|n IH]; intros k Hk; cbn [find_loop].
  - rewrite drop_ge by lia. done.
  - destruct (lookup_lt_is_Some_2 files k) as [f Hf]; [lia|].
    rewrite (Hget k f Hf), (drop_S files f k Hf). simpl. destruct (bool_decide _); [done|].
    replace (Z.of_nat k + 1) with (Z.of_nat (S k)) by lia. apply IH. lia.
Qed.

(** C28: the initial ramdisk round-trips. For files with valid names and less
    than 4 GiB in all, the build tool writes an archive from which the kernel
    reads back every file by its index, refuses any further index, and finds by
    name the first file of that name, or none. *)
Theorem initrd_roundtrip files :
  Forall storable files → fits files → ∃ archive, create_initrd files = Ret archive ∧
    (∀ i f, files !! i = Some f → get_file archive (Z.of_nat i) = Ret (Ok f)) ∧
    (∀ i, len files ≤ i → get_file archive i = Ret (Err IndexOutOfBounds)) ∧
    ∀ target, find_file archive target = Ret (List.find (λ f, bool_decide (file_name f = target)) files).
Proof.
  intros Hs Hf. destruct (create_initrd_ok files Hs Hf) as (table & gap & Hc & _).
  pose proof (get_file_ok files) as Hget. eexists. split; [done|].
  assert (0 ≤ len files ≤ u32_max) by (unfold fits, u32_max, len, HEADER_SIZE, ENTRY_SIZE in *; lia).
  split; [intros; by eapply Hget|]. split.
  - intros i Hi. unfold get_file. rewrite parse_header_ok by done. simpl. by destruct (Z.leb_spec (len files) i); [|lia].
  - intros target. unfold find_file. rewrite parse_header_ok by done. simpl.
    rewrite (find_loop_ok files _ target 0); [done|intros; by eapply Hget|unfold len; lia].
Qed.

Definition sample_files : list InitrdFile :=
  [mkInitrdFile (str "init") [127; 69; 76; 70]; mkInitrdFile (str "shell") [1; 2; 3]; mkInitrdFile (str "empty") []].

Lemma initrd_roundtrip_witness :
  ∃ archive, create_initrd sample_files = Ret archive ∧
    find_file archive (str "shell") = Ret (Some (mkInitrdFile (str "shell") [1; 2; 3])).
Proof.
  destruct (initrd_roundtrip sample_files) as (archive & Ha & _ & _ & Hfind).
  - repeat constructor; try (vm_compute; congruence); by apply (bool_decide_unpack _).
  - vm_compute. congruence.
  - exists archive. split; [exact Ha|]. rewrite Hfind. reflexivity.
Defined.
