(* ===== verification/Dns.v ===== *)
(** * The DNS resolver (kernel/src/net/dns.rs)

    Queries, the parser of responses and the waiting loops on top of UDP, ARP
    and the frame dispatcher. The loops poll the timer and the network card;
    what a poll reads is an argument, a list of polls, and a loop that is still
    waiting when the list ends answers [None], as it does when an IPv6 frame
    arrives. A message is the payload of a
    datagram, at most 65535 bytes, so positions in it are plain integers. *)

From S2P Require Import Prelude RustStr Ip Arp TcpSegment Tcp Udp Fragment NetStack.

Definition DNS_CLASS_IN : Z := 1.
Definition DNS_TYPE_A : Z := 1.
Definition DNS_HEADER_SIZE : Z := 12.
Definition DNS_QUERY_FLAGS : Z := 0x0100.
Definition DNS_FLAG_QR : Z := 0x8000.
Definition DNS_FLAG_RCODE_MASK : Z := 0x000F.
Definition DNS_PORT : Z := 53.
Definition DNS_TIMEOUT_TICKS : Z := 36.
Definition DNS_MAX_RETRIES : nat := 3.
Definition FALLBACK_DNS_SERVER : list Z := [8; 8; 8; 8].
Definition DNS_TRANSACTION_ID : Z := 0xABCD.
Definition DOT : Z := 46.

Record DnsHeader : Type := mkDnsHeader {
  dns_id : Z;
  dns_flags : Z;
  qdcount : Z;
  ancount : Z;
  nscount : Z;
  arcount : Z;
}.

Record DnsAnswer : Type := mkDnsAnswer {
  ans_name : list Z;
  rtype : Z;
  rclass : Z;
  ttl : Z;
  rdata : list Z;
}.

Inductive DnsError : Type :=
| ServerError (code : Z) | IdMismatch | NotResponse | NoARecord | Truncated | NetworkError | DnsTimeout
| InvalidResponse | NoServer | HostnameTooLong | EmptyHostname.

(** ** Names and queries *)

(** [str::split] at one byte: the pieces between its occurrences. *)
Fixpoint split_on (b : Z) (l : list Z) : list (list Z) :=
  match l with
  | [] => [[]]
  | x :: l =>
      if x =? b then [] :: split_on b l
      else match split_on b l with p :: ps => (x :: p) :: ps | [] => [[x]] end
  end.

(** [str::strip_suffix] of one byte, with the string itself as default. *)
Definition strip_suffix (b : Z) (l : list Z) : list Z :=
  match list.last l with Some x => if x =? b then removelast l else l | None => l end.

Fixpoint encode_labels (labels : list (list Z)) : result (list Z) DnsError :=
  match labels with
  | [] => Ok []
  | label :: labels =>
      if 63 <? len label then Err HostnameTooLong
      else if len label =? 0 then Err EmptyHostname
      else match encode_labels labels with Ok rest => Ok (len label :: label ++ rest) | Err e => Err e end
  end.

Definition encode_domain_name (hostname : list Z) : result (list Z) DnsError :=
  if bool_decide (hostname = []) then Err EmptyHostname
  else if 253 <? len hostname then Err HostnameTooLong
  else match encode_labels (split_on DOT (strip_suffix DOT hostname)) with
       | Ok encoded => Ok (encoded ++ [0])
       | Err e => Err e
       end.

Definition build_dns_query (hostname : list Z) : outcome (result (list Z) DnsError) :=
  match encode_domain_name hostname with
  | Err e => Ret (Err e)
  | Ok name =>
      let question_len := len name + 4 in
      let packet := replicate (Z.to_nat (DNS_HEADER_SIZE + question_len)) 0 in
      packet ← write_u16_be packet 0 DNS_TRANSACTION_ID;
      packet ← write_u16_be packet 2 DNS_QUERY_FLAGS;
      packet ← write_u16_be packet 4 1;
      packet ← write_u16_be packet 6 0;
      packet ← write_u16_be packet 8 0;
      packet ← write_u16_be packet 10 0;
      packet ← copy_into packet DNS_HEADER_SIZE (DNS_HEADER_SIZE + len name) name;
      packet ← write_u16_be packet (DNS_HEADER_SIZE + len name) DNS_TYPE_A;
      packet ← write_u16_be packet (DNS_HEADER_SIZE + len name + 2) DNS_CLASS_IN;
      Ret (Ok packet)
  end.

(** ** Responses *)

Definition parse_dns_header (bytes : list Z) : outcome (option DnsHeader) :=
  if len bytes <? DNS_HEADER_SIZE then Ret None
  else
    id ← read_u16_be bytes 0;
    fl ← read_u16_be bytes 2;
    qd ← read_u16_be bytes 4;
    an ← read_u16_be bytes 6;
    ns ← read_u16_be bytes 8;
    ar ← read_u16_be bytes 10;
    Ret (Some (mkDnsHeader id fl qd an ns ar)).

(** The loop of [skip_domain_name]. A pass moves forward by at least one byte,
    so it ends within one pass per byte of the message. *)
Fixpoint skip_loop (fuel : nat) (bytes : list Z) (pos : Z) : outcome (option Z) :=
  match fuel with
  | O => Ret None
  | S fuel =>
      if len bytes <=? pos then Ret None
      else
        n ← index bytes pos;
        if Z.land n 0xC0 =? 0xC0 then Ret (Some (pos + 2))
        else if n =? 0 then Ret (Some (pos + 1))
        else
          let pos := pos + (1 + n) in
          if len bytes <? pos then Ret None else skip_loop fuel bytes pos
  end.

Definition skip_domain_name (bytes : list Z) (offset : Z) : outcome (option Z) :=
  skip_loop (S (length bytes)) bytes offset.

Fixpoint parse_questions (bytes : list Z) (pos : Z) (n : nat) : outcome (option Z) :=
  match n with
  | O => Ret (Some pos)
  | S n =>
      r ← skip_domain_name bytes pos;
      match r with
      | None => Ret None
      | Some pos => if len bytes <? pos + 4 then Ret None else parse_questions bytes (pos + 4) n
      end
  end.

Definition parse_answer (bytes : list Z) (offset : Z) : outcome (option (DnsAnswer * Z)) :=
  r ← skip_domain_name bytes offset;
  match r with
  | None => Ret None
  | Some pos =>
      name ← slice bytes offset pos;
      if len bytes <? pos + 10 then Ret None
      else
        rt ← read_u16_be bytes pos;
        rc ← read_u16_be bytes (pos + 2);
        t ← read_u32_be bytes (pos + 4);
        rdlength ← read_u16_be bytes (pos + 8);
        let pos := pos + 10 in
        if len bytes <? pos + rdlength then Ret None
        else
          rd ← slice bytes pos (pos + rdlength);
          Ret (Some (mkDnsAnswer name rt rc t rd, pos + rdlength))
  end.

Fixpoint parse_answers (bytes : list Z) (pos : Z) (n : nat) : outcome (option (list DnsAnswer)) :=
  match n with
  | O => Ret (Some [])
  | S n =>
      r ← parse_answer bytes pos;
      match r with
      | None => Ret None
      | Some (answer, pos) =>
          rest ← parse_answers bytes pos n;
          Ret (match rest with Some answers => Some (answer :: answers) | None => None end)
      end
  end.

Fixpoint find_a_record (answers : list DnsAnswer) : option (list Z) :=
  match answers with
  | [] => None
  | a :: answers =>
      if (rtype a =? DNS_TYPE_A) && (rclass a =? DNS_CLASS_IN) && (len (rdata a) =? 4) then Some (rdata a)
      else find_a_record answers
  end.

Definition parse_dns_response (bytes : list Z) : outcome (option (list Z)) :=
  h ← parse_dns_header bytes;
  match h with
  | None => Ret None
  | Some h =>
      if negb (dns_id h =? DNS_TRANSACTION_ID) then Ret None
      else if Z.land (dns_flags h) DNS_FLAG_QR =? 0 then Ret None
      else if negb (Z.land (dns_flags h) DNS_FLAG_RCODE_MASK =? 0) then Ret None
      else if negb (Z.land (dns_flags h) 0x0200 =? 0) then Ret None
      else if ancount h =? 0 then Ret None
      else
        q ← parse_questions bytes DNS_HEADER_SIZE (Z.to_nat (qdcount h));
        match q with
        | None => Ret None
        | Some answers_offset =>
            a ← parse_answers bytes answers_offset (Z.to_nat (ancount h));
            Ret (match a with Some answers => find_a_record answers | None => None end)
        end
  end.

(** A frame as the response of server [dns_server]. *)
Definition try_parse_dns_response (frame dns_server : list Z) : outcome (option (list Z)) :=
  if len frame <? 14 then Ret None
  else
    et ← read_u16_be frame 12;
    if negb (et =? ETHERTYPE_IPV4) then Ret None
    else
      let ip_start := 14 in
      if len frame <? ip_start + 20 then Ret None
      else
        version_ihl ← index frame ip_start;
        if negb (Z.shiftr version_ihl 4 =? 4) then Ret None
        else
          let ihl := Z.land version_ihl 0x0F in
          if ihl <? 5 then Ret None
          else
            proto ← index frame (ip_start + 9);
            if negb (proto =? 17) then Ret None
            else
              src ← slice frame (ip_start + 12) (ip_start + 16);
              if negb (bool_decide (src = dns_server)) then Ret None
              else
                let udp_start := ip_start + ihl * 4 in
                if len frame <? udp_start + 8 then Ret None
                else
                  sp ← read_u16_be frame udp_start;
                  if negb (sp =? DNS_PORT) then Ret None
                  else
                    udp_length ← read_u16_be frame (udp_start + 4);
                    if udp_length <? 8 then Ret None
                    else
                      let dns_start := udp_start + 8 in
                      let dns_len := udp_length - 8 in
                      if len frame <? dns_start + dns_len then Ret None
                      else
                        message ← slice frame dns_start (dns_start + dns_len);
                        parse_dns_response message.

(** ** Resolution *)

(** One pass of a waiting loop: the timer and what the card has received. *)
Record Poll : Type := mkPoll { poll_tick : Z; poll_frame : option (list Z) }.

Section dns.
Context {D : Type} `{NetDriver D} `{BuildProfile}.
Implicit Types (s : NetStack D) (polls : list Poll).

Definition at_tick s (t : Z) : NetStack D :=
  let n := interface s in
  with_interface s (mkNetState (nic n) (ARP_TABLE n) (configured n) (assigned_ip n) t).

(** The result of waiting: an answer, the state and the polls that remain. *)
Notation waited A := (outcome (option (result A DnsError * NetStack D * list Poll))).

Definition get_dns_server (dhcp_dns : list Z) : list Z :=
  if bool_decide (dhcp_dns = [0; 0; 0; 0]) then FALLBACK_DNS_SERVER else dhcp_dns.

Fixpoint arp_loop s (target start : Z) polls : waited unit :=
  match polls with
  | [] => Ret None
  | p :: rest =>
      let s := at_tick s (poll_tick p) in
      let '(m, n) := arp_lookup (interface s) target in
      let s := with_interface s n in
      match m with
      | Some _ => Ret (Some (Ok tt, s, p :: rest))
      | None =>
          elapsed ← sub64 (poll_tick p) start;
          if DNS_TIMEOUT_TICKS <=? elapsed then Ret (Some (Err DnsTimeout, s, p :: rest))
          else
            match poll_frame p with
            | None => arp_loop s target start rest
            | Some frame =>
                r ← receive s frame;
                match r with Some s => arp_loop s target start rest | None => Ret None end
            end
      end
  end.

Definition wait_for_arp s (target : Z) polls : waited unit := arp_loop s target (TICKS (interface s)) polls.

Fixpoint response_loop s (dns_server : list Z) (start : Z) polls : waited (list Z) :=
  match polls with
  | [] => Ret None
  | p :: rest =>
      let s := at_tick s (poll_tick p) in
      elapsed ← sub64 (poll_tick p) start;
      if DNS_TIMEOUT_TICKS <=? elapsed then Ret (Some (Err DnsTimeout, s, p :: rest))
      else
        match poll_frame p with
        | None => response_loop s dns_server start rest
        | Some frame =>
            a ← try_parse_dns_response frame dns_server;
            match a with
            | Some ip => Ret (Some (Ok ip, s, rest))
            | None =>
                r ← receive s frame;
                match r with Some s => response_loop s dns_server start rest | None => Ret None end
            end
        end
  end.

Definition send_udp_and_parse_response s (udp_packet dst_mac dns_server : list Z) polls : waited (list Z) :=
  let n := interface s in
  frame ← build_ethernet dst_mac (mac_address n) ETHERTYPE_IPV4 udp_packet;
  let '(r, d) := send_frame (nic n) frame in
  let s := with_interface s (with_nic n d) in
  match r with
  | Err _ => Ret (Some (Err NetworkError, s, polls))
  | Ok _ => response_loop s dns_server (TICKS n) polls
  end.

Definition server_addr (dns_server : list Z) : Z :=
  match dns_server with [a; b; c; d] => u32_from_be_bytes a b c d | _ => 0 end.

Definition send_query_and_wait s (query dns_server : list Z) polls : waited (list Z) :=
  let addr := server_addr dns_server in
  udp_packet ← build_udp (local_ip (interface s)) addr DNS_PORT DNS_PORT query;
  let '(m, n) := arp_lookup (interface s) addr in
  let s := with_interface s n in
  match m with
  | Some dst_mac => send_udp_and_parse_response s udp_packet dst_mac dns_server polls
  | None =>
      n ← send_arp_request (interface s) addr;
      w ← wait_for_arp (with_interface s n) addr polls;
      match w with
      | None => Ret None
      | Some (Err e, s, polls) => Ret (Some (Err e, s, polls))
      | Some (Ok _, s, polls) =>
          let '(m, n) := arp_lookup (interface s) addr in
          let s := with_interface s n in
          match m with
          | None => Ret (Some (Err NetworkError, s, polls))
          | Some dst_mac => send_udp_and_parse_response s udp_packet dst_mac dns_server polls
          end
      end
  end.

(** The attempts that remain; an error of the last one is the result. *)
Fixpoint attempts (n : nat) s (query dns_server : list Z) polls : waited (list Z) :=
  match n with
  | O => Ret (Some (Err DnsTimeout, s, polls))
  | S n =>
      w ← send_query_and_wait s query dns_server polls;
      match w with
      | Some (Err e, s, polls) =>
          match n with O => Ret (Some (Err e, s, polls)) | S _ => attempts n s query dns_server polls end
      | _ => Ret w
      end
  end.

Definition resolve s (dhcp_dns hostname : list Z) polls : waited (list Z) :=
  q ← build_dns_query hostname;
  match q with
  | Err e => Ret (Some (Err e, s, polls))
  | Ok query => attempts DNS_MAX_RETRIES s query (get_dns_server dhcp_dns) polls
  end.

End dns.
