(* ===== verification/DnsProofs.v ===== *)
(** * Properties of the DNS resolver (kernel/src/net/dns.rs)

    The parser recovers the records of a well-formed response, a lookup whose
    server answers in time returns the address, and which messages panic the
    parser. *)

From stdpp Require Import strings.
From S2P Require Import Prelude RustStr Bytes Ip Arp TcpSegment Tcp TcpProofs Udp Fragment NetStack Dns.
Local Open Scope Z_scope.

(** ** Numbers inside a message *)

Lemma read_u16_mid p x s i : is_uint 16 x → i = len p → read_u16_be (p ++ u16_to_be_bytes x ++ s) i = Ret x.
Proof.
  intros Hx ->. destruct (u16_bytes_roundtrip x Hx) as (Hrt & _). unfold read_u16_be, u16_to_be_bytes. cbn [app].
  rewrite (index_mid p _ _ (len p)) by reflexivity. cbn [mbind outcome_bind].
  rewrite (cons_middle (x `div` 256)), app_assoc.
  rewrite (index_mid (p ++ [x `div` 256])) by (unfold len; rewrite length_app; simpl; lia).
  cbn [mbind outcome_bind]. by rewrite Hrt.
Qed.

(** ** Names *)

Lemma pointer_byte n : is_byte n → (Z.land n 0xC0 =? 0xC0) = (0xC0 <=? n).
Proof.
  intros Hn. assert (n ∈ seqZ 0 256) as Hin by (apply elem_of_seqZ; unfold is_byte, is_uint in Hn; lia). revert n Hn Hin.
  assert (Forall (λ n, (Z.land n 0xC0 =? 0xC0) = (0xC0 <=? n)) (seqZ 0 256)) as Hall by (by apply (bool_decide_unpack _)).
  rewrite list.Forall_forall in Hall. intros n _ Hin. exact (Hall n Hin).
Qed.

Lemma encode_label_cons label labels enc :
  encode_labels (label :: labels) = Ok enc →
  1 ≤ len label ≤ 63 ∧ ∃ rest, encode_labels labels = Ok rest ∧ enc = len label :: label ++ rest.
Proof.
  simpl. destruct (Z.ltb_spec 63 (len label)); [done|]. destruct (Z.eqb_spec (len label) 0); [done|].
  destruct (encode_labels labels) as [rest|]; [|done]. intros [= <-]. split; [unfold len in *; lia|eauto].
Qed.

Lemma skip_labels labels enc p s fuel :
  encode_labels labels = Ok enc → (length enc < fuel)%nat →
  skip_loop fuel (p ++ enc ++ 0 :: s) (len p) = Ret (Some (len p + len enc + 1)).
Proof.
  revert enc p fuel. induction labels as [|label labels IH]; intros enc p [|fuel] Henc Hf; try lia.
  - injection Henc as <-. cbn [skip_loop app]. destruct (Z.leb_spec (len (p ++ 0 :: s)) (len p)) as [Hle|_].
    { unfold len in Hle. rewrite length_app in Hle. simpl in Hle. lia. }
    rewrite index_mid by done. simpl. unfold len at 2. simpl. by rewrite Z.add_0_r.
  - apply encode_label_cons in Henc as (Hl & rest & Hrest & ->). cbn [skip_loop].
    set (bytes := p ++ (len label :: label ++ rest) ++ 0 :: s).
    assert (bytes = (p ++ len label :: label) ++ rest ++ 0 :: s) as Heq.
    { unfold bytes. rewrite <- !app_assoc. simpl. by rewrite <- app_assoc. }
    assert (len bytes = len p + 1 + len label + len rest + 1 + len s) as Hlen.
    { rewrite Heq. unfold len. rewrite !length_app. simpl. lia. }
    assert (index bytes (len p) = Ret (len label)) as -> by (by apply index_mid).
    assert (0 ≤ len rest ∧ 0 ≤ len s) as [? ?] by (unfold len; lia).
    destruct (Z.leb_spec (len bytes) (len p)); [lia|]. cbn [mbind outcome_bind]. rewrite pointer_byte, (proj2 (Z.leb_gt _ _)) by (unfold is_byte, is_uint; lia).
    destruct (Z.eqb_spec (len label) 0); [lia|]. destruct (Z.ltb_spec (len bytes) (len p + (1 + len label))); [lia|].
    replace (len p + (1 + len label)) with (len (p ++ len label :: label)) by (unfold len; rewrite length_app; simpl; lia).
    rewrite Heq, (IH rest); [|done|simpl in Hf; rewrite length_app in Hf; lia].
    do 2 f_equal. unfold len. rewrite length_app. simpl. rewrite length_app. lia.
Qed.

(** The owner name of a record: the labels of a name, or a pointer to one. *)
Definition owner (o : list Z) : Prop :=
  (∃ labels enc, encode_labels labels = Ok enc ∧ o = enc ++ [0]) ∨ (∃ x y, o = [x; y] ∧ 0xC0 ≤ x < 256).

Lemma skip_owner o p s : owner o → skip_domain_name (p ++ o ++ s) (len p) = Ret (Some (len p + len o)).
Proof.
  intros [(labels & enc & Henc & ->)|(x & y & -> & Hx)]; unfold skip_domain_name.
  - rewrite <- app_assoc. simpl ([0] ++ s). rewrite (skip_labels labels enc) by (done || rewrite !length_app; lia).
    do 2 f_equal. unfold len. rewrite length_app. simpl. lia.
  - cbn [skip_loop app]. destruct (Z.leb_spec (len (p ++ x :: y :: s)) (len p)) as [Hle|_].
    { unfold len in Hle. rewrite length_app in Hle. simpl in Hle. lia. }
    rewrite index_mid by done. cbn [mbind outcome_bind]. by rewrite pointer_byte, (proj2 (Z.leb_le _ _)) by (unfold is_byte, is_uint; lia).
Qed.

Lemma encode_owner hostname name : encode_domain_name hostname = Ok name → owner name.
Proof.
  unfold encode_domain_name. destruct (bool_decide _); [done|]. destruct (_ <? _); [done|].
  destruct (encode_labels _) as [enc|] eqn:He; [|done]. intros [= <-]. left. eauto.
Qed.

(** ** Responses *)

Definition record_bytes (a : DnsAnswer) : list Z :=
  ans_name a ++ u16_to_be_bytes (rtype a) ++ u16_to_be_bytes (rclass a) ++ u32_to_be_bytes (ttl a) ++
  u16_to_be_bytes (len (rdata a)) ++ rdata a.

Definition record_ok (a : DnsAnswer) : Prop :=
  owner (ans_name a) ∧ is_uint 16 (rtype a) ∧ is_uint 16 (rclass a) ∧ is_uint 32 (ttl a) ∧ is_uint 16 (len (rdata a)).

(** A message with one question for [name], flags [fl] and [n] answers
    announced, whose answer section is [body]. *)
Definition message (fl n : Z) (name body : list Z) : list Z :=
  u16_to_be_bytes DNS_TRANSACTION_ID ++ u16_to_be_bytes fl ++ u16_to_be_bytes 1 ++ u16_to_be_bytes n ++
  u16_to_be_bytes 0 ++ u16_to_be_bytes 0 ++ name ++ u16_to_be_bytes DNS_TYPE_A ++ u16_to_be_bytes DNS_CLASS_IN ++ body.

(** The flags of a successful response: QR set, not truncated, no error code. *)
Definition answer_flags (fl : Z) : Prop :=
  is_uint 16 fl ∧ Z.land fl DNS_FLAG_QR ≠ 0 ∧ Z.land fl DNS_FLAG_RCODE_MASK = 0 ∧ Z.land fl 0x0200 = 0.

Lemma read_u32_mid p x s i : is_uint 32 x → i = len p → read_u32_be (p ++ u32_to_be_bytes x ++ s) i = Ret x.
Proof.
  intros Hx ->. pose proof (u32_bytes_roundtrip x Hx) as Hrt. unfold read_u32_be, u32_to_be_bytes in *. cbn [app].
  set (a := x `div` 2 ^ 24) in *. set (b := (x `div` 2 ^ 16) mod 256) in *. set (c := (x `div` 2 ^ 8) mod 256) in *.
  rewrite (index_mid p a _ (len p)) by reflexivity. cbn [mbind outcome_bind].
  rewrite (cons_middle a), app_assoc, (index_mid _ b _ (len p + 1)) by (unfold len; rewrite length_app; simpl; lia).
  cbn [mbind outcome_bind].
  rewrite (cons_middle b), app_assoc, (index_mid _ c _ (len p + 2)) by (unfold len; rewrite !length_app; simpl; lia).
  cbn [mbind outcome_bind].
  rewrite (cons_middle c), app_assoc, (index_mid _ (x mod 256) _ (len p + 3)) by (unfold len; rewrite !length_app; simpl; lia).
  cbn [mbind outcome_bind]. by rewrite Hrt.
Qed.

Ltac in_parts := unfold message, record_bytes; rewrite <- ?app_assoc; reflexivity.
Ltac part_lengths := unfold len in *; rewrite ?length_app in *; cbn [length u16_to_be_bytes u32_to_be_bytes] in *; lia.

Lemma read_u16_at bytes p x s i :
  bytes = p ++ u16_to_be_bytes x ++ s → is_uint 16 x → i = len p → read_u16_be bytes i = Ret x.
Proof. intros ->. apply read_u16_mid. Qed.
Lemma read_u32_at bytes p x s i :
  bytes = p ++ u32_to_be_bytes x ++ s → is_uint 32 x → i = len p → read_u32_be bytes i = Ret x.
Proof. intros ->. apply read_u32_mid. Qed.
Lemma slice_at {A} (bytes p m s : list A) a b :
  bytes = p ++ m ++ s → a = len p → b = len p + len m → slice bytes a b = Ret m.
Proof. intros ->. apply slice_mid. Qed.

Lemma parse_answer_ok p a s :
  record_ok a → parse_answer (p ++ record_bytes a ++ s) (len p) = Ret (Some (a, len p + len (record_bytes a))).
Proof.
  intros (Ho & Ht & Hc & Hl & Hn). set (bytes := p ++ record_bytes a ++ s). unfold parse_answer.
  assert (skip_domain_name bytes (len p) = Ret (Some (len p + len (ans_name a)))) as ->.
  { unfold bytes, record_bytes. rewrite <- !app_assoc. by apply skip_owner. }
  cbn [mbind outcome_bind]. set (o := ans_name a) in *.
  set (tail := u16_to_be_bytes (len (rdata a)) ++ rdata a ++ s).
  assert (bytes = p ++ o ++ u16_to_be_bytes (rtype a) ++ u16_to_be_bytes (rclass a) ++ u32_to_be_bytes (ttl a) ++ tail) as Hb
    by (unfold bytes, tail; in_parts).
  assert (len bytes = len p + len o + 10 + len (rdata a) + len s) as Hlen by (rewrite Hb; unfold tail; part_lengths).
  assert (len (record_bytes a) = len o + 10 + len (rdata a)) as Hr by (unfold record_bytes; fold o; part_lengths).
  assert (0 ≤ len (rdata a) ∧ 0 ≤ len s) as [? ?] by (unfold len; lia).
  rewrite (slice_at bytes p o _ _ _ Hb) by done.
  cbn [mbind outcome_bind]. destruct (Z.ltb_spec (len bytes) (len p + len o + 10)); [lia|].
  rewrite (read_u16_at bytes (p ++ o) (rtype a) (u16_to_be_bytes (rclass a) ++ u32_to_be_bytes (ttl a) ++ tail)
    (len p + len o)); [|by rewrite Hb, <- !app_assoc|done|part_lengths].
  rewrite (read_u16_at bytes (p ++ o ++ u16_to_be_bytes (rtype a)) (rclass a) (u32_to_be_bytes (ttl a) ++ tail)
    (len p + len o + 2)); [|by rewrite Hb, <- !app_assoc|done|part_lengths].
  rewrite (read_u32_at bytes (p ++ o ++ u16_to_be_bytes (rtype a) ++ u16_to_be_bytes (rclass a)) (ttl a) tail
    (len p + len o + 4)); [|by rewrite Hb, <- !app_assoc|done|part_lengths].
  rewrite (read_u16_at bytes (p ++ o ++ u16_to_be_bytes (rtype a) ++ u16_to_be_bytes (rclass a) ++ u32_to_be_bytes (ttl a)) (len (rdata a)) (rdata a ++ s)
    (len p + len o + 8));
    [|by rewrite Hb, <- !app_assoc|done|part_lengths].
  cbn [mbind outcome_bind]. destruct (Z.ltb_spec (len bytes) (len p + len o + 10 + len (rdata a))); [lia|].
  rewrite (slice_at bytes (p ++ o ++ u16_to_be_bytes (rtype a) ++ u16_to_be_bytes (rclass a) ++ u32_to_be_bytes (ttl a) ++ u16_to_be_bytes (len (rdata a))) (rdata a) s);
    [|by rewrite Hb, <- !app_assoc|part_lengths|part_lengths].
  cbn [mbind outcome_bind]. rewrite Hr. unfold o. destruct a; simpl. do 3 f_equal. lia.
Qed.

Lemma parse_answers_ok rs p :
  Forall record_ok rs → parse_answers (p ++ concat (map record_bytes rs)) (len p) (length rs) = Ret (Some rs).
Proof.
  intros Hrs. revert p. induction Hrs as [|a rs Ha Hrs IH]; intros p; [done|]. cbn [map concat length parse_answers].
  rewrite parse_answer_ok by done. cbn [mbind outcome_bind].
  replace (len p + len (record_bytes a)) with (len (p ++ record_bytes a)) by (unfold len; rewrite length_app; lia).
  by rewrite app_assoc, IH.
Qed.

Lemma parse_dns_header_ok fl n name body :
  is_uint 16 fl → is_uint 16 n →
  parse_dns_header (message fl n name body) = Ret (Some (mkDnsHeader DNS_TRANSACTION_ID fl 1 n 0 0)).
Proof.
  intros Hf Hn. unfold parse_dns_header. set (bytes := message fl n name body).
  assert (12 ≤ len bytes) by (unfold bytes, message; part_lengths).
  destruct (Z.ltb_spec (len bytes) DNS_HEADER_SIZE); [unfold DNS_HEADER_SIZE in *; lia|].
  set (i := u16_to_be_bytes DNS_TRANSACTION_ID).
  rewrite (read_u16_at bytes [] DNS_TRANSACTION_ID _ 0 eq_refl) by done. cbn [mbind outcome_bind].
  rewrite (read_u16_at bytes i fl _ 2 eq_refl) by done. cbn [mbind outcome_bind].
  rewrite (read_u16_at bytes (i ++ u16_to_be_bytes fl) 1 _ 4 eq_refl) by done. cbn [mbind outcome_bind].
  rewrite (read_u16_at bytes (i ++ u16_to_be_bytes fl ++ u16_to_be_bytes 1) n _ 6 eq_refl) by done. cbn [mbind outcome_bind].
  rewrite (read_u16_at bytes (i ++ u16_to_be_bytes fl ++ u16_to_be_bytes 1 ++ u16_to_be_bytes n) 0 _ 8 eq_refl) by done.
  cbn [mbind outcome_bind].
  by rewrite (read_u16_at bytes (i ++ u16_to_be_bytes fl ++ u16_to_be_bytes 1 ++ u16_to_be_bytes n ++ u16_to_be_bytes 0) 0 _ 10 eq_refl).
Qed.

(** A response is parsed up to its answer section. *)
Lemma parse_to_answers fl n name body :
  answer_flags fl → is_uint 16 n → n ≠ 0 → owner name →
  parse_dns_response (message fl n name body) =
    (a ← parse_answers (message fl n name body) (16 + len name) (Z.to_nat n);
     Ret (match a with Some answers => find_a_record answers | None => None end)).
Proof.
  intros (Hf & Hqr & Hrc & Htc) Hn Hn0 Ho. unfold parse_dns_response. rewrite parse_dns_header_ok by done.
  cbn [mbind outcome_bind dns_id dns_flags ancount qdcount]. rewrite Hrc, Htc, !Z.eqb_refl. cbn [negb].
  rewrite (proj2 (Z.eqb_neq _ _) Hqr), (proj2 (Z.eqb_neq _ _) Hn0). change (Z.to_nat 1) with 1%nat. cbn [parse_questions].
  set (bytes := message fl n name body).
  assert (skip_domain_name bytes DNS_HEADER_SIZE = Ret (Some (12 + len name))) as ->.
  { unfold bytes, message. rewrite 5!app_assoc. by apply (skip_owner name). }
  cbn [mbind outcome_bind]. assert (16 + len name ≤ len bytes) by (unfold bytes, message; part_lengths).
  destruct (Z.ltb_spec (len bytes) (12 + len name + 4)); [lia|]. cbn [mbind outcome_bind].
  by replace (12 + len name + 4) with (16 + len name) by lia.
Qed.

Lemma parse_response_ok fl name rs :
  answer_flags fl → owner name → Forall record_ok rs → rs ≠ [] → is_uint 16 (len rs) →
  parse_dns_response (message fl (len rs) name (concat (map record_bytes rs))) = Ret (find_a_record rs).
Proof.
  intros Hf Ho Hrs Hne Hn. rewrite parse_to_answers; [|done|done| |done].
  2: { destruct rs; [done|]. unfold len. simpl. lia. }
  unfold message. rewrite 8!app_assoc. set (p := ((_ ++ _) ++ _) ++ u16_to_be_bytes DNS_CLASS_IN).
  replace (16 + len name) with (len p) by (unfold p; part_lengths).
  unfold len at 2. rewrite Nat2Z.id. by rewrite parse_answers_ok.
Qed.

(** ** Queries *)

Definition labels_size (ls : list (list Z)) : Z := foldr (λ l n, 1 + len l + n) 0 ls.

Lemma split_on_size b l : labels_size (split_on b l) = len l + 1.
Proof.
  unfold len. induction l as [|x l IH]; [done|]. cbn [split_on length]. destruct (x =? b).
  - unfold labels_size in *. cbn [foldr]. rewrite IH. unfold len. simpl length. lia.
  - destruct (split_on b l) as [|p ps]; unfold labels_size, len in *; cbn [foldr length] in *; lia.
Qed.

Lemma encode_labels_size ls enc : encode_labels ls = Ok enc → len enc = labels_size ls.
Proof.
  revert enc. induction ls as [|l ls IH]; intros enc; [by intros [= <-]|].
  intros (_ & rest & Hrest & ->)%encode_label_cons. unfold labels_size. cbn [foldr]. fold (labels_size ls).
  rewrite <- (IH rest Hrest). unfold len. cbn [length]. rewrite length_app. lia.
Qed.

Lemma split_on_bytes b l : Forall is_byte l → Forall (Forall is_byte) (split_on b l).
Proof.
  induction 1 as [|x l Hx Hl IH]; simpl; [by repeat constructor|]. destruct (x =? b); [by constructor|].
  destruct (split_on b l) as [|p ps]; [by auto using Forall_cons, Forall_nil|].
  apply list.Forall_cons in IH as [? ?]. auto using Forall_cons.
Qed.

Lemma encode_labels_bytes ls enc : Forall (Forall is_byte) ls → encode_labels ls = Ok enc → Forall is_byte enc.
Proof.
  intros Hls. revert enc. induction Hls as [|l ls Hl Hls IH]; intros enc; [by intros [= <-]|].
  intros (Hlen & rest & Hrest & ->)%encode_label_cons.
  constructor; [unfold is_byte, is_uint; lia|]. apply Forall_app_2; auto.
Qed.

Lemma strip_suffix_prefix b l : ∃ k, strip_suffix b l = take k l.
Proof.
  unfold strip_suffix. destruct (list.last l) as [x|]; [destruct (x =? b)|].
  - eexists. apply removelast_firstn_len.
  - exists (length l). by rewrite take_ge.
  - exists (length l). by rewrite take_ge.
Qed.

Lemma encode_name_bounds hostname name :
  Forall is_byte hostname → encode_domain_name hostname = Ok name → Forall is_byte name ∧ len name ≤ 255.
Proof.
  intros Hb. unfold encode_domain_name. destruct (bool_decide _); [done|].
  destruct (Z.ltb_spec 253 (len hostname)); [done|]. destruct (strip_suffix_prefix DOT hostname) as [k ->].
  destruct (encode_labels _) as [enc|] eqn:He; [|done]. intros [= <-]. split.
  - apply Forall_app_2; [|by repeat constructor]. eapply encode_labels_bytes; [|done]. by apply split_on_bytes, Forall_take.
  - apply encode_labels_size in He. rewrite split_on_size in He. unfold len in *. rewrite length_app, length_take in *.
    simpl length. lia.
Qed.

Lemma write_u16_mid p a b s v i :
  i = len p → write_u16_be (p ++ a :: b :: s) i v = Ret (p ++ u16_to_be_bytes v ++ s).
Proof.
  intros ->. unfold write_u16_be. rewrite store_ok by (unfold len; rewrite length_app; simpl; lia). cbn [mbind outcome_bind].
  rewrite store_ok by (unfold len; rewrite length_insert, length_app; simpl; lia). unfold len.
  replace (Z.to_nat (Z.of_nat (length p) + 1)) with (length p + 1)%nat by lia.
  replace (Z.to_nat (Z.of_nat (length p))) with (length p + 0)%nat by lia. by rewrite !insert_app_r.
Qed.

Lemma build_dns_query_ok hostname name :
  encode_domain_name hostname = Ok name → build_dns_query hostname = Ret (Ok (message DNS_QUERY_FLAGS 0 name [])).
Proof.
  intros He. unfold build_dns_query. rewrite He. unfold DNS_HEADER_SIZE.
  replace (replicate _ 0) with (replicate 12 0 ++ replicate (length name) 0 ++ replicate 4 0);
    [|rewrite <- !replicate_add; f_equal; unfold len; lia].
  do 6 (rewrite write_u16_be_app by (done || unfold len; rewrite ?length_insert; simpl; lia); cbn [mbind outcome_bind]).
  match goal with |- context [copy_into (?h ++ _)] => change h with (take 12 (message DNS_QUERY_FLAGS 0 [] [])) end.
  set (hdr := take 12 _).
  rewrite copy_into_ok; [|unfold len; lia|unfold len; rewrite !length_app, !length_replicate; unfold hdr; simpl; lia|unfold len; lia].
  cbn [mbind outcome_bind]. change (Z.to_nat 12) with (length hdr). rewrite take_app_length.
  replace (Z.to_nat (12 + len name)) with (length hdr + length name)%nat by (unfold len, hdr; simpl; lia).
  rewrite drop_app_add, (drop_app_length' (replicate _ _)) by (by rewrite length_replicate).
  change (replicate 4 0) with [0; 0; 0; 0]. rewrite app_assoc.
  rewrite write_u16_mid by (unfold len, hdr; rewrite length_app; simpl; lia). cbn [mbind outcome_bind].
  rewrite app_assoc, write_u16_mid by (unfold len, hdr; rewrite !length_app; simpl; lia). cbn [mbind outcome_bind].
  do 2 f_equal. unfold message, hdr. by rewrite <- !app_assoc.
Qed.

(** ** A reply on the wire *)

Lemma u32_be_bytes a b c d :
  is_byte a → is_byte b → is_byte c → is_byte d →
  is_uint 32 (u32_from_be_bytes a b c d) ∧ u32_to_be_bytes (u32_from_be_bytes a b c d) = [a; b; c; d].
Proof.
  unfold is_byte, is_uint, u32_to_be_bytes, u32_from_be_bytes. intros Ha Hb Hc Hd. split; [lia|].
  assert (∀ x y, 0 ≤ y < 256 → (x * 256 + y) `div` 256 = x ∧ (x * 256 + y) mod 256 = y) as Hdm.
  { intros x y Hy. rewrite Z.div_add_l, (Z.div_small y) by lia. rewrite (Z.add_comm (x * 256)), Z.mod_add, Z.mod_small by lia. lia. }
  change (2 ^ 24) with (256 * 256 * 256). change (2 ^ 16) with (256 * 256). change (2 ^ 8) with 256.
  rewrite <- !Z.div_div by lia.
  rewrite !(proj1 (Hdm _ _ Hd)), !(proj1 (Hdm _ _ Hc)), !(proj1 (Hdm _ _ Hb)).
  by rewrite (proj2 (Hdm _ _ Hd)), (proj2 (Hdm _ _ Hc)), (proj2 (Hdm _ _ Hb)).
Qed.

Lemma try_parse_ok dst src h1 h2 addr me dp ck resp :
  len dst = 6 → len src = 6 → is_uint 16 (8 + len resp) →
  try_parse_dns_response
    (dst ++ src ++ u16_to_be_bytes ETHERTYPE_IPV4 ++ wire_header (28 + len resp) 0 0x4000 IP_PROTOCOL_UDP h1 h2 addr me ++
     udp_header DNS_PORT dp (8 + len resp) ck ++ resp) (u32_to_be_bytes addr) = parse_dns_response resp.
Proof.
  intros (? & ? & ? & ? & ? & ? & ->)%six_bytes (? & ? & ? & ? & ? & ? & ->)%six_bytes Hl.
  assert (cast 16 (8 + len resp) = 8 + len resp) as Hcast by (by apply Z.mod_small).
  destruct (u16_bytes_roundtrip _ Hl) as (Hrt & _).
  unfold udp_header. rewrite Hcast. assert (0 ≤ len resp) by (unfold len; lia).
  match goal with |- try_parse_dns_response ?f _ = _ => set (frame := f) end.
  assert (len frame = 42 + len resp) as Hlen by (unfold frame, len; rewrite !length_app; simpl; lia).
  unfold try_parse_dns_response. rewrite Hlen.
  destruct (Z.ltb_spec (42 + len resp) 14); [lia|]. destruct (Z.ltb_spec (42 + len resp) (14 + 20)); [lia|].
  change (read_u16_be frame 12) with (Ret ETHERTYPE_IPV4 : outcome Z). cbn [mbind outcome_bind].
  change (index frame 14) with (Ret 0x45 : outcome Z). change (index frame (14 + 9)) with (Ret 17 : outcome Z).
  rewrite (slice_at frame (take 26 frame) (u32_to_be_bytes addr) (drop 30 frame)) by done.
  cbn [mbind outcome_bind]. rewrite bool_decide_true by done.
  change (negb (ETHERTYPE_IPV4 =? ETHERTYPE_IPV4)) with false. change (negb (Z.shiftr 69 4 =? 4)) with false.
  change (Z.land 69 15) with 5. change (5 <? 5) with false. change (negb (17 =? 17)) with false. cbn [negb].
  destruct (Z.ltb_spec (42 + len resp) (14 + 5 * 4 + 8)); [lia|].
  change (read_u16_be frame (14 + 5 * 4)) with (Ret DNS_PORT : outcome Z). cbn [mbind outcome_bind].
  change (negb (DNS_PORT =? DNS_PORT)) with false.
  change (read_u16_be frame (14 + 5 * 4 + 4)) with (Ret (u16_from_be_bytes ((8 + len resp) `div` 256) ((8 + len resp) mod 256))).
  rewrite Hrt. cbn [mbind outcome_bind]. destruct (Z.ltb_spec (8 + len resp) 8); [lia|].
  destruct (Z.ltb_spec (42 + len resp) (14 + 5 * 4 + 8 + (8 + len resp - 8))); [lia|].
  rewrite (slice_at frame (take 42 frame) resp []); [done|by rewrite app_nil_r|done|].
  change (len (take 42 frame)) with 42. lia.
Qed.

(** ** Resolution *)

Section resolution.
Context {D : Type} `{NetDriverLaws D} `{BuildProfile}.
Implicit Types (s : NetStack D) (n : NetState D).

(** A poll within the timeout that began at [start]. *)
Definition in_time (start : Z) (p : Poll) : Prop := start ≤ poll_tick p < start + DNS_TIMEOUT_TICKS.
Definition idle (start : Z) (p : Poll) : Prop := in_time start p ∧ poll_frame p = None.

Lemma elapsed_in_time start p :
  in_time start p → sub64 (poll_tick p) start = Ret (poll_tick p - start) ∧
  (DNS_TIMEOUT_TICKS <=? poll_tick p - start) = false.
Proof.
  unfold in_time, DNS_TIMEOUT_TICKS. intros Hp. split; [apply sub64_ok; unfold is_uint; lia|]. apply Z.leb_gt. lia.
Qed.

Lemma response_loop_idle s server start ps p rest :
  Forall (idle start) ps → response_loop s server start (ps ++ p :: rest) = response_loop s server start (p :: rest).
Proof.
  intros Hps. revert s. induction Hps as [|q ps [Hq Hf] Hps IH]; intros s; [done|]. cbn [app response_loop].
  destruct (elapsed_in_time start q Hq) as [-> Ht]. cbn [mbind outcome_bind]. rewrite Ht, Hf. by rewrite IH.
Qed.

Lemma with_interface_same s : with_interface s (interface s) = s.
Proof. by destruct s as [[] ? ?]. Qed.

Lemma server_address dhcp (server := get_dns_server dhcp) :
  Forall is_byte dhcp → len dhcp = 4 → u32_to_be_bytes (server_addr server) = server ∧ is_uint 32 (server_addr server).
Proof.
  intros Hdb Hd4. assert (Forall is_byte server ∧ len server = 4) as [Hsb Hs4].
  { unfold server, get_dns_server. destruct (bool_decide _); [|done]. split; [by repeat constructor|done]. }
  destruct server as [|a [|b [|c [|d [|]]]]]; unfold len in Hs4; simpl in Hs4; try lia.
  rewrite !list.Forall_cons in Hsb. destruct Hsb as (? & ? & ? & ? & _). destruct (u32_be_bytes a b c d); done.
Qed.

Lemma query_fields hostname name (query := message DNS_QUERY_FLAGS 0 name []) :
  Forall is_byte hostname → encode_domain_name hostname = Ok name →
  datagram_fields DNS_PORT DNS_PORT query ∧ len query ≤ 271.
Proof.
  intros Hhb Hname. destruct (encode_name_bounds hostname name Hhb Hname) as [Hnb Hnl].
  assert (len query = 16 + len name) as Hq by (unfold query, message; part_lengths). split; [|lia].
  split_and!; [done|done| |lia]. unfold query, message.
  repeat first [done | apply Forall_app_2 | apply u16_bytes | by apply Forall_nil].
Qed.

(** Sending a packet to a resolved address and waiting. *)
Lemma send_and_wait s packet m server polls (n := interface s)
    (frame := m ++ mac_address n ++ u16_to_be_bytes ETHERTYPE_IPV4 ++ packet) :
  reliable → len m = 6 → len packet ≤ 1500 →
  wire (nic (transmit n frame)) = wire (nic n) ++ [frame] ∧
  send_udp_and_parse_response s packet m server polls =
    response_loop (with_interface s (transmit n frame)) server (TICKS n) polls.
Proof.
  intros Hrel Hm Hp. pose proof (mac_length (nic n)) as Hmac.
  assert (len frame = 14 + len packet) as Hf by (unfold frame, mac_address in *; part_lengths).
  assert (0 ≤ len packet) by (unfold len; lia).
  split; [apply transmit_accepted; [intros f; apply Hrel|unfold MIN_FRAME_SIZE, MAX_FRAME_SIZE; lia]|].
  unfold send_udp_and_parse_response. fold n. rewrite build_ethernet_ok by done. cbn [mbind outcome_bind].
  fold frame. unfold transmit, send_frame. destruct (Z.ltb_spec MAX_FRAME_SIZE (len frame)); [unfold MAX_FRAME_SIZE in *; lia|].
  destruct (Z.ltb_spec (len frame) MIN_FRAME_SIZE); [unfold MIN_FRAME_SIZE in *; lia|].
  specialize (Hrel (nic n) frame). destruct (nic_send (nic n) frame) as [ok d]. simpl in Hrel. by subst ok.
Qed.

Lemma reply_arrives s server start ps t frame rest :
  Forall (idle start) ps → start ≤ t < start + DNS_TIMEOUT_TICKS →
  response_loop s server start (ps ++ mkPoll t (Some frame) :: rest) =
    (a ← try_parse_dns_response frame server;
     match a with
     | Some ip => Ret (Some (Ok ip, at_tick s t, rest))
     | None => r ← receive (at_tick s t) frame;
               match r with Some s => response_loop s server start rest | None => Ret None end
     end).
Proof.
  intros Hps Ht. rewrite response_loop_idle by done. cbn [response_loop poll_tick poll_frame].
  destruct (elapsed_in_time start (mkPoll t None)) as [He Hb]; [done|]. simpl in He, Hb. rewrite He. cbn [mbind outcome_bind].
  by rewrite Hb.
Qed.

(** The first frame to arrive is the datagram [resp] from the server. *)
Lemma resolve_reply s dhcp hostname name m dst src resp pkt ps t rest
    (addr := server_addr (get_dns_server dhcp)) (n := interface s) :
  reliable → net_ok n → Forall is_byte dhcp → len dhcp = 4 → resolves n addr m →
  Forall is_byte hostname → encode_domain_name hostname = Ok name →
  len dst = 6 → len src = 6 → Forall is_byte resp → len resp ≤ 1472 → build_udp addr (local_ip n) DNS_PORT DNS_PORT resp = Ret pkt →
  Forall (idle (TICKS n)) ps → TICKS n ≤ t < TICKS n + DNS_TIMEOUT_TICKS →
  ∃ packet, let frame := m ++ mac_address n ++ u16_to_be_bytes ETHERTYPE_IPV4 ++ packet in
    build_udp (local_ip n) addr DNS_PORT DNS_PORT (message DNS_QUERY_FLAGS 0 name []) = Ret packet ∧
    wire (nic (transmit n frame)) = wire (nic n) ++ [frame] ∧
    let polls := ps ++ mkPoll t (Some (dst ++ src ++ u16_to_be_bytes ETHERTYPE_IPV4 ++ pkt)) :: rest in
    (∀ ip, parse_dns_response resp = Ret (Some ip) →
       resolve s dhcp hostname polls = Ret (Some (Ok ip, at_tick (with_interface s (transmit n frame)) t, rest))) ∧
    (parse_dns_response resp = Panic → resolve s dhcp hostname polls = Panic).
Proof.
  intros Hrel Hn Hdb Hd4 Hr Hhb Hname Hdst Hsrc Hrb Hrl Hpkt Hps Ht.
  destruct (server_address dhcp Hdb Hd4) as [Hsrv Haddr]. destruct (query_fields hostname name Hhb Hname) as [Hqf Hql].
  pose proof (resolves_length n addr m Hn Hr) as Hm. pose proof (build_dns_query_ok _ _ Hname) as Hquery.
  generalize dependent (message DNS_QUERY_FLAGS 0 name []). intros query Hqf Hql Hquery.
  destruct (build_udp_ok (local_ip n) addr DNS_PORT DNS_PORT query) as (h1 & h2 & ck & Hb & _); [apply Hn|done|done|].
  destruct (build_udp_ok addr (local_ip n) DNS_PORT DNS_PORT resp) as (g1 & g2 & gk & Hg & _); [done|apply Hn|by split_and!|].
  assert (pkt = wire_header (28 + len resp) 0 0x4000 IP_PROTOCOL_UDP g1 g2 addr (local_ip n) ++ udp_header DNS_PORT DNS_PORT (8 + len resp) gk ++ resp) as -> by congruence.
  eexists. split; [exact Hb|]. set (packet := wire_header _ _ _ _ _ _ _ _ ++ udp_header _ _ _ ck ++ _) in *.
  assert (len packet ≤ 1500) as Hpl by (unfold packet, len in *; rewrite !length_app; simpl; lia).
  match goal with |- context [mkPoll t (Some ?r)] => set (reply := r) end.
  destruct (send_and_wait s packet m (get_dns_server dhcp) (ps ++ mkPoll t (Some reply) :: rest) Hrel Hm Hpl) as [Hw Hsend].
  fold n in Hw, Hsend. split; [exact Hw|]. rewrite reply_arrives in Hsend by done.
  assert (is_uint 16 (8 + len resp)) by (unfold is_uint, len in *; lia).
  assert (try_parse_dns_response reply (get_dns_server dhcp) = parse_dns_response resp) as Hparse
    by (rewrite <- Hsrv; by apply try_parse_ok). rewrite Hparse in Hsend.
  unfold resolve. rewrite Hquery. cbn [mbind outcome_bind]. unfold DNS_MAX_RETRIES. cbn [attempts].
  unfold send_query_and_wait. fold n addr. rewrite Hb. cbn [mbind outcome_bind]. rewrite (arp_lookup_resolves n addr m Hr).
  change (with_interface s n) with (with_interface s (interface s)). rewrite with_interface_same, Hsend.
  split; [by intros ip ->|by intros ->].
Qed.

End resolution.


(** ** Messages that panic the parser *)

(** Skipping a name stops inside the message, or two bytes further at a
    pointer. *)
Lemma skip_loop_cases fuel bytes pos :
  Forall is_byte bytes → 0 ≤ pos → ∃ r, skip_loop fuel bytes pos = Ret r ∧
    match r with
    | None => True
    | Some e => pos < e ∧ (e ≤ len bytes ∨ ∃ b, list.last bytes = Some b ∧ 0xC0 ≤ b)
    end.
Proof.
  intros Hb. revert pos. induction fuel as [|fuel IH]; intros pos Hpos; [by eexists|]. cbn [skip_loop].
  destruct (Z.leb_spec (len bytes) pos); [by eexists|].
  destruct (index_byte bytes pos) as (b & Hidx & Hbyte); [done|lia|]. rewrite Hidx. cbn [mbind outcome_bind].
  rewrite pointer_byte by done. destruct (Z.leb_spec 0xC0 b) as [Hptr|_].
  - eexists. split; [done|]. split; [lia|]. destruct (decide (pos + 2 ≤ len bytes)); [by left|]. right.
    apply index_Ret in Hidx as [_ Hl]. exists b. split; [|done].
    rewrite last_lookup, <- Hl. f_equal. unfold len in *. lia.
  - destruct (Z.eqb_spec b 0); [eexists; split; [done|]; split; [lia|left; lia]|]. unfold is_byte, is_uint in Hbyte.
    destruct (Z.ltb_spec (len bytes) (pos + (1 + b))); [by eexists|].
    destruct (IH (pos + (1 + b))) as (r & Hr & Hc); [lia|]. exists r. split; [done|].
    destruct r as [e|]; [|done]. split; [lia|apply Hc].
Qed.

Definition ends_in_pointer (bytes : list Z) : Prop := ∃ b, list.last bytes = Some b ∧ 0xC0 ≤ b.

Lemma parse_questions_total bytes pos n :
  Forall is_byte bytes → 0 ≤ pos ≤ len bytes →
  ∃ r, parse_questions bytes pos n = Ret r ∧ ∀ e, r = Some e → 0 ≤ e ≤ len bytes.
Proof.
  intros Hb. revert pos. induction n as [|n IH]; intros pos Hpos; cbn [parse_questions].
  { eexists. split; [done|]. by intros e [= <-]. }
  destruct (skip_loop_cases (S (length bytes)) bytes pos) as ([e|] & Hs & Hc); [done|lia| |].
  - unfold skip_domain_name. rewrite Hs. cbn [mbind outcome_bind].
    destruct (Z.ltb_spec (len bytes) (e + 4)); [by eexists|]. apply IH. lia.
  - unfold skip_domain_name. rewrite Hs. by eexists.
Qed.

Lemma parse_answer_total bytes pos :
  Forall is_byte bytes → ¬ ends_in_pointer bytes → 0 ≤ pos ≤ len bytes →
  ∃ r, parse_answer bytes pos = Ret r ∧ ∀ a e, r = Some (a, e) → 0 ≤ e ≤ len bytes.
Proof.
  intros Hb Hend Hpos. unfold parse_answer, skip_domain_name.
  destruct (skip_loop_cases (S (length bytes)) bytes pos) as ([e|] & -> & Hc); [done|lia| |by eexists].
  destruct Hc as [Hlt [Hle|Hp]]; [|done]. cbn [mbind outcome_bind]. rewrite slice_ok by lia. cbn [mbind outcome_bind].
  destruct (Z.ltb_spec (len bytes) (e + 10)); [by eexists|].
  destruct (read_u16_ok bytes e) as (? & -> & _); [done|lia|lia|]. cbn [mbind outcome_bind].
  destruct (read_u16_ok bytes (e + 2)) as (? & -> & _); [done|lia|lia|]. cbn [mbind outcome_bind].
  destruct (read_u32_ok bytes (e + 4)) as (? & -> & _); [done|lia|lia|]. cbn [mbind outcome_bind].
  destruct (read_u16_ok bytes (e + 8)) as (n & -> & [Hn _]); [done|lia|lia|]. cbn [mbind outcome_bind].
  destruct (Z.ltb_spec (len bytes) (e + 10 + n)); [by eexists|]. rewrite slice_ok by lia. cbn [mbind outcome_bind].
  eexists. split; [done|]. intros ? ? [= _ <-]. lia.
Qed.

Lemma parse_answers_total bytes pos n :
  Forall is_byte bytes → ¬ ends_in_pointer bytes → 0 ≤ pos ≤ len bytes → ∃ r, parse_answers bytes pos n = Ret r.
Proof.
  intros Hb Hend. revert pos. induction n as [|n IH]; intros pos Hpos; cbn [parse_answers]; [by eexists|].
  destruct (parse_answer_total bytes pos Hb Hend Hpos) as ([[a e]|] & -> & He); [|by eexists]. cbn [mbind outcome_bind].
  destruct (IH e (He a e eq_refl)) as [r ->]. by eexists.
Qed.

Lemma find_a_record_len rs ip : find_a_record rs = Some ip → len ip = 4.
Proof.
  induction rs as [|a rs IH]; simpl; [done|]. destruct (_ && _) eqn:E; [|done]. intros [= <-].
  rewrite !andb_true_iff in E. destruct E as [_ E]. by apply Z.eqb_eq.
Qed.


(** a response cut off after the first byte of a compression pointer
    panics the kernel: when the first datagram of the server carries it,
    [resolve] does not return. The transaction number and the ports of a query
    are constants, so any host can send such a datagram. *)
Theorem dns_pointer_panics {D} `{NetDriverLaws D} `{BuildProfile} (s : NetStack D) dhcp hostname name m dst src fl k b pkt ps t rest
    (addr := server_addr (get_dns_server dhcp)) (n := interface s) (resp := message fl k name [b]) :
  reliable → net_ok n → Forall is_byte dhcp → len dhcp = 4 → resolves n addr m →
  Forall is_byte hostname → encode_domain_name hostname = Ok name → len dst = 6 → len src = 6 →
  answer_flags fl → is_uint 16 k → k ≠ 0 → 0xC0 ≤ b < 256 →
  build_udp addr (local_ip n) DNS_PORT DNS_PORT resp = Ret pkt →
  Forall (idle (TICKS n)) ps → TICKS n ≤ t < TICKS n + DNS_TIMEOUT_TICKS →
  resolve s dhcp hostname (ps ++ mkPoll t (Some (dst ++ src ++ u16_to_be_bytes ETHERTYPE_IPV4 ++ pkt)) :: rest) = Panic.
Proof.
  intros Hrel Hn Hdb Hd4 Hr Hhb Hname Hdst Hsrc Hfl Hk Hk0 Hbyte Hpkt Hps Ht.
  destruct (encode_name_bounds hostname name Hhb Hname) as [Hnb Hnl].
  assert (len resp = 17 + len name) as Hl by (unfold resp, message; part_lengths).
  assert (Forall is_byte resp) as Hrb.
  { unfold resp, message. repeat first [done | apply Hfl | apply Forall_app_2 | apply u16_bytes | apply list.Forall_cons; split | unfold is_byte, is_uint; lia]. }
  destruct (resolve_reply s dhcp hostname name m dst src resp pkt ps t rest) as (packet & _ & _ & _ & Hp); try done; [lia|].
  apply Hp. unfold resp. rewrite parse_to_answers by (done || by eapply encode_owner). fold resp.
  destruct (Z.to_nat k) as [|j] eqn:Ek; [unfold is_uint in Hk; lia|]. cbn [parse_answers]. unfold parse_answer, skip_domain_name.
  cbn [skip_loop]. destruct (Z.leb_spec (len resp) (16 + len name)); [lia|].
  assert (index resp (16 + len name) = Ret b) as ->.
  { unfold resp, message. rewrite 8!app_assoc. apply index_mid. part_lengths. }
  cbn [mbind outcome_bind]. rewrite pointer_byte, (proj2 (Z.leb_le _ _)) by (unfold is_byte, is_uint; lia).
  cbn [mbind outcome_bind]. unfold slice. change (Z.of_nat (length resp)) with (len resp). rewrite Hl.
  rewrite (proj2 (Z.leb_gt (16 + len name + 2) _)) by lia. by rewrite andb_false_r.
Qed.

(** ** Host 10.0.2.1 with the resolver 10.0.2.2 *)

Definition sample_host : NetStack MemNic := peer 1 2 ∅ ∅.
Definition sample_dns : list Z := [10; 0; 2; 2].
Definition sample_name : list Z := [3; 119; 119; 119; 2; 114; 115; 0].
Definition sample_records : list DnsAnswer :=
  [mkDnsAnswer [0xC0; 12] 5 1 60 [1; 97; 0]; mkDnsAnswer [0xC0; 12] DNS_TYPE_A DNS_CLASS_IN 60 [93; 184; 216; 34]].

Lemma sample_host_ok : net_ok (interface sample_host) ∧ resolves (interface sample_host) 0x0A000202 [0x52; 0x54; 0; 0; 0; 2].
Proof. split; [split; [done|by apply map_Forall_singleton]|by eexists]. Qed.

Lemma sample_records_ok : Forall record_ok sample_records.
Proof.
  repeat (apply list.Forall_cons; split); [| |by apply Forall_nil].
  - split; [right; by exists 0xC0, 12|]. done.
  - split; [right; by exists 0xC0, 12|]. done.
Qed.



Lemma dns_pointer_panics_witness :
  ∃ polls, resolve (H0 := dev_profile) sample_host sample_dns (str "www.rs") polls = Panic.
Proof.
  destruct (build_udp (H0 := dev_profile) 0x0A000202 0x0A000201 DNS_PORT DNS_PORT (message 0x8180 1 sample_name [0xC0]))
    as [pkt|] eqn:Hpkt; [|by vm_compute in Hpkt].
  eexists. apply (dns_pointer_panics (H1 := dev_profile) sample_host sample_dns (str "www.rs") sample_name [0x52; 0x54; 0; 0; 0; 2]
    [0x52; 0x54; 0; 0; 0; 1] [0x52; 0x54; 0; 0; 0; 2] 0x8180 1 0xC0 pkt [] (TICKS (interface sample_host) + 5) []).
  - exact mem_reliable.
  - exact (proj1 sample_host_ok).
  - apply all_bytes_ok. vm_compute. reflexivity.
  - reflexivity.
  - exact (proj2 sample_host_ok).
  - apply all_bytes_ok. vm_compute. reflexivity.
  - vm_compute. reflexivity.
  - reflexivity.
  - reflexivity.
  - unfold answer_flags. vm_compute. split_and!; congruence.
  - done.
  - done.
  - lia.
  - exact Hpkt.
  - apply Forall_nil.
  - split; vm_compute; congruence.
Defined.
