(* ===== verification/Elf.v ===== *)
(** * The ELF loader (kernel/src/elf.rs)

    Parsing of the headers, and loading of an executable into fresh frames. A
    file is a list of bytes; physical memory is a function from addresses to
    bytes, which the loader writes through the linear map of all of it. Frames
    come from the interface of Shm.v; the closure that maps a page is the class
    [PageMapper], which may take frames for page tables and write to them. The
    loader records the pages it mapped, the newest first, and the words it
    stored through virtual addresses. *)

From S2P Require Import Prelude Bytes PhysMem FrameAlloc Shm.

Definition ELFMAG : list Z := [0x7f; 69; 76; 70].
Definition ELFCLASS64 : Z := 2.
Definition ELFDATA2LSB : Z := 1.
Definition EM_X86_64 : Z := 62.
Definition ET_EXEC : Z := 2.
Definition ET_DYN : Z := 3.
Definition PT_LOAD : Z := 1.
Definition PT_DYNAMIC : Z := 2.
Definition PF_X : Z := 1.
Definition PF_W : Z := 2.
Definition DT_NULL : Z := 0.
Definition DT_NEEDED : Z := 1.
Definition DT_STRTAB : Z := 5.
Definition DT_STRSZ : Z := 10.
Definition DT_SYMTAB : Z := 6.
Definition DT_SYMENT : Z := 11.
Definition DT_JMPREL : Z := 23.
Definition DT_PLTRELSZ : Z := 2.
Definition DT_RELA : Z := 7.
Definition DT_RELASZ : Z := 8.
Definition DT_PLTGOT : Z := 3.
Definition R_X86_64_RELATIVE : Z := 8.

Inductive ElfError : Type :=
| BadMagic | NotElf64 | NotLittleEndian | WrongArchitecture | NotExecutable | InvalidSegment | SegmentOverlap
| OutOfMemory.

Record Elf64Header : Type := mkElfHeader { entry : Z; phoff : Z; phnum : Z; e_type : Z }.

Record ProgramHeader : Type := mkProgramHeader {
  p_type : Z;
  p_flags : Z;
  p_offset : Z;
  p_vaddr : Z;
  p_filesz : Z;
  p_memsz : Z;
}.

Record DynamicInfo : Type := mkDynamic {
  strtab_addr : Z;
  strtab_size : Z;
  symtab_addr : Z;
  sym_entry_size : Z;
  needed : list Z;
  jmprel_addr : Z;
  jmprel_size : Z;
  rela_addr : Z;
  rela_size : Z;
  pltgot_addr : Z;
}.

Record ElfLoadResult : Type := mkLoadResult {
  entry_point : Z;
  stack_top : Z;
  dynamic : option DynamicInfo;
  load_type : Z;
  guard_page_virt : Z;
}.

(** ** Headers *)

Definition parse_header (bytes : list Z) : outcome (result Elf64Header ElfError) :=
  if len bytes <? 64 then Ret (Err BadMagic)
  else
    magic ← slice bytes 0 4;
    if negb (bool_decide (magic = ELFMAG)) then Ret (Err BadMagic)
    else
      class ← index bytes 4;
      if negb (class =? ELFCLASS64) then Ret (Err NotElf64)
      else
        order ← index bytes 5;
        if negb (order =? ELFDATA2LSB) then Ret (Err NotLittleEndian)
        else
          e_type ← read_le bytes 16 18;
          e_machine ← read_le bytes 18 20;
          e_entry ← read_le bytes 24 32;
          e_phoff ← read_le bytes 32 40;
          e_phnum ← read_le bytes 56 58;
          if negb (e_machine =? EM_X86_64) then Ret (Err WrongArchitecture)
          else if negb (e_type =? ET_EXEC) && negb (e_type =? ET_DYN) then Ret (Err NotExecutable)
          else Ret (Ok (mkElfHeader e_entry e_phoff e_phnum e_type)).

Section elf.
Context `{BuildProfile}.

Definition parse_program_header (bytes : list Z) (phoff idx : Z) : outcome (result ProgramHeader ElfError) :=
  offset ← add64 phoff (idx * 56);
  last ← add64 offset 56;
  if len bytes <? last then Ret (Err InvalidSegment)
  else
    ph ← slice bytes offset last;
    p_type ← read_le ph 0 4;
    p_flags ← read_le ph 4 8;
    p_offset ← read_le ph 8 16;
    p_vaddr ← read_le ph 16 24;
    p_filesz ← read_le ph 32 40;
    p_memsz ← read_le ph 40 48;
    Ret (Ok (mkProgramHeader p_type p_flags p_offset p_vaddr p_filesz p_memsz)).

Definition checked_add (a b : Z) : option Z := if a + b <? 2 ^ 64 then Some (a + b) else None.

(** The pages of a segment: the first, and the end of the last. *)
Definition start_page (ph : ProgramHeader) : Z := Z.land (p_vaddr ph) (unot 64 0xFFF).
Definition end_page (ph : ProgramHeader) : option Z :=
  match checked_add (p_vaddr ph) (p_memsz ph) with
  | None => None
  | Some v => match checked_add v 0xFFF with None => None | Some v => Some (Z.land v (unot 64 0xFFF)) end
  end.

Definition ranges_overlap (s e : Z) (r : Z * Z) : bool := (s <? r.2) && (r.1 <? e).

(** The check of the ranges: [n] headers from index [i], [ranges] seen before. *)
Fixpoint check_segments (bytes : list Z) (h : Elf64Header) (n : nat) (i : Z) (ranges : list (Z * Z))
    : outcome (result unit ElfError) :=
  match n with
  | O => Ret (Ok tt)
  | S n =>
      r ← parse_program_header bytes (phoff h) i;
      match r with
      | Err e => Ret (Err e)
      | Ok ph =>
          if negb (p_type ph =? PT_LOAD) then check_segments bytes h n (i + 1) ranges
          else
            match end_page ph with
            | None => Ret (Err InvalidSegment)
            | Some e =>
                if e <=? start_page ph then check_segments bytes h n (i + 1) ranges
                else if existsb (ranges_overlap (start_page ph) e) ranges then Ret (Err SegmentOverlap)
                else check_segments bytes h n (i + 1) (ranges ++ [(start_page ph, e)])
            end
      end
  end.

(** ** The dynamic section *)

(** The first header of type [PT_DYNAMIC]; a header that does not parse ends
    the search. *)
Fixpoint find_dynamic (bytes : list Z) (phoff : Z) (n : nat) (i : Z) : outcome (option ProgramHeader) :=
  match n with
  | O => Ret None
  | S n =>
      r ← parse_program_header bytes phoff i;
      match r with
      | Err _ => Ret None
      | Ok ph => if p_type ph =? PT_DYNAMIC then Ret (Some ph) else find_dynamic bytes phoff n (i + 1)
      end
  end.

Definition set_entry (d : DynamicInfo) (tag val : Z) : DynamicInfo :=
  let '(mkDynamic st ss sy se nd ja js ra rs pg) := d in
  if tag =? DT_NEEDED then mkDynamic st ss sy se (nd ++ [val]) ja js ra rs pg
  else if tag =? DT_STRTAB then mkDynamic val ss sy se nd ja js ra rs pg
  else if tag =? DT_STRSZ then mkDynamic st val sy se nd ja js ra rs pg
  else if tag =? DT_SYMTAB then mkDynamic st ss val se nd ja js ra rs pg
  else if tag =? DT_SYMENT then mkDynamic st ss sy val nd ja js ra rs pg
  else if tag =? DT_JMPREL then mkDynamic st ss sy se nd val js ra rs pg
  else if tag =? DT_PLTRELSZ then mkDynamic st ss sy se nd ja val ra rs pg
  else if tag =? DT_RELA then mkDynamic st ss sy se nd ja js val rs pg
  else if tag =? DT_RELASZ then mkDynamic st ss sy se nd ja js ra val pg
  else if tag =? DT_PLTGOT then mkDynamic st ss sy se nd ja js ra rs val
  else d.

Fixpoint dynamic_entries (bytes : list Z) (dyn_offset : Z) (n : nat) (i : Z) (d : DynamicInfo) : outcome DynamicInfo :=
  match n with
  | O => Ret d
  | S n =>
      k ← mul64 i 16;
      off ← add64 dyn_offset k;
      last ← add64 off 16;
      if len bytes <? last then Ret d
      else
        tag ← read_le bytes off (off + 8);
        val ← read_le bytes (off + 8) last;
        if tag =? DT_NULL then Ret d else dynamic_entries bytes dyn_offset n (i + 1) (set_entry d tag val)
  end.

Definition parse_dynamic_segment (bytes : list Z) (phoff phnum : Z) : outcome (option DynamicInfo) :=
  r ← find_dynamic bytes phoff (Z.to_nat phnum) 0;
  match r with
  | None => Ret None
  | Some ph =>
      d ← dynamic_entries bytes (p_offset ph) (Z.to_nat (p_filesz ph `div` 16)) 0 (mkDynamic 0 0 0 24 [] 0 0 0 0 0);
      Ret (Some d)
  end.

Definition get_needed_name (bytes : list Z) (strtab_vaddr name_offset base_addr : Z) : outcome (option (list Z)) :=
  a ← add64 strtab_vaddr name_offset;
  if a <? base_addr then Ret None
  else
    let file_off := a - base_addr in
    if len bytes <=? file_off then Ret None
    else
      rest ← slice bytes file_off (len bytes);
      match list_find (λ b, b = 0) rest with
      | None => Ret None
      | Some (n, _) => name ← slice bytes file_off (file_off + Z.of_nat n); Ret (Some name)
      end.

End elf.

(** ** Loading *)

(** What the closure given to [load_elf] does to the frames and to memory. *)
Class PageMapper (F : Type) : Type :=
  map_page : Z → Z → bool → bool → F * (Z → Z) → outcome (F * (Z → Z)).

Record Mapping : Type := mkMapping { m_virt : Z; m_phys : Z; m_writable : bool; m_executable : bool }.

Record Loader (F : Type) : Type := mkLoader {
  ld_frames : F;
  memory : Z → Z;
  mapped : list Mapping;
  stores : list (Z * Z);
}.
Arguments mkLoader {F} _ _ _ _.
Arguments ld_frames {F} _.
Arguments memory {F} _.
Arguments mapped {F} _.
Arguments stores {F} _.

Definition STACK_VIRT_BASE : Z := 0x00007FFFFFFFC000.
Definition STACK_PAGES : Z := 4.

Section load.
Context {F : Type} `{FrameSource F} `{PageMapper F} `{BuildProfile}.
Implicit Types st : Loader F.

(** [alloc_frame] and the zeroing of the frame. *)
Definition fresh_page st : outcome (option Z * Loader F) :=
  '(r, f) ← take_frame (ld_frames st);
  Ret (match r with
       | None => (None, mkLoader f (memory st) (mapped st) (stores st))
       | Some phys => (Some phys, mkLoader f (zero_page (memory st) phys) (mapped st) (stores st))
       end).

Definition map_at st (virt phys : Z) (w x : bool) : outcome (Loader F) :=
  '(f, m) ← map_page virt phys w x (ld_frames st, memory st);
  Ret (mkLoader f m (mkMapping virt phys w x :: mapped st) (stores st)).

(** The file data of the page at [virt] of segment [ph], with its place in the
    page; [None] where the code goes on to the next page without mapping. *)
Definition page_data (bytes : list Z) (ph : ProgramHeader) (virt : Z) : outcome (option (option (Z * list Z))) :=
  let from := saturating_sub virt (p_vaddr ph) in
  if p_filesz ph <=? from then Ret (Some None)
  else
    let upto := Z.min (saturating_add 64 from 0x1000) (p_filesz ph) in
    copy_len ← sub64 upto from;
    match checked_add (p_offset ph) from with
    | None => Ret None
    | Some file_start =>
        match checked_add file_start copy_len with
        | None => Ret None
        | Some file_end =>
            if len bytes <? file_end then Ret (Some None)
            else
              src ← slice bytes file_start file_end;
              Ret (Some (Some (if virt =? start_page ph then Z.land (p_vaddr ph) 0xFFF else 0, src)))
        end
    end.

(** The memory of the frame [phys] with that data. *)
Definition page_memory (m : Z → Z) (phys : Z) (d : option (Z * list Z)) : Z → Z :=
  match d with Some (off, src) => copy_bytes m (phys + off) src | None => m end.

Definition load_page st (bytes : list Z) (ph : ProgramHeader) (virt : Z) : outcome (result unit ElfError * Loader F) :=
  '(r, st) ← fresh_page st;
  match r with
  | None => Ret (Err OutOfMemory, st)
  | Some phys =>
      d ← page_data bytes ph virt;
      match d with
      | None => Ret (Ok tt, st)
      | Some d =>
          let st := mkLoader (ld_frames st) (page_memory (memory st) phys d) (mapped st) (stores st) in
          st ← map_at st virt phys (negb (Z.land (p_flags ph) PF_W =? 0)) (negb (Z.land (p_flags ph) PF_X =? 0));
          Ret (Ok tt, st)
      end
  end.

(** The loop over the pages of a segment, [n] of them from [page_idx]. *)
Fixpoint load_pages st (bytes : list Z) (ph : ProgramHeader) (n : nat) (page_idx : Z) : outcome (result unit ElfError * Loader F) :=
  match n with
  | O => Ret (Ok tt, st)
  | S n =>
      k ← mul64 page_idx 0x1000;
      match checked_add (start_page ph) k with
      | None => Ret (Err InvalidSegment, st)
      | Some virt =>
          '(r, st) ← load_page st bytes ph virt;
          match r with Err e => Ret (Err e, st) | Ok _ => load_pages st bytes ph n (page_idx + 1) end
      end
  end.

Fixpoint load_segments st (bytes : list Z) (h : Elf64Header) (n : nat) (i : Z) : outcome (result unit ElfError * Loader F) :=
  match n with
  | O => Ret (Ok tt, st)
  | S n =>
      r ← parse_program_header bytes (phoff h) i;
      match r with
      | Err e => Ret (Err e, st)
      | Ok ph =>
          if negb (p_type ph =? PT_LOAD) then load_segments st bytes h n (i + 1)
          else
            match end_page ph with
            | None => Ret (Err InvalidSegment, st)
            | Some e =>
                if e <=? start_page ph then load_segments st bytes h n (i + 1)
                else
                  '(r, st) ← load_pages st bytes ph (Z.to_nat ((e - start_page ph) `div` 0x1000)) 0;
                  match r with Err e => Ret (Err e, st) | Ok _ => load_segments st bytes h n (i + 1) end
            end
      end
  end.

Fixpoint load_stack st (n : nat) (i : Z) : outcome (result unit ElfError * Loader F) :=
  match n with
  | O => Ret (Ok tt, st)
  | S n =>
      '(r, st) ← fresh_page st;
      match r with
      | None => Ret (Err OutOfMemory, st)
      | Some phys => st ← map_at st (STACK_VIRT_BASE + i * 0x1000) phys true false; load_stack st n (i + 1)
      end
  end.

(** The file offset of a virtual address, from the first segment whose file
    data contains it; headers that do not parse are skipped. *)
Fixpoint file_offset (bytes : list Z) (h : Elf64Header) (vaddr : Z) (n : nat) (i : Z) : outcome (option Z) :=
  match n with
  | O => Ret None
  | S n =>
      r ← parse_program_header bytes (phoff h) i;
      match r with
      | Err _ => file_offset bytes h vaddr n (i + 1)
      | Ok ph =>
          if (p_type ph =? PT_LOAD) && (p_vaddr ph <=? vaddr) && (vaddr <? saturating_add 64 (p_vaddr ph) (p_filesz ph))
          then off ← add64 (p_offset ph) (vaddr - p_vaddr ph); Ret (Some off)
          else file_offset bytes h vaddr n (i + 1)
      end
  end.

(** The relocations: [write_volatile] of the addend at the address of each
    relative one. *)
Fixpoint relocate st (bytes : list Z) (file_off : Z) (n : nat) (i : Z) : outcome (Loader F) :=
  match n with
  | O => Ret st
  | S n =>
      entry_off ← add64 file_off (i * 24);
      last ← add64 entry_off 24;
      if len bytes <? last then Ret st
      else
        r_offset ← read_le bytes entry_off (entry_off + 8);
        r_info ← read_le bytes (entry_off + 8) (entry_off + 16);
        r_addend ← read_le bytes (entry_off + 16) last;
        let st := if cast 32 r_info =? R_X86_64_RELATIVE
                  then mkLoader (ld_frames st) (memory st) (mapped st) (stores st ++ [(r_offset, r_addend)]) else st in
        relocate st bytes file_off n (i + 1)
  end.

Definition apply_relocations st (bytes : list Z) (h : Elf64Header) (d : option DynamicInfo) : outcome (Loader F) :=
  match d with
  | None => Ret st
  | Some d =>
      if (0 <? rela_addr d) && (0 <? rela_size d) then
        off ← file_offset bytes h (rela_addr d) (Z.to_nat (phnum h)) 0;
        match off with
        | None => Ret st
        | Some off => relocate st bytes off (Z.to_nat (rela_size d `div` 24)) 0
        end
      else Ret st
  end.

Definition load_elf st (bytes : list Z) : outcome (result ElfLoadResult ElfError * Loader F) :=
  r ← parse_header bytes;
  match r with
  | Err e => Ret (Err e, st)
  | Ok h =>
      c ← check_segments bytes h (Z.to_nat (phnum h)) 0 [];
      match c with
      | Err e => Ret (Err e, st)
      | Ok _ =>
          '(r, st) ← load_segments st bytes h (Z.to_nat (phnum h)) 0;
          match r with
          | Err e => Ret (Err e, st)
          | Ok _ =>
              let stack_top := STACK_VIRT_BASE + STACK_PAGES * 0x1000 in
              '(r, st) ← load_stack st (Z.to_nat STACK_PAGES) 0;
              match r with
              | Err e => Ret (Err e, st)
              | Ok _ =>
                  d ← parse_dynamic_segment bytes (phoff h) (phnum h);
                  st ← apply_relocations st bytes h d;
                  Ret (Ok (mkLoadResult (entry h) stack_top d (e_type h) (saturating_sub stack_top 0x1000)), st)
              end
          end
      end
  end.

End load.
