(* ===== verification/ElfProofs.v ===== *)
(** * Properties of the ELF loader (kernel/src/elf.rs)

    What a task finds in memory after a successful load, that loading leaves the
    memory of others alone, and the files for which it does not. *)

From S2P Require Import Prelude Bytes PhysMem FrameAlloc Shm Elf.

(** What the loader relies on. [pm_inv T σ f m] says that the frames [T] hold
    the page tables of the address space, and that they map the pages as [σ]
    says. Mapping a page of the address space, [pm_dom], takes at most three
    frames for tables and panics when they are not there; it writes only to
    tables. *)
Class PageMapperLaws (F : Type) `{FrameSourceLaws F} `{PageMapper F} : Type := {
  pm_inv : gset Z → (Z → option (Z * (bool * bool))) → F → (Z → Z) → Prop;
  pm_dom : Z → Prop;
  pm_left : F → Z;
  pm_valid T σ f m : pm_inv T σ f m → fs_valid f ∧ T ⊆ frames_out f ∧ 0 ≤ pm_left f;
  pm_aligned T σ f m a : pm_inv T σ f m → a ∈ frames_out f → a mod 4096 = 0;
  pm_ext T σ f m m' : pm_inv T σ f m → (∀ a, frame_of a ∈ T → m' a = m a) → pm_inv T σ f m';
  pm_take T σ f m r f' : pm_inv T σ f m → take_frame f = Ret (r, f') →
    pm_inv T σ f' m ∧ match r with Some _ => pm_left f = pm_left f' + 1 | None => pm_left f = 0 end;
  pm_map T σ f m v p w x : pm_inv T σ f m → pm_dom v → p ∈ frames_out f → (p ∉ T) →
    (map_page v p w x (f, m) = Panic ∧ pm_left f < 3) ∨
    ∃ T' f' m', map_page v p w x (f, m) = Ret (f', m') ∧
      pm_inv T' (λ u, if decide (u = v) then Some (p, (w, x)) else σ u) f' m' ∧
      frames_out f ⊆ frames_out f' ∧ (∀ a, a ∈ T' → a ∈ T ∨ a ∉ frames_out f) ∧ T ⊆ T' ∧
      (∀ a, (frame_of a ∉ T') → m' a = m a) ∧ pm_left f ≤ pm_left f' + 3;
}.

(** ** The pages of a segment *)

Definition page_count (ph : ProgramHeader) : Z :=
  match end_page ph with Some e => (e - start_page ph) `div` 0x1000 | None => 0 end.

Definition page_at (ph : ProgramHeader) (k : Z) : Z := start_page ph + k * 0x1000.

Definition pages_of (ph : ProgramHeader) : list Z :=
  if p_type ph =? PT_LOAD then map (page_at ph) (seqZ 0 (page_count ph)) else [].

(** The byte a segment puts at virtual address [v]. *)
Definition seg_byte (bytes : list Z) (ph : ProgramHeader) (v : Z) : Z :=
  if (p_vaddr ph <=? v) && (v <? p_vaddr ph + p_filesz ph)
  then default 0 (bytes !! Z.to_nat (p_offset ph + (v - p_vaddr ph))) else 0.

(** A segment whose file data is in the file and does not straddle the end of
    its first page from a place inside it. *)
Definition seg_ok (bytes : list Z) (ph : ProgramHeader) : Prop :=
  0 ≤ p_vaddr ph ∧ 0 ≤ p_memsz ph ∧ p_vaddr ph + p_memsz ph + 0xFFF < 2 ^ 64 ∧
  0 ≤ p_offset ph ∧ 0 ≤ p_filesz ph ∧ p_offset ph + p_filesz ph ≤ len bytes ∧
  p_vaddr ph mod 4096 + Z.min 4096 (p_filesz ph) ≤ 4096.

Lemma align_down x : 0 ≤ x < 2 ^ 64 → Z.land x (unot 64 0xFFF) = frame_of x.
Proof. intros Hx. by apply (land_align_down 64 x 12). Qed.

Lemma seg_pages bytes ph :
  seg_ok bytes ph →
  start_page ph = frame_of (p_vaddr ph) ∧ ∃ e, end_page ph = Some e ∧ e = frame_of (p_vaddr ph + p_memsz ph + 0xFFF) ∧
    e = start_page ph + 0x1000 * page_count ph ∧ 0 ≤ page_count ph ∧ 0 ≤ start_page ph ∧ e < 2 ^ 64.
Proof.
  intros (Hv & Hm & Hend & _). unfold page_count, start_page, end_page, checked_add.
  destruct (Z.ltb_spec (p_vaddr ph + p_memsz ph) (2 ^ 64)); [|lia].
  destruct (Z.ltb_spec (p_vaddr ph + p_memsz ph + 0xFFF) (2 ^ 64)); [|lia]. rewrite !align_down by lia.
  split; [done|]. eexists. split; [done|]. split; [done|].
  pose proof (frame_of_bounds (p_vaddr ph)) as [? Hs]. pose proof (frame_of_bounds (p_vaddr ph + p_memsz ph + 0xFFF)) as [? He].
  set (s := frame_of (p_vaddr ph)) in *. set (e := frame_of (p_vaddr ph + p_memsz ph + 0xFFF)) in *.
  pose proof (Z.div_mod s 4096). pose proof (Z.div_mod e 4096).
  assert (e - s = (e `div` 4096 - s `div` 4096) * 4096) as -> by lia. rewrite Z.div_mul by lia.
  assert (0 ≤ p_vaddr ph `div` 4096) by (apply Z.div_pos; lia). unfold frame_of in s.
  pose proof (Z.div_mod (p_vaddr ph) 4096). lia.
Qed.

Lemma page_of_segment bytes ph v :
  seg_ok bytes ph → p_type ph = PT_LOAD → p_vaddr ph ≤ v < p_vaddr ph + p_memsz ph → frame_of v ∈ pages_of ph.
Proof.
  intros Hok Ht Hv. destruct (seg_pages bytes ph Hok) as (Hs & e & _ & He & Hc & Hn & _).
  unfold pages_of. rewrite Ht, Z.eqb_refl. apply list_elem_of_fmap.
  pose proof (frame_of_bounds v) as [Hb Hm]. pose proof (frame_of_bounds (p_vaddr ph)) as [Hb' Hm'].
  pose proof (frame_of_bounds (p_vaddr ph + p_memsz ph + 0xFFF)) as [Hb'' Hm''].
  pose proof (Z.div_mod (frame_of v) 4096). pose proof (Z.div_mod (frame_of (p_vaddr ph)) 4096).
  pose proof (Z.div_mod (frame_of (p_vaddr ph + p_memsz ph + 0xFFF)) 4096).
  exists (frame_of v `div` 4096 - start_page ph `div` 4096). rewrite elem_of_seqZ. unfold page_at. rewrite Hs in *. lia.
Qed.

(** ** One page *)

(** Data copied into a zeroed frame shows there, and nowhere else. *)
Lemma page_memory_at m p off src a :
  0 ≤ off → off + len src ≤ 4096 →
  page_memory (zero_page m p) p (Some (off, src)) a =
    if decide (p ≤ a < p + 4096)
    then (if decide (off ≤ a - p < off + len src) then default 0 (src !! Z.to_nat (a - p - off)) else 0) else m a.
Proof.
  intros Ho Hl. unfold page_memory. rewrite copy_bytes_at, zero_page_at.
  destruct (decide (p + off ≤ a < p + off + len src)).
  - rewrite !decide_True by lia. do 3 f_equal. lia.
  - destruct (decide (p ≤ a < p + 4096)); [|done]. by rewrite decide_False by lia.
Qed.

Lemma land_low x : Z.land x 0xFFF = x mod 4096.
Proof. by apply (land_mask x 12). Qed.

Lemma slice_bytes (bytes src : list Z) a b i :
  slice bytes a b = Ret src → 0 ≤ i < b - a → default 0 (src !! Z.to_nat i) = default 0 (bytes !! Z.to_nat (a + i)).
Proof.
  unfold slice. destruct (_ && _) eqn:E; [|done]. intros [= <-] Hi. rewrite !andb_true_iff, !Z.leb_le in E.
  rewrite lookup_take_lt, lookup_drop by lia. do 2 f_equal. lia.
Qed.

Section pages.
Context `{BuildProfile}.

(** The data of a page of a segment that is in order. *)
Lemma page_data_ok bytes ph k (virt := page_at ph k) :
  seg_ok bytes ph → is_uint 64 (len bytes) → 0 ≤ k →
  ∃ d, page_data bytes ph virt = Ret (Some d) ∧
    ∀ m p a, page_memory (zero_page m p) p d a =
      if decide (p ≤ a < p + 4096) then seg_byte bytes ph (virt + (a - p)) else m a.
Proof.
  intros Hok Hlen Hk. destruct (seg_pages bytes ph Hok) as (Hs & _). destruct Hok as (Hv & _ & _ & Ho & Hfz & Hfile & Hfit).
  pose proof (frame_of_bounds (p_vaddr ph)) as [Hfb _]. set (o := p_vaddr ph mod 4096) in *.
  assert (p_vaddr ph = start_page ph + o) as Hvo by (rewrite Hs; unfold frame_of, o; lia).
  assert (0 ≤ o < 4096) as Hob by (apply Z.mod_pos_bound; lia).
  assert (virt = start_page ph + k * 4096) as Hvirt by done. unfold page_data, saturating_sub.
  destruct (Z.leb_spec (p_filesz ph) (Z.max (virt - p_vaddr ph) 0)) as [Hnone|Hdata].
  - exists None. split; [done|]. intros m p a. simpl. rewrite zero_page_at. destruct (decide _); [|done].
    unfold seg_byte. destruct (Z.leb_spec (p_vaddr ph) (virt + (a - p))), (Z.ltb_spec (virt + (a - p)) (p_vaddr ph + p_filesz ph));
      simpl; try done. nia.
  - set (from := Z.max (virt - p_vaddr ph) 0) in *. set (off := if virt =? start_page ph then Z.land (p_vaddr ph) 0xFFF else 0).
    assert (off = p_vaddr ph - Z.min (p_vaddr ph) virt ∧ from = Z.max (virt - p_vaddr ph) 0) as [Hoff Hfrom].
    { split; [|done]. unfold off. destruct (Z.eqb_spec virt (start_page ph)) as [->|]; [rewrite land_low; fold o; lia|nia]. }
    set (upto := Z.min (saturating_add 64 from 0x1000) (p_filesz ph)).
    assert (upto = Z.min (from + 4096) (p_filesz ph)) as Hupto.
    { unfold upto, saturating_add, is_uint in *. lia. }
    assert (off + (upto - from) ≤ 4096) as Hroom by nia.
    rewrite sub64_ok by (unfold is_uint in *; lia). cbn [mbind outcome_bind]. unfold checked_add.
    rewrite (proj2 (Z.ltb_lt (p_offset ph + from) _)), (proj2 (Z.ltb_lt (p_offset ph + from + (upto - from)) _))
      by (unfold is_uint in *; lia).
    destruct (Z.ltb_spec (len bytes) (p_offset ph + from + (upto - from))); [lia|].
    destruct (slice bytes (p_offset ph + from) (p_offset ph + from + (upto - from))) as [src|] eqn:Hsl;
      [|rewrite slice_ok in Hsl by lia; done].
    pose proof (slice_length _ _ _ _ Hsl) as Hsrc. cbn [mbind outcome_bind].
    exists (Some (off, src)). split; [done|]. intros m p a. rewrite page_memory_at by lia.
    destruct (decide (p ≤ a < p + 4096)) as [Ha|]; [|done]. unfold seg_byte.
    destruct (decide (off ≤ a - p < off + len src)).
    + rewrite (proj2 (Z.leb_le _ _)), (proj2 (Z.ltb_lt _ _)) by lia. simpl.
      rewrite (slice_bytes _ _ _ _ _ Hsl) by lia. do 3 f_equal. lia.
    + destruct (Z.leb_spec (p_vaddr ph) (virt + (a - p))), (Z.ltb_spec (virt + (a - p)) (p_vaddr ph + p_filesz ph)); simpl; nia || done.
Qed.

End pages.

(** ** Placing pages in fresh frames *)

Section headers.
Context `{BuildProfile}.

(** The headers from index [i] on parse to [phs]. *)
Definition headers_from (bytes : list Z) (h : Elf64Header) (i : Z) (phs : list ProgramHeader) : Prop :=
  ∀ j ph, phs !! j = Some ph → parse_program_header bytes (phoff h) (i + Z.of_nat j) = Ret (Ok ph).

Lemma headers_cons bytes h i ph phs :
  headers_from bytes h i (ph :: phs) →
  parse_program_header bytes (phoff h) i = Ret (Ok ph) ∧ headers_from bytes h (i + 1) phs.
Proof.
  intros Hh. split; [rewrite <- (Hh 0%nat ph eq_refl); f_equal; lia|]. intros j ph' Hj.
  rewrite <- (Hh (S j) ph' Hj). f_equal. lia.
Qed.

Definition loads_ok (bytes : list Z) (phs : list ProgramHeader) : Prop :=
  Forall (λ ph, p_type ph = PT_LOAD → seg_ok bytes ph) phs.

Lemma pages_of_load bytes ph :
  seg_ok bytes ph → p_type ph = PT_LOAD → pages_of ph = map (page_at ph) (seqZ 0 (page_count ph)).
Proof. intros _ Ht. unfold pages_of. by rewrite Ht, Z.eqb_refl. Qed.

End headers.

Definition stack_page (i : Z) : Z := STACK_VIRT_BASE + i * 0x1000.
Definition stack_pages : list Z := map stack_page (seqZ 0 STACK_PAGES).

Section place.
Context {F : Type} `{PageMapperLaws F} `{BuildProfile}.
Implicit Types (st : Loader F) (f : F).

Definition rights (ph : ProgramHeader) : bool * bool :=
  (negb (Z.land (p_flags ph) PF_W =? 0), negb (Z.land (p_flags ph) PF_X =? 0)).

(** A fresh frame. *)
Lemma take_data T σ f m r f' :
  pm_inv T σ f m → take_frame f = Ret (r, f') →
  pm_inv T σ f' m ∧ frames_out f ⊆ frames_out f' ∧
  match r with
  | Some p => (p ∉ frames_out f) ∧ p ∈ frames_out f' ∧ p mod 4096 = 0 ∧ pm_left f = pm_left f' + 1
  | None => pm_left f = 0
  end.
Proof.
  intros Hi Ht. destruct (pm_valid _ _ _ _ Hi) as (Hv & _). destruct (take_ok f Hv) as (r' & f'' & Heq & _ & Hr).
  rewrite Ht in Heq. injection Heq as <- <-. destruct (pm_take _ _ _ _ _ _ Hi Ht) as [Hi' Hl]. split; [done|].
  destruct r as [p|]; [|by rewrite Hr]. destruct Hr as [Hp Hout]. assert (p ∈ frames_out f') by (rewrite Hout; set_solver).
  split; [set_solver|]. split_and!; [done|done|by apply (pm_aligned _ _ _ _ p Hi')|done].
Qed.

(** A load that starts with frames [f0], page tables in [T0], mappings [σ0]
    and memory [m0], and makes pages with the bytes [content] and the rights
    [perm]. *)
Section load.
Variables (f0 : F) (T0 : gset Z) (σ0 : Z → option (Z * (bool * bool))) (m0 : Z → Z).
Variables (content : Z → Z) (perm : Z → bool * bool).

Definition find_page (l : list Mapping) (v : Z) : option Mapping := List.find (λ mp, m_virt mp =? v) l.

(** What it has done: the mapped pages are distinct, in distinct fresh frames,
    and show [content] with the rights [perm]; data frames that were out before
    are untouched. *)
Record placed (T : gset Z) (σ : Z → option (Z * (bool * bool))) st : Prop := mkPlaced {
  pl_inv : pm_inv T σ (ld_frames st) (memory st);
  pl_out : frames_out f0 ⊆ frames_out (ld_frames st);
  pl_tabs a : a ∈ T → a ∈ T0 ∨ a ∉ frames_out f0;
  pl_map v : σ v = match find_page (mapped st) v with
                   | Some mp => Some (m_phys mp, (m_writable mp, m_executable mp))
                   | None => σ0 v
                   end;
  pl_virt : NoDup (map m_virt (mapped st));
  pl_phys : NoDup (map m_phys (mapped st));
  pl_page mp : mp ∈ mapped st → m_phys mp ∈ frames_out (ld_frames st) ∧ (m_phys mp ∉ T) ∧ (m_phys mp ∉ frames_out f0) ∧
    (m_writable mp, m_executable mp) = perm (m_virt mp) ∧
    ∀ j, 0 ≤ j < 4096 → memory st (m_phys mp + j) = content (m_virt mp + j);
  pl_old a : frame_of a ∈ frames_out f0 → (frame_of a ∉ T0) → memory st a = m0 a;
}.

Definition placing st : Prop := ∃ T σ, placed T σ st.

(** Mapping a fresh, filled frame. *)
Lemma map_at_placed st virt p f m w x :
  placing st → pm_dom virt → (virt ∉ map m_virt (mapped st)) → take_frame (ld_frames st) = Ret (Some p, f) →
  (∀ a, m a = if decide (p ≤ a < p + 4096) then content (virt + (a - p)) else memory st a) → perm virt = (w, x) →
  (map_at (mkLoader f m (mapped st) (stores st)) virt p w x = Panic ∧ pm_left (ld_frames st) < 4) ∨
  ∃ st', map_at (mkLoader f m (mapped st) (stores st)) virt p w x = Ret st' ∧ placing st' ∧
    mapped st' = mkMapping virt p w x :: mapped st ∧ stores st' = stores st ∧ pm_left (ld_frames st) ≤ pm_left (ld_frames st') + 4.
Proof.
  intros (T & σ & [Hi Hout Htabs Hmap Hnv Hnp Hpage Hold]) Hdom Hnew Ht Hm Hperm.
  destruct (take_data _ _ _ _ _ _ Hi Ht) as (Hif & Hsub & Hfresh & Hpo & Hal & Hleft).
  destruct (pm_valid _ _ _ _ Hi) as (_ & HT & _).
  assert (∀ a, frame_of a ∈ T → m a = memory st a) as Hmt.
  { intros a Ha. rewrite Hm, decide_False; [done|]. intros Hr. rewrite (frame_of_unique _ p Hal Hr) in Ha. set_solver. }
  pose proof (pm_ext _ _ _ _ m Hif Hmt) as Him. unfold map_at. cbn [ld_frames memory mapped stores].
  destruct (pm_map T σ f m virt p w x Him Hdom Hpo ltac:(set_solver))
    as [[-> Hl]|(T' & f' & m' & -> & Hi' & Hsub' & Htab & HTT & Hmem & Hl')]; cbn [mbind outcome_bind]; [left; split; [done|lia]|right].
  eexists. split; [done|]. split; [|cbn [mapped stores ld_frames]; split_and!; [done..|lia]].
  assert (∀ a, frame_of a ∈ frames_out f → (frame_of a ∉ T) → m' a = m a) as Hsame.
  { intros a Ha Hn. apply Hmem. intros Hin. by destruct (Htab _ Hin). }
  eexists T', _. split; cbn [ld_frames memory mapped stores map m_virt m_phys]; [exact Hi'|set_solver|..].
  - intros a [Ha|Ha]%Htab; [auto|]. right. set_solver.
  - intros v. unfold find_page. cbn [List.find m_virt]. rewrite (Z.eqb_sym virt v).
    destruct (decide (v = virt)) as [->|Hne]; [by rewrite Z.eqb_refl|]. rewrite (proj2 (Z.eqb_neq _ _) Hne). apply Hmap.
  - by apply list.NoDup_cons.
  - apply list.NoDup_cons. split; [|done]. intros (mp & Heq & Hin)%list_elem_of_fmap.
    destruct (Hpage mp Hin) as [Hmo _]. rewrite <- Heq in Hmo. done.
  - intros mp [->|Hin]%elem_of_cons; cbn [m_virt m_phys m_writable m_executable].
    + split_and!; [set_solver|intros Hin; by destruct (Htab _ Hin); set_solver|set_solver|done|]. intros j Hj.
      rewrite Hsame by (rewrite page_frame by done; set_solver). rewrite Hm, decide_True by lia. f_equal. lia.
    + destruct (Hpage mp Hin) as (Hmo & HmT & Hnf & Hpm & Hc). split_and!; [set_solver| |done|done|].
      { intros Hin'. destruct (Htab _ Hin'); set_solver. }
      intros j Hj. assert (frame_of (m_phys mp + j) = m_phys mp) as Hfr by (apply page_frame; [by apply (pm_aligned _ _ _ _ _ Hi)|done]).
      rewrite Hsame by (rewrite Hfr; set_solver). rewrite Hm, decide_False; [auto|].
      intros Hr. rewrite (frame_of_unique _ p Hal Hr) in Hfr. subst p. done.
  - intros a Ha Hn. rewrite Hsame; [|set_solver|intros HaT; by destruct (Htabs _ HaT)].
    rewrite Hm, decide_False; [auto|]. intros Hr. rewrite (frame_of_unique _ p Hal Hr) in Ha. set_solver.
Qed.

(** The result of placing the pages [vs], the first of them first: all of them,
    or no memory, in the loader or in the mapper, which then panics. Four frames
    for a page are always enough. *)
Definition places st (vs : list Z) (res : outcome (result unit ElfError * Loader F)) : Prop :=
  (res = Panic ∧ pm_left (ld_frames st) < 4 * len vs) ∨
  ∃ r st', res = Ret (r, st') ∧ placing st' ∧ stores st' = stores st ∧
    ((r = Err OutOfMemory ∧ pm_left (ld_frames st) < 4 * len vs) ∨
     (r = Ok tt ∧ map m_virt (mapped st') = reverse vs ++ map m_virt (mapped st) ∧
      pm_left (ld_frames st) ≤ pm_left (ld_frames st') + 4 * len vs)).

Lemma places_nil st : placing st → places st [] (Ret (Ok tt, st)).
Proof. intros Hpl. right. eexists _, _. split_and!; [done..|]. right. split_and!; [done..|]. unfold len. simpl. lia. Qed.

Lemma places_seq st vs ws res k :
  places st vs res →
  (∀ st1, placing st1 → map m_virt (mapped st1) = reverse vs ++ map m_virt (mapped st) → places st1 ws (k st1)) →
  places st (vs ++ ws) ('(r, st1) ← res; match r with Err e => Ret (Err e, st1) | Ok _ => k st1 end).
Proof.
  intros Hres Hk. assert (len (vs ++ ws) = len vs + len ws) as Hlen by (unfold len; rewrite length_app; lia).
  assert (0 ≤ len ws) by (unfold len; lia).
  destruct Hres as [[-> Hl]|(r & st1 & -> & Hpl1 & Hst1 & Hcase)]; cbn [mbind outcome_bind]; [left; split; [done|lia]|].
  destruct Hcase as [[-> Hl]|(-> & Hvs & Hl)].
  { right. eexists _, _. split_and!; [done..|]. left. split; [done|lia]. }
  destruct (Hk st1 Hpl1 Hvs) as [[-> Hl2]|(r2 & st2 & -> & Hpl2 & Hst2 & Hcase2)]; [left; split; [done|lia]|right].
  eexists _, _. split_and!; [done|done|congruence|]. destruct Hcase2 as [[-> Hl2]|(-> & Hvs2 & Hl2)]; [left; split; [done|lia]|right].
  split_and!; [done| |lia]. by rewrite Hvs2, Hvs, reverse_app, <- app_assoc.
Qed.

(** A page made of a fresh frame by [fill], and mapped. *)
Lemma place_page st virt w x fill :
  placing st → pm_dom virt → (virt ∉ map m_virt (mapped st)) → perm virt = (w, x) →
  (∀ m p a, fill m p a = if decide (p ≤ a < p + 4096) then content (virt + (a - p)) else m a) →
  places st [virt]
    ('(r, f) ← take_frame (ld_frames st);
     match r with
     | None => Ret (Err OutOfMemory, mkLoader f (memory st) (mapped st) (stores st))
     | Some p => st' ← map_at (mkLoader f (fill (memory st) p) (mapped st) (stores st)) virt p w x; Ret (Ok tt, st')
     end).
Proof.
  intros Hpl Hdom Hnew Hperm Hfill. pose proof Hpl as (T & σ & Hp). destruct (pm_valid _ _ _ _ (pl_inv _ _ _ Hp)) as (Hv & _).
  destruct (take_ok _ Hv) as (r & f & Ht & _). rewrite Ht. cbn [mbind outcome_bind]. destruct r as [p|].
  - destruct (map_at_placed st virt p f _ w x Hpl Hdom Hnew Ht (Hfill (memory st) p) Hperm)
      as [[-> Hl]|(st' & -> & Hpl' & Hms & Hst & Hl)]; cbn [mbind outcome_bind]; [by left|right].
    eexists _, st'. split_and!; [done..|]. right. split_and!; [done|by rewrite Hms|done].
  - right. destruct (take_data _ _ _ _ _ _ (pl_inv _ _ _ Hp) Ht) as (Hi' & Hsub & Hl). eexists _, _. split; [done|].
    split; [|split; [done|left; split; [done|change (len [virt]) with 1; lia]]].
    destruct Hp as [Hi Hout Htabs Hmap Hnv Hnp Hpage Hold]. exists T, σ. split; cbn [ld_frames memory mapped]; auto; [set_solver|].
    intros mp Hmp. destruct (Hpage mp Hmp) as (? & ? & ? & ? & ?). split_and!; auto.
Qed.

Lemma load_page_ok st bytes ph k (virt := page_at ph k) :
  placing st → seg_ok bytes ph → is_uint 64 (len bytes) → 0 ≤ k → pm_dom virt →
  (virt ∉ map m_virt (mapped st)) → (∀ j, 0 ≤ j < 4096 → content (virt + j) = seg_byte bytes ph (virt + j)) →
  perm virt = rights ph → places st [virt] (load_page st bytes ph virt).
Proof.
  intros Hpl Hok Hlen Hk Hdom Hnew Hc Hperm. destruct (page_data_ok bytes ph k Hok Hlen Hk) as (d & Hd & Hmem). fold virt in Hd, Hmem.
  pose proof (place_page st virt (rights ph).1 (rights ph).2 (λ m p, page_memory (zero_page m p) p d) Hpl Hdom Hnew Hperm) as Hpp.
  unfold load_page, fresh_page. destruct (take_frame (ld_frames st)) as [[r f]|]; cbn [mbind outcome_bind] in *; [destruct r as [p|]|].
  - rewrite Hd. cbn [mbind outcome_bind ld_frames memory mapped stores]. apply Hpp. intros m q a. rewrite Hmem.
    destruct (decide _); [|done]. symmetry. apply Hc. lia.
  - apply Hpp. intros m q a. rewrite Hmem. destruct (decide _); [|done]. symmetry. apply Hc. lia.
  - apply Hpp. intros m q a. rewrite Hmem. destruct (decide _); [|done]. symmetry. apply Hc. lia.
Qed.

Lemma load_pages_ok bytes ph n k st :
  seg_ok bytes ph → is_uint 64 (len bytes) → placing st → 0 ≤ k → k + Z.of_nat n ≤ page_count ph →
  (∀ i, k ≤ i < k + Z.of_nat n → pm_dom (page_at ph i) ∧ (page_at ph i ∉ map m_virt (mapped st)) ∧ perm (page_at ph i) = rights ph ∧
     ∀ j, 0 ≤ j < 4096 → content (page_at ph i + j) = seg_byte bytes ph (page_at ph i + j)) →
  places st (map (page_at ph) (seqZ k (Z.of_nat n))) (load_pages st bytes ph n k).
Proof.
  intros Hok Hlen. destruct (seg_pages bytes ph Hok) as (_ & e & _ & _ & He & Hc0 & Hs & Hmax).
  revert k st. induction n as [|n IH]; intros k st Hpl Hk Hn Hpages; cbn [load_pages]; [by apply places_nil|].
  rewrite mul64_ok by (unfold is_uint; lia). cbn [mbind outcome_bind]. unfold checked_add.
  destruct (Z.ltb_spec (start_page ph + k * 4096) (2 ^ 64)); [|lia]. change (start_page ph + k * 4096) with (page_at ph k).
  destruct (Hpages k) as (Hdom & Hnew & Hperm & Hcont); [lia|]. rewrite (seqZ_cons k (Z.of_nat (S n))) by lia. cbn [map].
  replace (Z.pred (Z.of_nat (S n))) with (Z.of_nat n) by lia. rewrite <- Z.add_1_r.
  apply (places_seq st [page_at ph k] _ _ (λ st, load_pages st bytes ph n (k + 1))); [by apply load_page_ok|].
  intros st1 Hpl1 Hvs. apply IH; [done|lia|lia|]. intros i Hi. destruct (Hpages i) as (? & Hnew' & ? & ?); [lia|].
  split_and!; [done| |done..]. rewrite Hvs. simpl. rewrite not_elem_of_cons. split; [unfold page_at; lia|done].
Qed.

(** ** All segments *)

Definition all_pages (phs : list ProgramHeader) : list Z := concat (map pages_of phs).

(** [content] and [perm] describe the segments. *)
Definition describes (bytes : list Z) (phs : list ProgramHeader) : Prop :=
  ∀ ph v, ph ∈ phs → v ∈ pages_of ph → perm v = rights ph ∧
    ∀ j, 0 ≤ j < 4096 → content (v + j) = seg_byte bytes ph (v + j).

Lemma load_segments_ok bytes h phs i st :
  is_uint 64 (len bytes) → headers_from bytes h i phs → loads_ok bytes phs → describes bytes phs → placing st →
  NoDup (all_pages phs) → (∀ v, v ∈ all_pages phs → pm_dom v ∧ v ∉ map m_virt (mapped st)) →
  places st (all_pages phs) (load_segments st bytes h (length phs) i).
Proof.
  intros Hlen. revert i st. induction phs as [|ph phs IH]; intros i st Hh Hok Hdesc Hpl Hnd Hnew; cbn [load_segments length];
    [by apply places_nil|].
  apply headers_cons in Hh as [-> Hh]. apply list.Forall_cons in Hok as [Hph Hok]. cbn [mbind outcome_bind].
  unfold all_pages in *. cbn [map concat] in *. apply list.NoDup_app in Hnd as (Hnd1 & Hdis & Hnd2).
  assert (describes bytes phs) as Hdesc' by (intros ph' v Hin; apply Hdesc; by apply elem_of_cons; right).
  assert (pages_of ph = [] → places st (pages_of ph ++ concat (map pages_of phs)) (load_segments st bytes h (length phs) (i + 1))) as Hskip.
  { intros ->. apply IH; try done. intros v Hv. apply Hnew. apply elem_of_app. by right. }
  unfold pages_of in Hskip at 1. destruct (Z.eqb_spec (p_type ph) PT_LOAD) as [Ht|Hn]; cbn [negb]; [|by apply Hskip].
  destruct (seg_pages bytes ph (Hph Ht)) as (_ & e & -> & _ & He & Hc0 & _).
  destruct (Z.leb_spec e (start_page ph)) as [Hle|Hgt].
  { apply Hskip. by replace (page_count ph) with 0 by lia. }
  assert ((e - start_page ph) `div` 4096 = page_count ph) as -> by (rewrite He, Z.add_simpl_l, Z.mul_comm, Z.div_mul; lia).
  apply (places_seq st _ _ _ (λ st, load_segments st bytes h (length phs) (i + 1))).
  - pose proof (load_pages_ok bytes ph (Z.to_nat (page_count ph)) 0 st (Hph Ht) Hlen Hpl) as Hl. rewrite Z2Nat.id in Hl by lia.
    rewrite (pages_of_load bytes) by auto. apply Hl; [lia|lia|]. intros k Hk.
    assert (page_at ph k ∈ pages_of ph) as Hin.
    { rewrite (pages_of_load bytes) by auto. apply list_elem_of_fmap. exists k. split; [done|]. apply elem_of_seqZ. lia. }
    destruct (Hnew (page_at ph k)) as [Hd Hn]; [apply elem_of_app; by left|]. split_and!; [done|done|..];
      apply Hdesc; try done; by apply elem_of_cons; left.
  - intros st1 Hpl1 Hvs. apply IH; try done. intros v Hv. destruct (Hnew v) as [Hd Hn]; [apply elem_of_app; by right|].
    split; [done|]. rewrite Hvs, elem_of_app, elem_of_reverse. intros [Hv'|Hv']; [by apply (Hdis v)|done].
Qed.

(** ** The whole load *)

Lemma load_stack_ok n i st :
  placing st → 0 ≤ i → i + Z.of_nat n ≤ STACK_PAGES →
  (∀ k, i ≤ k < i + Z.of_nat n → pm_dom (stack_page k) ∧ (stack_page k ∉ map m_virt (mapped st)) ∧
     perm (stack_page k) = (true, false) ∧ ∀ j, 0 ≤ j < 4096 → content (stack_page k + j) = 0) →
  places st (map stack_page (seqZ i (Z.of_nat n))) (load_stack st n i).
Proof.
  revert i st. induction n as [|n IH]; intros i st Hpl Hi Hn Hpages; cbn [load_stack]; [by apply places_nil|].
  destruct (Hpages i) as (Hdom & Hnew & Hperm & Hc); [lia|]. rewrite (seqZ_cons i (Z.of_nat (S n))) by lia. cbn [map].
  replace (Z.pred (Z.of_nat (S n))) with (Z.of_nat n) by lia. rewrite <- Z.add_1_r. fold (stack_page i).
  assert (∀ m p a, zero_page m p a = if decide (p ≤ a < p + 4096) then content (stack_page i + (a - p)) else m a) as Hz.
  { intros m p a. rewrite zero_page_at. destruct (decide _); [|done]. symmetry. apply Hc. lia. }
  pose proof (places_seq st [stack_page i] (map stack_page (seqZ (i + 1) (Z.of_nat n))) _ (λ st, load_stack st n (i + 1))
    (place_page st (stack_page i) true false zero_page Hpl Hdom Hnew Hperm Hz)) as Hseq.
  unfold fresh_page. destruct (take_frame (ld_frames st)) as [[[p|] f]|]; cbn [mbind outcome_bind] in *;
    [destruct (map_at _ (stack_page i) p true false) as [st1|]; cbn [mbind outcome_bind] in *|..]; apply Hseq;
    intros st2 Hpl2 Hvs; (apply IH; [done|lia|lia|]); intros k Hk; destruct (Hpages k) as (? & Hnew' & ? & ?); try lia;
    (split_and!; [done| |done..]); rewrite Hvs; simpl; rewrite not_elem_of_cons; (split; [unfold stack_page; lia|done]).
Qed.

(** What the mapper shows at a page that was placed. *)
Lemma placed_view T σ st v :
  placed T σ st → frame_of v ∈ map m_virt (mapped st) →
  ∃ p, σ (frame_of v) = Some (p, perm (frame_of v)) ∧ memory st (p + v mod 4096) = content v ∧ (p ∉ frames_out f0).
Proof.
  intros [_ _ _ Hmap Hnv _ Hpage _] Hin. rewrite Hmap. destruct (find_page _ _) as [mp|] eqn:Hf.
  - apply List.find_some in Hf as [Hmp Hv]. apply Z.eqb_eq in Hv. apply list_elem_of_In in Hmp.
    destruct (Hpage mp Hmp) as (_ & _ & Hfr & Hperm & Hc). exists (m_phys mp). rewrite Hperm, Hv. split; [done|].
    pose proof (Z.mod_pos_bound v 4096). rewrite Hc, Hv by lia. split; [|done]. f_equal. unfold frame_of. lia.
  - apply list_elem_of_fmap in Hin as (mp & Hv & Hmp). apply list_elem_of_In in Hmp.
    apply (List.find_none _ _ Hf) in Hmp. rewrite Hv, Z.eqb_refl in Hmp. done.
Qed.

End load.

(** The ranges of distinct pages do not overlap, so the check passes. *)
Definition range_of (ph : ProgramHeader) : Z * Z := (start_page ph, start_page ph + 0x1000 * page_count ph).

Lemma overlap_common bytes ph ph' :
  seg_ok bytes ph → seg_ok bytes ph' → p_type ph = PT_LOAD → p_type ph' = PT_LOAD → 0 < page_count ph → 0 < page_count ph' →
  ranges_overlap (start_page ph) (start_page ph + 0x1000 * page_count ph) (range_of ph') = true →
  ∃ v, v ∈ pages_of ph ∧ v ∈ pages_of ph'.
Proof.
  intros Hok Hok' Ht Ht' Hpc Hpc' Hov. unfold ranges_overlap, range_of in Hov. cbn [fst snd] in Hov.
  rewrite andb_true_iff, !Z.ltb_lt in Hov. destruct Hov as [H1' H2'].
  destruct (seg_pages bytes ph Hok) as (Hs & _). destruct (seg_pages bytes ph' Hok') as (Hs' & _).
  pose proof (frame_of_bounds (p_vaddr ph)) as [_ Hm]. pose proof (frame_of_bounds (p_vaddr ph')) as [_ Hm']. rewrite <- Hs in Hm. rewrite <- Hs' in Hm'.
  pose proof (Z.div_mod (start_page ph) 4096). pose proof (Z.div_mod (start_page ph') 4096).
  rewrite !(pages_of_load bytes) by done. exists (Z.max (start_page ph) (start_page ph')). rewrite !list_elem_of_fmap.
  split.
  - exists (Z.max 0 (start_page ph' `div` 4096 - start_page ph `div` 4096)). rewrite elem_of_seqZ. unfold page_at. lia.
  - exists (Z.max 0 (start_page ph `div` 4096 - start_page ph' `div` 4096)). rewrite elem_of_seqZ. unfold page_at. lia.
Qed.

Lemma check_segments_ok bytes h phs i prev :
  headers_from bytes h i phs → loads_ok bytes phs → NoDup (all_pages phs) →
  Forall (λ ph, seg_ok bytes ph ∧ p_type ph = PT_LOAD ∧ 0 < page_count ph ∧ ∀ v, v ∈ pages_of ph → v ∉ all_pages phs) prev →
  check_segments bytes h (length phs) i (map range_of prev) = Ret (Ok tt).
Proof.
  revert i prev. induction phs as [|ph phs IH]; intros i prev Hh Hok Hnd Hprev; cbn [check_segments length]; [done|].
  apply headers_cons in Hh as [-> Hh]. apply list.Forall_cons in Hok as [Hph Hok]. cbn [mbind outcome_bind].
  unfold all_pages in *. cbn [map concat] in *. apply list.NoDup_app in Hnd as (Hnd1 & Hdis & Hnd2).
  assert (Forall (λ ph, seg_ok bytes ph ∧ p_type ph = PT_LOAD ∧ 0 < page_count ph ∧ ∀ v, v ∈ pages_of ph → v ∉ concat (map pages_of phs)) prev) as Hprev'.
  { eapply (list.Forall_impl _ _ _ Hprev). intros q (? & ? & ? & Hq). split_and!; [done..|]. intros v Hv Hin.
    apply (Hq v Hv). apply elem_of_app. by right. }
  destruct (Z.eqb_spec (p_type ph) PT_LOAD) as [Ht|Hn]; cbn [negb]; [|by apply IH].
  destruct (seg_pages bytes ph (Hph Ht)) as (_ & e & -> & _ & He & Hc0 & _). rewrite He.
  destruct (Z.leb_spec (start_page ph + 4096 * page_count ph) (start_page ph)); [by apply IH|].
  destruct (existsb _ _) eqn:Hex.
  - apply existsb_exists in Hex as (r & Hr & Hov). apply list_elem_of_In, list_elem_of_fmap in Hr as (q & -> & Hq).
    rewrite list.Forall_forall in Hprev. destruct (Hprev q Hq) as (Hqok & Hqt & Hqc & Hqd).
    destruct (overlap_common bytes ph q) as (v & Hv & Hv'); [auto..|lia|done|done|]. exfalso. apply (Hqd v Hv'). apply elem_of_app. by left.
  - change [(start_page ph, start_page ph + 4096 * page_count ph)] with (map range_of [ph]). rewrite <- map_app.
    apply IH; [done..|]. apply Forall_app_2; [done|]. apply list.Forall_singleton. split_and!; [auto|done|lia|]. intros v Hv. by apply Hdis.
Qed.

Lemma find_dynamic_none bytes h phs i :
  headers_from bytes h i phs → Forall (λ ph, p_type ph ≠ PT_DYNAMIC) phs →
  find_dynamic bytes (phoff h) (length phs) i = Ret None.
Proof.
  revert i. induction phs as [|ph phs IH]; intros i Hh Hnd; cbn [find_dynamic length]; [done|].
  apply headers_cons in Hh as [-> Hh]. apply list.Forall_cons in Hnd as [Hph Hnd]. cbn [mbind outcome_bind].
  rewrite (proj2 (Z.eqb_neq _ _) Hph). auto.
Qed.

End place.

(** The segment whose pages contain [v]. *)
Definition owner_of (phs : list ProgramHeader) (v : Z) : option ProgramHeader :=
  List.find (λ ph, bool_decide (frame_of v ∈ pages_of ph)) phs.
Definition image (bytes : list Z) (phs : list ProgramHeader) (v : Z) : Z :=
  match owner_of phs v with Some ph => seg_byte bytes ph v | None => 0 end.
Definition image_rights (phs : list ProgramHeader) (v : Z) : bool * bool :=
  match owner_of phs v with Some ph => rights ph | None => (true, false) end.

Lemma all_pages_elem v phs : v ∈ all_pages phs ↔ ∃ ph, ph ∈ phs ∧ v ∈ pages_of ph.
Proof.
  unfold all_pages. rewrite list_elem_of_In, in_concat. setoid_rewrite in_map_iff. split.
  - intros (x & (ph & <- & Hph) & Hv). exists ph. by rewrite !list_elem_of_In.
  - intros (ph & Hph & Hv). exists (pages_of ph). rewrite <- !list_elem_of_In. split; [|done]. exists ph. by rewrite <- list_elem_of_In.
Qed.

Lemma owner_unique phs ph v : NoDup (all_pages phs) → ph ∈ phs → frame_of v ∈ pages_of ph → owner_of phs v = Some ph.
Proof.
  unfold owner_of, all_pages. induction phs as [|q phs IH]; intros Hnd Hin Hv; [by apply not_elem_of_nil in Hin|].
  cbn [List.find map concat] in *. apply list.NoDup_app in Hnd as (_ & Hdis & Hnd).
  apply elem_of_cons in Hin as [->|Hin]; [by rewrite bool_decide_true|]. rewrite bool_decide_false; [auto|].
  intros Hq. apply (Hdis _ Hq). apply all_pages_elem. eauto.
Qed.

Lemma owner_none phs v : (frame_of v ∉ all_pages phs) → owner_of phs v = None.
Proof.
  intros Hn. unfold owner_of. destruct (List.find _ _) as [ph|] eqn:Hf; [|done].
  apply List.find_some in Hf as [Hin Hv]. apply bool_decide_eq_true in Hv. exfalso. apply Hn.
  apply all_pages_elem. exists ph. split; [by apply list_elem_of_In|done].
Qed.

Lemma page_aligned bytes ph v : seg_ok bytes ph → v ∈ pages_of ph → v mod 4096 = 0.
Proof.
  intros Hok. unfold pages_of. destruct (_ =? _); [|by intros ?%not_elem_of_nil]. intros (k & -> & _)%list_elem_of_fmap.
  unfold page_at. destruct (seg_pages bytes ph Hok) as [-> _]. pose proof (frame_of_bounds (p_vaddr ph)) as [_ Hm].
  rewrite Z.add_mod, Hm by lia. by rewrite Z.mod_mul.
Qed.

Lemma owner_at bytes phs ph v :
  loads_ok bytes phs → NoDup (all_pages phs) → ph ∈ phs → v ∈ pages_of ph →
  ∀ j, 0 ≤ j < 4096 → owner_of phs (v + j) = Some ph.
Proof.
  intros Hok Hnd Hin Hv j Hj. apply owner_unique; [done..|]. rewrite page_frame; [done| |done].
  apply (page_aligned bytes ph); [|done]. apply list.Forall_forall with (x := ph) in Hok; [|done]. apply Hok.
  unfold pages_of in Hv. destruct (Z.eqb_spec (p_type ph) PT_LOAD); [done|by apply not_elem_of_nil in Hv].
Qed.

Lemma image_describes bytes phs :
  loads_ok bytes phs → NoDup (all_pages phs) → describes (image bytes phs) (image_rights phs) bytes phs.
Proof.
  intros Hok Hnd ph v Hin Hv. pose proof (owner_at bytes phs ph v Hok Hnd Hin Hv) as Hown. split.
  - unfold image_rights. rewrite <- (Z.add_0_r v), Hown by lia. done.
  - intros j Hj. unfold image. by rewrite Hown.
Qed.

Lemma image_stack bytes phs k :
  0 ≤ k < STACK_PAGES → (stack_page k ∉ all_pages phs) →
  image_rights phs (stack_page k) = (true, false) ∧ ∀ j, 0 ≤ j < 4096 → image bytes phs (stack_page k + j) = 0.
Proof.
  intros Hk Hn. assert (stack_page k mod 4096 = 0) as Hm.
  { unfold stack_page. rewrite Z.add_mod, Z.mod_mul by lia. done. }
  assert (∀ j, 0 ≤ j < 4096 → owner_of phs (stack_page k + j) = None) as Hown.
  { intros j Hj. apply owner_none. by rewrite page_frame. }
  split; [unfold image_rights; by rewrite <- (Z.add_0_r (stack_page k)), Hown by lia|].
  intros j Hj. unfold image. by rewrite Hown.
Qed.

Lemma parse_dynamic_none `{BuildProfile} bytes h phs :
  length phs = Z.to_nat (phnum h) → headers_from bytes h 0 phs → Forall (λ ph, p_type ph ≠ PT_DYNAMIC) phs →
  parse_dynamic_segment bytes (phoff h) (phnum h) = Ret None.
Proof.
  intros Hl Hh Hnd. unfold parse_dynamic_segment. by rewrite <- Hl, (find_dynamic_none bytes h phs 0).
Qed.

Lemma stack_page_of v :
  STACK_VIRT_BASE ≤ v < 0x800000000000 → ∃ k, 0 ≤ k < STACK_PAGES ∧ frame_of v = stack_page k.
Proof.
  intros Hr. exists ((v - STACK_VIRT_BASE) `div` 4096). pose proof (Z.div_mod (v - STACK_VIRT_BASE) 4096).
  pose proof (Z.mod_pos_bound (v - STACK_VIRT_BASE) 4096). unfold STACK_VIRT_BASE in *. unfold STACK_PAGES. split; [lia|].
  unfold stack_page, STACK_VIRT_BASE. apply frame_of_unique; [rewrite Z.add_mod, Z.mod_mul by lia; done|lia].
Qed.

(** A statically linked program the loader accepts: its headers parse, the data
    of every segment is in the file, and no page is in two segments or in a
    segment and the stack. *)
Record static_program `{BuildProfile} (bytes : list Z) (h : Elf64Header) (phs : list ProgramHeader) : Prop := mkStatic {
  sp_len : is_uint 64 (len bytes);
  sp_header : parse_header bytes = Ret (Ok h);
  sp_count : length phs = Z.to_nat (phnum h);
  sp_phs : headers_from bytes h 0 phs;
  sp_loads : loads_ok bytes phs;
  sp_static : Forall (λ ph, p_type ph ≠ PT_DYNAMIC) phs;
  sp_pages : NoDup (all_pages phs ++ stack_pages);
}.

Lemma program_page_aligned `{BuildProfile} bytes h phs v :
  static_program bytes h phs → v ∈ all_pages phs ++ stack_pages → v mod 4096 = 0.
Proof.
  intros [_ _ _ _ Hl _ _] [(ph & Hph & Hv)%all_pages_elem|(k & -> & _)%list_elem_of_fmap]%elem_of_app.
  - apply (page_aligned bytes ph); [|done]. eapply list.Forall_forall in Hl; [|done]. apply Hl.
    unfold pages_of in Hv. destruct (Z.eqb_spec (p_type ph) PT_LOAD); [done|by apply not_elem_of_nil in Hv].
  - unfold stack_page. rewrite Z.add_mod, Z.mod_mul by lia. done.
Qed.

Section image.
Context {F : Type} `{PageMapperLaws F} `{BuildProfile}.

(** The load of a program, page by page. *)
Lemma load_elf_placed f T σ m bytes h phs :
  static_program bytes h phs → Forall pm_dom (all_pages phs ++ stack_pages) → pm_inv T σ f m →
  (load_elf (mkLoader f m [] []) bytes = Panic ∧ pm_left f < 4 * len (all_pages phs ++ stack_pages)) ∨
  ∃ r st, load_elf (mkLoader f m [] []) bytes = Ret (r, st) ∧
    placing f T σ m (image bytes phs) (image_rights phs) st ∧ stores st = [] ∧
    ((r = Err OutOfMemory ∧ pm_left f < 4 * len (all_pages phs ++ stack_pages)) ∨
     (r = Ok (mkLoadResult (entry h) 0x800000000000 None (e_type h) 0x7FFFFFFFF000) ∧
      ∀ v, v ∈ map m_virt (mapped st) ↔ v ∈ all_pages phs ++ stack_pages)).
Proof.
  intros [Hlen Hhd Hcnt Hphs Hloads Hdyn Hpages] Hdom Hi. apply list.NoDup_app in Hpages as (Hnd & Hdis & _).
  rewrite list.Forall_forall in Hdom. unfold load_elf. rewrite Hhd. cbn [mbind outcome_bind]. rewrite <- Hcnt.
  rewrite (check_segments_ok bytes h phs 0 []) by (try constructor; done). cbn [mbind outcome_bind].
  assert (placing f T σ m (image bytes phs) (image_rights phs) (mkLoader f m [] [])) as Hpl.
  { exists T, σ. split; simpl; try done; [by left|constructor..|]. by intros ? ?%not_elem_of_nil. }
  assert (places f T σ m (image bytes phs) (image_rights phs) (mkLoader f m [] []) (all_pages phs ++ stack_pages)
    ('(r, st1) ← load_segments (mkLoader f m [] []) bytes h (length phs) 0;
     match r with Err e => Ret (Err e, st1) | Ok _ => load_stack st1 (Z.to_nat STACK_PAGES) 0 end)) as Hres.
  { apply (places_seq f T σ m _ _ (mkLoader f m [] []) _ _ _ (λ st, load_stack st (Z.to_nat STACK_PAGES) 0)).
    - apply load_segments_ok; [done..|by apply image_describes|done|done|]. intros v Hv. split; [|by intros ?%not_elem_of_nil].
      apply Hdom, elem_of_app. by left.
    - intros st1 Hpl1 Hv1. apply load_stack_ok; [done..|]. intros k Hk.
      change (0 + Z.of_nat (Z.to_nat STACK_PAGES)) with STACK_PAGES in Hk. simpl in Hv1. rewrite app_nil_r in Hv1.
      assert (stack_page k ∈ stack_pages) as Hin by (apply list_elem_of_fmap; exists k; split; [done|]; by apply elem_of_seqZ).
      split; [apply Hdom, elem_of_app; by right|]. rewrite Hv1, elem_of_reverse. split; [by intros ?%Hdis|].
      apply image_stack; [done|]. by intros ?%Hdis. }
  destruct (load_segments _ bytes h (length phs) 0) as [[[u|e] st1]|]; cbn [mbind outcome_bind] in *;
    [destruct (load_stack st1 (Z.to_nat STACK_PAGES) 0) as [[[u2|e] st2]|]; cbn [mbind outcome_bind] in *;
      [rewrite (parse_dynamic_none bytes h phs) by done; cbn [mbind outcome_bind apply_relocations]|..]|..];
    (destruct Hres as [Hres|(r & st & E & Hpl2 & Hst & Hcase)]; [first [by destruct Hres|left; split; [done|apply Hres]]|right; try discriminate E; injection E as <- <-]).
  - eexists _, st2. split; [reflexivity|]. split_and!; [done..|]. right. split; [done|].
    destruct Hcase as [[? _]|(_ & Hvs & _)]; [done|]. intros v. by rewrite Hvs, app_nil_r, elem_of_reverse.
  - eexists _, st2. split; [done|]. split_and!; [done..|]. left. destruct Hcase as [[[= ->] ?]|[? _]]; done.
  - eexists _, st1. split; [done|]. split_and!; [done..|]. left. destruct Hcase as [[[= ->] ?]|[? _]]; done.
Qed.

(** What a load leaves, for any mapper: unless fewer than four frames for each
    of its pages are left, every byte of every loadable segment is mapped with
    the rights of the segment, and so is the stack, all in fresh frames. Whether
    it succeeds or runs out of memory, no byte of a data frame in use before
    changes. *)
Lemma load_image f T σ m bytes h phs :
  static_program bytes h phs → Forall pm_dom (all_pages phs ++ stack_pages) → pm_inv T σ f m →
  (load_elf (mkLoader f m [] []) bytes = Panic ∧ pm_left f < 4 * len (all_pages phs ++ stack_pages)) ∨
  ∃ r st T' σ', load_elf (mkLoader f m [] []) bytes = Ret (r, st) ∧ pm_inv T' σ' (ld_frames st) (memory st) ∧
    (∀ a, frame_of a ∈ frames_out f → (frame_of a ∉ T) → memory st a = m a) ∧
    ((r = Err OutOfMemory ∧ pm_left f < 4 * len (all_pages phs ++ stack_pages)) ∨
     (r = Ok (mkLoadResult (entry h) 0x800000000000 None (e_type h) 0x7FFFFFFFF000) ∧
      (∀ ph v, ph ∈ phs → p_type ph = PT_LOAD → p_vaddr ph ≤ v < p_vaddr ph + p_memsz ph →
         ∃ p, σ' (frame_of v) = Some (p, rights ph) ∧ memory st (p + v mod 4096) = seg_byte bytes ph v ∧ (p ∉ frames_out f)) ∧
      (∀ v, STACK_VIRT_BASE ≤ v < 0x800000000000 →
         ∃ p, σ' (frame_of v) = Some (p, (true, false)) ∧ memory st (p + v mod 4096) = 0 ∧ (p ∉ frames_out f)) ∧
      NoDup (map m_phys (mapped st)))).
Proof.
  intros Hsp Hdom Hi. destruct (load_elf_placed f T σ m bytes h phs Hsp Hdom Hi) as [?|(r & st & -> & (T' & σ' & Hpl) & _ & Hcase)]; [by left|right].
  destruct Hsp as [_ _ _ _ Hloads _ Hpages]. apply list.NoDup_app in Hpages as (Hnd & Hdis & _).
  eexists _, st, T', σ'. split; [done|]. split; [apply (pl_inv _ _ _ _ _ _ _ _ _ Hpl)|]. split; [apply (pl_old _ _ _ _ _ _ _ _ _ Hpl)|].
  destruct Hcase as [?|[-> Hvs]]; [by left|right]. split; [done|]. split_and!; [| |apply (pl_phys _ _ _ _ _ _ _ _ _ Hpl)].
  - intros ph v Hin Ht Hr. assert (seg_ok bytes ph) as Hok by (eapply list.Forall_forall in Hloads; eauto).
    pose proof (page_of_segment bytes ph v Hok Ht Hr) as Hp.
    destruct (placed_view _ _ _ _ _ _ _ _ _ v Hpl) as (p & Hσ & Hm & Hf); [rewrite Hvs, elem_of_app, all_pages_elem; eauto|].
    destruct (image_describes bytes phs Hloads Hnd ph _ Hin Hp) as [Hrt Hc]. pose proof (frame_of_bounds v) as [? _].
    specialize (Hc (v - frame_of v)). rewrite Zplus_minus in Hc. exists p. rewrite Hσ, Hrt, Hm. by rewrite Hc by lia.
  - intros v Hr. destruct (stack_page_of v Hr) as (k & Hk & Hf).
    assert (stack_page k ∈ stack_pages) as Hs by (apply list_elem_of_fmap; exists k; split; [done|]; by apply elem_of_seqZ).
    destruct (image_stack bytes phs k Hk) as [Hp Hc]; [by intros ?%Hdis|].
    destruct (placed_view _ _ _ _ _ _ _ _ _ v Hpl) as (p & Hσ & Hm & Hfr); [rewrite Hf, Hvs, elem_of_app; auto|].
    exists p. rewrite Hσ, Hf, Hp, Hm. specialize (Hc (v - stack_page k)). rewrite Zplus_minus in Hc.
    rewrite Hc by (rewrite <- Hf; pose proof (frame_of_bounds v); lia). done.
Qed.

(** the first page of a segment whose address is not page-aligned and
    whose file data is a page or more is copied whole from the offset inside
    the page, so that its tail lands in the next physical frame, whoever owns
    it: the [p_vaddr mod 4096] first bytes of that frame become file bytes. *)
Theorem elf_page_overrun st T σ bytes ph p f :
  pm_inv T σ (ld_frames st) (memory st) → pm_dom (start_page ph) → take_frame (ld_frames st) = Ret (Some p, f) → 3 ≤ pm_left f →
  p + 4096 ∈ frames_out (ld_frames st) → (p + 4096 ∉ T) → is_uint 64 (p_vaddr ph) → is_uint 64 (len bytes) →
  0 ≤ p_offset ph → 4096 ≤ p_filesz ph → p_offset ph + p_filesz ph ≤ len bytes →
  ∃ st', load_page st bytes ph (start_page ph) = Ret (Ok tt, st') ∧
    ∀ j, 0 ≤ j < p_vaddr ph mod 4096 →
      memory st' (p + 4096 + j) = default 0 (bytes !! Z.to_nat (p_offset ph + (4096 - p_vaddr ph mod 4096) + j)).
Proof.
  intros Hi Hdom Ht Hl3 Hin Hntab Hva Hlen Ho Hfz Hfile. destruct (take_data _ _ _ _ _ _ Hi Ht) as (Hi' & Hout & Hfresh & Hpo & Hpm & _).
  pose proof (Z.mod_pos_bound (p_vaddr ph) 4096) as Hob. destruct (pm_valid _ _ _ _ Hi) as (_ & HT & _).
  assert (start_page ph = frame_of (p_vaddr ph)) as Hs by (apply align_down; done). pose proof (frame_of_bounds (p_vaddr ph)) as [Hfb _].
  unfold load_page, fresh_page. rewrite Ht. cbn [mbind outcome_bind]. unfold page_data, saturating_sub.
  replace (Z.max (start_page ph - p_vaddr ph) 0) with 0 by lia. rewrite Z.eqb_refl, land_low.
  destruct (Z.leb_spec (p_filesz ph) 0); [lia|].
  replace (Z.min (saturating_add 64 0 0x1000) (p_filesz ph)) with 4096 by (unfold saturating_add; lia).
  change (sub64 4096 0) with (Ret 4096). cbn [mbind outcome_bind]. unfold checked_add, is_uint in *. rewrite Z.add_0_r.
  rewrite (proj2 (Z.ltb_lt (p_offset ph) _)), (proj2 (Z.ltb_lt (p_offset ph + 4096) _)) by lia.
  destruct (Z.ltb_spec (len bytes) (p_offset ph + 4096)); [lia|].
  destruct (slice bytes (p_offset ph) (p_offset ph + 4096)) as [src|] eqn:Hsl; [|rewrite slice_ok in Hsl by lia; done].
  pose proof (slice_length _ _ _ _ Hsl) as Hsrc. cbn [mbind outcome_bind]. unfold map_at. cbn [ld_frames memory mapped stores page_memory].
  set (m2 := copy_bytes (zero_page (memory st) p) (p + p_vaddr ph mod 4096) src).
  assert (frame_of (p + 4096) = p + 4096) as Hnext by (apply frame_of_unique; [rewrite Z.add_mod, Hpm by lia; done|lia]).
  assert (pm_inv T σ f m2) as Him.
  { apply (pm_ext _ _ _ _ m2 Hi'). intros a Ha. unfold m2. rewrite copy_bytes_at, zero_page_at.
    assert (¬ p ≤ a < p + 8192) as Hn; [|rewrite !decide_False by lia; done].
    intros Hr. destruct (decide (a < p + 4096)); [rewrite (frame_of_unique a p) in Ha by lia; set_solver|].
    rewrite (frame_of_unique a (p + 4096)) in Ha by (lia || rewrite Z.add_mod, Hpm by lia; done). done. }
  destruct (pm_map T σ f m2 (start_page ph) p (rights ph).1 (rights ph).2 Him Hdom Hpo ltac:(set_solver))
    as [[_ ?]|(T' & f' & m' & Hm & _ & _ & Htab & _ & Hmem & _)]; [lia|]. unfold rights in Hm. cbn [fst snd] in Hm. rewrite Hm.
  cbn [mbind outcome_bind]. eexists. split; [done|]. intros j Hj. cbn [memory]. rewrite Hmem.
  - unfold m2. rewrite copy_bytes_at. rewrite decide_True by lia. rewrite (slice_bytes _ _ _ _ _ Hsl) by lia. do 3 f_equal. lia.
  - rewrite (page_frame (p + 4096) j); [|rewrite Z.add_mod, Hpm by lia; done|lia].
    intros Htf. apply Htab in Htf as [Htf|Htf]; [done|set_solver].
Qed.

End image.
