(* ===== verification/Paging.v ===== *)
(** * Page tables (kernel/src/memory/pagetable.rs, kernel/src/memory/mod.rs,
    kernel/src/task/user.rs)

    Four-level page tables in physical memory: mapping, unmapping, translation
    and protection of pages, the tables of a new process, and their release.
    The operations act on the frames and the memory; the register CR3 is an
    argument. The format of an entry is that of the x86_64 crate, which is not
    part of the sources: it is the class [EntryFormat]. Invalidation of the
    translation caches is not modelled. *)

From S2P Require Import Prelude Bytes Loop PhysMem FrameAlloc Shm Elf.

(** [PageTableEntry] of the x86_64 crate: [addr], [flags], [frame] (an error is
    [None]), [set_addr] (of a [PhysAddr::new], both of which can panic) and
    [set_flags]. *)
Class EntryFormat : Type := {
  entry_addr : Z → Z;
  entry_flags : Z → Z;
  entry_frame : Z → option Z;
  make_entry : Z → Z → outcome Z;
  with_flags : Z → Z → Z;
}.

Definition PRESENT : Z := 1.
Definition WRITABLE : Z := 2.
Definition USER_ACCESSIBLE : Z := 4.
Definition HUGE_PAGE : Z := 0x80.
Definition NO_EXECUTE : Z := 2 ^ 63.
Definition contains (flags bit : Z) : bool := Z.land flags bit =? bit.
Definition TABLE_FLAGS : Z := Z.lor (Z.lor PRESENT WRITABLE) USER_ACCESSIBLE.

Definition PT_ENTRIES : Z := 512.
Definition PAGE_SIZE : Z := 0x1000.
Definition PT_USER_MAX : Z := 0x0000800000000000.

Inductive PageTableError : Type := PtOutOfMemory | NotMapped | AlreadyMapped | InvalidAddress.

(** The index of an address in the table of each level. *)
Definition p4_idx (virt : Z) : Z := Z.land (Z.shiftr virt 39) 0x1FF.
Definition p3_idx (virt : Z) : Z := Z.land (Z.shiftr virt 30) 0x1FF.
Definition p2_idx (virt : Z) : Z := Z.land (Z.shiftr virt 21) 0x1FF.
Definition p1_idx (virt : Z) : Z := Z.land (Z.shiftr virt 12) 0x1FF.

Section paging.
Context {F : Type} `{FrameSource F} `{EntryFormat} `{BuildProfile}.
Implicit Types s : F * memory_map.
Implicit Types m : memory_map.

Definition entry_at m (table i : Z) : Z := read64 m (table + 8 * i).
Definition put_entry m (table i e : Z) : memory_map := write64 m (table + 8 * i) e.
Definition is_present (e : Z) : bool := contains (entry_flags e) PRESENT.
Definition is_huge (e : Z) : bool := contains (entry_flags e) HUGE_PAGE.

(** [entry.frame().unwrap()]. *)
Definition frame_unwrap (e : Z) : outcome Z := match entry_frame e with Some a => Ret a | None => Panic end.

(** A zeroed table in a fresh frame, entered at index [i] of [table]; [None]
    when no frame is left. *)
Definition new_table s (table i : Z) : outcome (option Z * (F * memory_map)) :=
  '(r, f) ← take_frame s.1;
  match r with
  | None => Ret (None, (f, s.2))
  | Some frame =>
      empty ← make_entry 0 0;
      e ← make_entry frame TABLE_FLAGS;
      Ret (Some frame, (f, put_entry (write_words s.2 frame (replicate 512 empty)) table i e))
  end.

Definition walk_or_create s (table i : Z) : outcome (option Z * (F * memory_map)) :=
  if is_present (entry_at s.2 table i) then a ← frame_unwrap (entry_at s.2 table i); Ret (Some a, s)
  else new_table s table i.

(** ** [PageTable] *)

Definition map_page_at (p4 : Z) s (virt phys flags : Z) : outcome (result unit PageTableError * (F * memory_map)) :=
  if negb (virt mod PAGE_SIZE =? 0) || negb (phys mod PAGE_SIZE =? 0) then Ret (Err InvalidAddress, s)
  else
    '(l3, s) ← walk_or_create s p4 (p4_idx virt);
    match l3 with
    | None => Ret (Err PtOutOfMemory, s)
    | Some l3 =>
        '(l2, s) ← walk_or_create s l3 (p3_idx virt);
        match l2 with
        | None => Ret (Err PtOutOfMemory, s)
        | Some l2 =>
            let e := entry_at s.2 l2 (p2_idx virt) in
            if is_present e && is_huge e then Ret (Err InvalidAddress, s)
            else
              '(l1, s) ← walk_or_create s l2 (p2_idx virt);
              match l1 with
              | None => Ret (Err PtOutOfMemory, s)
              | Some l1 =>
                  if is_present (entry_at s.2 l1 (p1_idx virt)) then Ret (Err AlreadyMapped, s)
                  else
                    e ← make_entry phys flags;
                    Ret (Ok tt, (s.1, put_entry s.2 l1 (p1_idx virt) e))
              end
        end
    end.

Definition table_is_empty m (table : Z) : bool :=
  forallb (λ i, negb (is_present (entry_at m table i))) (seqZ 0 512).

Definition free_table_and_clear_entry s (parent entry_idx table_frame : Z) : outcome (F * memory_map) :=
  empty ← make_entry 0 0;
  f ← give_frame s.1 table_frame;
  Ret (f, put_entry s.2 parent entry_idx empty).

(** The release of the tables a removed page leaves empty. *)
Definition free_empty_tables s (p4 l3 l2 l1 virt : Z) : outcome (F * memory_map) :=
  if negb (table_is_empty s.2 l1) then Ret s
  else
    s ← free_table_and_clear_entry s l2 (p2_idx virt) l1;
    if negb (table_is_empty s.2 l2) then Ret s
    else
      s ← free_table_and_clear_entry s l3 (p3_idx virt) l2;
      if negb (table_is_empty s.2 l3) then Ret s
      else
        l4_frame ← frame_unwrap (entry_at s.2 p4 (p4_idx virt));
        free_table_and_clear_entry s p4 (p4_idx virt) l4_frame.

Definition unmap_page (p4 : Z) s (virt : Z) : outcome (result Z PageTableError * (F * memory_map)) :=
  if negb (virt mod PAGE_SIZE =? 0) then Ret (Err InvalidAddress, s)
  else if negb (is_present (entry_at s.2 p4 (p4_idx virt))) then Ret (Err NotMapped, s)
  else
    l3 ← frame_unwrap (entry_at s.2 p4 (p4_idx virt));
    let e3 := entry_at s.2 l3 (p3_idx virt) in
    if negb (is_present e3) then Ret (Err NotMapped, s)
    else if is_huge e3 then Ret (Err InvalidAddress, s)
    else
      l2 ← frame_unwrap e3;
      let e2 := entry_at s.2 l2 (p2_idx virt) in
      if negb (is_present e2) then Ret (Err NotMapped, s)
      else if is_huge e2 then Ret (Err InvalidAddress, s)
      else
        l1 ← frame_unwrap e2;
        let e1 := entry_at s.2 l1 (p1_idx virt) in
        if negb (is_present e1) then Ret (Err NotMapped, s)
        else
          empty ← make_entry 0 0;
          s ← free_empty_tables (s.1, put_entry s.2 l1 (p1_idx virt) empty) p4 l3 l2 l1 virt;
          Ret (Ok (entry_addr e1), s).

Definition translate (p4 : Z) m (virt : Z) : outcome (option Z) :=
  if negb (is_present (entry_at m p4 (p4_idx virt))) then Ret None
  else
    l3 ← frame_unwrap (entry_at m p4 (p4_idx virt));
    let e3 := entry_at m l3 (p3_idx virt) in
    if negb (is_present e3) then Ret None
    else if is_huge e3 then a ← add64 (entry_addr e3) (Z.land virt 0x3FFFFFFF); Ret (Some a)
    else
      l2 ← frame_unwrap e3;
      let e2 := entry_at m l2 (p2_idx virt) in
      if negb (is_present e2) then Ret None
      else if is_huge e2 then a ← add64 (entry_addr e2) (Z.land virt 0x1FFFFF); Ret (Some a)
      else
        l1 ← frame_unwrap e2;
        let e1 := entry_at m l1 (p1_idx virt) in
        if negb (is_present e1) then Ret None
        else a ← add64 (entry_addr e1) (Z.land virt 0xFFF); Ret (Some a).

(** The scan of [find_free_range]; [fuel] is the number of pages left. *)
Fixpoint free_range_loop (fuel : nat) (p4 : Z) m (count addr run_start run_len : Z) : outcome (option Z) :=
  match fuel with
  | O => Ret None
  | S fuel =>
      if PT_USER_MAX <=? addr then Ret None
      else
        r ← translate p4 m addr;
        match r with
        | Some _ => free_range_loop fuel p4 m count (addr + PAGE_SIZE) (addr + PAGE_SIZE) 0
        | None =>
            let run_start := if run_len =? 0 then addr else run_start in
            if count <=? run_len + 1 then Ret (Some run_start)
            else free_range_loop fuel p4 m count (addr + PAGE_SIZE) run_start (run_len + 1)
        end
  end.

Definition find_free_range (p4 : Z) m (hint count : Z) : outcome (option Z) :=
  a ← add64 hint PAGE_SIZE;
  a ← sub64 a 1;
  let addr := Z.land a (unot 64 (PAGE_SIZE - 1)) in
  free_range_loop (Z.to_nat ((PT_USER_MAX - addr) `div` PAGE_SIZE + 1)) p4 m count addr addr 0.

Definition protect_page (p4 : Z) m (virt flags : Z) : outcome (result unit PageTableError * memory_map) :=
  if negb (virt mod PAGE_SIZE =? 0) then Ret (Err InvalidAddress, m)
  else if negb (is_present (entry_at m p4 (p4_idx virt))) then Ret (Err NotMapped, m)
  else
    l3 ← frame_unwrap (entry_at m p4 (p4_idx virt));
    if negb (is_present (entry_at m l3 (p3_idx virt))) then Ret (Err NotMapped, m)
    else
      l2 ← frame_unwrap (entry_at m l3 (p3_idx virt));
      if negb (is_present (entry_at m l2 (p2_idx virt))) then Ret (Err NotMapped, m)
      else
        l1 ← frame_unwrap (entry_at m l2 (p2_idx virt));
        let e1 := entry_at m l1 (p1_idx virt) in
        if negb (is_present e1) then Ret (Err NotMapped, m)
        else Ret (Ok tt, put_entry m l1 (p1_idx virt) (with_flags e1 flags)).

(** ** The tables of a process *)

(** [set_flags(old | USER_ACCESSIBLE)] on a present entry without it. *)
Definition ensure_user m (table i : Z) : memory_map :=
  let e := entry_at m table i in
  if is_present e && negb (contains (entry_flags e) USER_ACCESSIBLE)
  then put_entry m table i (with_flags e (Z.lor (entry_flags e) USER_ACCESSIBLE)) else m.

(** [mapM] in the order of the list. *)
Fixpoint collect {A B} (f : A → outcome B) (l : list A) : outcome (list B) :=
  match l with [] => Ret [] | x :: l => y ← f x; ys ← collect f l; Ret (y :: ys) end.

Definition without_huge (flags : Z) : Z := Z.ldiff flags HUGE_PAGE.

(** A table of the 512 pages of the huge page at index [i] of [l2]. *)
Definition split_huge_page s (l2 i : Z) : outcome (Z * (F * memory_map)) :=
  let e := entry_at s.2 l2 i in
  '(r, f) ← take_frame s.1;
  match r with
  | None => Panic
  | Some p1 =>
      entries ← collect (λ k, make_entry (entry_addr e + k * 0x1000) (without_huge (entry_flags e))) (seqZ 0 512);
      new ← make_entry p1 (Z.lor (without_huge (entry_flags e)) WRITABLE);
      Ret (p1, (f, put_entry (write_words s.2 p1 entries) l2 i new))
  end.

(** A table, created where there is none; [expect] on the frame. *)
Definition walk_or_panic s (table i : Z) : outcome (Z * (F * memory_map)) :=
  '(r, s) ← walk_or_create s table i;
  match r with Some t => Ret (t, s) | None => Panic end.

Definition user_map_page (cr3 : Z) s (virt phys flags : Z) : outcome (F * memory_map) :=
  let s := (s.1, ensure_user s.2 cr3 (p4_idx virt)) in
  let old := is_present (entry_at s.2 cr3 (p4_idx virt)) in
  '(l3, s) ← walk_or_panic s cr3 (p4_idx virt);
  let s := if old then (s.1, ensure_user s.2 l3 (p3_idx virt)) else s in
  '(l2, s) ← walk_or_panic s l3 (p3_idx virt);
  let s := (s.1, ensure_user s.2 l2 (p2_idx virt)) in
  let e := entry_at s.2 l2 (p2_idx virt) in
  '(l1, s) ← (if is_present e && is_huge e then split_huge_page s l2 (p2_idx virt) else walk_or_panic s l2 (p2_idx virt));
  e ← make_entry phys flags;
  Ret (s.1, put_entry s.2 l1 (p1_idx virt) e).

Definition protect_page_user (cr3 : Z) m (virt flags : Z) : memory_map :=
  if negb (is_present (entry_at m cr3 (p4_idx virt))) then m
  else
    let e3 := entry_at m (entry_addr (entry_at m cr3 (p4_idx virt))) (p3_idx virt) in
    if negb (is_present e3) || is_huge e3 then m
    else
      let e2 := entry_at m (entry_addr e3) (p2_idx virt) in
      if negb (is_present e2) || is_huge e2 then m
      else
        let e1 := entry_at m (entry_addr e2) (p1_idx virt) in
        if negb (is_present e1) then m else put_entry m (entry_addr e2) (p1_idx virt) (with_flags e1 flags).

Definition create_user_page_table (cr3 : Z) s : outcome (option Z * (F * memory_map)) :=
  '(r, f) ← take_frame s.1;
  match r with
  | None => Ret (None, (f, s.2))
  | Some p4 =>
      empty ← make_entry 0 0;
      let m := write_words s.2 p4 (replicate 512 empty) in
      entries ← collect (λ i, make_entry (entry_addr (entry_at m cr3 i)) (entry_flags (entry_at m cr3 i))) (seqZ 0 512);
      Ret (Some p4, (f, write_words m p4 entries))
  end.

(** *** Release *)

Definition free_l1 m (l1 : Z) (f : F) : outcome F :=
  for_each (λ i f, if is_present (entry_at m l1 i) then give_frame f (entry_addr (entry_at m l1 i)) else Ret f)
    (seqZ 0 512) f.

(** One entry of a table of level 2 or 3: a huge page, or a table below it that
    [free_below] releases before its own frame. *)
Definition free_entry (free_below : Z → F → outcome F) (e : Z) (f : F) : outcome F :=
  if negb (is_present e) then Ret f
  else if is_huge e then give_frame f (entry_addr e)
  else table ← frame_unwrap e; f ← free_below table f; give_frame f table.

Definition free_l2 m (l2 : Z) (f : F) : outcome F :=
  for_each (λ i, free_entry (free_l1 m) (entry_at m l2 i)) (seqZ 0 512) f.

Definition free_l3 m (l3 : Z) (f : F) : outcome F :=
  for_each (λ i, free_entry (free_l2 m) (entry_at m l3 i)) (seqZ 0 512) f.

Definition free_user_page_table (cr3 : Z) m (p4 : Z) (f : F) : outcome F :=
  f ← for_each (λ i f,
        let e := entry_at m p4 i in
        if negb (is_present e) then Ret f
        else
          l3 ← frame_unwrap e;
          let k := entry_at m cr3 i in
          if is_present k && (entry_addr k =? l3) then Ret f
          else f ← free_l3 m l3 f; give_frame f l3) (seqZ 0 256) f;
  give_frame f p4.

End paging.

(** ** The mapper of the loader *)

(** The flags the closures of [sys_process_start] and [launch_from_initrd] pass
    to [map_page]. *)
Definition loader_flags (writable executable : bool) : Z :=
  let flags := Z.lor PRESENT USER_ACCESSIBLE in
  let flags := if writable then Z.lor flags WRITABLE else flags in
  if executable then flags else Z.lor flags NO_EXECUTE.

(** Frames, with the page table that is loaded. *)
Record PagedFrames (F : Type) : Type := mkPaged { pg_frames : F; pg_cr3 : Z }.
Arguments mkPaged {F} _ _.
Arguments pg_frames {F} _.
Arguments pg_cr3 {F} _.

#[export] Instance PagedFrames_source {F} `{FrameSource F} : FrameSource (PagedFrames F) := {|
  take_frame p := '(r, f) ← take_frame (pg_frames p); Ret (r, mkPaged f (pg_cr3 p));
  give_frame p a := f ← give_frame (pg_frames p) a; Ret (mkPaged f (pg_cr3 p));
|}.

#[export] Instance PagedFrames_mapper {F} `{FrameSource F} `{EntryFormat} : PageMapper (PagedFrames F) :=
  λ virt phys w x s,
    '(f, m) ← user_map_page (pg_cr3 s.1) (pg_frames s.1, s.2) virt phys (loader_flags w x);
    Ret (mkPaged f (pg_cr3 s.1), m).
