(* ===== verification/PagingProofs.v ===== *)
(** * Properties of the page tables

    The tables of an address space as a tree of frames, the translation it
    stands for, and what each operation does to it. *)

From S2P Require Import Prelude Bytes PhysMem FrameAlloc Shm Elf Paging.

(** ** What the code relies on *)

Definition phys_ok (a : Z) : Prop := 0 ≤ a < 2 ^ 52 ∧ a mod 4096 = 0.
Definition ADDR_MASK : Z := 0x000FFFFFFFFFF000.
Definition flags_ok (fl : Z) : Prop := is_uint 64 fl ∧ Z.land fl ADDR_MASK = 0.

(** The documented behaviour of the entry type of the x86_64 crate. *)
Class EntryFormatLaws `{EntryFormat} : Prop := {
  make_ok a fl : phys_ok a → flags_ok fl →
    ∃ e, make_entry a fl = Ret e ∧ is_uint 64 e ∧ entry_addr e = a ∧ entry_flags e = fl;
  addr_ok e : phys_ok (entry_addr e);
  fl_ok e : flags_ok (entry_flags e);
  frame_ok e : is_present e = true → is_huge e = false → entry_frame e = Some (entry_addr e);
  with_flags_ok e fl : flags_ok fl →
    is_uint 64 (with_flags e fl) ∧ entry_addr (with_flags e fl) = entry_addr e ∧ entry_flags (with_flags e fl) = fl;
}.

(** A source of frames that a page table entry can hold, with the number of
    frames it can still give. *)
Class PhysFrameLaws (F : Type) `{FrameSourceLaws F} : Type := {
  phys_valid : F → Prop;
  frames_left : F → Z;
  phys_fs f : phys_valid f → fs_valid f;
  left_pos f : phys_valid f → 0 ≤ frames_left f;
  phys_frame f a : phys_valid f → a ∈ frames_out f → phys_ok a;
  phys_take f r f' : phys_valid f → take_frame f = Ret (r, f') →
    phys_valid f' ∧ match r with Some _ => frames_left f = frames_left f' + 1 | None => frames_left f = 0 ∧ f' = f end;
  phys_give f a f' : phys_valid f → a ∈ frames_out f → give_frame f a = Ret f' → phys_valid f';
}.

(** ** Indices *)

Lemma land_index x : Z.land x 0x1FF = x mod 512.
Proof. by apply (land_mask x 9). Qed.

Lemma idx_range x : 0 ≤ Z.land x 0x1FF < 512.
Proof. rewrite land_index. by apply Z.mod_pos_bound. Qed.

Lemma p1_idx_eq v : p1_idx v = (v `div` 4096) mod 512.
Proof. unfold p1_idx. by rewrite land_index, Z.shiftr_div_pow2 by lia. Qed.

Lemma idx_eq v :
  p2_idx v = (v / 4096 / 512) mod 512 ∧ p3_idx v = (v / 4096 / 512 / 512) mod 512 ∧
  p4_idx v = (v / 4096 / 512 / 512 / 512) mod 512.
Proof.
  unfold p2_idx, p3_idx, p4_idx. rewrite !land_index, !Z.shiftr_div_pow2, !Z.div_div by lia. done.
Qed.

(** The place of a page: the path of its table of level 1, and its index there. *)
Definition path_of (v : Z) : list Z := [p4_idx v; p3_idx v; p2_idx v].

Lemma same_page v v' :
  0 ≤ v < 2 ^ 48 → 0 ≤ v' < 2 ^ 48 → path_of v = path_of v' ∧ p1_idx v = p1_idx v' ↔ frame_of v = frame_of v'.
Proof.
  intros Hv Hv'. unfold path_of, frame_of. split.
  - intros [[= H4 H3 H2] H1]. rewrite !p1_idx_eq in H1. destruct (idx_eq v) as (E2 & E3 & E4), (idx_eq v') as (E2' & E3' & E4').
    rewrite E2, E2' in H2. rewrite E3, E3' in H3. rewrite E4, E4' in H4. Z.div_mod_to_equations. lia.
  - intros Heq. assert (v `div` 4096 = v' `div` 4096) as Hd by (Z.div_mod_to_equations; lia).
    destruct (idx_eq v) as (E2 & E3 & E4), (idx_eq v') as (E2' & E3' & E4').
    rewrite !p1_idx_eq, E2, E2', E3, E3', E4, E4', Hd. done.
Qed.

Lemma idx_512 v : 0 ≤ p4_idx v < 512 ∧ 0 ≤ p3_idx v < 512 ∧ 0 ≤ p2_idx v < 512 ∧ 0 ≤ p1_idx v < 512.
Proof. unfold p4_idx, p3_idx, p2_idx, p1_idx. auto using idx_range. Qed.

(** ** Entries *)

Section entries.
Context `{EntryFormatLaws}.
Implicit Types m : memory_map.

Lemma entry_put_same m t i e : is_uint 64 e → entry_at (put_entry m t i e) t i = e.
Proof. apply read_write_same. Qed.

Lemma put_other_frame m t i e a : t mod 4096 = 0 → 0 ≤ i < 512 → frame_of a ≠ t → put_entry m t i e a = m a.
Proof.
  intros Ht Hi Hf. apply write64_other. destruct (decide (t ≤ a < t + 4096)) as [?|?]; [|lia].
  exfalso. apply Hf. by apply frame_of_unique.
Qed.

Lemma entry_frame_eq m m' t i : 
  t mod 4096 = 0 → 0 ≤ i < 512 → (∀ a, frame_of a = t → m' a = m a) → entry_at m' t i = entry_at m t i.
Proof. intros Ht Hi Heq. apply read64_ext. intros x Hx. apply Heq. apply frame_of_unique; [done|lia]. Qed.

Lemma entry_put_other m t i e t' j :
  t mod 4096 = 0 → t' mod 4096 = 0 → 0 ≤ i < 512 → 0 ≤ j < 512 → (t, i) ≠ (t', j) →
  entry_at (put_entry m t i e) t' j = entry_at m t' j.
Proof.
  intros Ht Ht' Hi Hj Hne. destruct (decide (t = t')) as [->|Hn].
  - apply read_write_other. assert (i ≠ j) by congruence. lia.
  - apply entry_frame_eq; [done..|]. intros a Ha. apply put_other_frame; [done..|congruence].
Qed.

Lemma words_other_frame m t ws a : t mod 4096 = 0 → len ws = 512 → frame_of a ≠ t → write_words m t ws a = m a.
Proof.
  intros Ht Hw Hf. apply write_words_other. destruct (decide (t ≤ a < t + 4096)) as [?|?]; [|lia].
  exfalso. apply Hf. by apply frame_of_unique.
Qed.

End entries.

(** ** Address spaces *)

Section tree.
Context {F : Type} `{PhysFrameLaws F} `{EntryFormatLaws} `{BuildProfile}.
Variable U : Z → Prop. (** the entries of level 4 that belong to the address space *)
Variable p4 : Z.
Implicit Types m : memory_map.
Implicit Types tab : gmap (list Z) Z.

Definition slot (q : list Z) (i : Z) : Prop := 0 ≤ i < 512 ∧ (q = [] → U i).

Lemma slot_below q j i : 0 ≤ i < 512 → slot (j :: q) i.
Proof. done. Qed.

(** [tab] has the frames of the tables by the path of indices that leads to
    them, which is what memory says. *)
Record tree tab m : Prop := mkTree {
  tr_root : tab !! [] = Some p4;
  tr_inj q q' t : tab !! q = Some t → tab !! q' = Some t → q = q';
  tr_phys q t : tab !! q = Some t → phys_ok t;
  tr_len q t : tab !! q = Some t → (length q ≤ 3)%nat;
  tr_child q t i : tab !! q = Some t → (length q < 3)%nat → slot q i →
    if is_present (entry_at m t i)
    then is_huge (entry_at m t i) = false ∧ tab !! (q ++ [i]) = Some (entry_addr (entry_at m t i))
    else tab !! (q ++ [i]) = None;
  tr_parent q i t : tab !! (q ++ [i]) = Some t → is_Some (tab !! q) ∧ slot q i;
}.

Definition tables tab : gset Z := map_img tab.

Lemma in_tables tab q t : tab !! q = Some t → t ∈ tables tab.
Proof. intros Hq. apply elem_of_map_img. eauto. Qed.

(** The present entry of level 1 of a page. *)
Definition page_entry tab m (v : Z) : option Z :=
  match tab !! path_of v with
  | Some l1 => let e := entry_at m l1 (p1_idx v) in if is_present e then Some e else None
  | None => None
  end.

Lemma tree_stable tab m m' : tree tab m → (∀ a, frame_of a ∈ tables tab → m' a = m a) → tree tab m'.
Proof.
  intros [Hr Hi Hp Hl Hc Hpa] Heq. split; auto. intros q t i Hq Hlen Hs. specialize (Hc q t i Hq Hlen Hs).
  rewrite (entry_frame_eq m m' t i); [done|by apply (Hp q t)|by destruct Hs|]. intros a <-. by apply Heq, (in_tables _ q).
Qed.

Lemma page_entry_stable tab m m' v :
  tree tab m → (∀ a, frame_of a ∈ tables tab → m' a = m a) → page_entry tab m' v = page_entry tab m v.
Proof.
  intros Ht Heq. unfold page_entry. destruct (tab !! path_of v) as [l1|] eqn:Hq; [|done].
  rewrite (entry_frame_eq m m' l1); [done|by apply (tr_phys _ _ Ht _ _ Hq)|apply idx_512|].
  intros a <-. by apply Heq, (in_tables _ (path_of v)).
Qed.

(** Following a present entry. *)
Lemma walk_down tab m q t i :
  tree tab m → tab !! q = Some t → (length q < 3)%nat → slot q i →
  if is_present (entry_at m t i)
  then is_huge (entry_at m t i) = false ∧ frame_unwrap (entry_at m t i) = Ret (entry_addr (entry_at m t i)) ∧
    tab !! (q ++ [i]) = Some (entry_addr (entry_at m t i))
  else tab !! (q ++ [i]) = None.
Proof.
  intros Ht Hq Hl Hs. pose proof (tr_child _ _ Ht q t i Hq Hl Hs) as Hc. destruct (is_present _) eqn:Hp; [|done].
  destruct Hc as [Hh Hc]. split_and!; [done| |done]. unfold frame_unwrap. by rewrite frame_ok.
Qed.

Lemma tab_below_none tab m q i p : tree tab m → tab !! (q ++ [i]) = None → tab !! (q ++ i :: p) = None.
Proof.
  intros Ht Hn. destruct (tab !! (q ++ i :: p)) as [t|] eqn:Hq; [|done]. exfalso.
  revert t Hq. induction p as [|j p IH] using rev_ind; intros t Hq; [congruence|].
  replace (q ++ i :: p ++ [j]) with ((q ++ i :: p) ++ [j]) in Hq by (by rewrite <- app_assoc).
  destruct (tr_parent _ _ Ht _ _ _ Hq) as [[t' Ht'] _]. by apply (IH t').
Qed.

Lemma translate_tree tab m v :
  tree tab m → U (p4_idx v) →
  translate p4 m v = Ret (match page_entry tab m v with Some e => Some (entry_addr e + v mod 4096) | None => None end).
Proof.
  intros Ht Hu. pose proof (idx_512 v) as (I4 & I3 & I2 & I1). unfold translate, page_entry, path_of.
  pose proof (walk_down tab m [] p4 (p4_idx v) Ht (tr_root _ _ Ht) ltac:(simpl; lia) (conj I4 (λ _, Hu))) as Hw4.
  destruct (is_present (entry_at m p4 (p4_idx v))); cbn [negb];
    [|by rewrite (tab_below_none tab m [] (p4_idx v) [p3_idx v; p2_idx v] Ht Hw4 : tab !! [p4_idx v; p3_idx v; p2_idx v] = None)].
  destruct Hw4 as (_ & -> & Hl3). cbn [mbind outcome_bind app] in *. set (l3 := entry_addr _) in *.
  pose proof (walk_down tab m _ l3 (p3_idx v) Ht Hl3 ltac:(simpl; lia) (slot_below _ _ _ I3)) as Hw3.
  destruct (is_present (entry_at m l3 (p3_idx v))); cbn [negb];
    [|by rewrite (tab_below_none tab m [p4_idx v] (p3_idx v) [p2_idx v] Ht Hw3 : tab !! [p4_idx v; p3_idx v; p2_idx v] = None)].
  destruct Hw3 as (-> & -> & Hl2). cbn [mbind outcome_bind app] in *. set (l2 := entry_addr (entry_at m l3 _)) in *.
  pose proof (walk_down tab m _ l2 (p2_idx v) Ht Hl2 ltac:(simpl; lia) (slot_below _ _ _ I2)) as Hw2.
  destruct (is_present (entry_at m l2 (p2_idx v))); cbn [negb app] in *; [|by rewrite Hw2].
  destruct Hw2 as (-> & -> & Hl1). rewrite Hl1. cbn [mbind outcome_bind]. set (l1 := entry_addr (entry_at m l2 _)) in *.
  destruct (is_present (entry_at m l1 (p1_idx v))); cbn [negb]; [|done].
  destruct (addr_ok (entry_at m l1 (p1_idx v))) as [Ha _]. change 0xFFF with (2 ^ 12 - 1). rewrite land_mask by lia.
  pose proof (Z.mod_pos_bound v (2 ^ 12)). rewrite add64_ok by (unfold is_uint; lia). done.
Qed.

(** *** A new table *)

Definition empty_entry (e : Z) : Prop := make_entry 0 0 = Ret e ∧ is_uint 64 e ∧ is_present e = false.

Lemma empty_ok : ∃ e, empty_entry e.
Proof.
  destruct (make_ok 0 0) as (e & He & Hu & _ & Hf); [done|done|]. exists e. split_and!; [done..|].
  unfold is_present. by rewrite Hf.
Qed.

Lemma table_entry_ok a : phys_ok a →
  ∃ e, make_entry a TABLE_FLAGS = Ret e ∧ is_uint 64 e ∧ entry_addr e = a ∧ is_present e = true ∧ is_huge e = false.
Proof.
  intros Ha. destruct (make_ok a TABLE_FLAGS) as (e & He & Hu & Hea & Hf); [done|done|]. exists e.
  split_and!; [done..| |]; unfold is_present, is_huge; by rewrite Hf.
Qed.

Lemma entry_cleared m fr empty i :
  empty_entry empty → 0 ≤ i < 512 → entry_at (write_words m fr (replicate 512 empty)) fr i = empty.
Proof.
  intros (_ & Hu & _) Hi. apply read_write_words; [lia| |done]. apply lookup_replicate_2. lia.
Qed.

Section extend.
Context tab m q t i fr empty e
  (Ht : tree tab m) (Hq : tab !! q = Some t) (Hl : (length q < 3)%nat) (Hs : slot q i)
  (Hnp : is_present (entry_at m t i) = false) (Hfr : phys_ok fr) (Hfresh : fr ∉ tables tab)
  (Hempty : empty_entry empty) (He : is_uint 64 e ∧ entry_addr e = fr ∧ is_present e = true ∧ is_huge e = false).
Let tab' := <[q ++ [i] := fr]> tab.
Let m' := put_entry (write_words m fr (replicate 512 empty)) t i e.

Lemma extend_none : tab !! (q ++ [i]) = None.
Proof. pose proof (walk_down tab m q t i Ht Hq Hl Hs) as Hw. by rewrite Hnp in Hw. Qed.

Lemma extend_ne q' t' : tab !! q' = Some t' → t' ≠ fr.
Proof. intros Hq' ->. by apply Hfresh, (in_tables _ q'). Qed.

Lemma extend_entry q' t' j :
  tab !! q' = Some t' → 0 ≤ j < 512 → entry_at m' t' j = if decide ((q', j) = (q, i)) then e else entry_at m t' j.
Proof.
  intros Hq' Hj. destruct (tr_phys _ _ Ht _ _ Hq) as [_ Hta], (tr_phys _ _ Ht _ _ Hq') as [_ Hta'], Hs as [Hi _].
  destruct (decide _) as [[= -> ->]|Hne].
  - assert (t' = t) as -> by congruence. unfold m'. apply entry_put_same. apply He.
  - unfold m'. rewrite entry_put_other; [|done..|].
    + apply entry_frame_eq; [done..|]. intros a Ha. destruct Hfr. apply words_other_frame; [done|done|].
      rewrite Ha. by apply (extend_ne q').
    + intros [= <- ->]. apply Hne. f_equal. by apply (tr_inj _ _ Ht _ _ t).
Qed.

Lemma extend_new j : 0 ≤ j < 512 → entry_at m' fr j = empty.
Proof.
  intros Hj. destruct (tr_phys _ _ Ht _ _ Hq) as [_ Hta], Hfr as [_ Hfa], Hs as [Hi _].
  unfold m'. rewrite entry_put_other; [by apply entry_cleared|done..|]. intros [= E _]. by apply (extend_ne q t).
Qed.

Lemma tree_extend : tree tab' m'.
Proof.
  destruct He as (Hu & Hea & Hp & Hh). split.
  - unfold tab'. rewrite lookup_insert_ne by (by destruct q). apply (tr_root _ _ Ht).
  - intros q1 q2 t' X1 X2. apply lookup_insert_Some in X1 as [[E1 F1]|[_ X1]], X2 as [[E2 F2]|[_ X2]].
    + congruence.
    + by destruct (extend_ne q2 t').
    + by destruct (extend_ne q1 t').
    + by apply (tr_inj _ _ Ht _ _ t').
  - intros q' t' [[<- <-]|[_ Hq']]%lookup_insert_Some; [done|by apply (tr_phys _ _ Ht q')].
  - intros q' t' [[<- <-]|[_ Hq']]%lookup_insert_Some; [rewrite length_app; simpl; lia|by apply (tr_len _ _ Ht q' t')].
  - intros q' t' j [[<- <-]|[Hne Hq']]%lookup_insert_Some Hl' Hs'.
    + rewrite extend_new by apply Hs'. destruct Hempty as (_ & _ & ->). unfold tab'.
      rewrite lookup_insert_ne by (intros E; apply (f_equal length) in E; rewrite !length_app in E; simpl in E; lia).
      rewrite <- app_assoc. apply (tab_below_none tab m); [done|apply extend_none].
    + rewrite (extend_entry q') by (apply Hs' || done). destruct (decide _) as [[= -> ->]|Hn].
      * rewrite Hp. split; [done|]. unfold tab'. by rewrite lookup_insert_eq, Hea.
      * unfold tab'. rewrite lookup_insert_ne; [by apply (tr_child _ _ Ht)|]. intros [-> [= ->]]%app_inj_2; [|done].
        by apply Hn.
  - intros q' j t' Hq'. unfold tab' in Hq'. apply lookup_insert_Some in Hq' as [[E _]|[_ Hq']].
    + apply app_inj_2 in E as [<- [= <-]]; [|done]. split; [|done]. apply lookup_insert_is_Some'. right. eauto.
    + destruct (tr_parent _ _ Ht _ _ _ Hq') as [Hi' Hsl]. split; [|done]. apply lookup_insert_is_Some'. by right.
Qed.

Lemma page_entry_extend v : page_entry tab' m' v = page_entry tab m v.
Proof.
  unfold page_entry. destruct (decide (path_of v = q ++ [i])) as [Hp|Hp].
  - rewrite Hp, extend_none. unfold tab'. rewrite lookup_insert_eq, extend_new by apply idx_512. by destruct Hempty as (_ & _ & ->).
  - unfold tab'. rewrite lookup_insert_ne by done. destruct (tab !! path_of v) as [l1|] eqn:Hl1; [|done].
    rewrite (extend_entry (path_of v)) by (apply idx_512 || done). rewrite decide_False; [done|].
    intros [= E _]. rewrite <- E in Hl. simpl in Hl. lia.
Qed.

Lemma extend_memory a : (frame_of a ∉ tables tab') → m' a = m a.
Proof.
  intros Hn. destruct (tr_phys _ _ Ht _ _ Hq) as [_ Hta], Hfr as [_ Hfa], Hs as [Hi _]. unfold m'.
  rewrite put_other_frame; [apply words_other_frame; [done..|]|done..|]; intros E; apply Hn; rewrite E; unfold tables, tab'.
  - apply (elem_of_map_img_2 _ (q ++ [i])). by rewrite lookup_insert_eq.
  - apply (elem_of_map_img_2 _ q). rewrite lookup_insert_ne; [done|]. intros E'. apply (f_equal length) in E'.
    rewrite length_app in E'. simpl in E'. lia.
Qed.

End extend.

(** *** Walks that create tables *)

Definition pt_inv tab (f : F) m : Prop := phys_valid f ∧ tree tab m ∧ tables tab ⊆ frames_out f.

(** The address space after some tables were added, at most [k]: the pages are
    the same, and only memory of tables changed, the new ones fresh. *)
Record grows (k : Z) tab f m tab' f' m' : Prop := mkGrows {
  gr_inv : pt_inv tab' f' m';
  gr_sub : tab ⊆ tab';
  gr_out : frames_out f ⊆ frames_out f';
  gr_fresh t : t ∈ tables tab' → t ∈ tables tab ∨ t ∉ frames_out f;
  gr_mem a : (frame_of a ∉ tables tab') → m' a = m a;
  gr_left : frames_left f ≤ frames_left f' + k;
  gr_page v : page_entry tab' m' v = page_entry tab m v;
}.

Lemma tables_mono tab tab' : tab ⊆ tab' → tables tab ⊆ tables tab'.
Proof.
  intros Hs t Ht. apply elem_of_map_img in Ht as [q Hq]. apply elem_of_map_img. exists q. by apply (lookup_weaken tab).
Qed.

Lemma grows_refl tab f m : pt_inv tab f m → grows 0 tab f m tab f m.
Proof. intros Hi. split; auto; lia. Qed.

Lemma grows_trans j k tab f m tab1 f1 m1 tab2 f2 m2 :
  grows j tab f m tab1 f1 m1 → grows k tab1 f1 m1 tab2 f2 m2 → grows (j + k) tab f m tab2 f2 m2.
Proof.
  intros [Hi1 Hs1 Ho1 Hf1 Hm1 Hl1 Hp1] [Hi2 Hs2 Ho2 Hf2 Hm2 Hl2 Hp2]. split; [done|by etrans|set_solver| | |lia|congruence].
  - intros t [Ht|Ht]%Hf2; [auto|]. right. set_solver.
  - intros a Ha. rewrite Hm2 by done. apply Hm1. pose proof (tables_mono _ _ Hs2). set_solver.
Qed.

Lemma grows_weaken j k tab f m tab' f' m' : j ≤ k → grows j tab f m tab' f' m' → grows k tab f m tab' f' m'.
Proof. intros Hjk [Hi Hs Ho Hf Hm Hl Hp]. split; auto; lia. Qed.

Lemma new_table_ok tab f m q t i :
  pt_inv tab f m → tab !! q = Some t → (length q < 3)%nat → slot q i → is_present (entry_at m t i) = false →
  (new_table (f, m) t i = Ret (None, (f, m)) ∧ frames_left f = 0) ∨
  ∃ t' tab' f' m', new_table (f, m) t i = Ret (Some t', (f', m')) ∧ tab' !! (q ++ [i]) = Some t' ∧ grows 1 tab f m tab' f' m'.
Proof.
  intros (Hv & Ht & Hsub) Hq Hl Hs Hnp. unfold new_table. cbn [fst snd].
  destruct (take_ok f (phys_fs f Hv)) as (r & f' & Htk & _ & Hr). destruct (phys_take f r f' Hv Htk) as [Hv' Hleft].
  rewrite Htk. cbn [mbind outcome_bind]. destruct r as [fr|]; [right|left; by destruct Hleft as [? ->]].
  destruct Hr as [Hnew Hout]. assert (phys_ok fr) as Hfr by (apply (phys_frame f'); [done|set_solver]).
  destruct empty_ok as (em & Hem), (table_entry_ok fr Hfr) as (e & -> & He). rewrite (proj1 Hem). cbn [mbind outcome_bind].
  assert (fr ∉ tables tab) as Hfresh by set_solver.
  pose proof (tree_extend tab m q t i fr em e Ht Hq Hl Hs Hnp Hfr Hfresh Hem He) as Htree.
  assert (tables (<[q ++ [i] := fr]> tab) ⊆ {[fr]} ∪ tables tab) as Htabs.
  { intros x [q' Hx]%elem_of_map_img. apply lookup_insert_Some in Hx as [[_ <-]|[_ Hx]]; [set_solver|].
    apply elem_of_union_r. by apply (in_tables _ q'). }
  eexists fr, (<[q ++ [i] := fr]> tab), f', _. split; [done|]. split; [by rewrite lookup_insert_eq|]. split.
  - split; [done|]. split; [done|]. set_solver.
  - apply insert_subseteq. by apply (extend_none tab m q t i).
  - set_solver.
  - intros x Hx. apply Htabs in Hx. set_solver.
  - intros a Ha. by apply (extend_memory tab m q t i fr em e).
  - lia.
  - intros v. by apply (page_entry_extend tab m q t i fr em e).
Qed.

Lemma walk_or_create_ok tab f m q t i :
  pt_inv tab f m → tab !! q = Some t → (length q < 3)%nat → slot q i →
  (walk_or_create (f, m) t i = Ret (None, (f, m)) ∧ frames_left f = 0) ∨
  ∃ t' tab' f' m', walk_or_create (f, m) t i = Ret (Some t', (f', m')) ∧ tab' !! (q ++ [i]) = Some t' ∧ grows 1 tab f m tab' f' m'.
Proof.
  intros Hi Hq Hl Hs. unfold walk_or_create. cbn [snd]. destruct (is_present (entry_at m t i)) eqn:Hp; [|by apply new_table_ok].
  pose proof (walk_down tab m q t i (proj1 (proj2 Hi)) Hq Hl Hs) as Hw. rewrite Hp in Hw. destruct Hw as (_ & -> & Hc).
  right. eexists _, tab, f, m. split; [done|]. split; [done|]. apply (grows_weaken 0); [lia|]. by apply grows_refl.
Qed.

(** *** Entries of pages *)

Lemma set_page tab f m v l1 e :
  pt_inv tab f m → tab !! path_of v = Some l1 → is_uint 64 e → 0 ≤ v < 2 ^ 48 →
  pt_inv tab f (put_entry m l1 (p1_idx v) e) ∧
  (∀ a, (frame_of a ∉ tables tab) → put_entry m l1 (p1_idx v) e a = m a) ∧
  ∀ v', 0 ≤ v' < 2 ^ 48 → page_entry tab (put_entry m l1 (p1_idx v) e) v' =
    if decide (frame_of v' = frame_of v) then (if is_present e then Some e else None) else page_entry tab m v'.
Proof.
  intros (Hv & Ht & Hsub) Hl1 He Hr. destruct (tr_phys _ _ Ht _ _ Hl1) as [_ Hal]. pose proof (idx_512 v) as (_ & _ & _ & Hi).
  assert (∀ a, (frame_of a ∉ tables tab) → put_entry m l1 (p1_idx v) e a = m a) as Hmem.
  { intros a Ha. apply put_other_frame; [done..|]. intros E. apply Ha. rewrite E. by apply (in_tables _ (path_of v)). }
  split; [split; [done|split; [|done]]|split; [done|]].
  - destruct Ht as [Hroot Hinj Hphys Hlen Hc Hpa]. split; auto. intros q t j Hq Hl Hs. specialize (Hc q t j Hq Hl Hs).
    rewrite entry_put_other; [done|done|by apply (Hphys q)|done|apply Hs|]. intros [= E _]. rewrite E in Hl1.
    rewrite (Hinj _ _ _ Hq Hl1) in Hl. simpl in Hl. lia.
  - intros v' Hr'. unfold page_entry. destruct (decide _) as [E|E].
    + apply same_page in E as [-> ->]; [|done..]. by rewrite Hl1, entry_put_same.
    + destruct (tab !! path_of v') as [l1'|] eqn:Hl1'; [|done].
      rewrite entry_put_other; [done|done|by apply (tr_phys _ _ Ht (path_of v'))|done|apply idx_512|].
      intros [= E1 E2]. apply E. subst l1'. apply same_page; [done..|]. split; [|done].
      by apply (tr_inj _ _ Ht _ _ l1).
Qed.

(** *** Mapping *)

Definition map_effect tab (f : F) m (virt e : Z) tab' (f' : F) m' : Prop :=
  pt_inv tab' f' m' ∧ frames_out f ⊆ frames_out f' ∧ tab ⊆ tab' ∧
  (∀ t, t ∈ tables tab' → t ∈ tables tab ∨ t ∉ frames_out f) ∧
  (∀ a, (frame_of a ∉ tables tab') → m' a = m a) ∧ frames_left f ≤ frames_left f' + 3 ∧
  ∀ v, 0 ≤ v < 2 ^ 48 → page_entry tab' m' v = if decide (frame_of v = frame_of virt) then Some e else page_entry tab m v.

Lemma grows_map tab f m tab' f' m' virt l1 e :
  grows 3 tab f m tab' f' m' → tab' !! path_of virt = Some l1 → is_uint 64 e → is_present e = true → 0 ≤ virt < 2 ^ 48 →
  map_effect tab f m virt e tab' f' (put_entry m' l1 (p1_idx virt) e).
Proof.
  intros [Hi Hs Ho Hf Hm Hl Hp] Hl1 He Hpe Hr. destruct (set_page tab' f' m' virt l1 e Hi Hl1 He Hr) as (Hi' & Hmem & Hpage).
  split_and!; [done|done|done|done| |done|].
  - intros a Ha. rewrite Hmem by done. by apply Hm.
  - intros v Hv. rewrite Hpage by done. rewrite Hpe. destruct (decide _); [done|apply Hp].
Qed.

Lemma map_page_cases tab f m virt phys flags :
  pt_inv tab f m → 0 ≤ virt < 2 ^ 48 → virt mod 4096 = 0 → U (p4_idx virt) → phys_ok phys → flags_ok flags →
  contains flags PRESENT = true →
  ∃ r tab' f' m', map_page_at p4 (f, m) virt phys flags = Ret (r, (f', m')) ∧
    match r with
    | Ok _ => page_entry tab m virt = None ∧
        ∃ e, entry_addr e = phys ∧ entry_flags e = flags ∧ map_effect tab f m virt e tab' f' m'
    | Err AlreadyMapped => is_Some (page_entry tab m virt) ∧ grows 3 tab f m tab' f' m'
    | Err PtOutOfMemory => frames_left f < 3 ∧ grows 3 tab f m tab' f' m'
    | Err _ => False
    end.
Proof.
  intros Hi Hr Hva Hu Hph Hfl Hpres. pose proof (idx_512 virt) as (I4 & I3 & I2 & I1). unfold map_page_at.
  unfold PAGE_SIZE. change 0x1000 with 4096. rewrite Hva, (proj2 Hph). cbn [Z.eqb negb orb].
  destruct (walk_or_create_ok tab f m [] p4 (p4_idx virt) Hi (tr_root _ _ (proj1 (proj2 Hi))) ltac:(simpl; lia) (conj I4 (λ _, Hu)))
    as [[-> Hleft]|(l3 & tab1 & f1 & m1 & -> & Hl3 & G1)]; cbn [mbind outcome_bind].
  { eexists _, tab, f, m. split; [done|]. split; [lia|]. apply (grows_weaken 0); [lia|by apply grows_refl]. }
  destruct (walk_or_create_ok tab1 f1 m1 _ l3 (p3_idx virt) (gr_inv _ _ _ _ _ _ _ G1) Hl3 ltac:(simpl; lia) (slot_below _ _ _ I3))
    as [[-> Hleft]|(l2 & tab2 & f2 & m2 & -> & Hl2 & G2)]; cbn [mbind outcome_bind].
  { eexists _, tab1, f1, m1. split; [done|]. split; [pose proof (gr_left _ _ _ _ _ _ _ G1); lia|]. by apply (grows_weaken 1); [lia|]. }
  pose proof (grows_trans _ _ _ _ _ _ _ _ _ _ _ G1 G2) as G12. cbn [snd app] in *.
  assert (is_present (entry_at m2 l2 (p2_idx virt)) && is_huge (entry_at m2 l2 (p2_idx virt)) = false) as ->.
  { pose proof (tr_child _ _ (proj1 (proj2 (gr_inv _ _ _ _ _ _ _ G2))) _ l2 (p2_idx virt) Hl2 ltac:(simpl; lia) (slot_below _ _ _ I2)) as Hc.
    destruct (is_present _); [by destruct Hc as [-> _]|done]. }
  destruct (walk_or_create_ok tab2 f2 m2 _ l2 (p2_idx virt) (gr_inv _ _ _ _ _ _ _ G2) Hl2 ltac:(simpl; lia) (slot_below _ _ _ I2))
    as [[-> Hleft]|(l1 & tab3 & f3 & m3 & -> & Hl1 & G3)]; cbn [mbind outcome_bind].
  { eexists _, tab2, f2, m2. split; [done|]. split; [pose proof (gr_left _ _ _ _ _ _ _ G12); lia|]. by apply (grows_weaken 2); [lia|]. }
  pose proof (grows_trans _ _ _ _ _ _ _ _ _ _ _ G12 G3) as G. cbn [snd fst app] in *. change (1 + 1 + 1) with 3 in G.
  pose proof (gr_page _ _ _ _ _ _ _ G virt) as Hpg. unfold page_entry at 1 in Hpg. unfold path_of in Hpg. rewrite Hl1 in Hpg.
  destruct (is_present (entry_at m3 l1 (p1_idx virt))).
  { eexists _, tab3, f3, m3. split; [done|]. split; [by rewrite <- Hpg|done]. }
  destruct (make_ok phys flags Hph Hfl) as (e & -> & He & Hea & Hef). cbn [mbind outcome_bind].
  eexists _, tab3, f3, _. split; [done|]. split; [done|]. exists e. split_and!; [done..|]. apply grows_map; [done..| |done].
  unfold is_present. by rewrite Hef.
Qed.

(** *** Unmapping *)

Lemma table_empty m c j : table_is_empty m c = true → 0 ≤ j < 512 → is_present (entry_at m c j) = false.
Proof.
  intros He Hj. unfold table_is_empty in He. rewrite forallb_forall in He. apply negb_true_iff, He.
  apply list_elem_of_In, elem_of_seqZ. lia.
Qed.

Section prune.
Context tab m q t i c empty
  (Ht : tree tab m) (Hq : tab !! q = Some t) (Hc : tab !! (q ++ [i]) = Some c)
  (Hce : table_is_empty m c = true) (Hempty : empty_entry empty).
Let tab' := delete (q ++ [i]) tab.
Let m' := put_entry m t i empty.

Lemma prune_slot : slot q i ∧ (length q < 3)%nat.
Proof.
  split; [apply (tr_parent _ _ Ht _ _ _ Hc)|]. pose proof (tr_len _ _ Ht _ _ Hc) as Hl. rewrite length_app in Hl. simpl in Hl. lia.
Qed.

Lemma prune_leaf j : tab !! (q ++ [i] ++ [j]) = None.
Proof.
  destruct (tab !! (q ++ [i] ++ [j])) as [x|] eqn:Hx; [|done]. exfalso. rewrite app_assoc in Hx.
  destruct (tr_parent _ _ Ht _ _ _ Hx) as [_ Hs]. pose proof (tr_len _ _ Ht _ _ Hx) as Hl. rewrite length_app in Hl. simpl in Hl.
  pose proof (tr_child _ _ Ht _ c j Hc ltac:(lia) Hs) as Hch. rewrite (table_empty m c j Hce) in Hch by apply Hs. congruence.
Qed.

Lemma prune_entry q' t' j :
  tab !! q' = Some t' → 0 ≤ j < 512 → entry_at m' t' j = if decide ((q', j) = (q, i)) then empty else entry_at m t' j.
Proof.
  intros Hq' Hj. destruct prune_slot as [[Hi _] _], (tr_phys _ _ Ht _ _ Hq) as [_ Ha], (tr_phys _ _ Ht _ _ Hq') as [_ Ha'].
  unfold m'. destruct (decide _) as [[= -> ->]|Hne].
  - assert (t' = t) as -> by congruence. apply entry_put_same, Hempty.
  - apply entry_put_other; [done..|]. intros [= E ->]. apply Hne. subst t'. f_equal. by apply (tr_inj _ _ Ht _ _ t).
Qed.

Lemma tree_prune : tree tab' m'.
Proof.
  destruct Hempty as (_ & _ & Hnp). split.
  - unfold tab'. rewrite lookup_delete_ne by (by destruct q). apply (tr_root _ _ Ht).
  - intros q1 q2 x [_ X1]%lookup_delete_Some [_ X2]%lookup_delete_Some. by apply (tr_inj _ _ Ht _ _ x).
  - intros q' x [_ X]%lookup_delete_Some. by apply (tr_phys _ _ Ht q').
  - intros q' x [_ X]%lookup_delete_Some. by apply (tr_len _ _ Ht q' x).
  - intros q' x j [_ X]%lookup_delete_Some Hl Hs. rewrite (prune_entry q') by (done || apply Hs).
    destruct (decide _) as [[= -> ->]|Hne]; [rewrite Hnp; apply lookup_delete_eq|].
    unfold tab'. rewrite lookup_delete_ne; [by apply (tr_child _ _ Ht)|]. intros [-> [= ->]]%app_inj_2; [|done]. by apply Hne.
  - intros q' j x [_ X]%lookup_delete_Some. destruct (tr_parent _ _ Ht _ _ _ X) as [Hp Hs]. split; [|done].
    unfold tab'. rewrite lookup_delete_ne; [done|]. intros <-. rewrite <- app_assoc, prune_leaf in X. done.
Qed.

Lemma page_entry_prune v : page_entry tab' m' v = page_entry tab m v.
Proof.
  destruct prune_slot as [_ Hl]. unfold page_entry. destruct (decide (path_of v = q ++ [i])) as [->|Hp].
  - unfold tab'. rewrite lookup_delete_eq, Hc. by rewrite (table_empty m c) by (done || apply idx_512).
  - unfold tab'. rewrite lookup_delete_ne by done. destruct (tab !! path_of v) as [l1|] eqn:Hl1; [|done].
    rewrite (prune_entry (path_of v)) by (done || apply idx_512). rewrite decide_False; [done|].
    intros [= E _]. rewrite <- E in Hl. simpl in Hl. lia.
Qed.

End prune.

(** The address space after empty tables were given back. *)
Record shrinks tab f m tab' f' m' : Prop := mkShrinks {
  sh_inv : pt_inv tab' f' m';
  sh_sub : tab' ⊆ tab;
  sh_out a : a ∈ frames_out f' ↔ a ∈ frames_out f ∧ (a ∈ tables tab → a ∈ tables tab');
  sh_mem a : (frame_of a ∉ tables tab) → m' a = m a;
  sh_page v : page_entry tab' m' v = page_entry tab m v;
}.

Lemma shrinks_refl tab f m : pt_inv tab f m → shrinks tab f m tab f m.
Proof. intros Hi. split; auto. naive_solver. Qed.

Lemma shrinks_trans tab f m tab1 f1 m1 tab2 f2 m2 :
  shrinks tab f m tab1 f1 m1 → shrinks tab1 f1 m1 tab2 f2 m2 → shrinks tab f m tab2 f2 m2.
Proof.
  intros [Hi1 Hs1 Ho1 Hm1 Hp1] [Hi2 Hs2 Ho2 Hm2 Hp2]. pose proof (tables_mono _ _ Hs1). pose proof (tables_mono _ _ Hs2).
  split; [done|by etrans| | |congruence].
  - intros a. rewrite Ho2, Ho1. set_solver.
  - intros a Ha. rewrite Hm2; [by apply Hm1|set_solver].
Qed.

Lemma free_table_ok tab f m q t i c :
  pt_inv tab f m → tab !! q = Some t → tab !! (q ++ [i]) = Some c → table_is_empty m c = true →
  ∃ f' m', free_table_and_clear_entry (f, m) t i c = Ret (f', m') ∧ shrinks tab f m (delete (q ++ [i]) tab) f' m'.
Proof.
  intros (Hv & Ht & Hsub) Hq Hc Hce. destruct empty_ok as (em & Hem). unfold free_table_and_clear_entry. rewrite (proj1 Hem).
  cbn [mbind outcome_bind fst snd]. assert (c ∈ frames_out f) as Hin by (by apply Hsub, (in_tables _ (q ++ [i]))).
  destruct (give_ok f c (phys_fs f Hv) Hin) as (f' & Hg & Hv' & Hout). rewrite Hg. cbn [mbind outcome_bind].
  assert (∀ x, x ∈ tables (delete (q ++ [i]) tab) ↔ x ∈ tables tab ∧ x ≠ c) as Htabs.
  { intros x. unfold tables. rewrite !elem_of_map_img. split.
    - intros [q' [Hne Hq']%lookup_delete_Some]. split; [eauto|]. intros ->. apply Hne. by apply (tr_inj _ _ Ht _ _ c).
    - intros [[q' Hq'] Hne]. exists q'. apply lookup_delete_Some. split; [|done]. intros <-. congruence. }
  eexists f', _. split; [done|]. split.
  - split; [by apply (phys_give f c)|]. split; [by apply (tree_prune tab m q t i c)|]. intros x Hx%Htabs. set_solver.
  - apply delete_subseteq.
  - intros a. rewrite Hout, Htabs, elem_of_difference, elem_of_singleton. split; [tauto|]. intros [Ha Himp]. split; [done|].
    intros ->. by destruct (Himp (in_tables _ _ _ Hc)).
  - intros a Ha. destruct (tr_phys _ _ Ht _ _ Hq) as [_ Hal]. apply put_other_frame; [done|by apply (prune_slot tab m q i c)|].
    intros E. apply Ha. rewrite E. by apply (in_tables _ q).
  - intros v. by apply (page_entry_prune tab m q t i c).
Qed.

(** A table that is in the tree is what the entry above it says. *)
Lemma entry_of_child tab m q t i c :
  tree tab m → tab !! q = Some t → tab !! (q ++ [i]) = Some c →
  is_present (entry_at m t i) = true ∧ is_huge (entry_at m t i) = false ∧ frame_unwrap (entry_at m t i) = Ret c ∧
  entry_addr (entry_at m t i) = c.
Proof.
  intros Ht Hq Hc. destruct (tr_parent _ _ Ht _ _ _ Hc) as [_ Hs]. pose proof (tr_len _ _ Ht _ _ Hc) as Hl.
  rewrite length_app in Hl. simpl in Hl. pose proof (walk_down tab m q t i Ht Hq ltac:(lia) Hs) as Hw.
  destruct (is_present _); [|congruence]. destruct Hw as (Hh & Hf & Hc'). assert (entry_addr (entry_at m t i) = c) as E by congruence.
  rewrite Hf, E. done.
Qed.

Lemma free_empty_ok tab f m v l3 l2 l1 :
  pt_inv tab f m → tab !! [p4_idx v] = Some l3 → tab !! [p4_idx v; p3_idx v] = Some l2 → tab !! path_of v = Some l1 →
  ∃ tab' f' m', free_empty_tables (f, m) p4 l3 l2 l1 v = Ret (f', m') ∧ shrinks tab f m tab' f' m'.
Proof.
  intros Hi L3 L2 L1. unfold free_empty_tables. cbn [snd]. destruct (table_is_empty m l1) eqn:E1; cbn [negb];
    [|by eexists tab, f, m; eauto using shrinks_refl].
  destruct (free_table_ok tab f m [p4_idx v; p3_idx v] l2 (p2_idx v) l1 Hi L2 L1 E1) as (f1 & m1 & -> & S1).
  cbn [mbind outcome_bind snd app] in *. set (tab1 := delete _ tab) in *.
  assert (tab1 !! [p4_idx v] = Some l3 ∧ tab1 !! [p4_idx v; p3_idx v] = Some l2) as [M3 M2].
  { unfold tab1. by rewrite !lookup_delete_ne by done. }
  destruct (table_is_empty m1 l2) eqn:E2; cbn [negb]; [|by eexists tab1, f1, m1].
  destruct (free_table_ok tab1 f1 m1 [p4_idx v] l3 (p3_idx v) l2 (sh_inv _ _ _ _ _ _ S1) M3 M2 E2) as (f2 & m2 & -> & S2).
  cbn [mbind outcome_bind snd app] in *. set (tab2 := delete _ tab1) in *. pose proof (shrinks_trans _ _ _ _ _ _ _ _ _ S1 S2) as S12.
  assert (tab2 !! [p4_idx v] = Some l3) as N3 by (unfold tab2; by rewrite lookup_delete_ne by done).
  destruct (table_is_empty m2 l3) eqn:E3; cbn [negb]; [|by eexists tab2, f2, m2].
  pose proof (sh_inv _ _ _ _ _ _ S12) as (_ & Ht2 & _).
  destruct (entry_of_child tab2 m2 [] p4 (p4_idx v) l3 Ht2 (tr_root _ _ Ht2) N3) as (_ & _ & -> & _). cbn [mbind outcome_bind].
  destruct (free_table_ok tab2 f2 m2 [] p4 (p4_idx v) l3 (sh_inv _ _ _ _ _ _ S12) (tr_root _ _ Ht2) N3 E3) as (f3 & m3 & -> & S3).
  eexists _, f3, m3. split; [done|]. by apply (shrinks_trans _ _ _ _ _ _ _ _ _ S12 S3).
Qed.

(** The tables on the way to a page that has an entry. *)
Lemma path_tables tab m v l1 :
  tree tab m → tab !! path_of v = Some l1 → ∃ l3 l2, tab !! [p4_idx v] = Some l3 ∧ tab !! [p4_idx v; p3_idx v] = Some l2.
Proof.
  intros Ht Hl1. destruct (tr_parent _ _ Ht [p4_idx v; p3_idx v] (p2_idx v) l1 Hl1) as [[l2 Hl2] _].
  destruct (tr_parent _ _ Ht [p4_idx v] (p3_idx v) l2 Hl2) as [[l3 Hl3] _]. eauto.
Qed.

Lemma unmap_page_mapped tab f m virt e :
  pt_inv tab f m → 0 ≤ virt < 2 ^ 48 → virt mod 4096 = 0 → page_entry tab m virt = Some e →
  ∃ tab' f' m', unmap_page p4 (f, m) virt = Ret (Ok (entry_addr e), (f', m')) ∧ pt_inv tab' f' m' ∧ tab' ⊆ tab ∧
    (∀ a, a ∈ frames_out f' ↔ a ∈ frames_out f ∧ (a ∈ tables tab → a ∈ tables tab')) ∧
    (∀ a, (frame_of a ∉ tables tab) → m' a = m a) ∧
    ∀ v, 0 ≤ v < 2 ^ 48 → page_entry tab' m' v = if decide (frame_of v = virt) then None else page_entry tab m v.
Proof.
  intros Hi Hr Hva Hpe. pose proof Hi as (_ & Ht & _). pose proof Hpe as Hpe'. unfold page_entry in Hpe'.
  destruct (tab !! path_of virt) as [l1|] eqn:Hl1; [|done]. destruct (path_tables tab m virt l1 Ht Hl1) as (l3 & l2 & Hl3 & Hl2).
  destruct (is_present (entry_at m l1 (p1_idx virt))) eqn:Hp1; [|done]. injection Hpe' as He.
  destruct (entry_of_child tab m [] p4 _ l3 Ht (tr_root _ _ Ht) Hl3) as (P4 & _ & F4 & _).
  destruct (entry_of_child tab m [_] l3 _ l2 Ht Hl3 Hl2) as (P3 & Hh3 & F3 & _).
  destruct (entry_of_child tab m [_; _] l2 _ l1 Ht Hl2 Hl1) as (P2 & Hh2 & F2 & _).
  unfold unmap_page, PAGE_SIZE. change 0x1000 with 4096. cbn [snd fst]. rewrite Hva, P4, F4. cbn [Z.eqb negb mbind outcome_bind].
  rewrite P3, Hh3, F3. cbn [negb mbind outcome_bind]. rewrite P2, Hh2, F2. cbn [negb mbind outcome_bind]. rewrite Hp1. cbn [negb].
  destruct empty_ok as (em & Hem & Hemu & Hemp). rewrite Hem. cbn [mbind outcome_bind].
  destruct (set_page tab f m virt l1 em Hi Hl1 Hemu Hr) as (Hi1 & Hm1 & Hp). rewrite Hemp in Hp.
  destruct (free_empty_ok tab f _ virt l3 l2 l1 Hi1 Hl3 Hl2 Hl1) as (tab' & f' & m' & -> & [Si Ss So Sm Sp]).
  cbn [mbind outcome_bind]. rewrite He. eexists tab', f', m'. split; [done|]. split; [done|]. split; [done|]. split; [done|]. split.
  - intros a Ha. rewrite Sm by done. by apply Hm1.
  - intros v Hv. rewrite Sp, Hp by done. by rewrite (frame_of_unique virt virt) by lia.
Qed.

Lemma unmap_page_absent tab f m virt :
  pt_inv tab f m → virt mod 4096 = 0 → U (p4_idx virt) → page_entry tab m virt = None →
  unmap_page p4 (f, m) virt = Ret (Err NotMapped, (f, m)).
Proof.
  intros (_ & Ht & _) Hva Hu Hpe. pose proof (idx_512 virt) as (I4 & I3 & I2 & I1).
  unfold unmap_page, PAGE_SIZE. change 0x1000 with 4096. cbn [snd fst]. rewrite Hva. cbn [Z.eqb negb].
  pose proof (walk_down tab m [] p4 (p4_idx virt) Ht (tr_root _ _ Ht) ltac:(simpl; lia) (conj I4 (λ _, Hu))) as Hw4.
  destruct (is_present (entry_at m p4 (p4_idx virt))); cbn [negb]; [|done].
  destruct Hw4 as (_ & -> & Hl3). cbn [mbind outcome_bind app] in *. set (l3 := entry_addr _) in *.
  pose proof (walk_down tab m _ l3 (p3_idx virt) Ht Hl3 ltac:(simpl; lia) (slot_below _ _ _ I3)) as Hw3.
  destruct (is_present (entry_at m l3 (p3_idx virt))); cbn [negb]; [|done].
  destruct Hw3 as (-> & -> & Hl2). cbn [mbind outcome_bind app] in *. set (l2 := entry_addr (entry_at m l3 _)) in *.
  pose proof (walk_down tab m _ l2 (p2_idx virt) Ht Hl2 ltac:(simpl; lia) (slot_below _ _ _ I2)) as Hw2.
  destruct (is_present (entry_at m l2 (p2_idx virt))); cbn [negb app] in *; [|done].
  destruct Hw2 as (-> & -> & Hl1). cbn [mbind outcome_bind]. unfold page_entry, path_of in Hpe. rewrite Hl1 in Hpe.
  by destruct (is_present _).
Qed.

(** *** The mapping of user pages *)

(** Giving an entry that leads to a table other flags. *)
Lemma replace_entry tab f m q t i e :
  pt_inv tab f m → tab !! q = Some t → (length q < 3)%nat → slot q i → is_uint 64 e →
  is_present e = is_present (entry_at m t i) → is_huge e = is_huge (entry_at m t i) →
  entry_addr e = entry_addr (entry_at m t i) → grows 0 tab f m tab f (put_entry m t i e).
Proof.
  intros (Hv & Ht & Hsub) Hq Hl Hs He Hp Hh Ha. destruct (tr_phys _ _ Ht _ _ Hq) as [_ Hal].
  assert (∀ q' t' j, tab !! q' = Some t' → 0 ≤ j < 512 → (q', j) ≠ (q, i) →
    entry_at (put_entry m t i e) t' j = entry_at m t' j) as Hother.
  { intros q' t' j Hq' Hj Hne. apply entry_put_other; [done|by apply (tr_phys _ _ Ht q')|apply Hs|done|].
    intros [= E ->]. apply Hne. subst t'. f_equal. by apply (tr_inj _ _ Ht _ _ t). }
  split; [|done|done|auto| |lia|].
  - split; [done|]. split; [|done]. destruct Ht as [Hroot Hinj Hphys Hlen Hc Hpa]. split; auto.
    intros q' t' j Hq' Hl' Hs'. specialize (Hc q' t' j Hq' Hl' Hs'). destruct (decide ((q', j) = (q, i))) as [[= -> ->]|Hne].
    + assert (t' = t) as -> by congruence. rewrite entry_put_same by done. by rewrite Hp, Hh, Ha.
    + by rewrite (Hother q') by (done || apply Hs').
  - intros a Hn. apply put_other_frame; [done|apply Hs|]. intros E. apply Hn. rewrite E. by apply (in_tables _ q).
  - intros v. unfold page_entry. destruct (tab !! path_of v) as [l1|] eqn:Hl1; [|done].
    rewrite (Hother (path_of v)); [done|done|apply idx_512|]. intros [= E _]. rewrite <- E in Hl. simpl in Hl. lia.
Qed.

Lemma user_flags fl : flags_ok fl → flags_ok (Z.lor fl USER_ACCESSIBLE) ∧
  contains (Z.lor fl USER_ACCESSIBLE) PRESENT = contains fl PRESENT ∧
  contains (Z.lor fl USER_ACCESSIBLE) HUGE_PAGE = contains fl HUGE_PAGE.
Proof.
  intros [Hu Hm]. unfold flags_ok, contains. rewrite !Z.land_lor_distr_l, Hm. split_and!; [|done|..].
  - by apply is_uint_lor.
  - by rewrite Z.lor_0_r.
  - by rewrite Z.lor_0_r.
Qed.

Lemma ensure_user_ok tab f m q t i :
  pt_inv tab f m → tab !! q = Some t → (length q < 3)%nat → slot q i → grows 0 tab f m tab f (ensure_user m t i).
Proof.
  intros Hi Hq Hl Hs. unfold ensure_user. destruct (_ && _); [|by apply grows_refl].
  destruct (user_flags (entry_flags (entry_at m t i)) (fl_ok _)) as (Hfl & Hp & Hh).
  destruct (with_flags_ok (entry_at m t i) _ Hfl) as (He & Ha & Hf).
  apply (replace_entry tab f m q t i); [done..| | |done]; unfold is_present, is_huge; by rewrite Hf.
Qed.

Lemma walk_or_panic_ok tab f m q t i :
  pt_inv tab f m → tab !! q = Some t → (length q < 3)%nat → slot q i →
  (walk_or_panic (f, m) t i = Panic ∧ frames_left f = 0) ∨
  ∃ t' tab' f' m', walk_or_panic (f, m) t i = Ret (t', (f', m')) ∧ tab' !! (q ++ [i]) = Some t' ∧ grows 1 tab f m tab' f' m'.
Proof.
  intros Hi Hq Hl Hs. unfold walk_or_panic. destruct (walk_or_create_ok tab f m q t i Hi Hq Hl Hs) as [[-> Hn]|(t' & tab' & f' & m' & -> & G)];
    cbn [mbind outcome_bind]; [by left|right]. by eexists t', tab', f', m'.
Qed.

Lemma user_map_page_cases tab f m virt phys flags :
  pt_inv tab f m → 0 ≤ virt < 2 ^ 48 → U (p4_idx virt) → phys_ok phys → flags_ok flags → contains flags PRESENT = true →
  (user_map_page p4 (f, m) virt phys flags = Panic ∧ frames_left f < 3) ∨
  ∃ e tab' f' m', user_map_page p4 (f, m) virt phys flags = Ret (f', m') ∧
    entry_addr e = phys ∧ entry_flags e = flags ∧ map_effect tab f m virt e tab' f' m'.
Proof.
  intros Hi Hr Hu Hph Hfl Hpres. pose proof (idx_512 virt) as (I4 & I3 & I2 & I1). unfold user_map_page. cbn [fst snd].
  pose proof (ensure_user_ok tab f m [] p4 (p4_idx virt) Hi (tr_root _ _ (proj1 (proj2 Hi))) ltac:(simpl; lia) (conj I4 (λ _, Hu))) as G0.
  set (m0 := ensure_user m p4 (p4_idx virt)) in *. pose proof (gr_inv _ _ _ _ _ _ _ G0) as Hi0.
  destruct (walk_or_panic_ok tab f m0 [] p4 (p4_idx virt) Hi0 (tr_root _ _ (proj1 (proj2 Hi0))) ltac:(simpl; lia) (conj I4 (λ _, Hu)))
    as [[-> Hn]|(l3 & tab1 & f1 & m1 & -> & Hl3 & G1)]; cbn [mbind outcome_bind]; [left; split; [done|lia]|].
  pose proof (grows_trans _ _ _ _ _ _ _ _ _ _ _ G0 G1) as G01. cbn [fst snd app] in *.
  set (m1' := if is_present (entry_at m0 p4 (p4_idx virt)) then ensure_user m1 l3 (p3_idx virt) else m1).
  assert (grows 0 tab1 f1 m1 tab1 f1 m1') as G1'.
  { unfold m1'. destruct (is_present _); [|apply grows_refl, (gr_inv _ _ _ _ _ _ _ G1)].
    apply (ensure_user_ok _ _ _ [p4_idx virt]); [apply (gr_inv _ _ _ _ _ _ _ G1)|done|simpl; lia|by apply slot_below]. }
  assert ((if is_present (entry_at m0 p4 (p4_idx virt)) then (f1, ensure_user m1 l3 (p3_idx virt)) else (f1, m1)) = (f1, m1')) as ->
    by (unfold m1'; by destruct (is_present _)).
  pose proof (grows_trans _ _ _ _ _ _ _ _ _ _ _ G01 G1') as G011.
  destruct (walk_or_panic_ok tab1 f1 m1' _ l3 (p3_idx virt) (gr_inv _ _ _ _ _ _ _ G1') Hl3 ltac:(simpl; lia) (slot_below _ _ _ I3))
    as [[-> Hn]|(l2 & tab2 & f2 & m2 & -> & Hl2 & G2)]; cbn [mbind outcome_bind];
    [left; split; [done|pose proof (gr_left _ _ _ _ _ _ _ G011); lia]|].
  cbn [fst snd app] in *. pose proof (grows_trans _ _ _ _ _ _ _ _ _ _ _ G011 G2) as G012.
  pose proof (ensure_user_ok tab2 f2 m2 _ l2 (p2_idx virt) (gr_inv _ _ _ _ _ _ _ G2) Hl2 ltac:(simpl; lia) (slot_below _ _ _ I2)) as G2'.
  set (m2' := ensure_user m2 l2 (p2_idx virt)) in *. pose proof (gr_inv _ _ _ _ _ _ _ G2') as Hi2.
  assert (is_present (entry_at m2' l2 (p2_idx virt)) && is_huge (entry_at m2' l2 (p2_idx virt)) = false) as ->.
  { pose proof (tr_child _ _ (proj1 (proj2 Hi2)) _ l2 (p2_idx virt) Hl2 ltac:(simpl; lia) (slot_below _ _ _ I2)) as Hc.
    destruct (is_present (entry_at m2' l2 (p2_idx virt))); [by destruct Hc as [-> _]|done]. }
  pose proof (grows_trans _ _ _ _ _ _ _ _ _ _ _ G012 G2') as G0122.
  destruct (walk_or_panic_ok tab2 f2 m2' _ l2 (p2_idx virt) Hi2 Hl2 ltac:(simpl; lia) (slot_below _ _ _ I2))
    as [[-> Hn]|(l1 & tab3 & f3 & m3 & -> & Hl1 & G3)]; cbn [mbind outcome_bind];
    [left; split; [done|pose proof (gr_left _ _ _ _ _ _ _ G0122); lia]|right].
  pose proof (grows_trans _ _ _ _ _ _ _ _ _ _ _ G0122 G3) as G. cbn [fst snd app] in *.
  destruct (make_ok phys flags Hph Hfl) as (e & -> & He & Hea & Hef). cbn [mbind outcome_bind].
  exists e. eexists tab3, f3, _. split; [done|]. split_and!; [done..|]. apply grows_map; [done..| |done].
  unfold is_present. by rewrite Hef.
Qed.

(** ** The interface of [PageTable] *)



(** *** Searching *)

(** One of the [count] pages from [b] on is mapped. *)
Definition busy m (count b : Z) : Prop := ∃ k, 0 ≤ k < count ∧ translate p4 m (b + 4096 * k) ≠ Ret None.

(** What the search from [base] gives. *)
Definition first_free m (base count : Z) (r : option Z) : Prop :=
  match r with
  | Some a => a mod 4096 = 0 ∧ base ≤ a ∧ a + 4096 * count ≤ PT_USER_MAX ∧ (∀ k, 0 ≤ k < count → translate p4 m (a + 4096 * k) = Ret None) ∧
      ∀ b, b mod 4096 = 0 → base ≤ b < a → busy m count b
  | None => ∀ b, b mod 4096 = 0 → base ≤ b → b + 4096 * count ≤ PT_USER_MAX → busy m count b
  end.

(** The loop: [rs] is the start of the run of free pages before [addr]. *)
Lemma free_range_loop_ok tab m base count fuel addr run_start run_len rs :
  tree tab m → (∀ v, 0 ≤ v < PT_USER_MAX → U (p4_idx v)) → 1 ≤ count → 0 ≤ base → rs = (if run_len =? 0 then addr else run_start) →
  rs mod 4096 = 0 → base ≤ rs → 0 ≤ run_len < count → addr = rs + 4096 * run_len → (PT_USER_MAX - addr) `div` 4096 < Z.of_nat fuel →
  addr ≤ PT_USER_MAX → (∀ k, 0 ≤ k < run_len → translate p4 m (rs + 4096 * k) = Ret None) →
  (∀ b, b mod 4096 = 0 → base ≤ b < rs → busy m count b) →
  ∃ r, free_range_loop fuel p4 m count addr run_start run_len = Ret r ∧ first_free m base count r.
Proof.
  intros Ht HU Hc Hb0. revert addr run_start run_len rs. induction fuel as [|fuel IH];
    intros addr run_start run_len rs Hrsd Hrs Hbr Hrl Ha Hf Hle Hfree Hbusy; cbn [free_range_loop]; [unfold PT_USER_MAX in *; Z.div_mod_to_equations; lia|].
  destruct (Z.leb_spec PT_USER_MAX addr) as [Hm|Hm]; [exists None; split; [done|]; intros b Hb Hge Hend; apply Hbusy; [done|lia]|].
  pose proof (translate_tree tab m addr Ht (HU addr ltac:(lia))) as Htr. rewrite Htr. cbn [mbind outcome_bind].
  assert (addr + 4096 ≤ PT_USER_MAX) as Hle' by (unfold PT_USER_MAX in *; Z.div_mod_to_equations; lia).
  assert ((PT_USER_MAX - (addr + 4096)) `div` 4096 < Z.of_nat fuel) as Hf'.
  { replace (PT_USER_MAX - (addr + 4096)) with (PT_USER_MAX - addr + (-1) * 4096) by lia. rewrite Z.div_add by lia. lia. }
  destruct (page_entry tab m addr) as [e|].
  - apply (IH (addr + 4096) (addr + 4096) 0 (addr + 4096)); [done| |lia|lia|lia|done|done|lia|].
    + rewrite Ha. Z.div_mod_to_equations. lia.
    + intros b Hb Hbb. destruct (decide (b < rs)); [apply Hbusy; [done|lia]|]. exists ((addr - b) `div` 4096).
      assert (b + 4096 * ((addr - b) `div` 4096) = addr) as -> by (rewrite Ha in *; Z.div_mod_to_equations; lia).
      split; [rewrite Ha in *; Z.div_mod_to_equations; lia|]. by rewrite Htr.
  - rewrite <- Hrsd. assert (∀ k, 0 ≤ k < run_len + 1 → translate p4 m (rs + 4096 * k) = Ret None) as Hfree'.
    { intros k Hk. destruct (decide (k = run_len)) as [->|]; [by rewrite <- Ha|]. apply Hfree. lia. }
    destruct (Z.leb_spec count (run_len + 1)).
    + exists (Some rs). split; [done|]. split_and!; [done|done|lia| |done]. intros k Hk. apply Hfree'. lia.
    + apply (IH (addr + 4096) rs (run_len + 1) rs); [|done|done|lia|lia|done|done|done|done].
      by rewrite (proj2 (Z.eqb_neq _ _)) by lia.
Qed.

(** the search for free address space answers with the first run of
    unmapped pages from the hint on that has the asked length and ends below
    the user address limit, and with none only if there is no such run. *)
Theorem find_free_range_first tab m hint count :
  tree tab m → (∀ v, 0 ≤ v < PT_USER_MAX → U (p4_idx v)) → 1 ≤ count → 0 ≤ hint → hint + 4096 ≤ PT_USER_MAX →
  ∃ r, find_free_range p4 m hint count = Ret r ∧ first_free m (4096 * ((hint + 4095) `div` 4096)) count r.
Proof.
  intros Ht HU Hc Hh Hmax. unfold find_free_range, PAGE_SIZE. rewrite add64_ok by (unfold is_uint, PT_USER_MAX in *; lia). cbn [mbind outcome_bind].
  rewrite sub64_ok by (unfold is_uint, PT_USER_MAX in *; lia). cbn [mbind outcome_bind].
  assert (Z.land (hint + 0x1000 - 1) (unot 64 (0x1000 - 1)) = 4096 * ((hint + 4095) `div` 4096)) as ->.
  { change (0x1000 - 1) with (2 ^ 12 - 1). replace (hint + 0x1000 - 1) with (hint + 4095) by lia.
    rewrite land_align_down by (unfold is_uint, PT_USER_MAX in *; lia). change (2 ^ 12) with 4096. Z.div_mod_to_equations. lia. }
  set (base := 4096 * _). assert (0 ≤ base ∧ base mod 4096 = 0 ∧ base ≤ PT_USER_MAX) as (Hb0 & Hba & Hbm).
  { unfold base, PT_USER_MAX in *. split_and!; [Z.div_mod_to_equations; lia|by rewrite Z.mul_comm, Z.mod_mul|Z.div_mod_to_equations; lia]. }
  apply (free_range_loop_ok tab m base count _ base base 0 base); try done; try lia.
Qed.

End tree.
