(* ===== verification/Exec.v ===== *)
(** * Programs in their address spaces

    The ELF loader (kernel/src/elf.rs) with the page tables of a process
    (kernel/src/task/user.rs) and the frame allocator (kernel/src/frame_alloc.rs):
    the laws the loader relies on hold of the kernel's mapper, and what a program
    then sees through its page table. The address spaces of a parent and a child,
    and the release of an address space. *)

From S2P Require Import Prelude Loop Bytes PhysMem FrameAlloc Shm Elf ElfProofs Paging PagingProofs.

(** ** The frame allocator *)

Section frames.
Context `{BuildProfile}.

Lemma owned_bound s : fa_inv s → Z.of_nat (size (owned s)) ≤ frame_count s.
Proof.
  intros Hi. assert (owned s ⊆ list_to_set (seqZ 0 (frame_count s))) as Hsub.
  { intros k Hk%elem_of_owned. apply elem_of_list_to_set, elem_of_seqZ. lia. }
  apply subseteq_size in Hsub. rewrite size_list_to_set, length_seqZ in Hsub by apply NoDup_seqZ.
  destruct Hi as (_ & _ & ? & ? & _). unfold frame_count in *. lia.
Qed.

Lemma owned_full s :
  fa_inv s → (∀ k, 0 ≤ k < frame_count s → frame_allocated s k = true) → Z.of_nat (size (owned s)) = frame_count s.
Proof.
  intros Hi Hall. assert (owned s = list_to_set (seqZ 0 (frame_count s))) as ->.
  { apply set_eq. intros k. rewrite elem_of_owned, elem_of_list_to_set, elem_of_seqZ. naive_solver lia. }
  rewrite size_list_to_set, length_seqZ by apply NoDup_seqZ.
  destruct Hi as (_ & _ & ? & ? & _). unfold frame_count in *. lia.
Qed.

#[export] Instance FrameAllocator_phys : PhysFrameLaws FrameAllocator.
Proof.
  refine {| phys_valid s := fa_inv s ∧ FRAME_REGION_END s ≤ 2 ^ 52;
            frames_left s := frame_count s - Z.of_nat (size (owned s)) |}.
  - intros s [Hi _]. exact Hi.
  - intros s [Hi _]. pose proof (owned_bound s Hi). lia.
  - intros s a [Hi Hend] (k & -> & Hk%elem_of_owned)%elem_of_map. destruct (frame_addr_inside s k Hi (proj1 Hk)) as [Hlo Hhi].
    destruct Hi as (_ & _ & _ & _ & Hpos & Hal & _). split; [lia|]. unfold frame_addr, FA_PAGE_SIZE in *.
    rewrite Z.add_mod, Hal by lia. by rewrite Z.mod_mul.
  - intros s r s' [Hi Hend] Ht. simpl in Ht. destruct (alloc_frame_cases s Hi) as [[Ha Hall]|(k & s'' & Ha & Hk & Hfree & _ & ->)].
    + assert (r = None ∧ s' = s) as [-> ->] by (split; congruence). split; [done|]. split; [|done].
      pose proof (owned_full s Hi Hall). lia.
    + rewrite Ha in Ht. injection Ht as <- <-. split; [split; [by apply fa_inv_set|done]|].
      rewrite owned_set by done. rewrite size_union, size_singleton by (apply disjoint_singleton_l; intros [_ ?]%elem_of_owned; congruence).
      unfold frame_count. simpl. lia.
  - intros s a s' [Hi Hend] (k & -> & Hk%elem_of_owned)%elem_of_map Hg. simpl in Hg.
    destruct (free_frame_inside s (frame_addr s k) Hi) as [_ Hf]; [apply frame_addr_inside; [done|apply Hk]|].
    rewrite frame_addr_index, (proj2 Hk) in Hf. rewrite Hf in Hg. injection Hg as <-. split; [|done].
    apply fa_inv_update; [done|]. apply is_uint_land_l; [done|]. apply byte_at_uint; [done|apply Hk].
Defined.

End frames.

(** ** The mapper of the kernel *)

#[export] Instance PagedFrames_laws {F} `{FrameSourceLaws F} : FrameSourceLaws (PagedFrames F).
Proof.
  refine {| fs_valid p := fs_valid (pg_frames p); frames_out p := frames_out (pg_frames p) |}.
  - intros [f c] Hv. destruct (take_ok f Hv) as (r & f' & Ht & Hv' & Hr). exists r, (mkPaged f' c).
    split; [simpl; by rewrite Ht|]. split; [done|]. by destruct r.
  - intros [f c] a Hv Ha. destruct (give_ok f a Hv Ha) as (f' & Hg & Hv' & Hout). exists (mkPaged f' c).
    split; [simpl; by rewrite Hg|done].
Defined.

Definition page_rights `{EntryFormat} (e : Z) : Z * (bool * bool) :=
  (entry_addr e, (contains (entry_flags e) WRITABLE, negb (contains (entry_flags e) NO_EXECUTE))).

Lemma loader_flags_ok w x : flags_ok (loader_flags w x) ∧ contains (loader_flags w x) PRESENT = true ∧
  contains (loader_flags w x) WRITABLE = w ∧ negb (contains (loader_flags w x) NO_EXECUTE) = x.
Proof. destruct w, x; (split; [split; [split|]|]); vm_compute; try congruence; auto. Qed.

Section mapper.
Context {F : Type} `{PhysFrameLaws F} `{EntryFormatLaws} `{BuildProfile}.
Variable U : Z → Prop. (** the entries of level 4 that belong to the process *)
Variable p4 : Z. (** its page table *)

(** The page tables of the process map the pages as [σ] says. *)
Definition shows (m : memory_map) (tab : gmap (list Z) Z) (σ : Z → option (Z * (bool * bool))) : Prop :=
  ∀ v, 0 ≤ v < 2 ^ 48 → v mod 4096 = 0 → U (p4_idx v) → σ v = page_rights <$> page_entry tab m v.

Instance kernel_mapper_laws : PageMapperLaws (PagedFrames F).
Proof.
  refine {|
    pm_inv T σ f m := ∃ tab, pg_cr3 f = p4 ∧ pt_inv U p4 tab (pg_frames f) m ∧ T = tables tab ∧ shows m tab σ;
    pm_dom v := 0 ≤ v < 2 ^ 48 ∧ v mod 4096 = 0 ∧ U (p4_idx v);
    pm_left f := frames_left (pg_frames f) |}.
  - intros T σ f m (tab & _ & (Hv & _ & Hsub) & -> & _). split; [exact (phys_fs (pg_frames f) Hv)|]. split; [done|exact (left_pos (pg_frames f) Hv)].
  - intros T σ f m a (tab & _ & (Hv & _) & _) Ha. by apply (phys_frame (pg_frames f) a Hv Ha).
  - intros T σ f m m' (tab & Hc & (Hv & Ht & Hsub) & -> & Hσ) Heq. exists tab. split; [done|]. split; [|split; [done|]].
    + split; [done|]. split; [by apply (tree_stable _ _ _ m)|done].
    + intros v Hr Ha Hu. rewrite (page_entry_stable U p4 tab m m') by done. auto.
  - intros T σ [f c] m r f' (tab & Hc & (Hv & Ht & Hsub) & -> & Hσ) Htk. cbn in Htk.
    destruct (take_ok f (phys_fs f Hv)) as (r' & f1 & Htk' & _ & Hr). rewrite Htk' in Htk. injection Htk as <- <-.
    destruct (phys_take f r' f1 Hv Htk') as [Hv1 Hl]. split; [|destruct r'; [done|apply Hl]].
    exists tab. split; [done|]. split; [|done]. split; [done|]. split; [done|]. cbn in *. destruct r'; [destruct Hr as [_ ->]; set_solver|by rewrite Hr].
  - intros T σ [f c] m v p w x (tab & Hc & Hi & -> & Hσ) (Hr & Ha & Hu) Hp HpT. cbn in *. subst c.
    destruct (loader_flags_ok w x) as (Hfl & Hpr & Hw & Hx).
    destruct (user_map_page_cases U p4 tab f m v p (loader_flags w x) Hi Hr Hu (phys_frame f p (proj1 Hi) Hp) Hfl Hpr)
      as [[Hpanic Hl]|(e & tab' & f' & m' & Hmap & Hea & Hef & Hi' & Hout & Htt & Hfresh & Hmem & Hl & Hpage)].
    + left. split; [|done]. unfold map_page, PagedFrames_mapper. cbn [pg_frames pg_cr3 fst snd]. unfold memory_map in *. by rewrite Hpanic.
    + right. exists (tables tab'), (mkPaged f' p4), m'. split; [unfold map_page, PagedFrames_mapper; cbn [pg_frames pg_cr3 fst snd]; unfold memory_map in *; by rewrite Hmap|].
      split; [|by split_and!; auto using tables_mono]. exists tab'. split; [done|]. split; [done|]. split; [done|]. intros u Hur Hua Huu. rewrite Hpage by done.
      rewrite (frame_of_unique u u), (frame_of_unique v v) by lia. destruct (decide (u = v)) as [->|Hne]; [|by apply Hσ].
      simpl. unfold page_rights. by rewrite Hea, Hef, Hw, Hx.
Defined.

#[local] Existing Instance kernel_mapper_laws.

(** A page that the mapper shows is what the page table translates to. *)
Lemma shows_translate tab (f : F) m σ v p r :
  pt_inv U p4 tab f m → shows m tab σ → 0 ≤ v < 2 ^ 48 → U (p4_idx v) → σ (frame_of v) = Some (p, r) →
  translate p4 m v = Ret (Some (p + v mod 4096)) ∧ ∃ e, page_entry tab m v = Some e ∧ page_rights e = (p, r).
Proof.
  intros (_ & Ht & _) Hσ Hr Hu Hv. pose proof (frame_of_bounds v) as [Hb Hm].
  assert (0 ≤ frame_of v) by (unfold frame_of; pose proof (Z.mod_le v 4096); lia).
  assert (path_of (frame_of v) = path_of v ∧ p1_idx (frame_of v) = p1_idx v) as [Hp Hi].
  { apply same_page; [lia|lia|]. by apply frame_of_unique; [|lia]. }
  assert (page_entry tab m (frame_of v) = page_entry tab m v) as Hpe by (unfold page_entry; by rewrite Hp, Hi).
  rewrite (Hσ (frame_of v)), Hpe in Hv; [|lia|done|by injection Hp as -> _ _].
  rewrite (translate_tree U p4 tab m v Ht Hu). destruct (page_entry tab m v) as [e|]; [|done].
  simpl in Hv. injection Hv as <- <-. split; [done|]. by exists e.
Qed.

(** With four free frames for each of its pages, a statically linked
    program is loaded, and its page table then translates every address of
    every segment and of the stack to a fresh frame that holds the byte of the
    file (zero past the file data, and in the stack), with the rights of the
    segment in the entry of the page; the page tables stay well formed, and no
    byte of a data frame in use before the load changes. *)
Lemma load_program (f : F) m tab bytes h phs :
  static_program bytes h phs →
  Forall (λ v, 0 ≤ v < 2 ^ 48 ∧ U (p4_idx v)) (all_pages phs ++ stack_pages) →
  pt_inv U p4 tab f m → 4 * len (all_pages phs ++ stack_pages) ≤ frames_left f →
  ∃ st tab', load_elf (mkLoader (mkPaged f p4) m [] []) bytes =
      Ret (Ok (mkLoadResult (entry h) 0x800000000000 None (e_type h) 0x7FFFFFFFF000), st) ∧
    pt_inv U p4 tab' (pg_frames (ld_frames st)) (memory st) ∧
    (∀ a, frame_of a ∈ frames_out f → (frame_of a ∉ tables tab) → memory st a = m a) ∧
    (∀ ph v, ph ∈ phs → p_type ph = PT_LOAD → p_vaddr ph ≤ v < p_vaddr ph + p_memsz ph →
       ∃ p e, translate p4 (memory st) v = Ret (Some (p + v mod 4096)) ∧ (p ∉ frames_out f) ∧
         memory st (p + v mod 4096) = seg_byte bytes ph v ∧
         page_entry tab' (memory st) v = Some e ∧ page_rights e = (p, rights ph)) ∧
    (∀ v, STACK_VIRT_BASE ≤ v < 0x800000000000 →
       ∃ p e, translate p4 (memory st) v = Ret (Some (p + v mod 4096)) ∧ (p ∉ frames_out f) ∧
         memory st (p + v mod 4096) = 0 ∧
         page_entry tab' (memory st) v = Some e ∧ page_rights e = (p, (true, false))).
Proof.
  intros Hsp Hdom Hi Hleft.
  assert (Forall pm_dom (all_pages phs ++ stack_pages)) as Hdom'.
  { rewrite list.Forall_forall in Hdom |- *. intros v Hv. destruct (Hdom v Hv) as [Hr Hu]. split; [done|]. split; [|done].
    apply (program_page_aligned bytes h phs v Hsp Hv). }
  pose (σ := λ v, page_rights <$> page_entry tab m v).
  assert (pm_inv (tables tab) σ (mkPaged f p4) m) as Hpm by (exists tab; split_and!; [done..|]; by intros v _ _ _).
  assert (∀ v, frame_of v ∈ all_pages phs ++ stack_pages → 0 ≤ v < 2 ^ 48 ∧ U (p4_idx v)) as Hin.
  { intros v Hv. rewrite list.Forall_forall in Hdom. destruct (Hdom _ Hv) as [Hr Hu]. pose proof (frame_of_bounds v) as [Hb Hm].
    assert (0 ≤ v < 2 ^ 48) as Hvr by (change (2 ^ 48) with (4096 * 2 ^ 36) in *; pose proof (Z.div_mod (frame_of v) 4096); lia).
    split; [done|]. assert (path_of (frame_of v) = path_of v) as [= <- _ _]; [|done].
    apply same_page; [lia|done|]. by apply frame_of_unique; [|lia]. }
  destruct (load_image (mkPaged f p4) (tables tab) σ m bytes h phs Hsp Hdom' Hpm)
    as [[_ ?]|(r & st & T' & σ' & Hload & (tab' & _ & Hi' & -> & Hσ') & Hold & Hcase)]; [cbn in *; lia|].
  destruct Hcase as [[_ ?]|(-> & Hseg & Hstk & _)]; [cbn in *; lia|]. exists st, tab'. split_and!; [done|done|done|..].
  - intros ph v Hph Ht Hv. destruct (Hseg ph v Hph Ht Hv) as (p & Hp & Hm & Hf).
    destruct (Hin v) as [Hr Hu].
    { apply elem_of_app. left. apply all_pages_elem. exists ph. split; [done|]. apply (page_of_segment bytes); [|done..].
      destruct Hsp as [_ _ _ _ Hl _ _]. eapply list.Forall_forall in Hl; eauto. }
    destruct (shows_translate tab' _ _ σ' v p _ Hi' Hσ' Hr Hu Hp) as (Htr & e & He & Hrt). by exists p, e.
  - intros v Hv. destruct (Hstk v Hv) as (p & Hp & Hm & Hf). destruct (stack_page_of v Hv) as (k & Hk & Hfr).
    destruct (Hin v) as [Hr Hu].
    { apply elem_of_app. right. rewrite Hfr. apply list_elem_of_fmap. exists k. split; [done|]. by apply elem_of_seqZ. }
    destruct (shows_translate tab' _ _ σ' v p _ Hi' Hσ' Hr Hu Hp) as (Htr & e & He & Hrt). by exists p, e.
Qed.

End mapper.

(** ** Parent and child *)

Section spaces.
Context {F : Type} `{PhysFrameLaws F} `{EntryFormatLaws} `{BuildProfile}.
Implicit Types m : memory_map.

(** Two tables of level 4 whose entries lead to the same tables have the same
    pages. *)
Lemma reroot U pA pB tab m :
  tree U pA tab m → phys_ok pB → (pB ∉ tables tab) →
  (∀ i, U i → 0 ≤ i < 512 → is_present (entry_at m pB i) = is_present (entry_at m pA i) ∧
     is_huge (entry_at m pB i) = is_huge (entry_at m pA i) ∧ entry_addr (entry_at m pB i) = entry_addr (entry_at m pA i)) →
  tree U pB (<[[] := pB]> tab) m.
Proof.
  intros Ht Hph Hn Hag. assert (∀ q t, tab !! q = Some t → t ≠ pB) as Hne by (intros q t Hq ->; by apply Hn, (in_tables _ q)).
  split.
  - apply lookup_insert_eq.
  - intros q q' t X X'. apply lookup_insert_Some in X as [[E1 F1]|[_ X]], X' as [[E2 F2]|[_ X']].
    + congruence.
    + by destruct (Hne q' t).
    + by destruct (Hne q t).
    + by apply (tr_inj _ _ _ _ Ht _ _ t).
  - intros q t [[_ <-]|[_ X]]%lookup_insert_Some; [done|by apply (tr_phys _ _ _ _ Ht q)].
  - intros q t [[<- _]|[_ X]]%lookup_insert_Some; [simpl; lia|by apply (tr_len _ _ _ _ Ht q t)].
  - intros q t i X Hl Hs. rewrite lookup_insert_ne by (by destruct q).
    apply lookup_insert_Some in X as [[<- <-]|[Hq X]]; [|by apply (tr_child _ _ _ _ Ht)].
    destruct Hs as [Hi Hu]. destruct (Hag i (Hu eq_refl) Hi) as (-> & -> & ->).
    apply (tr_child _ _ _ _ Ht [] pA i (tr_root _ _ _ _ Ht)); [simpl; lia|done].
  - intros q i t X. rewrite lookup_insert_ne in X by (by destruct q). destruct (tr_parent _ _ _ _ Ht _ _ _ X) as [Hp Hs].
    split; [|done]. apply lookup_insert_is_Some'. by right.
Qed.

Lemma page_entry_reroot pB tab m v : page_entry (<[[] := pB]> tab) m v = page_entry tab m v.
Proof. unfold page_entry. by rewrite lookup_insert_ne by done. Qed.

Lemma collect_ok {A B} (g : A → outcome B) (P : A → B → Prop) l :
  (∀ x, x ∈ l → ∃ y, g x = Ret y ∧ P x y) → ∃ ys, collect g l = Ret ys ∧ Forall2 P l ys.
Proof.
  induction l as [|x l IH]; intros Hg; cbn [collect]; [by exists []|].
  destruct (Hg x) as (y & -> & Hy); [by left|]. destruct IH as (ys & -> & Hys); [intros z Hz; apply Hg; by right|].
  exists (y :: ys). split; [done|]. by constructor.
Qed.

(** The new table of level 4 has the entries of the current one. *)
Lemma create_ok cr3 (f : F) m :
  phys_valid f → cr3 ∈ frames_out f →
  (create_user_page_table cr3 (f, m) = Ret (None, (f, m)) ∧ frames_left f = 0) ∨
  ∃ child f1 m1, create_user_page_table cr3 (f, m) = Ret (Some child, (f1, m1)) ∧ frames_left f = frames_left f1 + 1 ∧
  phys_valid f1 ∧ phys_ok child ∧ (child ∉ frames_out f) ∧ frames_out f1 = {[child]} ∪ frames_out f ∧
  (∀ a, frame_of a ≠ child → m1 a = m a) ∧
  ∀ i, 0 ≤ i < 512 → entry_addr (entry_at m1 child i) = entry_addr (entry_at m cr3 i) ∧
    entry_flags (entry_at m1 child i) = entry_flags (entry_at m cr3 i).
Proof.
  intros Hv Hc. unfold create_user_page_table. cbn [fst snd].
  destruct (take_ok f (phys_fs f Hv)) as (r & f' & Ht & _ & Hr). rewrite Ht. cbn [mbind outcome_bind].
  destruct (phys_take f r f' Hv Ht) as [Hv' Hl]. destruct r as [c|]; [right|left; by destruct Hl as [? ->]].
  destruct Hr as [Hnew Hout].
  assert (phys_ok c) as Hpc by (apply (phys_frame f'); [done|set_solver]). destruct (phys_frame f cr3 Hv Hc) as [_ Hca].
  destruct empty_ok as (em & Hem). rewrite (proj1 Hem). cbn [mbind outcome_bind].
  set (m' := write_words m c (replicate 512 em)).
  destruct (collect_ok (λ i, make_entry (entry_addr (entry_at m' cr3 i)) (entry_flags (entry_at m' cr3 i)))
    (λ i e, is_uint 64 e ∧ entry_addr e = entry_addr (entry_at m' cr3 i) ∧ entry_flags e = entry_flags (entry_at m' cr3 i)) (seqZ 0 512))
    as (es & -> & Hes).
  { intros i _. destruct (make_ok _ _ (addr_ok (entry_at m' cr3 i)) (fl_ok (entry_at m' cr3 i))) as (e & ? & ? & ? & ?). eauto. }
  cbn [mbind outcome_bind]. eexists c, f', _. split; [done|]. assert (len es = 512) as Hlen.
  { apply Forall2_length in Hes. rewrite length_seqZ in Hes. unfold len. lia. }
  assert (∀ a, frame_of a ≠ c → m' a = m a) as Hm' by (intros a Ha; by apply words_other_frame; [apply Hpc|..]).
  split_and!; [done..| |].
  - intros a Ha. rewrite words_other_frame by (apply Hpc || done). by apply Hm'.
  - intros i Hi. destruct (Forall2_lookup_l _ _ _ (Z.to_nat i) i Hes) as (e & He & Hu & Ha & Hf).
    { apply lookup_seqZ. lia. }
    assert (entry_at (write_words m' c es) c i = e) as -> by (apply read_write_words; [lia|done..]).
    rewrite Ha, Hf, (entry_frame_eq m m' cr3 i); [done|done|done|]. intros a E. apply Hm'. rewrite E. set_solver.
Qed.

(** The page table of a new process: the tables of its creator under a table of
    level 4 of its own. *)
Lemma create_space U p4 tab (f : F) m child f1 m1 :
  pt_inv U p4 tab f m → create_user_page_table p4 (f, m) = Ret (Some child, (f1, m1)) →
  pt_inv U child (<[[] := child]> tab) f1 m1 ∧ phys_ok child ∧ (child ∉ frames_out f) ∧ frames_out f1 = {[child]} ∪ frames_out f ∧
  frames_left f = frames_left f1 + 1 ∧ (∀ a, frame_of a ≠ child → m1 a = m a) ∧ p4 ∈ frames_out f.
Proof.
  intros (Hv & Ht & Hsub) Hcr.
  assert (p4 ∈ frames_out f) as Hp4 by (apply Hsub, (in_tables _ []), (tr_root _ _ _ _ Ht)).
  destruct (create_ok p4 f m Hv Hp4) as [[Hcr' _]|(child' & f1' & m1' & Hcr' & Hl & Hv1 & Hpc & Hnew & Hout & Hmem & Hent)];
    [congruence|]. rewrite Hcr in Hcr'. injection Hcr' as <- <- <-. split_and!; [|done..].
  destruct (phys_frame f p4 Hv Hp4) as [? Hp4a].
  assert (tree U p4 tab m1) as Ht1 by (apply (tree_stable _ _ _ m); [done|]; intros a Ha; apply Hmem; set_solver).
  split; [done|]. split.
  - apply (reroot U p4); [done|done|set_solver|]. intros i _ Hi. destruct (Hent i Hi) as [Ha Hf]. unfold is_present, is_huge.
    rewrite Ha, Hf, (entry_frame_eq m m1 p4 i); [done|done|done|]. intros a E. apply Hmem. rewrite E. set_solver.
  - intros t [q [[_ <-]|[_ X]]%lookup_insert_Some]%elem_of_map_img; [set_solver|]. rewrite Hout. apply elem_of_union_r, Hsub.
    by apply (in_tables _ q).
Qed.


Lemma for_each_skip {S} (body : Z → S → outcome S) l s : (∀ i, i ∈ l → body i s = Ret s) → for_each body l s = Ret s.
Proof.
  induction l as [|i l IH]; intros Hb; cbn [for_each]; [done|]. rewrite Hb by by left. cbn [mbind outcome_bind].
  apply IH. intros j Hj. apply Hb. by right.
Qed.

(** When a task exits its own page table is still the one in CR3, so that every
    entry of it counts as shared with the kernel: the release gives back the
    table of level 4, which is in use, and no other table or page. *)
Lemma free_own_table U p4 tab (f : F) m :
  pt_inv U p4 tab f m → (∀ i, 0 ≤ i < 256 → U i) →
  ∃ f', free_user_page_table p4 m p4 f = Ret f' ∧ frames_out f' = frames_out f ∖ {[p4]}.
Proof.
  intros (Hv & Ht & Hsub) HU. unfold free_user_page_table. rewrite for_each_skip.
  - cbn [mbind outcome_bind]. destruct (give_ok f p4 (phys_fs f Hv)) as (f' & -> & _ & Hout); [|eauto].
    apply Hsub, (in_tables _ []), (tr_root _ _ _ _ Ht).
  - intros i Hi%elem_of_seqZ. assert (0 ≤ i < 512) as Hi' by lia.
    pose proof (walk_down U p4 tab m [] p4 i Ht (tr_root _ _ _ _ Ht) ltac:(simpl; lia) (conj Hi' (λ _, HU i Hi))) as Hw.
    destruct (is_present _) eqn:Hp; cbn [negb]; [|done]. destruct Hw as (_ & -> & _). cbn [mbind outcome_bind].
    by rewrite Z.eqb_refl.
Qed.

End spaces.

(** ** The entries of the x86_64 crate *)

#[local] Instance x86_entry : EntryFormat := {|
  entry_addr e := Z.land e ADDR_MASK;
  entry_flags e := Z.ldiff (e mod 2 ^ 64) ADDR_MASK;
  entry_frame e := if contains e PRESENT && negb (contains e HUGE_PAGE) then Some (Z.land e ADDR_MASK) else None;
  make_entry a fl := if (0 <=? a) && (a <? 2 ^ 52) && (a mod 4096 =? 0) then Ret (Z.lor a fl) else Panic;
  with_flags e fl := Z.lor (Z.land e ADDR_MASK) fl;
|}.

Lemma mask_phys e : phys_ok (Z.land e ADDR_MASK).
Proof.
  split.
  - split; [apply Z.land_nonneg; right; done|]. apply Z.le_lt_trans with ADDR_MASK; [|done].
    apply Z.ldiff_le; [done|]. apply Z.bits_inj'. intros n Hn. rewrite Z.ldiff_spec, Z.land_spec, Z.bits_0.
    by destruct (Z.testbit e n), (Z.testbit ADDR_MASK n).
  - change 4096 with (2 ^ 12). rewrite <- land_mask by lia. rewrite <- Z.land_assoc. by rewrite (eq_refl : Z.land ADDR_MASK (2 ^ 12 - 1) = 0), Z.land_0_r.
Qed.

Lemma phys_masked a : phys_ok a → Z.land a ADDR_MASK = a.
Proof.
  intros [Hr Ha]. assert (a = Z.shiftl (a `div` 4096) 12) as ->.
  { rewrite Z.shiftl_mul_pow2 by lia. pose proof (Z.div_mod a 4096). lia. }
  change ADDR_MASK with (Z.shiftl (2 ^ 40 - 1) 12). rewrite <- Z.shiftl_land, land_mask by lia. f_equal. apply Z.mod_small.
  split; [apply Z.div_pos; lia|apply Z.div_lt_upper_bound; lia].
Qed.

Lemma entry_parts a fl : phys_ok a → flags_ok fl →
  is_uint 64 (Z.lor a fl) ∧ Z.land (Z.lor a fl) ADDR_MASK = a ∧ Z.ldiff (Z.lor a fl) ADDR_MASK = fl.
Proof.
  intros Ha [Hu Hm]. pose proof (phys_masked a Ha) as Hpm. assert (is_uint 64 a) as Hau by (destruct Ha; unfold is_uint; lia).
  split_and!; [by apply is_uint_lor|by rewrite Z.land_lor_distr_l, Hpm, Hm, Z.lor_0_r|].
  apply Z.bits_inj'. intros n Hn. rewrite Z.ldiff_spec, Z.lor_spec.
  apply (f_equal (λ x, Z.testbit x n)) in Hpm, Hm. rewrite Z.land_spec in Hpm, Hm. rewrite Z.bits_0 in Hm.
  by destruct (Z.testbit a n), (Z.testbit fl n), (Z.testbit ADDR_MASK n).
Qed.

#[local] Instance x86_entry_laws : EntryFormatLaws.
Proof.
  split.
  - intros a fl Ha Hfl. exists (Z.lor a fl). destruct (entry_parts a fl Ha Hfl) as (Hu & Hla & Hlf). destruct Ha as [Hr Hal].
    simpl. rewrite (proj2 (Z.leb_le _ _)), (proj2 (Z.ltb_lt _ _)), Hal by lia. split_and!; [done..|].
    by rewrite Z.mod_small.
  - intros e. apply mask_phys.
  - intros e. pose proof (Z.mod_pos_bound e (2 ^ 64)). cbn [entry_flags x86_entry]. split.
    + split; [apply Z.ldiff_nonneg; left; lia|]. apply Z.le_lt_trans with (e mod 2 ^ 64); [|lia].
      apply Z.ldiff_le; [lia|]. apply Z.bits_inj'. intros n Hn. rewrite !Z.ldiff_spec, Z.bits_0.
      by destruct (Z.testbit (e mod 2 ^ 64) n), (Z.testbit ADDR_MASK n).
    + apply Z.bits_inj'. intros n Hn. rewrite Z.land_spec, Z.ldiff_spec, Z.bits_0. by destruct (Z.testbit _ n), (Z.testbit ADDR_MASK n).
  - intros e Hp Hh. simpl. assert (∀ bit, is_uint 12 bit → contains e bit = contains (Z.ldiff (e mod 2 ^ 64) ADDR_MASK) bit) as Hc.
    { intros bit Hb. unfold contains. f_equal. apply Z.bits_inj'. intros n Hn. rewrite !Z.land_spec, Z.ldiff_spec.
      destruct (decide (n < 12)) as [Hlt|Hge].
      - rewrite Z.mod_pow2_bits_low by lia. assert (Z.testbit ADDR_MASK n = false) as ->; [|by rewrite andb_true_r].
        assert (n = 0 ∨ n = 1 ∨ n = 2 ∨ n = 3 ∨ n = 4 ∨ n = 5 ∨ n = 6 ∨ n = 7 ∨ n = 8 ∨ n = 9 ∨ n = 10 ∨ n = 11) as Hn' by lia.
        by repeat destruct Hn' as [->|Hn']; [..|subst n].
      - assert (Z.testbit bit n = false) as ->; [|by rewrite !andb_false_r].
        apply (testbit_above 12); [done|lia]. }
    rewrite !Hc by (split; vm_compute; congruence). unfold is_present, is_huge in *. simpl in *. by rewrite Hp, Hh.
  - intros e fl Hfl. destruct (entry_parts (Z.land e ADDR_MASK) fl (mask_phys e) Hfl) as (Hu & Hla & Hlf). simpl.
    split_and!; [done..|]. by rewrite Z.mod_small.
Qed.

(** ** Concrete runs *)

#[local] Existing Instance dev_profile.

(** Frames from 0x2000000 on, 8 for each of the bytes of [used], which has a bit
    for every frame in use. *)
Definition elf_frames (used : list Z) : FrameAllocator :=
  mkFrameAllocator 0x02000000 (0x02000000 + len used * 0x8000) (used ++ replicate (1024 - length used) 0) (len used) (len used * 8) true.

Lemma elf_frames_valid used : Forall (is_uint 8) used → (length used ≤ 8)%nat → phys_valid (elf_frames used).
Proof.
  intros Hu Hl. unfold len in *. split.
  - unfold fa_inv, elf_frames, MAX_BITMAP_BYTES, FA_PAGE_SIZE, len. cbn [BITMAP BITMAP_LEN TOTAL_FRAMES_COUNT FRAME_REGION_START FRAME_REGION_END].
    rewrite length_app, length_replicate. split_and!; try lia; [|done]. apply Forall_app_2; [done|]. by apply Forall_replicate.
  - unfold elf_frames. cbn [FRAME_REGION_END]. unfold len. lia.
Qed.

(** An address space without pages: its table of level 4 is in the first frame. *)
Definition zero_memory : memory_map := λ _, 0.
Definition P4 : Z := 0x02000000.
Definition no_pages : gmap (list Z) Z := {[ [] := P4 ]}.

Lemma zero_entry (t i : Z) : entry_at zero_memory t i = 0.
Proof. unfold entry_at. by rewrite (read64_list _ _ (replicate 8 0)); [|done|intros j Hj; rewrite lookup_replicate_2 by lia]. Qed.

Lemma no_pages_ok U used : Forall (is_uint 8) used → (length used ≤ 8)%nat → P4 ∈ frames_out (elf_frames used) →
  pt_inv U P4 no_pages (elf_frames used) zero_memory.
Proof.
  intros Hu Hl Hp. unfold no_pages. split; [by apply elf_frames_valid|]. split.
  - split.
    + done.
    + intros q q' t [<- _]%lookup_singleton_Some [<- _]%lookup_singleton_Some. done.
    + intros q t [_ <-]%lookup_singleton_Some. split; vm_compute; split; congruence.
    + intros q t [<- _]%lookup_singleton_Some. simpl. lia.
    + intros q t i [<- _]%lookup_singleton_Some _ _. rewrite zero_entry. assert (is_present 0 = false) as -> by (vm_compute; reflexivity). by apply lookup_singleton_ne.
    + intros q i t [E _]%lookup_singleton_Some. by destruct q.
  - intros t [q [_ <-]%lookup_singleton_Some]%elem_of_map_img. done.
Qed.

Definition user_half (i : Z) : Prop := 0 ≤ i < 256.

Lemma demo_space_in U : pt_inv U P4 no_pages (elf_frames [1; 0; 0; 0]) zero_memory.
Proof.
  apply no_pages_ok; [by repeat constructor|simpl; lia|]. apply elem_of_map. exists 0. split; [done|].
  apply (bool_decide_unpack _). vm_compute. exact I.
Qed.

Lemma demo_space : pt_inv user_half P4 no_pages (elf_frames [1; 0; 0; 0]) zero_memory.
Proof. apply demo_space_in. Qed.


(** The address space with one page. *)
Lemma demo_page_in (U : Z → Prop) : U 0 → ∃ (f : FrameAllocator) m tab,
  pt_inv U P4 tab f m ∧ translate P4 m 0x400000 = Ret (Some 0x02008000) ∧ 28 ≤ frames_left f ∧ is_present (entry_at m P4 0) = true.
Proof.
  intros HU. destruct (map_page_cases U P4 no_pages _ _ 0x400000 0x02008000 (loader_flags true false) (demo_space_in U))
    as (r & tab & f & m & Hr & Hcase); [split; vm_compute; congruence|done|exact HU|
      split; [split|]; vm_compute; congruence|apply loader_flags_ok|done|].
  assert (fst <$> map_page_at P4 (elf_frames [1; 0; 0; 0], zero_memory) 0x400000 0x02008000 (loader_flags true false) = Ret (Ok tt)) as Hok
    by (vm_compute; reflexivity).
  rewrite Hr in Hok. injection Hok as ->. destruct Hcase as (_ & e & Ha & _ & (Hi & _ & _ & _ & _ & Hl & Hp)).
  assert (page_entry tab m 0x400000 = Some e) as He by (rewrite Hp, decide_True; [done|done|split; vm_compute; congruence]).
  pose proof (proj1 (proj2 Hi)) as Ht. exists f, m, tab. split; [done|]. split_and!.
  - rewrite (translate_tree U P4 tab m), He, Ha; [done|done|exact HU].
  - assert (frames_left (elf_frames [1; 0; 0; 0]) = 31) as E by (vm_compute; reflexivity). lia.
  - unfold page_entry in He. destruct (tab !! path_of 0x400000) as [l1|] eqn:Hl1; [|done].
    destruct (path_tables U P4 tab m _ l1 Ht Hl1) as (l3 & _ & Hl3 & _).
    apply (entry_of_child U P4 tab m [] P4 0 l3 Ht (tr_root _ _ _ _ Ht) Hl3).
Qed.


Lemma find_free_range_first_witness : ∃ r, find_free_range P4 zero_memory 0x1234 2 = Ret r ∧ first_free P4 zero_memory 0x2000 2 r.
Proof.
  apply (find_free_range_first (λ _, True) P4 no_pages zero_memory 0x1234 2).
  - apply (demo_space_in (λ _, True)).
  - done.
  - vm_compute. congruence.
  - vm_compute. congruence.
  - vm_compute. congruence.
Defined.

(** A program of one read-execute segment of three bytes at 0x400000, with a
    page of zeroes after it. *)
Definition sample_header : list Z :=
  [0x7f; 69; 76; 70; 2; 1; 1; 0; 0; 0; 0; 0; 0; 0; 0; 0] ++ [2; 0; 62; 0; 1; 0; 0; 0] ++ le_bytes 8 0x400000 ++ le_bytes 8 64 ++
  le_bytes 8 0 ++ [0; 0; 0; 0; 64; 0; 56; 0] ++ le_bytes 2 1 ++ [0; 0; 0; 0; 0; 0].
Definition sample_ph : ProgramHeader := mkProgramHeader PT_LOAD 5 120 0x400000 3 0x1003.
Definition sample_program : list Z :=
  sample_header ++ le_bytes 4 1 ++ le_bytes 4 5 ++ le_bytes 8 120 ++ le_bytes 8 0x400000 ++ le_bytes 8 0x400000 ++
  le_bytes 8 3 ++ le_bytes 8 0x1003 ++ le_bytes 8 0x1000 ++ [0x90; 0x0F; 0x05].

Lemma sample_static : static_program sample_program (mkElfHeader 0x400000 64 1 ET_EXEC) [sample_ph].
Proof.
  split.
  - vm_compute. split; congruence.
  - vm_compute. reflexivity.
  - reflexivity.
  - intros [|[|j]] ph Hj; [|done..]. injection Hj as <-. vm_compute. reflexivity.
  - apply list.Forall_singleton. intros _. unfold seg_ok. vm_compute. split_and!; congruence.
  - apply list.Forall_singleton. done.
  - apply (bool_decide_unpack _). vm_compute. exact I.
Qed.

Definition first_slot (i : Z) : Prop := i = 0.


(** A page of data for address 0x400010. *)
Definition skewed_ph : ProgramHeader := mkProgramHeader PT_LOAD 5 0 0x400010 4096 4096.

Lemma elf_page_overrun_witness :
  ∃ st', load_page (mkLoader (mkPaged (elf_frames [5; 0]) P4) zero_memory [] []) (replicate 4096 0x90) skewed_ph (start_page skewed_ph) =
      Ret (Ok tt, st') ∧ memory st' 0x02002000 = 0x90.
Proof.
  pose (F0 := mkPaged (elf_frames [5; 0]) P4).
  assert (pt_inv user_half P4 no_pages (elf_frames [5; 0]) zero_memory) as Hi.
  { apply no_pages_ok; [by repeat constructor|simpl; lia|]. apply elem_of_map. exists 0. split; [done|].
    apply (bool_decide_unpack _). vm_compute. exact I. }
  destruct (take_frame F0) as [[r f]|] eqn:Ht; [|by vm_compute in Ht].
  assert (r = Some 0x02001000 ∧ frames_left (pg_frames f) = 13) as [-> Hl].
  { assert (match take_frame F0 with Ret (r, f) => (r, frames_left (pg_frames f)) | Panic => (None, 0) end = (Some 0x02001000, 13)) as E
      by (vm_compute; reflexivity). rewrite Ht in E. split; congruence. }
  destruct (elf_page_overrun (H2 := kernel_mapper_laws user_half P4) (mkLoader F0 zero_memory [] []) (tables no_pages)
    (λ v, page_rights <$> page_entry no_pages zero_memory v) (replicate 4096 0x90) skewed_ph 0x02001000 f) as (st' & Hload & Hm).
  - exists no_pages. split; [reflexivity|]. split; [exact Hi|]. split; [reflexivity|]. intros v _ _ _. reflexivity.
  - split; [split; vm_compute; congruence|]. split; [reflexivity|split; vm_compute; congruence].
  - exact Ht.
  - change (3 ≤ frames_left (pg_frames f)). rewrite Hl. lia.
  - apply elem_of_map. exists 2. split; [reflexivity|]. apply (bool_decide_unpack _). vm_compute. exact I.
  - unfold no_pages. intros [q [_ E]%lookup_singleton_Some]%elem_of_map_img. discriminate E.
  - split; vm_compute; congruence.
  - split; vm_compute; congruence.
  - vm_compute. congruence.
  - vm_compute. congruence.
  - vm_compute. congruence.
  - exists st'. split; [exact Hload|]. apply (Hm 0). split; vm_compute; congruence.
Defined.
