(* ===== verification/Sched.v ===== *)
(** * The scheduler (kernel/src/task/scheduler.rs, kernel/src/task/task.rs)

    Run queues of eight CPUs, the queues of blocked and migrating tasks, and the
    operations on them. Each function runs as one step; the CPU it runs on and
    the page table register of that CPU are arguments. The running task of a CPU
    stays in its ready queue, as in the code. Log messages are not modelled. *)

From stdpp Require Import strings.
From S2P Require Import Prelude Bytes RustStr PhysMem Handle FrameAlloc Shm FileLock Signal Elf Paging.

Definition MAX_CPUS : Z := 8.
Definition MAX_TASKS : Z := 256.
Definition SCHED_IPI_VECTOR : Z := 0x40.

(** ** Tasks *)

Inductive TaskState : Type := Ready | Running | Blocked | Terminated.

Record SavedContext : Type := mkContext {
  r9 : Z; r8 : Z; rdx : Z; rsi : Z; rdi : Z; rax : Z; r15 : Z; r14 : Z; r13 : Z; r12 : Z; rbx : Z; rbp : Z;
  r11 : Z; rcx : Z; rsp : Z; is_kernel : Z; cr3 : Z;
}.

Definition SavedContext_new : SavedContext := mkContext 0 0 0 0 0 0 0 0 0 0 0 0 0 0 0 0 0.
Definition user_mode (entry stack_top table : Z) : SavedContext :=
  mkContext 0 0 0 0 0 0 0 0 0 0 0 0 0x202 entry stack_top 0 table.
Definition kernel_mode (entry stack_top : Z) : SavedContext :=
  mkContext 0 0 0 0 0 0 0 0 0 0 0 0 0x202 entry stack_top 1 0.
Definition with_cr3 (c : SavedContext) (table : Z) : SavedContext :=
  mkContext (r9 c) (r8 c) (rdx c) (rsi c) (rdi c) (rax c) (r15 c) (r14 c) (r13 c) (r12 c) (rbx c) (rbp c)
    (r11 c) (rcx c) (rsp c) (is_kernel c) table.

(** The fields that scheduling and the process calls use; a task also carries
    its files, sockets, memory areas and environment. *)
Record Task : Type := mkTask {
  id : Z;
  name : list Z;
  state : TaskState;
  priority : Z;
  handle_table : HandleTable;
  context : option SavedContext;
  parent_id : option Z;
  exit_status : option Z;
  page_table : option Z;
  signal_state : SignalState;
  pgid : Z;
  sid : Z;
  namespace : gmap (list Z) Handle;
}.

Definition set_state (t : Task) (x : TaskState) : Task :=
  mkTask (id t) (name t) x (priority t) (handle_table t) (context t) (parent_id t) (exit_status t) (page_table t) (signal_state t) (pgid t) (sid t) (namespace t).
Definition set_name (t : Task) (x : list Z) : Task :=
  mkTask (id t) x (state t) (priority t) (handle_table t) (context t) (parent_id t) (exit_status t) (page_table t) (signal_state t) (pgid t) (sid t) (namespace t).
Definition set_priority (t : Task) (x : Z) : Task :=
  mkTask (id t) (name t) (state t) x (handle_table t) (context t) (parent_id t) (exit_status t) (page_table t) (signal_state t) (pgid t) (sid t) (namespace t).
Definition set_handle_table (t : Task) (x : HandleTable) : Task :=
  mkTask (id t) (name t) (state t) (priority t) x (context t) (parent_id t) (exit_status t) (page_table t) (signal_state t) (pgid t) (sid t) (namespace t).
Definition set_context (t : Task) (x : option SavedContext) : Task :=
  mkTask (id t) (name t) (state t) (priority t) (handle_table t) x (parent_id t) (exit_status t) (page_table t) (signal_state t) (pgid t) (sid t) (namespace t).
Definition set_parent_id (t : Task) (x : option Z) : Task :=
  mkTask (id t) (name t) (state t) (priority t) (handle_table t) (context t) x (exit_status t) (page_table t) (signal_state t) (pgid t) (sid t) (namespace t).
Definition set_exit_status (t : Task) (x : option Z) : Task :=
  mkTask (id t) (name t) (state t) (priority t) (handle_table t) (context t) (parent_id t) x (page_table t) (signal_state t) (pgid t) (sid t) (namespace t).
Definition set_page_table (t : Task) (x : option Z) : Task :=
  mkTask (id t) (name t) (state t) (priority t) (handle_table t) (context t) (parent_id t) (exit_status t) x (signal_state t) (pgid t) (sid t) (namespace t).
Definition set_signal_state (t : Task) (x : SignalState) : Task :=
  mkTask (id t) (name t) (state t) (priority t) (handle_table t) (context t) (parent_id t) (exit_status t) (page_table t) x (pgid t) (sid t) (namespace t).
Definition set_pgid (t : Task) (x : Z) : Task :=
  mkTask (id t) (name t) (state t) (priority t) (handle_table t) (context t) (parent_id t) (exit_status t) (page_table t) (signal_state t) x (sid t) (namespace t).
Definition set_sid (t : Task) (x : Z) : Task :=
  mkTask (id t) (name t) (state t) (priority t) (handle_table t) (context t) (parent_id t) (exit_status t) (page_table t) (signal_state t) (pgid t) x (namespace t).

Definition set_namespace (t : Task) (x : gmap (list Z) Handle) : Task :=
  mkTask (id t) (name t) (state t) (priority t) (handle_table t) (context t) (parent_id t) (exit_status t) (page_table t) (signal_state t) (pgid t) (sid t) x.

(** ** State *)

Record CpuQueue : Type := mkCpuQueue { ready : list Task; current : option Z }.

Definition CpuQueue_new : CpuQueue := mkCpuQueue [] None.
Definition task_count (q : CpuQueue) : Z := len (ready q) + (if current q is Some _ then 1 else 0).

(** The statics of the scheduler, with [NEXT_ID] of the task identifiers, the
    local APIC identifiers of the registered CPUs, the interrupts sent, and the
    parts of the kernel that ending a task changes: file locks, frames and
    physical memory. *)
Record Sched (F : Type) : Type := mkSched {
  CPU_QUEUES : list CpuQueue;
  BLOCKED_QUEUE : list Task;
  MIGRATION_QUEUE : list Task;
  BLOCKED_CPU_MAP : gmap Z Z;
  CURRENT_TASK_ID : Z;
  TASK_NEXT_ID : Z;
  SWITCH_CONTEXT : option SavedContext;
  PERCPU_BASES : list (option Z);
  sent_ipis : list (Z * Z);
  file_locks : FileLocks;
  sc_frames : F;
  sc_memory : memory_map;
}.
Arguments mkSched {F} _ _ _ _ _ _ _ _ _ _ _ _.
Arguments CPU_QUEUES {F} _.
Arguments BLOCKED_QUEUE {F} _.
Arguments MIGRATION_QUEUE {F} _.
Arguments BLOCKED_CPU_MAP {F} _.
Arguments CURRENT_TASK_ID {F} _.
Arguments TASK_NEXT_ID {F} _.
Arguments SWITCH_CONTEXT {F} _.
Arguments PERCPU_BASES {F} _.
Arguments sent_ipis {F} _.
Arguments file_locks {F} _.
Arguments sc_frames {F} _.
Arguments sc_memory {F} _.

(** Removing the first task with an identifier: [position] and [remove]. *)
Fixpoint take_task (i : Z) (l : list Task) : option (Task * list Task) :=
  match l with
  | [] => None
  | t :: l => if id t =? i then Some (t, l) else match take_task i l with Some (x, l) => Some (x, t :: l) | None => None end
  end.

(** [iter().find(|t| t.id == i)], and the same with [iter_mut] and an update. *)
Definition find_task (i : Z) (l : list Task) : option Task := List.find (λ t, id t =? i) l.
Fixpoint update_task {R} (i : Z) (f : Task → R * Task) (l : list Task) : option (R * list Task) :=
  match l with
  | [] => None
  | t :: l =>
      if id t =? i then let '(r, t) := f t in Some (r, t :: l)
      else match update_task i f l with Some (r, l) => Some (r, t :: l) | None => None end
  end.

Section ops.
Context {F : Type} `{FrameSource F} `{EntryFormat} `{BuildProfile}.
Implicit Types s : Sched F.

Definition with_queues s (qs : list CpuQueue) : Sched F :=
  mkSched qs (BLOCKED_QUEUE s) (MIGRATION_QUEUE s) (BLOCKED_CPU_MAP s) (CURRENT_TASK_ID s) (TASK_NEXT_ID s) (SWITCH_CONTEXT s)
    (PERCPU_BASES s) (sent_ipis s) (file_locks s) (sc_frames s) (sc_memory s).
Definition with_blocked s (b : list Task) (m : gmap Z Z) : Sched F :=
  mkSched (CPU_QUEUES s) b (MIGRATION_QUEUE s) m (CURRENT_TASK_ID s) (TASK_NEXT_ID s) (SWITCH_CONTEXT s)
    (PERCPU_BASES s) (sent_ipis s) (file_locks s) (sc_frames s) (sc_memory s).
Definition with_migration s (l : list Task) : Sched F :=
  mkSched (CPU_QUEUES s) (BLOCKED_QUEUE s) l (BLOCKED_CPU_MAP s) (CURRENT_TASK_ID s) (TASK_NEXT_ID s) (SWITCH_CONTEXT s)
    (PERCPU_BASES s) (sent_ipis s) (file_locks s) (sc_frames s) (sc_memory s).
Definition with_current_id s (i : Z) : Sched F :=
  mkSched (CPU_QUEUES s) (BLOCKED_QUEUE s) (MIGRATION_QUEUE s) (BLOCKED_CPU_MAP s) i (TASK_NEXT_ID s) (SWITCH_CONTEXT s)
    (PERCPU_BASES s) (sent_ipis s) (file_locks s) (sc_frames s) (sc_memory s).
Definition with_next_id s (i : Z) : Sched F :=
  mkSched (CPU_QUEUES s) (BLOCKED_QUEUE s) (MIGRATION_QUEUE s) (BLOCKED_CPU_MAP s) (CURRENT_TASK_ID s) i (SWITCH_CONTEXT s)
    (PERCPU_BASES s) (sent_ipis s) (file_locks s) (sc_frames s) (sc_memory s).
Definition with_switch s (c : option SavedContext) : Sched F :=
  mkSched (CPU_QUEUES s) (BLOCKED_QUEUE s) (MIGRATION_QUEUE s) (BLOCKED_CPU_MAP s) (CURRENT_TASK_ID s) (TASK_NEXT_ID s) c
    (PERCPU_BASES s) (sent_ipis s) (file_locks s) (sc_frames s) (sc_memory s).
Definition with_percpu s (b : list (option Z)) : Sched F :=
  mkSched (CPU_QUEUES s) (BLOCKED_QUEUE s) (MIGRATION_QUEUE s) (BLOCKED_CPU_MAP s) (CURRENT_TASK_ID s) (TASK_NEXT_ID s) (SWITCH_CONTEXT s)
    b (sent_ipis s) (file_locks s) (sc_frames s) (sc_memory s).
Definition with_ipi s (i : Z * Z) : Sched F :=
  mkSched (CPU_QUEUES s) (BLOCKED_QUEUE s) (MIGRATION_QUEUE s) (BLOCKED_CPU_MAP s) (CURRENT_TASK_ID s) (TASK_NEXT_ID s) (SWITCH_CONTEXT s)
    (PERCPU_BASES s) (sent_ipis s ++ [i]) (file_locks s) (sc_frames s) (sc_memory s).
Definition with_locks s (l : FileLocks) : Sched F :=
  mkSched (CPU_QUEUES s) (BLOCKED_QUEUE s) (MIGRATION_QUEUE s) (BLOCKED_CPU_MAP s) (CURRENT_TASK_ID s) (TASK_NEXT_ID s) (SWITCH_CONTEXT s)
    (PERCPU_BASES s) (sent_ipis s) l (sc_frames s) (sc_memory s).
Definition with_memory s (f : F) (m : memory_map) : Sched F :=
  mkSched (CPU_QUEUES s) (BLOCKED_QUEUE s) (MIGRATION_QUEUE s) (BLOCKED_CPU_MAP s) (CURRENT_TASK_ID s) (TASK_NEXT_ID s) (SWITCH_CONTEXT s)
    (PERCPU_BASES s) (sent_ipis s) (file_locks s) f m.

(** [CPU_QUEUES[cpu].lock()], with what is written to the queue. *)
Definition queue_of s (cpu : Z) : outcome CpuQueue := index (CPU_QUEUES s) cpu.
Definition set_queue s (cpu : Z) (q : CpuQueue) : outcome (Sched F) :=
  qs ← store (CPU_QUEUES s) cpu q; Ret (with_queues s qs).
Definition push_ready s (cpu : Z) (t : Task) : outcome (Sched F) :=
  q ← queue_of s cpu; set_queue s cpu (mkCpuQueue (ready q ++ [t]) (current q)).

(** ** Counting and placing *)

Definition total_task_count s : Z :=
  foldl (λ n q, n + task_count q) 0 (CPU_QUEUES s) + len (BLOCKED_QUEUE s) + len (MIGRATION_QUEUE s).

Fixpoint least_loop (qs : list CpuQueue) (i best_cpu best_count : Z) : Z :=
  match qs with
  | [] => best_cpu
  | q :: qs =>
      let count := task_count q in
      if count <? best_count then least_loop qs (i + 1) i count else least_loop qs (i + 1) best_cpu best_count
  end.
Definition least_loaded_cpu s : Z := least_loop (CPU_QUEUES s) 0 0 (2 ^ 64 - 1).

Definition get_lapic_id_for_cpu s (cpu : Z) : outcome (option Z) :=
  if cpu <? MAX_CPUS then index (PERCPU_BASES s) cpu else Ret None.
Definition send_ipi_to_cpu s (cpu : Z) : outcome (Sched F) :=
  l ← get_lapic_id_for_cpu s cpu;
  match l with Some lapic => Ret (with_ipi s (cast 8 lapic, SCHED_IPI_VECTOR)) | None => Ret s end.
Definition register_percpu_base s (cpu lapic : Z) : outcome (Sched F) :=
  b ← store (PERCPU_BASES s) cpu (Some lapic); Ret (with_percpu s b).

(** ** Spawning *)

(** [NEXT_ID.fetch_add(1)] wraps. *)
Definition TaskId_new s : Z * Sched F := (TASK_NEXT_ID s, with_next_id s (wrapping_add 64 (TASK_NEXT_ID s) 1)).
Definition Task_new s (nm : list Z) (prio : Z) : Task * Sched F :=
  let '(i, s) := TaskId_new s in
  (mkTask i nm Ready prio HandleTable_new None None None None SignalState_new i i ∅, s).

Definition init s (idle_loop idle_stack_top : Z) : outcome (Sched F) :=
  let '(t, s) := Task_new s (str "idle") 0 in
  let t := set_context t (Some (kernel_mode idle_loop idle_stack_top)) in
  let s := with_current_id s (id t) in
  q ← queue_of s 0;
  set_queue s 0 (mkCpuQueue (ready q ++ [t]) (Some (id t))).

Definition spawn_task_from s (t : Task) : outcome (result Z unit * Sched F) :=
  if MAX_TASKS <=? total_task_count s then Ret (Err (), s)
  else s ← push_ready s (least_loaded_cpu s) t; Ret (Ok (id t), s).
Definition spawn_task s (nm : list Z) (prio : Z) : outcome (result Z unit * Sched F) :=
  let '(t, s) := Task_new s nm prio in
  if MAX_TASKS <=? total_task_count s then Ret (Err (), s)
  else s ← push_ready s (least_loaded_cpu s) t; Ret (Ok (id t), s).
Definition spawn_task_on_current s (cpu : Z) (t : Task) : outcome (result Z unit * Sched F) :=
  if MAX_TASKS <=? total_task_count s then Ret (Err (), s)
  else s ← push_ready s cpu t; Ret (Ok (id t), s).

(** ** Finding tasks *)

Definition set_current_task s (cpu i : Z) : outcome (Sched F) :=
  let s := with_current_id s i in
  q ← queue_of s cpu; set_queue s cpu (mkCpuQueue (ready q) (Some i)).

Definition with_current_task {R} s (cpu : Z) (f : Task → R) : outcome (option R) :=
  q ← queue_of s cpu;
  match find_task (CURRENT_TASK_ID s) (ready q) with
  | Some t => Ret (Some (f t))
  | None => Ret (option_map f (find_task (CURRENT_TASK_ID s) (BLOCKED_QUEUE s)))
  end.

Definition update_blocked {R} s (i : Z) (f : Task → R * Task) : option R * Sched F :=
  match update_task i f (BLOCKED_QUEUE s) with
  | Some (r, b) => (Some r, with_blocked s b (BLOCKED_CPU_MAP s))
  | None => (None, s)
  end.

Definition with_current_task_mut {R} s (cpu : Z) (f : Task → R * Task) : outcome (option R * Sched F) :=
  q ← queue_of s cpu;
  match update_task (CURRENT_TASK_ID s) f (ready q) with
  | Some (r, l) => s ← set_queue s cpu (mkCpuQueue l (current q)); Ret (Some r, s)
  | None => Ret (update_blocked s (CURRENT_TASK_ID s) f)
  end.

(** The calling CPU's queue first, then the others in order. *)
Definition search_order (cpu : Z) : list Z := cpu :: filter (λ i, i ≠ cpu) (seqZ 0 MAX_CPUS).

Fixpoint search_queues s (i : Z) (cpus : list Z) : outcome (option Task) :=
  match cpus with
  | [] => Ret (find_task i (BLOCKED_QUEUE s))
  | c :: cpus =>
      q ← queue_of s c;
      match find_task i (ready q) with Some t => Ret (Some t) | None => search_queues s i cpus end
  end.
Definition with_task {R} s (cpu i : Z) (f : Task → R) : outcome (option R) :=
  t ← search_queues s i (search_order cpu); Ret (option_map f t).

Fixpoint update_queues {R} s (i : Z) (f : Task → R * Task) (cpus : list Z) : outcome (option R * Sched F) :=
  match cpus with
  | [] => Ret (update_blocked s i f)
  | c :: cpus =>
      q ← queue_of s c;
      match update_task i f (ready q) with
      | Some (r, l) => s ← set_queue s c (mkCpuQueue l (current q)); Ret (Some r, s)
      | None => update_queues s i f cpus
      end
  end.
Definition with_task_mut {R} s (cpu i : Z) (f : Task → R * Task) : outcome (option R * Sched F) :=
  update_queues s i f (search_order cpu).

Definition get_exit_status s (i : Z) : outcome (option Z) :=
  t ← search_queues s i (seqZ 0 MAX_CPUS); Ret (t ≫= exit_status).

Definition set_task_priority s (cpu i prio : Z) : outcome (bool * Sched F) :=
  '(r, s) ← update_queues s i (λ t, ((), set_priority t prio)) (search_order cpu);
  Ret (if r is Some _ then true else false, s).

(** ** Scheduling *)

(** [max_by_key]: the last of the greatest. *)
Fixpoint max_by_priority (l : list Task) (i : Z) (best : option (Z * Z)) : option (Z * Z) :=
  match l with
  | [] => best
  | t :: l =>
      max_by_priority l (i + 1)
        (match best with Some (p, j) => if priority t <? p then Some (p, j) else Some (priority t, i) | None => Some (priority t, i) end)
  end.

Definition schedule_next_local s (cpu : Z) : outcome (option Z * Sched F) :=
  q ← queue_of s cpu;
  match max_by_priority (ready q) 0 None with
  | None => Ret (None, s)
  | Some (_, best_idx) =>
      t ← index (ready q) best_idx;
      let t := set_state t Running in
      let rest := take (Z.to_nat best_idx) (ready q) ++ drop (Z.to_nat best_idx + 1) (ready q) in
      let s := with_current_id s (id t) in
      s ← set_queue s cpu (mkCpuQueue (rest ++ [t]) (Some (id t)));
      Ret (Some (id t), s)
  end.

Definition wake_task_by_id s (cpu i : Z) : outcome (Sched F) :=
  match take_task i (BLOCKED_QUEUE s) with
  | None => Ret s
  | Some (t, b) =>
      let target_cpu := default cpu (BLOCKED_CPU_MAP s !! i) in
      let s := with_blocked s b (delete i (BLOCKED_CPU_MAP s)) in
      s ← push_ready s target_cpu (set_state t Ready);
      if target_cpu =? cpu then Ret s else send_ipi_to_cpu s target_cpu
  end.

Definition unblock_current s (cpu : Z) : outcome (Sched F) :=
  q ← queue_of s cpu;
  match current q with
  | None => Ret s
  | Some current_id =>
      match take_task current_id (BLOCKED_QUEUE s) with
      | None => Ret s
      | Some (t, b) => push_ready (with_blocked s b (BLOCKED_CPU_MAP s)) cpu (set_state t Ready)
      end
  end.

(** The first half of [block_and_switch]: the running task goes to the blocked queue. *)
Definition block_running s (cpu : Z) (current_id : Z) (current_ctx : SavedContext) : outcome (Sched F) :=
  q ← queue_of s cpu;
  match take_task current_id (ready q) with
  | None => Ret s
  | Some (t, l) =>
      let t := set_context (set_state t Blocked) (Some current_ctx) in
      s ← set_queue s cpu (mkCpuQueue l (current q));
      Ret (with_blocked s (BLOCKED_QUEUE s ++ [t]) (<[current_id := cast 32 cpu]> (BLOCKED_CPU_MAP s)))
  end.

(** The second half: the head of the ready queue becomes current. *)
Definition switch_next s (cpu : Z) : outcome (bool * Sched F) :=
  q ← queue_of s cpu;
  match ready q with
  | [] => Ret (false, s)
  | t :: l =>
      let t := set_state t Running in
      let next_cr3 := default 0 (page_table t) in
      let s := with_current_id s (id t) in
      s ← set_queue s cpu (mkCpuQueue (l ++ [t]) (Some (id t)));
      match context t with
      | Some ctx => Ret (true, with_switch s (Some (with_cr3 ctx next_cr3)))
      | None => Ret (false, s)
      end
  end.

Definition block_and_switch s (cpu : Z) (current_ctx : SavedContext) : outcome (bool * Sched F) :=
  q ← queue_of s cpu;
  match current q with
  | None => Ret (false, s)
  | Some current_id => s ← block_running s cpu current_id current_ctx; switch_next s cpu
  end.

(** ** Ending a task *)

(** [active] is the page table in CR3. The task that ended is the first result:
    it is dropped when the function returns. *)
Definition terminate_current s (cpu active status : Z) : outcome (option Task * Sched F) :=
  q ← queue_of s cpu;
  match current q with
  | None => Ret (None, s)
  | Some current_id =>
      match take_task current_id (ready q) with
      | None => Ret (None, s)
      | Some (t, l) =>
          s ← set_queue s cpu (mkCpuQueue l (current q));
          let t := set_exit_status (set_state t Terminated) (Some status) in
          let t := set_handle_table t (HandleTable_close_all (handle_table t)) in
          locks ← release_all_for_task (file_locks s) current_id;
          let s := with_locks s locks in
          s ← match page_table t with
              | Some p4 =>
                  f ← free_user_page_table active (sc_memory s) p4 (sc_frames s);
                  Ret (with_memory s f (sc_memory s))
              | None => Ret s
              end;
          let t := set_page_table t None in
          s ← match parent_id t with Some parent => wake_task_by_id s cpu parent | None => Ret s end;
          Ret (Some t, s)
      end
  end.

(** ** Listing *)

Record TaskInfo : Type := mkTaskInfo {
  ti_id : Z; ti_name : list Z; ti_name_len : Z; ti_state : TaskState; ti_priority : Z;
}.

Definition task_info (t : Task) : TaskInfo :=
  let n := Z.min (len (name t)) 32 in
  mkTaskInfo (id t) (take (Z.to_nat n) (name t) ++ replicate (Z.to_nat (32 - n)) 0) n (state t) (priority t).

Definition list_tasks s : list TaskInfo :=
  map task_info (concat (map ready (CPU_QUEUES s)) ++ BLOCKED_QUEUE s ++ MIGRATION_QUEUE s).

(** ** Migration *)

Definition migrate_task s (i from_cpu to_cpu : Z) : outcome (bool * Sched F) :=
  if (MAX_CPUS <=? from_cpu) || (MAX_CPUS <=? to_cpu) then Ret (false, s)
  else
    q ← queue_of s from_cpu;
    match take_task i (ready q) with
    | None => Ret (false, s)
    | Some (t, l) =>
        s ← set_queue s from_cpu (mkCpuQueue l (current q));
        s ← push_ready s to_cpu t; Ret (true, s)
    end.

Definition push_migration s (t : Task) : Sched F := with_migration s (MIGRATION_QUEUE s ++ [t]).

Definition steal_from_migration s (cpu : Z) : outcome (bool * Sched F) :=
  match MIGRATION_QUEUE s with
  | [] => Ret (false, s)
  | t :: l => s ← push_ready (with_migration s l) cpu t; Ret (true, s)
  end.

End ops.
