(* ===== verification/SyscallEntry.v ===== *)
(** * The system call entry (kernel/src/arch/x86_64/syscall.rs) and the timer tick

    The entry stub pushes the registers of the caller, calls the handler, and
    then either pops them or loads the context the scheduler chose. The stack is
    the list of its words from the stack pointer upwards; the words above the
    frame are an argument. The registers that the handler may change and that
    the stub does not restore are arguments as well. *)

From S2P Require Import Prelude Sched.

Record Registers : Type := mkRegisters {
  u_rax : Z; u_rbx : Z; u_rcx : Z; u_rdx : Z; u_rsi : Z; u_rdi : Z; u_rbp : Z; u_rsp : Z;
  u_r8 : Z; u_r9 : Z; u_r11 : Z; u_r12 : Z; u_r13 : Z; u_r14 : Z; u_r15 : Z;
}.

(** The state the stub leaves: registers, the address and the flags to go on
    with, the privilege, and the page table. *)
Record Resumed : Type := mkResumed {
  re_regs : Registers;
  re_rip : Z;
  re_rflags : Z;
  re_kernel : bool;
  re_cr3 : Z;
}.

(** The pushes in program order, and the stack after them. *)
Definition syscall_pushes (r : Registers) : list Z :=
  [u_rcx r; u_r11 r; u_rbp r; u_rbx r; u_r12 r; u_r13 r; u_r14 r; u_r15 r; u_rax r; u_rdi r; u_rsi r; u_rdx r; u_r8 r; u_r9 r; 0; 0].
Definition syscall_frame (r : Registers) (above : list Z) : list Z := reverse (syscall_pushes r) ++ above.

(** The arguments of [handle_syscall_raw], loaded from the frame. *)
Definition handler_args (frame : list Z) : outcome (list Z) :=
  number ← index frame 7; arg1 ← index frame 6; arg2 ← index frame 5; arg3 ← index frame 4; arg4 ← index frame 3; arg5 ← index frame 2;
  Ret [number; arg1; arg2; arg3; arg4; arg5].

(** Reads of the seventeen words from [CURRENT_CONTEXT] on. *)
Definition capture_current_context (p : list Z) : outcome SavedContext :=
  a ← index p 0; b ← index p 1; c ← index p 2; d ← index p 3; e ← index p 4; f ← index p 5; g ← index p 6; h ← index p 7;
  i ← index p 8; j ← index p 9; k ← index p 10; l ← index p 11; m ← index p 12; n ← index p 13; o ← index p 14; q ← index p 15;
  r ← index p 16;
  Ret (mkContext a b c d e f g h i j k l m n o q r).

(** The return without a switch: two words and six registers are skipped. *)
Definition normal_return (frame : list Z) (left : Registers) (rsp0 ret cr3 : Z) : outcome Resumed :=
  r15 ← index frame 8; r14 ← index frame 9; r13 ← index frame 10; r12 ← index frame 11; rbx ← index frame 12; rbp ← index frame 13;
  r11 ← index frame 14; rcx ← index frame 15;
  Ret (mkResumed (mkRegisters ret rbx rcx (u_rdx left) (u_rsi left) (u_rdi left) rbp (rsp0 + 16 + 48 + 8 * 8) (u_r8 left) (u_r9 left) r11 r12 r13 r14 r15)
         rcx r11 false cr3).

(** The switch: registers, stack and page table from the context; SYSRETQ for a
    user task, IRETQ with a frame on the new stack for a kernel task. *)
Definition switch_return (left : Registers) (c : SavedContext) (active : Z) : Resumed :=
  let kernel := is_kernel c =? 1 in
  mkResumed (mkRegisters (rax c) (rbx c) (if kernel then u_rcx left else rcx c) (rdx c) (rsi c) (rdi c) (rbp c) (rsp c) (r8 c) (r9 c) (r11 c) (r12 c) (r13 c) (r14 c) (r15 c))
    (rcx c) (r11 c) kernel (if cr3 c =? 0 then active else cr3 c).

(** What the stub does once the handler has returned [ret]. *)
Definition syscall_exit {F} (s : Sched F) (frame : list Z) (left : Registers) (rsp0 ret active : Z) : outcome (Resumed * Sched F) :=
  match SWITCH_CONTEXT s with
  | None => r ← normal_return frame left rsp0 ret active; Ret (r, s)
  | Some c => Ret (switch_return left c active, with_switch s None)
  end.

(** ** The timer (kernel/src/arch/x86_64/interrupts.rs) *)

Definition PREEMPT_INTERVAL : Z := 18.

(** [TICKS.fetch_add(1) + 1]: the counter wraps, the addition is checked. *)
Definition timer_interrupt_handler `{BuildProfile} (TICKS : Z) (NEED_RESCHEDULE : bool) : outcome (Z * bool) :=
  ticks ← add64 TICKS 1;
  Ret (wrapping_add 64 TICKS 1, if ticks mod PREEMPT_INTERVAL =? 0 then true else NEED_RESCHEDULE).

(** ** Theorems *)

(** C27: a system call that does not switch gives the handler its number and its
    five arguments, and returns to the instruction after the call with the
    caller's flags, stack and callee-saved registers, and the result in RAX. *)
Theorem syscall_returns {F} (s : Sched F) r above left ret active :
  SWITCH_CONTEXT s = None →
  let frame := syscall_frame r above in
  handler_args frame = Ret [u_rax r; u_rdi r; u_rsi r; u_rdx r; u_r8 r; u_r9 r] ∧
  syscall_exit s frame left (u_rsp r - 128) ret active =
    Ret (mkResumed (mkRegisters ret (u_rbx r) (u_rcx r) (u_rdx left) (u_rsi left) (u_rdi left) (u_rbp r) (u_rsp r) (u_r8 left) (u_r9 left)
           (u_r11 r) (u_r12 r) (u_r13 r) (u_r14 r) (u_r15 r)) (u_rcx r) (u_r11 r) false active, s).
Proof.
  intros Hs. unfold syscall_exit. rewrite Hs. split; [done|]. cbn. do 3 f_equal.
  assert (u_rsp r - 128 + 16 + 48 + 8 * 8 = u_rsp r) as -> by lia. done.
Qed.

(** the context that a system call captures is not the caller's. The stub
    pushes two zero words below the registers that the layout of [SavedContext]
    has above them, so that every field holds the register of another one: a
    task resumed from it runs at the address its RBP held, with its flags as
    stack pointer, and in kernel mode when its program counter was 1. *)
Theorem captured_context_shifted r w above left active :
  let c := mkContext 0 0 (u_r9 r) (u_r8 r) (u_rdx r) (u_rsi r) (u_rdi r) (u_rax r) (u_r15 r) (u_r14 r) (u_r13 r) (u_r12 r) (u_rbx r) (u_rbp r)
             (u_r11 r) (u_rcx r) w in
  capture_current_context (syscall_frame r (w :: above)) = Ret c ∧
  let t := switch_return left c active in
  re_rip t = u_rbp r ∧ u_rsp (re_regs t) = u_r11 r ∧ re_rflags t = u_rbx r ∧ re_kernel t = (u_rcx r =? 1).
Proof. by repeat split. Qed.

Lemma syscall_returns_witness :
  let r := mkRegisters 9 1 0x400010 2 3 4 5 0x7000 6 7 0x202 8 10 11 12 in
  let s : Sched unit := mkSched [] [] [] ∅ 0 0 None [] [] ∅ tt (λ _, 0) in
  handler_args (syscall_frame r []) = Ret [9; 4; 3; 2; 6; 7] ∧
  ∃ t, syscall_exit s (syscall_frame r []) r (0x7000 - 128) 42 0x1000 = Ret (t, s) ∧ re_rip t = 0x400010 ∧ u_rax (re_regs t) = 42.
Proof.
  intros r s. destruct (syscall_returns s r [] r 42 0x1000 eq_refl) as [Ha He]. split; [exact Ha|].
  eexists. split; [exact He|]. split; reflexivity.
Defined.
