(* ===== verification/Process.v ===== *)
(** * The process, thread and signal calls (kernel/src/syscall/mod.rs)

    Each call runs on the scheduler's state, with the CPU, the memory [u] as the
    calling task sees it and the captured context [ctx] as arguments. A wait
    with HLT is a loop over what it observes each time it wakes, given by an
    argument, with fuel for the number of times. *)

From stdpp Require Import strings.
From S2P Require Import Prelude RustStr Bytes PhysMem Handle Vma Signal Vfs FsSyscalls.
From S2P Require Import FrameAlloc Shm Initrd Elf Paging Sched SyscallEntry.

Definition Error_WouldBlock : Z := -7.
Definition Error_ChannelClosed : Z := -6.
Definition TASK_ENTRY_SIZE : Z := 40.
Definition U64_MAX : Z := 2 ^ 64 - 1.

(** What a call does: return a value, or stop the CPU for ever. *)
Inductive sysret : Type := Returns (r : Z) | Halts.

(** [i64::try_from(id).unwrap_or(e)]. *)
Definition try_i64 (e x : Z) : Z := if x <? 2 ^ 63 then x else e.

(** [copy_from_user] and [copy_to_user] on the memory of the caller. *)
Definition copy_in (u : Z → Z) (src n : Z) : option (list Z) :=
  if user_range src n then Some (map (λ i, u (src + i)) (seqZ 0 n)) else None.
Definition copy_out (u : Z → Z) (dst : Z) (bytes : list Z) : option (Z → Z) :=
  if user_range dst (len bytes) then Some (poke u dst bytes) else None.
Definition str_in (u : Z → Z) (ptr n : Z) : result (list Z) Z :=
  match copy_in u ptr n with
  | None => Err Error_BadPointer
  | Some bytes => match from_utf8 bytes with None => Err Error_InvalidArgument | Some s => Ok s end
  end.

Section process.
Context {F : Type} `{FrameSource F} `{EntryFormat} `{BuildProfile}.
Implicit Types s : Sched F.

(** The check at the head of [handle_syscall_raw]: the timer asked for a switch. *)
Definition preempt s (cpu : Z) (need : bool) (ctx : SavedContext) : outcome (Sched F) :=
  if need then '(_, s) ← block_and_switch s cpu ctx; Ret s else Ret s.

(** ** Processes *)

Definition sys_process_create s (cpu : Z) (u : Z → Z) (name_ptr name_len : Z) : outcome (Z * Sched F) :=
  match str_in u name_ptr name_len with
  | Err e => Ret (e, s)
  | Ok nm =>
      '(r, s) ← spawn_task s nm 0;
      match r with
      | Err _ => Ret (Error_OutOfMemory, s)
      | Ok task_id =>
          let creator_id := CURRENT_TASK_ID s in
          '(_, s) ← with_task_mut s cpu task_id (λ t, ((), set_parent_id t (Some creator_id)));
          Ret (try_i64 Error_InvalidArgument task_id, s)
      end
  end.

Definition sys_process_exit s (cpu active status : Z) : outcome (sysret * Sched F) :=
  '(_, s) ← terminate_current s cpu active status; Ret (Halts, s).

(** The loop of [sys_process_wait]: pass [n] sees the scheduler and the tick
    counter [obs n]. *)
Fixpoint wait_loop (fuel : nat) (obs : nat → Sched F * Z) (n : nat) (start child timeout : Z) : outcome (option Z) :=
  match fuel with
  | O => Ret None
  | S fuel =>
      e ← get_exit_status (fst (obs n)) child;
      match e with
      | Some status => Ret (Some (try_i64 0 status))
      | None =>
          if timeout =? 0 then Ret (Some Error_WouldBlock)
          else if timeout =? U64_MAX then wait_loop fuel obs (S n) start child timeout
          else
            d ← sub64 (snd (obs n)) start;
            if timeout <=? d then Ret (Some Error_WouldBlock) else wait_loop fuel obs (S n) start child timeout
      end
  end.
Definition sys_process_wait (fuel : nat) (obs : nat → Sched F * Z) (child timeout : Z) : outcome (option Z) :=
  wait_loop fuel obs 0 (snd (obs 0%nat)) child timeout.

(** ** Identifiers, groups and sessions *)

Definition sys_getpid s : Z := as_i64 (CURRENT_TASK_ID s).
Definition sys_gettid s : Z := as_i64 (CURRENT_TASK_ID s).

Definition sys_getppid s (cpu : Z) : outcome Z :=
  p ← with_current_task s cpu parent_id;
  Ret (match p with Some (Some i) => as_i64 i | _ => 0 end).

Definition sys_setpgid s (cpu pid pg : Z) : outcome (Z * Sched F) :=
  let target_id := if pid =? 0 then CURRENT_TASK_ID s else pid in
  let new_pgid := if pg =? 0 then target_id else pg in
  '(r, s) ← with_task_mut s cpu target_id (λ t, ((), set_pgid t new_pgid));
  Ret (if r is Some _ then 0 else Error_NotFound, s).

Definition sys_getpgid s (cpu pid : Z) : outcome (Z * Sched F) :=
  if pid =? 0 then
    r ← with_current_task s cpu pgid; Ret (from_option as_i64 Error_NotFound r, s)
  else
    '(r, s) ← with_task_mut s cpu pid (λ t, (pgid t, t));
    Ret (from_option as_i64 Error_NotFound r, s).

Definition sys_setsid s (cpu : Z) : outcome (Z * Sched F) :=
  let id_value := CURRENT_TASK_ID s in
  '(r, s) ← with_current_task_mut s cpu (λ t, ((), set_pgid (set_sid t id_value) id_value));
  Ret (if r is Some _ then as_i64 id_value else Error_NotFound, s).

(** ** The task list *)

Definition state_code (x : TaskState) : Z :=
  match x with Ready => 0 | Running => 1 | Blocked => 2 | Terminated => 3 end.

Definition write_entry (i : Z) (t : TaskInfo) (buf : list Z) : outcome (list Z) :=
  let base := i * TASK_ENTRY_SIZE in
  buf ← copy_into buf base (base + 8) (le_bytes 8 (ti_id t));
  buf ← store buf (base + 8) (state_code (ti_state t));
  buf ← store buf (base + 9) (ti_priority t);
  nm ← slice (ti_name t) 0 (ti_name_len t);
  copy_into buf 12 (12 + ti_name_len t) nm.

Fixpoint write_entries (i : Z) (l : list TaskInfo) (buf : list Z) : outcome (list Z) :=
  match l with [] => Ret buf | t :: l => buf ← write_entry i t buf; write_entries (i + 1) l buf end.

Definition sys_list_tasks s (u : Z → Z) (buf_ptr buf_len : Z) : outcome (Z * (Z → Z)) :=
  if (buf_ptr =? 0) || (USER_SPACE_MAX <=? buf_ptr) then Ret (Error_BadPointer, u)
  else if USER_SPACE_MAX <? saturating_add 64 buf_ptr buf_len then Ret (Error_BadPointer, u)
  else
    let tasks := list_tasks s in
    let count := len tasks in
    required ← mul64 count TASK_ENTRY_SIZE;
    if buf_len <? required then Ret (as_i64 count, u)
    else
      buf ← write_entries 0 tasks (replicate (Z.to_nat required) 0);
      match copy_out u buf_ptr buf with
      | Some u => Ret (as_i64 count, u)
      | None => Ret (Error_BadPointer, u)
      end.

(** ** Threads *)

Definition set_rdi (c : SavedContext) (x : Z) : SavedContext :=
  mkContext (r9 c) (r8 c) (rdx c) (rsi c) x (rax c) (r15 c) (r14 c) (r13 c) (r12 c) (rbx c) (rbp c) (r11 c) (rcx c) (rsp c) (is_kernel c) (cr3 c).

Definition sys_thread_create s (cpu entry_point stack_ptr arg : Z) : outcome (Z * Sched F) :=
  if (USER_SPACE_MAX <=? entry_point) || (entry_point =? 0) then Ret (Error_InvalidArgument, s)
  else if (USER_SPACE_MAX <=? stack_ptr) || (stack_ptr =? 0) then Ret (Error_InvalidArgument, s)
  else
    info ← with_current_task s cpu (λ t, (page_table t, id t));
    match info with
    | Some (Some table, parent) =>
        let '(t, s) := Task_new s (str "thread") 5 in
        let t := set_context t (Some (set_rdi (user_mode entry_point stack_ptr table) arg)) in
        let t := set_parent_id (set_page_table t (Some table)) (Some parent) in
        '(r, s) ← spawn_task_from s t;
        Ret (match r with Ok tid => try_i64 Error_OutOfMemory tid | Err _ => Error_OutOfMemory end, s)
    | _ => Ret (Error_InvalidArgument, s)
    end.

Definition sys_thread_exit s (cpu active : Z) (ctx : SavedContext) : outcome (sysret * Sched F) :=
  '(_, s) ← terminate_current s cpu active 0;
  '(switched, s) ← block_and_switch s cpu ctx;
  Ret (if switched : bool then Returns 0 else Halts, s).

Definition sys_thread_yield s (cpu : Z) (ctx : SavedContext) : outcome (Z * Sched F) :=
  '(_, s) ← block_and_switch s cpu ctx; Ret (0, s).
Definition sys_sched_yield s (cpu : Z) (ctx : SavedContext) : outcome (Z * Sched F) :=
  '(_, s) ← block_and_switch s cpu ctx; Ret (0, s).

(** ** Sleeping *)

(** The loop sees the tick counter [ticks n] on pass [n]; other CPUs and
    interrupts leave this CPU's queue alone. The context is captured anew on
    each pass, from the same frame. *)
Fixpoint sleep_until_tick (fuel : nat) s (cpu : Z) (ticks : nat → Z) (n : nat) (target : Z) (ctx : SavedContext) : outcome (bool * Sched F) :=
  match fuel with
  | O => Ret (false, s)
  | S fuel =>
      if target <=? ticks n then Ret (true, s)
      else '(_, s) ← block_and_switch s cpu ctx; sleep_until_tick fuel s cpu ticks (S n) target ctx
  end.
Definition sys_sleep (fuel : nat) s (cpu : Z) (ticks : nat → Z) (delay : Z) (ctx : SavedContext) : outcome (option Z * Sched F) :=
  target ← add64 (ticks 0%nat) delay;
  '(woke, s) ← sleep_until_tick fuel s cpu ticks 1 target ctx;
  Ret (if woke : bool then Some 0 else None, s).

(** ** Signals *)

(** [u8::try_from(sig)] and the range test. *)
Definition valid_signal (sig : Z) : bool := (sig <=? 255) && negb (sig =? 0) && (sig <=? 31).

Definition sys_kill s (cpu pid sig : Z) : outcome (Z * Sched F) :=
  if negb (valid_signal sig) then Ret (Error_InvalidArgument, s)
  else
    '(found, s) ← with_task_mut s cpu pid (λ t, ((), set_signal_state t (send_signal (signal_state t) sig)));
    match found with
    | Some _ => s ← wake_task_by_id s cpu pid; Ret (0, s)
    | None => Ret (Error_NotFound, s)
    end.

Definition sys_tgkill s (cpu tgid tid sig : Z) : outcome (Z * Sched F) :=
  if negb (valid_signal sig) then Ret (Error_InvalidArgument, s)
  else
    '(found, s) ← with_task_mut s cpu tid (λ t,
      if negb (tgid =? 0) && negb (id t =? tgid) && (match parent_id t with Some p => negb (p =? tgid) | None => true end) then (false, t)
      else (true, set_signal_state t (send_signal (signal_state t) sig)));
    match found with
    | Some true => s ← wake_task_by_id s cpu tid; Ret (0, s)
    | Some false => Ret (Error_PermissionDenied, s)
    | None => Ret (Error_NotFound, s)
    end.

End process.

(** ** Starting a program *)

Section start.
Context {F : Type} `{FrameSource F} `{EntryFormat} `{BuildProfile}.
Context {I W : Type} `{FileSystem I W}.

(** The first 16 KiB of the file, empty when it cannot be opened or read. *)
Definition read_program (mounts : list (MountPoint I)) (w : W) (filename : list Z) : outcome (list Z * W) :=
  '(fs, rel_path) ← resolve_fs mounts filename;
  '(r, w) ← fs_open fs rel_path OpenFlags_READ w;
  match r with
  | Err _ => Ret ([], w)
  | Ok ino =>
      '(r, w) ← fs_read fs ino 0 16384 w;
      '(_, w) ← fs_close fs ino w;
      Ret (match r with Ok bytes => bytes | Err _ => [] end, w)
  end.

(** The program: from the file system, or else from the initial ramdisk. *)
Definition find_program (mounts : list (MountPoint I)) (w : W) (ramdisk : option (list Z)) (filename : list Z)
    : outcome (option (list Z) * W) :=
  '(elf_data, w) ← read_program mounts w filename;
  if negb (bool_decide (elf_data = [])) then Ret (Some elf_data, w)
  else
    match ramdisk with
    | None => Ret (None, w)
    | Some bytes => r ← find_file bytes filename; Ret (option_map file_data r, w)
    end.

(** The frames and the memory after the program is loaded into page table [p4]. *)
Definition load_into (f : F) (m : memory_map) (p4 : Z) (elf_data : list Z)
    : outcome (result ElfLoadResult ElfError * F * memory_map) :=
  '(r, st) ← load_elf (mkLoader (mkPaged f p4) m [] []) elf_data;
  Ret (r, pg_frames (ld_frames st), memory st).

(** After the page table of the task is created: configure the task, load the
    program and set its context. The first result is CR3 afterwards: the
    register is read after the switch to the new table, and written back. *)
Definition start_task (s : Sched F) (cpu active task_id page_table_phys : Z) (filename elf_data : list Z)
    : outcome (Z * Z * Sched F) :=
  let creator := CURRENT_TASK_ID s in
  '(found, s) ← with_task_mut s cpu task_id (λ t,
    ((), set_name (set_page_table (set_parent_id t (Some creator)) (Some page_table_phys)) filename));
  match found with
  | None => Ret (active, Error_NotFound, s)
  | Some _ =>
      '(r, f, m) ← load_into (sc_frames s) (sc_memory s) page_table_phys elf_data;
      let s := with_memory s f m in
      match r with
      | Err _ => Ret (page_table_phys, Error_InvalidArgument, s)
      | Ok l =>
          let ctx := user_mode (entry_point l) (stack_top l) page_table_phys in
          '(_, s) ← with_task_mut s cpu task_id (λ t, ((), set_context t (Some ctx)));
          Ret (page_table_phys, try_i64 Error_InvalidArgument task_id, s)
      end
  end.

Definition sys_process_start (s : Sched F) (cpu active : Z) (mounts : list (MountPoint I)) (w : W) (ramdisk : option (list Z))
    (u : Z → Z) (task_id name_ptr name_len : Z) : outcome (Z * Z * Sched F * W) :=
  match str_in u name_ptr name_len with
  | Err e => Ret (active, e, s, w)
  | Ok filename =>
      '(p, w) ← find_program mounts w ramdisk filename;
      match p with
      | None => Ret (active, Error_NotFound, s, w)
      | Some elf_data =>
          h ← parse_header elf_data;
          match h with
          | Err _ => Ret (active, Error_InvalidArgument, s, w)
          | Ok _ =>
              '(r, (f, m)) ← create_user_page_table active (sc_frames s, sc_memory s);
              let s := with_memory s f m in
              match r with
              | None => Ret (active, Error_OutOfMemory, s, w)
              | Some page_table_phys =>
                  '(active, r, s) ← start_task s cpu active task_id page_table_phys filename elf_data;
                  Ret (active, r, s, w)
              end
          end
      end
  end.

End start.
