(* ===== verification/Ipc.v ===== *)
(** * The calls on channels, handles, events and names (kernel/src/syscall/mod.rs)

    The kernel objects that handles refer to are in a store indexed by their
    location, which is what an [Arc] to them is. A handler that waits in the
    kernel with HLT sees its object changed by [env n] at its [n]th wake. *)

From stdpp Require Import strings.
From S2P Require Import Prelude RustStr Handle Channel Signal Vfs FsSyscalls.
From S2P Require Import FrameAlloc Shm Elf Paging Sched SyscallEntry Process.

Record Objects : Type := mkObjects {
  channels : gmap loc Channel;
  events : gmap loc Event;
  irq_events : gmap loc IrqEvent;
}.
Definition set_channels (o : Objects) (m : gmap loc Channel) : Objects := mkObjects m (events o) (irq_events o).
Definition set_events (o : Objects) (m : gmap loc Event) : Objects := mkObjects (channels o) m (irq_events o).
Definition set_irqs (o : Objects) (m : gmap loc IrqEvent) : Objects := mkObjects (channels o) (events o) m.

Section ipc.
Context {F : Type} `{FrameSource F} `{EntryFormat} `{BuildProfile}.
Implicit Types s : Sched F.

(** ** Handles *)

(** The object of a handle of the current task. *)
Definition current_object s (cpu : Z) (handle_raw : Z) : outcome (option KernelObject) :=
  r ← with_current_task s cpu (λ t, HandleTable_get (handle_table t) (Handle_from_raw handle_raw));
  Ret (default None r).

Definition lookup_channel s (cpu handle_raw : Z) : outcome (option (loc * EndId)) :=
  o ← current_object s cpu handle_raw;
  Ret (match o with Some (ChannelEndA ch) => Some (ch, EndA) | Some (ChannelEndB ch) => Some (ch, EndB) | _ => None end).

(** [with_current_task_mut] with an operation on the handle table that may panic. *)
Definition update_handles {R} s (cpu : Z) (f : HandleTable → outcome (R * HandleTable)) : outcome (option R * Sched F) :=
  '(r, s) ← with_current_task_mut s cpu (λ t,
    match f (handle_table t) with Ret (r, h) => (Some r, set_handle_table t h) | Panic => (None, t) end);
  match r with Some None => Panic | Some (Some r) => Ret (Some r, s) | None => Ret (None, s) end.

Definition close_handle s (cpu handle_raw : Z) : outcome (bool * Sched F) :=
  '(r, s) ← update_handles s cpu (λ h, Ret (HandleTable_close h (Handle_from_raw handle_raw)));
  Ret (if r is Some true then true else false, s).

Definition sys_handle_close s (cpu handle_raw : Z) : outcome (Z * Sched F) :=
  '(removed, s) ← close_handle s cpu handle_raw;
  Ret (if removed : bool then 0 else Error_NotFound, s).
Definition sys_event_destroy s (cpu handle_raw : Z) : outcome (Z * Sched F) :=
  '(removed, s) ← close_handle s cpu handle_raw;
  Ret (if removed : bool then 0 else Error_NotFound, s).

Definition sys_handle_duplicate s (cpu handle_raw new_rights : Z) : outcome (Z * Sched F) :=
  '(r, s) ← update_handles s cpu (λ h,
    HandleTable_duplicate h (Handle_from_raw handle_raw) (Rights_from_raw (cast 16 new_rights)));
  Ret (match r with
       | Some (Some new_handle) => as_i64 (Handle_as_u64 new_handle)
       | Some None => Error_PermissionDenied
       | None => Error_NotFound
       end, s).

(** ** Channels *)

Definition sys_channel_create s (o : Objects) (cpu : Z) : outcome (Z * Sched F * Objects) :=
  let l := fresh (dom (channels o)) in
  let o := set_channels o (<[l := Channel_new]> (channels o)) in
  '(r, s) ← update_handles s cpu (λ h,
    '(handle_a, h) ← HandleTable_insert h (ChannelEndA l) Rights_ALL;
    '(_, h) ← HandleTable_insert h (ChannelEndB l) Rights_ALL;
    Ret (Handle_as_u64 handle_a, h));
  Ret (from_option as_i64 Error_NotFound r, s, o).

(** A locked channel: an operation, and the channel written back. *)
Definition on_channel {R} (o : Objects) (l : loc) (f : Channel → R * Channel) : outcome (R * Objects) :=
  match channels o !! l with
  | Some ch => let '(r, ch) := f ch in Ret (r, set_channels o (<[l := ch]> (channels o)))
  | None => Panic
  end.

Definition sys_channel_send s (o : Objects) (cpu : Z) (u : Z → Z) (handle_raw msg_ptr msg_len : Z) : outcome (Z * Sched F * Objects) :=
  match copy_in u msg_ptr msg_len with
  | None => Ret (Error_BadPointer, s, o)
  | Some msg =>
      c ← lookup_channel s cpu handle_raw;
      match c with
      | None => Ret (Error_NotFound, s, o)
      | Some (l, from) =>
          '(r, o) ← on_channel o l (λ ch, Channel_send ch from msg (CURRENT_TASK_ID s));
          match r with
          | Delivered receiver_id => s ← wake_task_by_id s cpu receiver_id; Ret (0, s, o)
          | SendPending => Ret (0, s, o)
          | SendClosed => Ret (Error_ChannelClosed, s, o)
          end
      end
  end.

(** A message that was taken: copied out, or the call fails. *)
Definition deliver (u : Z → Z) (buf_ptr : Z) (msg : list Z) : Z * (Z → Z) :=
  match copy_out u buf_ptr msg with Some u => (try_i64 (-1) (len msg), u) | None => (Error_BadPointer, u) end.

(** The wait of a receiver that is alone on its CPU. *)
Fixpoint receive_loop (fuel : nat) (env : nat → Channel → Channel) (n : nat) (ch : Channel) (on : EndId) (task_id : Z)
    : option (result (list Z) Z) * Channel :=
  match fuel with
  | O => (None, ch)
  | S fuel =>
      let '(r, ch) := Channel_receive (env n ch) on task_id in
      match r with
      | GotMessage msg _ => (Some (Ok msg), ch)
      | RecvBlocked => receive_loop fuel env (S n) ch on task_id
      | RecvClosed => (Some (Err Error_ChannelClosed), ch)
      end
  end.

Definition sys_channel_receive (fuel : nat) (env : nat → Channel → Channel) s (o : Objects) (cpu : Z) (u : Z → Z) (ctx : SavedContext)
    (handle_raw buf_ptr : Z) : outcome (option Z * Sched F * Objects * (Z → Z)) :=
  c ← lookup_channel s cpu handle_raw;
  match c with
  | None => Ret (Some Error_NotFound, s, o, u)
  | Some (l, on) =>
      let task_id := CURRENT_TASK_ID s in
      '(r, o) ← on_channel o l (λ ch, Channel_receive ch on task_id);
      match r with
      | GotMessage msg _ => let '(n, u) := deliver u buf_ptr msg in Ret (Some n, s, o, u)
      | RecvClosed => Ret (Some Error_ChannelClosed, s, o, u)
      | RecvBlocked =>
          '(switched, s) ← block_and_switch s cpu ctx;
          if switched : bool then Ret (Some 0, s, o, u)
          else
            s ← unblock_current s cpu;
            '(r, o) ← on_channel o l (λ ch, receive_loop fuel env 0 ch on task_id);
            match r with
            | None => Ret (None, s, o, u)
            | Some (Err e) => Ret (Some e, s, o, u)
            | Some (Ok msg) => let '(n, u) := deliver u buf_ptr msg in Ret (Some n, s, o, u)
            end
      end
  end.

(** The wait of a caller for the reply. *)
Fixpoint reply_loop (fuel : nat) (env : nat → Channel → Channel) (n : nat) (ch : Channel) (from : EndId)
    : option (result (list Z) Z) * Channel :=
  match fuel with
  | O => (None, ch)
  | S fuel =>
      let '(r, ch) := Channel_check_reply ch from in
      match r with
      | GotReply reply => (Some (Ok reply), ch)
      | CallClosed => (Some (Err Error_ChannelClosed), ch)
      | CallBlocked _ => reply_loop fuel env (S n) (env n ch) from
      end
  end.

Definition sys_channel_call (fuel : nat) (env : nat → Channel → Channel) s (o : Objects) (cpu : Z) (u : Z → Z)
    (handle_raw msg_ptr msg_len reply_ptr : Z) : outcome (option Z * Objects * (Z → Z)) :=
  match copy_in u msg_ptr msg_len with
  | None => Ret (Some Error_BadPointer, o, u)
  | Some msg =>
      c ← lookup_channel s cpu handle_raw;
      match c with
      | None => Ret (Some Error_NotFound, o, u)
      | Some (l, from) =>
          '(r, o) ← on_channel o l (λ ch, Channel_call ch from msg (CURRENT_TASK_ID s));
          match r with
          | GotReply reply => let '(n, u) := deliver u reply_ptr reply in Ret (Some n, o, u)
          | CallClosed => Ret (Some Error_ChannelClosed, o, u)
          | CallBlocked _ =>
              '(r, o) ← on_channel o l (λ ch, reply_loop fuel env 0 ch from);
              match r with
              | None => Ret (None, o, u)
              | Some (Err e) => Ret (Some e, o, u)
              | Some (Ok reply) => let '(n, u) := deliver u reply_ptr reply in Ret (Some n, o, u)
              end
          end
      end
  end.

Definition sys_channel_reply s (o : Objects) (cpu : Z) (u : Z → Z) (handle_raw msg_ptr msg_len : Z) : outcome (Z * Sched F * Objects) :=
  match copy_in u msg_ptr msg_len with
  | None => Ret (Error_BadPointer, s, o)
  | Some msg =>
      c ← lookup_channel s cpu handle_raw;
      match c with
      | None => Ret (Error_NotFound, s, o)
      | Some (l, on) =>
          '(r, o) ← on_channel o l (λ ch, Channel_reply ch on msg);
          match r with
          | Unblocked caller_id => s ← wake_task_by_id s cpu caller_id; Ret (0, s, o)
          | Stored => Ret (0, s, o)
          end
      end
  end.

Definition sys_handle_transfer s (o : Objects) (cpu handle_raw channel_raw : Z) : outcome (Z * Sched F * Objects) :=
  c ← lookup_channel s cpu channel_raw;
  match c with
  | None => Ret (Error_NotFound, s, o)
  | Some (l, _) =>
      '(removed, s) ← close_handle s cpu handle_raw;
      if negb removed then Ret (Error_NotFound, s, o)
      else
        '(pushed, o) ← on_channel o l (λ ch, Channel_push_handle ch handle_raw);
        Ret (if pushed : bool then 0 else Error_ChannelClosed, s, o)
  end.

(** ** Events and interrupts *)

Definition sys_event_create s (o : Objects) (cpu : Z) : outcome (Z * Sched F * Objects) :=
  let l := fresh (dom (events o)) in
  let o := set_events o (<[l := Event_new]> (events o)) in
  '(r, s) ← update_handles s cpu (λ h, '(handle, h) ← HandleTable_insert h (EventObj l) Rights_ALL; Ret (Handle_as_u64 handle, h));
  Ret (from_option as_i64 Error_NotFound r, s, o).

Definition sys_event_signal s (o : Objects) (cpu handle_raw : Z) : outcome (Z * Objects) :=
  k ← current_object s cpu handle_raw;
  match k with
  | Some (EventObj l) => Ret (0, set_events o (alter Event_signal l (events o)))
  | _ => Ret (Error_NotFound, o)
  end.

Fixpoint event_loop (fuel : nat) (env : nat → Event → Event) (n : nat) (ev : Event) : bool * Event :=
  match fuel with
  | O => (false, ev)
  | S fuel => let ev := env n ev in if Event_is_signaled ev then (true, Event_clear ev) else event_loop fuel env (S n) ev
  end.

Definition sys_event_wait (fuel : nat) (env : nat → Event → Event) s (o : Objects) (cpu handle_raw : Z) : outcome (option Z * Objects) :=
  k ← current_object s cpu handle_raw;
  match k with
  | Some (EventObj l) =>
      match events o !! l with
      | None => Panic
      | Some ev =>
          let '(woke, ev) := if Event_is_signaled ev then (true, Event_clear ev) else event_loop fuel env 0 ev in
          Ret (if woke : bool then Some 0 else None, set_events o (<[l := ev]> (events o)))
      end
  | _ => Ret (Some Error_NotFound, o)
  end.

Fixpoint irq_loop (fuel : nat) (env : nat → IrqEvent → IrqEvent) (n : nat) (ev : IrqEvent) : option Z * IrqEvent :=
  match fuel with
  | O => (None, ev)
  | S fuel => let ev := env n ev in if IrqEvent_is_signaled ev then (Some (last_data ev), IrqEvent_clear ev) else irq_loop fuel env (S n) ev
  end.

Definition sys_irq_wait (fuel : nat) (env : nat → IrqEvent → IrqEvent) s (o : Objects) (cpu handle_raw blocking : Z) : outcome (option Z * Objects) :=
  k ← current_object s cpu handle_raw;
  match k with
  | Some (IrqEventObj l) =>
      match irq_events o !! l with
      | None => Panic
      | Some ev =>
          if IrqEvent_is_signaled ev then Ret (Some (last_data ev), set_irqs o (<[l := IrqEvent_clear ev]> (irq_events o)))
          else if blocking =? 0 then Ret (Some Error_WouldBlock, o)
          else let '(r, ev) := irq_loop fuel env 0 ev in Ret (r, set_irqs o (<[l := ev]> (irq_events o)))
      end
  | _ => Ret (Some Error_NotFound, o)
  end.

(** ** Names *)

Definition sys_endpoint_register s (cpu : Z) (u : Z → Z) (name_ptr name_len handle_raw : Z) : outcome (Z * Sched F) :=
  match str_in u name_ptr name_len with
  | Err e => Ret (e, s)
  | Ok nm =>
      '(r, s) ← with_current_task_mut s cpu (λ t, ((), set_namespace t (<[nm := Handle_from_raw handle_raw]> (namespace t))));
      Ret (if r is Some _ then 0 else Error_NotFound, s)
  end.

Definition sys_endpoint_discover s (cpu : Z) (u : Z → Z) (name_ptr name_len : Z) : outcome Z :=
  match str_in u name_ptr name_len with
  | Err e => Ret e
  | Ok nm =>
      r ← with_current_task s cpu (λ t, namespace t !! nm);
      Ret (match r with Some (Some h) => as_i64 (Handle_as_u64 h) | _ => Error_NotFound end)
  end.

End ipc.
