(* ===== verification/SchedProofs.v ===== *)
(** * Theorems on the scheduler

    A task is in one place at a time: on the ready queue of a CPU, in the
    blocked queue or in the migration queue. The operations are described by how
    they move tasks between places; the invariant and the theorems on blocking,
    waking and ending tasks follow. *)

From S2P Require Import Prelude PhysMem Handle FrameAlloc Shm FileLock Signal Elf Paging Sched.

(** ** Places *)

Inductive spot : Type := OnCpu (c : Z) | IsBlocked | Migrating.

Definition at_spot (p : spot) (t : Task) : spot * Task := (p, t).
Definition queue_census (c : nat) (q : CpuQueue) : list (spot * Task) := map (at_spot (OnCpu (Z.of_nat c))) (ready q).
Definition census {F} (s : Sched F) : list (spot * Task) :=
  concat (imap queue_census (CPU_QUEUES s)) ++ map (at_spot IsBlocked) (BLOCKED_QUEUE s) ++ map (at_spot Migrating) (MIGRATION_QUEUE s).
Definition ids {F} (s : Sched F) : list Z := map (λ x, id x.2) (census s).

Lemma take_task_Some i l t l' : take_task i l = Some (t, l') → l ≡ₚ t :: l' ∧ id t = i.
Proof.
  revert l'. induction l as [|a l IH]; intros l'; cbn; [done|]. destruct (Z.eqb_spec (id a) i) as [Hi|Hi].
  - by intros [= <- <-].
  - destruct (take_task i l) as [[x k]|]; [|done]. intros [= <- <-]. destruct (IH k eq_refl) as [Hp Hx].
    split; [|done]. rewrite Hp. apply Permutation_swap.
Qed.

Lemma take_task_None i l : take_task i l = None ↔ (i ∉ map id l).
Proof.
  induction l as [|a l IH]; cbn; [split; [intros _; apply not_elem_of_nil|done]|]. rewrite not_elem_of_cons.
  destruct (Z.eqb_spec (id a) i) as [Hi|Hi]; [naive_solver|]. destruct (take_task i l) as [[x k]|]; naive_solver.
Qed.

Lemma find_task_Some i l t : find_task i l = Some t → t ∈ l ∧ id t = i.
Proof. intros [Hin Hi]%find_some. by apply list_elem_of_In in Hin; apply Z.eqb_eq in Hi. Qed.

Lemma find_task_None i l : find_task i l = None → (i ∉ map id l).
Proof.
  intros Hn [t [-> Ht%list_elem_of_In]]%list_elem_of_fmap. apply find_none with (x := t) in Hn; [|done].
  by rewrite Z.eqb_refl in Hn.
Qed.

Lemma update_task_Some {R} i (f : Task → R * Task) l r l' :
  update_task i f l = Some (r, l') → ∃ l1 t l2, l = l1 ++ t :: l2 ∧ id t = i ∧ l' = l1 ++ (f t).2 :: l2 ∧ r = (f t).1.
Proof.
  revert l'. induction l as [|a l IH]; intros l'; cbn; [done|]. destruct (Z.eqb_spec (id a) i) as [Hi|Hi].
  - destruct (f a) as [r' a'] eqn:Hf. intros [= <- <-]. exists [], a, l. by rewrite Hf.
  - destruct (update_task i f l) as [[x k]|]; [|done]. intros [= -> <-]. destruct (IH k eq_refl) as (l1 & t & l2 & -> & Ht & -> & ->).
    by exists (a :: l1), t, l2.
Qed.

Lemma update_task_None {R} i (f : Task → R * Task) l : update_task i f l = None → (i ∉ map id l).
Proof.
  induction l as [|a l IH]; cbn; [intros _; apply not_elem_of_nil|]. rewrite not_elem_of_cons.
  destruct (Z.eqb_spec (id a) i) as [Hi|Hi]; [by destruct (f a)|]. destruct (update_task i f l) as [[x k]|]; naive_solver.
Qed.

(** One queue is exchanged: the rest of the census stays. *)
Lemma queues_split (qs : list CpuQueue) c q :
  qs !! c = Some q →
  ∃ rest, ∀ q', concat (imap queue_census (<[c := q']> qs)) ≡ₚ map (at_spot (OnCpu (Z.of_nat c))) (ready q') ++ rest.
Proof.
  intros (l1 & l2 & -> & ->)%list_elem_of_split_length.
  exists (concat (imap queue_census l1) ++ concat (imap (λ n, queue_census (length l1 + S n)) l2)). intros q'.
  rewrite insert_app_r_alt, Nat.sub_diag by done. cbn. rewrite imap_app, concat_app. cbn. rewrite Nat.add_0_r.
  rewrite !(assoc_L (++)). apply Permutation_app_tail. by rewrite (comm (++)).
Qed.

Section sched.
Context {F : Type} `{FrameSource F} `{EntryFormat} `{BuildProfile}.
Implicit Types s : Sched F.

Definition shape s : Prop := len (CPU_QUEUES s) = MAX_CPUS ∧ len (PERCPU_BASES s) = MAX_CPUS.

Lemma queue_of_ok s cpu : shape s → 0 ≤ cpu < MAX_CPUS → ∃ q, queue_of s cpu = Ret q.
Proof.
  intros [Hl _] Hc. unfold queue_of. destruct (lookup_lt_is_Some_2 (CPU_QUEUES s) (Z.to_nat cpu)) as [q Hq].
  { unfold len, MAX_CPUS in *. lia. }
  exists q. apply index_lookup; [lia|done].
Qed.

(** What a write to a queue does to the census: the queue's part is replaced. *)
Lemma set_cpu_queue_ok s cpu q :
  shape s → 0 ≤ cpu < MAX_CPUS → queue_of s cpu = Ret q →
  ∃ rest, census s ≡ₚ map (at_spot (OnCpu cpu)) (ready q) ++ rest ∧ ∀ q',
    ∃ s', set_queue s cpu q' = Ret s' ∧ s' = with_queues s (<[Z.to_nat cpu := q']> (CPU_QUEUES s)) ∧ shape s' ∧
      census s' ≡ₚ map (at_spot (OnCpu cpu)) (ready q') ++ rest.
Proof.
  intros [Hl Hp] Hc (_ & Hq)%index_Ret. destruct (queues_split _ _ _ Hq) as [rest Hrest].
  rewrite Z2Nat.id in Hrest by lia.
  exists (rest ++ map (at_spot IsBlocked) (BLOCKED_QUEUE s) ++ map (at_spot Migrating) (MIGRATION_QUEUE s)). split.
  - unfold census. rewrite (app_assoc _ rest), <- (Hrest q). by rewrite list_insert_id.
  - intros q'. eexists. unfold set_queue. rewrite store_ok by (unfold len, MAX_CPUS in *; lia). cbn. split_and!; [done..| |].
    + split; cbn; [|done]. unfold len in *. by rewrite length_insert.
    + unfold census. cbn. by rewrite (app_assoc _ rest), Hrest.
Qed.

(** The current tasks of the CPUs. *)
Definition currents s : list (option Z) := map current (CPU_QUEUES s).

Lemma queue_current s cpu q : queue_of s cpu = Ret q → current q ∈ currents s.
Proof. intros (_ & Hq)%index_Ret. apply list_elem_of_fmap. exists q. split; [done|]. by eapply list_elem_of_lookup_2. Qed.

Lemma currents_set s cpu q q' : queue_of s cpu = Ret q → current q' = current q → currents (with_queues s (<[Z.to_nat cpu := q']> (CPU_QUEUES s))) = currents s.
Proof.
  intros (_ & Hq)%index_Ret Hc. unfold currents. cbn. rewrite list_fmap_insert, Hc. apply list_insert_id. by rewrite list_lookup_fmap, Hq.
Qed.

(** *** Elementary moves *)

Lemma push_ready_ok s cpu t :
  shape s → 0 ≤ cpu < MAX_CPUS →
  ∃ s' qs, push_ready s cpu t = Ret s' ∧ s' = with_queues s qs ∧ shape s' ∧ currents s' = currents s ∧
    census s' ≡ₚ (OnCpu cpu, t) :: census s.
Proof.
  intros Hs Hc. destruct (queue_of_ok s cpu Hs Hc) as [q Hq]. destruct (set_cpu_queue_ok s cpu q Hs Hc Hq) as (rest & Hr & Hset).
  destruct (Hset (mkCpuQueue (ready q ++ [t]) (current q))) as (s' & He & -> & Hs' & Hcen).
  eexists _, _. unfold push_ready. rewrite Hq. cbn [mbind outcome_bind]. rewrite He. split_and!; [done..| |].
  - by apply (currents_set s cpu q).
  - rewrite Hcen, Hr. cbn. rewrite map_app, <- (assoc_L (++)). cbn. by rewrite <- Permutation_middle.
Qed.

Lemma take_ready_ok s cpu q i t l :
  shape s → 0 ≤ cpu < MAX_CPUS → queue_of s cpu = Ret q → take_task i (ready q) = Some (t, l) →
  ∃ s' qs, set_queue s cpu (mkCpuQueue l (current q)) = Ret s' ∧ s' = with_queues s qs ∧ shape s' ∧ currents s' = currents s ∧
    census s ≡ₚ (OnCpu cpu, t) :: census s' ∧ id t = i ∧ queue_of s' cpu = Ret (mkCpuQueue l (current q)).
Proof.
  intros Hs Hc Hq [Hp Hi]%take_task_Some. destruct (set_cpu_queue_ok s cpu q Hs Hc Hq) as (rest & Hr & Hset).
  destruct (Hset (mkCpuQueue l (current q))) as (s' & He & -> & Hs' & Hcen). eexists _, _. split_and!; [done..| | |done|].
  - by apply (currents_set s cpu q).
  - rewrite Hr, Hcen, Hp. done.
  - apply index_lookup; [lia|]. cbn. apply list_lookup_insert_eq. apply index_Ret in Hq as [_ Hq]. by apply lookup_lt_Some in Hq.
Qed.

Lemma take_blocked_ok s i t b m : take_task i (BLOCKED_QUEUE s) = Some (t, b) → census s ≡ₚ (IsBlocked, t) :: census (with_blocked s b m) ∧ id t = i.
Proof.
  intros [Hp Hi]%take_task_Some. split; [|done]. unfold census. cbn. rewrite Hp. cbn.
  rewrite <- !Permutation_middle. done.
Qed.

Lemma push_blocked_ok s t m : census (with_blocked s (BLOCKED_QUEUE s ++ [t]) m) ≡ₚ (IsBlocked, t) :: census s.
Proof. unfold census. cbn. rewrite map_app. cbn. rewrite <- !(assoc_L (++)). cbn. rewrite <- !Permutation_middle. done. Qed.

(** An update changes one task where it is. *)
Definition updated {R} (f : Task → R * Task) (i : Z) s s' : Prop :=
  ∃ p t rest, id t = i ∧ census s ≡ₚ (p, t) :: rest ∧ census s' ≡ₚ (p, (f t).2) :: rest.

Lemma update_blocked_ok {R} s i (f : Task → R * Task) r s' :
  update_blocked s i f = (r, s') →
  (r = None ∧ s' = s ∧ (i ∉ map id (BLOCKED_QUEUE s))) ∨
  (is_Some r ∧ (∃ b, s' = with_blocked s b (BLOCKED_CPU_MAP s)) ∧ updated f i s s').
Proof.
  unfold update_blocked. destruct (update_task i f _) as [[x b]|] eqn:Hu; intros [= <- <-].
  - right. split; [done|]. split; [by eexists|]. destruct (update_task_Some _ _ _ _ _ Hu) as (l1 & t & l2 & Hb & Ht & -> & _).
    exists IsBlocked, t. eexists. split; [done|]. unfold census. cbn. rewrite Hb, !map_app. cbn.
    split; by rewrite <- !(assoc_L (++)); cbn; rewrite <- !Permutation_middle.
  - left. split_and!; [done..|]. by eapply update_task_None.
Qed.

Lemma update_ready_ok {R} s cpu q i (f : Task → R * Task) x l :
  shape s → 0 ≤ cpu < MAX_CPUS → queue_of s cpu = Ret q → update_task i f (ready q) = Some (x, l) →
  ∃ s' qs, set_queue s cpu (mkCpuQueue l (current q)) = Ret s' ∧ s' = with_queues s qs ∧ shape s' ∧ currents s' = currents s ∧ updated f i s s'.
Proof.
  intros Hs Hc Hq (l1 & t & l2 & Hr' & Ht & -> & _)%update_task_Some.
  destruct (set_cpu_queue_ok s cpu q Hs Hc Hq) as (rest & Hr & Hset).
  destruct (Hset (mkCpuQueue (l1 ++ (f t).2 :: l2) (current q))) as (s' & He & -> & Hs' & Hcen).
  eexists _, _. split_and!; [done..| |].
  - by apply (currents_set s cpu q).
  - exists (OnCpu cpu), t. eexists. split; [done|]. rewrite Hr, Hcen, Hr'. cbn. rewrite !map_app. cbn.
    split; by rewrite <- !(assoc_L (++)); cbn; rewrite <- !Permutation_middle.
Qed.

(** ** The invariant *)

(** A task that exists is below the next identifier and has no exit status; it
    is in the state its place says. *)
Definition good (n : Z) (x : spot * Task) : Prop :=
  0 ≤ id x.2 < n ∧ exit_status x.2 = None ∧
  match x.1 with IsBlocked => state x.2 = Blocked | _ => state x.2 = Ready ∨ state x.2 = Running end.

Record sched_inv s : Prop := mkInv {
  si_shape : shape s;
  si_nodup : NoDup (ids s);
  si_good : Forall (good (TASK_NEXT_ID s)) (census s);
  si_cpus : map_Forall (λ _ c, 0 ≤ c < MAX_CPUS) (BLOCKED_CPU_MAP s);
  si_next : TASK_NEXT_ID s < 2 ^ 64;
}.

Lemma inv_move s s' x x' rest :
  sched_inv s → shape s' → census s ≡ₚ x :: rest → census s' ≡ₚ x' :: rest → id x'.2 = id x.2 →
  good (TASK_NEXT_ID s) x' → TASK_NEXT_ID s' = TASK_NEXT_ID s → map_Forall (λ _ c, 0 ≤ c < MAX_CPUS) (BLOCKED_CPU_MAP s') →
  sched_inv s'.
Proof.
  intros [Hs Hn Hg Hm Hx] Hs' Hc Hc' Hi Hg' He Hm'. unfold ids in Hn. rewrite Hc in Hn, Hg. apply list.Forall_cons in Hg as [_ Hg].
  split; [done| |rewrite He, Hc'; by constructor|done|lia]. unfold ids. rewrite Hc'. cbn in *. by rewrite Hi.
Qed.

Lemma inv_drop s s' x :
  sched_inv s → shape s' → census s ≡ₚ x :: census s' → TASK_NEXT_ID s' = TASK_NEXT_ID s → BLOCKED_CPU_MAP s' = BLOCKED_CPU_MAP s →
  sched_inv s'.
Proof.
  intros [Hs Hn Hg Hm Hx] Hs' Hc He Hm'. unfold ids in Hn. rewrite Hc in Hn, Hg. apply list.Forall_cons in Hg as [_ Hg].
  split; [done|by apply list.NoDup_cons in Hn as [_ ?]|by rewrite He|by rewrite Hm'|lia].
Qed.

Lemma inv_same s s' :
  sched_inv s → CPU_QUEUES s' = CPU_QUEUES s → BLOCKED_QUEUE s' = BLOCKED_QUEUE s → MIGRATION_QUEUE s' = MIGRATION_QUEUE s →
  PERCPU_BASES s' = PERCPU_BASES s → TASK_NEXT_ID s' = TASK_NEXT_ID s → BLOCKED_CPU_MAP s' = BLOCKED_CPU_MAP s → sched_inv s'.
Proof.
  intros [Hs Hn Hg Hm Hx] H1' H2' H3' H4' H5' H6'.
  split; unfold shape, ids, census in *; rewrite ?H1', ?H2', ?H3', ?H4', ?H5', ?H6'; done.
Qed.

Lemma inv_good s p t rest : sched_inv s → census s ≡ₚ (p, t) :: rest → good (TASK_NEXT_ID s) (p, t).
Proof. intros [_ _ Hg _ _] Hc. rewrite Hc in Hg. by apply list.Forall_cons in Hg as [? _]. Qed.

(** *** Waking *)

Lemma send_ipi_ok s cpu : shape s → 0 ≤ cpu < MAX_CPUS → send_ipi_to_cpu s cpu = Ret s ∨ ∃ i, send_ipi_to_cpu s cpu = Ret (with_ipi s i).
Proof.
  intros [_ Hp] Hc. unfold send_ipi_to_cpu, get_lapic_id_for_cpu. rewrite (proj2 (Z.ltb_lt _ _)) by lia.
  destruct (lookup_lt_is_Some_2 (PERCPU_BASES s) (Z.to_nat cpu)) as [b Hb]; [unfold len, MAX_CPUS in *; lia|].
  rewrite (index_lookup _ _ b) by (lia || done). destruct b; eauto.
Qed.

(** What waking does: nothing, or one task goes from the blocked queue to the
    end of the ready queue of the CPU it was blocked on. *)
Definition woken (cpu i : Z) s s' : Prop :=
  ∃ t rest, id t = i ∧ census s ≡ₚ (IsBlocked, t) :: rest ∧
    census s' ≡ₚ (OnCpu (default cpu (BLOCKED_CPU_MAP s !! i)), set_state t Ready) :: rest ∧
    BLOCKED_CPU_MAP s' = delete i (BLOCKED_CPU_MAP s).

Lemma wake_ok s cpu i :
  sched_inv s → 0 ≤ cpu < MAX_CPUS →
  ∃ s', wake_task_by_id s cpu i = Ret s' ∧ sched_inv s' ∧ currents s' = currents s ∧ TASK_NEXT_ID s' = TASK_NEXT_ID s ∧
    sc_frames s' = sc_frames s ∧ sc_memory s' = sc_memory s ∧
    ((i ∉ map id (BLOCKED_QUEUE s)) ∧ s' = s ∨ woken cpu i s s').
Proof.
  intros Hi Hc. unfold wake_task_by_id. destruct (take_task i _) as [[t b]|] eqn:Ht; [|apply take_task_None in Ht; eauto 10].
  set (target := default cpu _). pose (s1 := with_blocked s b (delete i (BLOCKED_CPU_MAP s))).
  destruct (take_blocked_ok s i t b (delete i (BLOCKED_CPU_MAP s)) Ht) as [Hcen Hid]. fold s1 in Hcen |- *.
  assert (0 ≤ target < MAX_CPUS) as Htg.
  { unfold target. destruct (BLOCKED_CPU_MAP s !! i) eqn:Hl; [|done]. by apply (si_cpus s Hi i). }
  assert (shape s1) as Hs1 by apply (si_shape s Hi).
  destruct (push_ready_ok s1 target (set_state t Ready) Hs1 Htg) as (s2 & qs & -> & -> & Hs2 & Hcur & Hcen2). cbn [mbind outcome_bind].
  assert (sched_inv (with_queues s1 qs)) as Hi2.
  { destruct (inv_good _ _ _ _ Hi Hcen) as (Hb & He & _).
    apply (inv_move s _ _ _ _ Hi Hs2 Hcen Hcen2); [done| |done|]; [split_and!; cbn in *; [lia..|done|by left]|].
    intros k c Hk. cbn in Hk. apply lookup_delete_Some in Hk as [_ Hk]. by apply (si_cpus s Hi k). }
  assert (woken cpu i s (with_queues s1 qs)) as Hw by (exists t, (census s1); done).
  destruct (target =? cpu); [by eexists; split_and!; eauto|].
  destruct (send_ipi_ok (with_queues s1 qs) target Hs2 Htg) as [->|[v ->]]; eexists; split_and!; eauto.
  by apply (inv_same (with_queues s1 qs)).
Qed.

Lemma unblock_ok s cpu :
  sched_inv s → 0 ≤ cpu < MAX_CPUS →
  ∃ s', unblock_current s cpu = Ret s' ∧ sched_inv s' ∧ currents s' = currents s ∧ BLOCKED_CPU_MAP s' = BLOCKED_CPU_MAP s ∧
    (s' = s ∨ ∃ i t rest, Some i ∈ currents s ∧ id t = i ∧ census s ≡ₚ (IsBlocked, t) :: rest ∧ census s' ≡ₚ (OnCpu cpu, set_state t Ready) :: rest).
Proof.
  intros Hi Hc. unfold unblock_current. destruct (queue_of_ok s cpu (si_shape s Hi) Hc) as [q Hq]. rewrite Hq. cbn [mbind outcome_bind].
  destruct (current q) as [i|] eqn:Hcur; [|eauto 10]. destruct (take_task i _) as [[t b]|] eqn:Ht; [|eauto 10].
  destruct (take_blocked_ok s i t b (BLOCKED_CPU_MAP s) Ht) as [Hcen Hid]. set (s1 := with_blocked s b (BLOCKED_CPU_MAP s)) in *.
  destruct (push_ready_ok s1 cpu (set_state t Ready)) as (s2 & qs & -> & -> & Hs2 & Hcs & Hcen2); [apply (si_shape s Hi)|done|].
  eexists. split_and!; [done| |done|done|].
  - destruct (inv_good _ _ _ _ Hi Hcen) as (Hb & He & _).
    apply (inv_move s _ _ _ _ Hi Hs2 Hcen Hcen2); [done| |done|apply (si_cpus s Hi)]. split_and!; cbn in *; [lia..|done|by left].
  - right. exists i, t, (census s1). split_and!; [|done..]. rewrite <- Hcur. by apply (queue_current s cpu).
Qed.

(** *** Blocking *)

Definition parked (t : Task) (ctx : SavedContext) : Task := set_context (set_state t Blocked) (Some ctx).

Lemma block_running_ok s cpu q i ctx :
  sched_inv s → 0 ≤ cpu < MAX_CPUS → queue_of s cpu = Ret q →
  ∃ s', block_running s cpu i ctx = Ret s' ∧ sched_inv s' ∧ currents s' = currents s ∧
    match take_task i (ready q) with
    | None => s' = s
    | Some (t, l) =>
        queue_of s' cpu = Ret (mkCpuQueue l (current q)) ∧ id t = i ∧ BLOCKED_CPU_MAP s' = <[i := cpu]> (BLOCKED_CPU_MAP s) ∧
        BLOCKED_QUEUE s' = BLOCKED_QUEUE s ++ [parked t ctx] ∧
        ∃ rest, census s ≡ₚ (OnCpu cpu, t) :: rest ∧ census s' ≡ₚ (IsBlocked, parked t ctx) :: rest
    end.
Proof.
  intros Hi Hc Hq. unfold block_running. rewrite Hq. cbn [mbind outcome_bind]. destruct (take_task i (ready q)) as [[t l]|] eqn:Ht; [|eauto 10].
  destruct (take_ready_ok s cpu q i t l (si_shape s Hi) Hc Hq Ht) as (s1 & qs & -> & -> & Hs1 & Hcs & Hcen & Hid & Hq1). cbn [mbind outcome_bind].
  assert (cast 32 cpu = cpu) as -> by (apply Z.mod_small; unfold MAX_CPUS in *; lia).
  eexists. split_and!; [done| |done|done|done|done|done|].
  - destruct (inv_good _ _ _ _ Hi Hcen) as (Hb & He & _).
    apply (inv_move s _ _ (IsBlocked, parked t ctx) _ Hi) with (2 := Hcen); [apply Hs1|apply push_blocked_ok|done|split_and!; cbn in *; [lia..|done|done]|done|].
    intros k c Hk. cbn in Hk. apply lookup_insert_Some in Hk as [[_ <-]|[_ Hk]]; [done|]. by apply (si_cpus s Hi k).
  - exists (census (with_queues s qs)). split; [done|]. apply push_blocked_ok.
Qed.

Lemma switch_next_ok s cpu q :
  sched_inv s → 0 ≤ cpu < MAX_CPUS → queue_of s cpu = Ret q →
  ∃ b s', switch_next s cpu = Ret (b, s') ∧ sched_inv s' ∧ BLOCKED_CPU_MAP s' = BLOCKED_CPU_MAP s ∧ BLOCKED_QUEUE s' = BLOCKED_QUEUE s ∧
    match ready q with
    | [] => b = false ∧ s' = s
    | t :: l =>
        queue_of s' cpu = Ret (mkCpuQueue (l ++ [set_state t Running]) (Some (id t))) ∧ CURRENT_TASK_ID s' = id t ∧
        currents s' = <[Z.to_nat cpu := Some (id t)]> (currents s) ∧
        (∃ rest, census s ≡ₚ (OnCpu cpu, t) :: rest ∧ census s' ≡ₚ (OnCpu cpu, set_state t Running) :: rest) ∧
        b = bool_decide (is_Some (context t)) ∧ (∀ c, context t = Some c → SWITCH_CONTEXT s' = Some (with_cr3 c (default 0 (page_table t))))
    end.
Proof.
  intros Hi Hc Hq. unfold switch_next. rewrite Hq. cbn [mbind outcome_bind]. destruct (ready q) as [|t l] eqn:Hr; [eauto 10|].
  pose (s1 := with_current_id s (id t)). assert (shape s1) as Hs1 by apply (si_shape s Hi).
  destruct (set_cpu_queue_ok s1 cpu q Hs1 Hc Hq) as (rest & Hcen & Hset).
  destruct (Hset (mkCpuQueue (l ++ [set_state t Running]) (Some (id t)))) as (s2 & Hs & -> & Hs2 & Hcen2). 
  cbn zeta. change (id (set_state t Running)) with (id t). fold s1. rewrite Hs. cbn [mbind outcome_bind].
  set (s2 := with_queues s1 _) in *. rewrite Hr in Hcen. change (census s1) with (census s) in Hcen.
  assert (census s2 ≡ₚ (OnCpu cpu, set_state t Running) :: map (at_spot (OnCpu cpu)) l ++ rest) as Hcen3.
  { rewrite Hcen2. cbn [ready]. rewrite map_app, <- (assoc_L (++)). cbn [map app]. by rewrite <- Permutation_middle. }
  clear Hcen2. destruct (inv_good _ _ _ _ Hi Hcen) as (Hb & He & Hst).
  assert (sched_inv s2) as Hi2.
  { apply (inv_move s _ _ _ _ Hi Hs2 Hcen Hcen3); [done| |done|apply (si_cpus s Hi)]. split_and!; cbn in *; [lia..|done|by right]. }
  assert (queue_of s2 cpu = Ret (mkCpuQueue (l ++ [set_state t Running]) (Some (id t)))) as Hq2.
  { apply index_lookup; [lia|]. cbn. apply list_lookup_insert_eq. apply index_Ret in Hq as [_ Hq]. by apply lookup_lt_Some in Hq. }
  assert (currents s2 = <[Z.to_nat cpu := Some (id t)]> (currents s)) as Hcs by (unfold currents; cbn; by rewrite list_fmap_insert).
  cbn [context set_state]. destruct (context t) as [c|] eqn:Hx.
  - eexists true, _. split_and!; [done|by apply (inv_same s2)|done|done|done|done|done|by exists (map (at_spot (OnCpu cpu)) l ++ rest)|done|by intros c' [= <-]].
  - eexists false, _. split_and!; [done..|by exists (map (at_spot (OnCpu cpu)) l ++ rest)|done|done].
Qed.

(** *** The other operations *)

Lemma remove_at (l : list Task) n t : l !! n = Some t → l ≡ₚ t :: take n l ++ drop (n + 1) l.
Proof.
  intros (l1 & l2 & -> & ->)%list_elem_of_split_length. rewrite take_app_length, drop_app_ge by lia.
  replace (length l1 + 1 - length l1)%nat with 1%nat by lia. cbn. by rewrite <- Permutation_middle.
Qed.

Lemma max_by_priority_spec l i best :
  match max_by_priority l i best with
  | None => l = [] ∧ best = None
  | Some (p, j) => best = Some (p, j) ∨ ∃ t, l !! Z.to_nat (j - i) = Some t ∧ i ≤ j ∧ priority t = p
  end.
Proof.
  revert i best. induction l as [|t l IH]; intros i best; cbn; [destruct best as [[]|]; naive_solver|].
  set (b := match best with Some _ => _ | None => _ end). specialize (IH (i + 1) b).
  destruct (max_by_priority l (i + 1) b) as [[p j]|]; cycle 1.
  { destruct IH as [_ IH]. unfold b in IH. destruct best as [[]|]; [|done]. by destruct (_ <? _). }
  destruct IH as [Hb|(t' & Ht' & Hj & Hp)].
  - unfold b in Hb. destruct best as [[p' j']|]; [destruct (_ <? _); [by left|]|];
      injection Hb as <- <-; right; exists t; by rewrite Z.sub_diag.
  - right. exists t'. replace (j - i) with (Z.succ (j - (i + 1))) by lia. rewrite Z2Nat.inj_succ by lia. cbn. split_and!; [done|lia|done].
Qed.

Lemma schedule_ok s cpu :
  sched_inv s → 0 ≤ cpu < MAX_CPUS →
  ∃ r s', schedule_next_local s cpu = Ret (r, s') ∧ sched_inv s' ∧ BLOCKED_CPU_MAP s' = BLOCKED_CPU_MAP s ∧
    (s' = s ∨ ∃ t rest, currents s' = <[Z.to_nat cpu := Some (id t)]> (currents s) ∧
      census s ≡ₚ (OnCpu cpu, t) :: rest ∧ census s' ≡ₚ (OnCpu cpu, set_state t Running) :: rest).
Proof.
  intros Hi Hc. unfold schedule_next_local. destruct (queue_of_ok s cpu (si_shape s Hi) Hc) as [q Hq]. rewrite Hq. cbn [mbind outcome_bind].
  pose proof (max_by_priority_spec (ready q) 0 None) as Hm. destruct (max_by_priority _ _ _) as [[p j]|]; [|eauto 10].
  destruct Hm as [?|(t & Ht & Hj & _)]; [done|]. rewrite Z.sub_0_r in Ht. rewrite (index_lookup _ _ t) by done. cbn [mbind outcome_bind].
  pose (s1 := with_current_id s (id t)). assert (shape s1) as Hs1 by apply (si_shape s Hi).
  destruct (set_cpu_queue_ok s1 cpu q Hs1 Hc Hq) as (rest & Hcen & Hset). change (census s1) with (census s) in Hcen.
  set (l := take _ _ ++ drop _ _). destruct (Hset (mkCpuQueue (l ++ [set_state t Running]) (Some (id t)))) as (s2 & Hs & -> & Hs2 & Hcen2).
  change (id (set_state t Running)) with (id t). cbn zeta. fold s1. rewrite Hs. cbn [mbind outcome_bind]. set (s2 := with_queues s1 _) in *.
  assert (census s2 ≡ₚ (OnCpu cpu, set_state t Running) :: map (at_spot (OnCpu cpu)) l ++ rest) as Hcen3.
  { rewrite Hcen2. cbn [ready]. rewrite map_app, <- (assoc_L (++)). cbn [map app]. by rewrite <- Permutation_middle. }
  rewrite (remove_at _ _ _ Ht) in Hcen. fold l in Hcen. cbn [map app] in Hcen. destruct (inv_good _ _ _ _ Hi Hcen) as (Hb & He & Hst).
  eexists _, s2. split_and!; [done| |done|].
  - apply (inv_move s _ _ _ _ Hi Hs2 Hcen Hcen3); [done| |done|apply (si_cpus s Hi)]. split_and!; cbn in *; [lia..|done|by right].
  - right. eexists t, _. split_and!; [|done..]. unfold currents. cbn. by rewrite list_fmap_insert.
Qed.

Lemma migrate_ok s i from to :
  sched_inv s → 0 ≤ from → 0 ≤ to →
  ∃ r s', migrate_task s i from to = Ret (r, s') ∧ sched_inv s' ∧ BLOCKED_CPU_MAP s' = BLOCKED_CPU_MAP s ∧ currents s' = currents s ∧
    (s' = s ∨ ∃ t rest, census s ≡ₚ (OnCpu from, t) :: rest ∧ census s' ≡ₚ (OnCpu to, t) :: rest).
Proof.
  intros Hi Hf Ht. unfold migrate_task. destruct (Z.leb_spec MAX_CPUS from); [eauto 10|]. destruct (Z.leb_spec MAX_CPUS to); [eauto 10|]. cbn [orb].
  destruct (queue_of_ok s from (si_shape s Hi)) as [q Hq]; [lia|]. rewrite Hq. cbn [mbind outcome_bind].
  destruct (take_task i (ready q)) as [[t l]|] eqn:Htk; [|eauto 10].
  destruct (take_ready_ok s from q i t l (si_shape s Hi)) as (s1 & qs & -> & -> & Hs1 & Hcs & Hcen & _ & _); [lia|done|done|]. cbn [mbind outcome_bind].
  destruct (push_ready_ok _ to t Hs1) as (s2 & qs' & -> & -> & Hs2 & Hcs2 & Hcen2); [lia|]. cbn [mbind outcome_bind].
  eexists _, _. split_and!; [done| |done|by rewrite Hcs2|right; by eexists t, _].
  destruct (inv_good _ _ _ _ Hi Hcen) as (Hb & He & Hst). by apply (inv_move s _ _ _ _ Hi Hs2 Hcen Hcen2); [|exact (conj Hb (conj He Hst))| |apply (si_cpus s Hi)].
Qed.

Lemma steal_ok s cpu :
  sched_inv s → 0 ≤ cpu < MAX_CPUS →
  ∃ r s', steal_from_migration s cpu = Ret (r, s') ∧ sched_inv s' ∧ BLOCKED_CPU_MAP s' = BLOCKED_CPU_MAP s ∧ currents s' = currents s ∧
    (s' = s ∨ ∃ t rest, census s ≡ₚ (Migrating, t) :: rest ∧ census s' ≡ₚ (OnCpu cpu, t) :: rest).
Proof.
  intros Hi Hc. unfold steal_from_migration. destruct (MIGRATION_QUEUE s) as [|t l] eqn:Hm; [eauto 10|].
  assert (census s ≡ₚ (Migrating, t) :: census (with_migration s l)) as Hcen.
  { unfold census. cbn. rewrite Hm. cbn. by rewrite <- !Permutation_middle. }
  destruct (push_ready_ok (with_migration s l) cpu t (si_shape s Hi) Hc) as (s2 & qs' & -> & -> & Hs2 & Hcs2 & Hcen2). cbn [mbind outcome_bind].
  eexists _, _. split_and!; [done| |done|by rewrite Hcs2|right; by eexists t, _].
  destruct (inv_good _ _ _ _ Hi Hcen) as (Hb & He & Hst). by apply (inv_move s _ _ _ _ Hi Hs2 Hcen Hcen2); [|exact (conj Hb (conj He Hst))| |apply (si_cpus s Hi)].
Qed.

Lemma least_loop_range qs i b n : least_loop qs i b n = b ∨ i ≤ least_loop qs i b n < i + len qs.
Proof.
  revert i b n. induction qs as [|q qs IH]; intros i b n; cbn; [by left|]. unfold len in *. cbn [length]. rewrite Nat2Z.inj_succ.
  destruct (_ <? n); [destruct (IH (i + 1) i (task_count q)) as [->|]; right; lia|destruct (IH (i + 1) b n); [by left|right; lia]].
Qed.

Lemma least_loaded_range s : shape s → 0 ≤ least_loaded_cpu s < MAX_CPUS.
Proof.
  intros [Hl _]. unfold least_loaded_cpu. destruct (least_loop_range (CPU_QUEUES s) 0 0 (2 ^ 64 - 1)) as [->|?]; [done|]. unfold MAX_CPUS in *. lia.
Qed.

(** A change of a task that keeps what the scheduler goes by. *)
Definition keeps (f : Task → Task) : Prop := ∀ t, id (f t) = id t ∧ state (f t) = state t ∧ exit_status (f t) = exit_status t.

Definition spawn_new s (nm : list Z) (prio : Z) (f : Task → Task) : outcome (Sched F) :=
  let '(t, s) := Task_new s nm prio in '(_, s) ← spawn_task_from s (f t); Ret s.

Lemma spawn_ok s nm prio f :
  sched_inv s → keeps f → 0 ≤ TASK_NEXT_ID s < 2 ^ 64 - 1 →
  ∃ s', spawn_new s nm prio f = Ret s' ∧ sched_inv s' ∧ BLOCKED_CPU_MAP s' = BLOCKED_CPU_MAP s ∧ currents s' = currents s ∧
    TASK_NEXT_ID s' = TASK_NEXT_ID s + 1 ∧ (census s' = census s ∨ ∃ c t, census s' ≡ₚ (OnCpu c, t) :: census s ∧ id t = TASK_NEXT_ID s).
Proof.
  intros [Hs Hnd Hg Hm Hx] Hf Hn. unfold spawn_new, Task_new, TaskId_new, spawn_task_from. cbn zeta.
  assert (wrapping_add 64 (TASK_NEXT_ID s) 1 = TASK_NEXT_ID s + 1) as -> by (apply Z.mod_small; lia).
  set (s1 := with_next_id s _). set (t := mkTask _ _ _ _ _ _ _ _ _ _ _ _ _). destruct (Hf t) as (Hid & Hst & Hex).
  assert (Forall (good (TASK_NEXT_ID s1)) (census s1)) as Hg1.
  { apply (list.Forall_impl _ _ _ Hg). intros x (Hb & He & Hp). split_and!; cbn; [lia..|done|done]. }
  destruct (MAX_TASKS <=? _); cbn [mbind outcome_bind]; [by exists s1; split_and!; [|split| | | |left]; cbn; try lia|].
  destruct (push_ready_ok s1 (least_loaded_cpu s1) (f t) Hs (least_loaded_range s1 Hs)) as (s2 & qs & -> & -> & Hs2 & Hcs & Hcen).
  cbn [mbind outcome_bind]. eexists. split_and!; [done| |done|done|done|right; eexists _, (f t); by rewrite Hid].
  split; [done| |rewrite Hcen; constructor; [|done]|done|cbn; lia].
  - unfold ids. rewrite Hcen. cbn. constructor; [|done]. rewrite Hid. intros [x [Hx' Hin]]%list_elem_of_fmap.
    apply (list.Forall_forall (good (TASK_NEXT_ID s)) (census s)) in Hin as [? _]; [|done]. cbn in *. lia.
  - split_and!; cbn; rewrite ?Hid, ?Hst, ?Hex; cbn; [lia..|done|by left].
Qed.

Lemma update_queues_ok {R} s i (f : Task → R * Task) cpus :
  sched_inv s → keeps (λ t, (f t).2) → Forall (λ c, 0 ≤ c < MAX_CPUS) cpus →
  ∃ r s', update_queues s i f cpus = Ret (r, s') ∧ sched_inv s' ∧ BLOCKED_CPU_MAP s' = BLOCKED_CPU_MAP s ∧ currents s' = currents s ∧
    TASK_NEXT_ID s' = TASK_NEXT_ID s ∧ CURRENT_TASK_ID s' = CURRENT_TASK_ID s ∧ sc_frames s' = sc_frames s ∧ sc_memory s' = sc_memory s ∧
    (r = None ∧ s' = s ∨ is_Some r ∧ updated f i s s').
Proof.
  intros Hi Hf. assert (∀ s', shape s' → TASK_NEXT_ID s' = TASK_NEXT_ID s → BLOCKED_CPU_MAP s' = BLOCKED_CPU_MAP s → updated f i s s' → sched_inv s') as Hinv.
  { intros s' Hs' Hn Hm (p & t & rest & Hid & Hc & Hc'). destruct (inv_good _ _ _ _ Hi Hc) as (Hb & He & Hst). destruct (Hf t) as (Hfi & Hfs & Hfe).
    apply (inv_move s _ _ _ _ Hi Hs' Hc Hc'); [done| |done|rewrite Hm; apply (si_cpus s Hi)]. unfold good. cbn in *. by rewrite Hfi, Hfs, Hfe. }
  induction cpus as [|c cpus IH]; intros Hcs; cbn [update_queues].
  - destruct (update_blocked s i f) as [r s'] eqn:Hu. destruct (update_blocked_ok s i f r s' Hu) as [(-> & -> & _)|(Hr & [b ->] & Hup)].
    + by eexists None, s; split_and!; eauto.
    + eexists r, _. split_and!; [done| |done..|by right]. apply Hinv; [apply (si_shape s Hi)|done..].
  - apply list.Forall_cons in Hcs as [Hc Hcs]. destruct (queue_of_ok s c (si_shape s Hi) Hc) as [q Hq]. rewrite Hq. cbn [mbind outcome_bind].
    destruct (update_task i f (ready q)) as [[x l]|] eqn:Hu; [|by apply IH].
    destruct (update_ready_ok s c q i f x l (si_shape s Hi) Hc Hq Hu) as (s' & qs & -> & -> & Hs' & Hcur & Hup). cbn [mbind outcome_bind].
    eexists _, _. split_and!; [done| |done..|right; by split]. by apply Hinv.
Qed.

Lemma search_order_range cpu : 0 ≤ cpu < MAX_CPUS → Forall (λ c, 0 ≤ c < MAX_CPUS) (search_order cpu).
Proof.
  intros Hc. constructor; [done|]. apply list.Forall_forall. intros c [_ Hin]%list_elem_of_filter. apply elem_of_seqZ in Hin. unfold MAX_CPUS in *. lia.
Qed.

Lemma current_mut_queues {R} s cpu (f : Task → R * Task) : with_current_task_mut s cpu f = update_queues s (CURRENT_TASK_ID s) f [cpu].
Proof. done. Qed.

(** Ending the running task [t]: it is gone, and its parent is woken. *)
Lemma terminate_ok s cpu active status o s' :
  sched_inv s → 0 ≤ cpu < MAX_CPUS → terminate_current s cpu active status = Ret (o, s') →
  sched_inv s' ∧ currents s' = currents s ∧
  match o with
  | None => s' = s
  | Some t' => ∃ t s1, census s ≡ₚ (OnCpu cpu, t) :: census s1 ∧ sched_inv s1 ∧ BLOCKED_CPU_MAP s1 = BLOCKED_CPU_MAP s ∧
      currents s1 = currents s ∧ TASK_NEXT_ID s' = TASK_NEXT_ID s ∧ Some (id t) ∈ currents s ∧ id t' = id t ∧ exit_status t' = Some status ∧
      match parent_id t with
      | None => s' = s1
      | Some p => wake_task_by_id s1 cpu p = Ret s'
      end
  end.
Proof.
  intros Hi Hc. unfold terminate_current. destruct (queue_of_ok s cpu (si_shape s Hi) Hc) as [q Hq]. rewrite Hq. cbn [mbind outcome_bind].
  destruct (current q) as [i|] eqn:Hcur; [|by intros [= <- <-]]. destruct (take_task i (ready q)) as [[t l]|] eqn:Ht; [|by intros [= <- <-]].
  rewrite <- Hcur. destruct (take_ready_ok s cpu q i t l (si_shape s Hi) Hc Hq Ht) as (s1 & qs & -> & -> & Hs1 & Hcs & Hcen & Hid & _).
  cbn [mbind outcome_bind]. destruct (release_all_for_task _ _) as [locks|]; [|done]. cbn [mbind outcome_bind].
  set (t1 := set_handle_table _ _). change (page_table t1) with (page_table t). cbn zeta.
  assert (Some (id t) ∈ currents s) as Hin by (rewrite Hid, <- Hcur; by apply (queue_current s cpu)).
  intros (s2 & Hfree & Hrest)%bind_ret.
  assert (∃ f m, s2 = with_memory (with_locks (with_queues s qs) locks) f m) as (f & m & ->).
  { destruct (page_table t) as [p4|]; [|injection Hfree as <-; eexists _, _; reflexivity].
    apply bind_ret in Hfree as (f & _ & [= <-]). eexists _, _. reflexivity. }
  set (s2 := with_memory _ f m) in *. apply bind_ret in Hrest as (s3 & Hw & [= <- <-]).
  assert (sched_inv s2) as Hi2 by (by apply (inv_drop s s2 (OnCpu cpu, t) Hi Hs1 Hcen)).
  change (parent_id (set_page_table t1 None)) with (parent_id t) in Hw.
  destruct (parent_id t) as [p|] eqn:Hp.
  - destruct (wake_ok s2 cpu p Hi2 Hc) as (s4 & Hw' & Hi4 & Hc4 & Hn4 & _). rewrite Hw in Hw'. injection Hw' as <-.
    split_and!; [done|by rewrite Hc4|]. exists t, s2. rewrite Hp. by split_and!.
  - injection Hw as <-. split_and!; [done..|]. exists t, s2. rewrite Hp. by split_and!.
Qed.

(** ** Runs *)

Inductive sched_op : Type :=
| OpSpawn (nm : list Z) (prio : Z) (f : Task → Task)
| OpUpdate (cpu i : Z) (f : Task → Task)
| OpUpdateCurrent (cpu : Z) (f : Task → Task)
| OpPriority (cpu i prio : Z)
| OpSetCurrent (cpu i : Z)
| OpSchedule (cpu : Z)
| OpWake (cpu i : Z)
| OpUnblock (cpu : Z)
| OpBlock (cpu : Z) (ctx : SavedContext)
| OpTerminate (cpu active status : Z)
| OpMigrate (i from to : Z)
| OpSteal (cpu : Z).

Definition run_op s (op : sched_op) : outcome (Sched F) :=
  match op with
  | OpSpawn nm prio f => spawn_new s nm prio f
  | OpUpdate cpu i f => '(_, s) ← with_task_mut s cpu i (λ t, ((), f t)); Ret s
  | OpUpdateCurrent cpu f => '(_, s) ← with_current_task_mut s cpu (λ t, ((), f t)); Ret s
  | OpPriority cpu i prio => '(_, s) ← set_task_priority s cpu i prio; Ret s
  | OpSetCurrent cpu i => set_current_task s cpu i
  | OpSchedule cpu => '(_, s) ← schedule_next_local s cpu; Ret s
  | OpWake cpu i => wake_task_by_id s cpu i
  | OpUnblock cpu => unblock_current s cpu
  | OpBlock cpu ctx => '(_, s) ← block_and_switch s cpu ctx; Ret s
  | OpTerminate cpu active status => '(_, s) ← terminate_current s cpu active status; Ret s
  | OpMigrate i from to => '(_, s) ← migrate_task s i from to; Ret s
  | OpSteal cpu => '(_, s) ← steal_from_migration s cpu; Ret s
  end.

Definition op_ok s (op : sched_op) : Prop :=
  match op with
  | OpSpawn _ _ f => keeps f ∧ 0 ≤ TASK_NEXT_ID s < 2 ^ 64 - 1
  | OpUpdate cpu _ f | OpUpdateCurrent cpu f => keeps f ∧ 0 ≤ cpu < MAX_CPUS
  | OpPriority cpu _ _ | OpSetCurrent cpu _ | OpSchedule cpu | OpWake cpu _ | OpUnblock cpu | OpBlock cpu _ | OpTerminate cpu _ _ | OpSteal cpu =>
      0 ≤ cpu < MAX_CPUS
  | OpMigrate _ from to => 0 ≤ from ∧ 0 ≤ to
  end.
Definition ends_task (op : sched_op) : bool := match op with OpTerminate _ _ _ => true | _ => false end.

(** [block_and_switch] in one piece: the running task is parked, and the head
    of the ready queue runs next. *)
Lemma block_ok s cpu ctx :
  sched_inv s → 0 ≤ cpu < MAX_CPUS →
  ∃ b s', block_and_switch s cpu ctx = Ret (b, s') ∧ sched_inv s' ∧
    (s' = s ∨ ∃ i q s1, queue_of s cpu = Ret q ∧ current q = Some i ∧ block_running s cpu i ctx = Ret s1 ∧ sched_inv s1 ∧ switch_next s1 cpu = Ret (b, s')).
Proof.
  intros Hi Hc. unfold block_and_switch. destruct (queue_of_ok s cpu (si_shape s Hi) Hc) as [q Hq]. rewrite Hq. cbn [mbind outcome_bind].
  destruct (current q) as [i|] eqn:Hcur; [|by eexists _, _; split_and!; [done| |left]].
  destruct (block_running_ok s cpu q i ctx Hi Hc Hq) as (s1 & Hb & Hi1 & _). rewrite Hb. cbn [mbind outcome_bind].
  destruct (queue_of_ok s1 cpu (si_shape s1 Hi1) Hc) as [q1 Hq1].
  destruct (switch_next_ok s1 cpu q1 Hi1 Hc Hq1) as (b & s2 & Hs & Hi2 & _).
  exists b, s2. split_and!; [done..|]. right. by exists i, q, s1.
Qed.

Lemma run_op_ok s op :
  sched_inv s → op_ok s op →
  (ends_task op = false → ∃ s', run_op s op = Ret s') ∧ ∀ s', run_op s op = Ret s' → sched_inv s'.
Proof.
  intros Hi Hop. assert (∀ s1, run_op s op = Ret s1 → sched_inv s1 → (ends_task op = false → ∃ s', run_op s op = Ret s') ∧ ∀ s', run_op s op = Ret s' → sched_inv s') as Hdone.
  { intros s1 -> Hi1. split; [eauto|]. by intros s' [= <-]. }
  destruct op; cbn [run_op op_ok ends_task] in *.
  - destruct Hop as [Hf Hn]. destruct (spawn_ok s nm prio f Hi Hf Hn) as (s' & He & Hi' & _). eauto.
  - destruct Hop as [Hf Hc]. destruct (update_queues_ok s i (λ t, ((), f t)) _ Hi Hf (search_order_range cpu Hc)) as (r & s' & He & Hi' & _).
    unfold with_task_mut in *. rewrite He in *. eauto.
  - destruct Hop as [Hf Hc]. destruct (update_queues_ok s (CURRENT_TASK_ID s) (λ t, ((), f t)) [cpu] Hi Hf) as (r & s' & He & Hi' & _); [by constructor|].
    rewrite current_mut_queues, He in *. eauto.
  - destruct (update_queues_ok s i (λ t, ((), set_priority t prio)) (search_order cpu) Hi) as (r & s' & He & Hi' & _); [done|by apply search_order_range|].
    unfold set_task_priority in *. rewrite He in *. by apply (Hdone s').
  - unfold set_current_task in *. destruct (queue_of_ok s cpu (si_shape s Hi) Hop) as [q Hq]. change (queue_of (with_current_id s i) cpu) with (queue_of s cpu) in *.
    rewrite Hq in *. cbn [mbind outcome_bind] in *. destruct (set_cpu_queue_ok (with_current_id s i) cpu q (si_shape s Hi) Hop Hq) as (rest & Hr & Hset).
    destruct (Hset (mkCpuQueue (ready q) (Some i))) as (s' & He & -> & Hs' & Hcen). apply (Hdone _ He). destruct Hi as [_ Hn Hg Hm Hx]. unfold ids in Hn.
    change (census (with_current_id s i)) with (census s) in Hr. cbn [ready] in Hcen. rewrite <- Hr in Hcen.
    split; [done|unfold ids; by rewrite Hcen|by rewrite Hcen|done|done].
  - destruct (schedule_ok s cpu Hi Hop) as (r & s' & He & Hi' & _). apply (Hdone s'); [by rewrite He|done].
  - destruct (wake_ok s cpu i Hi Hop) as (s' & He & Hi' & _). apply (Hdone s'); [by rewrite He|done].
  - destruct (unblock_ok s cpu Hi Hop) as (s' & He & Hi' & _). apply (Hdone s'); [by rewrite He|done].
  - destruct (block_ok s cpu ctx Hi Hop) as (b & s' & He & Hi' & _). apply (Hdone s'); [by rewrite He|done].
  - split; [done|]. intros s' ([o s1] & Ht & [= <-])%bind_ret. by destruct (terminate_ok s cpu active status o s1 Hi Hop Ht).
  - destruct Hop as [Hf Ht]. destruct (migrate_ok s i from to Hi Hf Ht) as (r & s' & He & Hi' & _). apply (Hdone s'); [by rewrite He|done].
  - destruct (steal_ok s cpu Hi Hop) as (r & s' & He & Hi' & _). apply (Hdone s'); [by rewrite He|done].
Qed.

(** The state before [init]: nothing runs. *)
Definition boot_state s : Prop :=
  CPU_QUEUES s = replicate 8 CpuQueue_new ∧ BLOCKED_QUEUE s = [] ∧ MIGRATION_QUEUE s = [] ∧ BLOCKED_CPU_MAP s = ∅ ∧
  len (PERCPU_BASES s) = MAX_CPUS ∧ TASK_NEXT_ID s = 0.

Inductive runs : Sched F → Sched F → Prop :=
| runs_refl s : runs s s
| runs_step s op s1 s2 : op_ok s op → run_op s op = Ret s1 → runs s1 s2 → runs s s2.

Lemma runs_inv s s' : runs s s' → sched_inv s → sched_inv s'.
Proof. induction 1 as [|s op s1 s2 Hop Hr _ IH]; [done|]. intros Hi. apply IH. by apply (run_op_ok s op Hi Hop). Qed.

Lemma init_inv s idle stack : boot_state s → ∃ s0, init s idle stack = Ret s0 ∧ sched_inv s0.
Proof.
  intros (Hq & Hb & Hm & Hc & Hp & Hn). unfold init, Task_new, TaskId_new, queue_of, set_queue. cbn. rewrite Hq, Hn. cbn.
  eexists. split; [done|]. split; unfold ids, census; cbn; rewrite ?Hb, ?Hm, ?Hc; cbn.
  - done.
  - apply NoDup_singleton.
  - constructor; [|constructor]. by split_and!; [..|left].
  - apply map_Forall_empty.
  - done.
Qed.

(** C4: a task is in one place at a time. In every state the scheduler reaches
    from boot, each task has an identifier of its own, is on the ready queue of
    one of the eight CPUs, blocked or migrating, is in the state its place says,
    and has no exit status; and no operation panics there, ending a task (which
    frees memory) apart. *)
Theorem scheduler_invariant s idle stack :
  boot_state s →
  ∃ s0, init s idle stack = Ret s0 ∧ ∀ s1, runs s0 s1 →
    NoDup (ids s1) ∧ Forall (good (TASK_NEXT_ID s1)) (census s1) ∧
    ∀ op, op_ok s1 op → ends_task op = false → ∃ s2, run_op s1 op = Ret s2.
Proof.
  intros Hb. destruct (init_inv s idle stack Hb) as (s0 & Hs & Hi). exists s0. split; [done|]. intros s1 Hr.
  pose proof (runs_inv _ _ Hr Hi) as Hi1. split_and!; [apply Hi1..|]. intros op Hop He. by apply (run_op_ok s1 op Hi1 Hop).
Qed.

(** ** Waiting to be woken *)

Lemma census_ready s c q t : shape s → 0 ≤ c < MAX_CPUS → queue_of s c = Ret q → t ∈ ready q → (OnCpu c, t) ∈ census s.
Proof.
  intros Hs Hc Hq Ht. destruct (set_cpu_queue_ok s c q Hs Hc Hq) as (rest & -> & _). apply elem_of_app. left.
  apply list_elem_of_fmap. by exists t.
Qed.

Lemma census_inv s p t :
  (p, t) ∈ census s →
  match p with
  | OnCpu c => ∃ q, queue_of s c = Ret q ∧ t ∈ ready q
  | IsBlocked => t ∈ BLOCKED_QUEUE s
  | Migrating => t ∈ MIGRATION_QUEUE s
  end.
Proof.
  unfold census. rewrite !elem_of_app, !list_elem_of_fmap. intros [Hin|[(x & [= -> ->] & Hx)|(x & [= -> ->] & Hx)]]; [|done..].
  apply list_elem_of_In, in_concat in Hin as (l & Hl & Hx). apply list_elem_of_In in Hl, Hx.
  apply elem_of_lookup_imap in Hl as (c & q & -> & Hq). rename Hx into Hl.
  apply list_elem_of_fmap in Hl as (x & [= -> ->] & Hx). exists q. split; [|done]. apply index_lookup; [lia|]. by rewrite Nat2Z.id.
Qed.

Lemma census_blocked s t : t ∈ BLOCKED_QUEUE s → (IsBlocked, t) ∈ census s.
Proof. intros Ht. unfold census. rewrite !elem_of_app, !list_elem_of_fmap. right. left. by exists t. Qed.

Lemma census_unique s p t p' t' : sched_inv s → (p, t) ∈ census s → (p', t') ∈ census s → id t = id t' → p = p' ∧ t = t'.
Proof.
  intros Hi [rest Hr]%elem_of_Permutation Hin' He. pose proof (si_nodup s Hi) as Hn. unfold ids in Hn. rewrite Hr in Hn, Hin'.
  apply elem_of_cons in Hin' as [[= <- <-]|Hin']; [done|]. cbn in Hn. apply list.NoDup_cons in Hn as [Hn _]. destruct Hn.
  rewrite He. apply list_elem_of_fmap. by exists (p', t').
Qed.

(** Task [i] is blocked, was running on CPU [c], and is current nowhere. *)
Definition waiting (i c : Z) s : Prop :=
  (∃ t, (IsBlocked, t) ∈ census s ∧ id t = i) ∧ BLOCKED_CPU_MAP s !! i = Some c ∧ (Some i ∉ currents s).

Lemma waiting_move i c s s' x x' rest :
  sched_inv s → waiting i c s → census s ≡ₚ x :: rest → census s' ≡ₚ x' :: rest → (id x.2 = i → x'.1 = x.1 ∧ id x'.2 = i) →
  BLOCKED_CPU_MAP s' !! i = BLOCKED_CPU_MAP s !! i → (Some i ∉ currents s') → waiting i c s'.
Proof.
  intros Hi ((t & Ht & Hid) & Hm & _) Hc Hc' Hx Hm' Hcur. split_and!; [|by rewrite Hm'|done].
  pose proof Ht as Ht'. rewrite Hc in Ht'. apply elem_of_cons in Ht' as [<-|Hin].
  - destruct (Hx Hid) as [Hp Hq]. destruct x' as [p t']. cbn in *. subst p. exists t'. split; [|done]. rewrite Hc'. by left.
  - exists t. split; [|done]. rewrite Hc'. by right.
Qed.

Lemma waiting_other i c s p t rest : sched_inv s → waiting i c s → census s ≡ₚ (p, t) :: rest → p ≠ IsBlocked → id t ≠ i.
Proof.
  intros Hi ((t' & Ht & Hid) & _ & _) Hc Hp He. destruct (census_unique s p t IsBlocked t' Hi) as [? _]; [rewrite Hc; by left|done|congruence|done].
Qed.

Lemma current_set (i : Z) (l : list (option Z)) (n : nat) (j : Z) : (Some i ∉ l) → j ≠ i → Some i ∉ <[n := Some j]> l.
Proof. intros Hl Hj [k Hk]%list_elem_of_lookup. apply list_lookup_insert_Some in Hk as [(_ & [= ?] & _)|[_ Hk]]; [done|]. by apply Hl, (list_elem_of_lookup_2 _ k). Qed.

(** The steps that may end the wait: a wake by identifier, the exit of a child,
    and making the task current by hand. *)
Definition wakes (i : Z) s (op : sched_op) : Prop :=
  match op with
  | OpWake _ j | OpSetCurrent _ j => j = i
  | OpTerminate cpu _ _ => ∃ q t, queue_of s cpu = Ret q ∧ t ∈ ready q ∧ parent_id t = Some i
  | _ => False
  end.

Lemma waiting_wake i c s cpu j s' :
  sched_inv s → waiting i c s → 0 ≤ cpu < MAX_CPUS → j ≠ i → wake_task_by_id s cpu j = Ret s' → waiting i c s'.
Proof.
  intros Hi Hw Hc Hj He. destruct (wake_ok s cpu j Hi Hc) as (s1 & He' & _ & Hcur & _ & _ & _ & Hcase). rewrite He in He'. injection He' as <-.
  destruct Hcase as [[_ ->]|(t & rest & Hid & Hcen & Hcen' & Hm)]; [done|].
  apply (waiting_move i c s s' _ _ rest Hi Hw Hcen Hcen'); [cbn; congruence|by rewrite Hm, lookup_delete_ne|rewrite Hcur; apply Hw].
Qed.

Lemma waiting_block i c s cpu ctx b s' :
  sched_inv s → waiting i c s → 0 ≤ cpu < MAX_CPUS → block_and_switch s cpu ctx = Ret (b, s') → waiting i c s'.
Proof.
  intros Hi Hw Hc He. destruct (block_ok s cpu ctx Hi Hc) as (b' & s2 & He' & _ & Hcase). rewrite He in He'. injection He' as <- <-.
  destruct Hcase as [->|(j & q & s1 & Hq & Hj & Hb & Hi1 & Hs)]; [done|].
  destruct (block_running_ok s cpu q j ctx Hi Hc Hq) as (s1' & Hb' & _ & Hcs & Hrun). rewrite Hb in Hb'. injection Hb' as <-.
  assert (waiting i c s1) as Hw1.
  { destruct (take_task j (ready q)) as [[t l]|]; [|by subst]. destruct Hrun as (_ & Hid & Hm & _ & rest & Hcen & Hcen').
    pose proof (waiting_other i c s _ t rest Hi Hw Hcen ltac:(done)) as Hne.
    apply (waiting_move i c s s1 _ _ rest Hi Hw Hcen Hcen'); [done|rewrite Hm, lookup_insert_ne; congruence|rewrite Hcs; apply Hw]. }
  destruct (queue_of_ok s1 cpu (si_shape s1 Hi1) Hc) as [q1 Hq1].
  destruct (switch_next_ok s1 cpu q1 Hi1 Hc Hq1) as (b1 & s2 & Hs' & _ & Hm & _ & Hsw). rewrite Hs in Hs'. injection Hs' as <- <-.
  destruct (ready q1) as [|t l]; [by destruct Hsw as [_ ->]|]. destruct Hsw as (_ & _ & Hcur & (rest & Hcen & Hcen') & _).
  pose proof (waiting_other i c s1 _ t rest Hi1 Hw1 Hcen ltac:(done)) as Hne.
  apply (waiting_move i c s1 s' _ _ rest Hi1 Hw1 Hcen Hcen'); [done|by rewrite Hm|rewrite Hcur; apply current_set; [apply Hw1|done]].
Qed.

Lemma waiting_updated {R} i c s s' (f : Task → R * Task) j :
  sched_inv s → waiting i c s → keeps (λ t, (f t).2) → updated f j s s' → BLOCKED_CPU_MAP s' = BLOCKED_CPU_MAP s → currents s' = currents s → waiting i c s'.
Proof.
  intros Hi Hw Hf (p & t & rest & Hid & Hc & Hc') Hm Hcs.
  apply (waiting_move i c s s' _ _ rest Hi Hw Hc Hc'); [|by rewrite Hm|rewrite Hcs; apply Hw]. cbn. intros <-. by destruct (Hf t).
Qed.

Lemma waiting_queues {R} i c s s' (f : Task → R * Task) j cpus r :
  sched_inv s → waiting i c s → keeps (λ t, (f t).2) → Forall (λ k, 0 ≤ k < MAX_CPUS) cpus → update_queues s j f cpus = Ret (r, s') → waiting i c s'.
Proof.
  intros Hi Hw Hf Hc He. destruct (update_queues_ok s j f cpus Hi Hf Hc) as (r' & s1 & He' & _ & Hm & Hcs & _ & _ & _ & _ & Hcase).
  rewrite He in He'. injection He' as <- <-. destruct Hcase as [[_ ->]|[_ Hu]]; [done|]. by apply (waiting_updated i c s s' f j).
Qed.

Lemma waiting_add i c s s' x : waiting i c s → census s' ≡ₚ x :: census s → BLOCKED_CPU_MAP s' = BLOCKED_CPU_MAP s → currents s' = currents s → waiting i c s'.
Proof. intros ((t & Ht & Hid) & Hm & Hc) Hcen Hm' Hc'. split_and!; [|by rewrite Hm'|by rewrite Hc']. exists t. split; [|done]. rewrite Hcen. by right. Qed.

(** A task that is not blocked moves. *)
Lemma waiting_shift i c s s' p t x' rest :
  sched_inv s → waiting i c s → p ≠ IsBlocked → census s ≡ₚ (p, t) :: rest → census s' ≡ₚ x' :: rest →
  BLOCKED_CPU_MAP s' = BLOCKED_CPU_MAP s → (currents s' = currents s ∨ ∃ n, currents s' = <[n := Some (id t)]> (currents s)) → waiting i c s'.
Proof.
  intros Hi Hw Hp Hc Hc' Hm Hcs. pose proof (waiting_other i c s p t rest Hi Hw Hc Hp) as Hne.
  apply (waiting_move i c s s' _ _ rest Hi Hw Hc Hc'); [done|by rewrite Hm|].
  destruct Hcs as [->|[n ->]]; [|apply current_set; [|done]]; apply Hw.
Qed.

Lemma waiting_set_current i c s cpu j s' : sched_inv s → waiting i c s → 0 ≤ cpu < MAX_CPUS → j ≠ i → set_current_task s cpu j = Ret s' → waiting i c s'.
Proof.
  intros Hi Hw Hop Hj. unfold set_current_task. destruct (queue_of_ok s cpu (si_shape s Hi) Hop) as [q Hq].
  change (queue_of (with_current_id s j) cpu) with (queue_of s cpu). rewrite Hq. cbn [mbind outcome_bind].
  destruct (set_cpu_queue_ok (with_current_id s j) cpu q (si_shape s Hi) Hop Hq) as (rest & Hcen & Hset).
  destruct (Hset (mkCpuQueue (ready q) (Some j))) as (s1 & -> & -> & _ & Hcen'). intros [= <-].
  cbn [ready] in Hcen'. rewrite <- Hcen in Hcen'. destruct Hw as ((t & Ht & Hid) & Hm & Hcs). split_and!; [|done|].
  - exists t. split; [|done]. by rewrite Hcen'.
  - unfold currents. cbn. rewrite list_fmap_insert. by apply current_set.
Qed.

Lemma waiting_terminate i c s cpu active status o s' :
  sched_inv s → waiting i c s → 0 ≤ cpu < MAX_CPUS → ¬ wakes i s (OpTerminate cpu active status) → terminate_current s cpu active status = Ret (o, s') → waiting i c s'.
Proof.
  intros Hi Hw Hc Hn Hr. destruct (terminate_ok s cpu active status o s' Hi Hc Hr) as (_ & Hcs & Ho).
  destruct o as [t'|]; [|by subst]. destruct Ho as (t & s1 & Hcen & Hi1 & Hm & Hcs1 & _ & _ & _ & _ & Hp).
  assert (waiting i c s1) as Hw1.
  { destruct Hw as ((x & Hx & Hid) & Hy & Hz). split_and!; [|by rewrite Hm|by rewrite Hcs1]. exists x. split; [|done].
    rewrite Hcen in Hx. by apply elem_of_cons in Hx as [[= ?]|?]. }
  destruct (parent_id t) as [p|] eqn:Hpar; [|by subst]. apply (waiting_wake i c s1 cpu p s' Hi1 Hw1 Hc); [|done]. intros ->. destruct Hn.
  destruct (census_inv s (OnCpu cpu) t) as (q & Hq & Ht); [rewrite Hcen; by left|]. by exists q, t.
Qed.

Lemma waiting_step i c s op s' :
  sched_inv s → waiting i c s → op_ok s op → ¬ wakes i s op → run_op s op = Ret s' → waiting i c s'.
Proof.
  intros Hi Hw Hop Hn Hr. destruct op; cbn [run_op op_ok wakes] in *;
    match type of Hr with mbind _ _ = _ => apply bind_ret in Hr as ([r s1] & Hr & [= <-]) | _ => idtac end.
  - destruct Hop as [Hf Hnx]. destruct (spawn_ok s nm prio f Hi Hf Hnx) as (s1 & He & _ & Hm & Hcs & _ & Hcase). rewrite Hr in He. injection He as <-.
    destruct Hcase as [Heq|(k & t & Hcen & _)]; [|by apply (waiting_add i c s s' _ Hw Hcen)].
    destruct Hw as (Hx & Hy & Hz). split_and!; [by rewrite Heq|by rewrite Hm|by rewrite Hcs].
  - destruct Hop as [Hf Hc]. by apply (waiting_queues i c s _ (λ t, ((), f t)) _ _ _ Hi Hw Hf (search_order_range cpu Hc) Hr).
  - destruct Hop as [Hf Hc]. rewrite current_mut_queues in Hr.
    apply (waiting_queues i c s _ (λ t, ((), f t)) _ _ _ Hi Hw Hf) with (2 := Hr). by constructor.
  - apply bind_ret in Hr as ([r' s2] & Hr & [= <- <-]).
    by apply (waiting_queues i c s _ (λ t, ((), set_priority t prio)) _ _ _ Hi Hw (λ _, conj eq_refl (conj eq_refl eq_refl)) (search_order_range cpu Hop) Hr).
  - by apply (waiting_set_current i c s cpu i0).
  - destruct (schedule_ok s cpu Hi Hop) as (r' & s2 & He & _ & Hm & Hcase). rewrite Hr in He. injection He as <- <-.
    destruct Hcase as [->|(t & rest & Hcs & Hcen & Hcen')]; [done|]. apply (waiting_shift i c s s1 _ t _ rest Hi Hw) with (2 := Hcen) (3 := Hcen'); eauto.
  - by apply (waiting_wake i c s cpu i0).
  - destruct (unblock_ok s cpu Hi Hop) as (s1 & He & _ & Hcs & Hm & Hcase). rewrite Hr in He. injection He as <-.
    destruct Hcase as [->|(j & t & rest & Hj & Hid & Hcen & Hcen')]; [done|].
    apply (waiting_move i c s s' _ _ rest Hi Hw Hcen Hcen'); [|by rewrite Hm|rewrite Hcs; apply Hw]. cbn. intros <-. by destruct Hw as (_ & _ & []); rewrite Hid.
  - by apply (waiting_block i c s cpu ctx r).
  - by apply (waiting_terminate i c s cpu active status r).
  - destruct Hop as [Hf Ht]. destruct (migrate_ok s i0 from to Hi Hf Ht) as (r' & s2 & He & _ & Hm & Hcs & Hcase).
    rewrite Hr in He. injection He as <- <-. destruct Hcase as [->|(t & rest & Hcen & Hcen')]; [done|].
    apply (waiting_shift i c s s1 _ t _ rest Hi Hw) with (2 := Hcen) (3 := Hcen'); eauto.
  - destruct (steal_ok s cpu Hi Hop) as (r' & s2 & He & _ & Hm & Hcs & Hcase).
    rewrite Hr in He. injection He as <- <-. destruct Hcase as [->|(t & rest & Hcen & Hcen')]; [done|].
    apply (waiting_shift i c s s1 _ t _ rest Hi Hw) with (2 := Hcen) (3 := Hcen'); eauto.
Qed.

(** Runs in which nothing wakes task [i]. *)
Inductive quiet (i : Z) : Sched F → Sched F → Prop :=
| quiet_refl s : quiet i s s
| quiet_step s op s1 s2 : op_ok s op → ¬ wakes i s op → run_op s op = Ret s1 → quiet i s1 s2 → quiet i s s2.

Lemma quiet_waiting i c s s' : quiet i s s' → sched_inv s → waiting i c s → sched_inv s' ∧ waiting i c s'.
Proof.
  induction 1 as [|s op s1 s2 Hop Hn Hr _ IH]; [done|]. intros Hi Hw. apply IH.
  - by apply (run_op_ok s op Hi Hop).
  - by apply (waiting_step i c s op).
Qed.

(** After a switch away from it, the task that ran is waiting. *)
Lemma block_waiting s cpu ctx q i s1 :
  sched_inv s → 0 ≤ cpu < MAX_CPUS → queue_of s cpu = Ret q → current q = Some i → i ∈ map id (ready q) →
  (∀ c q', c ≠ cpu → queue_of s c = Ret q' → current q' ≠ Some i) →
  block_and_switch s cpu ctx = Ret (true, s1) → sched_inv s1 ∧ waiting i cpu s1.
Proof.
  intros Hi Hc Hq Hcur Hin Helse He. unfold block_and_switch in He. rewrite Hq in He. cbn [mbind outcome_bind] in He. rewrite Hcur in He.
  destruct (block_running_ok s cpu q i ctx Hi Hc Hq) as (s2 & Hb & Hi2 & Hcs & Hrun). rewrite Hb in He. cbn [mbind outcome_bind] in He.
  destruct (take_task i (ready q)) as [[t l]|] eqn:Ht; [|by apply take_task_None in Ht].
  destruct Hrun as (Hq2 & Hid & Hm & _ & rest & _ & Hcen).
  destruct (switch_next_ok s2 cpu _ Hi2 Hc Hq2) as (b & s3 & He' & Hi3 & Hm3 & _ & Hsw). rewrite He in He'. injection He' as <- <-. split; [done|].
  cbn [ready] in Hsw. destruct l as [|t' l]; [by destruct Hsw|]. destruct Hsw as (_ & _ & Hcs3 & (rest' & Hc2 & Hc3) & _).
  assert (id t' ≠ i) as Hne.
  { intros E. destruct (census_unique s2 (OnCpu cpu) t' IsBlocked (parked t ctx) Hi2) as [? _]; [rewrite Hc2; by left|rewrite Hcen; by left|cbn; congruence|done]. }
  split_and!.
  - exists (parked t ctx). split; [|done]. rewrite Hc3. right. assert ((IsBlocked, parked t ctx) ∈ census s2) as X by (rewrite Hcen; by left).
    rewrite Hc2 in X. by apply elem_of_cons in X as [[= ?]|?].
  - rewrite Hm3, Hm. apply lookup_insert_eq.
  - rewrite Hcs3, Hcs. intros [k Hk]%list_elem_of_lookup. apply list_lookup_insert_Some in Hk as [(_ & [= ?] & _)|[Hk Hl]]; [done|].
    unfold currents in Hl. apply list_lookup_fmap_Some in Hl as (q' & Hc' & Hl). destruct (Helse (Z.of_nat k) q'); [lia| |done].
    apply index_lookup; [lia|by rewrite Nat2Z.id].
Qed.


(** ** Priorities *)

Lemma max_by_priority_last l t i best :
  (∀ p j, best = Some (p, j) → p ≤ priority t) → (∀ t', t' ∈ l → priority t' ≤ priority t) →
  max_by_priority (l ++ [t]) i best = Some (priority t, i + len l).
Proof.
  revert i best. induction l as [|a l IH]; intros i best Hb Hl; cbn.
  - unfold len. cbn. rewrite Z.add_0_r. destruct best as [[p j]|]; [|done]. destruct (Z.ltb_spec (priority t) p); [|done]. specialize (Hb p j eq_refl). lia.
  - rewrite IH; [unfold len; cbn; do 2 f_equal; lia| |intros t' Ht'; apply Hl; by right].
    intros p j. destruct best as [[p' j']|]; [destruct (_ <? _); intros [= <- _]; [by apply (Hb p' j')|]|intros [= <- _]]; apply Hl; by left.
Qed.

Lemma max_by_priority_max l i best p j :
  max_by_priority l i best = Some (p, j) → (∀ t, t ∈ l → priority t ≤ p) ∧ (∀ p' j', best = Some (p', j') → p' ≤ p).
Proof.
  revert i best. induction l as [|a l IH]; intros i best; cbn; [intros ->; split; [intros t []%not_elem_of_nil|by intros p' j' [= <- _]]|].
  intros [Hl Hb]%IH. destruct best as [[p' j']|]; [destruct (Z.ltb_spec (priority a) p')|]; split.
  - intros t [->|?]%elem_of_cons; [|eauto]. specialize (Hb _ _ eq_refl). lia.
  - intros ? ? [= <- _]. eauto.
  - intros t [->|?]%elem_of_cons; eauto.
  - intros ? ? [= <- _]. specialize (Hb _ _ eq_refl). lia.
  - intros t [->|?]%elem_of_cons; eauto.
  - done.
Qed.

(** the priority scheduler does not go round: once it has picked a task it
    picks the same one every time, and leaves the queue as it is, even if others
    of the same priority are ready. *)
Theorem schedule_picks_same s cpu i s1 :
  schedule_next_local s cpu = Ret (Some i, s1) → schedule_next_local s1 cpu = Ret (Some i, s1).
Proof.
  unfold schedule_next_local at 1. intros (q & Hq & He)%bind_ret. apply index_Ret in Hq as [Hc Hq].
  pose proof (max_by_priority_max (ready q) 0 None) as Hmax. pose proof (max_by_priority_spec (ready q) 0 None) as Hsp.
  destruct (max_by_priority _ _ _) as [[p j]|]; [|done]. destruct (Hmax p j eq_refl) as [Hmax' _]. clear Hmax.
  apply bind_ret in He as (t & (_ & Ht)%index_Ret & He). set (l := take _ _ ++ drop _ _) in He. change (id (set_state t Running)) with (id t) in He.
  cbn zeta in He. apply bind_ret in He as (s' & Hs & [= <- <-]). apply bind_ret in Hs as (qs & Hst & [= <-]).
  assert (0 ≤ cpu < len (CPU_QUEUES s)) as Hlen by (apply lookup_lt_Some in Hq; unfold len; lia).
  rewrite store_ok in Hst by done. injection Hst as <-.
  assert (∀ t', t' ∈ l → priority t' ≤ priority t) as Hpr.
  { intros t' Ht'. destruct Hsp as [?|(x & Hx & _ & <-)]; [done|]. rewrite Z.sub_0_r, Ht in Hx. injection Hx as <-. apply Hmax'.
    rewrite (remove_at _ _ _ Ht). by right. }
  unfold schedule_next_local, queue_of. cbn [CPU_QUEUES with_queues with_current_id].
  rewrite (index_lookup _ _ (mkCpuQueue (l ++ [set_state t Running]) (Some (id t)))) by (done || (apply list_lookup_insert_eq; unfold len in *; lia)).
  cbn [mbind outcome_bind ready]. rewrite max_by_priority_last by done. rewrite (index_lookup _ _ (set_state t Running)); cycle 1.
  { unfold len. lia. }
  { unfold len. rewrite Z.add_0_l, Nat2Z.id. by apply list_lookup_middle. }
  cbn [mbind outcome_bind]. cbn zeta. change (id (set_state (set_state t Running) Running)) with (id t).
  unfold len. rewrite Z.add_0_l, Nat2Z.id, take_app_length, drop_ge, (right_id_L [] (++)) by (rewrite length_app; cbn; lia).
  unfold set_queue. cbn [CPU_QUEUES with_queues with_current_id]. rewrite store_ok by (unfold len in *; by rewrite length_insert). cbn [mbind outcome_bind].
  by rewrite list_insert_insert_eq.
Qed.

End sched.
