(* ===== verification/ProcessProofs.v ===== *)
(** * Theorems on processes and threads

    The system calls of Process.v on the scheduler: waiting for a process,
    sleeping, preemption, threads, the task list, and the start of a program. *)

From stdpp Require Import strings.
From S2P Require Import Prelude RustStr Bytes PhysMem Handle Vma Signal Vfs FsSyscalls FrameAlloc Shm FileLock Initrd Elf ElfProofs.
From S2P Require Import Paging PagingProofs Exec Sched SyscallEntry Process SchedProofs.

Section process.
Context {F : Type} `{FrameSource F} `{EntryFormat} `{BuildProfile}.
Implicit Types s : Sched F.

(** ** Waiting for a process *)

Lemma search_queues_ok s i cpus :
  sched_inv s → Forall (λ c, 0 ≤ c < MAX_CPUS) cpus →
  ∃ o, search_queues s i cpus = Ret o ∧ ∀ t, o = Some t → id t = i ∧ ∃ p, (p, t) ∈ census s.
Proof.
  intros Hi. induction cpus as [|c cpus IH]; intros Hc; cbn [search_queues].
  - eexists. split; [done|]. intros t [Ht Hid]%find_task_Some. split; [done|]. exists IsBlocked. by apply census_blocked.
  - apply list.Forall_cons in Hc as [Hc Hcs]. destruct (queue_of_ok s c (si_shape s Hi) Hc) as [q Hq]. rewrite Hq. cbn [mbind outcome_bind].
    destruct (find_task i (ready q)) as [t|] eqn:Hf; [|by apply IH]. eexists. split; [done|]. intros t' [= <-].
    apply find_task_Some in Hf as [Ht Hid]. split; [done|]. exists (OnCpu c). by apply (census_ready s c q); [apply Hi|..].
Qed.

Lemma no_exit_status s i : sched_inv s → get_exit_status s i = Ret None.
Proof.
  intros Hi. unfold get_exit_status. destruct (search_queues_ok s i (seqZ 0 MAX_CPUS) Hi) as (o & -> & Ho).
  { apply list.Forall_forall. intros c Hc%elem_of_seqZ. lia. }
  cbn [mbind outcome_bind]. destruct o as [t|]; [|done]. destruct (Ho t eq_refl) as [_ [p Hp]].
  pose proof (si_good s Hi) as Hg. rewrite list.Forall_forall in Hg. destruct (Hg _ Hp) as (_ & He & _). cbn in *. by rewrite He.
Qed.

Lemma wait_loop_blind fuel (obs : nat → Sched F * Z) n start child timeout :
  (∀ k, sched_inv (obs k).1) → (∀ k, 0 ≤ start ∧ start ≤ (obs k).2 < 2 ^ 64) →
  let r := wait_loop fuel obs n start child timeout in
  (r = Ret None ∨ r = Ret (Some Error_WouldBlock)) ∧ (timeout = U64_MAX → r = Ret None).
Proof.
  intros Hi Ht. revert n. induction fuel as [|fuel IH]; intros n; cbn [wait_loop]; [by split; [left|]|].
  rewrite no_exit_status by done. cbn [mbind outcome_bind]. destruct (Z.eqb_spec timeout 0) as [->|Hz]; [by split; [right|]|].
  destruct (Z.eqb_spec timeout U64_MAX) as [Hm|Hm]; [by apply IH|].
  rewrite sub64_ok by (specialize (Ht n); split; lia). cbn [mbind outcome_bind]. destruct (timeout <=? _); [by split; [right|]|apply IH].
Qed.

(** the exit of a process cannot be observed. Whatever the scheduler does
    from boot on while [sys_process_wait] polls, the exits of the child
    included, the wait finds no exit status: it ends with WouldBlock, or, when
    asked to wait for ever, does not end. *)
Theorem process_wait_blind s idle stack s0 (obs : nat → Sched F * Z) fuel child timeout :
  boot_state s → init s idle stack = Ret s0 → (∀ n, runs s0 (obs n).1) → (∀ n, 0 ≤ (obs 0%nat).2 ∧ (obs 0%nat).2 ≤ (obs n).2 < 2 ^ 64) →
  let r := sys_process_wait fuel obs child timeout in
  (r = Ret None ∨ r = Ret (Some Error_WouldBlock)) ∧ (timeout = U64_MAX → r = Ret None).
Proof.
  intros Hb Hs Hr Ht. destruct (init_inv s idle stack Hb) as (s0' & Hs' & Hi). rewrite Hs in Hs'. injection Hs' as <-.
  apply wait_loop_blind; [|done]. intros k. by apply (runs_inv s0).
Qed.

(** ** Sleeping *)

Lemma take_task_last i l t : (i ∉ map id l) → id t = i → take_task i (l ++ [t]) = Some (t, l).
Proof.
  intros Hl Hi. induction l as [|a l IH]; cbn.
  - by rewrite Hi, Z.eqb_refl.
  - cbn in Hl. apply not_elem_of_cons in Hl as [Ha Hl]. destruct (Z.eqb_spec (id a) i); [done|]. by rewrite IH.
Qed.

(** One pass of the loop parks the task that is current and makes the head of
    the queue current; when the queue is empty it changes nothing. *)
Lemma sleep_pass s cpu q t l ctx :
  sched_inv s → 0 ≤ cpu < MAX_CPUS → queue_of s cpu = Ret q → current q = Some (id t) → take_task (id t) (ready q) = Some (t, l) →
  ∃ b s' q', block_and_switch s cpu ctx = Ret (b, s') ∧ sched_inv s' ∧ queue_of s' cpu = Ret q' ∧ BLOCKED_QUEUE s' = BLOCKED_QUEUE s ++ [parked t ctx] ∧
    match l with
    | [] => ready q' = []
    | t' :: l' => current q' = Some (id t') ∧ take_task (id t') (ready q') = Some (set_state t' Running, l') ∧ CURRENT_TASK_ID s' = id t'
    end.
Proof.
  intros Hi Hc Hq Hcur Ht. unfold block_and_switch. rewrite Hq. cbn [mbind outcome_bind]. rewrite Hcur.
  destruct (block_running_ok s cpu q (id t) ctx Hi Hc Hq) as (s1 & -> & Hi1 & _ & Hrun). cbn [mbind outcome_bind]. rewrite Ht in Hrun.
  destruct Hrun as (Hq1 & _ & _ & Hb & _). destruct (switch_next_ok s1 cpu _ Hi1 Hc Hq1) as (b & s2 & -> & Hi2 & _ & Hb2 & Hsw). cbn [ready] in Hsw.
  destruct l as [|t' l'].
  - destruct Hsw as [-> ->]. eexists _, _, _. by split_and!.
  - destruct Hsw as (Hq2 & Hid & _ & (rest & Hc1 & _) & _). eexists _, _, _. split_and!; [done|done|exact Hq2|by rewrite Hb2|done| |done].
    cbn [ready]. apply take_task_last; [|done].
    assert (NoDup (map id (t' :: l'))) as Hnd.
    { pose proof (si_nodup s1 Hi1) as Hn. unfold ids in Hn. destruct (set_cpu_queue_ok s1 cpu _ (si_shape s1 Hi1) Hc Hq1) as (rest' & Hr & _).
      rewrite Hr, fmap_app in Hn. apply list.NoDup_app in Hn as [Hn _]. rewrite map_map in Hn. exact Hn. }
    by apply list.NoDup_cons in Hnd as [? _].
Qed.

Lemma idle_pass s cpu q ctx : queue_of s cpu = Ret q → ready q = [] → block_and_switch s cpu ctx = Ret (false, s).
Proof.
  intros Hq Hr. unfold block_and_switch, block_running, switch_next. rewrite Hq. cbn [mbind outcome_bind].
  destruct (current q); [|done]. rewrite Hr. cbn [take_task mbind outcome_bind]. rewrite Hq. cbn [mbind outcome_bind]. by rewrite Hr.
Qed.

Lemma sleep_idle fuel d s cpu q ticks n target ctx :
  queue_of s cpu = Ret q → ready q = [] → (d < fuel)%nat → (∀ j, (n ≤ j < n + d)%nat → ticks j < target) → target ≤ ticks (n + d)%nat →
  sleep_until_tick fuel s cpu ticks n target ctx = Ret (true, s).
Proof.
  intros Hq Hr. revert n d. induction fuel as [|fuel IH]; intros n d Hf Hlt Hge; [lia|]. cbn [sleep_until_tick].
  destruct d as [|d]; [rewrite Nat.add_0_r in Hge; by rewrite (proj2 (Z.leb_le _ _) Hge)|].
  rewrite (proj2 (Z.leb_gt target (ticks n))) by (apply Hlt; lia). rewrite (idle_pass s cpu q ctx Hq Hr). cbn [mbind outcome_bind].
  apply (IH (S n) d); [lia| |by replace (S n + d)%nat with (n + S d)%nat by lia]. intros j Hj. apply Hlt. lia.
Qed.

Lemma sleep_drain fuel l t s cpu q ticks n target ctx :
  sched_inv s → 0 ≤ cpu < MAX_CPUS → queue_of s cpu = Ret q → current q = Some (id t) → take_task (id t) (ready q) = Some (t, l) →
  (∀ j, (n ≤ j ≤ n + length l)%nat → ticks j < target) →
  ∃ s' q', sleep_until_tick (S (length l) + fuel) s cpu ticks n target ctx = sleep_until_tick fuel s' cpu ticks (n + S (length l)) target ctx ∧
    queue_of s' cpu = Ret q' ∧ ready q' = [] ∧ BLOCKED_QUEUE s' = BLOCKED_QUEUE s ++ map (λ t, parked t ctx) (t :: l).
Proof.
  revert t s q n. induction l as [|t' l IH]; intros t s q n Hi Hc Hq Hcur Ht Hlt; cbn [length Nat.add sleep_until_tick];
    rewrite (proj2 (Z.leb_gt target (ticks n))) by (apply Hlt; lia);
    destruct (sleep_pass s cpu q t _ ctx Hi Hc Hq Hcur Ht) as (b & s1 & q1 & -> & Hi1 & Hq1 & Hb & Hl); cbn [mbind outcome_bind].
  - exists s1, q1. split_and!; [by rewrite Nat.add_1_r|done..].
  - destruct Hl as (Hcur1 & Ht1 & _). destruct (IH (set_state t' Running) s1 q1 (S n)) as (s2 & q2 & Hs & Hq2 & Hr2 & Hb2); [done..| |].
    + intros j Hj. apply Hlt. cbn. lia.
    + exists s2, q2. split_and!; [|done|done|by rewrite Hb2, Hb, <- (assoc_L (++))].
      replace (n + S (S (length l)))%nat with (S n + S (length l))%nat by lia. exact Hs.
Qed.

(** a task that sleeps puts every other task of its CPU to sleep. The loop
    of [sys_sleep] stays in the kernel, where the switch it asked for does not
    take place, and blocks the next task on each pass: when it wakes, the ready
    queue is empty, and all tasks that were in it are in the blocked queue, each
    with the registers of the sleeper as its saved context. *)
Theorem sleep_parks_everyone s cpu q t l ticks delay d fuel ctx :
  sched_inv s → 0 ≤ cpu < MAX_CPUS → queue_of s cpu = Ret q → current q = Some (id t) → take_task (id t) (ready q) = Some (t, l) →
  is_uint 64 (ticks 0%nat + delay) → (∀ j, (1 ≤ j < 1 + d)%nat → ticks j < ticks 0%nat + delay) → ticks 0%nat + delay ≤ ticks (1 + d)%nat →
  (length l < d < fuel)%nat →
  ∃ s' q', sys_sleep fuel s cpu ticks delay ctx = Ret (Some 0, s') ∧ queue_of s' cpu = Ret q' ∧ ready q' = [] ∧
    BLOCKED_QUEUE s' = BLOCKED_QUEUE s ++ map (λ t, parked t ctx) (t :: l).
Proof.
  intros Hi Hc Hq Hcur Ht Hu Hlt Hge [Hd Hf]. unfold sys_sleep. rewrite add64_ok by done. cbn [mbind outcome_bind].
  destruct (sleep_drain (fuel - S (length l)) l t s cpu q ticks 1 (ticks 0%nat + delay) ctx Hi Hc Hq Hcur Ht) as (s1 & q1 & Hs & Hq1 & Hr1 & Hb1).
  { intros j Hj. apply Hlt. lia. }
  replace (S (length l) + (fuel - S (length l)))%nat with fuel in Hs by lia. rewrite Hs.
  rewrite (sleep_idle _ (d - S (length l)) s1 cpu q1 ticks _ _ ctx Hq1 Hr1); [by exists s1, q1|lia| |].
  - intros j Hj. apply Hlt. lia.
  - by replace (1 + S (length l) + (d - S (length l)))%nat with (1 + d)%nat by lia.
Qed.

(** ** Preemption *)

(** the call during which the timer preempts a task is carried out for
    another one. With the flag set, the task [a] that makes the call is blocked
    first and [b] becomes current; the handler then goes on: [getpid] gives the
    identifier of [b], and [exit] ends [b]. *)
Theorem preempted_call_misattributed s cpu q a b l ctx :
  sched_inv s → 0 ≤ cpu < MAX_CPUS → queue_of s cpu = Ret q → current q = Some (id a) → take_task (id a) (ready q) = Some (a, b :: l) →
  ∃ s1, preempt s cpu true ctx = Ret s1 ∧ sys_getpid s1 = as_i64 (id b) ∧ id a ∈ map id (BLOCKED_QUEUE s1) ∧
    ∀ active status t s2, terminate_current s1 cpu active status = Ret (Some t, s2) → id t = id b.
Proof.
  intros Hi Hc Hq Hcur Ht. destruct (sleep_pass s cpu q a _ ctx Hi Hc Hq Hcur Ht) as (sw & s1 & q1 & He & Hi1 & Hq1 & Hb & Hcur1 & Ht1 & Hid).
  exists s1. unfold preempt. rewrite He. split_and!; [done|unfold sys_getpid; by rewrite Hid| |].
  - rewrite Hb, map_app. apply elem_of_app. right. by apply list_elem_of_singleton.
  - intros active status t s2 Hterm. unfold terminate_current in Hterm. rewrite Hq1 in Hterm. cbn [mbind outcome_bind] in Hterm. rewrite Hcur1, Ht1 in Hterm.
    repeat (apply bind_ret in Hterm as (? & _ & Hterm)). by injection Hterm as <- _.
Qed.

(** ** Ending a task that shares its page table *)

Lemma woken_keeps cpu i s s' p o :
  woken cpu i s s' → (p, o) ∈ census s → ∃ p' o', (p', o') ∈ census s' ∧ id o' = id o ∧ page_table o' = page_table o.
Proof.
  intros (t & rest & Hid & Hc & Hc' & _) Hin. rewrite Hc in Hin. apply elem_of_cons in Hin as [[= -> ->]|Hin].
  - eexists _, _. rewrite Hc'. split; [by left|done].
  - exists p, o. rewrite Hc'. split; [by right|done].
Qed.

End process.

Section sharing.
Context {F : Type} `{PhysFrameLaws F} `{EntryFormatLaws} `{BuildProfile}.
Implicit Types s : Sched F.

(** a task that ends gives back one frame of its address space, the table
    of level 4 that is in CR3, and leaks all others; and if it is a thread, that
    table is the one its process and the other threads go on using. *)
Theorem exit_frees_table_in_use U p4 tab s cpu q t l status locks :
  sched_inv s → 0 ≤ cpu < MAX_CPUS → queue_of s cpu = Ret q → current q = Some (id t) → take_task (id t) (ready q) = Some (t, l) →
  page_table t = Some p4 → pt_inv U p4 tab (sc_frames s) (sc_memory s) → (∀ i, 0 ≤ i < 256 → U i) →
  release_all_for_task (file_locks s) (id t) = Ret locks →
  ∃ t' s', terminate_current s cpu p4 status = Ret (Some t', s') ∧ frames_out (sc_frames s') = frames_out (sc_frames s) ∖ {[p4]} ∧
    ∀ p o, (p, o) ∈ census s → id o ≠ id t → ∃ p' o', (p', o') ∈ census s' ∧ id o' = id o ∧ page_table o' = page_table o.
Proof.
  intros Hi Hc Hq Hcur Ht Hpt Hinv HU Hl. unfold terminate_current. rewrite Hq. cbn [mbind outcome_bind]. rewrite Hcur, Ht, <- Hcur.
  destruct (take_ready_ok s cpu q (id t) t l (si_shape s Hi) Hc Hq Ht) as (s1 & qs & -> & -> & Hs1 & Hcs & Hcen & _ & _). cbn [mbind outcome_bind].
  cbn [file_locks with_queues]. rewrite Hl. cbn [mbind outcome_bind]. set (t1 := set_handle_table _ _). change (page_table t1) with (page_table t).
  rewrite Hpt. cbn [sc_frames sc_memory with_locks with_queues]. destruct (free_own_table U p4 tab (sc_frames s) (sc_memory s) Hinv HU) as (f' & -> & Hf).
  cbn [mbind outcome_bind]. set (s2 := with_memory _ _ _). change (parent_id (set_page_table t1 None)) with (parent_id t).
  assert (sched_inv s2) as Hi2 by (by apply (inv_drop s s2 (OnCpu cpu, t) Hi Hs1 Hcen)).
  assert (∀ p o, (p, o) ∈ census s → id o ≠ id t → (p, o) ∈ census s2) as Hkeep.
  { intros p o Hin Hne. rewrite Hcen in Hin. by apply elem_of_cons in Hin as [[= -> ->]|Hin]. }
  destruct (parent_id t) as [par|]; cbn [mbind outcome_bind]; [|by eexists _, s2; split_and!; [|done|eauto 10]].
  destruct (wake_ok s2 cpu par Hi2 Hc) as (s3 & -> & _ & _ & _ & Hfr & _ & Hw). cbn [mbind outcome_bind]. eexists _, s3. split_and!; [done|by rewrite Hfr|].
  intros p o Hin Hne. destruct Hw as [[_ ->]|Hw]; [eauto 10|]. by apply (woken_keeps cpu par s2 s3 p o Hw), Hkeep.
Qed.

End sharing.

(** ** The task list *)

Lemma copy_into_lookup {A} (l : list A) a b src :
  0 ≤ a → a ≤ b ≤ len l → len src = b - a →
  ∃ l', copy_into l a b src = Ret l' ∧ len l' = len l ∧ ∀ p : Z, 0 ≤ p →
    l' !! Z.to_nat p = if decide (a ≤ p < b) then src !! Z.to_nat (p - a) else l !! Z.to_nat p.
Proof.
  intros Ha Hb Hs. rewrite copy_into_ok by (unfold len in *; lia). eexists. split; [done|]. unfold len in *. split.
  - rewrite !length_app, length_take, length_drop. lia.
  - intros p Hp. destruct (decide (a ≤ p < b)) as [Hin|Hout].
    + rewrite lookup_app_r, length_take, lookup_app_l by (rewrite ?length_take; lia). f_equal. lia.
    + destruct (decide (p < a)).
      * rewrite lookup_app_l by (rewrite ?length_take; lia). apply lookup_take_lt. lia.
      * rewrite lookup_app_r, length_take, lookup_app_r, lookup_drop by (rewrite ?length_take; lia). f_equal. lia.
Qed.

Lemma store_lookup {A} (l : list A) i x :
  0 ≤ i < len l → ∃ l', store l i x = Ret l' ∧ len l' = len l ∧ ∀ p : Z, 0 ≤ p → p ≠ i → l' !! Z.to_nat p = l !! Z.to_nat p.
Proof.
  intros Hi. rewrite store_ok by done. eexists. split; [done|]. unfold len. rewrite length_insert. split; [done|].
  intros p Hp Hne. apply list_lookup_insert_ne. lia.
Qed.

(** One entry: the identifier, the state and the priority go to its place, the
    name to the place of the first entry. *)
Lemma write_entry_ok n i t buf :
  len buf = 40 * n → 0 ≤ i < n → 2 ≤ n → 0 ≤ ti_name_len t ≤ 32 → len (ti_name t) = 32 →
  ∃ buf', write_entry i t buf = Ret buf' ∧ len buf' = len buf ∧
    (∀ p, 44 ≤ p → 10 ≤ p mod 40 → buf' !! Z.to_nat p = buf !! Z.to_nat p) ∧
    (∀ k, 0 ≤ k < ti_name_len t → buf' !! Z.to_nat (12 + k) = ti_name t !! Z.to_nat k).
Proof.
  intros Hl Hi Hn Hk Hnm. unfold write_entry, TASK_ENTRY_SIZE.
  destruct (copy_into_lookup buf (i * 40) (i * 40 + 8) (le_bytes 8 (ti_id t))) as (b1 & -> & Hl1 & H1'); [lia|lia|unfold len; rewrite length_le_bytes; lia|]. cbn [mbind outcome_bind].
  destruct (store_lookup b1 (i * 40 + 8) (state_code (ti_state t))) as (b2 & -> & Hl2 & H2'); [lia|]. cbn [mbind outcome_bind].
  destruct (store_lookup b2 (i * 40 + 9) (ti_priority t)) as (b3 & -> & Hl3 & H3'); [lia|]. cbn [mbind outcome_bind].
  rewrite slice_ok by (unfold len in *; lia). cbn [mbind outcome_bind]. rewrite Z.sub_0_r. cbn [Z.to_nat]. rewrite drop_0.
  destruct (copy_into_lookup b3 12 (12 + ti_name_len t) (take (Z.to_nat (ti_name_len t)) (ti_name t))) as (b4 & -> & Hl4 & H4');
    [lia|lia|unfold len in *; rewrite length_take; lia|].
  eexists. split_and!; [done|lia| |].
  - intros p Hp Hm. rewrite H4' by lia. rewrite decide_False by lia. pose proof (Z.div_mod p 40 ltac:(lia)). pose proof (Z.mod_pos_bound p 40 ltac:(lia)).
    rewrite H3', H2', H1', decide_False; [done|lia..].
  - intros k Hk'. rewrite H4' by lia. rewrite decide_True by lia. rewrite lookup_take_lt by lia. f_equal. lia.
Qed.

Lemma write_entries_ok n i ts buf :
  len buf = 40 * n → 0 ≤ i → i + len ts ≤ n → 2 ≤ n → Forall (λ t, 0 ≤ ti_name_len t ≤ 32 ∧ len (ti_name t) = 32) ts →
  ∃ buf', write_entries i ts buf = Ret buf' ∧ len buf' = len buf ∧
    (∀ p, 44 ≤ p → 10 ≤ p mod 40 → buf' !! Z.to_nat p = buf !! Z.to_nat p) ∧
    (∀ t k, list.last ts = Some t → 0 ≤ k < ti_name_len t → buf' !! Z.to_nat (12 + k) = ti_name t !! Z.to_nat k).
Proof.
  revert i buf. induction ts as [|t ts IH]; intros i buf Hl Hi Hn H2n Hf; cbn [write_entries]; [by eexists|].
  apply list.Forall_cons in Hf as [[Hk Hnm] Hf]. unfold len in Hn. cbn [length] in Hn. rewrite Nat2Z.inj_succ in Hn.
  destruct (write_entry_ok n i t buf) as (b1 & -> & Hl1 & Hkeep1 & Hname1); [done|lia|done|done|done|]. cbn [mbind outcome_bind].
  destruct (IH (i + 1) b1) as (b2 & Hw & Hl2 & Hkeep2 & Hname2); [lia|lia|unfold len; lia|done|done|].
  exists b2. split_and!; [done|lia|intros p Hp Hm; by rewrite Hkeep2, Hkeep1|].
  intros t' k Hlast Hk'. destruct ts as [|t2 ts]; [|by apply Hname2]. cbn in Hlast. injection Hlast as <-. cbn in Hw. injection Hw as <-. by apply Hname1.
Qed.

Lemma task_info_name t : 0 ≤ ti_name_len (task_info t) ≤ 32 ∧ len (ti_name (task_info t)) = 32.
Proof. unfold task_info, len. cbn. rewrite length_app, length_take, length_replicate. lia. Qed.

(** the list of tasks loses their names. With two tasks or more, every name
    is written where the first entry has its name: the first entry shows the
    name of the last task, and the name of every other entry is empty. *)
Theorem list_tasks_loses_names {F} (s : Sched F) (u : Z → Z) buf_ptr buf_len `{BuildProfile} :
  let n := len (list_tasks s) in
  2 ≤ n → 40 * n ≤ buf_len → user_range buf_ptr (40 * n) = true → saturating_add 64 buf_ptr buf_len ≤ USER_SPACE_MAX →
  ∃ u', sys_list_tasks s u buf_ptr buf_len = Ret (n, u') ∧
    (∀ i j, 1 ≤ i < n → 12 ≤ j < 40 → u' (buf_ptr + 40 * i + j) = 0) ∧
    ∀ t k, list.last (list_tasks s) = Some t → 0 ≤ k < ti_name_len t → Some (u' (buf_ptr + 12 + k)) = ti_name t !! Z.to_nat k.
Proof.
  intros n Hn Hl Hr Hs. unfold sys_list_tasks. pose proof Hr as Hr'. unfold user_range in Hr'. rewrite !andb_true_iff, !negb_true_iff in Hr'.
  destruct Hr' as ((((Hz & _) & Hm) & Hu) & _). unfold MAX_MSG_SIZE in Hm. rewrite Hz, (proj2 (Z.leb_gt _ _)) by lia.
  rewrite (proj2 (Z.ltb_ge _ _) Hs). cbn [orb]. fold n. rewrite mul64_ok by (unfold is_uint, TASK_ENTRY_SIZE; lia). cbn [mbind outcome_bind].
  unfold TASK_ENTRY_SIZE. rewrite (proj2 (Z.ltb_ge _ _)) by lia.
  destruct (write_entries_ok n 0 (list_tasks s) (replicate (Z.to_nat (n * 40)) 0)) as (b & -> & Hlb & Hkeep & Hname); [|lia|done|done| |].
  { unfold len. rewrite length_replicate. lia. }
  { apply list.Forall_fmap, list.Forall_true. intros t. apply task_info_name. }
  cbn [mbind outcome_bind]. assert (len b = 40 * n) as Hlb' by (rewrite Hlb; unfold len; rewrite length_replicate; lia).
  unfold copy_out. rewrite Hlb', Hr. assert (as_i64 n = n) as -> by (unfold as_i64; by rewrite (proj2 (Z.ltb_lt _ _)) by lia).
  eexists. split; [done|]. assert (∀ p, 0 ≤ p < 40 * n → poke u buf_ptr b (buf_ptr + p) = default 0 (b !! Z.to_nat p)) as Hpoke.
  { intros p Hp. unfold poke. rewrite Hlb', (proj2 (Z.leb_le _ _)), (proj2 (Z.ltb_lt _ _)) by lia. cbn. do 3 f_equal. lia. }
  split.
  - intros i j Hi Hj. rewrite <- Z.add_assoc, Hpoke by lia. rewrite Hkeep; [|lia|].
    + destruct (_ !! _) eqn:E; [|done]. by apply lookup_replicate in E as [-> _].
    + rewrite Z.add_comm, Z.mul_comm, Z.mod_add, Z.mod_small by lia. lia.
  - intros t k Ht Hk. assert (ti_name_len t ≤ 32 ∧ len (ti_name t) = 32) as [Hk32 Hl32].
    { apply last_Some_elem_of in Ht. unfold list_tasks in Ht. apply list_elem_of_fmap in Ht as (t0 & -> & _). pose proof (task_info_name t0). lia. }
    rewrite <- Z.add_assoc, Hpoke, (Hname t k) by (done || lia).
    destruct (lookup_lt_is_Some_2 (ti_name t) (Z.to_nat k)) as [x ->]; [unfold len in *; lia|done].
Qed.

(** ** Starting a program *)

Section found.
Context {F : Type}.
Implicit Types s : Sched F.

Lemma update_queues_None {R} s i (f : Task → R * Task) cpus s' :
  update_queues s i f cpus = Ret (None, s') →
  (i ∉ map id (BLOCKED_QUEUE s)) ∧ ∀ c q, c ∈ cpus → queue_of s c = Ret q → (i ∉ map id (ready q)).
Proof.
  induction cpus as [|c cpus IH]; cbn [update_queues].
  - intros [= Hu]. destruct (update_blocked_ok s i f None s' Hu) as [(_ & _ & ?)|[[? ?] _]]; [|done]. split; [done|]. intros c q []%not_elem_of_nil.
  - intros (q & Hq & He)%bind_ret. destruct (update_task i f (ready q)) as [[x l]|] eqn:Hu.
    { apply bind_ret in He as (? & _ & He). done. }
    destruct (IH He) as [Hb Hc]. split; [done|]. intros c' q' [->|Hin]%elem_of_cons Hq'; [|by apply (Hc c')].
    rewrite Hq in Hq'. injection Hq' as <-. by eapply update_task_None.
Qed.

(** [with_task_mut] finds every task that is not migrating. *)
Lemma with_task_mut_ok {R} s cpu i (f : Task → R * Task) p t :
  sched_inv s → 0 ≤ cpu < MAX_CPUS → keeps (λ t, (f t).2) → (p, t) ∈ census s → p ≠ Migrating → id t = i →
  ∃ r s', with_task_mut s cpu i f = Ret (Some r, s') ∧ sched_inv s' ∧ (p, (f t).2) ∈ census s' ∧
    sc_frames s' = sc_frames s ∧ sc_memory s' = sc_memory s.
Proof.
  intros Hi Hc Hf Hin Hp Hid. unfold with_task_mut.
  destruct (update_queues_ok s i f (search_order cpu) Hi Hf (search_order_range cpu Hc)) as (r & s' & He & Hi' & _ & _ & _ & _ & Hfr & Hm & Hcase).
  destruct Hcase as [[-> ->]|[[r' ->] (p' & t' & rest & Hid' & Hcen & Hcen')]].
  - exfalso. destruct (update_queues_None s i f _ s He) as [Hb Hq]. apply census_inv in Hin as Hin'. destruct p as [c| |]; [| |done].
    + destruct Hin' as (q & Hqc & Ht). apply (Hq c q); [|done|apply list_elem_of_fmap; by exists t].
      unfold search_order. destruct (decide (c = cpu)) as [->|Hne]; [by left|right]. apply list_elem_of_filter. split; [done|]. apply elem_of_seqZ.
      apply index_Ret in Hqc as [? Hl%lookup_lt_Some]. destruct (si_shape s Hi) as [Hs _]. unfold len in Hs. lia.
    + apply Hb, list_elem_of_fmap. by exists t.
  - destruct (census_unique s p t p' t' Hi Hin) as [-> ->]; [rewrite Hcen; by left|congruence|].
    exists r', s'. split_and!; [done..| |done|done]. rewrite Hcen'. by left.
Qed.

End found.

Section start.
Context {F : Type} `{PhysFrameLaws F} `{EntryFormatLaws} `{BuildProfile}.
Context {I W : Type} `{FileSystem I W}.
Implicit Types s : Sched F.


End start.
