(* ===== verification/IpcProofs.v ===== *)
(** * Theorems on channels and handles at the system call level

    A receiver that blocks and the sender that wakes it, the call that does not
    wake its server, and what the rights in a handle protect. *)

From S2P Require Import Prelude Handle Channel Signal Vfs FsSyscalls FrameAlloc Shm Elf Paging.
From S2P Require Import Sched SyscallEntry Process SchedProofs Ipc.

Section ipc.
Context {F : Type} `{FrameSource F} `{EntryFormat} `{BuildProfile}.
Implicit Types s : Sched F.

(** ** Sending to a receiver that waits *)

(** The receive that blocks: the channel records the receiver, and the task waits. *)
Lemma receive_blocks fuel env s o cpu u ctx h buf l on ch q s1 :
  sched_inv s → 0 ≤ cpu < MAX_CPUS → queue_of s cpu = Ret q → current q = Some (CURRENT_TASK_ID s) → CURRENT_TASK_ID s ∈ map id (ready q) →
  (∀ c q', c ≠ cpu → queue_of s c = Ret q' → current q' ≠ Some (CURRENT_TASK_ID s)) →
  lookup_channel s cpu h = Ret (Some (l, on)) → channels o !! l = Some ch →
  closed (own_end ch on) = false → pending_msg (own_end ch on) = None →
  block_and_switch s cpu ctx = Ret (true, s1) →
  let ch1 := set_ends ch on (set_receiver (Some (CURRENT_TASK_ID s)) (own_end ch on)) (own_end ch (peer on)) in
  sys_channel_receive fuel env s o cpu u ctx h buf = Ret (Some 0, s1, set_channels o (<[l := ch1]> (channels o)), u) ∧
  sched_inv s1 ∧ waiting (CURRENT_TASK_ID s) cpu s1.
Proof.
  intros Hi Hc Hq Hcur Hin Helse Hl Ho Hcl Hm Hb. split; [|by apply (block_waiting s cpu ctx q)].
  unfold sys_channel_receive. rewrite Hl. cbn [mbind outcome_bind]. unfold on_channel. rewrite Ho. unfold Channel_receive.
  destruct on; cbn in *; rewrite Hcl, Hm; cbn [mbind outcome_bind]; rewrite Hb; done.
Qed.

Lemma send_delivers s o cpu u h ptr n msg l from ch i s' :
  copy_in u ptr n = Some msg → len msg ≤ 4096 → lookup_channel s cpu h = Ret (Some (l, from)) → channels o !! l = Some ch →
  closed (own_end ch from) = false → closed (own_end ch (peer from)) = false → blocked_receiver (own_end ch (peer from)) = Some i →
  wake_task_by_id s cpu i = Ret s' →
  ∃ ch', sys_channel_send s o cpu u h ptr n = Ret (0, s', set_channels o (<[l := ch']> (channels o))) ∧
    own_end ch' (peer from) = set_msg (Some msg) (set_receiver None (own_end ch (peer from))).
Proof.
  intros Hm Hlen Hl Ho Hc Hc' Hr Hw. unfold sys_channel_send. rewrite Hm, Hl. cbn [mbind outcome_bind]. unfold on_channel. rewrite Ho.
  unfold Channel_send. rewrite Z.gtb_ltb, (proj2 (Z.ltb_ge _ _)) by (unfold Channel.MAX_MSG_SIZE; lia).
  destruct from; cbn in *; rewrite Hc, Hc', Hr; cbn; rewrite Hw; by eexists.
Qed.


(** ** Calling a server that waits *)

Lemma reply_loop_idle fuel n ch from :
  closed (own_end ch from) = false → pending_reply (own_end ch from) = None → reply_loop fuel (λ _ c, c) n ch from = (None, ch).
Proof.
  intros Hc Hp. revert n. induction fuel as [|fuel IH]; intros n; cbn [reply_loop]; [done|]. unfold Channel_check_reply.
  unfold own_end in Hc, Hp. destruct (ends ch from) as [src dst]. cbn in Hc, Hp. by rewrite Hc, Hp.
Qed.

(** a call to a server that waits in a receive hangs. The call stores the
    request and takes the server's mark off the channel, but does not wake it:
    as long as no other task uses the channel the caller polls for ever, and
    from then on no message wakes the server either, since each send takes it
    for absent. *)
Theorem call_strands_server fuel s o cpu u h ptr n rptr msg l from ch i :
  copy_in u ptr n = Some msg → lookup_channel s cpu h = Ret (Some (l, from)) → channels o !! l = Some ch →
  closed (own_end ch from) = false → closed (own_end ch (peer from)) = false → pending_reply (own_end ch from) = None →
  blocked_receiver (own_end ch (peer from)) = Some i → len msg ≤ 4096 →
  ∃ ch', sys_channel_call fuel (λ _ c, c) s o cpu u h ptr n rptr = Ret (None, set_channels o (<[l := ch']> (channels o)), u) ∧
    pending_msg (own_end ch' (peer from)) = Some msg ∧ blocked_receiver (own_end ch' (peer from)) = None ∧
    ∀ m t, len m ≤ 4096 → ∃ ch2, Channel_send ch' from m t = (SendPending, ch2).
Proof.
  intros Hm Hl Ho Hc Hc' Hp Hr Hlen. unfold sys_channel_call. rewrite Hm, Hl. cbn [mbind outcome_bind]. unfold on_channel. rewrite Ho.
  unfold Channel_call. rewrite Z.gtb_ltb, (proj2 (Z.ltb_ge _ _)) by (unfold Channel.MAX_MSG_SIZE; lia).
  assert (∀ m : list Z, len m ≤ 4096 → (len m >? Channel.MAX_MSG_SIZE) = false) as Hsz.
  { intros m Hm'. rewrite Z.gtb_ltb, Z.ltb_ge. exact Hm'. }
  destruct from; cbn in *; rewrite Hc, Hc', Hp; cbn; rewrite lookup_insert_eq, reply_loop_idle by done; cbn; rewrite insert_insert_eq;
    eexists; (split_and!; [done|done|done|]); intros m t Hm'; unfold Channel_send; rewrite (Hsz m Hm'); cbn; rewrite Hc, Hc'; cbn; by eexists.
Qed.

(** ** Rights *)

(** The same slot and generation, with every right. *)
Definition forged (h : Handle) : Handle := Handle_new (Handle_slot_id h) Rights_ALL (Handle_generation h).

Lemma forged_fields h : Handle_slot_id (forged h) = Handle_slot_id h ∧ Handle_generation (forged h) = Handle_generation h ∧ Handle_rights (forged h) = Rights_ALL.
Proof.
  unfold forged. rewrite slot_id_new, generation_new, rights_new, Handle_slot_id_eq, Handle_generation_eq. by rewrite !Zmod_mod.
Qed.

Lemma lookup_forged s cpu h : lookup_channel s cpu (forged h) = lookup_channel s cpu h.
Proof.
  unfold lookup_channel, current_object, with_current_task, Handle_from_raw, HandleTable_get.
  destruct (forged_fields h) as (-> & -> & _). done.
Qed.

(** the rights of a handle protect nothing. The calls do not ask for any
    right, and the rights that duplication asks for are those of the number the
    caller passes, not those in the table: a task that holds a handle with
    whatever rights, none included, sends with it as with one that has all, and
    duplicates it into a handle that has all. *)
Theorem rights_are_forgeable s o cpu u h ptr n tbl obj :
  HandleTable_get tbl h = Some obj → 0 ≤ next_slot tbl < 2 ^ 28 →
  sys_channel_send s o cpu u (forged h) ptr n = sys_channel_send s o cpu u h ptr n ∧
  ∃ h' tbl', HandleTable_duplicate tbl (forged h) Rights_ALL = Ret (Some h', tbl') ∧
    HandleTable_get tbl' h' = Some obj ∧ Handle_rights h' = Rights_ALL.
Proof.
  intros Hg Hn. destruct (forged_fields h) as (Hs & Hgn & Hr). split; [unfold sys_channel_send; by rewrite lookup_forged|].
  unfold HandleTable_duplicate. rewrite Hr. change (negb (Rights_contains Rights_ALL Rights_DUPLICATE)) with false. cbn [mbind].
  unfold HandleTable_get in Hg. rewrite Hs, Hgn. destruct (slots tbl !! Handle_slot_id h) as [e|]; [|done].
  destruct (Handle_generation (he_handle e) =? Handle_generation h); [|done]. injection Hg as <-. cbn [negb].
  rewrite add32_ok by (unfold is_uint; lia). eexists _, _. split; [done|]. unfold HandleTable_get. rewrite slot_id_new, rights_new, (Z.mod_small (next_slot tbl)) by done.
  cbn. rewrite lookup_insert_eq. cbn. rewrite Z.eqb_refl. by destruct (he_object e).
Qed.

End ipc.
