(* ===== verification/Scenario.v ===== *)
(** * Two tasks on one CPU

    A small machine on which the theorems on the scheduler, the processes and
    the channels apply: the frame allocator of the kernel, the entries of the
    x86_64 crate, an idle CPU apart from CPU 0, and two tasks there that share a
    page table and a channel. *)

From stdpp Require Import strings.
From S2P Require Import Prelude RustStr Bytes PhysMem Handle Channel Vma Signal Vfs Ramfs FsSyscalls FsProofs FrameAlloc Shm FileLock Initrd Elf ElfProofs.
From S2P Require Import Paging PagingProofs Exec Sched SyscallEntry Process Ipc SchedProofs ProcessProofs IpcProofs.

#[local] Existing Instance x86_entry.
#[local] Existing Instance x86_entry_laws.
#[local] Existing Instance dev_profile.

Definition machine (q : CpuQueue) (blocked : list Task) (cpus : gmap Z Z) (cur : Z) (used : list Z) : Sched FrameAllocator :=
  mkSched (q :: replicate 7 CpuQueue_new) blocked [] cpus cur 3 None (replicate 8 None) [] ∅ (elf_frames used) zero_memory.

Definition boot : Sched FrameAllocator :=
  mkSched (replicate 8 CpuQueue_new) [] [] ∅ 0 0 None (replicate 8 None) [] ∅ (elf_frames [1; 0; 0; 0]) zero_memory.

Lemma boot_ok : boot_state boot.
Proof. split_and!; reflexivity. Qed.

(** Both tasks hold the same handles: the two ends of a channel. *)
Definition handle_a : Handle := Handle_new 0 Rights_ALL 0.
Definition handle_b : Handle := Handle_new 1 Rights_ALL 1.
Definition table : HandleTable :=
  mkHandleTable (<[0 := mkHandleEntry handle_a (ChannelEndA 1%positive)]> {[1 := mkHandleEntry handle_b (ChannelEndB 1%positive)]}) 2 2.
Definition some_context : SavedContext := user_mode 0x400000 0x7FFF0000 P4.
Definition a_task (i : Z) (nm : string) : Task :=
  mkTask i (str nm) Ready 5 table (Some some_context) None None (Some P4) SignalState_new i i ∅.
Definition task_a : Task := a_task 1 "server".
Definition task_b : Task := a_task 2 "client".
Definition two_tasks : Sched FrameAllocator := machine (mkCpuQueue [task_a; task_b] (Some 1)) [] ∅ 1 [1; 0; 0; 0].
Definition objects : Objects := mkObjects {[1%positive := Channel_new]} ∅ ∅.

Lemma two_tasks_inv : sched_inv two_tasks.
Proof.
  split.
  - split; reflexivity.
  - apply (bool_decide_unpack _). vm_compute. exact I.
  - repeat (apply list.Forall_cons; split; [split_and!; [cbn; lia|cbn; lia|reflexivity|by left]|]). constructor.
  - apply map_Forall_empty.
  - reflexivity.
Qed.

Lemma scheduler_invariant_witness : ∃ s0 s1,
  init boot 0x1000 0x2000 = Ret s0 ∧ run_op s0 (OpSpawn (str "init") 5 (λ t, t)) = Ret s1 ∧ NoDup (ids s1).
Proof.
  destruct (scheduler_invariant boot 0x1000 0x2000 boot_ok) as (s0 & H0 & Hr).
  destruct (Hr s0 (runs_refl s0)) as (_ & _ & Hop).
  assert (op_ok s0 (OpSpawn (str "init") 5 (λ t, t))) as Hok.
  { vm_compute in H0. injection H0 as <-. split; [by intros t|]. split; vm_compute; congruence. }
  destruct (Hop _ Hok eq_refl) as (s1 & H1). exists s0, s1. split; [exact H0|]. split; [exact H1|].
  apply (Hr s1). apply (runs_step _ _ _ _ Hok H1). apply runs_refl.
Defined.

(** Task 1 gives up the CPU. *)
Definition after_block : Sched FrameAllocator :=
  match block_and_switch two_tasks 0 some_context with Ret (_, s) => s | Panic => two_tasks end.

Lemma block_runs : block_and_switch two_tasks 0 some_context = Ret (true, after_block).
Proof. reflexivity. Qed.

Lemma others_idle c q i : c ≠ 0 → queue_of two_tasks c = Ret q → current q ≠ Some i.
Proof.
  intros Hc (Hp & Hq)%index_Ret. destruct (Z.to_nat c) as [|n] eqn:E; [lia|]. cbn in Hq.
  change (replicate 7 CpuQueue_new !! n = Some q) in Hq. apply lookup_replicate in Hq as [-> _]. done.
Qed.


Lemma schedule_picks_same_witness : ∃ s1, schedule_next_local two_tasks 0 = Ret (Some 2, s1) ∧ schedule_next_local s1 0 = Ret (Some 2, s1).
Proof.
  destruct (schedule_next_local two_tasks 0) as [[o s1]|] eqn:E; [|vm_compute in E; discriminate].
  assert (o = Some 2) as -> by (vm_compute in E; congruence). exists s1. split; [reflexivity|]. apply (schedule_picks_same two_tasks 0 2 s1 E).
Defined.

Lemma process_wait_blind_witness : ∃ s0, init boot 0x1000 0x2000 = Ret s0 ∧
  sys_process_wait 100 (λ n, (s0, Z.of_nat (Nat.min n 1000))) 7 U64_MAX = Ret None.
Proof.
  destruct (init boot 0x1000 0x2000) as [s0|] eqn:E; [|vm_compute in E; discriminate]. exists s0. split; [reflexivity|].
  destruct (process_wait_blind boot 0x1000 0x2000 s0 (λ n, (s0, Z.of_nat (Nat.min n 1000))) 100 7 U64_MAX boot_ok E) as [_ Hw].
  - intros n. apply runs_refl.
  - intros n. cbn [snd]. lia.
  - exact (Hw eq_refl).
Defined.

Lemma sleep_parks_everyone_witness : ∃ s' q',
  sys_sleep 10 two_tasks 0 Z.of_nat 5 some_context = Ret (Some 0, s') ∧ queue_of s' 0 = Ret q' ∧ ready q' = [] ∧
  map id (BLOCKED_QUEUE s') = [1; 2].
Proof.
  destruct (sleep_parks_everyone two_tasks 0 (mkCpuQueue [task_a; task_b] (Some 1)) task_a [task_b] Z.of_nat 5 4 10 some_context)
    as (s' & q' & H1 & H2 & H3 & H4).
  - exact two_tasks_inv.
  - split; vm_compute; congruence.
  - reflexivity.
  - reflexivity.
  - reflexivity.
  - split; vm_compute; congruence.
  - intros j Hj. cbn. lia.
  - vm_compute. congruence.
  - cbn. lia.
  - exists s', q'. split; [exact H1|]. split; [exact H2|]. split; [exact H3|]. rewrite H4. reflexivity.
Defined.

Lemma preempted_call_misattributed_witness : ∃ s1,
  sys_getpid two_tasks = 1 ∧ preempt two_tasks 0 true some_context = Ret s1 ∧ sys_getpid s1 = 2.
Proof.
  destruct (preempted_call_misattributed two_tasks 0 (mkCpuQueue [task_a; task_b] (Some 1)) task_a task_b [] some_context) as (s1 & H1 & H2 & _).
  - exact two_tasks_inv.
  - split; vm_compute; congruence.
  - reflexivity.
  - reflexivity.
  - reflexivity.
  - exists s1. split; [reflexivity|]. split; [exact H1|]. rewrite H2. reflexivity.
Defined.

Lemma exit_frees_table_in_use_witness : ∃ t' s' p' o',
  terminate_current two_tasks 0 P4 0 = Ret (Some t', s') ∧ (P4 ∉ frames_out (sc_frames s')) ∧
  (p', o') ∈ census s' ∧ id o' = 2 ∧ page_table o' = Some P4.
Proof.
  destruct (exit_frees_table_in_use user_half P4 no_pages two_tasks 0 (mkCpuQueue [task_a; task_b] (Some 1)) task_a [task_b] 0 ∅)
    as (t' & s' & H1 & H2 & H3).
  - exact two_tasks_inv.
  - split; vm_compute; congruence.
  - reflexivity.
  - reflexivity.
  - reflexivity.
  - reflexivity.
  - exact demo_space.
  - intros i Hi. exact Hi.
  - reflexivity.
  - destruct (H3 (OnCpu 0) task_b) as (p' & o' & Hin & Hid & Hpt).
    + by right; left.
    + vm_compute. congruence.
    + exists t', s', p', o'. split; [exact H1|]. split; [rewrite H2; intros [_ Hn]%elem_of_difference; by apply Hn, elem_of_singleton|]. split; [exact Hin|]. split; [rewrite Hid; reflexivity|rewrite Hpt; reflexivity].
Defined.

Lemma list_tasks_loses_names_witness : ∃ u', sys_list_tasks two_tasks (λ _, 0) 0x1000 80 = Ret (2, u') ∧
  (∀ j, 12 ≤ j < 40 → u' (0x1000 + 40 * 1 + j) = 0) ∧ Some (u' (0x1000 + 12 + 0)) = str "client" !! 0%nat.
Proof.
  destruct (list_tasks_loses_names two_tasks (λ _, 0) 0x1000 80) as (u' & H1 & H2 & H3).
  - vm_compute. congruence.
  - vm_compute. congruence.
  - reflexivity.
  - vm_compute. congruence.
  - exists u'. split; [exact H1|]. split.
    + intros j Hj. apply (H2 1 j); [split; vm_compute; congruence|exact Hj].
    + rewrite (H3 (task_info task_b) 0); [reflexivity|reflexivity|split; vm_compute; congruence].
Defined.


(** The same receive, and then a call of task 2 on end B. *)
Definition server_waits : Objects :=
  mkObjects {[1%positive := snd (Channel_receive Channel_new EndA 1)]} ∅ ∅.

Lemma call_strands_server_witness : ∃ ch',
  sys_channel_call 100 (λ _ c, c) after_block server_waits 0 (λ _, 7) handle_b 0x2000 3 0x3000 =
    Ret (None, set_channels server_waits (<[1%positive := ch']> (channels server_waits)), λ _, 7) ∧
  1 ∈ map id (BLOCKED_QUEUE after_block) ∧ ∃ ch2, Channel_send ch' EndB [1] 2 = (SendPending, ch2).
Proof.
  destruct (call_strands_server 100 after_block server_waits 0 (λ _, 7) handle_b 0x2000 3 0x3000 [7; 7; 7] 1%positive EndB
    (snd (Channel_receive Channel_new EndA 1)) 1) as (ch' & H1 & _ & _ & H4).
  - vm_compute. reflexivity.
  - vm_compute. reflexivity.
  - reflexivity.
  - reflexivity.
  - reflexivity.
  - reflexivity.
  - reflexivity.
  - vm_compute. congruence.
  - exists ch'. split; [exact H1|]. split; [by left|]. apply H4. vm_compute. congruence.
Defined.

(** A handle without any right. *)
Definition weak_table : HandleTable :=
  mkHandleTable {[0 := mkHandleEntry (Handle_new 0 Rights_NONE 0) (ChannelEndA 1%positive)]} 1 1.

Lemma rights_are_forgeable_witness : ∃ h' tbl',
  Handle_rights (Handle_new 0 Rights_NONE 0) = Rights_NONE ∧
  HandleTable_duplicate weak_table (forged (Handle_new 0 Rights_NONE 0)) Rights_ALL = Ret (Some h', tbl') ∧
  HandleTable_get tbl' h' = Some (ChannelEndA 1%positive) ∧ Handle_rights h' = Rights_ALL.
Proof.
  destruct (rights_are_forgeable two_tasks objects 0 (λ _, 7) (Handle_new 0 Rights_NONE 0) 0x2000 3 weak_table (ChannelEndA 1%positive)) as (_ & h' & tbl' & H1 & H2 & H3).
  - vm_compute. reflexivity.
  - split; vm_compute; congruence.
  - exists h', tbl'. split; [vm_compute; reflexivity|]. split; [exact H1|]. split; [exact H2|exact H3].
Defined.

(** A ramdisk with one program, whose name the caller passes at 0x1000. *)
Definition ramdisk : list Z :=
  match create_initrd [mkInitrdFile (str "/prog") sample_program] with Ret a => a | Panic => [] end.
Definition name_memory (a : Z) : Z := default 0 (str "/prog" !! Z.to_nat (a - 0x1000)).

Lemma program_pages : all_pages [sample_ph] ++ stack_pages = [0x400000; 0x401000; 0x7FFFFFFFC000; 0x7FFFFFFFD000; 0x7FFFFFFFE000; 0x7FFFFFFFF000].
Proof. vm_compute. reflexivity. Qed.

Lemma program_found : find_program root_mount RamFs_new (Some ramdisk) (str "/prog") = Ret (Some sample_program, RamFs_new).
Proof. vm_compute. reflexivity. Qed.

