(* ===== verification/Ext2.v ===== *)
(** * The ext2 file system (kernel/src/fs/ext2.rs)

    The on-disk structures, block and inode allocation, the block map of a file,
    directories, and the methods of the [FileSystem] trait. The code reaches the
    disk through the sector cache alone: an operation is a program ([prog]) over
    reads and writes of sectors, which [run] executes on any store of sectors,
    among them the cache of BlockCache.v and a plain disk. A [Crash] is a panic;
    it also ends a loop that has used up its fuel. Messages are not modelled. *)

From stdpp Require Import strings.
From S2P Require Import Prelude RustStr Bytes BlockCache Dns Vfs.
Local Open Scope Z_scope.

(** ** Programs over sectors *)

Inductive prog (A : Type) : Type :=
| Done (a : A)
| Crash
| ReadCached (l : Z) (k : option Sector → prog A)
| WriteCached (l : Z) (s : Sector) (k : result unit unit → prog A).
Arguments Done {A} _.
Arguments Crash {A}.
Arguments ReadCached {A} _ _.
Arguments WriteCached {A} _ _ _.

Fixpoint prog_bind {A B} (f : A → prog B) (p : prog A) : prog B :=
  match p with
  | Done a => f a
  | Crash => Crash
  | ReadCached l k => ReadCached l (λ r, prog_bind f (k r))
  | WriteCached l s k => WriteCached l s (λ r, prog_bind f (k r))
  end.

(** A fallible operation; the bind is that of the operator [?]. *)
Definition io (E A : Type) : Type := prog (result A E).

#[export] Instance io_bind E : MBind (io E) :=
  λ A B f p, prog_bind (λ r, match r with Ok a => f a | Err e => Done (Err e) end) p.

Definition ok {E A} (a : A) : io E A := Done (Ok a).
Definition fail {E A} (e : E) : io E A := Done (Err e).
Definition lift {E A} (o : outcome A) : io E A := match o with Ret a => ok a | Panic => Crash end.
Definition run_prog {E A} (p : prog A) : io E A := prog_bind ok p.

Definition map_err {E E' A} (e : E') (p : io E A) : io E' A :=
  prog_bind (λ r, match r with Ok a => ok a | Err _ => fail e end) p.

Definition ok_or {E A} (e : E) (o : option A) : io E A := match o with Some a => ok a | None => fail e end.

(** A store of sectors, and the programs on it. *)
Class SectorStore (T : Type) : Type := {
  store_read : T → nat → Z → option Sector * T;
  store_write : T → nat → Z → Sector → result unit unit * T;
}.

Fixpoint run {T A} `{SectorStore T} (dev : nat) (p : prog A) (t : T) : outcome (A * T) :=
  match p with
  | Done a => Ret (a, t)
  | Crash => Panic
  | ReadCached l k => let '(r, t) := store_read t dev l in run dev (k r) t
  | WriteCached l s k => let '(r, t) := store_write t dev l s in run dev (k r) t
  end.

(** The cache in front of the registered devices. *)
#[export] Instance cache_store {D} `{BlockDevice D} : SectorStore (BlockCache * list (option D)) := {|
  store_read t dev l := let '(r, c, devs) := read_cached t.1 t.2 dev l in (r, (c, devs));
  store_write t dev l s := let '(r, c, devs) := write_cached t.1 t.2 dev l s in (r, (c, devs));
|}.

(** A disk without a cache and without failures. *)
#[export] Instance plain_store : SectorStore (gmap (nat * Z) Sector) := {|
  store_read t dev l := (t !! (dev, l), t);
  store_write t dev l s := (Ok tt, <[(dev, l) := s]> t);
|}.

(** ** Loops *)

(** At most [p] turns of a loop body, which ends the loop with [inr]. *)
Fixpoint loop {S R} (p : positive) (body : S → prog (S + R)) (s : S) : prog (S + R) :=
  let again p st := prog_bind (λ r, match r with inl s => loop p body s | inr r => Done (inr r) end) st in
  match p with
  | xH => body s
  | xO p => again p (loop p body s)
  | xI p => again p (again p (body s))
  end.

(** A loop of a fallible function. The index of a block is a [u32]. *)
Definition LOOP_FUEL : positive := 2 ^ 33.
Definition io_loop {E S R} (body : S → io E (S + R)) (s : S) : io E R :=
  prog_bind (λ r, match r with inl _ => Crash | inr r => Done r end)
    (loop LOOP_FUEL (λ s, prog_bind (λ r, match r with
       | Ok (inl s) => Done (inl s)
       | Ok (inr r) => Done (inr (Ok r))
       | Err e => Done (inr (Err e))
       end) (body s)) s).

Fixpoint for_each {E A} (f : A → io E unit) (l : list A) : io E unit :=
  match l with [] => ok tt | x :: l => _ ← f x; for_each f l end.

(** ** Constants and bytes *)

Definition EXT2_MAGIC : Z := 0xEF53.
Definition EXT2_BLOCK_SIZE : Z := 1024.
Definition SECTORS_PER_BLOCK : Z := EXT2_BLOCK_SIZE `div` SECTOR_SIZE.
Definition INODE_SIZE : Z := 128.
Definition ROOT_INODE : Z := 2.
Definition S_IFDIR : Z := 0x4000.
Definition S_IFREG : Z := 0x8000.
Definition S_IFLNK : Z := 0xA000.
Definition DIRECT_BLOCKS : Z := 12.
Definition EXT2_FT_REG_FILE : Z := 1.
Definition EXT2_FT_DIR : Z := 2.
Definition EXT2_FT_SYMLINK : Z := 7.
Definition FAST_SYMLINK_MAX : Z := DIRECT_BLOCKS * 4.

(** Integer division and remainder, which panic on zero. *)
Definition udiv (a b : Z) : outcome Z := if b =? 0 then Panic else Ret (a `div` b).
Definition urem (a b : Z) : outcome Z := if b =? 0 then Panic else Ret (a mod b).
Definition mul32 `{BuildProfile} (a b : Z) : outcome Z := arith 32 (a * b).

Definition read_u16 (l : list Z) (offset : Z) : outcome Z :=
  a ← index l offset; b ← index l (offset + 1); Ret (le_val [a; b]).
Definition read_u32 (l : list Z) (offset : Z) : outcome Z :=
  a ← index l offset; b ← index l (offset + 1); c ← index l (offset + 2); d ← index l (offset + 3);
  Ret (le_val [a; b; c; d]).
Definition write_u32 (l : list Z) (offset value : Z) : outcome (list Z) :=
  copy_into l offset (offset + 4) (le_bytes 4 value).
Definition write_u16_bytes (l : list Z) (offset value : Z) : outcome (list Z) :=
  copy_into l offset (offset + 2) (le_bytes 2 value).

Definition zeroes (n : Z) : list Z := replicate (Z.to_nat n) 0.

(** ** On-disk structures *)

Record Superblock : Type := mkSuperblock {
  s_inodes_count : Z; s_blocks_count : Z; s_r_blocks_count : Z; s_free_blocks_count : Z;
  s_free_inodes_count : Z; s_first_data_block : Z; s_log_block_size : Z; s_log_frag_size : Z;
  s_blocks_per_group : Z; s_frags_per_group : Z; s_inodes_per_group : Z; s_mtime : Z; s_wtime : Z;
  s_mnt_count : Z; s_max_mnt_count : Z; s_magic : Z; s_state : Z; s_errors : Z; s_minor_rev_level : Z;
  s_lastcheck : Z; s_checkinterval : Z; s_creator_os : Z; s_rev_level : Z; s_def_resuid : Z; s_def_resgid : Z;
  s_first_ino : Z; s_inode_size : Z; s_block_group_nr : Z; s_feature_compat : Z; s_feature_incompat : Z;
  s_feature_ro_compat : Z;
}.

Definition Superblock_from_bytes (l : list Z) : outcome (option Superblock) :=
  magic ← read_u16 l 56;
  if negb (magic =? EXT2_MAGIC) then Ret None
  else
    inodes ← read_u32 l 0; blocks ← read_u32 l 4; r_blocks ← read_u32 l 8; free_blocks ← read_u32 l 12;
    free_inodes ← read_u32 l 16; first_data ← read_u32 l 20; log_block ← read_u32 l 24; log_frag ← read_u32 l 28;
    bpg ← read_u32 l 32; fpg ← read_u32 l 36; ipg ← read_u32 l 40; mtime ← read_u32 l 44; wtime ← read_u32 l 48;
    mnt ← read_u16 l 52; max_mnt ← read_u16 l 54; state ← read_u16 l 58; errors ← read_u16 l 60;
    minor ← read_u16 l 62; lastcheck ← read_u32 l 64; interval ← read_u32 l 68; creator ← read_u32 l 72;
    rev ← read_u32 l 76; resuid ← read_u16 l 80; resgid ← read_u16 l 82; first_ino ← read_u32 l 84;
    isize ← read_u16 l 88; bgnr ← read_u16 l 90; compat ← read_u32 l 92; incompat ← read_u32 l 96;
    ro_compat ← read_u32 l 100;
    Ret (Some (mkSuperblock inodes blocks r_blocks free_blocks free_inodes first_data log_block log_frag bpg fpg ipg
      mtime wtime mnt max_mnt magic state errors minor lastcheck interval creator rev resuid resgid first_ino isize
      bgnr compat incompat ro_compat)).

Record BlockGroupDescriptor : Type := mkBlockGroupDescriptor {
  bg_block_bitmap : Z;
  bg_inode_bitmap : Z;
  bg_inode_table : Z;
  bg_free_blocks_count : Z;
  bg_free_inodes_count : Z;
  bg_used_dirs_count : Z;
}.

Definition BlockGroupDescriptor_from_bytes (l : list Z) : outcome BlockGroupDescriptor :=
  bb ← read_u32 l 0; ib ← read_u32 l 4; it ← read_u32 l 8;
  fb ← read_u16 l 12; fi ← read_u16 l 14; ud ← read_u16 l 16;
  Ret (mkBlockGroupDescriptor bb ib it fb fi ud).

Record Inode : Type := mkInode {
  i_mode : Z; i_uid : Z; i_size_low : Z; i_atime : Z; i_ctime : Z; i_mtime : Z; i_dtime : Z;
  i_gid : Z; i_nlink : Z; i_blocks : Z; i_block : list Z; i_size_high : Z;
}.

Fixpoint read_words (l : list Z) (offset : Z) (n : nat) : outcome (list Z) :=
  match n with
  | O => Ret []
  | S n => w ← read_u32 l offset; ws ← read_words l (offset + 4) n; Ret (w :: ws)
  end.

Definition Inode_from_bytes (l : list Z) : outcome Inode :=
  block ← read_words l 40 15;
  mode ← read_u16 l 0; uid ← read_u16 l 2; size_low ← read_u32 l 4; atime ← read_u32 l 8; ctime ← read_u32 l 12;
  mtime ← read_u32 l 16; dtime ← read_u32 l 20; gid ← read_u16 l 24; nlink ← read_u16 l 26; blocks ← read_u32 l 28;
  size_high ← read_u32 l 108;
  Ret (mkInode mode uid size_low atime ctime mtime dtime gid nlink blocks block size_high).

Definition Inode_is_dir (i : Inode) : bool := Z.land (i_mode i) 0xF000 =? S_IFDIR.
Definition Inode_is_reg (i : Inode) : bool := Z.land (i_mode i) 0xF000 =? S_IFREG.
Definition Inode_is_symlink (i : Inode) : bool := Z.land (i_mode i) 0xF000 =? S_IFLNK.

Definition Inode_size (i : Inode) : Z :=
  if Inode_is_dir i then i_size_low i else Z.lor (Z.shiftl (i_size_high i) 32) (i_size_low i).

Fixpoint write_words (l : list Z) (offset : Z) (ws : list Z) : outcome (list Z) :=
  match ws with [] => Ret l | w :: ws => l ← write_u32 l offset w; write_words l (offset + 4) ws end.

Definition Inode_to_bytes (i : Inode) : outcome (list Z) :=
  l ← write_u16_bytes (zeroes 128) 0 (i_mode i); l ← write_u16_bytes l 2 (i_uid i);
  l ← write_u32 l 4 (i_size_low i); l ← write_u32 l 8 (i_atime i); l ← write_u32 l 12 (i_ctime i);
  l ← write_u32 l 16 (i_mtime i); l ← write_u32 l 20 (i_dtime i); l ← write_u16_bytes l 24 (i_gid i);
  l ← write_u16_bytes l 26 (i_nlink i); l ← write_u32 l 28 (i_blocks i);
  l ← write_words l 40 (i_block i); write_u32 l 108 (i_size_high i).

Definition set_size (low high : Z) (i : Inode) : Inode :=
  mkInode (i_mode i) (i_uid i) low (i_atime i) (i_ctime i) (i_mtime i) (i_dtime i) (i_gid i) (i_nlink i) (i_blocks i)
    (i_block i) high.
Definition set_blocks (n : Z) (i : Inode) : Inode :=
  mkInode (i_mode i) (i_uid i) (i_size_low i) (i_atime i) (i_ctime i) (i_mtime i) (i_dtime i) (i_gid i) (i_nlink i) n
    (i_block i) (i_size_high i).
Definition set_block (block : list Z) (i : Inode) : Inode :=
  mkInode (i_mode i) (i_uid i) (i_size_low i) (i_atime i) (i_ctime i) (i_mtime i) (i_dtime i) (i_gid i) (i_nlink i)
    (i_blocks i) block (i_size_high i).
Definition set_nlink (n : Z) (i : Inode) : Inode :=
  mkInode (i_mode i) (i_uid i) (i_size_low i) (i_atime i) (i_ctime i) (i_mtime i) (i_dtime i) (i_gid i) n (i_blocks i)
    (i_block i) (i_size_high i).
Definition set_i_mode (m : Z) (i : Inode) : Inode :=
  mkInode m (i_uid i) (i_size_low i) (i_atime i) (i_ctime i) (i_mtime i) (i_dtime i) (i_gid i) (i_nlink i) (i_blocks i)
    (i_block i) (i_size_high i).

Record DirEntryRaw : Type := mkDirEntryRaw {
  dr_inode : Z;
  dr_rec_len : Z;
  dr_name_len : Z;
  dr_file_type : Z;
  dr_name : list Z;
}.

Record Ext2Fs : Type := mkExt2Fs {
  e_device_idx : nat;
  e_superblock : Superblock;
  e_group_descriptors : list BlockGroupDescriptor;
  e_block_size : Z;
}.

(** ** Blocks *)

Section blocks.
Context `{BuildProfile}.

Fixpoint read_sectors (start_lba : Z) (idxs : list Z) (data : list Z) : io unit (list Z) :=
  match idxs with
  | [] => ok data
  | i :: idxs =>
      sector_data ← ReadCached (start_lba + i) (λ r, ok_or () r);
      data ← lift (copy_into data (i * SECTOR_SIZE) (i * SECTOR_SIZE + SECTOR_SIZE) sector_data);
      read_sectors start_lba idxs data
  end.

Definition read_block_static (block_num block_size : Z) : io unit (list Z) :=
  let sectors_per_block := block_size `div` SECTOR_SIZE in
  read_sectors (block_num * sectors_per_block) (seqZ 0 sectors_per_block) (zeroes block_size).

(** [Ext2Fs::open]: [Err] when the device does not hold such a file system. *)
Fixpoint read_groups (bgdt_bytes : list Z) (idxs : list Z) : io unit (list BlockGroupDescriptor) :=
  match idxs with
  | [] => ok []
  | i :: idxs =>
      let offset := i * 32 in
      if len bgdt_bytes <? offset + 32 then fail ()
      else
        g ← lift (BlockGroupDescriptor_from_bytes (drop (Z.to_nat offset) bgdt_bytes));
        gs ← read_groups bgdt_bytes idxs;
        ok (g :: gs)
  end.

Definition checked_shl32 (x n : Z) : option Z := if n <? 32 then Some (cast 32 (Z.shiftl x n)) else None.

Definition Ext2Fs_open (device_idx : nat) : io unit Ext2Fs :=
  sb_sector0 ← ReadCached 2 (λ r, ok_or () r);
  sb_sector1 ← ReadCached 3 (λ r, ok_or () r);
  sb ← lift (Superblock_from_bytes (sb_sector0 ++ sb_sector1));
  superblock ← ok_or () sb;
  block_size ← ok_or () (checked_shl32 1024 (s_log_block_size superblock));
  let bgdt_block := if block_size <=? 1024 then 2 else 1 in
  num_groups ← lift (if s_blocks_per_group superblock =? 0 then Panic
                     else Ret (div_ceil (s_blocks_count superblock) (s_blocks_per_group superblock)));
  bgdt_bytes ← read_block_static bgdt_block block_size;
  group_descriptors ← read_groups bgdt_bytes (seqZ 0 num_groups);
  ok (mkExt2Fs device_idx superblock group_descriptors block_size).

Context (fs : Ext2Fs).
Implicit Types i : Inode.

Definition read_block (block_num : Z) : io unit (list Z) := read_block_static block_num (e_block_size fs).

Definition write_block (block_num : Z) (data : list Z) : io unit unit :=
  let sectors_per_block := e_block_size fs `div` SECTOR_SIZE in
  let start_lba := block_num * sectors_per_block in
  for_each (λ n : Z,
    sector ← lift (slice data (n * SECTOR_SIZE) (n * SECTOR_SIZE + SECTOR_SIZE));
    WriteCached (start_lba + n) sector Done) (seqZ 0 sectors_per_block).

(** Where an inode is: the block of the table, and the offset in it. *)
Definition locate_inode (inode_num : Z) : io unit (Z * Z) :=
  if inode_num =? 0 then fail ()
  else
    let ino_index := inode_num - 1 in
    group ← lift (udiv ino_index (s_inodes_per_group (e_superblock fs)));
    index_in_group ← lift (urem ino_index (s_inodes_per_group (e_superblock fs)));
    match e_group_descriptors fs !! Z.to_nat group with
    | None => fail ()
    | Some desc =>
        let inode_size := Z.max (s_inode_size (e_superblock fs)) INODE_SIZE in
        let offset_in_table := index_in_group * inode_size in
        block_in_table ← lift (udiv offset_in_table (e_block_size fs));
        offset_in_block ← lift (urem offset_in_table (e_block_size fs));
        block_num ← lift (add32 (bg_inode_table desc) (cast 32 block_in_table));
        ok (block_num, offset_in_block)
    end.

Definition read_inode (inode_num : Z) : io unit Inode :=
  '(block_num, offset_in_block) ← locate_inode inode_num;
  block_data ← read_block block_num;
  if len block_data <? offset_in_block + INODE_SIZE then fail ()
  else lift (l ← slice block_data offset_in_block (offset_in_block + 128); Inode_from_bytes l).

Definition write_inode (inode_num : Z) i : io unit unit :=
  '(block_num, offset_in_block) ← locate_inode inode_num;
  block_data ← read_block block_num;
  inode_bytes ← lift (Inode_to_bytes i);
  block_data ← lift (copy_into block_data offset_in_block (offset_in_block + 128) inode_bytes);
  write_block block_num block_data.

(** *** The block map of a file *)

Definition entries_per_block : Z := e_block_size fs `div` 4.

(** The first logical blocks behind the double and the triple indirect block. *)
Definition double_base : outcome Z := add32 DIRECT_BLOCKS entries_per_block.
Definition triple_base : outcome Z :=
  a ← double_base; m ← mul32 entries_per_block entries_per_block; add32 a m.

Definition read_indirect (block_num idx : Z) : io unit Z :=
  if block_num =? 0 then ok 0
  else
    data ← read_block block_num;
    offset ← lift (mul32 idx 4);
    if len data <? offset + 4 then fail () else lift (read_u32 data offset).

Definition read_double_indirect (block_num idx : Z) : io unit Z :=
  if block_num =? 0 then ok 0
  else
    first ← lift (udiv idx entries_per_block);
    second ← lift (urem idx entries_per_block);
    data ← read_block block_num;
    offset ← lift (mul32 first 4);
    if len data <? offset + 4 then fail ()
    else indirect_block ← lift (read_u32 data offset); read_indirect indirect_block second.

Definition read_triple_indirect (block_num idx : Z) : io unit Z :=
  if block_num =? 0 then ok 0
  else
    m ← lift (mul32 entries_per_block entries_per_block);
    first ← lift (udiv idx m);
    remainder ← lift (urem idx m);
    data ← read_block block_num;
    offset ← lift (mul32 first 4);
    if len data <? offset + 4 then fail ()
    else double_block ← lift (read_u32 data offset); read_double_indirect double_block remainder.

Definition resolve_block i (logical_block : Z) : io unit Z :=
  if logical_block <? DIRECT_BLOCKS then lift (index (i_block i) logical_block)
  else
    base2 ← lift double_base;
    if logical_block <? base2 then
      b ← lift (index (i_block i) 12);
      if b =? 0 then ok 0 else read_indirect b (logical_block - DIRECT_BLOCKS)
    else
      base3 ← lift triple_base;
      if logical_block <? base3 then
        b ← lift (index (i_block i) 13);
        if b =? 0 then ok 0 else read_double_indirect b (logical_block - base2)
      else
        b ← lift (index (i_block i) 14);
        if b =? 0 then ok 0 else read_triple_indirect b (logical_block - base3).

(** *** Allocation *)

(** The clear bits of a bitmap in the order of the scan, as byte and bit. *)
Definition zero_bits (byte_idx byte : Z) : list (Z * Z) :=
  pair byte_idx <$> filter (λ bit, Z.land byte (Z.shiftl 1 bit) = 0) (seqZ 0 8).

Fixpoint zero_positions (bytes : list Z) (byte_idx : Z) : list (Z * Z) :=
  match bytes with [] => [] | byte :: bytes => zero_bits byte_idx byte ++ zero_positions bytes (byte_idx + 1) end.

Definition set_bit (bitmap : list Z) (byte_idx bit : Z) : outcome (list Z) :=
  byte ← index bitmap byte_idx; store bitmap byte_idx (Z.lor byte (Z.shiftl 1 bit)).
Definition clear_bit (bitmap : list Z) (byte_idx bit : Z) : outcome (list Z) :=
  byte ← index bitmap byte_idx; store bitmap byte_idx (Z.land byte (unot 8 (Z.shiftl 1 bit))).

(** The search of [alloc_block] through the groups. [Err] is the [None] of the
    code. *)
Fixpoint alloc_block_in (groups : list BlockGroupDescriptor) (group_idx : Z) : io unit Z :=
  match groups with
  | [] => fail ()
  | desc :: groups =>
      if bg_free_blocks_count desc =? 0 then alloc_block_in groups (group_idx + 1)
      else
        bitmap_data ← read_block (bg_block_bitmap desc);
        _ ← lift (mul32 (e_block_size fs) 8);
        match zero_positions bitmap_data 0 with
        | [] => alloc_block_in groups (group_idx + 1)
        | (byte_idx, bit) :: _ =>
            let blocks_per_group := s_blocks_per_group (e_superblock fs) in
            block_in_group ← lift (m ← mul32 (cast 32 byte_idx) 8; add32 m bit);
            if blocks_per_group <=? block_in_group then fail ()
            else
              absolute_block ← lift (m ← mul32 (cast 32 group_idx) blocks_per_group;
                a ← add32 (s_first_data_block (e_superblock fs)) m; add32 a block_in_group);
              bitmap_data ← lift (set_bit bitmap_data byte_idx bit);
              _ ← write_block (bg_block_bitmap desc) bitmap_data;
              ok absolute_block
        end
  end.

Definition alloc_block : io unit Z := alloc_block_in (e_group_descriptors fs) 0.

Definition free_block (block : Z) : io unit unit :=
  if block =? 0 then ok tt
  else
    let blocks_per_group := s_blocks_per_group (e_superblock fs) in
    relative ← lift (sub32 block (s_first_data_block (e_superblock fs)));
    group_idx ← lift (udiv relative blocks_per_group);
    block_in_group ← lift (urem relative blocks_per_group);
    match e_group_descriptors fs !! Z.to_nat group_idx with
    | None => fail ()
    | Some desc =>
        bitmap ← read_block (bg_block_bitmap desc);
        if len bitmap <=? block_in_group `div` 8 then fail ()
        else
          bitmap ← lift (clear_bit bitmap (block_in_group `div` 8) (block_in_group mod 8));
          write_block (bg_block_bitmap desc) bitmap
    end.

(** The bit loop of [alloc_inode]: [None] when the scan of this group ends
    without an inode. *)
Fixpoint alloc_inode_at (desc : BlockGroupDescriptor) (group_idx : Z) (bitmap_data : list Z) (l : list (Z * Z))
    : io unit (option Z) :=
  match l with
  | [] => ok None
  | (byte_idx, bit) :: l =>
      let inodes_per_group := s_inodes_per_group (e_superblock fs) in
      inode_in_group ← lift (m ← mul32 (cast 32 byte_idx) 8; add32 m bit);
      if inodes_per_group <=? inode_in_group then fail ()
      else
        inode_num ← lift (m ← mul32 (cast 32 group_idx) inodes_per_group; a ← add32 m inode_in_group; add32 a 1);
        if inode_num <? s_first_ino (e_superblock fs) then alloc_inode_at desc group_idx bitmap_data l
        else
          bitmap_data ← lift (set_bit bitmap_data byte_idx bit);
          _ ← write_block (bg_inode_bitmap desc) bitmap_data;
          ok (Some inode_num)
  end.

Fixpoint alloc_inode_in (groups : list BlockGroupDescriptor) (group_idx : Z) : io unit Z :=
  match groups with
  | [] => fail ()
  | desc :: groups =>
      if bg_free_inodes_count desc =? 0 then alloc_inode_in groups (group_idx + 1)
      else
        bitmap_data ← read_block (bg_inode_bitmap desc);
        _ ← lift (mul32 (e_block_size fs) 8);
        r ← alloc_inode_at desc group_idx bitmap_data (zero_positions bitmap_data 0);
        match r with None => alloc_inode_in groups (group_idx + 1) | Some inode_num => ok inode_num end
  end.

Definition alloc_inode : io unit Z := alloc_inode_in (e_group_descriptors fs) 0.

Definition free_inode (inode_num : Z) : io unit unit :=
  if inode_num =? 0 then ok tt
  else
    let inodes_per_group := s_inodes_per_group (e_superblock fs) in
    group_idx ← lift (udiv (inode_num - 1) inodes_per_group);
    inode_in_group ← lift (urem (inode_num - 1) inodes_per_group);
    match e_group_descriptors fs !! Z.to_nat group_idx with
    | None => fail ()
    | Some desc =>
        bitmap ← read_block (bg_inode_bitmap desc);
        if len bitmap <=? inode_in_group `div` 8 then fail ()
        else
          bitmap ← lift (clear_bit bitmap (inode_in_group `div` 8) (inode_in_group mod 8));
          write_block (bg_inode_bitmap desc) bitmap
    end.

(** *** Writing the block map *)

Definition write_indirect_entry (block_num idx value : Z) : io unit unit :=
  data ← read_block block_num;
  offset ← lift (mul32 idx 4);
  data ← lift (write_u32 data offset value);
  write_block block_num data.

Definition set_double_indirect_entry (block_num idx value : Z) : io unit unit :=
  first ← lift (udiv idx entries_per_block);
  second ← lift (urem idx entries_per_block);
  data ← read_block block_num;
  offset ← lift (mul32 first 4);
  indirect_block ← lift (read_u32 data offset);
  if indirect_block =? 0 then
    new_indirect ← alloc_block;
    data ← lift (write_u32 data offset new_indirect);
    _ ← write_block block_num data;
    _ ← write_block new_indirect (zeroes (e_block_size fs));
    write_indirect_entry new_indirect second value
  else write_indirect_entry indirect_block second value.

Definition set_triple_indirect_entry (block_num idx value : Z) : io unit unit :=
  m ← lift (mul32 entries_per_block entries_per_block);
  first ← lift (udiv idx m);
  remainder ← lift (urem idx m);
  data ← read_block block_num;
  offset ← lift (mul32 first 4);
  double_block ← lift (read_u32 data offset);
  if double_block =? 0 then
    new_double ← alloc_block;
    data ← lift (write_u32 data offset new_double);
    _ ← write_block block_num data;
    _ ← write_block new_double (zeroes (e_block_size fs));
    set_double_indirect_entry new_double remainder value
  else set_double_indirect_entry double_block remainder value.

(** The indirect block in slot [n] of the inode, allocated when there is none. *)
Definition ensure_root i (n : Z) : io unit (Inode * Z) :=
  b ← lift (index (i_block i) n);
  if b =? 0 then
    new_block ← alloc_block;
    block ← lift (store (i_block i) n new_block);
    _ ← write_block new_block (zeroes (e_block_size fs));
    ok (set_block block i, new_block)
  else ok (i, b).

Definition set_block_pointer i (logical_block physical_block : Z) : io unit Inode :=
  if logical_block <? DIRECT_BLOCKS then
    block ← lift (store (i_block i) logical_block physical_block); ok (set_block block i)
  else
    base2 ← lift double_base;
    if logical_block <? base2 then
      '(i, b) ← ensure_root i 12;
      _ ← write_indirect_entry b (logical_block - DIRECT_BLOCKS) physical_block;
      ok i
    else
      base3 ← lift triple_base;
      if logical_block <? base3 then
        '(i, b) ← ensure_root i 13;
        _ ← set_double_indirect_entry b (logical_block - base2) physical_block;
        ok i
      else
        '(i, b) ← ensure_root i 14;
        _ ← set_triple_indirect_entry b (logical_block - base3) physical_block;
        ok i.

(** *** File contents *)

(** The loop of [read_inode_data], which has filled [buf] so far. *)
Fixpoint read_data_loop (fuel : nat) i (offset to_read : Z) (buf : list Z) : io unit (list Z) :=
  match fuel with
  | O => Crash
  | S fuel =>
      let bytes_read := len buf in
      if to_read <=? bytes_read then ok buf
      else
        file_offset ← lift (add64 offset bytes_read);
        logical_block ← lift (udiv file_offset (e_block_size fs));
        offset_in_block ← lift (urem file_offset (e_block_size fs));
        physical_block ← resolve_block i (cast 32 logical_block);
        let copy_len := Z.min (to_read - bytes_read) (e_block_size fs - offset_in_block) in
        if physical_block =? 0 then read_data_loop fuel i offset to_read (buf ++ zeroes copy_len)
        else
          block_data ← read_block physical_block;
          chunk ← lift (slice block_data offset_in_block (offset_in_block + copy_len));
          read_data_loop fuel i offset to_read (buf ++ chunk)
  end.

(** A buffer is given by its length; the result is what was put into it. *)
Definition read_inode_data i (offset buf_len : Z) : io unit (list Z) :=
  let file_size := Inode_size i in
  if file_size <=? offset then ok []
  else
    let to_read := Z.min buf_len (file_size - offset) in
    if to_read =? 0 then ok [] else read_data_loop (S (Z.to_nat to_read)) i offset to_read [].

Fixpoint write_data_loop (fuel : nat) i (offset : Z) (data : list Z) (bytes_written : Z) : io unit Inode :=
  match fuel with
  | O => Crash
  | S fuel =>
      if len data <=? bytes_written then ok i
      else
        file_offset ← lift (add64 offset bytes_written);
        logical_block ← lift (udiv file_offset (e_block_size fs));
        offset_in_block ← lift (urem file_offset (e_block_size fs));
        b ← resolve_block i (cast 32 logical_block);
        '(i, physical_block) ← (if b =? 0 then
            new_block ← alloc_block;
            i ← set_block_pointer i (cast 32 logical_block) new_block;
            ok (i, new_block)
          else ok (i, b));
        let copy_len := Z.min (len data - bytes_written) (e_block_size fs - offset_in_block) in
        block_data ← (if (offset_in_block =? 0) && (copy_len =? e_block_size fs) then ok (zeroes (e_block_size fs))
                      else read_block physical_block);
        chunk ← lift (slice data bytes_written (bytes_written + copy_len));
        block_data ← lift (copy_into block_data offset_in_block (offset_in_block + copy_len) chunk);
        _ ← write_block physical_block block_data;
        write_data_loop fuel i offset data (bytes_written + copy_len)
  end.

Definition write_inode_data i (inode_num offset : Z) (data : list Z) : io unit (Z * Inode) :=
  if len data =? 0 then ok (0, i)
  else
    end_offset ← lift (add64 offset (len data));
    i ← write_data_loop (S (length data)) i offset data 0;
    let i := if Inode_size i <? end_offset
             then set_size (Z.land end_offset 0xFFFFFFFF) (Z.land (Z.shiftr end_offset 32) 0xFFFFFFFF) i else i in
    let i := set_blocks (cast 32 (div_ceil (Inode_size i) 512)) i in
    _ ← write_inode inode_num i;
    ok (len data, i).

(** *** Directories *)

(** The entries of one block from [offset] on, and the bytes read so far. *)
Fixpoint dir_block_loop (fuel : nat) (block_data : list Z) (file_size offset bytes_read : Z) (entries : list DirEntryRaw)
    : outcome (Z * list DirEntryRaw) :=
  match fuel with
  | O => Panic
  | S fuel =>
      if (offset + 8 <=? e_block_size fs) && (bytes_read <? file_size) then
        inode_num ← read_u32 block_data offset;
        rec_len ← read_u16 block_data (offset + 4);
        name_len ← index block_data (offset + 6);
        file_type ← index block_data (offset + 7);
        if rec_len =? 0 then Ret (bytes_read, entries)
        else
          let name_end := offset + 8 + name_len in
          entries ← (if negb (inode_num =? 0) && (0 <? name_len) && (name_end <=? e_block_size fs) then
                       name ← slice block_data (offset + 8) name_end;
                       Ret (entries ++ [mkDirEntryRaw inode_num rec_len name_len file_type name])
                     else Ret entries);
          bytes_read ← add32 bytes_read rec_len;
          dir_block_loop fuel block_data file_size (offset + rec_len) bytes_read entries
      else Ret (bytes_read, entries)
  end.

Definition dir_fuel : nat := S (Z.to_nat (e_block_size fs)).

Definition read_dir_entries i : io unit (list DirEntryRaw) :=
  if negb (Inode_is_dir i) then fail ()
  else
    let file_size := cast 32 (Inode_size i) in
    io_loop (λ '(block_idx, bytes_read, entries),
      next ← lift (add32 block_idx 1);
      if file_size <=? bytes_read then ok (inr entries)
      else
        physical_block ← resolve_block i block_idx;
        if physical_block =? 0 then
          bytes_read ← lift (add32 bytes_read (e_block_size fs)); ok (inl (next, bytes_read, entries))
        else
          block_data ← read_block physical_block;
          '(bytes_read, entries) ← lift (dir_block_loop dir_fuel block_data file_size 0 bytes_read entries);
          ok (inl (next, bytes_read, entries))) (0, 0, []).

Definition find_entry i (name : list Z) : prog (option Z) :=
  prog_bind (λ r, Done match r with
    | Ok entries => dr_inode <$> head (filter (λ e, dr_name e = name) entries)
    | Err _ => None
    end) (read_dir_entries i).

Fixpoint walk_path (current : Z) (components : list (list Z)) : io unit Z :=
  match components with
  | [] => ok current
  | component :: components =>
      i ← read_inode current;
      if negb (Inode_is_dir i) then fail ()
      else
        next ← run_prog (find_entry i component);
        match next with Some next => walk_path next components | None => fail () end
  end.

Definition ext2_resolve_path (path : list Z) : io unit Z :=
  let path := trim_start_matches SLASH path in
  if bool_decide (path = []) then ok ROOT_INODE
  else walk_path ROOT_INODE (filter (λ c, c ≠ []) (split_on SLASH path)).

(** The size of an entry with a name of [n] bytes. *)
Definition entry_size (n : Z) : Z := Z.ldiff (8 + n + 3) 3.

Definition put_dir_entry (block_data : list Z) (offset inode rec_len file_type : Z) (name : list Z) : outcome (list Z) :=
  l ← write_u32 block_data offset inode;
  l ← write_u16_bytes l (offset + 4) (cast 16 rec_len);
  l ← store l (offset + 6) (cast 8 (len name));
  l ← store l (offset + 7) file_type;
  copy_into l (offset + 8) (offset + 8 + len name) name.

(** The search for room in one block: its new contents when there is. *)
Fixpoint insert_loop (fuel : nat) (block_data : list Z) (inode file_type : Z) (name : list Z) (offset bytes_scanned : Z)
    : outcome (option (list Z) * Z) :=
  match fuel with
  | O => Panic
  | S fuel =>
      if offset + 8 <=? e_block_size fs then
        rec_len ← read_u16 block_data (offset + 4);
        if rec_len =? 0 then Ret (None, bytes_scanned)
        else
          entry_inode_num ← read_u32 block_data offset;
          entry_name_len ← index block_data (offset + 6);
          let actual_entry_size := entry_size entry_name_len in
          let needed := cast 16 (entry_size (len name)) in
          if negb (entry_inode_num =? 0) && (actual_entry_size + needed <=? rec_len) then
            l ← write_u16_bytes block_data (offset + 4) (cast 16 actual_entry_size);
            l ← put_dir_entry l (offset + actual_entry_size) inode (rec_len - actual_entry_size) file_type name;
            Ret (Some l, bytes_scanned)
          else if (entry_inode_num =? 0) && (needed <=? rec_len) then
            l ← put_dir_entry block_data offset inode rec_len file_type name;
            Ret (Some l, bytes_scanned)
          else
            bytes_scanned ← add32 bytes_scanned rec_len;
            insert_loop fuel block_data inode file_type name (offset + rec_len) bytes_scanned
      else Ret (None, bytes_scanned)
  end.

Definition add_dir_entry i (dir_num entry_inode : Z) (name : list Z) (file_type : Z) : io unit unit :=
  let dir_size := cast 32 (Inode_size i) in
  found ← io_loop (λ '(bytes_scanned, logical_block),
    if dir_size <=? bytes_scanned then ok (inr false)
    else
      physical_block ← resolve_block i logical_block;
      if physical_block =? 0 then
        bytes_scanned ← lift (add32 bytes_scanned (e_block_size fs));
        next ← lift (add32 logical_block 1); ok (inl (bytes_scanned, next))
      else
        block_data ← read_block physical_block;
        '(room, bytes_scanned) ← lift (insert_loop dir_fuel block_data entry_inode file_type name 0 bytes_scanned);
        match room with
        | Some block_data => _ ← write_block physical_block block_data; ok (inr true)
        | None => next ← lift (add32 logical_block 1); ok (inl (bytes_scanned, next))
        end) (0, 0);
  if found : bool then ok tt
  else
    new_block ← alloc_block;
    block_data ← lift (put_dir_entry (zeroes (e_block_size fs)) 0 entry_inode (e_block_size fs) file_type name);
    _ ← write_block new_block block_data;
    new_logical_block ← lift (if e_block_size fs =? 0 then Panic else Ret (div_ceil dir_size (e_block_size fs)));
    i ← set_block_pointer i new_logical_block new_block;
    new_size ← lift (n ← add32 new_logical_block 1; mul32 n (e_block_size fs));
    write_inode dir_num (set_blocks (div_ceil new_size 512) (set_size new_size (i_size_high i) i)).

(** The search for an entry to remove in one block: its inode and the new
    contents of the block. *)
Fixpoint remove_loop (fuel : nat) (block_data name : list Z) (offset : Z) (prev_offset : option Z) (bytes_scanned : Z)
    : outcome (option (Z * list Z) * Z) :=
  match fuel with
  | O => Panic
  | S fuel =>
      if offset + 8 <=? e_block_size fs then
        rec_len ← read_u16 block_data (offset + 4);
        if rec_len =? 0 then Ret (None, bytes_scanned)
        else
          entry_inode ← read_u32 block_data offset;
          entry_name_len ← index block_data (offset + 6);
          entry_name ← slice block_data (offset + 8) (offset + 8 + entry_name_len);
          if negb (entry_inode =? 0) && bytes_eqb entry_name name then
            l ← write_u32 block_data offset 0;
            match prev_offset with
            | None => Ret (Some (entry_inode, l), bytes_scanned)
            | Some prev_off =>
                prev_inode ← read_u32 l prev_off;
                if prev_inode =? 0 then
                  prev_rec_len ← read_u16 l (prev_off + 4);
                  l ← write_u16_bytes l (prev_off + 4) (cast 16 (prev_rec_len + rec_len));
                  Ret (Some (entry_inode, l), bytes_scanned)
                else Ret (Some (entry_inode, l), bytes_scanned)
            end
          else
            bytes_scanned ← add32 bytes_scanned rec_len;
            remove_loop fuel block_data name (offset + rec_len) (Some offset) bytes_scanned
      else Ret (None, bytes_scanned)
  end.

Definition remove_dir_entry_from_disk i (name : list Z) : io unit (option Z) :=
  let dir_size := cast 32 (Inode_size i) in
  io_loop (λ '(bytes_scanned, logical_block),
    if dir_size <=? bytes_scanned then ok (inr None)
    else
      physical_block ← resolve_block i logical_block;
      if physical_block =? 0 then
        bytes_scanned ← lift (add32 bytes_scanned (e_block_size fs));
        next ← lift (add32 logical_block 1); ok (inl (bytes_scanned, next))
      else
        block_data ← read_block physical_block;
        '(found, bytes_scanned) ← lift (remove_loop dir_fuel block_data name 0 None bytes_scanned);
        match found with
        | Some (entry_inode, block_data) => _ ← write_block physical_block block_data; ok (inr (Some entry_inode))
        | None => next ← lift (add32 logical_block 1); ok (inl (bytes_scanned, next))
        end) (0, 0).

(** *** Release of the blocks of a file *)

(** The blocks below an indirect block of the given depth, and the block itself. *)
Fixpoint free_tree (depth : nat) (block : Z) : io unit unit :=
  if block =? 0 then ok tt
  else
    match depth with
    | O => free_block block
    | S depth =>
        data ← read_block block;
        _ ← for_each (λ n : Z, b ← lift (read_u32 data (n * 4)); free_tree depth b) (seqZ 0 entries_per_block);
        free_block block
    end.

Definition free_inode_blocks i : io unit unit :=
  _ ← for_each (λ n : Z, b ← lift (index (i_block i) n); free_tree 0 b) (seqZ 0 DIRECT_BLOCKS);
  b ← lift (index (i_block i) 12); _ ← free_tree 1 b;
  b ← lift (index (i_block i) 13); _ ← free_tree 2 b;
  b ← lift (index (i_block i) 14); free_tree 3 b.

End blocks.

(** ** The methods of the trait *)

Record OpenFile : Type := mkOpenFile { of_inode_num : Z; of_offset : Z }.

Section trait.
Context `{BuildProfile} (fs : Ext2Fs).

(** [u32::try_from(ino)]. *)
Definition inode_num_of (ino : Z) : io FsError Z := if ino <=? u32_max then ok ino else fail BadFileDescriptor.

Definition ext2_read (ino offset buf_len : Z) : io FsError (list Z) :=
  inode_num ← inode_num_of ino;
  i ← map_err IoError (read_inode fs inode_num);
  map_err IoError (read_inode_data fs i offset buf_len).

Definition ext2_write (ino offset : Z) (data : list Z) : io FsError Z :=
  inode_num ← inode_num_of ino;
  i ← map_err IoError (read_inode fs inode_num);
  if negb (Inode_is_reg i) then fail NotSupported
  else '(n, _) ← map_err IoError (write_inode_data fs i inode_num offset data); ok n.

Definition ext2_stat (ino : Z) : io FsError InodeMeta :=
  inode_num ← inode_num_of ino;
  i ← map_err NotFound (read_inode fs inode_num);
  ok (mkInodeMeta ino (Inode_is_dir i) (Inode_is_symlink i) false (Inode_size i) (i_nlink i) (i_mode i)).

Definition ext2_readdir (dir_ino : Z) : io FsError (list DirEntry) :=
  inode_num ← inode_num_of dir_ino;
  i ← map_err NotFound (read_inode fs inode_num);
  if negb (Inode_is_dir i) then fail NotSupported
  else
    raw_entries ← map_err IoError (read_dir_entries fs i);
    ok ((λ e, mkDirEntry (dr_name e) (dr_inode e) (dr_file_type e =? EXT2_FT_DIR)) <$>
        filter (λ e, utf8_valid (dr_name e) = true) raw_entries).

Definition valid_ext2_name (name : list Z) : bool := negb ((len name =? 0) || (255 <? len name)).

(** What [create], [symlink] and [mkdir] do first: the inode of the parent, a
    directory without an entry of this name, and a new inode. *)
Definition new_inode_in (parent_ino : Z) (name : list Z) (not_dir : FsError) : io FsError (Z * Inode * Z) :=
  if negb (valid_ext2_name name) then fail InvalidName
  else
    parent_num ← inode_num_of parent_ino;
    parent_inode ← map_err NotFound (read_inode fs parent_num);
    if negb (Inode_is_dir parent_inode) then fail not_dir
    else
      existing ← run_prog (find_entry fs parent_inode name);
      match existing with
      | Some _ => fail AlreadyExists
      | None => new_inode_num ← map_err NoSpace (alloc_inode fs); ok (parent_num, parent_inode, new_inode_num)
      end.

(** An inode without times and owner. *)
Definition fresh_inode (mode size_low nlink blocks : Z) (block : list Z) : Inode :=
  mkInode mode 0 size_low 0 0 0 0 0 nlink blocks block 0.

Definition no_blocks : list Z := replicate 15 0.

Definition ext2_create (parent_ino : Z) (name : list Z) : io FsError Z :=
  '(parent_num, parent_inode, new_inode_num) ← new_inode_in parent_ino name NotSupported;
  _ ← map_err IoError (write_inode fs new_inode_num (fresh_inode (Z.lor S_IFREG 0x1A4) 0 1 0 no_blocks));
  _ ← map_err IoError (add_dir_entry fs parent_inode parent_num new_inode_num name EXT2_FT_REG_FILE);
  ok new_inode_num.

(** The parent of an entry to remove, and the inode number in the entry. *)
Definition entry_in (parent_ino : Z) (name : list Z) (not_dir : FsError) : io FsError (Z * Inode * Z) :=
  parent_num ← inode_num_of parent_ino;
  parent_inode ← map_err NotFound (read_inode fs parent_num);
  if negb (Inode_is_dir parent_inode) then fail not_dir
  else
    found ← run_prog (find_entry fs parent_inode name);
    target_inode_num ← ok_or NotFound found;
    ok (parent_num, parent_inode, target_inode_num).

Definition ext2_unlink (parent_ino : Z) (name : list Z) : io FsError unit :=
  '(parent_num, parent_inode, target_inode_num) ← entry_in parent_ino name NotSupported;
  _ ← map_err IoError (remove_dir_entry_from_disk fs parent_inode name);
  target_inode ← map_err IoError (read_inode fs target_inode_num);
  _ ← map_err IoError (free_inode_blocks fs target_inode);
  map_err IoError (free_inode fs target_inode_num).

(** The array of block pointers seen as bytes. *)
Definition bytes_of_words (ws : list Z) : list Z := ws ≫= le_bytes 4.
Definition words_of_bytes (l : list Z) : outcome (list Z) := read_words l 0 15.

Definition ext2_symlink (parent_ino : Z) (name target : list Z) : io FsError Z :=
  '(parent_num, parent_inode, new_inode_num) ← new_inode_in parent_ino name NotSupported;
  let mode := Z.lor S_IFLNK 0x1FF in
  _ ← (if len target <=? FAST_SYMLINK_MAX then
         block ← lift (l ← copy_into (zeroes 60) 0 (len target) target; words_of_bytes l);
         map_err IoError (write_inode fs new_inode_num (fresh_inode mode (len target) 1 0 block))
       else
         let i := fresh_inode mode 0 1 0 no_blocks in
         _ ← map_err IoError (write_inode fs new_inode_num i);
         _ ← map_err IoError (write_inode_data fs i new_inode_num 0 target);
         ok tt);
  _ ← map_err IoError (add_dir_entry fs parent_inode parent_num new_inode_num name EXT2_FT_SYMLINK);
  ok new_inode_num.

Definition ext2_readlink (ino buf_len : Z) : io FsError (list Z) :=
  inode_num ← inode_num_of ino;
  i ← map_err NotFound (read_inode fs inode_num);
  if negb (Inode_is_symlink i) then fail NotSupported
  else
    let target_len := Inode_size i in
    if (target_len <=? FAST_SYMLINK_MAX) && (i_blocks i =? 0)
    then lift (slice (bytes_of_words (i_block i)) 0 (Z.min buf_len target_len))
    else map_err IoError (read_inode_data fs i 0 buf_len).

Definition DOT : Z := 46.

(** The first block of a new directory, with its entries for itself and its
    parent. *)
Definition new_dir_block (new_inode_num parent_num : Z) : outcome (list Z) :=
  let dot_rec_len := entry_size 1 in
  l ← put_dir_entry (zeroes EXT2_BLOCK_SIZE) 0 new_inode_num dot_rec_len EXT2_FT_DIR [DOT];
  put_dir_entry l dot_rec_len parent_num (EXT2_BLOCK_SIZE - dot_rec_len) EXT2_FT_DIR [DOT; DOT].

Definition ext2_mkdir (parent_ino : Z) (name : list Z) : io FsError Z :=
  '(parent_num, parent_inode, new_inode_num) ← new_inode_in parent_ino name NotADirectory;
  dir_block ← map_err NoSpace (alloc_block fs);
  let i := fresh_inode (Z.lor S_IFDIR 0x1ED) EXT2_BLOCK_SIZE 2 SECTORS_PER_BLOCK (dir_block :: replicate 14 0) in
  _ ← map_err IoError (write_inode fs new_inode_num i);
  block_data ← lift (new_dir_block new_inode_num parent_num);
  _ ← map_err IoError (write_block fs dir_block block_data);
  nlink ← lift (arith 16 (i_nlink parent_inode + 1));
  _ ← map_err IoError (write_inode fs parent_num (set_nlink nlink parent_inode));
  parent_inode ← map_err IoError (read_inode fs parent_num);
  _ ← map_err IoError (add_dir_entry fs parent_inode parent_num new_inode_num name EXT2_FT_DIR);
  ok new_inode_num.

Definition ext2_rmdir (parent_ino : Z) (name : list Z) : io FsError unit :=
  '(parent_num, parent_inode, target_inode_num) ← entry_in parent_ino name NotADirectory;
  target_inode ← map_err IoError (read_inode fs target_inode_num);
  if negb (Inode_is_dir target_inode) then fail NotADirectory
  else
    entries ← map_err IoError (read_dir_entries fs target_inode);
    if 0 <? len (filter (λ e, dr_name e ≠ [DOT] ∧ dr_name e ≠ [DOT; DOT]) entries) then fail IoError
    else
      _ ← map_err IoError (remove_dir_entry_from_disk fs parent_inode name);
      _ ← map_err IoError (free_inode_blocks fs target_inode);
      _ ← map_err IoError (free_inode fs target_inode_num);
      parent_inode ← map_err IoError (read_inode fs parent_num);
      map_err IoError (write_inode fs parent_num (set_nlink (saturating_sub (i_nlink parent_inode) 1) parent_inode)).

Definition ext2_chmod (ino mode : Z) : io FsError unit :=
  inode_num ← inode_num_of ino;
  i ← map_err NotFound (read_inode fs inode_num);
  map_err IoError (write_inode fs inode_num (set_i_mode (Z.lor (Z.land (i_mode i) 0xF000) (Z.land mode 0x0FFF)) i)).

End trait.

(** The state behind a mounted file system: the store and the table of open
    files. *)
Section instance.
Context {T : Type} `{SectorStore T} `{BuildProfile}.

Definition on_store {A} (fs : Ext2Fs) (p : io FsError A) (s : T * gmap Z OpenFile) : fs_result A (T * gmap Z OpenFile) :=
  '(r, t) ← run (e_device_idx fs) p s.1; Ret (r, (t, s.2)).

Definition ext2_open (fs : Ext2Fs) (path : list Z) (s : T * gmap Z OpenFile) : fs_result Z (T * gmap Z OpenFile) :=
  '(r, s) ← on_store fs (map_err NotFound (ext2_resolve_path fs path)) s;
  match r with
  | Ok inode_num => Ret (Ok inode_num, (s.1, <[inode_num := mkOpenFile inode_num 0]> s.2))
  | Err e => Ret (Err e, s)
  end.

#[export] Instance Ext2_FileSystem : FileSystem Ext2Fs (T * gmap Z OpenFile) := {|
  fs_open fs path _ s := ext2_open fs path s;
  fs_close fs ino s := Ret (Ok tt, (s.1, delete ino s.2));
  fs_read fs ino offset n := on_store fs (ext2_read fs ino offset n);
  fs_write fs ino offset data := on_store fs (ext2_write fs ino offset data);
  fs_stat fs ino := on_store fs (ext2_stat fs ino);
  fs_readdir fs ino := on_store fs (ext2_readdir fs ino);
  fs_create fs ino name := on_store fs (ext2_create fs ino name);
  fs_unlink fs ino name := on_store fs (ext2_unlink fs ino name);
  fs_symlink fs ino name target := on_store fs (ext2_symlink fs ino name target);
  fs_readlink fs ino n := on_store fs (ext2_readlink fs ino n);
  fs_mkdir fs ino name := on_store fs (ext2_mkdir fs ino name);
  fs_rmdir fs ino name := on_store fs (ext2_rmdir fs ino name);
  fs_mkfifo := default_mkfifo;
  fs_chmod fs ino mode := on_store fs (ext2_chmod fs ino mode);
  fs_get_fifo_buffer := default_get_fifo_buffer;
|}.

End instance.
