(* ===== verification/Ext2Store.v ===== *)
(** * Programs over sectors and the stores they run on

    The laws of a store of sectors, which the sector cache and the plain disk
    satisfy: a program that the store refuses nothing behaves as on the disk the
    store stands for. The cache refuses when it is full of unwritten sectors,
    which bounds what a program can write. *)

From stdpp Require Import strings.
From S2P Require Import Prelude Bytes BlockCache Vfs Ext2.
Local Open Scope Z_scope.

(** ** Execution and binds *)

Section run.
Context {T : Type} `{SectorStore T}.

Lemma run_bind {A B} dev (f : A → prog B) (p : prog A) (t : T) :
  run dev (prog_bind f p) t = '(a, t) ← run dev p t; run dev (f a) t.
Proof.
  revert t. induction p as [a| |l k IH|l s k IH]; intros t; simpl; [done|done|..].
  - destruct (store_read t dev l) as [r t']. apply IH.
  - destruct (store_write t dev l s) as [r t']. apply IH.
Qed.

Lemma run_lift {E A} dev (o : outcome A) (t : T) : run dev (lift (E := E) o) t = a ← o; Ret (Ok a, t).
Proof. by destruct o. Qed.

End run.

(** The loop as a sequence of turns. *)
Fixpoint turns {S R} (n : nat) (body : S → prog (S + R)) (s : S) : prog (S + R) :=
  match n with
  | O => Done (inl s)
  | Datatypes.S n => prog_bind (λ r, match r with inl s => turns n body s | inr r => Done (inr r) end) (body s)
  end.

Section turns.
Context {T : Type} `{SectorStore T} {S R : Type} (body : S → prog (S + R)).

Lemma run_turns_add n m s dev (t : T) :
  run dev (turns (n + m) body s) t =
  run dev (prog_bind (λ r, match r with inl s => turns m body s | inr r => Done (inr r) end) (turns n body s)) t.
Proof.
  revert s t. induction n as [|n IH]; intros s t; [done|]. simpl. rewrite !run_bind.
  destruct (run dev (body s) t) as [[[s'|r] t']|]; simpl; [|done|done]. by rewrite IH, !run_bind.
Qed.

Lemma run_loop p s dev (t : T) : run dev (loop p body s) t = run dev (turns (Pos.to_nat p) body s) t.
Proof.
  assert (∀ q (k k' : prog (S + R)), (∀ s t, run dev (loop q body s) t = run dev (turns (Pos.to_nat q) body s) t) →
    (∀ t, run dev k t = run dev k' t) → ∀ t,
    run dev (prog_bind (λ r, match r with inl s => loop q body s | inr r => Done (inr r) end) k) t =
    run dev (prog_bind (λ r, match r with inl s => turns (Pos.to_nat q) body s | inr r => Done (inr r) end) k') t) as Hb.
  { intros q k k' Hq Hk t0. rewrite !run_bind, Hk. destruct (run dev k' t0) as [[[s0|r] t1]|]; simpl; [apply Hq|done..]. }
  revert s t. induction p as [p IH|p IH|]; intros s t; cbn [loop].
  - rewrite Pos2Nat.inj_xI. replace (Datatypes.S (2 * Pos.to_nat p)) with (1 + Pos.to_nat p + Pos.to_nat p)%nat by lia.
    rewrite run_turns_add. apply Hb; [exact IH|]. intros t0. rewrite run_turns_add. apply Hb; [exact IH|]. intros t1.
    cbn [turns]. rewrite run_bind. by destruct (run dev (body s) t1) as [[[s0|r] t2]|].
  - rewrite Pos2Nat.inj_xO. replace (2 * Pos.to_nat p)%nat with (Pos.to_nat p + Pos.to_nat p)%nat by lia.
    rewrite run_turns_add. apply Hb; [exact IH|]. intros t0. apply IH.
  - change (Pos.to_nat 1) with 1%nat. cbn [turns]. rewrite run_bind. by destruct (run dev (body s) t) as [[[s0|r] t2]|].
Qed.

End turns.

(** ** Laws of a store *)

(** The disk a store stands for, as a store of its own. *)
Definition disk_view : Type := nat * Z → option Sector.

#[export] Instance view_store : SectorStore disk_view := {|
  store_read v dev l := (v (dev, l), v);
  store_write v dev l s := (Ok tt, λ k, if decide (k = (dev, l)) then Some s else v k);
|}.

(** A store may refuse a read or a write, which then changes nothing. *)
Class SectorStoreLaws (T : Type) `{SectorStore T} : Type := {
  st_inv : T → Prop;
  st_view : T → disk_view;
  st_read t dev l r t' : st_inv t → store_read t dev l = (r, t') →
    st_inv t' ∧ (∀ k, st_view t' k = st_view t k) ∧ (r = None ∨ r = st_view t (dev, l));
  st_write t dev l s r t' : st_inv t → store_write t dev l s = (r, t') →
    st_inv t' ∧ ∀ k, st_view t' k = match r with Ok _ => if decide (k = (dev, l)) then Some s else st_view t k | Err _ => st_view t k end;
}.

#[export] Instance cache_store_laws {D} `{BlockDeviceLaws D} : SectorStoreLaws (BlockCache * list (option D)).
Proof.
  refine {| st_inv t := cache_inv t.1 t.2; st_view t := view (entries t.1) t.2 |}.
  - intros [c devs] dev l r t' Hi. simpl. destruct (read_cached c devs dev l) as [[r' c'] devs'] eqn:Hr.
    intros [= <- <-]. apply read_cached_spec in Hr as (? & ? & Hres); [|done]. split_and!; [done..|].
    destruct r'; [by right|by left].
  - intros [c devs] dev l s r t' Hi. simpl. destruct (write_cached c devs dev l s) as [[r' c'] devs'] eqn:Hr.
    intros [= <- <-]. apply write_cached_spec in Hr as (? & -> & Hres); [|done]. split; [done|]. intros k. simpl.
    by destruct Hres as [[-> Hv]|(-> & -> & _)].
Defined.

#[export] Instance plain_store_laws : SectorStoreLaws (gmap (nat * Z) Sector).
Proof.
  refine {| st_inv _ := True; st_view t k := t !! k |}.
  - intros t dev l r t' _ [= <- <-]. auto.
  - intros t dev l s r t' _ [= <- <-]. split; [done|]. intros k.
    destruct (decide (k = (dev, l))) as [->|]; [by rewrite lookup_insert_eq|by rewrite lookup_insert_ne].
Defined.

Section laws.
Context {T : Type} `{SectorStoreLaws T}.

(** Nothing is refused on the run of a program. *)
Fixpoint granted {A} (dev : nat) (p : prog A) (t : T) : Prop :=
  match p with
  | Done _ | Crash => True
  | ReadCached l k => (store_read t dev l).1 = st_view t (dev, l) ∧ granted dev (k (store_read t dev l).1) (store_read t dev l).2
  | WriteCached l s k =>
      (store_write t dev l s).1 = Ok tt ∧ granted dev (k (store_write t dev l s).1) (store_write t dev l s).2
  end.

(** Two outcomes with the same answer and the same disk. *)
Definition same_outcome {A} (r : outcome (A * T)) (r' : outcome (A * disk_view)) : Prop :=
  match r, r' with
  | Ret (a, t), Ret (a', v) => a = a' ∧ st_inv t ∧ ∀ k, st_view t k = v k
  | Panic, Panic => True
  | _, _ => False
  end.

Lemma granted_refines {A} dev (p : prog A) t (v : disk_view) :
  st_inv t → (∀ k, st_view t k = v k) → granted dev p t → same_outcome (run dev p t) (run dev p v).
Proof.
  revert t v. induction p as [a| |l k IH|l s k IH]; intros t v Hi Hv; simpl; [done|done|..].
  - destruct (store_read t dev l) as [r t'] eqn:Hr. simpl. intros [-> Hg].
    apply st_read in Hr as (Hi' & Hv' & _); [|done]. rewrite Hv in Hg |- *. apply IH; [done| |done].
    intros k0. by rewrite Hv'.
  - destruct (store_write t dev l s) as [r t'] eqn:Hr. simpl. intros [-> Hg].
    apply st_write in Hr as (Hi' & Hv'); [|done]. apply IH; [done| |done].
    intros k0. rewrite Hv'. by destruct (decide (k0 = (dev, l))).
Qed.

End laws.

(** ** The capacity of the cache *)

Section capacity.
Context {D : Type} `{BlockDeviceLaws D}.
Abbreviation Store := (BlockCache * list (option D))%type.
Implicit Types t : Store.

(** The sectors that wait in the cache to be written. *)
Definition dirty_keys (es : list CacheEntry) : gset (nat * Z) :=
  list_to_set (key <$> filter (λ e, valid e = true ∧ dirty e = true) es).

Lemma elem_of_dirty es k :
  k ∈ dirty_keys es ↔ ∃ n e, es !! n = Some e ∧ (valid e = true ∧ dirty e = true) ∧ key e = k.
Proof.
  unfold dirty_keys. rewrite elem_of_list_to_set, list_elem_of_fmap. split.
  - intros (e & -> & [He Hin]%list_elem_of_filter). apply list_elem_of_lookup in Hin as [n Hn]. eauto.
  - intros (n & e & Hn & He & <-). exists e. split; [done|]. apply list_elem_of_filter.
    split; [done|]. by eapply list_elem_of_lookup_2.
Qed.

Lemma dirty_keys_size es : (size (dirty_keys es) ≤ length es)%nat.
Proof.
  assert (∀ l : list (nat * Z), size (list_to_set (C := gset (nat * Z)) l) ≤ length l)%nat as Hs.
  { induction l as [|x l IH]; simpl; [done|]. rewrite size_union_alt, size_singleton.
    apply le_n_S. etrans; [|exact IH]. apply subseteq_size. set_solver. }
  unfold dirty_keys. etrans; [apply Hs|]. rewrite length_fmap. apply length_filter.
Qed.

(** A slot that is not dirty, or is replaced by a dirty entry of its key, can
    change without a loss. *)
Lemma dirty_insert es n e0 e :
  es !! n = Some e0 → (valid e0 = true → dirty e0 = true → (valid e = true ∧ dirty e = true) ∧ key e = key e0) →
  dirty_keys es ⊆ dirty_keys (<[n := e]> es).
Proof.
  intros Hn He k. rewrite !elem_of_dirty. intros (m & e' & Hm & [Hv Hd] & Hk).
  destruct (decide (m = n)) as [->|Hne].
  - simplify_eq. destruct (He Hv Hd) as [? Hk]. exists n, e.
    rewrite list_lookup_insert_eq by (by eapply lookup_lt_Some). done.
  - exists m, e'. by rewrite list_lookup_insert_ne.
Qed.

Lemma read_keeps_dirty t dev l : dirty_keys (entries t.1) ⊆ dirty_keys (entries (store_read t dev l).2.1).
Proof.
  destruct t as [c devs]. simpl. unfold read_cached.
  destruct (cache_find c dev l) as [n|] eqn:Hf.
  - apply cache_find_Some in Hf as (e & Hi & Hv & Hk & _). simpl. rewrite Hi. simpl. eapply dirty_insert; [exact Hi|]. done.
  - destruct (get_device devs dev) as [d|]; [|done]. destruct (device_read devs dev d l) as [[buf|[]] devs1]; [|done].
    destruct (find_lru_victim c) as [v|] eqn:Hvic; [|done].
    destruct (victim_replaceable _ _ Hvic) as (e0 & Hi & Hor). simpl. eapply dirty_insert; [exact Hi|].
    intros Hv Hd. destruct Hor; congruence.
Qed.

Lemma write_adds_dirty t dev l s :
  (store_write t dev l s).1 = Ok tt →
  dirty_keys (entries t.1) ∪ {[(dev, l)]} ⊆ dirty_keys (entries (store_write t dev l s).2.1).
Proof.
  destruct t as [c devs]. simpl. unfold write_cached. destruct (cache_find c dev l) as [n|] eqn:Hf.
  - apply cache_find_Some in Hf as (e & Hi & Hv & Hk & _). simpl. rewrite Hi. simpl. intros _.
    apply union_subseteq. split; [eapply dirty_insert; [exact Hi|]; done|].
    apply singleton_subseteq_l, elem_of_dirty. eexists n, _. rewrite list_lookup_insert_eq by (by eapply lookup_lt_Some).
    split; [done|]. done.
  - destruct (find_lru_victim c) as [v|] eqn:Hvic; [|done].
    destruct (victim_replaceable _ _ Hvic) as (e0 & Hi & Hor). simpl. intros _.
    apply union_subseteq. split; [eapply dirty_insert; [exact Hi|]; intros; destruct Hor; congruence|].
    apply singleton_subseteq_l, elem_of_dirty. eexists v, _. rewrite list_lookup_insert_eq by (by eapply lookup_lt_Some).
    split; [done|]. done.
Qed.

(** The sectors a program writes. *)
Fixpoint written {A} (dev : nat) (p : prog A) t : gset (nat * Z) :=
  match p with
  | Done _ | Crash => ∅
  | ReadCached l k => written dev (k (store_read t dev l).1) (store_read t dev l).2
  | WriteCached l s k => {[(dev, l)]} ∪ written dev (k (store_write t dev l s).1) (store_write t dev l s).2
  end.

Lemma granted_fits {A} dev (p : prog A) t :
  st_inv t → granted dev p t → (size (dirty_keys (entries t.1) ∪ written dev p t) ≤ CACHE_SIZE)%nat.
Proof.
  revert t. induction p as [a| |l k IH|l s k IH]; intros t Hi Hg; cbn [written granted] in *.
  1-2: rewrite union_empty_r_L; destruct Hi as (_ & _ & <-); apply dirty_keys_size.
  - destruct Hg as [_ Hg]. etrans; [|apply IH; [|exact Hg]].
    + apply subseteq_size, union_mono_r, read_keeps_dirty.
    + by apply (st_read t dev l _ _ Hi (surjective_pairing _)).
  - destruct Hg as [Hr Hg]. etrans; [|apply IH; [|exact Hg]].
    + apply subseteq_size. rewrite assoc_L by apply _. by apply union_mono_r, write_adds_dirty.
    + by apply (st_write t dev l s _ _ Hi (surjective_pairing _)).
Qed.

End capacity.
