(* ===== verification/Ext2Cache.v ===== *)
(** * When the sector cache is large enough

    The cache never writes a dirty sector back by itself, so a program that
    writes more distinct sectors than it has slots is refused. A program whose
    writes leave one slot free is refused nothing, and behaves on the cache as on
    the disk the cache stands for. *)

From stdpp Require Import strings.
From S2P Require Import Prelude Bytes BlockCache Vfs Ext2 Ext2Store.
Local Open Scope Z_scope.

(** ** What a program asks of the disk *)

(** The sectors it writes, the accesses it makes, and whether it reads only
    sectors below [n]. *)
Fixpoint writes {A} (dev : nat) (p : prog A) (v : disk_view) : gset (nat * Z) :=
  match p with
  | Done _ | Crash => ∅
  | ReadCached l k => writes dev (k (v (dev, l))) v
  | WriteCached l s k => {[(dev, l)]} ∪ writes dev (k (Ok tt)) (store_write v dev l s).2
  end.

Fixpoint accesses {A} (dev : nat) (p : prog A) (v : disk_view) : Z :=
  match p with
  | Done _ | Crash => 0
  | ReadCached l k => 1 + accesses dev (k (v (dev, l))) v
  | WriteCached l s k => 1 + accesses dev (k (Ok tt)) (store_write v dev l s).2
  end.

Fixpoint reads_below {A} (n : Z) (dev : nat) (p : prog A) (v : disk_view) : bool :=
  match p with
  | Done _ | Crash => true
  | ReadCached l k => (0 <=? l) && (l <? n) && reads_below n dev (k (v (dev, l))) v
  | WriteCached l s k => reads_below n dev (k (Ok tt)) (store_write v dev l s).2
  end.

Lemma accesses_nonneg {A} dev (p : prog A) v : 0 ≤ accesses dev p v.
Proof.
  revert v. induction p as [| |l k IH|l s k IH]; intros v; cbn [accesses]; [done|done|..].
  - specialize (IH (v (dev, l)) v). lia.
  - specialize (IH (Ok tt) (store_write v dev l s).2). lia.
Qed.

Section room.
Context {D : Type} `{BlockDeviceLaws D}.

(** A device in working order answers every read of one of its sectors. *)
Context (healthy : D → Prop).
Context (healthy_read : ∀ d l, healthy d → 0 ≤ l < sector_count d →
  ∃ s d', read_sector d l = (Ok s, d') ∧ healthy d' ∧ sector_count d' = sector_count d).

Abbreviation Store := (BlockCache * list (option D))%type.
Implicit Types t : Store.

(** ** Free slots *)

Lemma dirty_insert_le es n e :
  dirty_keys (<[n := e]> es) ⊆ dirty_keys es ∪ (if valid e && dirty e then {[key e]} else ∅).
Proof.
  intros k. rewrite elem_of_union, !elem_of_dirty. intros (m & e' & Hm & Hvd & <-). apply list_lookup_insert_Some in Hm as [(-> & -> & _)|[_ Hm]].
  - right. destruct Hvd as [-> ->]. set_solver.
  - left. eauto.
Qed.

Lemma filter_forall {X} (P : X → Prop) `{∀ x, Decision (P x)} l : Forall P l → filter P l = l.
Proof. induction 1; [done|]. rewrite filter_cons_True by done. by f_equal. Qed.

Lemma all_dirty_size es :
  unique es → Forall (λ e, valid e = true ∧ dirty e = true) es → size (dirty_keys es) = length es.
Proof.
  intros Hu Hall. unfold dirty_keys. rewrite filter_forall, size_list_to_set, length_fmap; [done| |done].
  apply list.NoDup_alt. intros i j k. rewrite !list_lookup_fmap, !fmap_Some. intros (ei & Hi & ->) (ej & Hj & Hk).
  rewrite list.Forall_lookup in Hall. apply (Hu i j ei ej Hi Hj); [by eapply Hall|by eapply Hall|done].
Qed.

(** A cache with a slot to spare for the sectors [ws] to come, and a counter that
    does not reach the sentinel within [k] accesses. *)
Definition spare (ws : gset (nat * Z)) (k : Z) (c : BlockCache) : Prop :=
  (size (dirty_keys (entries c) ∪ ws) < CACHE_SIZE)%nat ∧
  Forall (λ e, access_counter e ≤ counter c) (entries c) ∧ 0 ≤ counter c ∧ counter c + k < u64_max.

Lemma spare_counter ws k c : spare ws (1 + k) c → 0 ≤ k → wrapping_add 64 (counter c) 1 = counter c + 1.
Proof.
  intros (_ & _ & ? & Hk) ?. change u64_max with (2 ^ 64 - 1) in Hk. unfold wrapping_add, wrap. rewrite Z.mod_small; lia.
Qed.

Lemma spare_victim ws k c devs : cache_inv c devs → spare ws k c → 0 ≤ k → is_Some (find_lru_victim c).
Proof.
  intros (Hu & _ & Hlen) (Hs & Hc & Hc0 & Hk) Hk0. destruct (find_lru_victim c) as [v|] eqn:Hv; [done|].
  apply victim_none in Hv. assert (size (dirty_keys (entries c)) = CACHE_SIZE) as He.
  { rewrite <- Hlen. apply all_dirty_size; [done|]. unfold no_victim in Hv. rewrite list.Forall_forall in *.
    intros e He. destruct (Hv e He) as [? [?|?]]; [done|]. specialize (Hc e He). lia. }
  assert (dirty_keys (entries c) ⊆ dirty_keys (entries c) ∪ ws) as Hsub%subseteq_size by set_solver. lia.
Qed.

(** An access puts one entry, with the next counter, in a slot. *)
Lemma spare_set ws ws' k c n e :
  spare ws (1 + k) c → 0 ≤ k → access_counter e = counter c + 1 →
  (valid e = true → dirty e = true → key e ∈ dirty_keys (entries c) ∪ ws) → ws' ⊆ ws →
  spare ws' k (set_entry (mkBlockCache (entries c) (wrapping_add 64 (counter c) 1)) n e).
Proof.
  intros Hsp Hk0 He Hkey Hsub. pose proof (spare_counter _ _ _ Hsp Hk0) as Hw. destruct Hsp as (Hs & Hc & Hc0 & Hk).
  unfold spare, set_entry. cbn [entries counter]. rewrite Hw. split_and!; [|apply Forall_insert; [|lia]|lia|lia].
  - eapply Nat.le_lt_trans; [|exact Hs]. apply subseteq_size, union_least; [|by apply union_subseteq_r'].
    etrans; [apply dirty_insert_le|]. apply union_least; [apply union_subseteq_l|].
    destruct (valid e), (dirty e); cbn [andb]; [by apply singleton_subseteq_l, Hkey|apply empty_subseteq..].
  - eapply list.Forall_impl; [exact Hc|]. simpl. lia.
Qed.

(** The device behind the cache. *)
Definition working (n : Z) (dev : nat) (devs : list (option D)) : Prop :=
  ∃ d, get_device devs dev = Some d ∧ healthy d ∧ n ≤ sector_count d.

Definition has_room (n : Z) (dev : nat) ws k t : Prop := cache_inv t.1 t.2 ∧ spare ws k t.1 ∧ working n dev t.2.

Lemma working_read n dev devs d l :
  working n dev devs → get_device devs dev = Some d → 0 ≤ l < n →
  ∃ s devs', device_read devs dev d l = (Ok s, devs') ∧ working n dev devs'.
Proof.
  intros (d0 & Hg & Hh & Hn) Hg' Hl. rewrite Hg in Hg'. injection Hg' as <-.
  destruct (healthy_read d0 l Hh) as (s & d' & Hr & Hh' & Hc); [lia|]. unfold device_read. rewrite Hr.
  eexists s, _. split; [done|]. exists d'. split; [|split; [done|lia]]. rewrite (get_device_set _ _ d0) by done. by rewrite decide_True.
Qed.

Lemma room_read n dev l ws k t :
  has_room n dev ws (1 + k) t → 0 ≤ k → 0 ≤ l < n →
  (store_read t dev l).1 = st_view t (dev, l) ∧ has_room n dev ws k (store_read t dev l).2.
Proof.
  intros (Hi & Hs & Hw) Hk Hl. destruct t as [c devs]. cbn [fst snd] in *. simpl.
  destruct (read_cached c devs dev l) as [[r c'] devs'] eqn:Hr. pose proof (read_cached_spec _ _ _ _ _ _ _ Hi Hr) as (Hi' & _ & Hres).
  simpl. pose proof (spare_counter _ _ _ Hs Hk) as Hc.
  unfold read_cached in Hr. destruct (cache_find c dev l) as [m|] eqn:Hf.
  - apply cache_find_Some in Hf as (e & He & Hv & Hk' & _). simpl in Hr. rewrite He in Hr. simplify_eq.
    split; [done|]. split; [done|]. split; [|done]. apply (spare_set ws ws); [done|done|done| |done].
    intros _ Hd. apply elem_of_union_l, elem_of_dirty. by exists m, e.
  - destruct Hw as (d & Hg & Hw'). rewrite Hg in Hr.
    destruct (working_read n dev devs d l) as (s & devs1 & Hd & Hw1); [by exists d|done|done|]. rewrite Hd in Hr.
    destruct (spare_victim ws (1 + k) c devs Hi Hs ltac:(lia)) as [v Hvic]. rewrite Hvic in Hr.
    destruct (victim_replaceable _ _ Hvic) as (e0 & He0 & Hor). simpl in Hr. rewrite (flush_victim_id _ _ _ e0) in Hr by done. simplify_eq.
    split; [done|]. split; [done|]. split; [|done]. by apply (spare_set ws ws).
Qed.

Lemma room_write n dev l s ws ws' k t :
  has_room n dev ws (1 + k) t → 0 ≤ k → ws = {[(dev, l)]} ∪ ws' →
  (store_write t dev l s).1 = Ok tt ∧ has_room n dev ws' k (store_write t dev l s).2.
Proof.
  intros (Hi & Hs & Hw) Hk Hws. destruct t as [c devs]. cbn [fst snd] in *. simpl.
  destruct (write_cached c devs dev l s) as [[r c'] devs'] eqn:Hr. pose proof (write_cached_spec _ _ _ _ _ _ _ _ Hi Hr) as (Hi' & Hsame & _).
  simpl. subst devs'. pose proof (spare_counter _ _ _ Hs Hk) as Hc.
  unfold write_cached in Hr. destruct (cache_find c dev l) as [m|] eqn:Hf.
  - apply cache_find_Some in Hf as (e & He & Hv & Hk' & _). simpl in Hr. rewrite He in Hr. simplify_eq.
    split; [done|]. split; [done|]. split; [|done]. apply (spare_set ({[(dev, l)]} ∪ ws') ws'); [done|done|done| |apply union_subseteq_r].
    intros _ _. unfold key in *. simpl. rewrite Hk'. by apply elem_of_union_r, elem_of_union_l, elem_of_singleton.
  - destruct (spare_victim ws (1 + k) c devs Hi Hs ltac:(lia)) as [v Hvic]. rewrite Hvic in Hr.
    destruct (victim_replaceable _ _ Hvic) as (e0 & He0 & Hor). simpl in Hr. simplify_eq.
    split; [done|]. split; [done|]. split; [|done]. apply (spare_set ({[(dev, l)]} ∪ ws') ws'); [done|done|done| |apply union_subseteq_r].
    intros _ _. unfold key. simpl. by apply elem_of_union_r, elem_of_union_l, elem_of_singleton.
Qed.

Lemma room_granted {A} n dev (p : prog A) t (v : disk_view) :
  (∀ k, st_view t k = v k) → has_room n dev (writes dev p v) (accesses dev p v) t → reads_below n dev p v = true → granted dev p t.
Proof.
  revert t v. induction p as [a| |l k IH|l s k IH]; intros t v Hv Hr Hb; cbn [writes accesses reads_below granted] in *; [done|done|..].
  - rewrite !andb_true_iff, Z.leb_le, Z.ltb_lt in Hb. destruct Hb as [Hl Hb].
    destruct (room_read _ _ l _ _ _ Hr (accesses_nonneg _ _ _) Hl) as [He Hr']. split; [done|]. rewrite He, Hv. apply (IH _ _ v); [|done|done].
    intros k0. assert (st_inv t) as Hi by apply Hr. by rewrite (proj1 (proj2 (st_read t dev l _ _ Hi (surjective_pairing _)))).
  - destruct (room_write _ _ l s _ _ _ _ Hr (accesses_nonneg _ _ _) eq_refl) as [He Hr']. split; [done|]. rewrite He. apply (IH _ _ (store_write v dev l s).2); [|done|done].
    intros k0. assert (st_inv t) as Hi by apply Hr. rewrite (proj2 (st_write t dev l s _ _ Hi (surjective_pairing _))), He, Hv. done.
Qed.

(** What the store records as written is what the program asks to write. *)
Lemma granted_writes {A} dev (p : prog A) t (v : disk_view) :
  st_inv t → (∀ k, st_view t k = v k) → granted dev p t → written dev p t = writes dev p v.
Proof.
  revert t v. induction p as [a| |l k IH|l s k IH]; intros t v Hi Hv Hg; cbn [written writes granted] in *; [done|done|..]; destruct Hg as [He Hg].
  - destruct (st_read t dev l _ _ Hi (surjective_pairing _)) as (Hi' & Hs & _). rewrite He, Hv in Hg |- *. apply IH; [done| |done].
    intros k0. by rewrite Hs.
  - destruct (st_write t dev l s _ _ Hi (surjective_pairing _)) as [Hi' Hs]. rewrite He in Hg, Hs |- *. f_equal. apply IH; [done| |done].
    intros k0. rewrite Hs, Hv. done.
Qed.

Lemma room_refines {A} n dev (p : prog A) t (v : disk_view) :
  (∀ k, st_view t k = v k) → has_room n dev (writes dev p v) (accesses dev p v) t → reads_below n dev p v = true →
  same_outcome (run dev p t) (run dev p v).
Proof. intros Hv Hr Hb. apply granted_refines; [apply Hr|done|by eapply room_granted]. Qed.

End room.
