(* ===== verification/Ext2Disk.v ===== *)
(** * The ext2 file system on a disk of blocks

    Specifications of the operations on blocks, inodes and bitmaps: a program is
    described by what it does to the disk seen as a function from block numbers
    to contents, for the block size of 1024 bytes the code is written for. *)

From stdpp Require Import strings.
From S2P Require Import Prelude Bytes BlockCache Vfs Ext2 Ext2Store.
Local Open Scope Z_scope.

#[global] Arguments zeroes : simpl never.

(** ** Lists of bytes *)

(** The byte at a position, and a range overwritten. *)
Definition nth0 (l : list Z) (i : Z) : Z := default 0 (l !! Z.to_nat i).
Definition splice (l : list Z) (a : Z) (s : list Z) : list Z :=
  take (Z.to_nat a) l ++ s ++ drop (Z.to_nat (a + len s)) l.
#[global] Arguments splice : simpl never.

Lemma index_nth0 l i : 0 ≤ i < len l → index l i = Ret (nth0 l i).
Proof.
  intros Hi. apply index_lookup; [lia|]. unfold nth0.
  destruct (lookup_lt_is_Some_2 l (Z.to_nat i)) as [x ->]; [unfold len in *; lia|done].
Qed.

Lemma len_splice l a s : 0 ≤ a → a + len s ≤ len l → len (splice l a s) = len l.
Proof. unfold splice, len. intros. rewrite !length_app, length_take, length_drop. lia. Qed.

Lemma byte_splice l a s i :
  0 ≤ a → a + len s ≤ len l → 0 ≤ i →
  nth0 (splice l a s) i = if decide (a ≤ i < a + len s) then nth0 s (i - a) else nth0 l i.
Proof.
  unfold splice, nth0, len. intros Ha Hs Hi.
  destruct (decide _) as [Hin|Hout]; f_equal.
  - rewrite lookup_app_r by (rewrite length_take; lia). rewrite length_take.
    rewrite lookup_app_l by lia. f_equal. lia.
  - destruct (decide (i < a)).
    + rewrite lookup_app_l by (rewrite length_take; lia). apply lookup_take_lt. lia.
    + rewrite lookup_app_r by (rewrite length_take; lia). rewrite length_take.
      rewrite lookup_app_r by lia. rewrite lookup_drop. f_equal. lia.
Qed.

Lemma splice_bytes l a s : Forall is_byte l → Forall is_byte s → Forall is_byte (splice l a s).
Proof. intros. unfold splice. rewrite !list.Forall_app. auto using Forall_take, Forall_drop. Qed.

Lemma copy_into_splice l a b s : 0 ≤ a → b = a + len s → b ≤ len l → copy_into l a b s = Ret (splice l a s).
Proof. intros ? -> ?. rewrite copy_into_ok; [done|unfold len in *; lia..]. Qed.

(** A range of a list. *)
Definition sub (l : list Z) (a n : Z) : list Z := take (Z.to_nat n) (drop (Z.to_nat a) l).

Lemma slice_sub l a b n : 0 ≤ a → b = a + n → 0 ≤ n → b ≤ len l → slice l a b = Ret (sub l a n).
Proof. intros ? -> ? ?. rewrite slice_ok by lia. unfold sub. do 3 f_equal. lia. Qed.

Lemma len_sub l a n : 0 ≤ a → 0 ≤ n → a + n ≤ len l → len (sub l a n) = n.
Proof. unfold len, sub. intros. rewrite length_take, length_drop. lia. Qed.

Lemma byte_sub l a n i : 0 ≤ a → 0 ≤ i < n → nth0 (sub l a n) i = nth0 l (a + i).
Proof.
  intros. unfold nth0, sub. f_equal.
  rewrite lookup_take_lt by lia. rewrite lookup_drop. f_equal. lia.
Qed.

Lemma bytes_eq l l' : len l = len l' → (∀ i, 0 ≤ i < len l → nth0 l i = nth0 l' i) → l = l'.
Proof.
  unfold len, nth0. intros Hl Hb. apply list_eq_same_length with (length l); [lia|done|].
  intros i x y Hi Hx Hy. specialize (Hb (Z.of_nat i) ltac:(lia)). by rewrite Nat2Z.id, Hx, Hy in Hb.
Qed.

Lemma sub_splice l a s b n :
  0 ≤ a → a + len s ≤ len l → 0 ≤ b → 0 ≤ n → b + n ≤ len l → b + n ≤ a ∨ a + len s ≤ b →
  sub (splice l a s) b n = sub l b n.
Proof.
  intros. assert (len (splice l a s) = len l) as Hl by (by apply len_splice).
  apply bytes_eq; [rewrite !len_sub by lia; done|]. intros i. rewrite len_sub by lia. intros Hi.
  rewrite !byte_sub, byte_splice by lia. by rewrite decide_False by lia.
Qed.

Lemma sub_splice_eq l a s : 0 ≤ a → a + len s ≤ len l → sub (splice l a s) a (len s) = s.
Proof.
  intros. assert (len (splice l a s) = len l) as Hl by (by apply len_splice).
  assert (0 ≤ len s) by (unfold len; lia).
  apply bytes_eq; [by rewrite len_sub by lia|]. intros i. rewrite len_sub by lia. intros Hi.
  rewrite byte_sub, byte_splice by lia. rewrite decide_True by lia. f_equal. lia.
Qed.

(** The [i]th word of a block of pointers. *)
Definition word (l : list Z) (i : Z) : Z := le_val (sub l (4 * i) 4).

Lemma read_u32_sub l o : 0 ≤ o → o + 4 ≤ len l → read_u32 l o = Ret (le_val (sub l o 4)).
Proof.
  intros. unfold read_u32. rewrite !index_nth0 by lia. simpl. do 2 f_equal. apply bytes_eq; [by rewrite len_sub by lia|].
  intros i Hi. rewrite byte_sub by (change (len _) with 4 in Hi; lia).
  assert (i = 0 ∨ i = 1 ∨ i = 2 ∨ i = 3) as [-> | [-> | [-> | ->]]] by (change (len _) with 4 in Hi; lia);
    [by rewrite Z.add_0_r|done..].
Qed.

Lemma read_u16_sub l o : 0 ≤ o → o + 2 ≤ len l → read_u16 l o = Ret (le_val (sub l o 2)).
Proof.
  intros. unfold read_u16. rewrite !index_nth0 by lia. simpl. do 2 f_equal. apply bytes_eq; [by rewrite len_sub by lia|].
  intros i Hi. rewrite byte_sub by (change (len _) with 2 in Hi; lia).
  assert (i = 0 ∨ i = 1) as [-> | ->] by (change (len _) with 2 in Hi; lia); [by rewrite Z.add_0_r|done].
Qed.

Lemma len_le_bytes n x : len (le_bytes n x) = Z.of_nat n.
Proof. unfold len. by rewrite length_le_bytes. Qed.

Lemma write_u32_splice l o v : 0 ≤ o → o + 4 ≤ len l → write_u32 l o v = Ret (splice l o (le_bytes 4 v)).
Proof. intros. apply copy_into_splice; rewrite ?len_le_bytes; lia. Qed.

Lemma write_u16_splice l o v : 0 ≤ o → o + 2 ≤ len l → write_u16_bytes l o v = Ret (splice l o (le_bytes 2 v)).
Proof. intros. apply copy_into_splice; rewrite ?len_le_bytes; lia. Qed.

Definition set_word (l : list Z) (i v : Z) : list Z := splice l (4 * i) (le_bytes 4 v).

Lemma word_set_word l i v j :
  len l = 1024 → 0 ≤ i < 256 → 0 ≤ j < 256 → is_uint 32 v →
  word (set_word l i v) j = if decide (j = i) then v else word l j.
Proof.
  intros Hl Hi Hj Hv. unfold word, set_word. pose proof (len_le_bytes 4 v) as Hn. destruct (decide (j = i)) as [->|Hne].
  - replace 4 with (len (le_bytes 4 v)) at 3 by done. rewrite sub_splice_eq by lia. by apply le_bytes_val.
  - by rewrite sub_splice by lia.
Qed.

Lemma sub_bytes l a n : Forall is_byte l → Forall is_byte (sub l a n).
Proof. intros. by apply Forall_take, Forall_drop. Qed.

Lemma word_range l i : Forall is_byte l → 0 ≤ i → 4 * i + 4 ≤ len l → is_uint 32 (word l i).
Proof.
  intros Hl Hi Hn. unfold word. pose proof (le_val_bound _ (sub_bytes l (4 * i) 4 Hl)) as Hb.
  rewrite len_sub in Hb by lia. exact Hb.
Qed.

Lemma len_zeroes n : 0 ≤ n → len (zeroes n) = n.
Proof. intros. unfold len, zeroes. rewrite length_replicate. lia. Qed.

Lemma byte_zeroes n i : nth0 (zeroes n) i = 0.
Proof.
  unfold nth0, zeroes. destruct (_ !! _) as [x|] eqn:E; [|done].
  by apply lookup_replicate in E as [-> _].
Qed.

Lemma zeroes_bytes n : Forall is_byte (zeroes n).
Proof. apply Forall_replicate. done. Qed.

Lemma word_zeroes i : 0 ≤ i < 256 → word (zeroes 1024) i = 0.
Proof.
  intros. unfold word. replace (sub (zeroes 1024) (4 * i) 4) with [0; 0; 0; 0]; [done|].
  apply bytes_eq; [by rewrite len_sub by (rewrite ?len_zeroes; lia)|]. intros j Hj.
  rewrite byte_sub, byte_zeroes by (change (len _) with 4 in Hj; lia).
  assert (j = 0 ∨ j = 1 ∨ j = 2 ∨ j = 3) as [-> | [-> | [-> | ->]]] by (change (len _) with 4 in Hj; lia); done.
Qed.

(** ** Specifications *)

Definition blocks : Type := Z → list Z.
Definition bupd (B : blocks) (b : Z) (d : list Z) : blocks := λ x, if decide (x = b) then d else B x.

Lemma bupd_eq B b d : bupd B b d b = d.
Proof. unfold bupd. by rewrite decide_True. Qed.
Lemma bupd_ne B b d x : x ≠ b → bupd B b d x = B x.
Proof. intros. unfold bupd. by rewrite decide_False. Qed.

(** A block as it is on the disk. *)
Definition block_ok (d : list Z) : Prop := len d = 1024 ∧ Forall is_byte d.

Section spec.
Context `{BuildProfile} (fs : Ext2Fs) (N : Z).
Implicit Types B : blocks.

(** The first [N] blocks of the disk. *)
Definition rep (v : disk_view) B : Prop :=
  ∀ b, 0 ≤ b < N → block_ok (B b) ∧
    v (e_device_idx fs, 2 * b) = Some (take 512 (B b)) ∧ v (e_device_idx fs, 2 * b + 1) = Some (drop 512 (B b)).

(** From the disk [B] the program answers without an error, and its answer and
    the new disk satisfy [Q]. *)
Definition spec {E A} (p : io E A) B (Q : A → blocks → Prop) : Prop :=
  ∀ v, rep v B → ∃ a v' B', run (e_device_idx fs) p v = Ret (Ok a, v') ∧ rep v' B' ∧ Q a B'.

(** The same for any answer, the error included. *)
Definition answers {A} (p : prog A) B (Q : A → blocks → Prop) : Prop :=
  ∀ v, rep v B → ∃ a v' B', run (e_device_idx fs) p v = Ret (a, v') ∧ rep v' B' ∧ Q a B'.

Lemma spec_ok {E A} (a : A) B Q : Q a B → spec (ok (E := E) a) B Q.
Proof. intros HQ v Hv. by exists a, v, B. Qed.

Lemma spec_lift {E A} (o : outcome A) a B Q : o = Ret a → Q a B → spec (lift (E := E) o) B Q.
Proof. intros -> HQ v Hv. by exists a, v, B. Qed.

Lemma spec_bind {E A A'} (p : io E A) (f : A → io E A') B Q :
  spec p B (λ a B', spec (f a) B' Q) → spec (p ≫= f) B Q.
Proof.
  intros Hp v Hv. destruct (Hp v Hv) as (a & v1 & B1 & Hr & Hv1 & Hf).
  destruct (Hf v1 Hv1) as (a' & v2 & B2 & Hr2 & ? & ?). exists a', v2, B2. split; [|done].
  unfold mbind, io_bind. rewrite run_bind, Hr. exact Hr2.
Qed.

Lemma spec_mono {E A} (p : io E A) B (Q Q' : A → blocks → Prop) :
  spec p B Q → (∀ a B', Q a B' → Q' a B') → spec p B Q'.
Proof. intros Hp HQ v Hv. destruct (Hp v Hv) as (a & v1 & B1 & ? & ? & ?). exists a, v1, B1. auto. Qed.

Lemma spec_lift_bind {E A A'} (o : outcome A) a (f : A → io E A') B Q :
  o = Ret a → spec (f a) B Q → spec (lift o ≫= f) B Q.
Proof. intros Ho Hf. by apply spec_bind, (spec_lift _ a). Qed.

Lemma spec_map_err {E E' A} (e : E') (p : io E A) B Q : spec p B Q → spec (map_err e p) B Q.
Proof.
  intros Hp v Hv. destruct (Hp v Hv) as (a & v1 & B1 & Hr & ? & ?). exists a, v1, B1.
  unfold map_err. rewrite run_bind, Hr. done.
Qed.

(** What the disk looks like can be used before the program starts. *)
Lemma spec_wf {E A} (p : io E A) B Q : ((∀ b, 0 ≤ b < N → block_ok (B b)) → spec p B Q) → spec p B Q.
Proof. intros Hp v Hv. apply Hp; [|done]. intros b Hb. by apply Hv. Qed.

Lemma spec_run_prog {E A} (p : prog A) B Q : answers p B Q → spec (run_prog (E := E) p) B Q.
Proof.
  intros Hp v Hv. destruct (Hp v Hv) as (a & v1 & B1 & Hr & ? & ?). exists a, v1, B1.
  unfold run_prog. rewrite run_bind, Hr. done.
Qed.

(** *** Blocks *)

Context (block_size : e_block_size fs = 1024).

Lemma half_block d : block_ok d → len (take 512 d) = 512 ∧ len (drop 512 d) = 512.
Proof. intros [Hl _]. unfold len in *. rewrite length_take, length_drop. lia. Qed.

Lemma fill_halves d z :
  block_ok d → len z = 1024 →
  copy_into z 0 512 (take 512 d) = Ret (splice z 0 (take 512 d)) ∧
  copy_into (splice z 0 (take 512 d)) 512 1024 (drop 512 d) = Ret d.
Proof.
  intros Hd Hz. destruct (half_block _ Hd) as [L1 L2]. pose proof (len_splice z 0 (take 512 d)) as Ls. destruct Hd as [Hl _].
  rewrite !copy_into_splice by lia. split; [done|]. f_equal. apply bytes_eq; [rewrite !len_splice; lia|].
  intros i Hi. rewrite len_splice in Hi by lia. rewrite !byte_splice by lia. unfold nth0.
  destruct (decide _); [rewrite lookup_drop; do 2 f_equal; lia|]. rewrite decide_True by lia.
  rewrite lookup_take_lt by lia. do 2 f_equal. lia.
Qed.

Lemma spec_read_block b B Q : 0 ≤ b < N → Q (B b) B → spec (read_block fs b) B Q.
Proof.
  intros Hb HQ v Hv. destruct (Hv b Hb) as (Hd & H1 & H2).
  destruct (fill_halves _ (zeroes 1024) Hd) as [C1 C2]; [by rewrite len_zeroes|].
  exists (B b), v, B. split; [|done]. unfold read_block, read_block_static. rewrite block_size.
  change (1024 `div` SECTOR_SIZE) with 2. change (seqZ 0 2) with [0; 1]. revert C1 C2. generalize (zeroes 1024). intros z C1 C2.
  cbn [read_sectors]. unfold mbind, io_bind. cbn [prog_bind run store_read view_store].
  rewrite Z.add_0_r, (Z.mul_comm b 2), H1. cbn [ok_or ok prog_bind run].
  change (0 * SECTOR_SIZE + SECTOR_SIZE) with 512. change (0 * SECTOR_SIZE) with 0. rewrite C1.
  cbn [lift ok prog_bind run store_read view_store]. rewrite H2. cbn [ok_or ok prog_bind run].
  change (1 * SECTOR_SIZE + SECTOR_SIZE) with 1024. change (1 * SECTOR_SIZE) with 512. by rewrite C2.
Qed.

Lemma spec_write_block b d B Q : 0 ≤ b < N → block_ok d → Q tt (bupd B b d) → spec (write_block fs b d) B Q.
Proof.
  intros Hb Hd HQ v Hv. destruct (half_block _ Hd) as [L1 L2]. pose proof Hd as [Hl _]. unfold write_block. rewrite block_size.
  change (1024 `div` SECTOR_SIZE) with 2. change (seqZ 0 2) with [0; 1]. cbn [for_each]. unfold mbind, io_bind.
  rewrite (slice_ok d (0 * SECTOR_SIZE)), (slice_ok d (1 * SECTOR_SIZE)) by (rewrite ?Hl; done).
  cbn [lift ok prog_bind run store_write view_store].
  eexists tt, _, (bupd B b d). split; [reflexivity|]. split; [|done]. intros x Hx. unfold bupd at 1.
  change (Z.to_nat (0 * SECTOR_SIZE + SECTOR_SIZE - 0 * SECTOR_SIZE)) with 512%nat.
  change (Z.to_nat (1 * SECTOR_SIZE + SECTOR_SIZE - 1 * SECTOR_SIZE)) with 512%nat.
  change (Z.to_nat (0 * SECTOR_SIZE)) with 0%nat. change (Z.to_nat (1 * SECTOR_SIZE)) with 512%nat. rewrite drop_0.
  rewrite (take_ge (drop 512 d)) by (unfold len in *; lia).
  destruct (decide (x = b)) as [->|Hne]; [rewrite bupd_eq|rewrite bupd_ne by done].
  - split; [done|]. split; [rewrite decide_False by (intros [=]; lia)|]; rewrite decide_True; [done|f_equal; lia|done|f_equal; lia].
  - rewrite !decide_False by (intros [=]; lia). by apply Hv.
Qed.

End spec.

(** ** Inodes as bytes *)

Lemma splice_adjacent l a s s' :
  0 ≤ a → a + len s + len s' ≤ len l → splice (splice l a s) (a + len s) s' = splice l a (s ++ s').
Proof.
  intros Ha Hl. assert (len (s ++ s') = len s + len s') as Happ by (unfold len; rewrite length_app; lia).
  assert (0 ≤ len s ∧ 0 ≤ len s') as [? ?] by (unfold len; lia).
  assert (len (splice l a s) = len l) as H1 by (apply len_splice; lia).
  apply bytes_eq; [rewrite !len_splice; lia|]. intros i Hi. rewrite !len_splice in Hi by lia.
  rewrite byte_splice, (byte_splice l a (s ++ s')), byte_splice by lia. rewrite Happ. unfold nth0.
  destruct (decide (a + len s ≤ i < a + len s + len s')); [|destruct (decide (a ≤ i < a + len s))].
  - rewrite decide_True by lia. rewrite lookup_app_r by (unfold len in *; lia). do 2 f_equal. unfold len in *. lia.
  - rewrite decide_True by lia. by rewrite lookup_app_l by (unfold len in *; lia).
  - by rewrite decide_False by lia.
Qed.

Lemma len_words ws : len (bytes_of_words ws) = 4 * len ws.
Proof.
  induction ws as [|w ws IH]; [done|]. change (bytes_of_words (w :: ws)) with (le_bytes 4 w ++ bytes_of_words ws).
  rewrite len_app, len_le_bytes, IH. change (len (w :: ws)) with (len ([w] ++ ws)). rewrite len_app. change (len [w]) with 1. lia.
Qed.

Lemma splice_nil l a : 0 ≤ a ≤ len l → splice l a [] = l.
Proof. intros. unfold splice. change (len []) with 0. rewrite Z.add_0_r. simpl. apply take_drop. Qed.

Lemma write_words_splice l o ws :
  0 ≤ o → o + 4 * len ws ≤ len l → write_words l o ws = Ret (splice l o (bytes_of_words ws)).
Proof.
  revert l o. induction ws as [|w ws IH]; intros l o Ho Hl; simpl.
  { rewrite splice_nil; [done|]. change (len []) with 0 in Hl. lia. }
  change (len (w :: ws)) with (len ([w] ++ ws)) in Hl. rewrite len_app in Hl. change (len [w]) with 1 in Hl.
  pose proof (len_le_bytes 4 w) as Hw. assert (0 ≤ len ws) by (unfold len; lia).
  rewrite write_u32_splice by lia. simpl. rewrite IH by (rewrite ?len_splice; lia).
  replace (o + 4) with (o + len (le_bytes 4 w)) by lia. rewrite splice_adjacent; [done|lia|]. rewrite len_words. lia.
Qed.

Definition words_at (l : list Z) (o : Z) (n : nat) : list Z := (λ k, le_val (sub l (o + 4 * k) 4)) <$> seqZ 0 (Z.of_nat n).

Lemma read_words_at l o n : 0 ≤ o → o + 4 * Z.of_nat n ≤ len l → read_words l o n = Ret (words_at l o n).
Proof.
  revert o. induction n as [|n IH]; intros o Ho Hl; [done|]. cbn [read_words]. rewrite read_u32_sub by lia. simpl.
  rewrite IH by lia. simpl. unfold words_at. rewrite (seqZ_cons 0 (Z.of_nat (S n))) by lia. rewrite fmap_cons, Z.mul_0_r, Z.add_0_r. do 2 f_equal.
  change (Z.succ 0) with (1 + 0). rewrite <- fmap_add_seqZ.
  replace (Z.pred (Z.of_nat (S n))) with (Z.of_nat n) by lia. rewrite <- list_fmap_compose. apply list_fmap_ext.
  intros ? k _. simpl. f_equal. f_equal. lia.
Qed.

Definition parse_inode (l : list Z) : Inode :=
  let u16 o := le_val (sub l o 2) in let u32 o := le_val (sub l o 4) in
  mkInode (u16 0) (u16 2) (u32 4) (u32 8) (u32 12) (u32 16) (u32 20) (u16 24) (u16 26) (u32 28) (words_at l 40 15) (u32 108).

Lemma inode_from_bytes l : len l = 128 → Inode_from_bytes l = Ret (parse_inode l).
Proof.
  intros Hl. unfold Inode_from_bytes. rewrite read_words_at by lia. simpl. rewrite !read_u16_sub, !read_u32_sub by lia. done.
Qed.

(** Every field has the width of its type. *)
Definition inode_ok (i : Inode) : Prop :=
  is_uint 16 (i_mode i) ∧ is_uint 16 (i_uid i) ∧ is_uint 32 (i_size_low i) ∧ is_uint 32 (i_atime i) ∧ is_uint 32 (i_ctime i) ∧
  is_uint 32 (i_mtime i) ∧ is_uint 32 (i_dtime i) ∧ is_uint 16 (i_gid i) ∧ is_uint 16 (i_nlink i) ∧ is_uint 32 (i_blocks i) ∧
  len (i_block i) = 15 ∧ Forall (is_uint 32) (i_block i) ∧ is_uint 32 (i_size_high i).

Definition inode_bytes (i : Inode) : list Z :=
  let l := splice (zeroes 128) 0 (le_bytes 2 (i_mode i)) in let l := splice l 2 (le_bytes 2 (i_uid i)) in
  let l := splice l 4 (le_bytes 4 (i_size_low i)) in let l := splice l 8 (le_bytes 4 (i_atime i)) in
  let l := splice l 12 (le_bytes 4 (i_ctime i)) in let l := splice l 16 (le_bytes 4 (i_mtime i)) in
  let l := splice l 20 (le_bytes 4 (i_dtime i)) in let l := splice l 24 (le_bytes 2 (i_gid i)) in
  let l := splice l 26 (le_bytes 2 (i_nlink i)) in let l := splice l 28 (le_bytes 4 (i_blocks i)) in
  let l := splice l 40 (bytes_of_words (i_block i)) in splice l 108 (le_bytes 4 (i_size_high i)).

(** The stages of an array of 128 bytes that is filled by splices, each with
    its length. *)
Ltac splice_lia := rewrite ?len_le_bytes, ?len_words; lia.
Ltac name_stages :=
  repeat match goal with
  | L : len ?x = 128 |- context [splice ?x ?a ?s] =>
      is_var x;
      let l := fresh "l" in let E := fresh "E" in
      remember (splice x a s) as l eqn:E; assert (len l = 128) by (rewrite E, len_splice; splice_lia)
  end.
Ltac name_zeroes :=
  let z := fresh "z" in let L := fresh "L" in
  pose proof (len_zeroes 128 ltac:(lia)) as L; pose proof (zeroes_bytes 128);
  generalize dependent (zeroes 128); intros z; intros.

Lemma inode_to_bytes i : len (i_block i) = 15 → Inode_to_bytes i = Ret (inode_bytes i).
Proof.
  intros Hb. unfold Inode_to_bytes, inode_bytes. cbv zeta. name_zeroes. name_stages.
  repeat (first [rewrite write_u16_splice by splice_lia | rewrite write_u32_splice by splice_lia
                | rewrite write_words_splice by splice_lia];
          cbn [mbind outcome_bind]; match goal with E : ?l = ?t |- context [?t] => rewrite <- E end).
  done.
Qed.

Lemma sub_in_splice l a s c n :
  0 ≤ a → a + len s ≤ len l → 0 ≤ c → 0 ≤ n → c + n ≤ len s → sub (splice l a s) (a + c) n = sub s c n.
Proof.
  intros. assert (len (splice l a s) = len l) as Hl by (by apply len_splice).
  apply bytes_eq; [rewrite !len_sub by lia; done|]. intros i. rewrite len_sub by lia. intros Hi.
  rewrite !byte_sub, byte_splice by lia. rewrite decide_True by lia. f_equal. lia.
Qed.

Lemma sub_words ws k w : ws !! k = Some w → sub (bytes_of_words ws) (4 * Z.of_nat k) 4 = le_bytes 4 w.
Proof.
  revert k. induction ws as [|w' ws IH]; intros k Hk; [done|].
  change (bytes_of_words (w' :: ws)) with (le_bytes 4 w' ++ bytes_of_words ws). unfold sub. destruct k as [|k]; simpl in Hk.
  - simplify_eq. change (Z.to_nat (4 * Z.of_nat 0)) with 0%nat. rewrite drop_0. change (Z.to_nat 4) with 4%nat.
    by rewrite take_app_length' by (by rewrite length_le_bytes).
  - rewrite <- (IH k Hk). unfold sub. f_equal. rewrite drop_app_ge by (rewrite length_le_bytes; lia).
    f_equal. rewrite length_le_bytes. lia.
Qed.

Lemma words_at_splice l o ws :
  0 ≤ o → o + 4 * len ws ≤ len l → Forall (is_uint 32) ws → words_at (splice l o (bytes_of_words ws)) o (length ws) = ws.
Proof.
  intros Ho Hl Hw. apply list_eq_same_length with (length ws); [done|unfold words_at; by rewrite length_fmap, length_seqZ, Nat2Z.id|].
  intros k x y Hk Hx Hy. unfold words_at in Hx. rewrite list_lookup_fmap, lookup_seqZ_lt in Hx by lia. simpl in Hx. simplify_eq.
  rewrite Z.add_0_l, sub_in_splice by (rewrite ?len_words; unfold len in *; lia).
  rewrite (sub_words _ _ _ Hy). apply le_bytes_val. rewrite list.Forall_lookup in Hw. by apply (Hw k).
Qed.

Lemma words_at_frame l a s o n :
  0 ≤ a → a + len s ≤ len l → 0 ≤ o → o + 4 * Z.of_nat n ≤ len l → o + 4 * Z.of_nat n ≤ a ∨ a + len s ≤ o →
  words_at (splice l a s) o n = words_at l o n.
Proof.
  intros. apply list_fmap_ext. intros ? k Hk%lookup_seqZ. by rewrite sub_splice by lia.
Qed.

Lemma sub_spliced l a s n : 0 ≤ a → a + len s ≤ len l → n = len s → sub (splice l a s) a n = s.
Proof. intros ? ? ->. by apply sub_splice_eq. Qed.

Lemma inode_bytes_ok i : inode_ok i → len (inode_bytes i) = 128 ∧ Forall is_byte (inode_bytes i).
Proof.
  intros (_ & _ & _ & _ & _ & _ & _ & _ & _ & _ & Hb & Hw & _). unfold inode_bytes. cbv zeta. name_zeroes. name_stages. split; [done|]. subst.
  assert (Forall is_byte (bytes_of_words (i_block i))).
  { clear. induction (i_block i) as [|w ws IH]; [constructor|]. apply Forall_app_2; [apply le_bytes_byte|exact IH]. }
  repeat (apply splice_bytes; [|apply le_bytes_byte || done]). done.
Qed.

(** The bytes of an inode give the inode back. *)
Lemma parse_inode_bytes i : inode_ok i → parse_inode (inode_bytes i) = i.
Proof.
  intros Hok. destruct Hok as (H1 & H2 & H3 & H4 & H5 & H6 & H7 & H8 & H9 & H10 & Hb & Hw & H11).
  transitivity (mkInode (i_mode i) (i_uid i) (i_size_low i) (i_atime i) (i_ctime i) (i_mtime i) (i_dtime i) (i_gid i)
    (i_nlink i) (i_blocks i) (i_block i) (i_size_high i)); [|by destruct i]. unfold parse_inode, inode_bytes. cbv zeta.
  name_zeroes. name_stages. f_equal.
  all: try (repeat match goal with E : ?l = _ |- context [sub ?l _ _] => rewrite E, sub_splice; [|splice_lia..] end;
    match goal with E : ?l = _ |- context [sub ?l _ _] => rewrite E end; rewrite sub_spliced by splice_lia; by apply le_bytes_val).
  match goal with E : ?l = _ |- words_at ?l _ _ = _ => rewrite E end. rewrite words_at_frame by splice_lia.
  match goal with E : ?l = _ |- words_at ?l _ _ = _ => rewrite E end. replace 15%nat with (length (i_block i)) by (unfold len in Hb; lia).
  apply words_at_splice; [lia|splice_lia|done].
Qed.

(** ** The layout of the disk *)

Section layout.
Context `{BuildProfile} (fs : Ext2Fs).
Implicit Types (B : blocks) (g : Z).

Definition ipg : Z := s_inodes_per_group (e_superblock fs).
Definition bpg : Z := s_blocks_per_group (e_superblock fs).
Definition first_block : Z := s_first_data_block (e_superblock fs).
Definition blocks_count : Z := s_blocks_count (e_superblock fs).
Definition groups : Z := len (e_group_descriptors fs).
Definition inode_bytes_size : Z := Z.max (s_inode_size (e_superblock fs)) INODE_SIZE.

(** Where things are: the inode in its table, the bitmaps of a group. *)
Definition group (g : Z) : BlockGroupDescriptor :=
  default (mkBlockGroupDescriptor 0 0 0 0 0 0) (e_group_descriptors fs !! Z.to_nat g).
Definition table_offset (ino : Z) : Z := (ino - 1) mod ipg * inode_bytes_size.
Definition inode_block (ino : Z) : Z := bg_inode_table (group ((ino - 1) `div` ipg)) + table_offset ino `div` 1024.
Definition inode_offset (ino : Z) : Z := table_offset ino mod 1024.
Definition block_bitmap (g : Z) : Z := bg_block_bitmap (group g).
Definition inode_bitmap (g : Z) : Z := bg_inode_bitmap (group g).

Definition valid_inode (ino : Z) : Prop := 1 ≤ ino ≤ ipg * groups.
Definition in_disk (b : Z) : Prop := first_block ≤ b < blocks_count.

(** A disk with blocks of 1024 bytes whose tables and bitmaps are disjoint. *)
Record layout_ok : Prop := {
  lo_size : e_block_size fs = 1024;
  lo_count : 0 < blocks_count < 2 ^ 31;
  lo_first : 1 ≤ first_block;
  lo_groups : first_block + bpg * (groups - 1) < blocks_count ≤ first_block + bpg * groups;
  lo_bpg : 0 < bpg ≤ 8192;
  lo_ipg : 0 < ipg ≤ 8192;
  lo_inodes : ipg * groups < 2 ^ 31;
  lo_isize : inode_bytes_size ≤ 1024 ∧ 1024 mod inode_bytes_size = 0;
  lo_table ino : valid_inode ino → in_disk (inode_block ino);
  lo_bbm g : 0 ≤ g < groups → in_disk (block_bitmap g);
  lo_ibm g : 0 ≤ g < groups → in_disk (inode_bitmap g);
  lo_bbm_inj g g' : 0 ≤ g < groups → 0 ≤ g' < groups → block_bitmap g = block_bitmap g' → g = g';
  lo_ibm_inj g g' : 0 ≤ g < groups → 0 ≤ g' < groups → inode_bitmap g = inode_bitmap g' → g = g';
  lo_bbm_ibm g g' : 0 ≤ g < groups → 0 ≤ g' < groups → block_bitmap g ≠ inode_bitmap g';
  lo_bbm_table g ino : 0 ≤ g < groups → valid_inode ino → block_bitmap g ≠ inode_block ino;
  lo_ibm_table g ino : 0 ≤ g < groups → valid_inode ino → inode_bitmap g ≠ inode_block ino;
  lo_table_inj ino ino' : valid_inode ino → valid_inode ino' → inode_block ino = inode_block ino' →
    inode_offset ino = inode_offset ino' → ino = ino';
}.

Definition is_block_bitmap (b : Z) : Prop := ∃ g, 0 ≤ g < groups ∧ b = block_bitmap g.
Definition is_inode_bitmap (b : Z) : Prop := ∃ g, 0 ≤ g < groups ∧ b = inode_bitmap g.
Definition is_table (b : Z) : Prop := ∃ ino, valid_inode ino ∧ b = inode_block ino.
Definition is_meta (b : Z) : Prop := is_block_bitmap b ∨ is_inode_bitmap b ∨ is_table b.

Context (lo : layout_ok).

Lemma in_disk_range b : in_disk b → 0 ≤ b < blocks_count.
Proof. pose proof (lo_first lo). unfold in_disk. lia. Qed.

Lemma group_ok g : 0 ≤ g < groups → e_group_descriptors fs !! Z.to_nat g = Some (group g).
Proof.
  unfold groups, len, group. intros Hg. destruct (lookup_lt_is_Some_2 (e_group_descriptors fs) (Z.to_nat g)) as [x ->]; [lia|done].
Qed.

Lemma inode_group ino : valid_inode ino → 0 ≤ (ino - 1) `div` ipg < groups.
Proof.
  intros [? ?]. pose proof (lo_ipg lo). split; [apply Z.div_pos; lia|]. apply Z.div_lt_upper_bound; lia.
Qed.

(** An inode does not cross the end of a block, and two inodes do not overlap. *)
Lemma inode_slot ino : ∃ k, inode_offset ino = k * inode_bytes_size ∧ 0 ≤ k ∧ inode_offset ino + inode_bytes_size ≤ 1024.
Proof.
  destruct (lo_isize lo) as [Hle Hm]. assert (128 ≤ inode_bytes_size) by (unfold inode_bytes_size, INODE_SIZE; lia).
  apply Z.mod_divide in Hm as [q Hq]; [|lia]. unfold inode_offset, table_offset.
  set (a := (ino - 1) mod ipg). rewrite Hq. rewrite Zmult_mod_distr_r. exists (a mod q).
  assert (0 < q) by nia. pose proof (Z.mod_pos_bound a q ltac:(lia)). split; [done|]. split; [lia|]. nia.
Qed.

Lemma inode_disjoint ino ino' :
  inode_offset ino ≠ inode_offset ino' → inode_offset ino + 128 ≤ inode_offset ino' ∨ inode_offset ino' + 128 ≤ inode_offset ino.
Proof.
  destruct (inode_slot ino) as (k & -> & ? & ?), (inode_slot ino') as (k' & -> & ? & ?). intros Hne.
  assert (128 ≤ inode_bytes_size) by (unfold inode_bytes_size, INODE_SIZE; lia).
  destruct (Z.lt_trichotomy k k') as [?|[->|?]]; [left|done|right]; nia.
Qed.

Lemma locate_inode_ok ino : valid_inode ino → locate_inode fs ino = ok (inode_block ino, inode_offset ino).
Proof.
  intros Hi. pose proof Hi as [? ?]. unfold locate_inode. rewrite (proj2 (Z.eqb_neq _ _)) by lia.
  fold ipg. unfold udiv, urem. pose proof (lo_ipg lo). rewrite !(proj2 (Z.eqb_neq ipg 0)) by lia.
  cbn [lift ok mbind io_bind prog_bind]. rewrite (group_ok _ (inode_group _ Hi)).
  pose proof (lo_size lo) as Hs. rewrite Hs. cbn [lift ok mbind io_bind prog_bind]. fold inode_bytes_size.
  change ((ino - 1) mod ipg * inode_bytes_size) with (table_offset ino).
  assert (0 ≤ table_offset ino < 2 ^ 23) as Ht.
  { unfold table_offset. pose proof (Z.mod_pos_bound (ino - 1) ipg ltac:(lia)). destruct (lo_isize lo).
    assert (128 ≤ inode_bytes_size) by (unfold inode_bytes_size, INODE_SIZE; lia). nia. }
  pose proof (lo_table lo ino Hi) as Htab. apply in_disk_range in Htab. unfold inode_block in Htab. pose proof (lo_count lo).
  assert (0 ≤ table_offset ino `div` 1024 < 2 ^ 13) by (split; [apply Z.div_pos; lia|apply Z.div_lt_upper_bound; lia]).
  change (1024 =? 0) with false. cbn [lift ok prog_bind mbind io_bind]. unfold add32, cast, wrap.
  rewrite (Z.mod_small (table_offset ino `div` 1024)) by lia.
  rewrite arith_ok by (unfold is_uint; lia). done.
Qed.

(** The inodes on the disk. *)
Definition inode_at B (ino : Z) : Inode := parse_inode (sub (B (inode_block ino)) (inode_offset ino) 128).
Definition put_inode B (ino : Z) (i : Inode) : blocks :=
  bupd B (inode_block ino) (splice (B (inode_block ino)) (inode_offset ino) (inode_bytes i)).

Lemma spec_read_inode ino B Q :
  valid_inode ino → Q (inode_at B ino) B → spec fs blocks_count (read_inode fs ino) B Q.
Proof.
  intros Hi HQ. apply spec_wf. intros Hwf. unfold read_inode. rewrite (locate_inode_ok ino Hi). apply spec_bind, spec_ok, spec_bind.
  pose proof (in_disk_range _ (lo_table lo ino Hi)) as Hr. destruct (Hwf _ Hr) as [Hl _].
  apply spec_read_block; [exact (lo_size lo)|done|]. destruct (inode_slot ino) as (k & ? & ? & ?).
  assert (128 ≤ inode_bytes_size) by (unfold inode_bytes_size, INODE_SIZE; lia). destruct (lo_isize lo).
  rewrite Hl, (proj2 (Z.ltb_ge _ _)) by (unfold INODE_SIZE; nia).
  apply (spec_lift _ _ _ (inode_at B ino)); [|done]. rewrite (slice_sub _ _ _ 128) by nia. simpl. apply inode_from_bytes.
  rewrite len_sub by nia. done.
Qed.

Lemma spec_write_inode ino i B Q :
  valid_inode ino → inode_ok i → Q tt (put_inode B ino i) → spec fs blocks_count (write_inode fs ino i) B Q.
Proof.
  intros Hi Hok HQ. apply spec_wf. intros Hwf. unfold write_inode. rewrite (locate_inode_ok ino Hi). apply spec_bind, spec_ok, spec_bind.
  pose proof (in_disk_range _ (lo_table lo ino Hi)) as Hr. destruct (Hwf _ Hr) as [Hl Hb].
  apply spec_read_block; [exact (lo_size lo)|done|]. destruct (inode_bytes_ok i Hok) as [Hn Hib].
  apply (spec_lift_bind _ _ _ (inode_bytes i)); [by apply inode_to_bytes, Hok|].
  destruct (inode_slot ino) as (k & ? & ? & ?). assert (128 ≤ inode_bytes_size) by (unfold inode_bytes_size, INODE_SIZE; lia).
  apply (spec_lift_bind _ _ _ (splice (B (inode_block ino)) (inode_offset ino) (inode_bytes i)));
    [apply copy_into_splice; nia|].
  apply spec_write_block; [exact (lo_size lo)|done| |done]. split; [rewrite len_splice; nia|by apply splice_bytes].
Qed.

Lemma inode_at_put B ino i ino' :
  valid_inode ino → valid_inode ino' → inode_ok i → len (B (inode_block ino)) = 1024 →
  inode_at (put_inode B ino i) ino' = if decide (ino' = ino) then i else inode_at B ino'.
Proof.
  intros Hi Hi' Hok Hl. unfold inode_at, put_inode. destruct (inode_bytes_ok i Hok) as [Hn _].
  destruct (inode_slot ino) as (k & ? & ? & ?), (inode_slot ino') as (k' & ? & ? & ?).
  assert (128 ≤ inode_bytes_size) by (unfold inode_bytes_size, INODE_SIZE; lia).
  destruct (decide (ino' = ino)) as [->|Hne].
  - rewrite bupd_eq, sub_spliced by nia. by apply parse_inode_bytes.
  - unfold bupd. destruct (decide _) as [He|]; [|done]. rewrite He. f_equal. rewrite sub_splice; [done|nia..|].
    rewrite Hn. destruct (inode_disjoint ino ino') as [?|?]; [|lia..]. intros Ho. by apply Hne, (lo_table_inj lo).
Qed.

End layout.
