(* ===== verification/Ext2Alloc.v ===== *)
(** * Allocation of blocks in the ext2 file system

    The bitmaps as sets of used blocks: [alloc_block] takes a free block and marks
    it, [free_block] gives one back. *)

From stdpp Require Import strings.
From S2P Require Import Prelude Bytes BlockCache Vfs Ext2 Ext2Store Ext2Disk.
Local Open Scope Z_scope.

(** ** Bits of a bitmap *)

Definition bit (l : list Z) (k : Z) : bool := Z.testbit (nth0 l (k `div` 8)) (k mod 8).

Lemma elem_of_zero_bits i byte a b :
  (a, b) ∈ zero_bits i byte ↔ a = i ∧ 0 ≤ b < 8 ∧ Z.testbit byte b = false.
Proof.
  unfold zero_bits. rewrite list_elem_of_fmap. split.
  - intros (x & [= -> ->] & [Hz Hx%elem_of_seqZ]%list_elem_of_filter). split_and!; [done|lia..|].
    apply Z.eqb_eq in Hz. rewrite land_shiftl1_eqb in Hz by lia. by apply negb_true_iff.
  - intros (-> & Hb & Hz). exists b. split; [done|]. apply list_elem_of_filter. split; [|apply elem_of_seqZ; lia].
    apply Z.eqb_eq. rewrite land_shiftl1_eqb by lia. by rewrite Hz.
Qed.

Lemma elem_of_zero_positions l i a b :
  (a, b) ∈ zero_positions l i ↔ i ≤ a < i + len l ∧ 0 ≤ b < 8 ∧ Z.testbit (nth0 l (a - i)) b = false.
Proof.
  revert i. induction l as [|byte l IH]; intros i; cbn [zero_positions].
  { change (len []) with 0. split; [by intros ?%not_elem_of_nil|lia]. }
  rewrite elem_of_app, elem_of_zero_bits, IH. change (len (byte :: l)) with (len ([byte] ++ l)). rewrite len_app.
  change (len [byte]) with 1. assert (0 ≤ len l) by (unfold len; lia).
  assert (∀ j, 0 ≤ j → nth0 (byte :: l) (j + 1) = nth0 l j) as Hs.
  { intros j Hj. unfold nth0. by replace (Z.to_nat (j + 1)) with (S (Z.to_nat j)) by lia. }
  split.
  - intros [(-> & Hb & Hz)|(Ha & Hb & Hz)].
    + split; [lia|]. split; [done|]. by rewrite Z.sub_diag.
    + split; [lia|]. split; [done|]. replace (a - i) with (a - (i + 1) + 1) by lia. by rewrite Hs by lia.
  - intros (Ha & Hb & Hz). destruct (decide (a = i)) as [->|]; [left; rewrite Z.sub_diag in Hz; done|right].
    split; [lia|]. split; [done|]. rewrite <- Hs by lia. by replace (a - (i + 1) + 1) with (a - i) by lia.
Qed.

(** The first clear bit of the scan. *)
Lemma zero_positions_head l a b r : zero_positions l 0 = (a, b) :: r → 0 ≤ a < len l ∧ 0 ≤ b < 8 ∧ bit l (8 * a + b) = false.
Proof.
  intros Hz. assert ((a, b) ∈ zero_positions l 0) as Hin by (rewrite Hz; left).
  apply elem_of_zero_positions in Hin as (Ha & Hb & Ht). split; [lia|]. split; [done|]. unfold bit.
  rewrite Z.sub_0_r in Ht. rewrite (Z.mul_comm 8), Z.div_add_l, (Z.add_comm _ b), Z.mod_add, Z.mod_small, Z.div_small by lia.
  by rewrite Z.add_0_r.
Qed.

Lemma zero_positions_nil l k : zero_positions l 0 = [] → 0 ≤ k < 8 * len l → bit l k = true.
Proof.
  intros Hz Hk. destruct (bit l k) eqn:Hb; [done|]. exfalso.
  assert ((k `div` 8, k mod 8) ∈ zero_positions l 0) as Hin; [|rewrite Hz in Hin; by apply not_elem_of_nil in Hin].
  apply elem_of_zero_positions. pose proof (Z.mod_pos_bound k 8 ltac:(lia)).
  split; [split; [apply Z.div_pos; lia|apply Z.div_lt_upper_bound; lia]|]. split; [done|]. by rewrite Z.sub_0_r.
Qed.

Definition with_bit (l : list Z) (k : Z) (v : bool) : list Z :=
  let byte := nth0 l (k `div` 8) in
  let byte := if v then Z.lor byte (Z.shiftl 1 (k mod 8)) else Z.land byte (unot 8 (Z.shiftl 1 (k mod 8))) in
  <[Z.to_nat (k `div` 8) := byte]> l.

Lemma nth0_byte l i : Forall is_byte l → is_byte (nth0 l i).
Proof.
  intros Hl. unfold nth0. destruct (l !! Z.to_nat i) as [x|] eqn:E; simpl; [|done].
  rewrite list.Forall_lookup in Hl. by eapply Hl.
Qed.

Lemma bit_with_bit l k v j :
  Forall is_byte l → 0 ≤ k < 8 * len l → 0 ≤ j → bit (with_bit l k v) j = if decide (j = k) then v else bit l j.
Proof.
  intros Hl Hk Hj. unfold bit, with_bit. pose proof (Z.mod_pos_bound k 8 ltac:(lia)). pose proof (Z.mod_pos_bound j 8 ltac:(lia)).
  pose proof (Z.div_mod k 8 ltac:(lia)). pose proof (Z.div_mod j 8 ltac:(lia)).
  assert (0 ≤ k `div` 8 < len l) by (split; [apply Z.div_pos; lia|apply Z.div_lt_upper_bound; lia]).
  assert (0 ≤ j `div` 8) by (apply Z.div_pos; lia). pose proof (nth0_byte l (k `div` 8) Hl) as Hb.
  assert (∀ x, nth0 (<[Z.to_nat (k `div` 8) := x]> l) (j `div` 8) = if decide (j `div` 8 = k `div` 8) then x else nth0 l (j `div` 8)) as ->.
  { intros x. unfold nth0. destruct (decide _) as [->|].
    - by rewrite list_lookup_insert_eq by (unfold len in *; lia).
    - by rewrite list_lookup_insert_ne by lia. }
  destruct (decide (j `div` 8 = k `div` 8)) as [He|]; [|by rewrite decide_False by (intros ->; lia)].
  rewrite He. destruct v; [rewrite testbit_set by lia|rewrite (testbit_clear 8) by (done || lia)].
  - destruct (decide (j = k)) as [->|]; [by rewrite Z.eqb_refl, orb_true_r|].
    by rewrite (proj2 (Z.eqb_neq _ _)), orb_false_r by lia.
  - destruct (decide (j = k)) as [->|]; [by rewrite Z.eqb_refl, andb_false_r|].
    by rewrite (proj2 (Z.eqb_neq _ _)), andb_true_r by lia.
Qed.

Lemma with_bit_ok l k v : block_ok l → 0 ≤ k < 8192 → block_ok (with_bit l k v).
Proof.
  intros [Hl Hb] Hk. unfold with_bit. split; [unfold len in *; by rewrite length_insert|]. apply Forall_insert; [done|].
  pose proof (nth0_byte l (k `div` 8) Hb). pose proof (Z.mod_pos_bound k 8 ltac:(lia)).
  destruct v; [apply is_uint_lor; [lia|done|by apply is_uint_shiftl1]|apply is_uint_land_l; [lia|done]].
Qed.

Lemma set_bit_ok l a b : 0 ≤ a < len l → 0 ≤ b < 8 → set_bit l a b = Ret (with_bit l (8 * a + b) true).
Proof.
  intros Ha Hb. unfold set_bit, with_bit. rewrite index_nth0 by done. simpl. rewrite store_ok by done.
  by rewrite (Z.mul_comm 8), Z.div_add_l, (Z.add_comm _ b), Z.mod_add, Z.mod_small, Z.div_small, Z.add_0_r by lia.
Qed.

Lemma clear_bit_ok l k : 0 ≤ k < 8 * len l → clear_bit l (k `div` 8) (k mod 8) = Ret (with_bit l k false).
Proof.
  intros Hk. assert (0 ≤ k `div` 8 < len l) by (split; [apply Z.div_pos; lia|apply Z.div_lt_upper_bound; lia]).
  unfold clear_bit, with_bit. rewrite index_nth0 by done. simpl. by rewrite store_ok.
Qed.

Lemma with_bit_undo l k : block_ok l → 0 ≤ k < 8192 → bit l k = false → with_bit (with_bit l k true) k false = l.
Proof.
  intros [Hl Hb] Hk Hz. assert (0 ≤ k `div` 8 < 1024) by (split; [apply Z.div_pos; lia|apply Z.div_lt_upper_bound; lia]).
  pose proof (Z.mod_pos_bound k 8 ltac:(lia)). 
  assert (∀ x, nth0 (<[Z.to_nat (k `div` 8) := x]> l) (k `div` 8) = x) as Hx
    by (intros x; unfold nth0; by rewrite list_lookup_insert_eq by (unfold len in *; lia)).
  unfold with_bit. cbv zeta. rewrite Hx, list_insert_insert_eq. rewrite (set_clear_bit 8); [|by apply nth0_byte|done|exact Hz]. apply list_insert_id. unfold nth0.
  destruct (lookup_lt_is_Some_2 l (Z.to_nat (k `div` 8))) as [x ->]; [unfold len in *; lia|done].
Qed.

(** ** The set of used blocks *)

Section alloc.
Context `{BuildProfile} (fs : Ext2Fs) (lo : layout_ok fs).
Implicit Types (B : blocks) (g b : Z).
Local Notation N := (blocks_count fs).

Definition group_of b : Z := (b - first_block fs) `div` bpg fs.
Definition pos_of b : Z := (b - first_block fs) mod bpg fs.
Definition used B b : bool := bit (B (block_bitmap fs (group_of b))) (pos_of b).

(** The descriptor of a group says at mount time whether it has free blocks. *)
Definition eligible g : bool := negb (bg_free_blocks_count (group fs g) =? 0).

(** The bitmaps mark tables, bitmaps and the bits that stand for no block. *)
Definition bitmaps_ok B : Prop :=
  (∀ b, in_disk fs b → is_meta fs b → used B b = true) ∧
  ∀ g k, 0 ≤ g < groups fs → 0 ≤ k < 8192 → bpg fs ≤ k ∨ N ≤ first_block fs + g * bpg fs + k →
    bit (B (block_bitmap fs g)) k = true.

Lemma group_of_ok b : in_disk fs b → 0 ≤ group_of b < groups fs ∧ 0 ≤ pos_of b < bpg fs.
Proof.
  intros [H1 H2]. pose proof (lo_bpg fs lo). pose proof (lo_groups fs lo). unfold group_of, pos_of.
  pose proof (Z.mod_pos_bound (b - first_block fs) (bpg fs) ltac:(lia)). split; [|done].
  split; [apply Z.div_pos; lia|apply Z.div_lt_upper_bound; lia].
Qed.

Lemma block_at g k : 0 ≤ k < bpg fs →
  group_of (first_block fs + g * bpg fs + k) = g ∧ pos_of (first_block fs + g * bpg fs + k) = k.
Proof.
  intros Hk. pose proof (lo_bpg fs lo). unfold group_of, pos_of.
  replace (first_block fs + g * bpg fs + k - first_block fs) with (k + g * bpg fs) by lia.
  rewrite Z.div_add, Z.mod_add, Z.div_small, Z.mod_small by lia. lia.
Qed.

Lemma block_at_of b : b = first_block fs + group_of b * bpg fs + pos_of b.
Proof. unfold group_of, pos_of. pose proof (lo_bpg fs lo). pose proof (Z.div_mod (b - first_block fs) (bpg fs)). lia. Qed.

(** A used block is one that a change elsewhere leaves used. *)
Lemma used_ext B B' b : B' (block_bitmap fs (group_of b)) = B (block_bitmap fs (group_of b)) → used B' b = used B b.
Proof. unfold used. by intros ->. Qed.

Lemma used_set B g k v b :
  0 ≤ g < groups fs → 0 ≤ k < bpg fs → in_disk fs b → block_ok (B (block_bitmap fs g)) →
  used (bupd B (block_bitmap fs g) (with_bit (B (block_bitmap fs g)) k v)) b =
  if decide (b = first_block fs + g * bpg fs + k) then v else used B b.
Proof.
  intros Hg Hk Hb [Hl Hby]. pose proof (lo_bpg fs lo). destruct (group_of_ok b Hb) as [Hgb Hpb]. unfold used, bupd.
  destruct (decide (block_bitmap fs (group_of b) = block_bitmap fs g)) as [He|Hne].
  - apply (lo_bbm_inj fs lo) in He; [|done..]. rewrite He, bit_with_bit by (done || lia).
    destruct (decide (pos_of b = k)) as [Hp|Hp].
    + by rewrite decide_True by (rewrite (block_at_of b), He, Hp; done).
    + rewrite decide_False; [done|]. intros ->. by destruct (block_at g k Hk).
  - rewrite decide_False; [done|]. intros ->. destruct (block_at g k Hk). congruence.
Qed.

(** The free blocks that the search can find. *)
Definition free_blocks B : list Z :=
  filter (λ b, eligible (group_of b) = true ∧ used B b = false) (seqZ (first_block fs) (N - first_block fs)).

Lemma elem_of_free B b : b ∈ free_blocks B ↔ in_disk fs b ∧ eligible (group_of b) = true ∧ used B b = false.
Proof. unfold free_blocks. rewrite list_elem_of_filter, elem_of_seqZ. unfold in_disk. split; intros; split_and!; naive_solver lia. Qed.

Definition nfree B : Z := len (free_blocks B).

Lemma nfree_take B B' b :
  b ∈ free_blocks B → (∀ x, in_disk fs x → used B' x = if decide (x = b) then true else used B x) → nfree B' = nfree B - 1.
Proof.
  intros Hb Hu. unfold nfree.
  assert (free_blocks B ≡ₚ b :: free_blocks B') as Hp; [|apply Permutation_length in Hp; unfold len; simpl in Hp; lia].
  assert (∀ B0, NoDup (free_blocks B0)) as Hnd by (intros; apply list.NoDup_filter, NoDup_seqZ).
  apply list.NoDup_Permutation; [done| |].
  - apply list.NoDup_cons. split; [|done]. rewrite elem_of_free. intros (Hd & _ & Hu'). rewrite Hu, decide_True in Hu' by done. done.
  - intros x. rewrite elem_of_cons, !elem_of_free. split.
    + intros (Hd & He & Hx). destruct (decide (x = b)) as [->|]; [by left|right]. by rewrite Hu, decide_False.
    + intros [->|(Hd & He & Hx)]; [by apply elem_of_free|]. rewrite Hu in Hx by done.
      destruct (decide (x = b)); [done|]. done.
Qed.

Lemma nfree_ext B B' : (∀ x, in_disk fs x → used B' x = used B x) → nfree B' = nfree B.
Proof.
  intros Hu. unfold nfree, len. f_equal. apply Permutation_length, list.NoDup_Permutation;
    [apply list.NoDup_filter, NoDup_seqZ..|]. intros x. rewrite !elem_of_free. split; intros (? & ? & Hx); by rewrite Hu in * by done.
Qed.

(** *** [alloc_block] *)

Lemma spec_alloc_block_in gs g0 B Q :
  bitmaps_ok B → 0 ≤ g0 → gs = drop (Z.to_nat g0) (e_group_descriptors fs) →
  (∃ g k, g0 ≤ g < groups fs ∧ eligible g = true ∧ 0 ≤ k < 8192 ∧ bit (B (block_bitmap fs g)) k = false) →
  (∀ g k, 0 ≤ g < groups fs → eligible g = true → 0 ≤ k < 8192 → bit (B (block_bitmap fs g)) k = false →
    Q (first_block fs + g * bpg fs + k) (bupd B (block_bitmap fs g) (with_bit (B (block_bitmap fs g)) k true))) →
  spec fs N (alloc_block_in fs gs g0) B Q.
Proof.
  intros [Hm Hpad] Hg0 -> (g & k & Hg & Hel & Hk & Hz) HQ. apply spec_wf. intros Hwf.
  assert (∀ gs g0, gs = drop (Z.to_nat g0) (e_group_descriptors fs) → 0 ≤ g0 → g0 ≤ g → spec fs N (alloc_block_in fs gs g0) B Q) as Hind;
    [|apply Hind; [done|lia..]]. destruct Hg as [Hg1 Hg2]. clear g0 Hg0 Hg1.
  induction gs as [|desc gs IH]; intros g0 Hgs Hg0 Hle.
  { exfalso. apply (f_equal length) in Hgs. rewrite length_drop in Hgs. unfold groups, len in Hg2. simpl in Hgs. lia. }
  assert (desc = group fs g0 ∧ gs = drop (Z.to_nat (g0 + 1)) (e_group_descriptors fs)) as [-> Hgs'].
  { pose proof (group_ok fs g0 ltac:(lia)) as Hlk. rewrite (drop_S _ _ _ Hlk) in Hgs. simplify_eq. split; [done|]. f_equal. lia. }
  cbn [alloc_block_in].
  assert (g0 ≠ g → spec fs N (alloc_block_in fs gs (g0 + 1)) B Q) as Hnext by (intros; apply IH; [done|lia..]).
  destruct (bg_free_blocks_count (group fs g0) =? 0) eqn:He0; [apply Hnext; intros ->; unfold eligible in Hel; by rewrite He0 in Hel|].
  pose proof (in_disk_range fs lo _ (lo_bbm fs lo g0 ltac:(lia))) as Hrb. destruct (Hwf _ Hrb) as [Hl Hb].
  apply spec_bind, spec_read_block; [exact (lo_size fs lo)|done|]. fold (block_bitmap fs g0).
  apply (spec_lift_bind _ _ _ 8192); [rewrite (lo_size fs lo); unfold mul32; by rewrite arith_ok|].
  destruct (zero_positions (B (block_bitmap fs g0)) 0) as [|[a x] r] eqn:Hp.
  { apply Hnext. intros ->. rewrite (zero_positions_nil _ k Hp) in Hz by lia. done. }
  apply zero_positions_head in Hp as (Ha & Hx & Hbit). pose proof (lo_bpg fs lo). pose proof (lo_count fs lo). pose proof (lo_first fs lo).
  assert (8 * a + x < bpg fs ∧ first_block fs + g0 * bpg fs + (8 * a + x) < N) as [Hlt HltN].
  { split; apply Z.nle_gt; intros ?; rewrite (Hpad g0 (8 * a + x)) in Hbit; by (done || lia). }
  unfold mul32, add32, cast, wrap. rewrite !(Z.mod_small a), !(Z.mod_small g0) by nia.
  apply (spec_lift_bind _ _ _ (8 * a + x)); [rewrite arith_ok by (unfold is_uint; lia); simpl; rewrite arith_ok by (unfold is_uint; lia); f_equal; lia|].
  fold (bpg fs). rewrite (proj2 (Z.leb_gt _ _)) by lia.
  apply (spec_lift_bind _ _ _ (first_block fs + g0 * bpg fs + (8 * a + x))).
  { fold (first_block fs). rewrite arith_ok by (unfold is_uint; nia). simpl. rewrite arith_ok by (unfold is_uint; nia). simpl.
    by rewrite arith_ok by (unfold is_uint; nia). }
  apply (spec_lift_bind _ _ _ (with_bit (B (block_bitmap fs g0)) (8 * a + x) true)); [apply set_bit_ok; lia|].
  apply spec_bind, spec_write_block; [exact (lo_size fs lo)|done|apply with_bit_ok; [done|lia]|].
  apply spec_ok, HQ; [lia| |lia|done]. unfold eligible. by rewrite He0.
Qed.

(** What an allocation does. *)
Definition allocated B b B' : Prop :=
  in_disk fs b ∧ used B b = false ∧ bitmaps_ok B' ∧ nfree B' = nfree B - 1 ∧
  (∀ x, in_disk fs x → used B' x = if decide (x = b) then true else used B x) ∧
  ∀ x, ¬ is_block_bitmap fs x → B' x = B x.

Lemma spec_alloc_block B Q :
  bitmaps_ok B → 0 < nfree B → (∀ b B', allocated B b B' → Q b B') → spec fs N (alloc_block fs) B Q.
Proof.
  intros Hbm Hf HQ. apply spec_wf. intros Hwf. pose proof Hbm as [Hm Hpad]. unfold alloc_block. pose proof (lo_bpg fs lo).
  apply spec_alloc_block_in; [done|lia|done| |].
  - assert (∃ b, b ∈ free_blocks B) as [b (Hd & He & Hu)%elem_of_free].
    { unfold nfree, len in Hf. destruct (free_blocks B) as [|b l]; [simpl in Hf; lia|]. exists b. left. }
    destruct (group_of_ok b Hd). exists (group_of b), (pos_of b). split_and!; [lia|lia|done|lia|lia|done].
  - intros g k Hg Hel Hk Hz. pose proof (lo_count fs lo). pose proof (lo_first fs lo).
    assert (k < bpg fs ∧ first_block fs + g * bpg fs + k < N) as [Hlt HltN].
    { split; apply Z.nle_gt; intros ?; rewrite (Hpad g k) in Hz; by (done || lia). }
    destruct (block_at g k ltac:(lia)) as [Hgo Hpo]. set (b := first_block fs + g * bpg fs + k) in *.
    assert (in_disk fs b) as Hd by (unfold in_disk, b; nia). assert (used B b = false) as Hu by (unfold used; by rewrite Hgo, Hpo).
    pose proof (in_disk_range fs lo _ (lo_bbm fs lo g Hg)) as Hrb. pose proof (Hwf _ Hrb) as Hok.
    assert (∀ x, in_disk fs x → used (bupd B (block_bitmap fs g) (with_bit (B (block_bitmap fs g)) k true)) x =
      if decide (x = b) then true else used B x) as Hset by (intros; apply used_set; (done || lia)).
    apply HQ. split_and!; [done|done| |apply (nfree_take B _ b); [apply elem_of_free; rewrite Hgo; done|done]|done|].
    + split.
      * intros x Hx Hmx. rewrite Hset by done. destruct (decide _); [done|by apply Hm].
      * intros g' k' Hg' Hk' Hp. unfold bupd. destruct (decide _) as [He|]; [|by apply Hpad].
        apply (lo_bbm_inj fs lo) in He as ->; [|done..]. destruct Hok. rewrite bit_with_bit by (done || lia).
        destruct (decide _); [done|by apply Hpad].
    + intros x Hx. apply bupd_ne. intros ->. apply Hx. by exists g.
Qed.

End alloc.
