(* ===== verification/Ext2Tree.v ===== *)
(** * The block map of an ext2 file

    A file is a tree of blocks: the fifteen pointers of its inode, and below them
    one, two or three levels of indirect blocks. A position in the tree is a list
    of indices. The blocks of all files are disjoint and marked in the bitmaps
    ([owned]), and [resolve_block] and [set_block_pointer] read and extend this
    tree. *)

From stdpp Require Import strings.
From S2P Require Import Prelude Bytes BlockCache Vfs Ext2 Ext2Store Ext2Disk Ext2Alloc.
Local Open Scope Z_scope.

(** ** Positions *)

Abbreviation path := (list Z) (only parsing).

(** The levels of indirect blocks below a pointer of the inode. *)
Definition depth (r : Z) : nat := Z.to_nat (r - 11).

Definition in_block (i : Z) : Prop := 0 ≤ i < 256.

Definition valid_path (p : path) : Prop :=
  match p with [] => False | r :: rest => 0 ≤ r < 15 ∧ (length rest ≤ depth r)%nat ∧ Forall in_block rest end.

(** The positions of data blocks, and those of indirect blocks. *)
Definition leaf (p : path) : Prop := match p with [] => False | r :: rest => length rest = depth r end.
Definition inner (p : path) : Prop := match p with [] => False | r :: rest => (length rest < depth r)%nat end.

Definition MAX_LOGICAL : Z := 12 + 256 + 256 * 256 + 256 * 256 * 256.

Definition path_of (l : Z) : path :=
  if l <? 12 then [l]
  else if l <? 268 then [12; l - 12]
  else if l <? 65804 then [13; (l - 268) `div` 256; (l - 268) mod 256]
  else [14; (l - 65804) `div` 65536; ((l - 65804) mod 65536) `div` 256; ((l - 65804) mod 65536) mod 256].

Lemma div_in_block x k : 0 < k → 0 ≤ x < 256 * k → in_block (x `div` k).
Proof. unfold in_block. split; [apply Z.div_pos|apply Z.div_lt_upper_bound]; lia. Qed.

Lemma mod_in_block x : in_block (x mod 256).
Proof. apply Z.mod_pos_bound. lia. Qed.

Lemma path_of_valid l : 0 ≤ l < MAX_LOGICAL → valid_path (path_of l) ∧ leaf (path_of l).
Proof.
  unfold MAX_LOGICAL, path_of. intros Hl.
  destruct (Z.ltb_spec l 12); [|destruct (Z.ltb_spec l 268); [|destruct (Z.ltb_spec l 65804)]]; cbn [valid_path leaf].
  - split; [split; [lia|split; [simpl; lia|constructor]]|]. unfold depth. simpl. lia.
  - split; [split; [lia|split; [done|]]|done]. apply list.Forall_singleton. unfold in_block. lia.
  - split; [split; [lia|split; [done|]]|done]. rewrite !list.Forall_cons. split_and!; [apply div_in_block; lia|apply mod_in_block|done].
  - pose proof (Z.mod_pos_bound (l - 65804) 65536 ltac:(lia)). split; [split; [lia|split; [done|]]|done].
    rewrite !list.Forall_cons. split_and!; [apply div_in_block; lia..|apply mod_in_block|done].
Qed.

Lemma path_of_inj l l' : 0 ≤ l < MAX_LOGICAL → 0 ≤ l' < MAX_LOGICAL → path_of l = path_of l' → l = l'.
Proof.
  unfold path_of. intros Hl Hl'.
  destruct (Z.ltb_spec l 12), (Z.ltb_spec l' 12); [intros [=]; lia|..].
  all: try (destruct (Z.ltb_spec l 268)). all: try (destruct (Z.ltb_spec l' 268)). all: try (intros [=]; lia).
  all: try (destruct (Z.ltb_spec l 65804)). all: try (destruct (Z.ltb_spec l' 65804)). all: try (intros [=]; lia).
  - intros [=]. pose proof (Z.div_mod (l - 268) 256 ltac:(lia)). pose proof (Z.div_mod (l' - 268) 256 ltac:(lia)). lia.
  - intros [=]. pose proof (Z.div_mod (l - 65804) 65536 ltac:(lia)). pose proof (Z.div_mod (l' - 65804) 65536 ltac:(lia)).
    pose proof (Z.div_mod ((l - 65804) mod 65536) 256 ltac:(lia)). pose proof (Z.div_mod ((l' - 65804) mod 65536) 256 ltac:(lia)). lia.
Qed.

Lemma valid_path_app p i : valid_path (p ++ [i]) → p ≠ [] → valid_path p ∧ inner p ∧ in_block i.
Proof.
  destruct p as [|r rest]; [done|]. cbn [app valid_path inner]. rewrite length_app. simpl. intros (? & ? & Hf) _.
  apply list.Forall_app in Hf as [? [? _]%list.Forall_cons]. split; [split_and!; (lia || done)|]. split; [lia|done].
Qed.

(** ** The tree of a file *)

Fixpoint follow (B : blocks) (b : Z) (rest : list Z) : Z :=
  match rest with [] => b | i :: rest => if b =? 0 then 0 else follow B (word (B b) i) rest end.

Definition ptr (B : blocks) (ws : list Z) (p : path) : Z :=
  match p with [] => 0 | r :: rest => follow B (nth0 ws r) rest end.

Lemma follow_app B b rest i : follow B b (rest ++ [i]) = if follow B b rest =? 0 then 0 else word (B (follow B b rest)) i.
Proof.
  revert b. induction rest as [|j rest IH]; intros b; simpl; [done|]. destruct (b =? 0); [done|apply IH].
Qed.

Lemma ptr_app B ws p i : p ≠ [] → ptr B ws (p ++ [i]) = if ptr B ws p =? 0 then 0 else word (B (ptr B ws p)) i.
Proof. destruct p as [|r rest]; [done|]. intros _. apply follow_app. Qed.

(** The pointer arrays of the live files. *)
Definition files : Type := Z → option (list Z).
Definition fupd (L : files) (ino : Z) (ws : list Z) : files := λ x, if decide (x = ino) then Some ws else L x.

Definition tree (L : files) (B : blocks) (ino : Z) (p : path) : Z :=
  match L ino with Some ws => ptr B ws p | None => 0 end.

Lemma tree_app L B ino p i : p ≠ [] → tree L B ino (p ++ [i]) = if tree L B ino p =? 0 then 0 else word (B (tree L B ino p)) i.
Proof. intros Hp. unfold tree. destruct (L ino); [by apply ptr_app|done]. Qed.

(** A position that is not a pointer of the inode has a parent. *)
Lemma valid_path_ind (P : path → Prop) :
  (∀ r, 0 ≤ r < 15 → P [r]) →
  (∀ p i, valid_path (p ++ [i]) → valid_path p → inner p → in_block i → P p → P (p ++ [i])) →
  ∀ p, valid_path p → P p.
Proof.
  intros H1 H2 p. induction p as [|i p IH] using rev_ind; [done|]. intros Hv. destruct (decide (p = [])) as [->|Hp].
  - apply H1, Hv.
  - destruct (valid_path_app _ _ Hv Hp) as (? & ? & ?). auto.
Qed.

(** ** Ownership of blocks *)

Section owned.
Context `{BuildProfile} (fs : Ext2Fs) (lo : layout_ok fs).
Local Notation N := (blocks_count fs).
Implicit Types (L : files) (B : blocks) (R : Z → Prop).

(** A block that a file may have. *)
Definition good B (b : Z) : Prop := in_disk fs b ∧ ¬ is_meta fs b ∧ used fs B b = true.

Record owned L B : Prop := {
  ow_ws ino ws : L ino = Some ws → len ws = 15 ∧ Forall (is_uint 32) ws;
  ow_good ino p : valid_path p → tree L B ino p ≠ 0 → good B (tree L B ino p);
  ow_inj ino ino' p p' : valid_path p → valid_path p' → tree L B ino p ≠ 0 →
    tree L B ino p = tree L B ino' p' → ino = ino' ∧ p = p';
}.

(** An allocated block that no file has yet. *)
Definition reserved L B (b : Z) : Prop := good B b ∧ ∀ ino p, valid_path p → tree L B ino p ≠ b.

(** The tree changes only where the file [ino] gets the block [b]. *)
Definition attached L B L' B' (ino : Z) (p : path) (b : Z) : Prop :=
  ∀ ino' p', valid_path p' → tree L' B' ino' p' = if decide (ino' = ino ∧ p' = p) then b else tree L B ino' p'.

Lemma tree_ext L L' B B' ino :
  L' ino = L ino → (∀ q, valid_path q → inner q → tree L B ino q ≠ 0 → B' (tree L B ino q) = B (tree L B ino q)) →
  ∀ p, valid_path p → tree L' B' ino p = tree L B ino p.
Proof.
  intros HL HB. apply (valid_path_ind (λ p, tree L' B' ino p = tree L B ino p)).
  - intros r Hr. unfold tree. by rewrite HL.
  - intros p i Hv Hp Hin Hi IH. assert (p ≠ []) by (by intros ->). rewrite !tree_app, IH by done.
    destruct (Z.eqb_spec (tree L B ino p) 0); [done|]. by rewrite HB.
Qed.

Lemma good_range B b : good B b → 0 ≤ b < N ∧ is_uint 32 b ∧ b ≠ 0.
Proof.
  intros [Hd _]. pose proof (in_disk_range fs lo b Hd). destruct Hd. pose proof (lo_first fs lo). pose proof (lo_count fs lo).
  unfold is_uint. lia.
Qed.

Lemma attach_child L B B' ino p i b :
  owned L B → valid_path (p ++ [i]) → p ≠ [] → tree L B ino p ≠ 0 → tree L B ino (p ++ [i]) = 0 →
  reserved L B b → block_ok (B (tree L B ino p)) →
  B' (tree L B ino p) = set_word (B (tree L B ino p)) i b → (inner (p ++ [i]) → B' b = zeroes 1024) →
  (∀ x, x ≠ tree L B ino p → x ≠ b → B' x = B x) →
  attached L B L B' ino (p ++ [i]) b.
Proof.
  intros Ho Hv Hp Ht Hz [Hb Hres] [Hlen _] Hset Hzero Hframe ino'. destruct (good_range _ _ Hb) as (_ & Hb32 & Hb0).
  destruct (valid_path_app _ _ Hv Hp) as (Hvp & _ & Hi).
  apply (valid_path_ind (λ p', tree L B' ino' p' = if decide (ino' = ino ∧ p' = p ++ [i]) then b else tree L B ino' p')).
  - intros r Hr. rewrite decide_False; [done|]. intros [_ Heq]. destruct p; [done|]. apply (f_equal length) in Heq.
    rewrite length_app in Heq. simpl in Heq. lia.
  - intros p' j Hv' Hvp' Hin' Hj IH. assert (p' ≠ []) as Hne by (by intros ->). rewrite !tree_app, IH by done.
    destruct (decide (ino' = ino ∧ p' = p ++ [i])) as [[-> ->]|Hno].
    { rewrite (proj2 (Z.eqb_neq b 0)), Hzero, word_zeroes, Hz by (done || apply Hj).
      rewrite decide_False; [done|]. intros [_ Heq]. apply (f_equal length) in Heq. rewrite !length_app in Heq. simpl in Heq. lia. }
    destruct (Z.eqb_spec (tree L B ino' p') 0) as [Ht0|Ht0].
    { rewrite decide_False; [done|]. intros [-> Heq]. apply app_inj_tail in Heq as [-> ->]. done. }
    destruct (decide (tree L B ino' p' = tree L B ino p)) as [He|Hd].
    + destruct (ow_inj _ _ Ho ino' ino p' p Hvp' Hvp Ht0 He) as [-> ->]. rewrite Hset, word_set_word by (done || apply Hi).
      destruct (decide (j = i)) as [->|Hji]; [by rewrite decide_True|]. rewrite decide_False; [done|].
      intros [_ Heq]. apply app_inj_tail in Heq as [_ ->]. done.
    + rewrite Hframe by (done || by apply Hres). rewrite decide_False; [done|].
      intros [-> Heq]. apply app_inj_tail in Heq as [-> _]. done.
Qed.

Lemma attach_root L B B' ino ws r b :
  owned L B → L ino = Some ws → 0 ≤ r < 15 → nth0 ws r = 0 → reserved L B b →
  (inner [r] → B' b = zeroes 1024) → (∀ x, x ≠ b → B' x = B x) →
  attached L B (fupd L ino (<[Z.to_nat r := b]> ws)) B' ino [r] b.
Proof.
  intros Ho HL Hr Hz [Hb Hres] Hzero Hframe ino'. destruct (good_range _ _ Hb) as (_ & Hb32 & Hb0).
  destruct (ow_ws _ _ Ho _ _ HL) as [Hlen _].
  apply (valid_path_ind (λ p', tree (fupd L ino (<[Z.to_nat r := b]> ws)) B' ino' p' = if decide (ino' = ino ∧ p' = [r]) then b else tree L B ino' p')).
  - intros r' Hr'. unfold tree, fupd. destruct (decide (ino' = ino)) as [->|]; [|by rewrite decide_False by naive_solver].
    rewrite HL. unfold ptr. cbn [follow]. unfold nth0. destruct (decide (r' = r)) as [->|Hne].
    + by rewrite decide_True, list_lookup_insert_eq by (done || unfold len in *; lia).
    + rewrite list_lookup_insert_ne by lia. by rewrite decide_False by (intros [_ [= ?]]; done).
  - intros p' j Hv' Hvp' Hin' Hj IH. assert (p' ≠ []) as Hne by (by intros ->). rewrite !tree_app, IH by done.
    rewrite (decide_False (P := ino' = ino ∧ p' ++ [j] = [r])).
    2: { intros [_ Heq]. destruct p'; [done|]. apply (f_equal length) in Heq. rewrite length_app in Heq. simpl in Heq. lia. }
    destruct (decide (ino' = ino ∧ p' = [r])) as [[-> ->]|Hno].
    + assert (tree L B ino [r] = 0) as -> by (unfold tree; by rewrite HL).
      by rewrite (proj2 (Z.eqb_neq b 0)), Hzero, word_zeroes by (done || apply Hj).
    + destruct (Z.eqb_spec (tree L B ino' p') 0); [done|]. by rewrite Hframe by (by apply Hres).
Qed.

(** Ownership after a block was attached. *)
Lemma owned_attached L B L' B' ino p b :
  owned L B → attached L B L' B' ino p b → reserved L B b →
  (∀ x ws, L' x = Some ws → len ws = 15 ∧ Forall (is_uint 32) ws) → (∀ x, good B x → used fs B' x = true) → owned L' B'.
Proof.
  intros Ho Ha [Hb Hres] Hws Hu.
  assert (∀ x, good B x → good B' x) as Hg by (intros x Hx; pose proof (Hu x Hx); by destruct Hx as (? & ? & _)).
  split; [done|..].
  - intros x q Hq. rewrite Ha by done. destruct (decide _); intros Hne; [by apply Hg|]. by apply Hg, (ow_good _ _ Ho).
  - intros x y q q' Hq Hq'. rewrite !Ha by done. intros Hne Heq.
    destruct (decide (x = ino ∧ q = p)) as [[-> ->]|], (decide (y = ino ∧ q' = p)) as [[-> ->]|]; [done|..].
    + symmetry in Heq. by apply Hres in Heq.
    + by apply Hres in Heq.
    + by apply (ow_inj _ _ Ho).
Qed.

(** *** Growth

    The file [ino] gets new blocks. What was mapped stays mapped to the same
    block, other files and the contents of every block in use, indirect blocks of
    [ino] apart, stay as they are. At most [k] blocks are allocated; the new
    blocks were free before, or data blocks from [R]. *)

Lemma leaf_inner p : leaf p → inner p → False.
Proof. destruct p; [done|]. simpl. lia. Qed.

Record grown R (k ino : Z) L B L' B' : Prop := {
  gr_owned : owned L' B';
  gr_bitmaps : bitmaps_ok fs B';
  gr_free : nfree fs B - k ≤ nfree fs B';
  gr_used x : in_disk fs x → used fs B x = true → used fs B' x = true;
  gr_others x : x ≠ ino → L' x = L x;
  gr_self : is_Some (L ino) → is_Some (L' ino);
  gr_same x p : valid_path p → tree L B x p ≠ 0 → tree L' B' x p = tree L B x p;
  gr_new x p : valid_path p → tree L B x p = 0 → tree L' B' x p ≠ 0 →
    x = ino ∧ (used fs B (tree L' B' x p) = false ∨ leaf p ∧ R (tree L' B' x p));
  gr_frame x : ¬ is_block_bitmap fs x → (in_disk fs x → used fs B x = true) →
    (∀ p, valid_path p → inner p → tree L B ino p ≠ 0 → tree L B ino p ≠ x) → B' x = B x;
}.

Arguments gr_owned {R k ino L B L' B'} _.
Arguments gr_bitmaps {R k ino L B L' B'} _.
Arguments gr_free {R k ino L B L' B'} _.
Arguments gr_used {R k ino L B L' B'} _.
Arguments gr_others {R k ino L B L' B'} _.
Arguments gr_self {R k ino L B L' B'} _.
Arguments gr_same {R k ino L B L' B'} _.
Arguments gr_new {R k ino L B L' B'} _.
Arguments gr_frame {R k ino L B L' B'} _.

Lemma grown_refl R ino L B : owned L B → bitmaps_ok fs B → grown R 0 ino L B L B.
Proof. intros Ho Hb. split; try done. lia. Qed.

Lemma grown_trans R R' k k' ino L B L1 B1 L2 B2 :
  grown R k ino L B L1 B1 → grown R' k' ino L1 B1 L2 B2 → (∀ x, R' x → R x ∨ used fs B x = false) →
  grown R (k + k') ino L B L2 B2.
Proof.
  intros G1 G2 HR. split.
  - apply G2.
  - apply G2.
  - pose proof (gr_free G1). pose proof (gr_free G2). lia.
  - intros x Hx Hu. by apply (gr_used G2), (gr_used G1).
  - intros x Hx. by rewrite (gr_others G2), (gr_others G1).
  - intros Hs. by apply (gr_self G2), (gr_self G1).
  - intros x p Hp Hne. rewrite <- (gr_same G1 x p Hp Hne) in Hne |- *. by apply (gr_same G2).
  - intros x p Hp Hz Hne. destruct (decide (tree L1 B1 x p = 0)) as [Hz1|Hne1].
    + destruct (gr_new G2 x p Hp Hz1 Hne) as [-> Hc]. split; [done|].
      destruct (ow_good _ _ (gr_owned G2) _ _ Hp Hne) as (Hd & _). destruct Hc as [Hu|[Hl [?|?]%HR]]; [|by auto..].
      left. destruct (used fs B (tree L2 B2 ino p)) eqn:E; [|done]. by rewrite (gr_used G1 _ Hd E) in Hu.
    + rewrite (gr_same G2) by done. by apply (gr_new G1).
  - intros x Hb Hu Hi. rewrite (gr_frame G2); [by apply (gr_frame G1)|done|intros Hd; by apply (gr_used G1), Hu|].
    intros p Hp Hin Hne Heq. destruct (decide (tree L B ino p = 0)) as [Hz|Hnz].
    + destruct (gr_new G1 ino p Hp Hz Hne) as [_ [Hf|[Hl _]]]; [|by apply (leaf_inner p)].
      destruct (ow_good _ _ (gr_owned G1) _ _ Hp Hne) as (Hd & _). rewrite Heq in *. by rewrite Hu in Hf.
    + rewrite (gr_same G1) in Heq by done. by apply (Hi p).
Qed.

(** The allocation of a block, and its place in the tree. *)
Lemma good_not_bitmap B b : good B b → ¬ is_block_bitmap fs b.
Proof. intros (_ & Hm & _) Hb. apply Hm. by left. Qed.

Lemma grown_alloc R ino L B b B' :
  owned L B → bitmaps_ok fs B → allocated fs B b B' → grown R 1 ino L B L B' ∧ reserved L B' b.
Proof.
  intros Ho Hbm (Hd & Hu & Hbm' & Hf & Hu' & Hframe).
  assert (∀ x p, valid_path p → tree L B' x p = tree L B x p) as Htree.
  { intros x. apply tree_ext; [done|]. intros q Hq _ Hne. apply Hframe, (good_not_bitmap B), (ow_good _ _ Ho); done. }
  assert (∀ x, good B x → good B' x) as Hg.
  { intros x (Hx & Hm & Hux). split_and!; [done..|]. rewrite Hu' by done. by destruct (decide _). }
  split; [split|split].
  - split; [apply Ho|..].
    + intros x p Hp. rewrite Htree by done. intros Hne. by apply Hg, (ow_good _ _ Ho).
    + intros x y p p' Hp Hp'. rewrite !Htree by done. by apply (ow_inj _ _ Ho).
  - done.
  - lia.
  - intros x Hx Hux. rewrite Hu' by done. by destruct (decide _).
  - done.
  - done.
  - intros x p Hp _. by apply Htree.
  - intros x p Hp Hz. by rewrite Htree.
  - intros x Hx _ _. by apply Hframe.
  - split_and!; [done| |by rewrite Hu', decide_True]. intros Hm. destruct Hbm as [Hm' _]. by rewrite Hm' in Hu.
  - intros x p Hp. rewrite Htree by done. intros He. assert (tree L B x p ≠ 0) as Hne.
    { rewrite He. pose proof (lo_first fs lo). destruct Hd. lia. }
    destruct (ow_good _ _ Ho x p Hp Hne) as (_ & _ & Hux). rewrite He in Hux. congruence.
Qed.

Lemma grown_attach R k ino L B B1 L' B2 p b :
  grown R k ino L B L B1 → reserved L B1 b → attached L B1 L' B2 ino p b → valid_path p →
  (∀ x ws, L' x = Some ws → len ws = 15 ∧ Forall (is_uint 32) ws) → (∀ x, x ≠ ino → L' x = L x) → is_Some (L' ino) →
  tree L B1 ino p = 0 →
  (∀ x, (x ≠ b ∨ leaf p) → (∀ q, valid_path q → inner q → tree L B1 ino q ≠ 0 → tree L B1 ino q ≠ x) → B2 x = B1 x) →
  used fs B b = false ∨ leaf p ∧ R b → grown R k ino L B L' B2.
Proof.
  intros G Hres Ha Hp Hws Hoth Hsome Hzp Hframe HR. pose proof (gr_owned G) as Ho.
  destruct (good_range _ _ (proj1 Hres)) as (_ & _ & Hb0).
  assert (∀ x, is_block_bitmap fs x → B2 x = B1 x) as Hbm.
  { intros x Hx. apply Hframe; [left; intros ->; apply (good_not_bitmap B1) in Hx; [done|apply Hres]|].
    intros q Hq _ Hne Heq. apply (good_not_bitmap B1) in Hx; [done|]. rewrite <- Heq. by apply (ow_good _ _ Ho). }
  assert (∀ x, in_disk fs x → used fs B2 x = used fs B1 x) as Hu.
  { intros x Hx. apply used_ext, Hbm. exists (group_of fs x). split; [by apply group_of_ok|done]. }
  assert (bitmaps_ok fs B2) as Hbm2.
  { destruct (gr_bitmaps G) as [Hm Hpad]. split; [intros x Hx Hmx; rewrite Hu by done; by apply Hm|].
    intros g j Hg Hj Hor. rewrite Hbm by (by exists g). by apply Hpad. }
  split.
  - apply (owned_attached L B1 L' B2 ino p b); [done..|]. intros x (Hx & _ & Hux). by rewrite Hu.
  - done.
  - pose proof (gr_free G). by rewrite (nfree_ext fs B1 B2).
  - intros x Hx Hux. rewrite Hu by done. by apply (gr_used G).
  - done.
  - done.
  - intros x q Hq Hne. rewrite Ha by done. destruct (decide _) as [[-> ->]|]; [|by apply (gr_same G)].
    rewrite <- (gr_same G) in Hne by done. done.
  - intros x q Hq Hz. rewrite Ha by done. destruct (decide _) as [[-> ->]|]; [done|]. by apply (gr_new G).
  - intros x Hb Hux Hi. rewrite Hframe; [by apply (gr_frame G)| |].
    + destruct HR as [Hf|[Hl _]]; [|by right]. left. intros ->. rewrite Hux in Hf by apply Hres. done.
    + intros q Hq Hin Hne Heq. destruct (decide (tree L B ino q = 0)) as [Hz|Hnz].
      * destruct (gr_new G ino q Hq Hz Hne) as [_ [Hf|[Hl _]]]; [|by apply (leaf_inner q)].
        destruct (ow_good _ _ Ho _ _ Hq Hne) as (Hd & _). rewrite Heq in *. by rewrite Hux in Hf.
      * rewrite (gr_same G) in Heq by done. by apply (Hi q).
Qed.

End owned.
