(* ===== verification/Ext2Map.v ===== *)
(** * Reading and extending the block map of an ext2 file

    Specifications of [resolve_block] and [set_block_pointer] in terms of the
    tree of a file. *)

From stdpp Require Import strings.
From S2P Require Import Prelude Bytes BlockCache Vfs Ext2 Ext2Store Ext2Disk Ext2Alloc Ext2Tree.
Local Open Scope Z_scope.

Arguments gr_owned {fs R k ino L B L' B'} _.
Arguments gr_bitmaps {fs R k ino L B L' B'} _.
Arguments gr_free {fs R k ino L B L' B'} _.
Arguments gr_used {fs R k ino L B L' B'} _.
Arguments gr_others {fs R k ino L B L' B'} _.
Arguments gr_self {fs R k ino L B L' B'} _.
Arguments gr_same {fs R k ino L B L' B'} _.
Arguments gr_new {fs R k ino L B L' B'} _.
Arguments gr_frame {fs R k ino L B L' B'} _.

Section map.
Context `{BuildProfile} (fs : Ext2Fs) (lo : layout_ok fs).
Local Notation N := (blocks_count fs).
Local Notation spec := (spec fs N).
Implicit Types (L : files) (B : blocks) (R : Z → Prop).

Lemma entries_256 : entries_per_block fs = 256.
Proof. unfold entries_per_block. by rewrite (lo_size fs lo). Qed.

Lemma double_base_ok : double_base fs = Ret 268.
Proof. unfold double_base. rewrite entries_256. unfold add32. by rewrite arith_ok. Qed.

Lemma triple_base_ok : triple_base fs = Ret 65804.
Proof.
  unfold triple_base. rewrite double_base_ok, entries_256. unfold add32, mul32. done.
Qed.

(** ** Reading *)

Definition in_range (b : Z) : Prop := b ≠ 0 → 0 ≤ b < N.

Lemma read_word B b i : block_ok (B b) → in_block i → read_u32 (B b) (i * 4) = Ret (word (B b) i).
Proof. intros [Hl _] Hi. unfold in_block in Hi. rewrite read_u32_sub by lia. unfold word. by rewrite Z.mul_comm. Qed.

Lemma spec_read_word {A} B b i (f : list Z → Z → io unit A) Q :
  0 ≤ b < N → in_block i → (block_ok (B b) → spec (f (B b) (i * 4)) B Q) →
  spec (data ← read_block fs b; offset ← lift (mul32 i 4); f data offset) B Q.
Proof.
  intros Hb Hi Hf. apply spec_wf. intros Hwf. apply spec_bind, spec_read_block; [exact (lo_size fs lo)|done|].
  unfold in_block in Hi. apply (spec_lift_bind _ _ _ (i * 4)); [unfold mul32; apply arith_ok; unfold is_uint; lia|].
  by apply Hf, Hwf.
Qed.

Lemma word_fits B b i : block_ok (B b) → in_block i → (len (B b) <? i * 4 + 4) = false.
Proof. intros [-> _] Hi. unfold in_block in Hi. apply Z.ltb_ge. lia. Qed.

Lemma spec_read_indirect B b i Q :
  in_range b → in_block i → Q (follow B b [i]) B → spec (read_indirect fs b i) B Q.
Proof.
  intros Hb Hi HQ. unfold read_indirect. cbn [follow] in HQ. destruct (Z.eqb_spec b 0); [by apply spec_ok|].
  apply spec_read_word; [by apply Hb|done|]. intros Hok. rewrite word_fits by done.
  apply (spec_lift _ _ _ (word (B b) i)); [by apply read_word|done].
Qed.

Lemma spec_read_double B b i j Q :
  in_range b → in_block i → in_block j → in_range (follow B b [i]) → Q (follow B b [i; j]) B →
  spec (read_double_indirect fs b (i * 256 + j)) B Q.
Proof.
  intros Hb Hi Hj Hr HQ. unfold read_double_indirect. cbn [follow] in HQ, Hr. destruct (Z.eqb_spec b 0); [by apply spec_ok|].
  unfold udiv, urem. rewrite entries_256. cbn [lift ok]. change (256 =? 0) with false. unfold in_block in *.
  apply (spec_lift_bind _ _ _ i); [f_equal; rewrite Z.div_add_l, Z.div_small by lia; lia|].
  apply (spec_lift_bind _ _ _ j); [f_equal; rewrite Z.add_comm, Z.mod_add, Z.mod_small by lia; lia|].
  apply spec_read_word; [by apply Hb|done|]. intros Hok. rewrite word_fits by done.
  apply (spec_lift_bind _ _ _ (word (B b) i)); [by apply read_word|]. by apply spec_read_indirect.
Qed.

Lemma spec_read_triple B b i j k Q :
  in_range b → in_block i → in_block j → in_block k → in_range (follow B b [i]) → in_range (follow B b [i; j]) →
  Q (follow B b [i; j; k]) B → spec (read_triple_indirect fs b (i * 65536 + (j * 256 + k))) B Q.
Proof.
  intros Hb Hi Hj Hk Hr Hr' HQ. unfold read_triple_indirect. cbn [follow] in HQ, Hr, Hr'. destruct (Z.eqb_spec b 0); [by apply spec_ok|].
  rewrite entries_256. apply (spec_lift_bind _ _ _ 65536); [by unfold mul32; rewrite arith_ok|]. unfold udiv, urem.
  change (65536 =? 0) with false. unfold in_block in *.
  apply (spec_lift_bind _ _ _ i); [f_equal; rewrite Z.div_add_l, Z.div_small by lia; lia|].
  apply (spec_lift_bind _ _ _ (j * 256 + k)); [f_equal; rewrite Z.add_comm, Z.mod_add, Z.mod_small by lia; lia|].
  apply spec_read_word; [by apply Hb|done|]. intros Hok. rewrite word_fits by done.
  apply (spec_lift_bind _ _ _ (word (B b) i)); [by apply read_word|]. by apply spec_read_double.
Qed.

(** The indices of a position, as the code computes them. *)
Lemma double_index l : l = l `div` 256 * 256 + l mod 256.
Proof. pose proof (Z.div_mod l 256). lia. Qed.
Lemma triple_index l : l = l `div` 65536 * 65536 + ((l mod 65536) `div` 256 * 256 + (l mod 65536) mod 256).
Proof. rewrite <- double_index. pose proof (Z.div_mod l 65536). lia. Qed.

(** What is mapped is in range, also on the way. *)
Lemma tree_range L B ino p : owned fs L B → valid_path p → in_range (tree L B ino p).
Proof. intros Ho Hp Hne. by apply (good_range fs lo B), (ow_good _ _ _ Ho). Qed.

Lemma valid_prefix p q : valid_path (p ++ q) → p ≠ [] → valid_path p.
Proof.
  destruct p as [|r rest]; [done|]. cbn [app valid_path]. rewrite length_app. intros (? & ? & ?%list.Forall_app) _.
  split_and!; [lia|lia|lia|naive_solver].
Qed.

Lemma spec_resolve_block L B ino (i : Inode) l Q :
  owned fs L B → L ino = Some (i_block i) → 0 ≤ l < MAX_LOGICAL → Q (tree L B ino (path_of l)) B →
  spec (resolve_block fs i l) B Q.
Proof.
  intros Ho HL Hl HQ. destruct (ow_ws _ _ _ Ho _ _ HL) as [Hlen _]. destruct (path_of_valid l Hl) as [Hv _].
  assert (∀ r, 0 ≤ r < 15 → index (i_block i) r = Ret (nth0 (i_block i) r)) as Hidx by (intros; apply index_nth0; lia).
  assert (∀ p, ptr B (i_block i) p = tree L B ino p) as Ht by (intros; unfold tree; by rewrite HL).
  assert (∀ p q, path_of l = p ++ q → p ≠ [] → in_range (ptr B (i_block i) p)) as Hr.
  { intros p q Hpq Hp. rewrite Ht. rewrite Hpq in Hv. by apply tree_range, (valid_prefix p q). }
  rewrite <- Ht in HQ. unfold resolve_block. unfold path_of in Hr, HQ, Hv. rewrite double_base_ok, triple_base_ok.
  unfold DIRECT_BLOCKS. destruct (Z.ltb_spec l 12).
  { apply (spec_lift _ _ _ (nth0 (i_block i) l)); [apply Hidx; lia|done]. }
  apply (spec_lift_bind _ _ _ 268); [done|]. destruct (Z.ltb_spec l 268).
  { apply (spec_lift_bind _ _ _ (nth0 (i_block i) 12)); [by apply Hidx|]. cbn [ptr follow] in HQ.
    destruct (Z.eqb_spec (nth0 (i_block i) 12) 0) as [Hz|Hz]; [by apply spec_ok|].
    apply spec_read_indirect; [by apply (Hr [12] [l - 12])|unfold in_block; lia|]. cbn [follow]. by rewrite (proj2 (Z.eqb_neq _ _)). }
  apply (spec_lift_bind _ _ _ 65804); [done|]. destruct (Z.ltb_spec l 65804).
  { apply (spec_lift_bind _ _ _ (nth0 (i_block i) 13)); [by apply Hidx|].
    destruct (Z.eqb_spec (nth0 (i_block i) 13) 0) as [Hz|Hz]; [apply spec_ok; cbn [ptr follow] in HQ; by rewrite Hz in HQ|].
    rewrite (double_index (l - 268)). destruct Hv as (_ & _ & [Hi [Hj _]%list.Forall_cons]%list.Forall_cons).
    apply spec_read_double; [by eapply (Hr [13])|done|done|by eapply (Hr [13; _])|done]. }
  apply (spec_lift_bind _ _ _ (nth0 (i_block i) 14)); [by apply Hidx|].
  destruct (Z.eqb_spec (nth0 (i_block i) 14) 0) as [Hz|Hz]; [apply spec_ok; cbn [ptr follow] in HQ; by rewrite Hz in HQ|].
  rewrite (triple_index (l - 65804)). destruct Hv as (_ & _ & [Hi [Hj [Hk _]%list.Forall_cons]%list.Forall_cons]%list.Forall_cons).
  apply spec_read_triple; [by eapply (Hr [14])|done|done|done|by eapply (Hr [14; _])|by eapply (Hr [14; _; _])|done].
Qed.

(** ** Extending *)

Local Notation grown := (grown fs).
Definition none : Z → Prop := λ _, False.

Lemma grown_mono R R' k k' ino L B L' B' :
  (∀ x, R x → R' x) → k ≤ k' → grown R k ino L B L' B' → grown R' k' ino L B L' B'.
Proof.
  intros HR Hk G. split; try apply G.
  - pose proof (gr_free G). lia.
  - intros x p Hp Hz Hne. destruct (gr_new G x p Hp Hz Hne) as [-> [?|[? ?]]]; auto.
Qed.

Lemma reserved_grown k ino L B L' B' b : reserved fs L B b → grown none k ino L B L' B' → reserved fs L' B' b.
Proof.
  intros [(Hd & Hm & Hu) Hres] G. split; [split_and!; [done..|by apply (gr_used G)]|].
  intros x p Hp Heq. destruct (good_range fs lo B b) as (_ & _ & Hb0); [done|].
  destruct (decide (tree L B x p = 0)) as [Hz|Hne].
  - destruct (gr_new G x p Hp Hz) as [_ [Hf|[_ []]]]; [congruence|]. rewrite Heq in Hf. congruence.
  - rewrite (gr_same G) in Heq by done. by apply (Hres x p).
Qed.

Lemma spec_write_word B b j v Q :
  0 ≤ b < N → in_block j → is_uint 32 v → (block_ok (B b) → Q tt (bupd B b (set_word (B b) j v))) →
  spec (write_indirect_entry fs b j v) B Q.
Proof.
  intros Hb Hj Hv HQ. apply spec_read_word; [done..|]. intros Hok. pose proof Hok as [Hl Hby]. unfold in_block in Hj.
  apply (spec_lift_bind _ _ _ (set_word (B b) j v)); [rewrite write_u32_splice by lia; unfold set_word; by rewrite Z.mul_comm|].
  apply spec_write_block; [exact (lo_size fs lo)|done| |by apply HQ]. unfold set_word.
  split; [rewrite len_splice, ?len_le_bytes; [done|lia|rewrite len_le_bytes; lia]|]. apply splice_bytes; [done|apply le_bytes_byte].
Qed.

(** Other blocks keep their contents when a pointer is set. *)
Lemma bupd_frame B b d x : x ≠ b → bupd B b d x = B x.
Proof. apply bupd_ne. Qed.

(** A data block gets its place below an indirect block. *)
Lemma spec_set_leaf L B ino p j b Q :
  owned fs L B → bitmaps_ok fs B → is_Some (L ino) → valid_path (p ++ [j]) → p ≠ [] → leaf (p ++ [j]) →
  tree L B ino p ≠ 0 → tree L B ino (p ++ [j]) = 0 → reserved fs L B b →
  (∀ B', grown (eq b) 0 ino L B L B' → tree L B' ino (p ++ [j]) = b → Q tt B') →
  spec (write_indirect_entry fs (tree L B ino p) j b) B Q.
Proof.
  intros Ho Hbm Hs Hv Hp Hleaf Ht Hz Hres HQ. destruct (valid_path_app _ _ Hv Hp) as (Hvp & Hin & Hj).
  destruct (good_range fs lo _ _ (ow_good _ _ _ Ho _ _ Hvp Ht)) as (Hr & _). destruct (good_range fs lo _ _ (proj1 Hres)) as (_ & Hb & _).
  apply spec_write_word; [done..|]. intros Hok.
  assert (attached L B L (bupd B (tree L B ino p) (set_word (B (tree L B ino p)) j b)) ino (p ++ [j]) b) as Ha.
  { eapply attach_child; [done..|by rewrite bupd_eq| |]; [intros Hi; by destruct (leaf_inner _ Hleaf Hi)|].
    intros x Hx _. by apply bupd_ne. }
  apply HQ; [|rewrite Ha by done; by rewrite decide_True].
  eapply (grown_attach fs lo _ _ _ _ _ B); [by apply grown_refl|done|exact Ha|done|apply Ho|done|done|done| |by right].
  intros x _ Hx. apply bupd_ne. intros ->. by apply (Hx p).
Qed.

(** A new indirect block below another one: the link and the zeroed block. *)
Lemma grown_new_child L B ino p j b B1 B2 :
  owned fs L B → bitmaps_ok fs B → is_Some (L ino) → valid_path (p ++ [j]) → p ≠ [] → inner (p ++ [j]) →
  tree L B ino p ≠ 0 → tree L B ino (p ++ [j]) = 0 → block_ok (B (tree L B ino p)) → allocated fs B b B1 →
  B2 (tree L B ino p) = set_word (B (tree L B ino p)) j b → B2 b = zeroes 1024 →
  (∀ x, x ≠ tree L B ino p → x ≠ b → B2 x = B1 x) →
  grown none 1 ino L B L B2 ∧ tree L B2 ino (p ++ [j]) = b ∧
  ∀ q, valid_path q → q ≠ p ++ [j] → tree L B2 ino q = tree L B ino q.
Proof.
  intros Ho Hbm Hs Hv Hp Hin Ht Hz Hd Hall Hset Hzero Hframe. destruct (valid_path_app _ _ Hv Hp) as (Hvp & Hinp & Hj).
  destruct (grown_alloc fs lo none ino L B b B1 Ho Hbm Hall) as [G Hres].
  pose proof Hall as (Hdb & Hub & _ & _ & _ & Hfr).
  assert (∀ q, valid_path q → tree L B1 ino q = tree L B ino q) as Htree.
  { apply tree_ext; [done|]. intros q Hq _ Hnq. by apply Hfr, (good_not_bitmap fs B), (ow_good _ _ _ Ho). }
  assert (B1 (tree L B ino p) = B (tree L B ino p)) as Hsame by (by apply Hfr, (good_not_bitmap fs B), (ow_good _ _ _ Ho)).
  rewrite <- Hsame, <- (Htree p Hvp) in *. rewrite <- (Htree _ Hv) in Hz.
  assert (attached L B1 L B2 ino (p ++ [j]) b) as Ha by (eapply attach_child; [exact lo|apply G|done..]).
  split; [|split; [rewrite Ha by done; by rewrite decide_True|]].
  2: { intros q Hq Hne. rewrite Ha, decide_False by (done || naive_solver). by apply Htree. }
  eapply (grown_attach fs lo); [exact G|exact Hres|exact Ha|done|apply Ho|done|done|done| |by left].
  intros x Hor Hx. apply Hframe; [intros ->; by apply (Hx p)|].
  destruct Hor as [|Hl]; [done|]. by destruct (leaf_inner _ Hl Hin).
Qed.

(** One level down from an indirect block, which is created when it is missing. *)
Definition descend (pb j : Z) (f : Z → io unit unit) : io unit unit :=
  data ← read_block fs pb;
  offset ← lift (mul32 j 4);
  w ← lift (read_u32 data offset);
  if w =? 0 then
    new_block ← alloc_block fs;
    data ← lift (write_u32 data offset new_block);
    _ ← write_block fs pb data;
    _ ← write_block fs new_block (zeroes (e_block_size fs));
    f new_block
  else f w.

Lemma spec_descend L B ino p j f Q :
  owned fs L B → bitmaps_ok fs B → is_Some (L ino) → valid_path (p ++ [j]) → p ≠ [] → inner (p ++ [j]) →
  tree L B ino p ≠ 0 → 0 < nfree fs B →
  (∀ B1, grown none 1 ino L B L B1 → tree L B1 ino (p ++ [j]) ≠ 0 →
    (∀ q, valid_path q → q ≠ p ++ [j] → tree L B1 ino q = tree L B ino q) → spec (f (tree L B1 ino (p ++ [j]))) B1 Q) →
  spec (descend (tree L B ino p) j f) B Q.
Proof.
  intros Ho Hbm Hs Hv Hp Hin Ht Hf HQ. destruct (valid_path_app _ _ Hv Hp) as (Hvp & _ & Hj).
  destruct (good_range fs lo _ _ (ow_good _ _ _ Ho _ _ Hvp Ht)) as (Hr & _). unfold descend.
  apply spec_read_word; [done..|]. intros Hok. apply (spec_lift_bind _ _ _ (word (B (tree L B ino p)) j)); [by apply read_word|].
  assert (tree L B ino (p ++ [j]) = word (B (tree L B ino p)) j) as Hw by (by rewrite tree_app, (proj2 (Z.eqb_neq _ _))).
  rewrite <- Hw. destruct (Z.eqb_spec (tree L B ino (p ++ [j])) 0) as [Hz|Hnz].
  2: { apply HQ; [|done|done]. apply (grown_mono none none 0); [done|lia|by apply grown_refl]. }
  apply spec_bind, spec_alloc_block; [exact lo|done|done|]. intros b B1 Hall.
  destruct (grown_alloc fs lo none ino L B b B1 Ho Hbm Hall) as [G Hres].
  destruct (good_range fs lo _ _ (proj1 Hres)) as (Hbr & Hb32 & Hb0). pose proof Hok as [Hl Hby]. unfold in_block in Hj.
  apply (spec_lift_bind _ _ _ (set_word (B (tree L B ino p)) j b)); [rewrite write_u32_splice by lia; unfold set_word; by rewrite Z.mul_comm|].
  apply spec_bind, spec_write_block; [exact (lo_size fs lo)|done| |].
  { unfold set_word. split; [rewrite len_splice, ?len_le_bytes; [done|lia|rewrite len_le_bytes; lia]|]. apply splice_bytes; [done|apply le_bytes_byte]. }
  rewrite (lo_size fs lo). apply spec_bind, spec_write_block; [exact (lo_size fs lo)|done|split; [by rewrite len_zeroes|apply zeroes_bytes]|].
  assert (tree L B ino p ≠ b) as Hne.
  { rewrite <- (gr_same G) by done. by apply Hres. }
  edestruct (grown_new_child L B ino p j b B1) as (G2 & Ht2 & Hq2); [done..| | | |];
    [|by rewrite bupd_eq| |rewrite <- Ht2 at 1; apply HQ; [exact G2|by rewrite Ht2|exact Hq2]].
  - by rewrite bupd_ne, bupd_eq.
  - intros x Hx Hxb. by rewrite !bupd_ne.
Qed.

Lemma leaf_app p q : leaf (p ++ q) → p ≠ [] → q ≠ [] → inner p.
Proof. destruct p as [|r rest]; [done|]. destruct q as [|j q]; [done|]. cbn [app leaf inner]. rewrite length_app. simpl. lia. Qed.

(** The data block [b] gets the free place [p] of the file [ino]. *)
Definition placed (k ino : Z) L B (p : path) b L' B' : Prop :=
  grown (eq b) k ino L B L' B' ∧ tree L' B' ino p = b.

Lemma spec_set_double L B ino p j c b Q :
  owned fs L B → bitmaps_ok fs B → is_Some (L ino) → valid_path (p ++ [j; c]) → p ≠ [] → leaf (p ++ [j; c]) →
  tree L B ino p ≠ 0 → tree L B ino (p ++ [j; c]) = 0 → reserved fs L B b → 0 < nfree fs B →
  (∀ B', placed 1 ino L B (p ++ [j; c]) b L B' → Q tt B') →
  spec (set_double_indirect_entry fs (tree L B ino p) (j * 256 + c) b) B Q.
Proof.
  intros Ho Hbm Hs Hv Hp Hleaf Ht Hz Hres Hf HQ. replace (p ++ [j; c]) with ((p ++ [j]) ++ [c]) in * by (by rewrite <- app_assoc).
  assert (p ++ [j] ≠ []) as Hne by (by intros [? _]%app_nil). destruct (valid_path_app _ _ Hv Hne) as (Hvj & Hin & Hc).
  destruct (valid_path_app _ _ Hvj Hp) as (Hvp & _ & Hj). unfold set_double_indirect_entry, udiv, urem. rewrite entries_256.
  change (256 =? 0) with false. unfold in_block in Hc, Hj.
  apply (spec_lift_bind _ _ _ j); [f_equal; rewrite Z.div_add_l, Z.div_small by lia; lia|].
  apply (spec_lift_bind _ _ _ c); [f_equal; rewrite Z.add_comm, Z.mod_add, Z.mod_small by lia; lia|].
  apply (spec_descend L B ino p j (λ w, write_indirect_entry fs w c b)); [done..|].
  intros B1 G Hnz Hq. pose proof (reserved_grown _ _ _ _ _ _ _ Hres G) as Hres1.
  assert ((p ++ [j]) ++ [c] ≠ p ++ [j]) as Hd by (intros Heq; apply (f_equal length) in Heq; rewrite !length_app in Heq; simpl in Heq; lia).
  apply spec_set_leaf; [apply G|apply G|done|done|done|done|done|by rewrite Hq|done|].
  intros B' G' Ht'. apply HQ. split; [|done].
  apply (grown_trans fs _ (eq b) 1 0 ino L B L B1); [by apply (grown_mono none (eq b) 1); [|lia|]|done|by left].
Qed.

Lemma spec_set_triple L B ino p j c d b Q :
  owned fs L B → bitmaps_ok fs B → is_Some (L ino) → valid_path (p ++ [j; c; d]) → p ≠ [] → leaf (p ++ [j; c; d]) →
  tree L B ino p ≠ 0 → tree L B ino (p ++ [j; c; d]) = 0 → reserved fs L B b → 1 < nfree fs B →
  (∀ B', placed 2 ino L B (p ++ [j; c; d]) b L B' → Q tt B') →
  spec (set_triple_indirect_entry fs (tree L B ino p) (j * 65536 + (c * 256 + d)) b) B Q.
Proof.
  intros Ho Hbm Hs Hv Hp Hleaf Ht Hz Hres Hf HQ. replace (p ++ [j; c; d]) with ((p ++ [j]) ++ [c; d]) in * by (by rewrite <- app_assoc).
  assert (p ++ [j] ≠ []) as Hne by (by intros [? _]%app_nil). pose proof (valid_prefix _ _ Hv Hne) as Hvj.
  destruct (valid_path_app _ _ Hvj Hp) as (Hvp & _ & Hj). pose proof (leaf_app _ _ Hleaf Hne ltac:(done)) as Hin.
  assert (Forall in_block [c; d]) as [Hc [Hd _]%list.Forall_cons]%list.Forall_cons.
  { destruct p as [|r rest]; [done|]. destruct Hv as (_ & _ & Hv). by apply list.Forall_app in Hv as [_ Hv]. }
  unfold set_triple_indirect_entry, udiv, urem. rewrite entries_256. unfold in_block in Hc, Hd, Hj.
  apply (spec_lift_bind _ _ _ 65536); [by unfold mul32; rewrite arith_ok|]. change (65536 =? 0) with false.
  apply (spec_lift_bind _ _ _ j); [f_equal; rewrite Z.div_add_l, Z.div_small by lia; lia|].
  apply (spec_lift_bind _ _ _ (c * 256 + d)); [f_equal; rewrite Z.add_comm, Z.mod_add, Z.mod_small by lia; lia|].
  pose proof (spec_descend L B ino p j (λ w, set_double_indirect_entry fs w (c * 256 + d) b) Q) as Hdesc. unfold descend in Hdesc.
  apply Hdesc; clear Hdesc; [done..|lia|].
  intros B1 G Hnz Hq. pose proof (reserved_grown _ _ _ _ _ _ _ Hres G) as Hres1.
  assert ((p ++ [j]) ++ [c; d] ≠ p ++ [j]) as Hdiff by (intros Heq; apply (f_equal length) in Heq; rewrite !length_app in Heq; simpl in Heq; lia).
  apply spec_set_double; [apply G|apply G|done|done|done|done|done|by rewrite Hq|done|pose proof (gr_free G); lia|].
  intros B' [G' Ht']. apply HQ. split; [|done].
  apply (grown_trans fs _ (eq b) 1 1 ino L B L B1); [by apply (grown_mono none (eq b) 1); [|lia|]|done|by left].
Qed.

(** An indirect block of the inode itself. *)
Lemma spec_ensure_root L B ino (i : Inode) r Q :
  owned fs L B → bitmaps_ok fs B → L ino = Some (i_block i) → 12 ≤ r < 15 → 0 < nfree fs B →
  (∀ i' L' B', grown none 1 ino L B L' B' → L' ino = Some (i_block i') → i' = set_block (i_block i') i →
    tree L' B' ino [r] ≠ 0 → (∀ q, valid_path q → q ≠ [r] → tree L' B' ino q = tree L B ino q) → Q (i', tree L' B' ino [r]) B') →
  spec (ensure_root fs i r) B Q.
Proof.
  intros Ho Hbm HL Hr Hf HQ. destruct (ow_ws _ _ _ Ho _ _ HL) as [Hlen Hw]. unfold ensure_root.
  assert (tree L B ino [r] = nth0 (i_block i) r) as Ht by (unfold tree; by rewrite HL).
  apply (spec_lift_bind _ _ _ (nth0 (i_block i) r)); [apply index_nth0; lia|].
  destruct (Z.eqb_spec (nth0 (i_block i) r) 0) as [Hz|Hnz].
  2: { apply spec_ok. rewrite <- Ht. apply HQ; [|done|by destruct i|by rewrite Ht|done].
       apply (grown_mono none none 0); [done|lia|by apply grown_refl]. }
  apply spec_bind, spec_alloc_block; [exact lo|done|done|]. intros b B1 Hall.
  destruct (grown_alloc fs lo none ino L B b B1 Ho Hbm Hall) as [G Hres]. pose proof Hall as (_ & Hub & _ & _ & _ & Hfr).
  destruct (good_range fs lo _ _ (proj1 Hres)) as (Hbr & Hb32 & Hb0).
  apply (spec_lift_bind _ _ _ (<[Z.to_nat r := b]> (i_block i))); [apply store_ok; lia|]. rewrite (lo_size fs lo).
  apply spec_bind, spec_write_block; [exact (lo_size fs lo)|done|split; [by rewrite len_zeroes|apply zeroes_bytes]|]. apply spec_ok.
  set (L2 := fupd L ino (<[Z.to_nat r := b]> (i_block i))). set (B2 := bupd B1 b (zeroes 1024)).
  assert (attached L B1 L2 B2 ino [r] b) as Ha.
  { apply (attach_root fs lo); [apply G|done|lia|done|done|intros _; apply bupd_eq|intros x Hx; by apply bupd_ne]. }
  assert (∀ q, valid_path q → tree L B1 ino q = tree L B ino q) as Htree.
  { apply tree_ext; [done|]. intros q Hq _ Hnq. by apply Hfr, (good_not_bitmap fs B), (ow_good _ _ _ Ho). }
  assert (valid_path [r]) as Hvr by (split; [lia|split; [simpl; lia|constructor]]).
  assert (tree L2 B2 ino [r] = b) as Htr by (rewrite Ha by done; by rewrite decide_True).
  rewrite <- Htr at 2. apply HQ.
  - eapply (grown_attach fs lo); [exact G|exact Hres|exact Ha|done| | | | | |by left].
    + intros x ws. unfold L2, fupd. destruct (decide (x = ino)); [|apply Ho]. intros [= <-].
      split; [unfold len in *; by rewrite length_insert|by apply Forall_insert].
    + intros x Hx. unfold L2, fupd. by rewrite decide_False.
    + unfold L2, fupd. by rewrite decide_True.
    + rewrite Htree by done. by rewrite Ht.
    + intros x [Hx|Hl] _; [by apply bupd_ne|]. simpl in Hl. unfold depth in Hl. lia.
  - unfold L2, fupd. by rewrite decide_True.
  - done.
  - by rewrite Htr.
  - intros q Hq Hne. rewrite Ha, decide_False by (done || naive_solver). by apply Htree.
Qed.

Lemma spec_set_block_pointer L B ino (i : Inode) l b Q :
  owned fs L B → bitmaps_ok fs B → L ino = Some (i_block i) → 0 ≤ l < MAX_LOGICAL →
  tree L B ino (path_of l) = 0 → reserved fs L B b → 2 < nfree fs B →
  (∀ i' L' B', placed 3 ino L B (path_of l) b L' B' → L' ino = Some (i_block i') → i' = set_block (i_block i') i → Q i' B') →
  spec (set_block_pointer fs i l b) B Q.
Proof.
  intros Ho Hbm HL Hl Hz Hres Hf HQ. destruct (ow_ws _ _ _ Ho _ _ HL) as [Hlen Hw]. destruct (path_of_valid l Hl) as [Hv Hleaf].
  assert (is_Some (L ino)) as Hs by (by rewrite HL).
  assert (∀ r rest i' L1 B1 B', path_of l = [r] ++ rest → rest ≠ [] → grown none 1 ino L B L1 B1 → L1 ino = Some (i_block i') →
    i' = set_block (i_block i') i → placed 2 ino L1 B1 ([r] ++ rest) b L1 B' → Q i' B') as Hdone.
  { intros r rest i' L1 B1 B' Hp _ G HL1 Hi' [G' Ht]. apply (HQ i' L1); [|done|done]. rewrite Hp. split; [|done].
    apply (grown_trans fs _ (eq b) 1 2 ino L B L1 B1); [by apply (grown_mono none (eq b) 1); [|lia|]|done|by left]. }
  unfold set_block_pointer. rewrite double_base_ok, triple_base_ok. unfold DIRECT_BLOCKS. unfold path_of in Hdone, Hz, Hv, Hleaf, HQ.
  destruct (Z.ltb_spec l 12) as [H12|H12].
  { apply (spec_lift_bind _ _ _ (<[Z.to_nat l := b]> (i_block i))); [apply store_ok; lia|]. apply spec_ok.
    assert (attached L B (fupd L ino (<[Z.to_nat l := b]> (i_block i))) B ino [l] b) as Ha.
    { apply (attach_root fs lo); [done|done|lia| |done|intros Hi; by destruct (leaf_inner _ Hleaf Hi)|done].
      unfold tree in Hz. by rewrite HL in Hz. }
    apply (HQ _ (fupd L ino (<[Z.to_nat l := b]> (i_block i)))); [|unfold fupd; by rewrite decide_True|done].
    split; [|rewrite Ha by done; by rewrite decide_True]. apply (grown_mono (eq b) (eq b) 0); [done|lia|].
    eapply (grown_attach fs lo _ _ _ _ _ B); [by apply grown_refl|done|exact Ha|done| | | |done|done|by right].
    - intros x ws. unfold fupd. destruct (decide (x = ino)); [|apply Ho]. intros [= <-].
      split; [unfold len in *; by rewrite length_insert|]. apply Forall_insert; [done|]. by apply (good_range fs lo B), Hres.
    - intros x Hx. unfold fupd. by rewrite decide_False.
    - unfold fupd. by rewrite decide_True. }
  apply (spec_lift_bind _ _ _ 268); [done|]. destruct (Z.ltb_spec l 268) as [H268|H268].
  { apply spec_bind, (spec_ensure_root L B ino); [done|done|done|lia|lia|]. intros i' L1 B1 G HL1 Hi' Ht Hq.
    apply spec_bind, (spec_set_leaf L1 B1 ino [12]); [apply G|apply G|by rewrite HL1|done|done|done|done|by rewrite Hq|by eapply reserved_grown|].
    intros B' G' Ht'. apply spec_ok. eapply (Hdone 12 [l - 12]); [done|done|exact G|done|done|]. split; [|done].
    by apply (grown_mono (eq b) (eq b) 0); [|lia|]. }
  apply (spec_lift_bind _ _ _ 65804); [done|]. destruct (Z.ltb_spec l 65804) as [H3|H3].
  { apply spec_bind, (spec_ensure_root L B ino); [done|done|done|lia|lia|]. intros i' L1 B1 G HL1 Hi' Ht Hq.
    rewrite (double_index (l - 268)).
    apply spec_bind, (spec_set_double L1 B1 ino [13]); [apply G|apply G|by rewrite HL1|done|done|done|done|by rewrite Hq|by eapply reserved_grown|pose proof (gr_free G); lia|].
    intros B' [G' Ht']. apply spec_ok. eapply (Hdone 13); [done|done|exact G|done|done|]. split; [|done].
    by apply (grown_mono (eq b) (eq b) 1); [|lia|]. }
  apply spec_bind, (spec_ensure_root L B ino); [done|done|done|lia|lia|]. intros i' L1 B1 G HL1 Hi' Ht Hq.
  rewrite (triple_index (l - 65804)).
  apply spec_bind, (spec_set_triple L1 B1 ino [14]); [apply G|apply G|by rewrite HL1|done|done|done|done|by rewrite Hq|by eapply reserved_grown|pose proof (gr_free G); lia|].
  intros B' HP. apply spec_ok. by eapply (Hdone 14).
Qed.

End map.
