(* ===== verification/Ext2Files.v ===== *)
(** * The contents of ext2 files

    A file is a sequence of bytes; [read_inode_data] reads it, [write_inode_data]
    overwrites a part and extends it, and neither touches another file. *)

From stdpp Require Import strings.
From S2P Require Import Prelude Bytes BlockCache Vfs Ext2 Ext2Store Ext2Disk Ext2Alloc Ext2Tree Ext2Map.
Local Open Scope Z_scope.

Section files.
Context `{BuildProfile} (fs : Ext2Fs) (lo : layout_ok fs).
Local Notation N := (blocks_count fs).
Local Notation spec := (spec fs N).
Local Notation grown := (grown fs).
Implicit Types (L : files) (B : blocks) (i : Inode).

(** ** Bytes of a file *)

Definition MAX_SIZE : Z := MAX_LOGICAL * 1024.

Definition block_at L B (ino o : Z) : Z := tree L B ino (path_of (o `div` 1024)).

(** A byte in a hole is zero. *)
Definition byte_at L B (ino o : Z) : Z :=
  if block_at L B ino o =? 0 then 0 else nth0 (B (block_at L B ino o)) (o mod 1024).

Definition content L B (ino a n : Z) : list Z := byte_at L B ino <$> seqZ a n.

Lemma len_content L B ino a n : 0 ≤ n → len (content L B ino a n) = n.
Proof. intros. unfold len, content. rewrite length_fmap, length_seqZ. lia. Qed.

Lemma nth0_content L B ino a n j : 0 ≤ j < n → nth0 (content L B ino a n) j = byte_at L B ino (a + j).
Proof.
  intros Hj. unfold nth0, content. rewrite list_lookup_fmap, lookup_seqZ_lt by lia. simpl. f_equal. lia.
Qed.

Lemma content_app L B ino a n m :
  0 ≤ n → 0 ≤ m → content L B ino a (n + m) = content L B ino a n ++ content L B ino (a + n) m.
Proof. intros. unfold content. by rewrite seqZ_app, fmap_app by lia. Qed.

Lemma logical_range o : 0 ≤ o < MAX_SIZE → 0 ≤ o `div` 1024 < MAX_LOGICAL.
Proof. unfold MAX_SIZE. intros. split; [apply Z.div_pos; lia|apply Z.div_lt_upper_bound; lia]. Qed.

Lemma block_at_valid o : 0 ≤ o < MAX_SIZE → valid_path (path_of (o `div` 1024)) ∧ leaf (path_of (o `div` 1024)).
Proof. intros Ho. by apply path_of_valid, logical_range. Qed.

(** The part of one block. *)
Lemma content_block L B ino a n :
  0 ≤ a → 0 ≤ n → a mod 1024 + n ≤ 1024 → block_ok (B (block_at L B ino a)) →
  content L B ino a n = if block_at L B ino a =? 0 then zeroes n else sub (B (block_at L B ino a)) (a mod 1024) n.
Proof.
  intros Ha Hn Hfit [Hl _]. pose proof (Z.mod_pos_bound a 1024 ltac:(lia)).
  assert (∀ j, 0 ≤ j < n → block_at L B ino (a + j) = block_at L B ino a ∧ (a + j) mod 1024 = a mod 1024 + j) as Hj.
  { intros j Hj. unfold block_at. assert ((a + j) `div` 1024 = a `div` 1024 ∧ (a + j) mod 1024 = a mod 1024 + j) as [-> ->]; [|done].
    pose proof (Z.div_mod a 1024 ltac:(lia)).
    split; [symmetry; apply (Z.div_unique_pos _ _ _ (a mod 1024 + j)); lia|
            symmetry; apply (Z.mod_unique_pos _ _ (a `div` 1024)); lia]. }
  apply bytes_eq; [rewrite len_content by done; destruct (_ =? 0); [by rewrite len_zeroes|by rewrite len_sub by lia]|].
  intros j. rewrite len_content by done. intros Hjn. rewrite nth0_content by done. unfold byte_at. destruct (Hj j Hjn) as [-> ->].
  destruct (block_at L B ino a =? 0); [by rewrite byte_zeroes|by rewrite byte_sub by lia].
Qed.

(** ** Reading *)

Lemma spec_read_loop L B ino i fuel offset to_read n Q :
  owned fs L B → L ino = Some (i_block i) → 0 ≤ offset → offset + to_read ≤ MAX_SIZE → 0 ≤ n ≤ to_read →
  (Z.to_nat (to_read - n) < fuel)%nat → Q (content L B ino offset to_read) B →
  spec (read_data_loop fs fuel i offset to_read (content L B ino offset n)) B Q.
Proof.
  intros Ho HL Ha Hmax. revert n. induction fuel as [|fuel IH]; intros n Hn Hf HQ; [lia|]. apply spec_wf. intros Hwf.
  cbn [read_data_loop]. rewrite len_content by lia. destruct (Z.leb_spec to_read n).
  { apply spec_ok. by replace n with to_read by lia. }
  set (o := offset + n). assert (0 ≤ o < MAX_SIZE) as Hor by lia. pose proof (logical_range o Hor) as Hlr.
  assert (MAX_SIZE < 2 ^ 63) as Hms by done. assert (MAX_LOGICAL < 2 ^ 31) as Hml by done.
  apply (spec_lift_bind _ _ _ o); [apply add64_ok; unfold is_uint; lia|]. rewrite (lo_size fs lo). unfold udiv, urem.
  change (1024 =? 0) with false.
  apply (spec_lift_bind _ _ _ (o `div` 1024)); [done|]. apply (spec_lift_bind _ _ _ (o mod 1024)); [done|].
  unfold cast, wrap. rewrite (Z.mod_small (o `div` 1024)) by lia. pose proof (Z.mod_pos_bound o 1024 ltac:(lia)).
  apply spec_bind, (spec_resolve_block fs lo L B ino); [done|done|done|]. fold (block_at L B ino o).
  set (m := Z.min (to_read - n) (1024 - o mod 1024)).
  assert (0 ≤ block_at L B ino o < N) as Hbr.
  { destruct (decide (block_at L B ino o = 0)) as [->|Hne]; [pose proof (lo_count fs lo); lia|].
    apply (tree_range fs lo L B ino (path_of (o `div` 1024)) Ho); [by apply block_at_valid|done]. }
  assert (content L B ino offset (n + m) = content L B ino offset n ++ content L B ino o m) as Happ by (apply content_app; lia).
  rewrite (content_block L B ino o m) in Happ by (lia || by apply Hwf).
  destruct (Z.eqb_spec (block_at L B ino o) 0) as [Hz|Hnz].
  - rewrite <- Happ. apply IH; [lia|lia|done].
  - apply spec_bind, spec_read_block; [exact (lo_size fs lo)|done|]. destruct (Hwf _ Hbr) as [Hl _].
    apply (spec_lift_bind _ _ _ (sub (B (block_at L B ino o)) (o mod 1024) m)); [apply slice_sub; lia|].
    rewrite <- Happ. apply IH; [lia|lia|done].
Qed.

(** What a read of [n] bytes at [offset] returns. *)
Lemma spec_read_inode_data L B ino i offset n Q :
  owned fs L B → L ino = Some (i_block i) → 0 ≤ offset → 0 ≤ n → 0 ≤ Inode_size i ≤ MAX_SIZE →
  Q (sub (content L B ino 0 (Inode_size i)) offset n) B → spec (read_inode_data fs i offset n) B Q.
Proof.
  intros Ho HL Ha Hn Hs HQ. unfold read_inode_data.
  assert (∀ m, 0 ≤ m → m = Z.min n (Inode_size i - offset) → sub (content L B ino 0 (Inode_size i)) offset n = content L B ino offset m) as Hsub.
  { intros m Hm ->. set (k := Z.min n (Inode_size i - offset)) in *.
    transitivity (sub (content L B ino 0 (Inode_size i)) offset k).
    - unfold sub. rewrite <- (firstn_all2 (n := Z.to_nat (Inode_size i - offset)) (drop (Z.to_nat offset) _)).
      2: { rewrite length_drop. pose proof (len_content L B ino 0 (Inode_size i) ltac:(lia)) as Hl. unfold len in Hl. lia. }
      rewrite !take_take. f_equal. lia.
    - apply bytes_eq; [by rewrite len_sub, len_content by (rewrite ?len_content; lia)|]. rewrite len_sub by (rewrite ?len_content; lia).
      intros j Hj. by rewrite byte_sub, !nth0_content by lia. }
  destruct (Z.leb_spec (Inode_size i) offset) as [Hend|Hlt].
  { apply spec_ok. replace (sub _ _ _) with (@nil Z) in HQ; [done|]. symmetry. unfold sub. rewrite drop_ge; [apply take_nil|].
    pose proof (len_content L B ino 0 (Inode_size i) ltac:(lia)) as Hl. unfold len in Hl. lia. }
  rewrite (Hsub (Z.min n (Inode_size i - offset))) in HQ by lia.
  destruct (Z.eqb_spec (Z.min n (Inode_size i - offset)) 0) as [Hz|Hz]; [apply spec_ok; by rewrite Hz in HQ|].
  apply (spec_read_loop L B ino i _ _ _ 0); [done|done|lia..|done].
Qed.

(** ** Writing *)

(** The tree of every file when a data block is overwritten. *)
Lemma tree_overwrite L B ino p d x q :
  owned fs L B → valid_path p → leaf p → tree L B ino p ≠ 0 → valid_path q →
  tree L (bupd B (tree L B ino p) d) x q = tree L B x q.
Proof.
  intros Ho Hp Hl Hne. apply tree_ext; [done|]. intros r Hr Hin Hnr. apply bupd_ne. intros Heq.
  destruct (ow_inj _ _ _ Ho x ino r p Hr Hp Hnr Heq) as [-> ->]. by apply (leaf_inner p).
Qed.

(** Blocks outside the bitmaps change neither the used blocks nor ownership. *)
Lemma used_frame B b d x : ¬ is_block_bitmap fs b → in_disk fs x → used fs (bupd B b d) x = used fs B x.
Proof.
  intros Hb Hx. apply used_ext, bupd_ne. intros He. apply Hb. exists (group_of fs x). split; [by apply group_of_ok|done].
Qed.

Lemma bitmaps_frame B b d : ¬ is_block_bitmap fs b → bitmaps_ok fs B → bitmaps_ok fs (bupd B b d).
Proof.
  intros Hb [Hm Hp]. split; [intros x Hx Hmx; rewrite used_frame by done; by apply Hm|].
  intros g k Hg Hk Hor. rewrite bupd_ne; [by apply Hp|]. intros <-. apply Hb. by exists g.
Qed.

Lemma owned_frame L B b d :
  ¬ is_block_bitmap fs b → owned fs L B → (∀ x q, valid_path q → tree L (bupd B b d) x q = tree L B x q) → owned fs L (bupd B b d).
Proof.
  intros Hb Ho Ht. split; [apply Ho|..].
  - intros x q Hq. rewrite Ht by done. intros Hne. destruct (ow_good _ _ _ Ho _ _ Hq Hne) as (Hd & Hm & Hu).
    split_and!; [done..|]. by rewrite used_frame.
  - intros x y q q' Hq Hq'. rewrite !Ht by done. by apply (ow_inj _ _ _ Ho).
Qed.

(** The bytes of [ino] from [a] on become [bytes]. *)
Record wrote (k ino a : Z) (bytes : list Z) L B L' B' : Prop := {
  wr_owned : owned fs L' B';
  wr_bitmaps : bitmaps_ok fs B';
  wr_free : nfree fs B - k ≤ nfree fs B';
  wr_used x : in_disk fs x → used fs B x = true → used fs B' x = true;
  wr_others x : x ≠ ino → L' x = L x;
  wr_tree x p : valid_path p → tree L' B' x p = tree L B x p ∨
    x = ino ∧ tree L B x p = 0 ∧ tree L' B' x p ≠ 0 ∧ used fs B (tree L' B' x p) = false;
  wr_file x o : x ≠ ino → 0 ≤ o < MAX_SIZE → byte_at L' B' x o = byte_at L B x o;
  wr_new o : a ≤ o < a + len bytes → byte_at L' B' ino o = nth0 bytes (o - a);
  wr_old o : 0 ≤ o < MAX_SIZE → ¬ (a ≤ o < a + len bytes) → block_at L B ino o ≠ 0 → byte_at L' B' ino o = byte_at L B ino o;
  wr_mapped o : a ≤ o < a + len bytes → block_at L' B' ino o ≠ 0;
  wr_frame x : ¬ is_block_bitmap fs x → (in_disk fs x → used fs B x = true) →
    (∀ p, valid_path p → tree L B ino p ≠ 0 → tree L B ino p ≠ x) → B' x = B x;
}.
Arguments wr_owned {k ino a bytes L B L' B'} _.
Arguments wr_bitmaps {k ino a bytes L B L' B'} _.
Arguments wr_free {k ino a bytes L B L' B'} _.
Arguments wr_used {k ino a bytes L B L' B'} _.
Arguments wr_others {k ino a bytes L B L' B'} _.
Arguments wr_tree {k ino a bytes L B L' B'} _.
Arguments wr_file {k ino a bytes L B L' B'} _.
Arguments wr_new {k ino a bytes L B L' B'} _.
Arguments wr_old {k ino a bytes L B L' B'} _.
Arguments wr_mapped {k ino a bytes L B L' B'} _.
Arguments wr_frame {k ino a bytes L B L' B'} _.

Lemma wr_stays {k ino a bytes L B L' B'} : wrote k ino a bytes L B L' B' →
  ∀ x p, valid_path p → tree L B x p ≠ 0 → tree L' B' x p ≠ 0.
Proof. intros W x p Hp Hne. destruct (wr_tree W x p Hp) as [->|(-> & ? & ? & ?)]; done. Qed.

Lemma wrote_app k k' ino a b1 b2 L B L1 B1 L2 B2 :
  0 ≤ a → a + len b1 + len b2 ≤ MAX_SIZE →
  wrote k ino a b1 L B L1 B1 → wrote k' ino (a + len b1) b2 L1 B1 L2 B2 → wrote (k + k') ino a (b1 ++ b2) L B L2 B2.
Proof.
  intros Ha Hmax W1 W2. assert (0 ≤ len b1 ∧ 0 ≤ len b2) as [? ?] by (unfold len; lia). split.
  - apply W2.
  - apply W2.
  - pose proof (wr_free W1). pose proof (wr_free W2). lia.
  - intros x Hx Hu. by apply (wr_used W2), (wr_used W1).
  - intros x Hx. by rewrite (wr_others W2), (wr_others W1).
  - intros x p Hp. pose proof (wr_tree W1 x p Hp) as T1. pose proof (wr_tree W2 x p Hp) as T2.
    destruct T1 as [E1|(Hx1 & Hz & Hne & Hu)], T2 as [E2|(Hx2 & Hz2 & Hne2 & Hu2)]; simplify_eq.
    + left. by rewrite E2.
    + right. split_and!; [done|by rewrite <- E1|done|]. destruct (used fs B (tree L2 B2 ino p)) eqn:E; [|done].
      rewrite (wr_used W1) in Hu2; [done| |done]. by apply (ow_good _ _ _ (wr_owned W2)).
    + right. rewrite E2. done.
  - intros x o Hx Ho. by rewrite (wr_file W2), (wr_file W1).
  - intros o. rewrite len_app. intros Ho. unfold nth0. destruct (decide (o < a + len b1)).
    + rewrite (wr_old W2) by (lia || by apply (wr_mapped W1); lia). rewrite (wr_new W1) by lia.
      unfold nth0. rewrite lookup_app_l by (unfold len in *; lia). done.
    + rewrite (wr_new W2) by lia. unfold nth0. rewrite lookup_app_r by (unfold len in *; lia). do 2 f_equal. unfold len in *. lia.
  - intros o Ho. rewrite len_app. intros Hout Hb. rewrite (wr_old W2); [apply (wr_old W1); [done|lia|done]|done|lia|].
    by apply (wr_stays W1); [apply block_at_valid|].
  - intros o. rewrite len_app. intros Ho. destruct (decide (o < a + len b1)); [|apply (wr_mapped W2); lia].
    apply (wr_stays W2); [apply block_at_valid; lia|]. apply (wr_mapped W1). lia.
  - intros x Hb Hu Hp. rewrite (wr_frame W2); [by apply (wr_frame W1)|done|intros Hd; by apply (wr_used W1), Hu|].
    intros p Hv Hne Heq. destruct (wr_tree W1 ino p Hv) as [E|(_ & Hz & _ & Hf)]; [rewrite E in *; by apply (Hp p)|].
    assert (in_disk fs x) as Hd by (rewrite <- Heq; by apply (ow_good _ _ _ (wr_owned W1))). rewrite Heq, (Hu Hd) in Hf. done.
Qed.

(** A byte of a block that stays mapped and is not overwritten. *)
Lemma grown_byte k ino L B L1 B1 x o :
  owned fs L B → grown none k ino L B L1 B1 → 0 ≤ o < MAX_SIZE → x ≠ ino ∨ block_at L B x o ≠ 0 →
  byte_at L1 B1 x o = byte_at L B x o.
Proof.
  intros Ho G Hr Hor. destruct (block_at_valid o Hr) as [Hv Hl]. unfold byte_at.
  destruct (decide (block_at L B x o = 0)) as [Hz|Hne].
  - destruct (decide (block_at L1 B1 x o = 0)) as [->|Hne1]; [by rewrite Hz|].
    destruct (gr_new G x (path_of (o `div` 1024)) Hv Hz Hne1) as [-> _]. naive_solver.
  - unfold block_at in *. rewrite (gr_same G) by done. destruct (_ =? 0); [done|]. rewrite (gr_frame G); [done|..].
    + by apply (good_not_bitmap fs B), (ow_good _ _ _ Ho).
    + intros _. by apply (ow_good _ _ _ Ho).
    + intros p Hp Hin Hnp Heq. destruct (ow_inj _ _ _ Ho ino x p _ Hp Hv Hnp Heq) as [_ ->]. by apply (leaf_inner _ Hl).
Qed.

Lemma wrote_chunk k ino a chunk L B L1 B1 :
  owned fs L B → grown none k ino L B L1 B1 → 0 ≤ a → a + len chunk ≤ MAX_SIZE → a mod 1024 + len chunk ≤ 1024 → 0 < len chunk →
  block_at L1 B1 ino a ≠ 0 → block_ok (B1 (block_at L1 B1 ino a)) →
  wrote k ino a chunk L B L1 (bupd B1 (block_at L1 B1 ino a) (splice (B1 (block_at L1 B1 ino a)) (a mod 1024) chunk)).
Proof.
  intros Ho G Ha Hmax Hfit Hpos Hb [Hbl _]. set (b := block_at L1 B1 ino a) in *. set (d := splice (B1 b) (a mod 1024) chunk).
  assert (0 ≤ a < MAX_SIZE) as Har by lia. destruct (block_at_valid a Har) as [Hva Hla]. pose proof (gr_owned G) as Ho1.
  pose proof (Z.mod_pos_bound a 1024 ltac:(lia)).
  assert (∀ x q, valid_path q → tree L1 (bupd B1 b d) x q = tree L1 B1 x q) as Ht by (intros; by apply tree_overwrite).
  pose proof (ow_good _ _ _ Ho1 ino _ Hva Hb) as Hgood. pose proof (good_not_bitmap fs _ _ Hgood) as Hnb.
  (* a byte afterwards *)
  assert (∀ x o, 0 ≤ o < MAX_SIZE → byte_at L1 (bupd B1 b d) x o =
    if decide (x = ino ∧ a ≤ o < a + len chunk) then nth0 chunk (o - a) else byte_at L1 B1 x o) as Hbyte.
  { intros x o Hor. destruct (block_at_valid o Hor) as [Hv Hl]. pose proof (Z.mod_pos_bound o 1024 ltac:(lia)).
    pose proof (Z.div_mod a 1024 ltac:(lia)). pose proof (Z.div_mod o 1024 ltac:(lia)).
    unfold byte_at, block_at at 1 2. rewrite Ht by done. fold (block_at L1 B1 x o). unfold bupd.
    destruct (decide (block_at L1 B1 x o = b)) as [He|Hne].
    - rewrite He. rewrite (proj2 (Z.eqb_neq b 0)) by done.
      assert (x = ino ∧ o `div` 1024 = a `div` 1024) as [-> Hd].
      { assert (block_at L1 B1 x o ≠ 0) as Hnz by (by rewrite He). destruct (ow_inj _ _ _ Ho1 x ino _ _ Hv Hva Hnz He) as [-> Hp].
        split; [done|]. apply path_of_inj in Hp; [done|by apply logical_range..]. }
      unfold d. rewrite byte_splice by lia. destruct (decide (a mod 1024 ≤ o mod 1024 < a mod 1024 + len chunk)).
      + rewrite decide_True by lia. f_equal. lia.
      + by rewrite decide_False by lia.
    - rewrite decide_False; [done|]. intros [-> Hin]. apply Hne. unfold b, block_at. do 2 f_equal. symmetry.
      apply (Z.div_unique_pos _ _ _ (a mod 1024 + (o - a))); lia. }
  split.
  - by apply owned_frame.
  - apply bitmaps_frame; [done|apply (gr_bitmaps G)].
  - pose proof (gr_free G). rewrite (nfree_ext fs B1 (bupd B1 b d)); [done|]. intros x Hx. by apply used_frame.
  - intros x Hx Hu. rewrite used_frame by done. by apply (gr_used G).
  - apply (gr_others G).
  - intros x p Hp. rewrite Ht by done. destruct (decide (tree L B x p = 0)) as [Hz|Hne]; [|left; by apply (gr_same G)].
    destruct (decide (tree L1 B1 x p = 0)) as [Hz1|Hne1]; [left; congruence|right].
    destruct (gr_new G x p Hp Hz Hne1) as [-> [Hu|[_ []]]]. done.
  - intros x o Hx Hor. rewrite Hbyte, decide_False by (done || naive_solver). apply (grown_byte k ino); [done|done|done|by left].
  - intros o Hin. rewrite Hbyte by lia. by rewrite decide_True.
  - intros o Hor Hout Hm. rewrite Hbyte, decide_False by (done || naive_solver). apply (grown_byte k ino); [done|done|done|by right].
  - intros o Hin. unfold block_at. rewrite Ht by (apply block_at_valid; lia). replace (o `div` 1024) with (a `div` 1024); [done|].
    pose proof (Z.div_mod a 1024 ltac:(lia)). apply (Z.div_unique_pos _ _ _ (a mod 1024 + (o - a))); lia.
  - intros x Hxb Hu Hp. rewrite bupd_ne; [apply (gr_frame G); [done|done|intros p Hv _; by apply Hp]|].
    intros ->. destruct (decide (tree L B ino (path_of (a `div` 1024)) = 0)) as [Hz|Hne].
    + destruct (gr_new G ino _ Hva Hz Hb) as [_ [Hf|[_ []]]]. fold (block_at L1 B1 ino a) in Hf. fold b in Hf. rewrite Hu in Hf; [done|apply Hgood].
    + apply (Hp _ Hva Hne). symmetry. by apply (gr_same G).
Qed.

Lemma wrote_nil ino a L B : owned fs L B → bitmaps_ok fs B → wrote 0 ino a [] L B L B.
Proof.
  intros Ho Hb. split; try done; change (len []) with 0 in *; [lia|by left|lia|lia].
Qed.

(** The block a write goes to, allocated when the file has a hole there. *)
Lemma spec_target L B ino i l {A} (f : Inode * Z → io unit A) Q :
  owned fs L B → bitmaps_ok fs B → L ino = Some (i_block i) → 0 ≤ l < MAX_LOGICAL → 4 ≤ nfree fs B →
  (∀ i' L' B', grown none 4 ino L B L' B' → L' ino = Some (i_block i') → i' = set_block (i_block i') i →
    tree L' B' ino (path_of l) ≠ 0 → spec (f (i', tree L' B' ino (path_of l))) B' Q) →
  spec (b ← resolve_block fs i l;
        x ← (if b =? 0 then
               new_block ← alloc_block fs; i ← set_block_pointer fs i l new_block; ok (i, new_block)
             else ok (i, b)); f x) B Q.
Proof.
  intros Ho Hbm HL Hl Hf HQ. destruct (path_of_valid l Hl) as [Hv Hleaf].
  apply spec_bind, (spec_resolve_block fs lo L B ino); [done..|]. apply spec_bind.
  destruct (Z.eqb_spec (tree L B ino (path_of l)) 0) as [Hz|Hnz].
  2: { apply spec_ok, (HQ i L B); [|done|by destruct i|done]. apply (grown_mono fs none none 0); [done|lia|by apply grown_refl]. }
  apply spec_bind, spec_alloc_block; [exact lo|done|lia|]. intros b B1 Hall.
  destruct (grown_alloc fs lo none ino L B b B1 Ho Hbm Hall) as [G Hres]. destruct (good_range fs lo _ _ (proj1 Hres)) as (_ & _ & Hb0).
  pose proof Hall as (_ & Hub & Hbm1 & Hf1 & _ & Hfr). apply spec_bind.
  apply (spec_set_block_pointer fs lo L B1 ino); [apply G|done|done|done| |done|lia|].
  { rewrite <- Hz. apply tree_ext; [done| |done]. intros q Hq _ Hnq. by apply Hfr, (good_not_bitmap fs B), (ow_good _ _ _ Ho). }
  intros i' L' B' [G' Ht'] HL' Hi'. apply spec_ok. rewrite <- Ht' at 1. apply HQ; [|done|done|by rewrite Ht'].
  apply (grown_trans fs none (eq b) 1 3 ino L B L B1); [done|done|]. intros x <-. by right.
Qed.

Lemma set_block_twice i i1 i2 :
  i1 = set_block (i_block i1) i → i2 = set_block (i_block i2) i1 → i2 = set_block (i_block i2) i.
Proof. destruct i, i1, i2. unfold set_block. cbn. congruence. Qed.

Lemma splice_full l l' s : len l = 1024 → len l' = 1024 → len s = 1024 → splice l 0 s = splice l' 0 s.
Proof.
  intros. unfold splice, len in *. rewrite !drop_ge by lia. done.
Qed.

Lemma spec_write_loop fuel L B ino i offset data n Q :
  owned fs L B → bitmaps_ok fs B → L ino = Some (i_block i) → 0 ≤ offset → offset + len data ≤ MAX_SIZE → Forall is_byte data →
  0 ≤ n ≤ len data → (Z.to_nat (len data - n) < fuel)%nat →
  (n < len data → 4 * ((offset + len data - 1) `div` 1024 - (offset + n) `div` 1024 + 1) ≤ nfree fs B) →
  (∀ k i' L' B', wrote k ino (offset + n) (sub data n (len data - n)) L B L' B' → L' ino = Some (i_block i') →
    i' = set_block (i_block i') i → Q i' B') →
  spec (write_data_loop fs fuel i offset data n) B Q.
Proof.
  revert L B i n Q. induction fuel as [|fuel IH]; intros L B i n Q Ho Hbm HL Ha Hmax Hby Hn Hf Hfree HQ; [lia|].
  cbn [write_data_loop]. destruct (Z.leb_spec (len data) n) as [Hend|Hlt].
  { apply spec_ok, (HQ 0 i L B); [|done|by destruct i]. replace (len data - n) with 0 by lia. by apply wrote_nil. }
  set (o := offset + n) in *. assert (0 ≤ o < MAX_SIZE) as Hor by lia. pose proof (logical_range o Hor) as Hlr.
  assert (MAX_SIZE < 2 ^ 63) as Hms by done. assert (MAX_LOGICAL < 2 ^ 31) as Hml by done.
  apply (spec_lift_bind _ _ _ o); [apply add64_ok; unfold is_uint; lia|]. rewrite (lo_size fs lo). unfold udiv, urem.
  change (1024 =? 0) with false.
  apply (spec_lift_bind _ _ _ (o `div` 1024)); [done|]. apply (spec_lift_bind _ _ _ (o mod 1024)); [done|].
  unfold cast, wrap. rewrite (Z.mod_small (o `div` 1024)) by lia. pose proof (Z.mod_pos_bound o 1024 ltac:(lia)).
  set (m := Z.min (len data - n) (1024 - o mod 1024)). pose proof (Z.div_mod o 1024 ltac:(lia)).
  assert (o `div` 1024 ≤ (offset + len data - 1) `div` 1024) as Hle by (apply Z.div_le_mono; lia).
  specialize (Hfree Hlt). apply (spec_target L B ino i (o `div` 1024)); [done..|lia|]. intros i1 L1 B1 G HL1 Hi1 Hb.
  fold (block_at L1 B1 ino o) in Hb |- *. set (b := block_at L1 B1 ino o) in *. apply spec_wf. intros Hwf.
  destruct (good_range fs lo B1 b) as (Hbr & _); [apply (ow_good _ _ _ (gr_owned G)); [by apply block_at_valid|done]|].
  pose proof (Hwf b Hbr) as Hok. pose proof Hok as [Hl1 Hbb]. pose proof (len_sub data n m ltac:(lia) ltac:(lia) ltac:(lia)) as Hlc.
  (* read, modify, write *)
  apply spec_bind, (spec_mono _ _ _ _ (λ v B', B' = B1 ∧ len v = 1024 ∧ splice v (o mod 1024) (sub data n m) = splice (B1 b) (o mod 1024) (sub data n m))).
  { destruct ((o mod 1024 =? 0) && (m =? 1024)) eqn:E; [|by apply spec_read_block; [exact (lo_size fs lo)|..]].
    apply andb_true_iff in E as [E1%Z.eqb_eq E2%Z.eqb_eq]. apply spec_ok. split_and!; [done|by rewrite len_zeroes|].
    rewrite E1. apply splice_full; [by rewrite len_zeroes|done|lia]. }
  intros v B' (-> & Hlv & Hsp). apply (spec_lift_bind _ _ _ (sub data n m)); [apply slice_sub; lia|].
  apply (spec_lift_bind _ _ _ (splice v (o mod 1024) (sub data n m))); [apply copy_into_splice; lia|]. rewrite Hsp.
  apply spec_bind, spec_write_block; [exact (lo_size fs lo)|done| |].
  { split; [rewrite len_splice; lia|apply splice_bytes; [done|by apply sub_bytes]]. }
  pose proof (wrote_chunk 4 ino o (sub data n m) L B L1 B1 Ho G ltac:(lia) ltac:(lia) ltac:(lia) ltac:(lia) Hb Hok) as W. fold b in W.
  apply (IH L1 _ i1 (n + m)); [apply W|apply W|done|done|done|done|lia|lia| |].
  - intros Hmore. pose proof (wr_free W). replace (offset + (n + m)) with ((o `div` 1024 + 1) * 1024) by lia. rewrite Z.div_mul by lia. lia.
  - intros k i2 L2 B2 W2 HL2 Hi2. apply (HQ (4 + k) i2 L2); [|done|by apply (set_block_twice i i1)].
    replace (sub data n (len data - n)) with (sub data n m ++ sub data (n + m) (len data - (n + m))).
    + eapply (wrote_app 4 k ino o _ _ L B L1); [lia|rewrite Hlc, len_sub by lia; lia|exact W|].
      rewrite Hlc. by replace (o + m) with (offset + (n + m)) by lia.
    + apply bytes_eq; [rewrite len_app, !len_sub by lia; lia|]. rewrite len_app, !len_sub by lia. intros j Hj. unfold nth0 at 1.
      destruct (decide (j < m)).
      * rewrite lookup_app_l by (unfold len in *; lia). fold (nth0 (sub data n m) j). by rewrite !byte_sub by lia.
      * rewrite lookup_app_r by (unfold len in *; lia). replace (Z.to_nat j - length (sub data n m))%nat with (Z.to_nat (j - m)) by (unfold len in *; lia).
        fold (nth0 (sub data (n + m) (len data - (n + m))) (j - m)). rewrite !byte_sub by lia. f_equal. lia.
Qed.

End files.

(** ** The file system *)

Section filesystem.
Context `{BuildProfile} (fs : Ext2Fs) (lo : layout_ok fs).
Local Notation N := (blocks_count fs).
Local Notation spec := (spec fs N).
Implicit Types (L : files) (B : blocks) (i : Inode).

(** An inode that the bitmap marks. *)
Definition inode_used B (ino : Z) : bool :=
  (1 <=? ino) && (ino <=? ipg fs * groups fs) && bit (B (inode_bitmap fs ((ino - 1) `div` ipg fs))) ((ino - 1) mod ipg fs).

(** A symbolic link that keeps its target in place of the pointers. *)
Definition fast_symlink i : bool := Inode_is_symlink i && (Inode_size i <=? FAST_SYMLINK_MAX) && (i_blocks i =? 0).

(** The files of a disk: the marked inodes that have blocks. *)
Definition live_files B : files := λ ino,
  if inode_used B ino && negb (fast_symlink (inode_at fs B ino)) then Some (i_block (inode_at fs B ino)) else None.

Definition fs_ok B : Prop := owned fs (live_files B) B ∧ bitmaps_ok fs B.

Definition file_size B (ino : Z) : Z := Inode_size (inode_at fs B ino).
Definition file B (ino : Z) : list Z := content (live_files B) B ino 0 (file_size B ino).

(** A file without holes. *)
Definition dense B (ino : Z) : Prop := ∀ o, 0 ≤ o < file_size B ino → block_at (live_files B) B ino o ≠ 0.

(** *** Inodes *)

Lemma u16_sub l o : Forall is_byte l → 0 ≤ o → o + 2 ≤ len l → is_uint 16 (le_val (sub l o 2)).
Proof. intros Hl ? ?. pose proof (le_val_bound _ (sub_bytes l o 2 Hl)) as Hb. rewrite len_sub in Hb by lia. exact Hb. Qed.
Lemma u32_sub l o : Forall is_byte l → 0 ≤ o → o + 4 ≤ len l → is_uint 32 (le_val (sub l o 4)).
Proof. intros Hl ? ?. pose proof (le_val_bound _ (sub_bytes l o 4 Hl)) as Hb. rewrite len_sub in Hb by lia. exact Hb. Qed.

Lemma parse_inode_ok l : Forall is_byte l → len l = 128 → inode_ok (parse_inode l).
Proof.
  intros Hb Hl. unfold parse_inode, inode_ok. cbn [i_mode i_uid i_size_low i_atime i_ctime i_mtime i_dtime i_gid i_nlink i_blocks i_block i_size_high].
  split_and!; try (apply u16_sub; (done || lia)); try (apply u32_sub; (done || lia)).
  - done.
  - unfold words_at. apply Forall_fmap, Forall_seqZ. intros k Hk. simpl. apply u32_sub; [done|lia..].
Qed.

Lemma inode_at_ok B ino : valid_inode fs ino → block_ok (B (inode_block fs ino)) → inode_ok (inode_at fs B ino).
Proof.
  intros Hi [Hl Hb]. destruct (inode_slot fs lo ino) as (k & ? & ? & ?).
  assert (128 ≤ inode_bytes_size fs) by (unfold inode_bytes_size, INODE_SIZE; lia).
  apply parse_inode_ok; [by apply sub_bytes|]. rewrite len_sub by nia. done.
Qed.

Lemma live_valid B ino ws : live_files B ino = Some ws → valid_inode fs ino ∧ ws = i_block (inode_at fs B ino).
Proof.
  unfold live_files, inode_used. destruct (_ && _) eqn:E; [|done]. intros [= <-].
  rewrite !andb_true_iff, !Z.leb_le in E. unfold valid_inode. split; [lia|done].
Qed.

(** The size of a regular file. *)
Lemma size_range i : inode_ok i → 0 ≤ Inode_size i < 2 ^ 64.
Proof.
  intros (_ & _ & Hs & _ & _ & _ & _ & _ & _ & _ & _ & _ & Hh). unfold is_uint in *. unfold Inode_size. destruct (Inode_is_dir i); [lia|].
  rewrite Z.lor_comm, lor_shiftl_add by (done || lia). lia.
Qed.

Lemma size_set_size e i : Inode_is_dir i = false → 0 ≤ e < 2 ^ 64 →
  Inode_size (set_size (Z.land e 0xFFFFFFFF) (Z.land (Z.shiftr e 32) 0xFFFFFFFF) i) = e.
Proof.
  intros Hd He. unfold Inode_size. replace (Inode_is_dir (set_size _ _ i)) with (Inode_is_dir i) by done. rewrite Hd.
  cbn [set_size i_size_low i_size_high]. change 0xFFFFFFFF with (2 ^ 32 - 1). rewrite shiftr_land_mask, land_mask by lia.
  rewrite (Z.mod_small (e `div` 2 ^ 32)) by (split; [apply Z.div_pos; lia|apply Z.div_lt_upper_bound; lia]).
  pose proof (Z.mod_pos_bound e (2 ^ 32) ltac:(lia)). rewrite Z.lor_comm, lor_shiftl_add by (lia || unfold is_uint; lia).
  pose proof (Z.div_mod e (2 ^ 32)). lia.
Qed.

Lemma reg_not_dir i : Inode_is_reg i = true → Inode_is_dir i = false ∧ Inode_is_symlink i = false.
Proof. unfold Inode_is_reg, Inode_is_dir, Inode_is_symlink. intros ->%Z.eqb_eq. done. Qed.

(** *** Reading a file *)

Lemma spec_ext2_read B ino offset n Q :
  fs_ok B → is_Some (live_files B ino) → file_size B ino ≤ MAX_SIZE → 0 ≤ offset → 0 ≤ n →
  Q (sub (file B ino) offset n) B → spec (ext2_read fs ino offset n) B Q.
Proof.
  intros [Ho Hbm] [ws HL] Hs Ha Hn HQ. destruct (live_valid _ _ _ HL) as [Hv ->]. unfold ext2_read. pose proof Hv as [? ?].
  pose proof (lo_inodes fs lo). unfold inode_num_of. rewrite (proj2 (Z.leb_le _ _)) by (unfold u32_max; lia).
  apply spec_bind, spec_ok, spec_bind, spec_map_err, spec_read_inode; [exact lo|done|]. apply spec_wf. intros Hwf.
  pose proof (inode_at_ok B ino Hv (Hwf _ (in_disk_range fs lo _ (lo_table fs lo ino Hv)))) as Hok.
  pose proof (size_range _ Hok). apply spec_map_err, (spec_read_inode_data fs lo (live_files B) B ino); [done|done|done|done|unfold file_size in *; lia|done].
Qed.

(** *** Writing an inode leaves the blocks of files alone *)

Lemma table_not_bitmap ino : valid_inode fs ino → ¬ is_block_bitmap fs (inode_block fs ino).
Proof. intros Hv (g & Hg & He). by apply (lo_bbm_table fs lo g ino). Qed.

Lemma table_not_inode_bitmap ino g : valid_inode fs ino → 0 ≤ g < groups fs → inode_bitmap fs g ≠ inode_block fs ino.
Proof. intros Hv Hg. by apply (lo_ibm_table fs lo). Qed.

Lemma tree_put_inode L B ino i x p :
  owned fs L B → valid_inode fs ino → valid_path p → tree L (put_inode fs B ino i) x p = tree L B x p.
Proof.
  intros Ho Hv. apply tree_ext; [done|]. intros q Hq _ Hne. unfold put_inode. apply bupd_ne. intros He.
  destruct (ow_good _ _ _ Ho _ _ Hq Hne) as (_ & Hm & _). apply Hm. right. right. by exists ino.
Qed.

Lemma owned_put_inode L B ino i : owned fs L B → valid_inode fs ino → owned fs L (put_inode fs B ino i).
Proof. intros Ho Hv. apply owned_frame; [exact lo|by apply table_not_bitmap|done|]. intros. by apply tree_put_inode. Qed.

Lemma byte_put_inode L B ino i x o :
  owned fs L B → valid_inode fs ino → 0 ≤ o < MAX_SIZE → byte_at L (put_inode fs B ino i) x o = byte_at L B x o.
Proof.
  intros Ho Hv Hr. destruct (block_at_valid o Hr) as [Hp _]. unfold byte_at, block_at. rewrite tree_put_inode by done.
  destruct (Z.eqb_spec (tree L B x (path_of (o `div` 1024))) 0) as [|Hne]; [done|]. unfold put_inode. rewrite bupd_ne; [done|]. intros He.
  destruct (ow_good _ _ _ Ho _ _ Hp Hne) as (_ & Hm & _). apply Hm. right. right. by exists ino.
Qed.

Lemma owned_same L L' B : (∀ x, L' x = L x) → owned fs L B → owned fs L' B.
Proof.
  intros HL Ho. assert (∀ x p, tree L' B x p = tree L B x p) as Ht by (intros; unfold tree; by rewrite HL).
  split; [intros x ws; rewrite HL; apply Ho|intros x p; rewrite Ht; apply Ho|intros x y p q; rewrite !Ht; apply Ho].
Qed.

(** The blocks that a write to a file does not touch. *)
Lemma wrote_meta k ino a bytes L B L' B' x :
  owned fs L B → bitmaps_ok fs B → wrote fs k ino a bytes L B L' B' → is_meta fs x → ¬ is_block_bitmap fs x → B' x = B x.
Proof.
  intros Ho [Hm _] W Hx Hnb. apply (wr_frame _ _ _ _ _ _ _ _ _ W); [done|intros Hd; by apply Hm|].
  intros p Hp Hne <-. by apply (ow_good _ _ _ Ho) in Hne as (_ & Hn & _).
Qed.

(** The inode after a write that ends at [e]. *)
Definition written_inode i (e : Z) : Inode :=
  let i := if Inode_size i <? e then set_size (Z.land e 0xFFFFFFFF) (Z.land (Z.shiftr e 32) 0xFFFFFFFF) i else i in
  set_blocks (cast 32 (div_ceil (Inode_size i) 512)) i.

Lemma written_inode_ok i e :
  inode_ok i → Inode_is_dir i = false → 0 ≤ e < 2 ^ 64 →
  inode_ok (written_inode i e) ∧ Inode_size (written_inode i e) = Z.max (Inode_size i) e ∧
  i_block (written_inode i e) = i_block i ∧ i_mode (written_inode i e) = i_mode i.
Proof.
  intros Hok Hd He. unfold written_inode. pose proof (size_set_size e i Hd He) as Hs.
  assert (is_uint 32 (Z.land e 0xFFFFFFFF) ∧ is_uint 32 (Z.land (Z.shiftr e 32) 0xFFFFFFFF)) as [Hlo Hhi].
  { unfold is_uint. change 0xFFFFFFFF with (2 ^ 32 - 1). rewrite !land_mask by lia. split; apply Z.mod_pos_bound; lia. }
  assert (∀ x, is_uint 32 (cast 32 x)) as Hc by (intros; apply Z.mod_pos_bound; lia).
  destruct (Z.ltb_spec (Inode_size i) e); split_and!.
  - unfold inode_ok, set_blocks, set_size in *. cbn in *. naive_solver.
  - change (Inode_size (set_blocks ?n ?j)) with (Inode_size j). lia.
  - done.
  - done.
  - unfold inode_ok, set_blocks in *. cbn in *. naive_solver.
  - change (Inode_size (set_blocks ?n ?j)) with (Inode_size j). lia.
  - done.
  - done.
Qed.

End filesystem.
