(* ===== verification/Ext2Sample.v ===== *)
(** * A small ext2 disk

    A disk of 64 blocks with one group, the root directory and one file of
    five bytes, on which the theorems of the file system are instantiated. The
    free blocks hold the byte 238, as blocks of a deleted file would. *)

From stdpp Require Import strings.
From S2P Require Import Prelude Bytes BlockCache Vfs Ext2 Ext2Store Ext2Disk Ext2Alloc Ext2Tree Ext2Map Ext2Files.
Local Open Scope Z_scope.
#[local] Existing Instance release_profile.

Definition pad (n : nat) (l : list Z) : list Z := take n (l ++ replicate n 0).

(** The superblock, with the fields in the order of the disk. *)
Definition sample_superblock : list Z := pad 1024 (
  mjoin (le_bytes 4 <$> [16; 64; 0; 55; 4; 1; 0; 0; 8192; 8192; 16; 0; 0]) ++
  mjoin (le_bytes 2 <$> [0; 0; EXT2_MAGIC; 1; 1; 0]) ++ mjoin (le_bytes 4 <$> [0; 0; 0; 1]) ++
  mjoin (le_bytes 2 <$> [0; 0]) ++ le_bytes 4 11 ++ le_bytes 2 128).
Definition sample_group : list Z := pad 1024 (mjoin (le_bytes 4 <$> [3; 4; 5]) ++ mjoin (le_bytes 2 <$> [55; 4; 1])).

(** Blocks 1 to 8 are in use, 64 and above do not exist; inodes 1 to 11 are in
    use, 16 is the last. *)
Definition sample_block_bitmap : list Z := pad 1024 ([255] ++ replicate 6 0 ++ [128] ++ replicate 1016 255).
Definition sample_inode_bitmap : list Z := pad 1024 ([255; 7] ++ replicate 1022 255).

Definition SAMPLE_FILE : Z := 11.
Definition sample_root : Inode := fresh_inode (Z.lor S_IFDIR 0x1ED) 1024 2 2 (7 :: replicate 14 0).
Definition sample_inode : Inode := fresh_inode (Z.lor S_IFREG 0x1A4) 5 2 1 (8 :: replicate 14 0).
Definition sample_table : list Z := pad 1024 (replicate 128 0 ++ inode_bytes sample_root).
Definition sample_table2 : list Z := pad 1024 (replicate 256 0 ++ inode_bytes sample_inode).

Definition sample_root_block : list Z :=
  match new_dir_block 2 2 with Ret l => l | Panic => [] end.

Definition sample_blocks : list (list Z) :=
  [zeroes 1024; sample_superblock; sample_group; sample_block_bitmap; sample_inode_bitmap; sample_table; sample_table2;
   sample_root_block; pad 1024 [104; 101; 108; 108; 111]] ++ replicate 55 (replicate 1024 238).

Definition sample : blocks := λ b, default [] (sample_blocks !! Z.to_nat b).

Definition sample_view : disk_view := λ '(dev, l),
  if decide (dev = 0%nat ∧ 0 ≤ l < 128) then
    Some (if l mod 2 =? 0 then take 512 (sample (l `div` 2)) else drop 512 (sample (l `div` 2)))
  else None.

Definition sample_fs : Ext2Fs := Eval vm_compute in
  match run 0 (Ext2Fs_open 0) sample_view with
  | Ret (Ok fs, _) => fs
  | _ => mkExt2Fs 0 (mkSuperblock 0 0 0 0 0 0 0 0 0 0 0 0 0 0 0 0 0 0 0 0 0 0 0 0 0 0 0 0 0 0 0) [] 0
  end.

(** Checking a property of every number of a range. *)
Lemma range_ok (f : Z → bool) a n : forallb f (seqZ a n) = true → ∀ x, a ≤ x < a + n → f x = true.
Proof. intros Hf x Hx. rewrite forallb_forall in Hf. apply Hf, list_elem_of_In, elem_of_seqZ. lia. Qed.

Lemma sample_inodes ino : valid_inode sample_fs ino → 1 ≤ ino < 1 + 16.
Proof. unfold valid_inode. change (ipg sample_fs * groups sample_fs) with 16. lia. Qed.

Lemma sample_groups g : 0 ≤ g < groups sample_fs → g = 0.
Proof. change (groups sample_fs) with 1. lia. Qed.

Lemma sample_table_at ino : valid_inode sample_fs ino →
  inode_block sample_fs ino = 5 + (ino - 1) `div` 8 ∧ inode_offset sample_fs ino = (ino - 1) mod 8 * 128.
Proof.
  intros Hi%sample_inodes.
  pose proof (range_ok (λ ino, (inode_block sample_fs ino =? 5 + (ino - 1) `div` 8) && (inode_offset sample_fs ino =? (ino - 1) mod 8 * 128))
    1 16 ltac:(vm_compute; reflexivity) ino Hi) as He. by rewrite andb_true_iff, !Z.eqb_eq in He.
Qed.

Lemma sample_layout : layout_ok sample_fs.
Proof.
  assert (∀ ino, valid_inode sample_fs ino → 5 ≤ inode_block sample_fs ino ≤ 6) as Ht.
  { intros ino Hi. destruct (sample_table_at ino Hi) as [-> _]. apply sample_inodes in Hi.
    pose proof (Z.div_mod (ino - 1) 8 ltac:(lia)). pose proof (Z.mod_pos_bound (ino - 1) 8 ltac:(lia)). lia. }
  split; try (vm_compute; (done || split; done)).
  - intros ino Hi. specialize (Ht ino Hi). unfold in_disk. change (first_block sample_fs) with 1. change (blocks_count sample_fs) with 64. lia.
  - intros g ->%sample_groups. done.
  - intros g ->%sample_groups. done.
  - intros g g' ->%sample_groups ->%sample_groups. done.
  - intros g g' ->%sample_groups ->%sample_groups. done.
  - intros g g' ->%sample_groups ->%sample_groups. done.
  - intros g ino ->%sample_groups Hi. change (block_bitmap sample_fs 0) with 3. specialize (Ht ino Hi). lia.
  - intros g ino ->%sample_groups Hi. change (inode_bitmap sample_fs 0) with 4. specialize (Ht ino Hi). lia.
  - intros ino ino' Hi Hi'. destruct (sample_table_at ino Hi) as [-> ->], (sample_table_at ino' Hi') as [-> ->]. intros.
    pose proof (Z.div_mod (ino - 1) 8 ltac:(lia)). pose proof (Z.div_mod (ino' - 1) 8 ltac:(lia)). lia.
Qed.

Lemma sample_rep : rep sample_fs (blocks_count sample_fs) sample_view sample.
Proof.
  change (blocks_count sample_fs) with 64. intros b Hb.
  pose proof (range_ok (λ b, (len (sample b) =? 1024) && forallb (λ x, (0 <=? x) && (x <? 256)) (sample b)) 0 64 ltac:(vm_compute; reflexivity) b Hb) as Hk.
  rewrite andb_true_iff, Z.eqb_eq, forallb_forall in Hk. destruct Hk as [Hl Hf]. split_and!.
  - split; [done|]. apply list.Forall_forall. intros x Hx%list_elem_of_In%Hf. rewrite andb_true_iff, Z.leb_le, Z.ltb_lt in Hx. done.
  - change (e_device_idx sample_fs) with 0%nat. unfold sample_view. rewrite decide_True by lia.
    replace ((2 * b) mod 2) with 0 by (by rewrite Z.mul_comm, Z.mod_mul). replace ((2 * b) `div` 2) with b by (by rewrite Z.mul_comm, Z.div_mul). done.
  - change (e_device_idx sample_fs) with 0%nat. unfold sample_view. rewrite decide_True by lia.
    replace ((2 * b + 1) mod 2) with 1 by (by rewrite Z.add_comm, Z.mul_comm, Z.mod_add).
    replace ((2 * b + 1) `div` 2) with b by (by rewrite Z.add_comm, Z.mul_comm, Z.div_add). done.
Qed.

(** The pointers of the files: the root directory has block 7, the file block 8. *)
Definition sample_pointers (ino : Z) : list Z :=
  if ino =? 2 then 7 :: replicate 14 0 else if ino =? SAMPLE_FILE then 8 :: replicate 14 0 else replicate 15 0.

Lemma sample_live ino : live_files sample_fs sample ino = if decide (1 ≤ ino ≤ 11) then Some (sample_pointers ino) else None.
Proof.
  case_decide as Hi.
  - assert (forallb (λ ino, bool_decide (live_files sample_fs sample ino = Some (sample_pointers ino))) (seqZ 1 11) = true) as Hk by (by vm_compute).
    pose proof (range_ok _ _ _ Hk ino ltac:(lia)) as He. by rewrite bool_decide_eq_true in He.
  - unfold live_files, inode_used. change (ipg sample_fs * groups sample_fs) with 16.
    destruct (decide (12 ≤ ino ≤ 16)) as [Hr|Hr].
    + pose proof (range_ok (λ ino, negb (inode_used sample_fs sample ino)) 12 5 ltac:(vm_compute; reflexivity) ino ltac:(lia)) as Hk.
      apply negb_true_iff in Hk. unfold inode_used in Hk. change (ipg sample_fs * groups sample_fs) with 16 in Hk. by rewrite Hk.
    + destruct (Z.leb_spec 1 ino), (Z.leb_spec ino 16); done || lia.
Qed.

Lemma sample_tree ino p : valid_path p → tree (live_files sample_fs sample) sample ino p ≠ 0 →
  p = [0] ∧ (ino = 2 ∧ tree (live_files sample_fs sample) sample ino p = 7 ∨
             ino = SAMPLE_FILE ∧ tree (live_files sample_fs sample) sample ino p = 8).
Proof.
  unfold tree. rewrite sample_live. destruct p as [|r rest]; [done|]. intros (Hr & Hd & _). case_decide as Hi; [|done].
  cbn [ptr]. assert (∀ x ws, ws = x :: replicate 14 0 → follow sample (nth0 ws r) rest ≠ 0 → r = 0) as Hz.
  { intros x ws -> Hf. destruct (decide (r = 0)) as [|Hne]; [done|]. exfalso. apply Hf.
    pose proof (range_ok (λ r, nth0 (x :: replicate 14 0) r =? 0) 1 14 eq_refl r ltac:(lia)) as Hk. apply Z.eqb_eq in Hk. rewrite Hk. by destruct rest. }
  unfold sample_pointers. destruct (Z.eqb_spec ino 2) as [->|H2]; [|destruct (Z.eqb_spec ino SAMPLE_FILE) as [->|H3]];
    intros Hf; pose proof (Hz _ _ eq_refl Hf); subst r; (destruct rest; [|unfold depth in Hd; simpl in Hd; lia]); [auto..|done].
Qed.

Lemma sample_good b : b = 7 ∨ b = 8 → good sample_fs sample b.
Proof.
  intros Hb. split_and!.
  - unfold in_disk. change (first_block sample_fs) with 1. change (blocks_count sample_fs) with 64. lia.
  - intros [(g & ->%sample_groups & E)|[(g & ->%sample_groups & E)|(ino & Hi & E)]].
    + change (block_bitmap sample_fs 0) with 3 in E. lia.
    + change (inode_bitmap sample_fs 0) with 4 in E. lia.
    + destruct (sample_table_at ino Hi) as [Hb' _]. apply sample_inodes in Hi.
      pose proof (Z.div_mod (ino - 1) 8 ltac:(lia)). pose proof (Z.mod_pos_bound (ino - 1) 8 ltac:(lia)). lia.
  - by destruct Hb as [-> | ->]; vm_compute.
Qed.

Lemma sample_bitmaps : bitmaps_ok sample_fs sample.
Proof.
  split.
  - intros b Hb Hm. destruct (decide (b ≤ 8)) as [Hl|Hl].
    + unfold in_disk in Hb. change (first_block sample_fs) with 1 in Hb.
      apply (range_ok (used sample_fs sample) 1 8); [vm_compute; reflexivity|lia].
    + destruct Hm as [(g & ->%sample_groups & E)|[(g & ->%sample_groups & E)|(ino & Hi & E)]].
      * change (block_bitmap sample_fs 0) with 3 in E. lia.
      * change (inode_bitmap sample_fs 0) with 4 in E. lia.
      * destruct (sample_table_at ino Hi) as [Hb' _]. apply sample_inodes in Hi.
        pose proof (Z.div_mod (ino - 1) 8 ltac:(lia)). pose proof (Z.mod_pos_bound (ino - 1) 8 ltac:(lia)). lia.
  - intros g k ->%sample_groups Hk Ho. change (bpg sample_fs) with 8192 in Ho. change (first_block sample_fs) with 1 in Ho.
    change (blocks_count sample_fs) with 64 in Ho. change (block_bitmap sample_fs 0) with 3.
    apply (range_ok (λ k, bit sample_block_bitmap k) 63 8129); [vm_compute; reflexivity|lia].
Qed.

Lemma sample_fs_ok : fs_ok sample_fs sample.
Proof.
  split; [|exact sample_bitmaps]. split.
  - intros ino ws. rewrite sample_live. case_decide; [|done]. intros [= <-]. unfold sample_pointers.
    destruct (ino =? 2), (ino =? SAMPLE_FILE); (split; [done|repeat constructor; unfold is_uint; lia]).
  - intros ino p Hp Hne. destruct (sample_tree ino p Hp Hne) as [-> [[_ ->] | [_ ->]]]; apply sample_good; auto.
  - intros ino ino' p p' Hp Hp' Hne He. assert (tree (live_files sample_fs sample) sample ino' p' ≠ 0) as Hne' by congruence.
    destruct (sample_tree ino p Hp Hne) as [-> [[-> E] | [-> E]]], (sample_tree ino' p' Hp' Hne') as [-> [[-> E'] | [-> E']]]; (done || congruence).
Qed.
