(* ===== verification/Ext2Proofs.v ===== *)
(** * Ext2Proofs: reading and writing the files of an ext2 disk

    What a write through the file system does to the whole disk: the bytes of
    the written file, its size, and every other file; on the disk itself and
    through the sector cache. *)

From stdpp Require Import strings.
From S2P Require Import Prelude Bytes BlockCache Vfs Ext2 Ext2Store Ext2Cache Ext2Disk Ext2Alloc Ext2Tree Ext2Map Ext2Files Ext2Sample.
Local Open Scope Z_scope.

Section write.
Context `{BuildProfile} (fs : Ext2Fs) (lo : layout_ok fs).
Local Notation N := (blocks_count fs).
Local Notation spec := (spec fs N).
Implicit Types (L : files) (B : blocks) (i : Inode).

(** The files of the disk after the blocks of [ino] changed and its inode was
    written back. *)
Lemma live_files_put B B2 ino i x :
  is_Some (live_files fs B ino) → (∀ b, is_meta fs b → ¬ is_block_bitmap fs b → B2 b = B b) →
  len (B2 (inode_block fs ino)) = 1024 → inode_ok i → Inode_is_symlink i = false →
  live_files fs (put_inode fs B2 ino i) x = if decide (x = ino) then Some (i_block i) else live_files fs B x.
Proof.
  intros [ws HL] Hm Hl Hok Hs. destruct (live_valid fs _ _ _ HL) as [Hv _].
  assert (∀ y, inode_used fs (put_inode fs B2 ino i) y = inode_used fs B y) as Hu.
  { intros y. unfold inode_used. destruct ((1 <=? y) && (y <=? ipg fs * groups fs)) eqn:E; [|done]. cbn [andb].
    rewrite andb_true_iff, !Z.leb_le in E. pose proof (inode_group fs lo y E) as Hg. unfold put_inode.
    rewrite bupd_ne by (by apply (table_not_inode_bitmap fs lo)). rewrite Hm; [done|right; left; by eexists|].
    intros (g & Hg' & He). by apply (lo_bbm_ibm fs lo g _ Hg' Hg). }
  unfold live_files. rewrite Hu. destruct (decide (x = ino)) as [->|Hne].
  - rewrite (inode_at_put fs lo), decide_True by done. unfold live_files in HL. destruct (inode_used fs B ino); [|done].
    unfold fast_symlink. by rewrite Hs.
  - destruct (inode_used fs B x) eqn:E; [|done]. assert (valid_inode fs x) as Hx.
    { unfold inode_used in E. rewrite !andb_true_iff, !Z.leb_le in E. unfold valid_inode. lia. }
    rewrite (inode_at_put fs lo), decide_False by done. unfold inode_at. rewrite Hm; [done|right; right; by exists x|by apply (table_not_bitmap fs lo)].
Qed.

Lemma inode_at_frame B B2 ino i x :
  (∀ b, is_meta fs b → ¬ is_block_bitmap fs b → B2 b = B b) → valid_inode fs ino → valid_inode fs x →
  len (B2 (inode_block fs ino)) = 1024 → inode_ok i →
  inode_at fs (put_inode fs B2 ino i) x = if decide (x = ino) then i else inode_at fs B x.
Proof.
  intros Hm Hv Hx Hl Hok. rewrite (inode_at_put fs lo) by done. case_decide; [done|]. unfold inode_at.
  by rewrite Hm; [|right; right; exists x|apply (table_not_bitmap fs lo)].
Qed.

(** A splice that may extend the list. *)
Lemma len_splice_max l a s : 0 ≤ a ≤ len l → len (splice l a s) = Z.max (len l) (a + len s).
Proof. unfold splice, len. intros. rewrite !length_app, length_take, length_drop. lia. Qed.

Lemma byte_splice_max l a s j : 0 ≤ a ≤ len l → 0 ≤ j →
  nth0 (splice l a s) j = if decide (a ≤ j < a + len s) then nth0 s (j - a) else nth0 l j.
Proof.
  unfold splice, nth0, len. intros Ha Hj.
  destruct (decide (j < a)).
  { rewrite lookup_app_l by (rewrite length_take; lia). rewrite lookup_take_lt, decide_False by lia. done. }
  rewrite lookup_app_r by (rewrite length_take; lia). rewrite length_take. case_decide.
  - rewrite lookup_app_l by lia. do 2 f_equal. lia.
  - rewrite lookup_app_r by lia. rewrite lookup_drop. do 2 f_equal. lia.
Qed.

Lemma sub_all l : sub l 0 (len l) = l.
Proof. unfold sub, len. rewrite drop_0. apply take_ge. lia. Qed.

(** The state of the disk after [bytes] were written to [ino] at [a]. *)
Record file_written B ino a bytes B' : Prop := {
  fw_ok : fs_ok fs B';
  fw_live x : live_files fs B' x = live_files fs B x ∨ x = ino ∧ is_Some (live_files fs B' x);
  fw_reg : Inode_is_reg (inode_at fs B' ino) = true;
  fw_size : file_size fs B' ino = Z.max (file_size fs B ino) (a + len bytes);
  fw_dense : dense fs B' ino;
  fw_file : file fs B' ino = splice (file fs B ino) a bytes;
  fw_inode x : valid_inode fs x → x ≠ ino → inode_at fs B' x = inode_at fs B x;
  fw_others x : valid_inode fs x → x ≠ ino → file_size fs B x ≤ MAX_SIZE → file fs B' x = file fs B x;
}.

Lemma byte_at_same L L' B x o : (∀ y, L' y = L y) → byte_at L' B x o = byte_at L B x o.
Proof. intros HL. unfold byte_at, block_at, tree. by rewrite HL. Qed.

Lemma block_at_same L L' B x o : (∀ y, L' y = L y) → block_at L' B x o = block_at L B x o.
Proof. intros HL. unfold block_at, tree. by rewrite HL. Qed.

Lemma file_ext B B' x :
  file_size fs B' x = file_size fs B x → (∀ o, 0 ≤ o < file_size fs B x → byte_at (live_files fs B') B' x o = byte_at (live_files fs B) B x o) →
  file fs B' x = file fs B x.
Proof.
  intros Hs Hb. unfold file, content. rewrite Hs. apply list_fmap_ext. intros j o Ho. apply lookup_seqZ in Ho as [-> Hj]. apply Hb. lia.
Qed.

Lemma file_written_intro k B ino a bytes i L2 B2 i2 :
  fs_ok fs B → live_files fs B ino = Some (i_block i) → i = inode_at fs B ino → inode_ok i →
  Inode_is_reg i = true → dense fs B ino → 0 ≤ a ≤ Inode_size i → a + len bytes ≤ MAX_SIZE → Inode_size i ≤ MAX_SIZE →
  wrote fs k ino a bytes (live_files fs B) B L2 B2 → L2 ino = Some (i_block i2) →
  i2 = set_block (i_block i2) i → len (B2 (inode_block fs ino)) = 1024 →
  inode_ok (written_inode i2 (a + len bytes)) ∧
  file_written B ino a bytes (put_inode fs B2 ino (written_inode i2 (a + len bytes))).
Proof.
  intros [Ho Hbm] HL Hi Hok Hreg Hd Ha Hmax Hs W HL2 Hi2 Hlen. destruct (live_valid fs _ _ _ HL) as [Hv _].
  assert (∀ b, is_meta fs b → ¬ is_block_bitmap fs b → B2 b = B b) as Hm by (intros; by eapply (wrote_meta fs)).
  pose proof (wr_owned _ _ _ _ _ _ _ _ _ W) as Ho2. destruct (reg_not_dir _ Hreg) as [Hnd Hns].
  assert (inode_ok i2) as Hok2.
  { destruct (ow_ws _ _ _ Ho2 _ _ HL2) as [? ?]. rewrite Hi2. unfold inode_ok in *. cbn. naive_solver. }
  assert (i_mode i2 = i_mode i ∧ Inode_size i2 = Inode_size i) as [Hmode Hsz] by (by rewrite Hi2).
  assert (MAX_SIZE < 2 ^ 63) by done. assert (0 ≤ len bytes) by (unfold len; lia).
  destruct (written_inode_ok i2 (a + len bytes)) as (Hok3 & Hs3 & Hb3 & Hm3); [done|unfold Inode_is_dir in *; by rewrite Hmode|lia|].
  split; [done|]. set (i3 := written_inode i2 (a + len bytes)) in *. set (B3 := put_inode fs B2 ino i3).
  assert (Inode_is_reg i3 = true ∧ Inode_is_symlink i3 = false) as [Hreg3 Hns3].
  { unfold Inode_is_reg, Inode_is_symlink in *. by rewrite Hm3, Hmode. }
  assert (∀ x, live_files fs B3 x = L2 x) as HL3.
  { intros x. unfold B3. rewrite (live_files_put B) by (done || by eexists). case_decide as Hx; [by rewrite Hx, HL2, Hb3|].
    symmetry. by apply (wr_others _ _ _ _ _ _ _ _ _ W). }
  assert (∀ x, valid_inode fs x → inode_at fs B3 x = if decide (x = ino) then i3 else inode_at fs B x) as Hat.
  { intros x Hx. by apply inode_at_frame. }
  assert (∀ x o, 0 ≤ o < MAX_SIZE → byte_at (live_files fs B3) B3 x o = byte_at L2 B2 x o) as Hbyte.
  { intros x o Hor. rewrite (byte_at_same L2) by done. by apply (byte_put_inode fs). }
  assert (file_size fs B3 ino = Z.max (Inode_size i) (a + len bytes)) as Hfs.
  { unfold file_size. rewrite Hat, decide_True, Hs3, Hsz by done. done. }
  assert (file_size fs B ino = Inode_size i) as Hfs0 by (unfold file_size; by rewrite <- Hi).
  split.
  - split; [apply (owned_same fs L2); [done|by apply owned_put_inode]|].
    apply bitmaps_frame; [done|by apply table_not_bitmap|by apply W].
  - intros x. rewrite HL3. destruct (decide (x = ino)) as [->|Hne]; [right; by rewrite HL2|left; by apply W].
  - by rewrite Hat, decide_True.
  - by rewrite Hfs, Hfs0.
  - intros o Hor. rewrite Hfs in Hor. rewrite (block_at_same L2) by done. unfold block_at.
    unfold B3. rewrite (tree_put_inode fs) by (done || apply block_at_valid; lia). fold (block_at L2 B2 ino o).
    destruct (decide (a ≤ o < a + len bytes)); [by eapply wr_mapped|].
    apply (wr_stays _ W); [apply block_at_valid; lia|]. apply (Hd o). lia.
  - assert (len (file fs B ino) = Inode_size i) as Hl0 by (unfold file; rewrite len_content; lia).
    apply bytes_eq; [rewrite len_splice_max, Hl0 by lia; unfold file; rewrite Hfs, len_content by lia; done|].
    unfold file at 1. rewrite Hfs, len_content by lia. intros j Hj. unfold file at 1. rewrite Hfs, nth0_content, Hbyte by lia.
    rewrite byte_splice_max by lia. case_decide.
    + by apply (wr_new _ _ _ _ _ _ _ _ _ W).
    + unfold file. rewrite nth0_content by lia. apply (wr_old _ _ _ _ _ _ _ _ _ W); [lia|lia|]. apply Hd. lia.
  - intros x Hx Hne. by rewrite Hat, decide_False.
  - intros x Hx Hne Hsx. apply file_ext; [unfold file_size; by rewrite Hat, decide_False|]. intros o Hor. rewrite Hbyte by lia.
    apply (wr_file _ _ _ _ _ _ _ _ _ W); [done|lia].
Qed.

(** The blocks that a write of [n] bytes at [a] covers, four new blocks for
    each at most: the block itself and those that map it. *)
Definition space_for (a n : Z) : Z := 4 * ((a + n - 1) `div` 1024 - a `div` 1024 + 1).

Lemma spec_ext2_write B ino a bytes Q :
  fs_ok fs B → is_Some (live_files fs B ino) → Inode_is_reg (inode_at fs B ino) = true → dense fs B ino →
  0 ≤ a ≤ file_size fs B ino → a + len bytes ≤ MAX_SIZE → file_size fs B ino ≤ MAX_SIZE → Forall is_byte bytes → bytes ≠ [] →
  space_for a (len bytes) ≤ nfree fs B →
  (∀ B', file_written B ino a bytes B' → Q (len bytes) B') → spec (ext2_write fs ino a bytes) B Q.
Proof.
  intros Hfs [ws HL] Hreg Hd Ha Hmax Hs Hby Hne Hsp HQ. destruct (live_valid fs _ _ _ HL) as [Hv ->]. unfold ext2_write. pose proof Hv as [? ?].
  pose proof (lo_inodes fs lo). unfold inode_num_of. rewrite (proj2 (Z.leb_le _ _)) by (unfold u32_max; lia).
  apply spec_bind, spec_ok, spec_bind, spec_map_err, spec_read_inode; [exact lo|done|]. apply spec_wf. intros Hwf.
  pose proof (in_disk_range fs lo _ (lo_table fs lo ino Hv)) as Hin. pose proof (inode_at_ok fs lo B ino Hv (Hwf _ Hin)) as Hok.
  rewrite Hreg. cbn [negb]. assert (0 < len bytes) as Hpos by (destruct bytes; [done|unfold len; simpl; lia]).
  assert (MAX_SIZE < 2 ^ 63) by done. apply spec_bind, spec_map_err. unfold write_inode_data. rewrite (proj2 (Z.eqb_neq _ _)) by lia.
  apply (spec_lift_bind _ _ _ (a + len bytes)); [apply add64_ok; unfold is_uint; lia|].
  apply spec_bind, (spec_write_loop fs lo _ (live_files fs B) B ino); [apply Hfs|apply Hfs|done|lia|done|done|lia|unfold len; lia| |].
  { intros _. by rewrite Z.add_0_r. }
  intros k i' L2 B2 W HL2 Hi2. rewrite Z.add_0_r, Z.sub_0_r, sub_all in W. apply spec_wf. intros Hwf2. destruct (Hwf2 _ Hin) as [Hl2 _].
  destruct (file_written_intro k B ino a bytes _ L2 B2 i' Hfs HL eq_refl Hok Hreg Hd Ha Hmax Hs W HL2 Hi2 Hl2) as [Hok3 Hfw].
  apply spec_bind, spec_write_inode; [exact lo|done|exact Hok3|]. apply spec_ok, spec_ok, HQ, Hfw.
Qed.

End write.

(** ** The theorems *)

(** Reading [n] bytes at [o] gives [r]. *)
Definition reads `{BuildProfile} {T} `{SectorStore T} fs (t : T) (ino o n : Z) (r : list Z) : Prop :=
  ∃ t', run (e_device_idx fs) (ext2_read fs ino o n) t = Ret (Ok r, t').

(** A regular file without holes that the file system can write at [a]. *)
Definition writable `{BuildProfile} fs B (ino a : Z) (bytes : list Z) : Prop :=
  is_Some (live_files fs B ino) ∧ Inode_is_reg (inode_at fs B ino) = true ∧ dense fs B ino ∧
  0 ≤ a ≤ file_size fs B ino ∧ a + len bytes ≤ MAX_SIZE ∧ file_size fs B ino ≤ MAX_SIZE ∧ Forall is_byte bytes ∧ bytes ≠ [] ∧
  space_for a (len bytes) ≤ nfree fs B.

Section theorems.
Context `{BuildProfile}.

Lemma spec_reads fs (lo : layout_ok fs) v B ino o n :
  rep fs (blocks_count fs) v B → fs_ok fs B → is_Some (live_files fs B ino) → file_size fs B ino ≤ MAX_SIZE → 0 ≤ o → 0 ≤ n →
  reads fs v ino o n (sub (file fs B ino) o n).
Proof.
  intros Hr Hok HL Hs Ho Hn. destruct (spec_ext2_read fs lo B ino o n (λ r _, r = sub (file fs B ino) o n) Hok HL Hs Ho Hn eq_refl v Hr)
    as (r & v' & _ & Hrun & _ & ->). by exists v'.
Qed.


Context {D : Type} `{BlockDeviceLaws D}.

(** C39: The sector cache and the ext2 code above it. A program that is refused
    nothing leaves at most [CACHE_SIZE] distinct sectors waiting, since nothing
    writes them back. A program that leaves a slot to spare on a working device is
    refused nothing, and answers as on the disk the cache stands for. *)
Theorem cache_capacity (healthy : D → Prop) {A} n dev (p : prog A) (t : BlockCache * list (option D)) :
  (∀ d l, healthy d → 0 ≤ l < sector_count d →
    ∃ s d', read_sector d l = (Ok s, d') ∧ healthy d' ∧ sector_count d' = sector_count d) →
  st_inv t →
  (granted dev p t → (size (dirty_keys (entries t.1) ∪ writes dev p (st_view t)) ≤ CACHE_SIZE)%nat) ∧
  (spare (writes dev p (st_view t)) (accesses dev p (st_view t)) t.1 → working healthy n dev t.2 → reads_below n dev p (st_view t) = true →
   granted dev p t ∧ same_outcome (run dev p t) (run dev p (st_view t))).
Proof.
  intros Hh Hi. split.
  - intros Hg. rewrite <- (granted_writes dev p t) by done. by apply granted_fits.
  - intros Hs Hw Hb. assert (has_room healthy n dev (writes dev p (st_view t)) (accesses dev p (st_view t)) t) as Hr by done.
    split; [by eapply room_granted|by eapply room_refines].
Qed.


End theorems.

(** ** Instances *)

Section instances.
#[local] Existing Instance release_profile.

Definition sample_bytes : list Z := [32; 119; 111; 114; 108; 100].

Lemma sample_writable : writable sample_fs sample SAMPLE_FILE 5 sample_bytes.
Proof.
  assert (file_size sample_fs sample SAMPLE_FILE = 5) as Hs by (by vm_compute).
  split_and!; [rewrite sample_live; by eexists|by vm_compute| |lia|lia|by vm_compute|by rewrite Hs| |done|by vm_compute].
  - intros o Ho. rewrite Hs in Ho. unfold block_at. rewrite Z.div_small by lia. unfold tree. rewrite sample_live. done.
  - repeat constructor; unfold is_byte; lia.
Qed.


(** The disk as a device, behind an empty cache. *)
Definition sample_disk : MemDisk :=
  mkMemDisk 128 (list_to_map ((λ l, (l, default [] (sample_view (0%nat, l)))) <$> seqZ 0 128)).
Definition sample_store : BlockCache * list (option MemDisk) := (BlockCache_new, register_device empty_registry sample_disk).
Definition any_disk (d : MemDisk) : Prop := True.

Lemma mem_disk_reads d l : any_disk d → 0 ≤ l < sector_count d →
  ∃ s d', read_sector d l = (Ok s, d') ∧ any_disk d' ∧ sector_count d' = sector_count d.
Proof. intros _ Hl. simpl in *. rewrite (proj2 (Z.leb_le 0 l)), (proj2 (Z.ltb_lt l _)) by lia. simpl. by eexists _, d. Qed.

Lemma sample_store_inv : st_inv sample_store.
Proof. apply cache_inv_new. Qed.

Lemma sample_store_rep : rep sample_fs (blocks_count sample_fs) (st_view sample_store) sample.
Proof.
  assert (forallb (λ l, bool_decide (st_view sample_store (0%nat, l) = sample_view (0%nat, l))) (seqZ 0 128) = true) as Hk by (by vm_compute).
  intros b Hb. change (blocks_count sample_fs) with 64 in Hb. destruct (sample_rep b Hb) as (Hok & H1 & H2). split; [done|].
  pose proof (range_ok _ _ _ Hk (2 * b) ltac:(lia)) as E1. pose proof (range_ok _ _ _ Hk (2 * b + 1) ltac:(lia)) as E2.
  rewrite bool_decide_eq_true in E1, E2. change (e_device_idx sample_fs) with 0%nat in *. split; etrans; [exact E1|exact H1|exact E2|exact H2].
Qed.

Lemma sample_working : working any_disk 128 0 (snd sample_store).
Proof. exists sample_disk. done. Qed.

Lemma sample_spare : spare (writes 0 (ext2_write sample_fs SAMPLE_FILE 5 sample_bytes) (st_view sample_store))
  (accesses 0 (ext2_write sample_fs SAMPLE_FILE 5 sample_bytes) (st_view sample_store)) (fst sample_store).
Proof.
  split_and!; [apply Nat.ltb_lt; by vm_compute| |done|by vm_compute]. apply Forall_replicate. done.
Qed.


Lemma cache_capacity_witness :
  same_outcome (run 0 (ext2_write sample_fs SAMPLE_FILE 5 sample_bytes) sample_store)
    (run 0 (ext2_write sample_fs SAMPLE_FILE 5 sample_bytes) (st_view sample_store)).
Proof.
  refine (proj2 (proj2 (cache_capacity any_disk 128 0 (ext2_write sample_fs SAMPLE_FILE 5 sample_bytes) sample_store
    mem_disk_reads sample_store_inv) sample_spare sample_working _)).
  vm_compute. reflexivity.
Defined.

(** A write of 40,000 bytes, for which the disk has room, needs more sectors than
    the cache has slots: it fails, and has changed the file. *)
Example large_write_refused :
  match run 0 (ext2_write sample_fs SAMPLE_FILE 0 (replicate (Z.to_nat 40000) 7)) sample_store with
  | Ret (r, t) => r = Err IoError ∧ size (dirty_keys (entries (fst t))) = CACHE_SIZE
  | Panic => False
  end.
Proof. vm_compute. split; reflexivity. Qed.

(** The bytes between the old end of a file and a write beyond it are those of a
    deleted file. *)
Example gap_shows_old_data :
  match run 0 (_ ← ext2_write sample_fs SAMPLE_FILE 1030 [1]; ext2_read sample_fs SAMPLE_FILE 1024 100) sample_view with
  | Ret (r, _) => r = Ok [238; 238; 238; 238; 238; 238; 1]
  | Panic => False
  end.
Proof. vm_compute. reflexivity. Qed.

(** Unlinking a symbolic link whose target is the character 8 frees block 8, the
    block of another file: the next file that is written gets it. *)
Example unlink_fast_symlink :
  match run 0 (_ ← ext2_symlink sample_fs 2 [108] [8]; _ ← ext2_unlink sample_fs 2 [108];
               m ← ext2_create sample_fs 2 [109]; _ ← ext2_write sample_fs m 0 [88];
               ext2_read sample_fs SAMPLE_FILE 0 100) sample_view with
  | Ret (r, _) => r = Ok [88; 101; 108; 108; 111]
  | Panic => False
  end.
Proof. vm_compute. reflexivity. Qed.

End instances.
