(* ===== verification/Dhcp.v ===== *)
(** * The DHCP client (kernel/src/net/dhcp.rs)

    Messages and their options, the exchange of DISCOVER, OFFER, REQUEST and ACK,
    and the renewal of the lease. Sending and receiving of frames and the timer
    are arguments of the client: the class [Ethernet]. *)

From stdpp Require Import strings.
From S2P Require Import Prelude Ip Arp TcpSegment Udp.
Local Open Scope Z_scope.

Definition OP_BOOT_REQUEST : Z := 1.
Definition OP_BOOT_REPLY : Z := 2.
Definition HTYPE_ETHERNET : Z := 1.
Definition HLEN_ETHERNET : Z := 6.
Definition MAGIC_COOKIE : list Z := [99; 130; 83; 99].
Definition OPT_PAD : Z := 0.
Definition OPT_END : Z := 255.
Definition OPT_MESSAGE_TYPE : Z := 53.
Definition OPT_REQUESTED_IP : Z := 50.
Definition OPT_SERVER_ID : Z := 54.
Definition OPT_PARAM_REQUEST_LIST : Z := 55.
Definition OPT_SUBNET_MASK : Z := 1.
Definition OPT_ROUTER : Z := 3.
Definition OPT_DNS_SERVER : Z := 6.
Definition OPT_LEASE_TIME : Z := 51.
Definition MSG_DISCOVER : Z := 1.
Definition MSG_OFFER : Z := 2.
Definition MSG_REQUEST : Z := 3.
Definition MSG_ACK : Z := 5.
Definition DHCP_HEADER_SIZE : Z := 236.
Definition DHCP_MIN_PACKET_SIZE : Z := 300.
Definition IP_BROADCAST : Z := 0xFFFFFFFF.
Definition IP_ZERO : Z := 0.
Definition DHCP_SERVER_PORT : Z := 67.
Definition DHCP_CLIENT_PORT : Z := 68.
Definition DHCP_XID : Z := 0x39A3005A.
Definition ETH_BROADCAST : list Z := replicate 6 0xFF.
Definition MAX_RETRIES : nat := 1000.

(** ** Messages *)

(** Addresses are the 32-bit numbers of their four bytes. *)
Record DhcpMessage : Type := mkDhcpMessage {
  op : Z;
  htype : Z;
  hlen : Z;
  hops : Z;
  xid : Z;
  secs : Z;
  dhcp_flags : Z;
  ciaddr : Z;
  yiaddr : Z;
  siaddr : Z;
  giaddr : Z;
  chaddr : list Z;
  options : list Z;
}.

Record DhcpOption : Type := mkDhcpOption { code : Z; opt_data : list Z }.

(** [DhcpOptionIter::next] from the position [pos]. *)
Fixpoint option_next (fuel : nat) (data : list Z) (pos : Z) : outcome (option DhcpOption * Z) :=
  match fuel with
  | O => Panic
  | S fuel =>
      if pos <? len data then
        code ← index data pos;
        if code =? OPT_PAD then option_next fuel data (pos + 1)
        else if code =? OPT_END then Ret (None, pos)
        else if len data <=? pos + 1 then Ret (None, pos)
        else
          n ← index data (pos + 1);
          let data_start := pos + 2 in
          if len data <? data_start + n then Ret (None, pos)
          else
            d ← slice data data_start (data_start + n);
            Ret (Some (mkDhcpOption code d), data_start + n)
      else Ret (None, pos)
  end.

(** A [for] loop over the options that returns at the first one [f] accepts. *)
Fixpoint option_find {A} (fuel : nat) (data : list Z) (pos : Z) (f : DhcpOption → option A) : outcome (option A) :=
  match fuel with
  | O => Panic
  | S fuel =>
      '(o, pos) ← option_next (S (length data)) data pos;
      match o with
      | None => Ret None
      | Some o => match f o with Some a => Ret (Some a) | None => option_find fuel data pos f end
      end
  end.

Definition get_message_type (msg : DhcpMessage) : outcome (option Z) :=
  option_find (S (length (options msg))) (options msg) 0
    (λ o, if (code o =? OPT_MESSAGE_TYPE) && (len (opt_data o) =? 1) then head (opt_data o) else None).

Definition get_option (msg : DhcpMessage) (c : Z) : outcome (option (list Z)) :=
  option_find (S (length (options msg))) (options msg) 0 (λ o, if code o =? c then Some (opt_data o) else None).

(** ** Construction *)

Definition new_request (mac : list Z) (x : Z) : outcome DhcpMessage :=
  chaddr ← copy_into (replicate 16 0) 0 6 mac;
  Ret (mkDhcpMessage OP_BOOT_REQUEST HTYPE_ETHERNET HLEN_ETHERNET 0 x 0 0x8000 IP_ZERO IP_ZERO IP_ZERO IP_ZERO chaddr []).

Definition extend (msg : DhcpMessage) (l : list Z) : DhcpMessage :=
  mkDhcpMessage (op msg) (htype msg) (hlen msg) (hops msg) (xid msg) (secs msg) (dhcp_flags msg) (ciaddr msg) (yiaddr msg)
    (siaddr msg) (giaddr msg) (chaddr msg) (options msg ++ l).

Definition to_bytes (msg : DhcpMessage) : outcome (list Z) :=
  let total := DHCP_HEADER_SIZE + 4 + len (options msg) in
  let padded := Z.max total DHCP_MIN_PACKET_SIZE in
  let buf := replicate (Z.to_nat padded) 0 in
  buf ← store buf 0 (op msg);
  buf ← store buf 1 (htype msg);
  buf ← store buf 2 (hlen msg);
  buf ← store buf 3 (hops msg);
  buf ← copy_into buf 4 8 (u32_to_be_bytes (xid msg));
  buf ← copy_into buf 8 10 (u16_to_be_bytes (secs msg));
  buf ← copy_into buf 10 12 (u16_to_be_bytes (dhcp_flags msg));
  buf ← copy_into buf 12 16 (u32_to_be_bytes (ciaddr msg));
  buf ← copy_into buf 16 20 (u32_to_be_bytes (yiaddr msg));
  buf ← copy_into buf 20 24 (u32_to_be_bytes (siaddr msg));
  buf ← copy_into buf 24 28 (u32_to_be_bytes (giaddr msg));
  buf ← copy_into buf 28 44 (chaddr msg);
  buf ← copy_into buf DHCP_HEADER_SIZE (DHCP_HEADER_SIZE + 4) MAGIC_COOKIE;
  let opt_offset := DHCP_HEADER_SIZE + 4 in
  copy_into buf opt_offset (opt_offset + len (options msg)) (options msg).

Definition build_ethernet_frame (src_mac dst_mac payload : list Z) : list Z :=
  dst_mac ++ src_mac ++ u16_to_be_bytes ETHERTYPE_IPV4 ++ payload.

Definition PARAM_LIST : list Z := [OPT_PARAM_REQUEST_LIST; 3; OPT_SUBNET_MASK; OPT_ROUTER; OPT_DNS_SERVER].

Section build.
Context `{BuildProfile}.

Definition build_discover (mac : list Z) : outcome (list Z) :=
  msg ← new_request mac DHCP_XID;
  let msg := extend msg [OPT_MESSAGE_TYPE; 1; MSG_DISCOVER] in
  let msg := extend msg PARAM_LIST in
  let msg := extend msg [OPT_END] in
  dhcp_payload ← to_bytes msg;
  build_udp IP_ZERO IP_BROADCAST DHCP_CLIENT_PORT DHCP_SERVER_PORT dhcp_payload.

Definition build_request (mac : list Z) (offered_ip server_ip : Z) : outcome (list Z) :=
  msg ← new_request mac DHCP_XID;
  let msg := extend msg [OPT_MESSAGE_TYPE; 1; MSG_REQUEST] in
  let msg := extend (extend msg [OPT_REQUESTED_IP; 4]) (u32_to_be_bytes offered_ip) in
  let msg := extend (extend msg [OPT_SERVER_ID; 4]) (u32_to_be_bytes server_ip) in
  let msg := extend msg PARAM_LIST in
  let msg := extend msg [OPT_END] in
  dhcp_payload ← to_bytes msg;
  build_udp IP_ZERO IP_BROADCAST DHCP_CLIENT_PORT DHCP_SERVER_PORT dhcp_payload.

End build.

(** ** Parsing *)

Definition parse_dhcp (data : list Z) : outcome (option DhcpMessage) :=
  if len data <? DHCP_HEADER_SIZE + 5 then Ret None
  else
    b0 ← index data 0;
    if negb (b0 =? OP_BOOT_REPLY) then Ret None
    else
      b1 ← index data 1;
      b2 ← index data 2;
      if negb (b1 =? HTYPE_ETHERNET) || negb (b2 =? HLEN_ETHERNET) then Ret None
      else
        cookie ← slice data DHCP_HEADER_SIZE (DHCP_HEADER_SIZE + 4);
        if negb (bool_decide (cookie = MAGIC_COOKIE)) then Ret None
        else
          xid ← read_u32_be data 4;
          secs ← read_u16_be data 8;
          flags ← read_u16_be data 10;
          ciaddr ← read_u32_be data 12;
          yiaddr ← read_u32_be data 16;
          siaddr ← read_u32_be data 20;
          giaddr ← read_u32_be data 24;
          chaddr ← slice data 28 44;
          let opt_start := DHCP_HEADER_SIZE + 4 in
          options ← (if opt_start <? len data then slice data opt_start (len data) else Ret []);
          b3 ← index data 3;
          Ret (Some (mkDhcpMessage b0 b1 b2 b3 xid secs flags ciaddr yiaddr siaddr giaddr chaddr options)).

Definition extract_dhcp_from_frame (frame : list Z) : outcome (option (list Z)) :=
  if len frame <? 14 then Ret None
  else
    ethertype ← read_u16_be frame 12;
    if negb (ethertype =? ETHERTYPE_IPV4) then Ret None
    else
      let ip_start := 14 in
      if len frame <? ip_start + 20 then Ret None
      else
        version_ihl ← index frame ip_start;
        if negb (Z.shiftr version_ihl 4 =? 4) then Ret None
        else
          let ihl := Z.land version_ihl 0x0F in
          if ihl <? 5 then Ret None
          else
            let ip_header_len := ihl * 4 in
            protocol ← index frame (ip_start + 9);
            if negb (protocol =? 17) then Ret None
            else
              ip_total_len ← read_u16_be frame (ip_start + 2);
              let udp_start := ip_start + ip_header_len in
              if len frame <? udp_start + 8 then Ret None
              else
                dst_port ← read_u16_be frame (udp_start + 2);
                if negb (dst_port =? DHCP_CLIENT_PORT) then Ret None
                else
                  udp_length ← read_u16_be frame (udp_start + 4);
                  if udp_length <? 8 then Ret None
                  else
                    let dhcp_start := udp_start + 8 in
                    let dhcp_len := udp_length - 8 in
                    if len frame <? dhcp_start + dhcp_len then Ret None
                    else d ← slice frame dhcp_start (dhcp_start + dhcp_len); Ret (Some d).

(** ** Offers and acknowledgements *)

Record NetworkState : Type := mkNetworkState {
  ns_ip : Z;
  subnet_mask : Z;
  gateway : Z;
  dns : Z;
  configured : bool;
  lease_secs : Z;
  lease_acquired_tick : Z;
  server_ip : Z;
}.

Definition NETWORK_STATE : NetworkState := mkNetworkState 0 0xFFFFFF00 0 0 false 0 0 0.

(** The offered address and the server's. *)
Definition process_offer (msg : DhcpMessage) : outcome (option (Z * Z)) :=
  if negb (xid msg =? DHCP_XID) then Ret None
  else
    t ← get_message_type msg;
    match t with
    | None => Ret None
    | Some msg_type =>
        if negb (msg_type =? MSG_OFFER) then Ret None
        else if yiaddr msg =? IP_ZERO then Ret None
        else
          o ← get_option msg OPT_SERVER_ID;
          server ← match o with
                   | Some data => if len data =? 4 then read_u32_be data 0 else Ret (siaddr msg)
                   | None => Ret (siaddr msg)
                   end;
          Ret (Some (yiaddr msg, server))
    end.

(** The first four bytes of an option whose length [ok] accepts, or [old]. *)
Definition option_u32 (msg : DhcpMessage) (c : Z) (ok : Z → bool) (old : Z) : outcome Z :=
  o ← get_option msg c;
  match o with
  | Some data => if ok (len data) then read_u32_be data 0 else Ret old
  | None => Ret old
  end.

(** ** The client *)

(** The functions the client is given, and the timer. *)
Class Ethernet (L : Type) : Type := {
  send_ethernet : L → list Z → result Z NetError * L;
  receive_ethernet : L → option (list Z) * L;
  ticks : L → Z * L;
}.

Record Client (L : Type) : Type := mkClient { state : NetworkState; negotiating : bool; link : L }.
#[global] Arguments mkClient {L} _ _ _.
#[global] Arguments state {L} _.
#[global] Arguments negotiating {L} _.
#[global] Arguments link {L} _.

Section client.
Context {L : Type} `{Ethernet L} `{BuildProfile}.
Implicit Types c : Client L.

Definition with_link c (l : L) : Client L := mkClient (state c) (negotiating c) l.
Definition with_state c (s : NetworkState) : Client L := mkClient s (negotiating c) (link c).
Definition set_negotiating c (b : bool) : Client L := mkClient (state c) b (link c).

(** The DHCP message of a received frame. *)
Definition message_of (frame : list Z) : outcome (option DhcpMessage) :=
  d ← extract_dhcp_from_frame frame;
  match d with Some dhcp_msg => parse_dhcp dhcp_msg | None => Ret None end.

Definition offer_in (frame : option (list Z)) : outcome (option (Z * Z)) :=
  match frame with
  | None => Ret None
  | Some frame => m ← message_of frame; match m with Some msg => process_offer msg | None => Ret None end
  end.

Definition process_ack (msg : DhcpMessage) c : outcome (bool * Client L) :=
  if negb (xid msg =? DHCP_XID) then Ret (false, c)
  else
    t ← get_message_type msg;
    match t with
    | None => Ret (false, c)
    | Some msg_type =>
        if negb (msg_type =? MSG_ACK) then Ret (false, c)
        else if yiaddr msg =? IP_ZERO then Ret (false, c)
        else
          mask ← option_u32 msg OPT_SUBNET_MASK (λ n, n =? 4) (subnet_mask (state c));
          gw ← option_u32 msg OPT_ROUTER (λ n, 4 <=? n) (gateway (state c));
          dns ← option_u32 msg OPT_DNS_SERVER (λ n, 4 <=? n) (dns (state c));
          lease ← option_u32 msg OPT_LEASE_TIME (λ n, 4 <=? n) (lease_secs (state c));
          let '(now, l) := ticks (link c) in
          Ret (true, with_state (with_link c l) (mkNetworkState (yiaddr msg) mask gw dns true lease now (siaddr msg)))
    end.

Definition ack_in (frame : option (list Z)) c : outcome (bool * Client L) :=
  match frame with
  | None => Ret (false, c)
  | Some frame => m ← message_of frame; match m with Some msg => process_ack msg c | None => Ret (false, c) end
  end.

Definition poll_ack c : outcome (bool * Client L) :=
  let '(frame, l) := receive_ethernet (link c) in ack_in frame (with_link c l).

Fixpoint wait_offer (retries : nat) c : outcome (option (Z * Z) * Client L) :=
  match retries with
  | O => Ret (None, c)
  | S retries =>
      let '(frame, l) := receive_ethernet (link c) in
      let c := with_link c l in
      o ← offer_in frame;
      match o with Some o => Ret (Some o, c) | None => wait_offer retries c end
  end.

Fixpoint wait_ack (retries : nat) c : outcome (bool * Client L) :=
  match retries with
  | O => Ret (false, c)
  | S retries =>
      '(ok, c) ← poll_ack c;
      if (ok : bool) then Ret (true, c) else wait_ack retries c
  end.

Definition dhcp_negotiate (mac : list Z) c : outcome (bool * Client L) :=
  if negotiating c then Ret (false, set_negotiating c true)
  else
    let c := set_negotiating c true in
    discover_packet ← build_discover mac;
    let '(r, l) := send_ethernet (link c) (build_ethernet_frame mac ETH_BROADCAST discover_packet) in
    let c := with_link c l in
    match r with
    | Err _ => Ret (false, set_negotiating c false)
    | Ok _ =>
        '(o, c) ← wait_offer MAX_RETRIES c;
        match o with
        | None => Ret (false, set_negotiating c false)
        | Some (offered_ip, server_ip) =>
            request_packet ← build_request mac offered_ip server_ip;
            let '(r, l) := send_ethernet (link c) (build_ethernet_frame mac ETH_BROADCAST request_packet) in
            let c := with_link c l in
            match r with
            | Err _ => Ret (false, set_negotiating c false)
            | Ok _ =>
                '(ack_received, c) ← wait_ack MAX_RETRIES c;
                Ret (ack_received, set_negotiating c false)
            end
        end
    end.

(** The loop of [check_lease_renewal], which ends when the timer reaches the
    deadline; without fuel it has not ended. *)
Fixpoint renewal_loop (fuel : nat) (deadline : Z) c : outcome (option (Client L)) :=
  match fuel with
  | O => Ret None
  | S fuel =>
      let '(now, l) := ticks (link c) in
      let c := with_link c l in
      if now <? deadline then
        '(ok, c) ← poll_ack c;
        if (ok : bool) then Ret (Some c) else renewal_loop fuel deadline c
      else Ret (Some c)
  end.

Definition check_lease_renewal (fuel : nat) (mac : list Z) c : outcome (option (bool * Client L)) :=
  if negb (configured (state c)) || (lease_secs (state c) =? 0) then Ret (Some (false, c))
  else
    let '(now, l) := ticks (link c) in
    let c := with_link c l in
    let elapsed_secs := saturating_sub now (lease_acquired_tick (state c)) `div` 18 in
    let renew_at := lease_secs (state c) `div` 2 in
    if elapsed_secs <? renew_at then Ret (Some (false, c))
    else
      request ← build_request mac (ns_ip (state c)) (server_ip (state c));
      let '(_, l) := send_ethernet (link c) (build_ethernet_frame mac ETH_BROADCAST request) in
      let c := with_link c l in
      deadline ← add64 now 36;
      r ← renewal_loop fuel deadline c;
      Ret (fmap (M := option) (λ c : Client L, (true, c)) r).

End client.
