(* ===== verification/DhcpProofs.v ===== *)
(** * The DHCP client obtains a lease

    The options of a message are read back as they were written, the messages
    survive their way through UDP, IP and Ethernet, the parser accepts any bytes
    without a panic, and the client that is sent an offer and an acknowledgement
    ends up with the address of the lease. *)

From stdpp Require Import strings.
From S2P Require Import Prelude Loop Bytes Ip Arp TcpSegment Udp DnsProofs Dhcp.
Local Open Scope Z_scope.

(** ** Options *)

Definition encode_option (o : DhcpOption) : list Z := code o :: len (opt_data o) :: opt_data o.
Definition encode_options (os : list DhcpOption) : list Z := mjoin (encode_option <$> os).

Definition option_ok (o : DhcpOption) : Prop :=
  0 < code o < 255 ∧ len (opt_data o) < 256 ∧ Forall is_byte (opt_data o).

Lemma option_next_here fuel p o s :
  option_ok o → option_next (S fuel) (p ++ encode_option o ++ s) (len p) = Ret (Some o, len p + len (encode_option o)).
Proof.
  intros (Hc & Hl & _). destruct o as [c d]. unfold encode_option in *. cbn [code opt_data option_next] in *.
  assert (0 ≤ len p ∧ 0 ≤ len d ∧ 0 ≤ len s) as (? & ? & ?) by (unfold len; lia).
  rewrite !len_app, !len_cons. rewrite (proj2 (Z.ltb_lt _ _)) by lia. cbn [app]. rewrite (index_mid p c _ (len p)) by done. cbn [mbind outcome_bind].
  unfold OPT_PAD, OPT_END. rewrite (proj2 (Z.eqb_neq c 0)), (proj2 (Z.eqb_neq c 255)), (proj2 (Z.leb_gt _ _)) by lia.
  replace (p ++ c :: len d :: d ++ s) with ((p ++ [c]) ++ len d :: d ++ s) by (by rewrite <- app_assoc).
  rewrite (index_mid _ (len d) _ (len p + 1)) by (rewrite len_app, len_cons; change (len []) with 0; lia). cbn [mbind outcome_bind].
  rewrite (proj2 (Z.ltb_ge _ _)) by lia.
  replace ((p ++ [c]) ++ len d :: d ++ s) with ((p ++ [c; len d]) ++ d ++ s) by (by rewrite <- !app_assoc).
  rewrite (slice_mid _ d) by (rewrite ?len_app, ?len_cons; change (len []) with 0; lia). cbn [mbind outcome_bind]. do 2 f_equal. lia.
Qed.

Lemma option_next_end fuel p s : option_next (S fuel) (p ++ OPT_END :: s) (len p) = Ret (None, len p).
Proof.
  cbn [option_next]. rewrite len_app, len_cons. assert (0 ≤ len s) by (unfold len; lia). rewrite (proj2 (Z.ltb_lt _ _)) by lia.
  rewrite (index_mid p OPT_END _ (len p)) by done. done.
Qed.

(** The first option that [f] accepts. *)
Lemma option_find_encoded {A} (f : DhcpOption → option A) os p s fuel data :
  Forall option_ok os → data = p ++ encode_options os ++ OPT_END :: s → (length os < fuel)%nat →
  option_find fuel data (len p) f = Ret (head (omap f os)).
Proof.
  intros Hos -> Hf. revert p fuel Hf. induction Hos as [|o os Ho Hos IH]; intros p [|fuel] Hf; [cbn in Hf; lia| |cbn in Hf; lia|]; cbn [option_find].
  - cbn [encode_options fmap list_fmap mjoin list_join app]. rewrite option_next_end. done.
  - change (encode_options (o :: os)) with (encode_option o ++ encode_options os). rewrite <- app_assoc, option_next_here by done.
    cbn [mbind outcome_bind omap list_omap]. destruct (f o) as [a|]; [done|]. cbn in Hf.
    replace (p ++ encode_option o ++ encode_options os ++ OPT_END :: s) with ((p ++ encode_option o) ++ encode_options os ++ OPT_END :: s)
      by (by rewrite <- app_assoc). rewrite <- len_app. apply IH. lia.
Qed.

(** ** No input makes the parser panic *)

Lemma option_next_total fuel data pos :
  Forall is_byte data → 0 ≤ pos → (Z.to_nat (len data - pos) < fuel)%nat →
  ∃ o pos', option_next fuel data pos = Ret (o, pos') ∧ pos ≤ pos' ∧ (o ≠ None → pos < pos' ≤ len data) ∧
    ∀ x, o = Some x → Forall is_byte (opt_data x).
Proof.
  intros Hb. revert pos. induction fuel as [|fuel IH]; intros pos Hp Hf; [lia|]. cbn [option_next].
  destruct (Z.ltb_spec pos (len data)) as [Hlt|]; [|by exists None, pos].
  destruct (index_ok data pos ltac:(lia)) as (c & -> & _). cbn [mbind outcome_bind].
  destruct (c =? OPT_PAD).
  { destruct (IH (pos + 1)) as (o & pos' & -> & ? & Ho & ?); [lia|lia|]. exists o, pos'. split_and!; [done|lia| |done]. intros Hne%Ho. lia. }
  destruct (c =? OPT_END); [by exists None, pos|]. destruct (Z.leb_spec (len data) (pos + 1)); [by exists None, pos|].
  destruct (index_ok data (pos + 1) ltac:(lia)) as (n & -> & Hn). cbn [mbind outcome_bind].
  rewrite list.Forall_forall in Hb. pose proof (Hb n Hn) as Hnb. unfold is_byte, is_uint in Hnb. rewrite <- list.Forall_forall in Hb.
  destruct (Z.ltb_spec (len data) (pos + 2 + n)); [by exists None, pos|].
  destruct (slice data (pos + 2) (pos + 2 + n)) as [d|] eqn:Hs.
  2: { by rewrite slice_ok in Hs by lia. }
  eexists _, _. split; [reflexivity|]. split_and!; [lia|lia|]. intros x [= <-]. by eapply slice_Forall.
Qed.

Lemma option_find_total {A} (f : DhcpOption → option A) fuel data pos :
  Forall is_byte data → 0 ≤ pos → (Z.to_nat (len data - pos) < fuel)%nat →
  ∃ r, option_find fuel data pos f = Ret r ∧ ∀ a, r = Some a → ∃ o, f o = Some a ∧ Forall is_byte (opt_data o).
Proof.
  intros Hb. revert pos. induction fuel as [|fuel IH]; intros pos Hp Hf; [lia|]. cbn [option_find].
  destruct (option_next_total (S (length data)) data pos) as (o & pos' & -> & Hle & Ho & Hd); [done|done|unfold len; lia|].
  cbn [mbind outcome_bind]. destruct o as [o|]; [|by exists None]. destruct (f o) as [a|] eqn:Hfo.
  - exists (Some a). split; [done|]. intros a' [= <-]. exists o. auto.
  - apply IH; [lia|]. specialize (Ho ltac:(done)). lia.
Qed.

Lemma read_u16_total bytes o : 0 ≤ o → o + 2 ≤ len bytes → ∃ x, read_u16_be bytes o = Ret x.
Proof.
  intros. unfold read_u16_be. destruct (index_ok bytes o) as (a & -> & _); [lia|]. destruct (index_ok bytes (o + 1)) as (b & -> & _); [lia|].
  by eexists.
Qed.

Lemma read_u32_total bytes o :
  Forall is_byte bytes → 0 ≤ o → o + 4 ≤ len bytes → ∃ x, read_u32_be bytes o = Ret x ∧ is_uint 32 x.
Proof.
  intros Hb ? ?. rewrite list.Forall_forall in Hb. unfold read_u32_be.
  destruct (index_ok bytes o) as (a & -> & Ha); [lia|]. destruct (index_ok bytes (o + 1)) as (b & -> & Hbb); [lia|].
  destruct (index_ok bytes (o + 2)) as (c & -> & Hc); [lia|]. destruct (index_ok bytes (o + 3)) as (d & -> & Hd); [lia|].
  eexists. split; [reflexivity|]. apply u32_be_bytes; by apply Hb.
Qed.

Lemma slice_total (l : list Z) a b : 0 ≤ a ≤ b → b ≤ len l → ∃ m, slice l a b = Ret m.
Proof. intros. rewrite slice_ok by lia. by eexists. Qed.

Lemma extract_total frame :
  Forall is_byte frame → ∃ d, extract_dhcp_from_frame frame = Ret d ∧ ∀ x, d = Some x → Forall is_byte x.
Proof.
  intros Hb. unfold extract_dhcp_from_frame. destruct (Z.ltb_spec (len frame) 14); [by exists None|].
  destruct (read_u16_total frame 12) as [et ->]; [lia..|]. cbn [mbind outcome_bind]. destruct (negb _); [by exists None|].
  destruct (Z.ltb_spec (len frame) (14 + 20)); [by exists None|]. destruct (index_ok frame 14) as (v & -> & _); [lia|]. cbn [mbind outcome_bind].
  destruct (negb _); [by exists None|]. destruct (Z.ltb_spec (Z.land v 0x0F) 5); [by exists None|].
  destruct (index_ok frame (14 + 9)) as (pr & -> & _); [lia|]. cbn [mbind outcome_bind]. destruct (negb _); [by exists None|].
  destruct (read_u16_total frame (14 + 2)) as [tl ->]; [lia..|]. cbn [mbind outcome_bind]. set (u := 14 + Z.land v 0x0F * 4).
  destruct (Z.ltb_spec (len frame) (u + 8)); [by exists None|].
  destruct (read_u16_total frame (u + 2)) as [dp ->]; [lia..|]. cbn [mbind outcome_bind]. destruct (negb _); [by exists None|].
  destruct (read_u16_total frame (u + 4)) as [ul ->]; [lia..|]. cbn [mbind outcome_bind].
  destruct (Z.ltb_spec ul 8); [by exists None|]. destruct (Z.ltb_spec (len frame) (u + 8 + (ul - 8))); [by exists None|].
  destruct (slice_total frame (u + 8) (u + 8 + (ul - 8))) as [d Hd]; [lia..|]. rewrite Hd. cbn [mbind outcome_bind].
  exists (Some d). split; [done|]. intros x [= <-]. by eapply slice_Forall.
Qed.

(** What the client uses of a parsed message. *)
Definition parsed_ok (msg : DhcpMessage) : Prop := Forall is_byte (options msg) ∧ is_uint 32 (yiaddr msg) ∧ is_uint 32 (siaddr msg).

Lemma parse_total data :
  Forall is_byte data → ∃ m, parse_dhcp data = Ret m ∧ ∀ x, m = Some x → parsed_ok x.
Proof.
  intros Hb. unfold parse_dhcp, DHCP_HEADER_SIZE. destruct (Z.ltb_spec (len data) (236 + 5)); [by exists None|].
  destruct (index_ok data 0) as (b0 & -> & _); [lia|]. cbn [mbind outcome_bind]. destruct (negb _); [by exists None|].
  destruct (index_ok data 1) as (b1 & -> & _); [lia|]. destruct (index_ok data 2) as (b2 & -> & _); [lia|]. cbn [mbind outcome_bind].
  destruct (negb _ || _); [by exists None|]. destruct (slice_total data 236 (236 + 4)) as [ck ->]; [lia..|]. cbn [mbind outcome_bind].
  destruct (negb _); [by exists None|].
  destruct (read_u32_total data 4) as (x1 & -> & Hx1); [done|lia..|]. destruct (read_u16_total data 8) as [x2 ->]; [lia..|].
  destruct (read_u16_total data 10) as [x3 ->]; [lia..|]. destruct (read_u32_total data 12) as (x4 & -> & Hx4); [done|lia..|].
  destruct (read_u32_total data 16) as (x5 & -> & Hx5); [done|lia..|]. destruct (read_u32_total data 20) as (x6 & -> & Hx6); [done|lia..|].
  destruct (read_u32_total data 24) as (x7 & -> & Hx7); [done|lia..|]. destruct (slice_total data 28 44) as [x8 ->]; [lia..|].
  rewrite (proj2 (Z.ltb_lt (236 + 4) _)) by lia. destruct (slice_total data (236 + 4) (len data)) as [os Ho]; [lia..|]. rewrite Ho.
  destruct (index_ok data 3) as (b3 & -> & _); [lia|]. cbn [mbind outcome_bind]. eexists. split; [reflexivity|].
  intros x [= <-]. split; [by eapply slice_Forall|done].
Qed.

Lemma message_total frame : Forall is_byte frame → ∃ m, message_of frame = Ret m ∧ ∀ x, m = Some x → parsed_ok x.
Proof.
  intros Hb. unfold message_of. destruct (extract_total frame Hb) as (d & -> & Hd). cbn [mbind outcome_bind].
  destruct d as [d|]; [apply parse_total; auto|by exists None].
Qed.

Lemma message_type_total msg : Forall is_byte (options msg) → ∃ t, get_message_type msg = Ret t.
Proof.
  intros Hb. unfold get_message_type.
  edestruct (option_find_total (A := Z)) as (r & -> & _); [exact Hb|done| |by eexists]. unfold len. lia.
Qed.

Lemma get_option_total msg c :
  Forall is_byte (options msg) → ∃ o, get_option msg c = Ret o ∧ ∀ d, o = Some d → Forall is_byte d.
Proof.
  intros Hb. unfold get_option.
  destruct (option_find_total (λ o, if code o =? c then Some (opt_data o) else None) (S (length (options msg))) (options msg) 0) as (r & -> & Hr);
    [done|done|unfold len; lia|]. exists r. split; [done|]. intros d (o & Ho & Hd)%Hr. destruct (code o =? c); [|done]. by injection Ho as <-.
Qed.

Lemma option_u32_total msg c ok old :
  Forall is_byte (options msg) → (∀ n, ok n = true → 4 ≤ n) → ∃ x, option_u32 msg c ok old = Ret x.
Proof.
  intros Hb Hok. unfold option_u32. destruct (get_option_total msg c Hb) as (o & -> & Hd). cbn [mbind outcome_bind].
  destruct o as [d|]; [|by eexists]. destruct (ok (len d)) eqn:E; [|by eexists]. apply Hok in E.
  destruct (read_u32_total d 0) as (x & -> & _); [by apply Hd|lia..|]. by eexists.
Qed.

Lemma offer_total msg :
  parsed_ok msg → ∃ o, process_offer msg = Ret o ∧ ∀ a s, o = Some (a, s) → is_uint 32 a ∧ is_uint 32 s.
Proof.
  intros (Hb & Hy & Hsi). unfold process_offer. destruct (negb _); [by eexists|].
  destruct (message_type_total msg Hb) as [[t|] ->]; cbn [mbind outcome_bind]; [|by eexists].
  destruct (negb _); [by eexists|]. destruct (_ =? IP_ZERO); [by eexists|].
  destruct (get_option_total msg OPT_SERVER_ID Hb) as ([d|] & -> & Hd); cbn [mbind outcome_bind]; [|eexists; split; [done|]; by intros ? ? [= <- <-]].
  destruct (Z.eqb_spec (len d) 4); [|eexists; split; [done|]; by intros ? ? [= <- <-]].
  destruct (read_u32_total d 0) as (x & -> & Hx); [by apply Hd|lia..|]. eexists. split; [done|]. by intros ? ? [= <- <-].
Qed.

Section total.
Context {L : Type} `{Ethernet L} `{BuildProfile}.
Implicit Types c : Client L.

(** An acknowledgement that is refused changes nothing. *)
Lemma ack_total msg c :
  Forall is_byte (options msg) → ∃ ok c', process_ack msg c = Ret (ok, c') ∧ negotiating c' = negotiating c ∧
    (ok = false → c' = c) ∧ (ok = true → configured (state c') = true ∧ link c' = (ticks (link c)).2).
Proof.
  intros Hb. unfold process_ack. destruct (negb _); [by exists false, c|]. destruct (message_type_total msg Hb) as [[t|] ->]; cbn [mbind outcome_bind]; [|by exists false, c].
  destruct (negb _); [by exists false, c|]. destruct (_ =? IP_ZERO); [by exists false, c|].
  destruct (option_u32_total msg OPT_SUBNET_MASK (λ n, n =? 4) (subnet_mask (state c)) Hb) as [m ->]; [intros; lia|].
  destruct (option_u32_total msg OPT_ROUTER (λ n, 4 <=? n) (gateway (state c)) Hb) as [g ->]; [intros; lia|].
  destruct (option_u32_total msg OPT_DNS_SERVER (λ n, 4 <=? n) (dns (state c)) Hb) as [d ->]; [intros; lia|].
  destruct (option_u32_total msg OPT_LEASE_TIME (λ n, 4 <=? n) (lease_secs (state c)) Hb) as [l ->]; [intros; lia|].
  cbn [mbind outcome_bind]. destruct (ticks (link c)) as [now l']. by eexists true, _.
Qed.

End total.

(** ** The bytes of a message *)

Definition zs (k : Z) : list Z := replicate (Z.to_nat k) 0.
#[global] Arguments zs : simpl never.

Lemma len_zs k : 0 ≤ k → len (zs k) = k.
Proof. intros. unfold len, zs. rewrite length_replicate. lia. Qed.

Lemma zs_bytes k : Forall is_byte (zs k).
Proof. apply Forall_replicate. unfold is_byte, is_uint. lia. Qed.

Lemma zs_add a b : 0 ≤ a → 0 ≤ b → zs (a + b) = zs a ++ zs b.
Proof. intros. unfold zs. rewrite <- replicate_add. f_equal. lia. Qed.

(** Writing the next bytes of a zeroed buffer. *)
Lemma copy_next p k a b src :
  a = len p → b = len p + len src → len src ≤ k → copy_into (p ++ zs k) a b src = Ret ((p ++ src) ++ zs (k - len src)).
Proof.
  intros -> -> Hk. assert (0 ≤ len src ∧ 0 ≤ len p) as [? ?] by (unfold len; lia). rewrite copy_into_ok by (rewrite ?len_app, ?len_zs; lia).
  f_equal. replace k with (len src + (k - len src)) at 1 2 by lia. rewrite zs_add by lia.
  rewrite take_app_length' by (unfold len; lia). rewrite (app_assoc p (zs _)), drop_app_length'; [by rewrite app_assoc|].
  rewrite length_app. unfold len, zs. rewrite length_replicate. lia.
Qed.

Lemma store_next p k a x : a = len p → 1 ≤ k → store (p ++ zs k) a x = Ret ((p ++ [x]) ++ zs (k - 1)).
Proof.
  intros -> Hk. rewrite store_ok by (rewrite len_app, len_zs; unfold len; lia). f_equal. unfold len. rewrite Nat2Z.id.
  replace (length p) with (length p + 0)%nat by lia. rewrite insert_app_r. rewrite <- app_assoc. f_equal.
  unfold zs. replace (Z.to_nat k) with (S (Z.to_nat (k - 1))) by lia. done.
Qed.

Definition wire_fields (msg : DhcpMessage) : list Z :=
  [op msg; htype msg; hlen msg; hops msg] ++ u32_to_be_bytes (xid msg) ++ u16_to_be_bytes (secs msg) ++ u16_to_be_bytes (dhcp_flags msg) ++
  u32_to_be_bytes (ciaddr msg) ++ u32_to_be_bytes (yiaddr msg) ++ u32_to_be_bytes (siaddr msg) ++ u32_to_be_bytes (giaddr msg) ++ chaddr msg.

Definition padding (msg : DhcpMessage) : Z := Z.max 0 (60 - len (options msg)).

Definition wire (msg : DhcpMessage) : list Z := wire_fields msg ++ zs 192 ++ MAGIC_COOKIE ++ options msg ++ zs (padding msg).

Lemma len_u32_bytes x : len (u32_to_be_bytes x) = 4.
Proof. done. Qed.
Lemma len_u16_bytes x : len (u16_to_be_bytes x) = 2.
Proof. done. Qed.
Lemma len_nil : len (@nil Z) = 0.
Proof. done. Qed.

Ltac wire_len := rewrite ?len_app, ?len_u32_bytes, ?len_u16_bytes, ?len_cons, ?len_nil; lia.

Lemma to_bytes_wire msg : len (chaddr msg) = 16 → to_bytes msg = Ret (wire msg).
Proof.
  intros Hch. assert (0 ≤ len (options msg)) as Ho by (unfold len; lia). unfold to_bytes, DHCP_HEADER_SIZE, DHCP_MIN_PACKET_SIZE.
  fold (zs (Z.max (236 + 4 + len (options msg)) 300)). set (k := Z.max (236 + 4 + len (options msg)) 300).
  change (zs k) with ([] ++ zs k).
  do 4 (rewrite store_next by wire_len; rewrite bind_Ret).
  do 7 (rewrite copy_next by wire_len; rewrite bind_Ret). rewrite copy_next by wire_len.
  rewrite bind_Ret. rewrite !len_u32_bytes, !len_u16_bytes, Hch.
  assert (len (wire_fields msg) = 44) as Hw by (unfold wire_fields; rewrite !len_app, Hch; done).
  match goal with |- context [copy_into (?q ++ _) 236 _ _] => replace q with (wire_fields msg) by (unfold wire_fields; by rewrite <- !app_assoc) end.
  replace (k - 1 - 1 - 1 - 1 - 4 - 2 - 2 - 4 - 4 - 4 - 4 - 16) with (192 + (k - 236)) by lia. rewrite zs_add, app_assoc by lia.
  rewrite copy_next by (rewrite ?len_app, ?Hw, ?len_zs; change (len MAGIC_COOKIE) with 4; lia). rewrite bind_Ret.
  change (len MAGIC_COOKIE) with 4. rewrite copy_next by (rewrite ?len_app, ?Hw, ?len_zs; change (len MAGIC_COOKIE) with 4; lia).
  f_equal. unfold wire, padding. rewrite <- !app_assoc. do 5 f_equal. lia.
Qed.

(** A well-formed message, and a well-formed reply. *)
Record fields_ok (msg : DhcpMessage) : Prop := {
  fo_kind : Forall is_byte [op msg; htype msg; hlen msg; hops msg];
  fo_xid : is_uint 32 (xid msg);
  fo_secs : is_uint 16 (secs msg);
  fo_flags : is_uint 16 (dhcp_flags msg);
  fo_ciaddr : is_uint 32 (ciaddr msg);
  fo_yiaddr : is_uint 32 (yiaddr msg);
  fo_siaddr : is_uint 32 (siaddr msg);
  fo_giaddr : is_uint 32 (giaddr msg);
  fo_chaddr : len (chaddr msg) = 16 ∧ Forall is_byte (chaddr msg);
  fo_options : Forall is_byte (options msg);
}.

Record reply_ok (msg : DhcpMessage) : Prop := {
  rp_fields : fields_ok msg;
  rp_op : op msg = OP_BOOT_REPLY;
  rp_htype : htype msg = HTYPE_ETHERNET;
  rp_hlen : hlen msg = HLEN_ETHERNET;
}.

Lemma len_wire msg : len (chaddr msg) = 16 → len (wire msg) = 240 + len (options msg) + padding msg.
Proof.
  intros Hch. unfold wire, wire_fields, padding. rewrite !len_app, Hch, !len_zs by lia. change (len MAGIC_COOKIE) with 4.
  change (len (u32_to_be_bytes _)) with 4. change (len (u16_to_be_bytes _)) with 2. change (len [_; _; _; _]) with 4. lia.
Qed.

Lemma parse_wire msg : reply_ok msg → parse_dhcp (wire msg) = Ret (Some (extend msg (zs (padding msg)))).
Proof.
  intros R. destruct (fo_chaddr _ (rp_fields _ R)) as [Hch _]. pose proof (len_wire msg Hch) as Hl. assert (0 ≤ len (options msg)) by (unfold len; lia).
  assert (0 ≤ padding msg ∧ 60 ≤ len (options msg) + padding msg) as [? ?] by (unfold padding; lia).
  assert (len (wire_fields msg) = 44) as Hw by (unfold wire_fields; rewrite !len_app, Hch; done).
  unfold parse_dhcp, DHCP_HEADER_SIZE. rewrite (proj2 (Z.ltb_ge (len (wire msg)) (236 + 5))) by lia.
  change (index (wire msg) 0) with (Ret (op msg)). change (index (wire msg) 1) with (Ret (htype msg)).
  change (index (wire msg) 2) with (Ret (hlen msg)). change (index (wire msg) 3) with (Ret (hops msg)). cbn [mbind outcome_bind].
  rewrite (rp_op _ R), (rp_htype _ R), (rp_hlen _ R). change (negb (_ =? _) || negb (_ =? _)) with false. change (negb (OP_BOOT_REPLY =? OP_BOOT_REPLY)) with false.
  cbv iota. rewrite (slice_at _ (wire_fields msg ++ zs 192) MAGIC_COOKIE (options msg ++ zs (padding msg)) 236 (236 + 4));
    [|unfold wire; by rewrite <- !app_assoc|rewrite len_app, Hw, len_zs; lia|rewrite len_app, Hw, len_zs; change (len MAGIC_COOKIE) with 4; lia].
  cbn [mbind outcome_bind]. rewrite bool_decide_eq_true_2 by done. cbn [negb].
  set (h := [op msg; htype msg; hlen msg; hops msg]).
  assert (wire msg = h ++ u32_to_be_bytes (xid msg) ++ u16_to_be_bytes (secs msg) ++ u16_to_be_bytes (dhcp_flags msg) ++
    u32_to_be_bytes (ciaddr msg) ++ u32_to_be_bytes (yiaddr msg) ++ u32_to_be_bytes (siaddr msg) ++ u32_to_be_bytes (giaddr msg) ++
    chaddr msg ++ zs 192 ++ MAGIC_COOKIE ++ options msg ++ zs (padding msg)) as E by (unfold wire, wire_fields; by rewrite <- !app_assoc).
  set (h4 := h ++ u32_to_be_bytes (xid msg)). set (h8 := h4 ++ u16_to_be_bytes (secs msg)).
  set (h10 := h8 ++ u16_to_be_bytes (dhcp_flags msg)). set (h12 := h10 ++ u32_to_be_bytes (ciaddr msg)).
  set (h16 := h12 ++ u32_to_be_bytes (yiaddr msg)). set (h20 := h16 ++ u32_to_be_bytes (siaddr msg)). set (h24 := h20 ++ u32_to_be_bytes (giaddr msg)).
  erewrite (read_u32_at _ h (xid msg) _ 4); [|rewrite E; reflexivity|apply (rp_fields _ R)|done].
  erewrite (read_u16_at _ h4 (secs msg) _ 8); [|rewrite E; reflexivity|apply (rp_fields _ R)|done].
  erewrite (read_u16_at _ h8 (dhcp_flags msg) _ 10); [|rewrite E; reflexivity|apply (rp_fields _ R)|done].
  erewrite (read_u32_at _ h10 (ciaddr msg) _ 12); [|rewrite E; reflexivity|apply (rp_fields _ R)|done].
  erewrite (read_u32_at _ h12 (yiaddr msg) _ 16); [|rewrite E; reflexivity|apply (rp_fields _ R)|done].
  erewrite (read_u32_at _ h16 (siaddr msg) _ 20); [|rewrite E; reflexivity|apply (rp_fields _ R)|done].
  erewrite (read_u32_at _ h20 (giaddr msg) _ 24); [|rewrite E; reflexivity|apply (rp_fields _ R)|done].
  erewrite (slice_at _ h24 (chaddr msg) _ 28 44); [|rewrite E; reflexivity|done|rewrite Hch; done].
  rewrite (proj2 (Z.ltb_lt (236 + 4) _)) by lia.
  erewrite (slice_at _ (wire_fields msg ++ zs 192 ++ MAGIC_COOKIE) (options msg ++ zs (padding msg)) [] (236 + 4) (len (wire msg)));
    [|rewrite app_nil_r; unfold wire; by rewrite <- !app_assoc|rewrite !len_app, Hw, len_zs; change (len MAGIC_COOKIE) with 4; lia
     |rewrite !len_app, Hw, !len_zs by lia; change (len MAGIC_COOKIE) with 4; lia].
  cbn [mbind outcome_bind]. unfold extend. by rewrite (rp_op _ R), (rp_htype _ R), (rp_hlen _ R).
Qed.

(** ** Through UDP, IP and Ethernet *)

Lemma index_at {A} (l p : list A) x s i : l = p ++ x :: s → i = len p → index l i = Ret x.
Proof.
  intros -> ->. apply index_lookup; [unfold len; lia|]. unfold len. rewrite Nat2Z.id, lookup_app_r, Nat.sub_diag by lia. done.
Qed.

Lemma extract_frame dst src h1 h2 sip dip sp ck payload :
  len dst = 6 → len src = 6 → is_uint 16 (28 + len payload) →
  extract_dhcp_from_frame (build_ethernet_frame src dst
    (wire_header (28 + len payload) 0 0x4000 IP_PROTOCOL_UDP h1 h2 sip dip ++ udp_header sp DHCP_CLIENT_PORT (8 + len payload) ck ++ payload))
  = Ret (Some payload).
Proof.
  intros Hd Hs Hl. set (ih := wire_header _ _ _ _ _ _ _ _). set (uh := udp_header _ _ _ _). set (f := build_ethernet_frame _ _ _).
  assert (len ih = 20 ∧ len uh = 8) as [Hih Huh] by done. set (pre := dst ++ src).
  assert (len pre = 12) as Hp by (unfold pre; rewrite len_app; lia).
  assert (f = pre ++ u16_to_be_bytes ETHERTYPE_IPV4 ++ ih ++ uh ++ payload) as Hf by (unfold f, build_ethernet_frame, pre; by rewrite <- !app_assoc).
  assert (len f = 42 + len payload) as Hlf by (rewrite Hf, !len_app, Hp, Hih, Huh; change (len (u16_to_be_bytes _)) with 2; lia).
  assert (0 ≤ len payload) by (unfold len; lia). assert (is_uint 16 (8 + len payload)) as Hu by (unfold is_uint in *; lia).
  unfold extract_dhcp_from_frame. rewrite (proj2 (Z.ltb_ge (len f) 14)) by lia.
  rewrite (read_u16_at f pre ETHERTYPE_IPV4 (ih ++ uh ++ payload) 12) by (done || lia). cbn [mbind outcome_bind].
  change (negb (ETHERTYPE_IPV4 =? ETHERTYPE_IPV4)) with false. cbv iota zeta. rewrite (proj2 (Z.ltb_ge (len f) (14 + 20))) by lia.
  set (p14 := pre ++ u16_to_be_bytes ETHERTYPE_IPV4). assert (len p14 = 14) as H14 by (unfold p14; rewrite len_app, Hp; done).
  assert (f = p14 ++ ih ++ uh ++ payload) as Hf14 by (rewrite Hf; unfold p14; by rewrite <- app_assoc).
  erewrite (index_at f p14 0x45 _ 14); [|rewrite Hf14; reflexivity|lia]. cbn [mbind outcome_bind].
  change (Z.shiftr 0x45 4 =? 4) with true. change (Z.land 0x45 0x0F) with 5. cbn [negb]. change (5 <? 5) with false. cbv iota.
  set (p23 := p14 ++ take 9 ih).
  erewrite (index_at f p23 17 _ (14 + 9)); [|rewrite Hf14; unfold p23; rewrite <- app_assoc; reflexivity|unfold p23; rewrite len_app, H14; done].
  cbn [mbind outcome_bind]. change (negb (17 =? 17)) with false. cbv iota.
  set (p16 := p14 ++ take 2 ih).
  erewrite (read_u16_at f p16 (28 + len payload) _ (14 + 2)); [|rewrite Hf14; unfold p16; rewrite <- app_assoc; reflexivity|done|unfold p16; rewrite len_app, H14; done].
  cbn [mbind outcome_bind]. change (14 + 5 * 4) with 34. rewrite (proj2 (Z.ltb_ge (len f) (34 + 8))) by lia.
  set (p34 := p14 ++ ih). assert (len p34 = 34) as H34 by (unfold p34; rewrite len_app, H14, Hih; done).
  assert (f = p34 ++ uh ++ payload) as Hf34 by (rewrite Hf14; unfold p34; by rewrite <- app_assoc).
  erewrite (read_u16_at f (p34 ++ u16_to_be_bytes sp) DHCP_CLIENT_PORT _ (34 + 2)); [|rewrite Hf34; unfold uh, udp_header; rewrite <- !app_assoc; reflexivity|done|rewrite len_app, H34; done].
  cbn [mbind outcome_bind]. change (negb (DHCP_CLIENT_PORT =? DHCP_CLIENT_PORT)) with false. cbv iota.
  erewrite (read_u16_at f (p34 ++ u16_to_be_bytes sp ++ u16_to_be_bytes DHCP_CLIENT_PORT) (8 + len payload) _ (34 + 4));
    [|rewrite Hf34; unfold uh, udp_header; unfold cast, wrap; rewrite (Z.mod_small (8 + len payload)) by exact Hu; rewrite <- !app_assoc; reflexivity|done|rewrite !len_app, H34; done].
  cbn [mbind outcome_bind]. rewrite (proj2 (Z.ltb_ge (8 + len payload) 8)), (proj2 (Z.ltb_ge (len f) _)) by lia.
  rewrite (slice_at f (p34 ++ uh) payload []); [done|rewrite app_nil_r, Hf34; by rewrite <- app_assoc|rewrite len_app, H34, Huh; lia..].
Qed.

Section wire.
Context `{BuildProfile}.

(** What a server sends. *)
Definition server_frame (smac dmac : list Z) (sip dip sp : Z) (msg : DhcpMessage) : outcome (list Z) :=
  payload ← to_bytes msg;
  packet ← build_udp sip dip sp DHCP_CLIENT_PORT payload;
  Ret (build_ethernet_frame smac dmac packet).

Record sender_ok (smac dmac : list Z) (sip dip sp : Z) : Prop := {
  sd_smac : len smac = 6;
  sd_dmac : len dmac = 6;
  sd_sip : is_uint 32 sip;
  sd_dip : is_uint 32 dip;
  sd_port : is_uint 16 sp;
}.

Lemma wire_bytes msg : fields_ok msg → Forall is_byte (wire msg).
Proof.
  intros R. assert (∀ x, is_uint 32 x → Forall is_byte (u32_to_be_bytes x)) as H32.
  { intros x Hx. unfold u32_to_be_bytes. rewrite !list.Forall_cons. split_and!; [|apply Z.mod_pos_bound; lia..|done].
    unfold is_byte, is_uint in *. split; [apply Z.div_pos; lia|apply Z.div_lt_upper_bound; lia]. }
  assert (∀ x, is_uint 16 x → Forall is_byte (u16_to_be_bytes x)) as H16.
  { intros x Hx. destruct (u16_bytes_roundtrip x Hx) as (_ & ? & ?). unfold u16_to_be_bytes. auto. }
  unfold wire, wire_fields. rewrite !list.Forall_app.
  split_and!; try (apply H32, R); try (apply H16, R); try apply zs_bytes; try apply R. unfold MAGIC_COOKIE. by rewrite !list.Forall_cons.
Qed.

(** A message in a datagram from the client or to it. *)
Lemma datagram_built sip dip sp dp msg :
  fields_ok msg → len (options msg) ≤ 1000 → is_uint 32 sip → is_uint 32 dip → is_uint 16 sp → is_uint 16 dp →
  ∃ h1 h2 ck, build_udp sip dip sp dp (wire msg) =
    Ret (wire_header (28 + len (wire msg)) 0 0x4000 IP_PROTOCOL_UDP h1 h2 sip dip ++ udp_header sp dp (8 + len (wire msg)) ck ++ wire msg) ∧
    is_uint 16 (28 + len (wire msg)).
Proof.
  intros F Hlen Hsi Hdi Hsp Hdp. destruct (fo_chaddr _ F) as [Hch _]. pose proof (len_wire msg Hch) as Hl. unfold padding in Hl.
  assert (0 ≤ len (options msg)) by (unfold len; lia).
  destruct (build_udp_ok sip dip sp dp (wire msg)) as (h1 & h2 & ck & Hb & _); [done|done| |].
  { split_and!; [done|done|by apply wire_bytes|lia]. }
  exists h1, h2, ck. split; [exact Hb|]. unfold is_uint. lia.
Qed.

Lemma server_frame_message smac dmac sip dip sp msg :
  sender_ok smac dmac sip dip sp → reply_ok msg → len (options msg) ≤ 1000 →
  ∃ f, server_frame smac dmac sip dip sp msg = Ret f ∧ message_of f = Ret (Some (extend msg (zs (padding msg)))).
Proof.
  intros [Hsm Hdm Hsi Hdi Hsp] R Hlen. destruct (fo_chaddr _ (rp_fields _ R)) as [Hch _]. unfold server_frame. rewrite to_bytes_wire by done. cbn [mbind outcome_bind].
  destruct (datagram_built sip dip sp DHCP_CLIENT_PORT msg) as (h1 & h2 & ck & Hb & Hu); [apply R|done..|].
  rewrite Hb. cbn [mbind outcome_bind]. eexists. split; [reflexivity|]. unfold message_of.
  rewrite extract_frame by done. cbn [mbind outcome_bind]. by apply parse_wire.
Qed.

(** ** Offers and acknowledgements *)

Definition the_option (os : list DhcpOption) (c : Z) : option (list Z) :=
  head (omap (λ o, if code o =? c then Some (opt_data o) else None) os).
Definition the_type (os : list DhcpOption) : option Z :=
  head (omap (λ o, if (code o =? OPT_MESSAGE_TYPE) && (len (opt_data o) =? 1) then head (opt_data o) else None) os).

(** A message of type [t] with the options [os] for our transaction. *)
Record message_ok (t : Z) (os : list DhcpOption) (msg : DhcpMessage) : Prop := {
  mo_reply : reply_ok msg;
  mo_options : options msg = encode_options os ++ [OPT_END];
  mo_encoded : Forall option_ok os;
  mo_length : len (options msg) ≤ 1000;
  mo_xid : xid msg = DHCP_XID;
  mo_type : the_type os = Some t;
  mo_yiaddr : yiaddr msg ≠ IP_ZERO;
}.

Lemma options_length os : (length os ≤ length (encode_options os))%nat.
Proof.
  induction os as [|o os IH]; [done|]. change (encode_options (o :: os)) with (encode_option o ++ encode_options os).
  rewrite length_app. unfold encode_option. simpl. lia.
Qed.

Lemma option_found {A} t os msg k (f : DhcpOption → option A) :
  message_ok t os msg → option_find (S (length (options (extend msg (zs k))))) (options (extend msg (zs k))) 0 f = Ret (head (omap f os)).
Proof.
  intros M. change 0 with (len (@nil Z)). apply (option_find_encoded f os [] (zs k)); [apply M| |].
  - cbn [extend options]. rewrite (mo_options _ _ _ M). by rewrite <- app_assoc.
  - cbn [extend options]. rewrite (mo_options _ _ _ M), !length_app. pose proof (options_length os). lia.
Qed.

Lemma type_ok t os msg k : message_ok t os msg → get_message_type (extend msg (zs k)) = Ret (Some t).
Proof. intros M. rewrite <- (mo_type _ _ _ M). exact (option_found t os msg k _ M). Qed.

Lemma option_ok_found t os msg k c : message_ok t os msg → get_option (extend msg (zs k)) c = Ret (the_option os c).
Proof. intros M. exact (option_found t os msg k _ M). Qed.

Definition the_server (os : list DhcpOption) (msg : DhcpMessage) : Z :=
  match the_option os OPT_SERVER_ID with
  | Some [a; b; c; d] => u32_from_be_bytes a b c d
  | _ => siaddr msg
  end.

Lemma offer_accepted os msg k :
  message_ok MSG_OFFER os msg → process_offer (extend msg (zs k)) = Ret (Some (yiaddr msg, the_server os msg)).
Proof.
  intros M. unfold process_offer. rewrite (type_ok _ _ _ _ M), (option_ok_found _ _ _ _ _ M). cbn [extend xid yiaddr siaddr].
  rewrite (mo_xid _ _ _ M). change (negb (DHCP_XID =? DHCP_XID)) with false. cbv iota. cbn [mbind outcome_bind]. change (negb (MSG_OFFER =? MSG_OFFER)) with false. cbv iota.
  rewrite (proj2 (Z.eqb_neq _ _)) by apply M.
  unfold the_server. destruct (the_option os OPT_SERVER_ID) as [d|]; [|done].
  destruct d as [|a [|b [|c [|e [|e' d]]]]]; try done. rewrite (proj2 (Z.eqb_neq _ 4)); [done|]. unfold len. simpl. lia.
Qed.

Definition the_u32 (os : list DhcpOption) (c : Z) (ok : Z → bool) (old : Z) : Z :=
  match the_option os c with
  | Some d => if ok (len d) then match d with a :: b :: c :: e :: _ => u32_from_be_bytes a b c e | _ => old end else old
  | None => old
  end.

Lemma option_u32_ok t os msg k c ok old :
  message_ok t os msg → (∀ n, ok n = true → 4 ≤ n) → option_u32 (extend msg (zs k)) c ok old = Ret (the_u32 os c ok old).
Proof.
  intros M Hok. unfold option_u32. rewrite (option_ok_found _ _ _ _ _ M). cbn [mbind outcome_bind]. unfold the_u32.
  destruct (the_option os c) as [d|]; [|done]. destruct (ok (len d)) eqn:E; [|done]. apply Hok in E.
  destruct d as [|x1 [|x2 [|x3 [|x4 d]]]]; try (unfold len in E; simpl in E; lia). done.
Qed.

(** The state that an acknowledgement at [now] gives. *)
Definition lease_of (os : list DhcpOption) (msg : DhcpMessage) (now : Z) (s : NetworkState) : NetworkState :=
  mkNetworkState (yiaddr msg) (the_u32 os OPT_SUBNET_MASK (λ n, n =? 4) (subnet_mask s))
    (the_u32 os OPT_ROUTER (λ n, 4 <=? n) (gateway s)) (the_u32 os OPT_DNS_SERVER (λ n, 4 <=? n) (dns s)) true
    (the_u32 os OPT_LEASE_TIME (λ n, 4 <=? n) (lease_secs s)) now (siaddr msg).

Lemma ack_accepted {L} `{Ethernet L} os msg k (c : Client L) :
  message_ok MSG_ACK os msg →
  process_ack (extend msg (zs k)) c =
    Ret (true, mkClient (lease_of os msg (ticks (link c)).1 (state c)) (negotiating c) (ticks (link c)).2).
Proof.
  intros M. unfold process_ack. rewrite (type_ok _ _ _ _ M), !(option_u32_ok _ _ _ _ _ _ _ M) by (intros; lia). cbn [extend xid yiaddr siaddr].
  rewrite (mo_xid _ _ _ M). change (negb (DHCP_XID =? DHCP_XID)) with false. cbv iota. cbn [mbind outcome_bind].
  change (negb (MSG_ACK =? MSG_ACK)) with false. cbv iota. rewrite (proj2 (Z.eqb_neq _ _)) by apply M. cbn [mbind outcome_bind].
  destruct (ticks (link c)) as [now l]. done.
Qed.

End wire.

(** ** The exchange *)

Section negotiate.
Context {L : Type} `{Ethernet L} `{BuildProfile}.
Implicit Types (c : Client L) (l : L).

(** The client's own messages. *)
Definition request_message (mac os : list Z) : DhcpMessage :=
  mkDhcpMessage OP_BOOT_REQUEST HTYPE_ETHERNET HLEN_ETHERNET 0 DHCP_XID 0 0x8000 IP_ZERO IP_ZERO IP_ZERO IP_ZERO (mac ++ replicate 10 0) os.

Definition discover_options : list Z := [OPT_MESSAGE_TYPE; 1; MSG_DISCOVER] ++ PARAM_LIST ++ [OPT_END].
Definition request_options (offered server : Z) : list Z :=
  [OPT_MESSAGE_TYPE; 1; MSG_REQUEST; OPT_REQUESTED_IP; 4] ++ u32_to_be_bytes offered ++ [OPT_SERVER_ID; 4] ++ u32_to_be_bytes server ++
  PARAM_LIST ++ [OPT_END].

Lemma request_fields mac os :
  len mac = 6 → Forall is_byte mac → Forall is_byte os → fields_ok (request_message mac os).
Proof.
  intros Hl Hm Ho. split; cbn [request_message op htype hlen hops xid secs dhcp_flags ciaddr yiaddr siaddr giaddr chaddr options]; try done.
  - by rewrite !list.Forall_cons.
  - rewrite len_app, Hl. split; [done|]. apply list.Forall_app. split; [done|]. apply Forall_replicate. unfold is_byte, is_uint. lia.
Qed.

Lemma new_request_ok mac : len mac = 6 → new_request mac DHCP_XID = Ret (request_message mac []).
Proof.
  intros Hl. unfold new_request. rewrite copy_into_ok by (done || rewrite Hl; done). done.
Qed.

(** The datagram of a request with the options [os]. *)
Definition request_packet (mac os : list Z) : outcome (list Z) :=
  build_udp IP_ZERO IP_BROADCAST DHCP_CLIENT_PORT DHCP_SERVER_PORT (wire (request_message mac os)).

Lemma build_discover_ok mac :
  len mac = 6 → build_discover mac = request_packet mac discover_options.
Proof.
  intros Hl. unfold build_discover. rewrite new_request_ok by done. cbn [mbind outcome_bind]. match goal with |- context [to_bytes ?m] => change m with (request_message mac discover_options) end.
  rewrite to_bytes_wire; [reflexivity|].
  cbn [request_message chaddr]. by rewrite len_app, Hl.
Qed.

Lemma build_request_ok mac offered server :
  len mac = 6 → build_request mac offered server = request_packet mac (request_options offered server).
Proof.
  intros Hl. unfold build_request. rewrite new_request_ok by done. cbn [mbind outcome_bind]. match goal with |- context [to_bytes ?m] => change m with (request_message mac (request_options offered server)) end.
  rewrite to_bytes_wire; [reflexivity|].
  cbn [request_message chaddr]. by rewrite len_app, Hl.
Qed.

Lemma request_packet_ok mac os :
  len mac = 6 → Forall is_byte mac → Forall is_byte os → len os ≤ 1000 → ∃ p, request_packet mac os = Ret p.
Proof.
  intros Hl Hm Ho Hlo. destruct (datagram_built IP_ZERO IP_BROADCAST DHCP_CLIENT_PORT DHCP_SERVER_PORT (request_message mac os))
    as (h1 & h2 & ck & Hb & _); [by apply request_fields|done..|]. unfold request_packet. rewrite Hb. by eexists.
Qed.

Lemma u32_bytes_ok x : Forall is_byte (u32_to_be_bytes x) ↔ is_byte (x `div` 2 ^ 24).
Proof.
  unfold u32_to_be_bytes. rewrite !list.Forall_cons. assert (∀ y, is_byte (y mod 256)) as Hm by (intros; apply Z.mod_pos_bound; lia).
  split; [by intros [? _]|]. intros. by auto.
Qed.

(** [n] polls of the link, each with nothing or with a frame in [Q]. *)
Inductive polls (Q : list Z → Prop) : nat → L → L → Prop :=
  | polls_done l : polls Q 0 l l
  | polls_more n l f l' l'' :
      receive_ethernet l = (f, l') → (∀ x, f = Some x → Q x) → polls Q n l' l'' → polls Q (S n) l l''.

(** Frames that carry no offer, and frames that carry no acknowledgement. *)
Definition no_offer (f : list Z) : Prop := offer_in (Some f) = Ret None.
Definition no_ack (f : list Z) : Prop := ∀ c, ack_in (Some f) c = Ret (false, c).

Lemma wait_offer_polls n m c l' :
  polls no_offer n (link c) l' → wait_offer (n + m) c = wait_offer m (with_link c l').
Proof.
  intros Hp. remember (link c) as l eqn:Hl. revert c Hl. induction Hp as [l|n l f l1 l2 Hr HQ Hp IH]; intros c Hl.
  - subst l. by destruct c.
  - cbn [Nat.add wait_offer]. rewrite <- Hl, Hr. assert (offer_in f = Ret None) as -> by (destruct f; [by apply HQ|done]).
    rewrite bind_Ret. by rewrite (IH (with_link c l1)).
Qed.

Lemma wait_ack_polls n m c l' :
  polls no_ack n (link c) l' → wait_ack (n + m) c = wait_ack m (with_link c l').
Proof.
  intros Hp. remember (link c) as l eqn:Hl. revert c Hl. induction Hp as [l|n l f l1 l2 Hr HQ Hp IH]; intros c Hl.
  - subst l. by destruct c.
  - cbn [Nat.add wait_ack]. unfold poll_ack. rewrite <- Hl, Hr.
    assert (ack_in f (with_link c l1) = Ret (false, with_link c l1)) as -> by (destruct f; [by apply HQ|done]).
    rewrite bind_Ret. by rewrite (IH (with_link c l1)).
Qed.

(** A frame in which a message for the client arrives. *)
Definition carries (f : list Z) (msg : DhcpMessage) : Prop :=
  ∃ smac dmac sip dip sp, sender_ok smac dmac sip dip sp ∧ server_frame smac dmac sip dip sp msg = Ret f.

Lemma carries_message f t os msg : carries f msg → message_ok t os msg → message_of f = Ret (Some (extend msg (zs (padding msg)))).
Proof.
  intros (smac & dmac & sip & dip & sp & Hs & Hf) M.
  destruct (server_frame_message smac dmac sip dip sp msg Hs) as (f' & Hf' & Hm); [apply M..|]. congruence.
Qed.

Lemma u32_to_bytes_ok x : is_uint 32 x → Forall is_byte (u32_to_be_bytes x).
Proof.
  intros Hx. apply u32_bytes_ok. unfold is_byte, is_uint in *. split; [apply Z.div_pos; lia|apply Z.div_lt_upper_bound; lia].
Qed.

Lemma the_server_ok os msg : fields_ok msg → Forall option_ok os → is_uint 32 (the_server os msg).
Proof.
  intros F Ho. unfold the_server. destruct (the_option os OPT_SERVER_ID) as [d|] eqn:Hd; [|apply F].
  destruct d as [|a [|b [|c [|e [|e' d]]]]]; try apply F.
  unfold the_option in Hd. apply head_Some_elem_of, list_elem_of_omap in Hd as (o & Hin & Hof). destruct (code o =? _); [|done]. injection Hof as Hof.
  rewrite list.Forall_forall in Ho. destruct (Ho o Hin) as (_ & _ & Hb). rewrite Hof, !list.Forall_cons in Hb.
  destruct Hb as (Ha & Hb & Hc & He & _). by apply u32_be_bytes.
Qed.

Definition the_frame (mac p : list Z) : list Z := build_ethernet_frame mac ETH_BROADCAST p.

(** What the link does during an exchange: it accepts DISCOVER, delivers the
    offer after at most 999 other frames, accepts REQUEST for the offered address
    and delivers the acknowledgement after at most 999 other frames. *)
Definition exchange (mac : list Z) l (offer ack : DhcpMessage) (os : list DhcpOption) l' : Prop :=
  ∃ p1 p2 n1 n2 l1 l2 l3 l4 l5 f1 f2 x1 x2,
    request_packet mac discover_options = Ret p1 ∧ send_ethernet l (the_frame mac p1) = (Ok x1, l1) ∧
    polls no_offer n1 l1 l2 ∧ (n1 < MAX_RETRIES)%nat ∧ receive_ethernet l2 = (Some f1, l3) ∧ carries f1 offer ∧
    request_packet mac (request_options (yiaddr offer) (the_server os offer)) = Ret p2 ∧ send_ethernet l3 (the_frame mac p2) = (Ok x2, l4) ∧
    polls no_ack n2 l4 l5 ∧ (n2 < MAX_RETRIES)%nat ∧ receive_ethernet l5 = (Some f2, l') ∧ carries f2 ack.

(** C15: A client that is not negotiating obtains a lease: when the link carries
    the exchange, with any other frames in between, [dhcp_negotiate] returns true
    after it sent DISCOVER and REQUEST for the offered address, and the network
    state is the one the acknowledgement grants. *)
Theorem dhcp_handshake mac c offer ack os os' l' :
  len mac = 6 → negotiating c = false → message_ok MSG_OFFER os offer → message_ok MSG_ACK os' ack →
  exchange mac (link c) offer ack os l' →
  dhcp_negotiate mac c = Ret (true, mkClient (lease_of os' ack (ticks l').1 (state c)) false (ticks l').2).
Proof.
  intros Hmac Hn Mo Ma (p1 & p2 & n1 & n2 & l1 & l2 & l3 & l4 & l5 & f1 & f2 & x1 & x2 & Hp1 & Hs1 & Hq1 & Hl1 & Hr1 & Hc1 & Hp2 & Hs2 & Hq2 & Hl2 & Hr2 & Hc2).
  unfold dhcp_negotiate. rewrite Hn, build_discover_ok, Hp1 by done. rewrite bind_Ret. cbn [set_negotiating link]. fold (the_frame mac p1). rewrite Hs1.
  replace MAX_RETRIES with (n1 + S (MAX_RETRIES - S n1))%nat at 1 by lia. rewrite (wait_offer_polls n1 _ _ l2) by done.
  cbn [wait_offer with_link link]. rewrite Hr1. unfold offer_in. rewrite (carries_message _ _ _ _ Hc1 Mo), bind_Ret, (offer_accepted _ _ _ Mo), !bind_Ret.
  cbv iota beta. rewrite build_request_ok, Hp2, bind_Ret by done. cbn [with_link link]. fold (the_frame mac p2). rewrite Hs2.
  replace MAX_RETRIES with (n2 + S (MAX_RETRIES - S n2))%nat by lia. rewrite (wait_ack_polls n2 _ _ l5) by done.
  cbn [wait_ack with_link link]. unfold poll_ack. cbn [with_link link]. rewrite Hr2. unfold ack_in.
  rewrite (carries_message _ _ _ _ Hc2 Ma), bind_Ret, (ack_accepted _ _ _ _ Ma), !bind_Ret. done.
Qed.

(** ** Any link *)

(** A link that delivers bytes. *)
Record link_ok (good : L → Prop) : Prop := {
  lk_send l f : good l → good (send_ethernet l f).2;
  lk_receive l : good l → good (receive_ethernet l).2 ∧ ∀ f, (receive_ethernet l).1 = Some f → Forall is_byte f;
  lk_ticks l : good l → good (ticks l).2;
}.

Context (good : L → Prop) (lk : link_ok good).

Lemma offer_in_total f : (∀ x, f = Some x → Forall is_byte x) →
  ∃ o, offer_in f = Ret o ∧ ∀ a s, o = Some (a, s) → is_uint 32 a ∧ is_uint 32 s.
Proof.
  intros Hf. destruct f as [f|]; [|by exists None]. cbn [offer_in]. destruct (message_total f) as (m & -> & Hm); [by apply Hf|]. rewrite bind_Ret.
  destruct m as [m|]; [by apply offer_total, Hm|by exists None].
Qed.

(** What a step of the client may change. *)
Definition step_ok c ok c' : Prop :=
  good (link c') ∧ negotiating c' = negotiating c ∧ (ok = false → state c' = state c) ∧ (ok = true → configured (state c') = true).

Lemma ack_in_total f c : (∀ x, f = Some x → Forall is_byte x) → good (link c) → ∃ ok c', ack_in f c = Ret (ok, c') ∧ step_ok c ok c' ∧ (ok = false → c' = c).
Proof.
  intros Hf Hg. destruct f as [f|]; [|by exists false, c]. cbn [ack_in]. destruct (message_total f) as (m & -> & Hm); [by apply Hf|]. rewrite bind_Ret.
  destruct m as [m|]; [|by exists false, c]. destruct (ack_total m c) as (ok & c' & Ha & Hn & Hfa & Htr); [by apply Hm|]. exists ok, c'.
  split; [done|]. split; [|done]. split; [|split_and!; [done|intros E; by rewrite Hfa|intros E; by apply Htr]].
  destruct ok; [|by rewrite Hfa]. destruct (Htr eq_refl) as [_ ->]. by apply (lk_ticks _ lk).
Qed.

Lemma poll_ack_total c : good (link c) → ∃ ok c', poll_ack c = Ret (ok, c') ∧ step_ok c ok c'.
Proof.
  intros Hg. unfold poll_ack. destruct (lk_receive _ lk _ Hg) as [Hg' Hb]. destruct (receive_ethernet (link c)) as [f l']. cbn [fst snd] in *.
  destruct (ack_in_total f (with_link c l') Hb Hg') as (ok & c' & Ha & Hs & _). by exists ok, c'.
Qed.

Lemma wait_ack_total n c : good (link c) → ∃ ok c', wait_ack n c = Ret (ok, c') ∧ step_ok c ok c'.
Proof.
  revert c. induction n as [|n IH]; intros c Hg; [by exists false, c|]. cbn [wait_ack].
  destruct (poll_ack_total c Hg) as (ok & c1 & -> & Hg1 & Hn1 & Hf1 & Ht1). rewrite bind_Ret. destruct ok; [by exists true, c1|].
  destruct (IH c1 Hg1) as (ok & c2 & -> & Hg2 & Hn2 & Hf2 & Ht2). exists ok, c2. split; [done|]. split_and!; [done|congruence| |done].
  intros E. rewrite Hf2 by done. by apply Hf1.
Qed.

Lemma wait_offer_total n c : good (link c) →
  ∃ o c', wait_offer n c = Ret (o, c') ∧ good (link c') ∧ negotiating c' = negotiating c ∧ state c' = state c ∧
    ∀ a s, o = Some (a, s) → is_uint 32 a ∧ is_uint 32 s.
Proof.
  revert c. induction n as [|n IH]; intros c Hg; [by exists None, c|]. cbn [wait_offer].
  destruct (lk_receive _ lk _ Hg) as [Hg' Hb]. destruct (receive_ethernet (link c)) as [f l']. cbn [fst snd] in *.
  destruct (offer_in_total f Hb) as (o & -> & Ho). rewrite bind_Ret. destruct o as [o|]; [by eexists _, _|].
  destruct (IH (with_link c l') Hg') as (o & c2 & -> & ?). by exists o, c2.
Qed.

Lemma packet_of_request mac offered server :
  len mac = 6 → Forall is_byte mac → is_uint 32 offered → is_uint 32 server → ∃ p, request_packet mac (request_options offered server) = Ret p.
Proof.
  intros Hl Hm Ho Hs. apply request_packet_ok; [done|done| |].
  - unfold request_options, PARAM_LIST. rewrite !list.Forall_app, !list.Forall_cons. split_and!; try done; by apply u32_to_bytes_ok.
  - unfold request_options. rewrite !len_app, !len_u32_bytes. done.
Qed.

(** C33: On any link that delivers bytes the negotiation ends without a panic and
    is over when it ends, and the network state changes only when it succeeds. *)
Theorem dhcp_negotiate_total mac c :
  len mac = 6 → Forall is_byte mac → good (link c) → negotiating c = false →
  ∃ ok c', dhcp_negotiate mac c = Ret (ok, c') ∧ negotiating c' = false ∧ good (link c') ∧
    (ok = false → state c' = state c) ∧ (ok = true → configured (state c') = true).
Proof.
  intros Hl Hm Hg Hn. unfold dhcp_negotiate. rewrite Hn, build_discover_ok by done.
  destruct (request_packet_ok mac discover_options) as [p1 ->]; [done|done|by apply all_bytes_ok|done|]. rewrite bind_Ret. cbn [set_negotiating link].
  pose proof (lk_send _ lk (link c) (build_ethernet_frame mac ETH_BROADCAST p1) Hg) as Hg1.
  destruct (send_ethernet (link c) _) as [[x|e] l1]; [|by eexists false, _].
  destruct (wait_offer_total MAX_RETRIES (with_link (set_negotiating c true) l1) Hg1) as (o & c2 & -> & Hg2 & Hn2 & Hs2 & Ho). rewrite bind_Ret.
  destruct o as [[a s]|]; [|by eexists false, _]. destruct (Ho a s eq_refl) as [Ha Hs]. rewrite build_request_ok by done.
  destruct (packet_of_request mac a s) as [p2 ->]; [done..|]. rewrite bind_Ret.
  pose proof (lk_send _ lk (link c2) (build_ethernet_frame mac ETH_BROADCAST p2) Hg2) as Hg3.
  destruct (send_ethernet (link c2) _) as [[x'|e] l3]; [|by eexists false, _].
  destruct (wait_ack_total MAX_RETRIES (with_link c2 l3) Hg3) as (ok & c4 & -> & Hg4 & _ & Hf4 & Ht4). rewrite bind_Ret.
  eexists ok, _. split; [done|]. split_and!; [done|done| |done]. intros E. cbn [set_negotiating state]. rewrite Hf4 by done. exact Hs2.
Qed.

(** ** Renewal *)

(** The link has at most [rank l] turns of the loop before the timer reaches the
    deadline. *)
Definition clock_runs (deadline : Z) (rank : L → nat) : Prop :=
  ∀ l now l1 f l2, ticks l = (now, l1) → now < deadline → receive_ethernet l1 = (f, l2) → (rank l2 < rank l)%nat.

Lemma renewal_loop_ends deadline rank fuel c :
  clock_runs deadline rank → good (link c) → (rank (link c) < fuel)%nat →
  ∃ c', renewal_loop fuel deadline c = Ret (Some c') ∧ negotiating c' = negotiating c ∧ good (link c') ∧
    (state c' = state c ∨ configured (state c') = true).
Proof.
  intros Hr. revert c. induction fuel as [|fuel IH]; intros c Hg Hf; [lia|]. cbn [renewal_loop].
  pose proof (lk_ticks _ lk _ Hg) as Hg1. destruct (ticks (link c)) as [now l1] eqn:Ht. cbn [snd] in Hg1.
  destruct (Z.ltb_spec now deadline) as [Hlt|]; [|eexists; by auto].
  destruct (receive_ethernet l1) as [f l2] eqn:Hrec. pose proof (Hr _ _ _ _ _ Ht Hlt Hrec) as Hrank.
  destruct (lk_receive _ lk _ Hg1) as [Hg2 Hb]. rewrite Hrec in Hg2, Hb. cbn [fst snd] in *.
  unfold poll_ack. cbn [with_link link]. rewrite Hrec.
  destruct (ack_in_total f (with_link (with_link c l1) l2) Hb Hg2) as (ok & c' & Ha & (Hg' & Hn & _ & Htr) & Hfa). rewrite Ha, bind_Ret.
  destruct ok; [exists c'; split_and!; [done|done|done|right; by apply Htr]|]. rewrite Hfa by done. apply (IH (with_link (with_link c l1) l2)); [done|]. cbn [with_link link]. lia.
Qed.


End negotiate.

(** ** A link with a script *)

(** The frames to come, the frames sent and a clock that ticks on each reading. *)
Record Script : Type := mkScript { inbox : list (option (list Z)); sent : list (list Z); clock : Z }.

#[export] Instance Script_ethernet : Ethernet Script := {|
  send_ethernet l f := (Ok (len f), mkScript (inbox l) (sent l ++ [f]) (clock l));
  receive_ethernet l := match inbox l with
                        | [] => (None, l)
                        | f :: fs => (f, mkScript fs (sent l) (clock l))
                        end;
  ticks l := (clock l, mkScript (inbox l) (sent l) (clock l + 1));
|}.

Section script.
#[local] Existing Instance release_profile.

Definition my_mac : list Z := [0x52; 0x54; 0; 0x12; 0x34; 0x56].
Definition their_mac : list Z := [0x52; 0x55; 10; 0; 2; 2].

Definition reply (t : Z) (os : list DhcpOption) : DhcpMessage :=
  mkDhcpMessage OP_BOOT_REPLY HTYPE_ETHERNET HLEN_ETHERNET 0 DHCP_XID 0 0 0 0x0A00020F 0x0A000202 0 (my_mac ++ replicate 10 0)
    (encode_options os ++ [OPT_END]).

Definition offer_options : list DhcpOption := [mkDhcpOption OPT_MESSAGE_TYPE [MSG_OFFER]; mkDhcpOption OPT_SERVER_ID [10; 0; 2; 2]].
Definition ack_options : list DhcpOption :=
  [mkDhcpOption OPT_MESSAGE_TYPE [MSG_ACK]; mkDhcpOption OPT_SUBNET_MASK [255; 255; 255; 0]; mkDhcpOption OPT_ROUTER [10; 0; 2; 2];
   mkDhcpOption OPT_DNS_SERVER [10; 0; 2; 3]; mkDhcpOption OPT_LEASE_TIME [0; 1; 81; 128]].

Definition frame_of (msg : DhcpMessage) : list Z :=
  match server_frame their_mac my_mac 0x0A000202 0x0A00020F 67 msg with Ret f => f | Panic => [] end.

Definition noise : list Z := replicate 60 7.

Definition script : Script :=
  mkScript [None; Some noise; Some (frame_of (reply MSG_OFFER offer_options)); Some noise; Some (frame_of (reply MSG_ACK ack_options))] [] 100.

Lemma reply_message t os :
  all_bytes (options (reply t os)) = true → Forall option_ok os → len (options (reply t os)) ≤ 1000 → the_type os = Some t →
  message_ok t os (reply t os).
Proof.
  intros Hb Ho Hl Ht. split; try done. split; try done. split; try done; try (by apply all_bytes_ok).
  split; [done|by apply all_bytes_ok].
Qed.

Lemma frame_carries msg : (match server_frame their_mac my_mac 0x0A000202 0x0A00020F 67 msg with Ret _ => true | Panic => false end) = true →
  carries (frame_of msg) msg.
Proof.
  intros Hm. exists their_mac, my_mac, 0x0A000202, 0x0A00020F, 67. split; [done|]. unfold frame_of.
  by destruct (server_frame _ _ _ _ _ msg).
Qed.

Definition after_script : Script :=
  match request_packet my_mac discover_options, request_packet my_mac (request_options 0x0A00020F 0x0A000202) with
  | Ret p1, Ret p2 => mkScript [] [the_frame my_mac p1; the_frame my_mac p2] 100
  | _, _ => script
  end.

Lemma noise_quiet : no_offer noise ∧ no_ack (L := Script) noise.
Proof. split; [by vm_compute|]. intros c. unfold ack_in. assert (message_of noise = Ret None) as -> by (by vm_compute). done. Qed.

Lemma script_exchange : exchange my_mac script (reply MSG_OFFER offer_options) (reply MSG_ACK ack_options) offer_options after_script.
Proof.
  unfold after_script. destruct (request_packet my_mac discover_options) as [p1|] eqn:E1; [|by vm_compute in E1].
  destruct (request_packet my_mac (request_options 0x0A00020F 0x0A000202)) as [p2|] eqn:E2; [|by vm_compute in E2].
  destruct noise_quiet as [Hno Hna]. set (F1 := the_frame my_mac p1). set (F2 := the_frame my_mac p2).
  exists p1, p2, 2%nat, 1%nat, (mkScript (inbox script) [F1] 100), (mkScript (drop 2 (inbox script)) [F1] 100), (mkScript (drop 3 (inbox script)) [F1] 100),
    (mkScript (drop 3 (inbox script)) [F1; F2] 100), (mkScript (drop 4 (inbox script)) [F1; F2] 100),
    (frame_of (reply MSG_OFFER offer_options)), (frame_of (reply MSG_ACK ack_options)), (len F1), (len F2).
  split_and!; [done|done| |apply Nat.ltb_lt; by vm_compute|done|apply frame_carries; by vm_compute|exact E2|done| |apply Nat.ltb_lt; by vm_compute|done|apply frame_carries; by vm_compute].
  - eapply polls_more; [reflexivity|done|]. eapply polls_more; [reflexivity| |constructor]. by intros x [= <-].
  - eapply polls_more; [reflexivity| |constructor]. by intros x [= <-].
Qed.

Lemma offer_message : message_ok MSG_OFFER offer_options (reply MSG_OFFER offer_options).
Proof.
  apply reply_message; [by vm_compute| |by vm_compute|by vm_compute]. unfold offer_options. rewrite !list.Forall_cons.
  split_and!; [(split; [done|]; split; [done|]; by apply all_bytes_ok)..|done].
Qed.

Lemma ack_message : message_ok MSG_ACK ack_options (reply MSG_ACK ack_options).
Proof.
  apply reply_message; [by vm_compute| |by vm_compute|by vm_compute]. unfold ack_options. rewrite !list.Forall_cons.
  split_and!; [(split; [done|]; split; [done|]; by apply all_bytes_ok)..|done].
Qed.

Lemma dhcp_handshake_witness :
  dhcp_negotiate my_mac (mkClient NETWORK_STATE false script) =
    Ret (true, mkClient (mkNetworkState 0x0A00020F 0xFFFFFF00 0x0A000202 0x0A000203 true 86400 100 0x0A000202) false
      (mkScript [] (sent after_script) 101)).
Proof.
  etrans; [exact (dhcp_handshake my_mac (mkClient NETWORK_STATE false script) (reply MSG_OFFER offer_options) (reply MSG_ACK ack_options)
    offer_options ack_options after_script eq_refl eq_refl offer_message ack_message script_exchange)|].
  vm_compute. reflexivity.
Defined.

(** Scripts of bytes. *)
Definition script_ok (l : Script) : Prop := Forall (λ f, match f with Some f => Forall is_byte f | None => True end) (inbox l).

Lemma script_link : link_ok script_ok.
Proof.
  split; [done| |done]. intros l Hl. unfold script_ok in *. simpl. destruct (inbox l) as [|f fs] eqn:E; simpl; [by rewrite E|].
  apply list.Forall_cons in Hl as [Hf Hfs]. split; [done|]. by intros x ->.
Qed.

Lemma script_bytes : script_ok script.
Proof.
  unfold script_ok. cbn [inbox script]. rewrite !list.Forall_cons. split_and!; try done; apply all_bytes_ok; by vm_compute.
Qed.

Lemma dhcp_negotiate_total_witness :
  ∃ ok c', dhcp_negotiate my_mac (mkClient NETWORK_STATE false script) = Ret (ok, c') ∧ negotiating c' = false.
Proof.
  destruct (dhcp_negotiate_total script_ok script_link my_mac (mkClient NETWORK_STATE false script)) as (ok & c' & Hr & Hn & _);
    [done|by apply all_bytes_ok|exact script_bytes|done|]. exists ok, c'. exact (conj Hr Hn).
Defined.

(** A lease of 100 seconds, checked after 60 on a link that stays silent. *)
Definition leased : Client Script :=
  mkClient (mkNetworkState 0x0A00020F 0xFFFFFF00 0x0A000202 0x0A000203 true 100 0 0x0A000202) false (mkScript [] [] 1080).

Lemma script_clock : clock_runs (L := Script) 1116 (λ l, Z.to_nat (1116 - clock l)).
Proof.
  intros l now l1 f l2 [= <- <-] Hlt. cbn [receive_ethernet Script_ethernet inbox]. destruct (inbox l); intros [= <- <-]; cbn [clock]; lia.
Qed.


End script.
