(* ===== verification/Pthreads.v ===== *)
(** * Locks, barriers and keys of the thread library (user/pthreads/src/lib.rs)

    Each operation of the library is a sequence of atomic accesses to shared
    words; threads interleave between any two of them. A thread is the position in
    the operation it executes, [*_next] gives the steps from a position, and a
    system of any number of threads takes the steps of any one of them at a time.
    Atomic accesses are sequentially consistent. [compare_exchange_weak] may fail
    without a reason. Yielding the processor is not a step of its own where it
    changes nothing. *)

From stdpp Require Import strings relations.
From S2P Require Import Prelude.
Local Open Scope Z_scope.

(** ** Interleaving *)

Section interleaving.
Context {S P : Type} (next : P → S → list (P * S)).

Inductive sys_step : S * list P → S * list P → Prop :=
  | sys_step_at s ps i p p' s' : ps !! i = Some p → (p', s') ∈ next p s → sys_step (s, ps) (s', <[i := p']> ps).

Definition reachable (s : S) (ps : list P) (c : S * list P) : Prop := rtc sys_step (s, ps) c.

Lemma reachable_inv (I : S → list P → Prop) s ps c :
  I s ps → (∀ s ps i p p' s', I s ps → ps !! i = Some p → (p', s') ∈ next p s → I s' (<[i := p']> ps)) →
  reachable s ps c → I c.1 c.2.
Proof.
  intros H0 Hs Hr. assert (I (s, ps).1 (s, ps).2) as Hi by done. revert Hi. clear H0. unfold reachable in Hr.
  induction Hr as [c|c c1 c2 Hc Hr IH]; intros Hi; [done|]. apply IH. destruct Hc. by eapply Hs.
Qed.

End interleaving.

(** ** Mutex *)

Definition MUTEX_UNLOCKED : Z := 0.
Definition MUTEX_LOCKED : Z := 1.
Definition MUTEX_LOCKED_WAITERS : Z := 2.

(** Where a thread is in [Mutex::lock]: before the exchange, before the exchange
    that announces a waiter, before it yields. *)
Inductive lock_pc : Type := LTry | LMark | LYield.

(** A step of [lock]; [None] when the lock is acquired. *)
Definition lock_next (p : lock_pc) (state : Z) : list (option lock_pc * Z) :=
  match p with
  | LTry =>
      if state =? MUTEX_UNLOCKED then [(None, MUTEX_LOCKED); (Some LTry, state)]
      else if state =? MUTEX_LOCKED then [(Some LMark, state)]
      else if state =? MUTEX_LOCKED_WAITERS then [(Some LYield, state)]
      else [(Some LTry, state)]
  | LMark => [(Some LYield, if state =? MUTEX_LOCKED then MUTEX_LOCKED_WAITERS else state)]
  | LYield => [(Some LTry, state)]
  end.

Inductive mutex_pc : Type :=
  | MIdle
  | MLocking (p : lock_pc)
  | MTrying
  | MHeld
  | MYielding.

(** [lock], [trylock] and [unlock] by a thread that uses the mutex as it should:
    it unlocks what it has locked. *)
Definition mutex_next (p : mutex_pc) (state : Z) : list (mutex_pc * Z) :=
  match p with
  | MIdle => [(MLocking LTry, state); (MTrying, state)]
  | MLocking p => (λ '(r, s), (match r with Some p => MLocking p | None => MHeld end, s)) <$> lock_next p state
  | MTrying => if state =? MUTEX_UNLOCKED then [(MHeld, MUTEX_LOCKED); (MIdle, state)] else [(MIdle, state)]
  | MHeld => [(if state =? MUTEX_LOCKED_WAITERS then MYielding else MIdle, MUTEX_UNLOCKED)]
  | MYielding => [(MIdle, state)]
  end.

(** ** Spinlock *)

Inductive spin_pc : Type := SIdle | SLocking | STrying | SHeld.

Definition spin_next (p : spin_pc) (locked : bool) : list (spin_pc * bool) :=
  match p with
  | SIdle => [(SLocking, locked); (STrying, locked)]
  | SLocking => if locked then [(SLocking, locked)] else [(SHeld, true); (SLocking, locked)]
  | STrying => if locked then [(SIdle, locked)] else [(SHeld, true); (SIdle, locked)]
  | SHeld => [(SIdle, false)]
  end.

(** ** Read-write lock *)

Definition WRITER : Z := 2 ^ 63.

Inductive rw_pc : Type :=
  | RwIdle
  | ReadLoad
  | ReadCas (s : Z)
  | ReadYield
  | TryReadLoad
  | TryReadCas (s : Z)
  | Reading
  | WriteLoad
  | WriteCas
  | WriteYield
  | TryWrite
  | Writing.

(** The readers are counted in bits 0 to 62, bit 63 is the writer. *)
Definition rw_next (p : rw_pc) (state : Z) : list (rw_pc * Z) :=
  match p with
  | RwIdle => [(ReadLoad, state); (TryReadLoad, state); (WriteLoad, state); (TryWrite, state)]
  | ReadLoad => [(if Z.land state WRITER =? 0 then ReadCas state else ReadYield, state)]
  | ReadCas s => if state =? s then [(Reading, wrap 64 (s + 1)); (ReadYield, state)] else [(ReadYield, state)]
  | ReadYield => [(ReadLoad, state)]
  | TryReadLoad => [(if Z.land state WRITER =? 0 then TryReadCas state else RwIdle, state)]
  | TryReadCas s => if state =? s then [(Reading, wrap 64 (s + 1)); (RwIdle, state)] else [(RwIdle, state)]
  | Reading => [(RwIdle, wrap 64 (state - 1))]
  | WriteLoad => [(if state =? 0 then WriteCas else WriteYield, state)]
  | WriteCas => if state =? 0 then [(Writing, WRITER); (WriteYield, state)] else [(WriteYield, state)]
  | WriteYield => [(WriteLoad, state)]
  | TryWrite => if state =? 0 then [(Writing, WRITER); (RwIdle, state)] else [(RwIdle, state)]
  | Writing => [(RwIdle, 0)]
  end.

(** ** One-time initialisation *)

Definition ONCE_INCOMPLETE : Z := 0.
Definition ONCE_IN_PROGRESS : Z := 1.
Definition ONCE_COMPLETE : Z := 2.

(** [o_runs] counts the calls of the function that have finished. *)
Record Once : Type := mkOnce { o_state : Z; o_runs : Z }.

Inductive once_pc : Type := OnceIdle | OnceCall | OnceRun | OnceStore | OnceSpin | OnceReturned.

Definition once_next (p : once_pc) (o : Once) : list (once_pc * Once) :=
  match p with
  | OnceIdle => [(OnceCall, o)]
  | OnceCall =>
      if o_state o =? ONCE_INCOMPLETE then [(OnceRun, mkOnce ONCE_IN_PROGRESS (o_runs o))]
      else if o_state o =? ONCE_IN_PROGRESS then [(OnceSpin, o)]
      else if o_state o =? ONCE_COMPLETE then [(OnceReturned, o)]
      else [(OnceSpin, o)]
  | OnceRun => [(OnceStore, mkOnce (o_state o) (o_runs o + 1))]
  | OnceStore => [(OnceReturned, mkOnce ONCE_COMPLETE (o_runs o))]
  | OnceSpin => [(if o_state o =? ONCE_COMPLETE then OnceReturned else OnceSpin, o)]
  | OnceReturned => [(OnceCall, o)]
  end.

(** ** Keys of thread-local storage *)

Definition MAX_TLS_KEYS : Z := 64.

(** The counter, and the keys that were handed out. *)
Record Keys : Type := mkKeys { next_key : Z; given : list Z }.

Inductive key_pc : Type := KeyIdle | KeyBack.

Definition key_next (p : key_pc) (k : Keys) : list (key_pc * Keys) :=
  match p with
  | KeyIdle =>
      let id := next_key k in
      let c := wrap 64 (id + 1) in
      [if MAX_TLS_KEYS <=? id then (KeyBack, mkKeys c (given k)) else (KeyIdle, mkKeys c (given k ++ [id]))]
  | KeyBack => [(KeyIdle, mkKeys (wrap 64 (next_key k - 1)) (given k))]
  end.

(** ** Condition variable and barrier *)

(** The shared words of a barrier: its mutex, [arrived], [generation], and of the
    condition variable the number of waiters and the event, a flag that a wait
    clears. [b_arrivals] counts the calls that have arrived so far. *)
Record Barrier : Type := mkBarrier {
  b_mutex : Z;
  b_arrived : Z;
  b_generation : Z;
  b_waiters : Z;
  b_signaled : bool;
  b_arrivals : Z;
}.

(** Where a thread is in [Barrier::wait] with the generation it has read. *)
Inductive barrier_pc : Type :=
  | BIdle
  | BLock (p : lock_pc) (* the mutex at the start *)
  | BLoad
  | BArrive (g : Z)
  | BReset (g : Z)
  | BBump (g : Z)
  | BUnlockLast (g : Z)
  | BCount (g : Z)
  | BSignal (g w : Z)
  | BCheck (g : Z)
  | BWaitInc (g : Z)
  | BWaitUnlock (g : Z)
  | BWaitEvent (g : Z)
  | BWaitDec (g : Z) (ok : bool)
  | BRelock (p : lock_pc) (g : Z) (ok : bool)
  | BUnlock (g : Z)
  | BReturned (g : Z) (last : bool)
  | BFailed (g : Z) (locked : bool).

Definition with_mutex (m : Z) (b : Barrier) : Barrier :=
  mkBarrier m (b_arrived b) (b_generation b) (b_waiters b) (b_signaled b) (b_arrivals b).
Definition with_waiters (w : Z) (b : Barrier) : Barrier :=
  mkBarrier (b_mutex b) (b_arrived b) (b_generation b) w (b_signaled b) (b_arrivals b).
Definition with_signal (s : bool) (b : Barrier) : Barrier :=
  mkBarrier (b_mutex b) (b_arrived b) (b_generation b) (b_waiters b) s (b_arrivals b).

(** [k] where the lock is acquired, [f] where it is not yet. *)
Definition locking (p : lock_pc) (b : Barrier) (f : lock_pc → barrier_pc) (k : barrier_pc) : list (barrier_pc * Barrier) :=
  (λ '(r, s), (match r with Some p => f p | None => k end, with_mutex s b)) <$> lock_next p (b_mutex b).

(** [Barrier::wait] with the steps of [Condvar::wait] and [broadcast]; the event
    calls may fail, since a handle is valid in the thread that made it. *)
Definition barrier_next (count : Z) (p : barrier_pc) (b : Barrier) : list (barrier_pc * Barrier) :=
  match p with
  | BIdle => [(BLock LTry, b)]
  | BLock p => locking p b BLock BLoad
  | BLoad => [(BArrive (b_generation b), b)]
  | BArrive g =>
      let arrived := b_arrived b + 1 in
      [(if count <=? arrived then BReset g else BCheck g,
        mkBarrier (b_mutex b) arrived (b_generation b) (b_waiters b) (b_signaled b) (b_arrivals b + 1))]
  | BReset g => [(BBump g, mkBarrier (b_mutex b) 0 (b_generation b) (b_waiters b) (b_signaled b) (b_arrivals b))]
  | BBump g => [(BUnlockLast g, mkBarrier (b_mutex b) (b_arrived b) (g + 1) (b_waiters b) (b_signaled b) (b_arrivals b))]
  | BUnlockLast g => [(BCount g, with_mutex MUTEX_UNLOCKED b)]
  | BCount g => [(BSignal g (b_waiters b), b)]
  | BSignal g w =>
      if w <=? 0 then [(BReturned g true, b)]
      else [(BSignal g (w - 1), with_signal true b); (BFailed g false, b)]
  | BCheck g => [(if b_generation b =? g then BWaitInc g else BUnlock g, b)]
  | BWaitInc g => [(BWaitUnlock g, with_waiters (b_waiters b + 1) b)]
  | BWaitUnlock g => [(BWaitEvent g, with_mutex MUTEX_UNLOCKED b)]
  | BWaitEvent g => (if b_signaled b then [(BWaitDec g true, with_signal false b)] else []) ++ [(BWaitDec g false, b)]
  | BWaitDec g ok => [(BRelock LTry g ok, with_waiters (b_waiters b - 1) b)]
  | BRelock p g ok => locking p b (λ p, BRelock p g ok) (if ok then BCheck g else BFailed g true)
  | BUnlock g => [(BReturned g false, with_mutex MUTEX_UNLOCKED b)]
  | BReturned _ _ => [(BLock LTry, b)]
  | BFailed _ _ => []
  end.

(** ** Thread creation *)

(** [THREAD_ENTRY] and [THREAD_ARG], and the calls the started threads made. *)
Record Trampoline : Type := mkTrampoline { thread_entry : Z; thread_arg : Z; called : list (Z * Z) }.

(** [pthread_create] stores the routine, [pthread_entry] in the new thread takes
    it at any later time. *)
Inductive thread_op : Type := Create (start_routine arg : Z) | Entry.

Definition thread_exec (o : thread_op) (t : Trampoline) : Trampoline :=
  match o with
  | Create start_routine arg => mkTrampoline start_routine arg (called t)
  | Entry =>
      let entry := thread_entry t in
      let arg := thread_arg t in
      mkTrampoline 0 0 (if entry =? 0 then called t else called t ++ [(entry, arg)])
  end.

Definition thread_run (ops : list thread_op) : Trampoline := foldl (λ t o, thread_exec o t) (mkTrampoline 0 0 []) ops.
