(* ===== verification/PthreadsProofs.v ===== *)
(** * The thread library under every interleaving

    Mutual exclusion of the locks, one call of a one-time initialiser, distinct
    keys, and that no thread leaves a barrier early; and where the library fails
    its users: a lost wake-up and a routine that is never run. *)

From stdpp Require Import strings relations.
From S2P Require Import Prelude Pthreads.
Local Open Scope Z_scope.

(** The possible outcomes of a step. *)
Ltac next_cases H :=
  set_unfold in H; repeat match type of H with _ ∨ _ => destruct H as [H|H] end; try done; simplify_eq.

(** ** Mutual exclusion *)

(** One thread at most satisfies [h], none while [free], and one otherwise. *)
Definition exclusive {P} (h : P → bool) (free : bool) (ps : list P) : Prop :=
  (free = true → ∀ i p, ps !! i = Some p → h p = false) ∧
  (∀ i j p q, ps !! i = Some p → ps !! j = Some q → h p = true → h q = true → i = j) ∧
  (free = false → ∃ i p, ps !! i = Some p ∧ h p = true).

(** A step keeps this when a thread that comes to hold finds the lock free and
    takes it, one that stops holding frees it, and any other leaves it. *)
Lemma exclusive_step {P} (h : P → bool) free free' ps i (p p' : P) :
  exclusive h free ps → ps !! i = Some p →
  (h p = false → h p' = true → free = true) → (h p' = true → free' = false) → (h p = true → h p' = false → free' = true) →
  (h p = false → h p' = false → free' = free) → exclusive h free' (<[i := p']> ps).
Proof.
  intros (H1 & H2 & H3) Hp Hin Htake Hfree Hsame. assert (i < length ps)%nat as Hi by (by eapply lookup_lt_Some). split_and!.
  - intros Hf j q. rewrite list_lookup_insert_Some. intros [(-> & -> & _)|[Hne Hq]].
    + destruct (h q) eqn:E; [|done]. specialize (Htake eq_refl). congruence.
    + destruct (h q) eqn:E; [|done]. destruct (h p) eqn:Ep.
      * exfalso. apply Hne. by eapply H2.
      * destruct (h p') eqn:Ep'; [specialize (Htake eq_refl); congruence|].
        rewrite <- E. eapply H1; [|done]. rewrite <- Hsame; done.
  - intros j k q r. rewrite !list_lookup_insert_Some. intros [(-> & -> & _)|[Hnj Hq]] [(-> & -> & _)|[Hnk Hr]] Hhq Hhr; [done| | |by eapply H2].
    + destruct (h p) eqn:Ep; [by eapply H2|]. specialize (Hin eq_refl Hhq). rewrite (H1 Hin k r Hr) in Hhr. done.
    + destruct (h p) eqn:Ep; [by eapply H2|]. specialize (Hin eq_refl Hhr). rewrite (H1 Hin j q Hq) in Hhq. done.
  - intros Hf. destruct (h p') eqn:Ep'.
    { exists i, p'. by rewrite list_lookup_insert_eq. }
    destruct (h p) eqn:Ep; [rewrite Hfree in Hf; done|]. rewrite Hsame in Hf by done. destruct (H3 Hf) as (j & q & Hq & Hhq).
    exists j, q. rewrite list_lookup_insert_ne; [done|]. intros ->. congruence.
Qed.

Lemma exclusive_init {P} (h : P → bool) ps : Forall (λ p, h p = false) ps → exclusive h true ps.
Proof.
  intros Hf. rewrite list.Forall_lookup in Hf. split_and!; [intros _; exact Hf| |done]. intros i j p q Hp _ Hhp. by rewrite (Hf i p Hp) in Hhp.
Qed.

Definition mutex_holds (p : mutex_pc) : bool := match p with MHeld => true | _ => false end.
Definition mutex_word (s : Z) : Prop := s = MUTEX_UNLOCKED ∨ s = MUTEX_LOCKED ∨ s = MUTEX_LOCKED_WAITERS.

(** A step of [lock] takes the mutex only when it is free, and frees it never. *)
Lemma lock_step p s r s' :
  mutex_word s → (r, s') ∈ lock_next p s →
  mutex_word s' ∧ (r = None → s = MUTEX_UNLOCKED ∧ s' ≠ MUTEX_UNLOCKED) ∧ (r ≠ None → s' = MUTEX_UNLOCKED ↔ s = MUTEX_UNLOCKED).
Proof.
  unfold mutex_word, MUTEX_UNLOCKED, MUTEX_LOCKED, MUTEX_LOCKED_WAITERS.
  intros [-> | [-> | ->]] Hin; destruct p; cbv in Hin; set_unfold in Hin; destruct_or?; simplify_eq; naive_solver.
Qed.

Lemma Z_eqb_iff a b c d : (a = b ↔ c = d) → (a =? b) = (c =? d).
Proof. intros Hi. destruct (Z.eqb_spec a b), (Z.eqb_spec c d); naive_solver. Qed.

Definition mutex_inv (s : Z) (ps : list mutex_pc) : Prop := mutex_word s ∧ exclusive mutex_holds (s =? MUTEX_UNLOCKED) ps.

Lemma mutex_step s ps i p p' s' :
  mutex_inv s ps → ps !! i = Some p → (p', s') ∈ mutex_next p s → mutex_inv s' (<[i := p']> ps).
Proof.
  intros [Hw He] Hp Hin.
  assert (mutex_word s' ∧ (mutex_holds p = false → mutex_holds p' = true → s = MUTEX_UNLOCKED) ∧
    (mutex_holds p' = true → s' ≠ MUTEX_UNLOCKED) ∧ (mutex_holds p = true → mutex_holds p' = false → s' = MUTEX_UNLOCKED) ∧
    (mutex_holds p = false → mutex_holds p' = false → s' = MUTEX_UNLOCKED ↔ s = MUTEX_UNLOCKED)) as (Hw' & H1 & H2 & H3 & H4).
  { destruct p as [|lp| | |]; cbn [mutex_next mutex_holds] in *.
    - next_cases Hin; done.
    - apply list_elem_of_fmap in Hin as ([r s1] & E & Hin). apply lock_step in Hin as (Hw' & Hn & Hs); [|done].
      destruct r as [lp'|]; simplify_eq; [naive_solver|]. destruct (Hn eq_refl). done.
    - destruct (Z.eqb_spec s MUTEX_UNLOCKED); next_cases Hin; unfold mutex_word; naive_solver.
    - next_cases Hin. destruct (s =? MUTEX_LOCKED_WAITERS); unfold mutex_word; naive_solver.
    - next_cases Hin. done. }
  split; [done|]. eapply exclusive_step; [exact He|exact Hp|..]; rewrite ?Z.eqb_eq, ?Z.eqb_neq; auto.
  intros Hh Hh'. apply Z_eqb_iff. auto.
Qed.

(** A run of one thread alone. *)
Inductive thread_steps {S P} (next : P → S → list (P * S)) : P * S → P * S → Prop :=
  | steps_refl p s : thread_steps next (p, s) (p, s)
  | steps_more p s p1 s1 c : (p1, s1) ∈ next p s → thread_steps next (p1, s1) c → thread_steps next (p, s) c.

Lemma mutex_reachable n c : reachable mutex_next MUTEX_UNLOCKED (replicate n MIdle) c → mutex_inv c.1 c.2.
Proof.
  intros Hr. eapply reachable_inv; [|exact mutex_step|exact Hr]. split; [by left|]. apply exclusive_init, Forall_replicate. done.
Qed.

(** C16: However the threads that share a mutex interleave, at most one of them
    is between [lock] or a successful [trylock] and [unlock]; and the mutex cannot
    be lost: while no thread holds it, a thread inside [lock] acquires it within
    three steps of its own. *)
Theorem mutex_correct n c :
  reachable mutex_next MUTEX_UNLOCKED (replicate n MIdle) c →
  (∀ i j, c.2 !! i = Some MHeld → c.2 !! j = Some MHeld → i = j) ∧
  ((∀ j, c.2 !! j ≠ Some MHeld) → ∀ i p, c.2 !! i = Some (MLocking p) → thread_steps mutex_next (MLocking p, c.1) (MHeld, MUTEX_LOCKED)).
Proof.
  intros [_ (_ & H1 & H2)]%mutex_reachable. split; [intros i j Hi Hj; by eapply H1|]. intros Hn i p Hi.
  assert (c.1 = MUTEX_UNLOCKED) as ->.
  { destruct (Z.eqb_spec c.1 MUTEX_UNLOCKED) as [|Hne]; [done|]. destruct (H2 eq_refl) as (j & q & Hq & Hh). destruct q; try done. by specialize (Hn j). }
  assert (thread_steps mutex_next (MLocking LTry, MUTEX_UNLOCKED) (MHeld, MUTEX_LOCKED)) as Hl.
  { eapply steps_more; [|apply steps_refl]. cbn. set_solver. }
  assert (thread_steps mutex_next (MLocking LYield, MUTEX_UNLOCKED) (MHeld, MUTEX_LOCKED)) as Hy.
  { eapply steps_more; [|exact Hl]. cbn. set_solver. }
  destruct p; [done| |done]. eapply steps_more; [|exact Hy]. cbn. set_solver.
Qed.

Definition spin_holds (p : spin_pc) : bool := match p with SHeld => true | _ => false end.

Lemma spin_step s ps i p p' s' :
  exclusive spin_holds (negb s) ps → ps !! i = Some p → (p', s') ∈ spin_next p s → exclusive spin_holds (negb s') (<[i := p']> ps).
Proof.
  intros He Hp Hin. assert (p = SHeld → s = true) as Hs.
  { intros ->. destruct s; [done|]. by apply (proj1 He eq_refl) in Hp. }
  eapply exclusive_step; [exact He|exact Hp|..]; destruct p, s; cbn in Hin; next_cases Hin; naive_solver.
Qed.

(** The spinlock excludes as well. *)
Lemma spinlock_exclusion n c i j :
  reachable spin_next false (replicate n SIdle) c → c.2 !! i = Some SHeld → c.2 !! j = Some SHeld → i = j.
Proof.
  intros Hr Hi Hj. assert (exclusive spin_holds (negb c.1) c.2) as (_ & He & _).
  { eapply (reachable_inv spin_next (λ s ps, exclusive spin_holds (negb s) ps)); [|exact spin_step|exact Hr]. apply exclusive_init, Forall_replicate. done. }
  by eapply He.
Qed.

(** ** Counting threads *)

Section count.
Context {P : Type} (f : P → bool).

Fixpoint count (ps : list P) : Z := match ps with [] => 0 | p :: ps => Z.b2z (f p) + count ps end.

Lemma count_bounds ps : 0 ≤ count ps ≤ len ps.
Proof. induction ps as [|p ps IH]; [done|]. cbn [count]. rewrite len_cons. destruct (f p); simpl Z.b2z; lia. Qed.

Lemma count_insert ps i p p' : ps !! i = Some p → count (<[i := p']> ps) = count ps - Z.b2z (f p) + Z.b2z (f p').
Proof.
  revert i. induction ps as [|q ps IH]; intros [|i] Hi; simplify_eq; cbn [count insert list_insert]; simplify_eq/=; [lia|].
  rewrite IH by done. lia.
Qed.

Lemma count_pos ps i p : ps !! i = Some p → f p = true → 1 ≤ count ps.
Proof.
  intros Hi Hf. revert i Hi. induction ps as [|q ps IH]; intros [|i] Hi; simplify_eq/=.
  - rewrite Hf. pose proof (count_bounds ps). simpl Z.b2z. lia.
  - specialize (IH i Hi). destruct (f q); simpl Z.b2z; lia.
Qed.

Lemma count_none ps : Forall (λ p, f p = false) ps → count ps = 0.
Proof. induction 1 as [|p ps Hp _ IH]; [done|]. cbn [count]. by rewrite Hp, IH. Qed.

End count.

(** ** The read-write lock *)

Definition is_reading (p : rw_pc) : bool := match p with Reading => true | _ => false end.
Definition is_writing (p : rw_pc) : bool := match p with Writing => true | _ => false end.

Abbreviation readers := (count is_reading).
Abbreviation writers := (count is_writing).

(** What a thread has read before its exchange. *)
Definition rw_seen (p : rw_pc) : Prop :=
  match p with ReadCas s | TryReadCas s => Z.land s WRITER = 0 | _ => True end.

Definition rw_inv (n : Z) (s : Z) (ps : list rw_pc) : Prop :=
  len ps = n ∧ Forall rw_seen ps ∧ s = readers ps + WRITER * writers ps ∧ writers ps ≤ 1 ∧ (writers ps = 1 → readers ps = 0).

Lemma rw_step n s ps i p p' s' :
  n < WRITER → rw_inv n s ps → ps !! i = Some p → (p', s') ∈ rw_next p s → rw_inv n s' (<[i := p']> ps).
Proof.
  intros Hn (Hl & Hseen & Hs & Hw & Hx) Hp Hin. pose proof (count_bounds is_reading ps) as Hr. pose proof (count_bounds is_writing ps) as Hw0.
  unfold rw_inv. rewrite !(count_insert _ ps i p p') by done.
  assert (Z.land s WRITER = 0 → writers ps = 0) as Hclear.
  { intros Hz. destruct (decide (writers ps = 0)) as [|Hne]; [done|]. assert (writers ps = 1) as Hw1 by lia.
    rewrite Hs, Hw1, (Hx Hw1) in Hz. done. }
  assert (is_reading p = true → 1 ≤ readers ps) as Hpr by (intros; by eapply count_pos).
  assert (is_writing p = true → 1 ≤ writers ps) as Hpw by (intros; by eapply count_pos).
  assert (rw_seen p) as Hsp by (rewrite list.Forall_lookup in Hseen; by eapply Hseen).
  assert (∀ x, 0 ≤ x ≤ WRITER → wrap 64 x = x) as Hwr by (intros; unfold wrap, WRITER in *; apply Z.mod_small; lia).
  assert (len (<[i := p']> ps) = n) as Hl' by (unfold len in *; by rewrite length_insert).
  assert (rw_seen p' → Forall rw_seen (<[i := p']> ps)) as Hs' by (intros; by apply Forall_insert).
  assert (0 < WRITER) as HW by done.
  assert (writers ps = 0 ∨ writers ps = 1) as Hw01 by lia.
  destruct p; cbn [rw_next] in Hin;
    repeat match goal with H : context [if ?b then _ else _] |- _ => destruct b eqn:? end; next_cases Hin;
    rewrite ?Z.eqb_eq, ?Z.eqb_neq in *; cbn [is_reading is_writing Z.b2z rw_seen] in *.
  all: try specialize (Hclear ltac:(congruence)); try specialize (Hpr eq_refl); try specialize (Hpw eq_refl).
  all: split_and!; [done|by apply Hs'| | |]; try lia.
  all: rewrite Hwr; nia.
Qed.

(** However the threads that share a read-write lock interleave, a writer is
    alone: no other thread reads or writes. *)
Theorem rwlock_exclusion n c i j p :
  Z.of_nat n < WRITER → reachable rw_next 0 (replicate n RwIdle) c → c.2 !! i = Some Writing → c.2 !! j = Some p →
  p = Writing ∨ p = Reading → i = j.
Proof.
  intros Hn Hr Hi Hj Hp. assert (rw_inv (Z.of_nat n) c.1 c.2) as (_ & _ & _ & Hw & Hx).
  { eapply (reachable_inv rw_next (rw_inv (Z.of_nat n))); [|intros; by eapply rw_step|exact Hr].
    unfold rw_inv. rewrite !count_none by (by apply Forall_replicate).
    split_and!; [unfold len; by rewrite length_replicate|by apply Forall_replicate|done..]. }
  pose proof (count_pos is_writing _ _ _ Hi eq_refl) as H1. assert (writers c.2 = 1) as Hw1 by lia. specialize (Hx Hw1).
  destruct Hp as [-> | ->].
  - destruct (decide (i = j)) as [|Hne]; [done|]. pose proof (count_insert is_writing c.2 i Writing RwIdle Hi) as Hc.
    assert (<[i := RwIdle]> c.2 !! j = Some Writing) as Hj' by (by rewrite list_lookup_insert_ne).
    pose proof (count_pos is_writing _ _ _ Hj' eq_refl). cbn [is_writing Z.b2z] in Hc. lia.
  - pose proof (count_pos is_reading _ _ _ Hj eq_refl). lia.
Qed.

(** ** One-time initialisation *)

Definition once_runs (p : once_pc) : bool := match p with OnceRun => true | _ => false end.
Definition once_stores (p : once_pc) : bool := match p with OnceStore => true | _ => false end.
Definition once_returned (p : once_pc) : bool := match p with OnceReturned => true | _ => false end.

Definition once_inv (o : Once) (ps : list once_pc) : Prop :=
  let run := count once_runs ps in let store := count once_stores ps in let done := count once_returned ps in
  o_state o = ONCE_INCOMPLETE ∧ o_runs o = 0 ∧ run = 0 ∧ store = 0 ∧ done = 0 ∨
  o_state o = ONCE_IN_PROGRESS ∧ o_runs o = store ∧ run + store = 1 ∧ done = 0 ∨
  o_state o = ONCE_COMPLETE ∧ o_runs o = 1 ∧ run = 0 ∧ store = 0.

Lemma once_step o ps i p p' o' :
  once_inv o ps → ps !! i = Some p → (p', o') ∈ once_next p o → once_inv o' (<[i := p']> ps).
Proof.
  unfold once_inv. intros Hi Hp Hin. rewrite !(count_insert _ ps i p p') by done.
  pose proof (count_bounds once_runs ps). pose proof (count_bounds once_stores ps).
  assert (once_runs p = true → 1 ≤ count once_runs ps) as Hr by (intros; by eapply count_pos).
  assert (once_stores p = true → 1 ≤ count once_stores ps) as Hs by (intros; by eapply count_pos).
  assert (once_returned p = true → 1 ≤ count once_returned ps) as Hd by (intros; by eapply count_pos).
  unfold ONCE_INCOMPLETE, ONCE_IN_PROGRESS, ONCE_COMPLETE in *.
  destruct p; cbn [once_next] in Hin;
    repeat match goal with H : context [if ?b then _ else _] |- _ => destruct b eqn:? end; next_cases Hin;
    rewrite ?Z.eqb_eq, ?Z.eqb_neq in *; cbn [once_runs once_stores once_returned Z.b2z o_state o_runs] in *.
  all: try specialize (Hr eq_refl); try specialize (Hs eq_refl); try specialize (Hd eq_refl); unfold ONCE_INCOMPLETE, ONCE_IN_PROGRESS, ONCE_COMPLETE in *; lia.
Qed.

(** The function of [call_once] runs once at most, and has run when a call
    returns. *)
Lemma once_correct n c :
  reachable once_next (mkOnce ONCE_INCOMPLETE 0) (replicate n OnceIdle) c →
  o_runs c.1 ≤ 1 ∧ ∀ i, c.2 !! i = Some OnceReturned → o_runs c.1 = 1.
Proof.
  intros Hr. assert (once_inv c.1 c.2) as Hi.
  { eapply (reachable_inv once_next once_inv); [|exact once_step|exact Hr]. left. rewrite !count_none by (by apply Forall_replicate). done. }
  unfold once_inv in Hi. pose proof (count_bounds once_runs c.2). pose proof (count_bounds once_stores c.2). split; [lia|].
  intros i Hret. pose proof (count_pos once_returned _ _ _ Hret eq_refl). lia.
Qed.

(** ** Keys *)

Definition key_back (p : key_pc) : bool := match p with KeyBack => true | _ => false end.

Definition key_inv (n : Z) (k : Keys) (ps : list key_pc) : Prop :=
  len ps = n ∧ given k = seqZ 0 (len (given k)) ∧ next_key k = len (given k) + count key_back ps ∧
  len (given k) ≤ MAX_TLS_KEYS ∧ (0 < count key_back ps → len (given k) = MAX_TLS_KEYS).

Lemma key_step n k ps i p p' k' :
  n < 2 ^ 63 → key_inv n k ps → ps !! i = Some p → (p', k') ∈ key_next p k → key_inv n k' (<[i := p']> ps).
Proof.
  unfold key_inv, MAX_TLS_KEYS. intros Hn (Hl & Hg & Hk & Hm & Hb) Hp Hin. rewrite !(count_insert _ ps i p p') by done.
  pose proof (count_bounds key_back ps). assert (len (<[i := p']> ps) = n) as Hl' by (unfold len in *; by rewrite length_insert).
  assert (0 ≤ len (given k)) by (unfold len; lia). assert (∀ x, 0 ≤ x < 2 ^ 64 → wrap 64 x = x) as Hwr by (intros; by apply Z.mod_small).
  assert (key_back p = true → 1 ≤ count key_back ps) as Hpb by (intros; by eapply count_pos).
  destruct p; cbn [key_next] in Hin; [destruct (Z.leb_spec MAX_TLS_KEYS (next_key k)) as [Hle|Hlt]|]; unfold MAX_TLS_KEYS in *; next_cases Hin;
    cbn [next_key given key_back Z.b2z] in *.
  - rewrite Hwr by lia. split_and!; [done|done|lia..].
  - rewrite Hwr, len_app by lia. change (len [next_key k]) with 1. split_and!; [done| |lia..].
    rewrite Hg at 1. replace (next_key k) with (len (given k)) by lia. rewrite seqZ_app by lia. done.
  - specialize (Hpb eq_refl). rewrite Hwr by lia. split_and!; [done|done|lia..].
Qed.

(** The keys that were handed out are distinct and below the limit. *)
Lemma keys_distinct n c :
  Z.of_nat n < 2 ^ 63 → reachable key_next (mkKeys 0 []) (replicate n KeyIdle) c →
  NoDup (given c.1) ∧ Forall (λ k, 0 ≤ k < MAX_TLS_KEYS) (given c.1).
Proof.
  intros Hn Hr. assert (key_inv (Z.of_nat n) c.1 c.2) as (_ & Hg & _ & Hm & _).
  { eapply (reachable_inv key_next (key_inv (Z.of_nat n))); [|intros; by eapply key_step|exact Hr].
    unfold key_inv. rewrite !count_none by (by apply Forall_replicate). split_and!; [unfold len; by rewrite length_replicate|done..]. }
  rewrite Hg. split; [apply NoDup_seqZ|]. apply Forall_seqZ. intros k Hk. simpl. lia.
Qed.

(** ** The barrier *)

Definition barrier_holds (p : barrier_pc) : bool :=
  match p with
  | BLoad | BArrive _ | BReset _ | BBump _ | BUnlockLast _ | BCheck _ | BWaitInc _ | BWaitUnlock _ | BUnlock _ | BFailed _ true => true
  | _ => false
  end.
Definition is_reset (p : barrier_pc) : bool := match p with BReset _ => true | _ => false end.
Definition is_bump (p : barrier_pc) : bool := match p with BBump _ => true | _ => false end.

(** What a thread knows about the shared words where it is. *)
Definition barrier_knows (n : Z) (b : Barrier) (p : barrier_pc) : Prop :=
  match p with
  | BArrive g => g = b_generation b
  | BReset g => g = b_generation b ∧ b_arrived b = n
  | BBump g => g = b_generation b ∧ b_arrived b = 0
  | BUnlockLast g | BCount g | BSignal g _ | BUnlock g | BReturned g _ => g < b_generation b
  | BCheck g | BWaitInc g | BWaitUnlock g | BWaitEvent g | BWaitDec g _ | BRelock _ g _ => g ≤ b_generation b
  | _ => True
  end.

(** Every [n] arrivals make a generation; [r] threads have found the barrier full
    and [k] have emptied it without counting the generation. *)
Definition barrier_counts (n : Z) (b : Barrier) (r k : Z) : Prop :=
  b_arrivals b = n * (b_generation b + k) + b_arrived b ∧ 0 ≤ b_arrived b ∧ (r = 0 → b_arrived b < n).

Record barrier_inv (n : Z) (b : Barrier) (ps : list barrier_pc) : Prop := {
  bi_word : mutex_word (b_mutex b);
  bi_exclusive : exclusive barrier_holds (b_mutex b =? MUTEX_UNLOCKED) ps;
  bi_knows : Forall (barrier_knows n b) ps;
  bi_counts : barrier_counts n b (count is_reset ps) (count is_bump ps);
}.

(** Only the holder can be where [f] says. *)
Lemma holder_count {P} (h f : P → bool) free ps i p :
  exclusive h free ps → (∀ q, f q = true → h q = true) → ps !! i = Some p → h p = true → count f ps = Z.b2z (f p).
Proof.
  intros (_ & He & _) Hf Hp Hh. destruct (f p) eqn:E.
  - assert (∀ qs j q, qs !! j = Some q → (∀ k x, qs !! k = Some x → f x = true → k = j) → f q = true → count f qs = 1) as Hone.
    2: { apply (Hone ps i p Hp); [|done]. intros k x Hx Hfx. apply (He k i x p); auto. }
    clear. induction qs as [|x qs IH]; intros [|j] q Hq Hu Hfq; simplify_eq/=.
    + rewrite Hfq. rewrite count_none; [done|]. apply list.Forall_lookup. intros k y Hy. destruct (f y) eqn:E; [|done].
      specialize (Hu (S k) y Hy E). done.
    + destruct (f x) eqn:E; [by specialize (Hu 0%nat x eq_refl E)|]. simpl Z.b2z. rewrite (IH j q Hq); [done| |done].
      intros k y Hy Hfy. specialize (Hu (S k) y Hy Hfy). lia.
  - apply count_none, list.Forall_lookup. intros j q Hq. destruct (f q) eqn:Eq; [|done].
    assert (i = j) as -> by (apply (He i j p q); auto). congruence.
Qed.

(** What a step may do to the shared words: a thread without the mutex changes
    none of those that the mutex protects. *)
Definition barrier_effect (n : Z) (p : barrier_pc) (b : Barrier) (p' : barrier_pc) (b' : Barrier) : Prop :=
  mutex_word (b_mutex b') ∧
  (barrier_holds p = false → barrier_holds p' = true → b_mutex b = MUTEX_UNLOCKED) ∧
  (barrier_holds p' = true → b_mutex b' ≠ MUTEX_UNLOCKED) ∧
  (barrier_holds p = true → barrier_holds p' = false → b_mutex b' = MUTEX_UNLOCKED) ∧
  (barrier_holds p = false → barrier_holds p' = false → b_mutex b' = MUTEX_UNLOCKED ↔ b_mutex b = MUTEX_UNLOCKED) ∧
  barrier_knows n b' p' ∧ b_generation b ≤ b_generation b' ∧
  if barrier_holds p then barrier_counts n b (Z.b2z (is_reset p)) (Z.b2z (is_bump p)) → barrier_counts n b' (Z.b2z (is_reset p')) (Z.b2z (is_bump p'))
  else is_reset p = false ∧ is_bump p = false ∧ is_reset p' = false ∧ is_bump p' = false ∧
    b_arrivals b' = b_arrivals b ∧ b_generation b' = b_generation b ∧ b_arrived b' = b_arrived b.

Lemma locking_effect n p b q f k p' b' :
  mutex_word (b_mutex b) → barrier_holds q = false → is_reset q = false → is_bump q = false →
  (∀ x, barrier_holds (f x) = false ∧ is_reset (f x) = false ∧ is_bump (f x) = false ∧ barrier_knows n b (f x)) →
  (barrier_holds k = true ∧ is_reset k = false ∧ is_bump k = false ∧ barrier_knows n b k) →
  (p', b') ∈ locking p b f k → barrier_effect n q b p' b'.
Proof.
  intros Hw Hq Hqr Hqb Hf Hk Hin. unfold locking in Hin. apply list_elem_of_fmap in Hin as ([r s] & E & Hin).
  apply lock_step in Hin as (Hw' & Hn & Hs); [|done]. unfold barrier_effect. rewrite Hq, Hqr, Hqb.
  destruct r as [x|]; simplify_eq; cbn [with_mutex b_mutex b_generation b_arrivals b_arrived].
  - destruct (Hf x) as (Hfh & Hfr & Hfb & Hfk). rewrite Hfh, Hfr, Hfb. split_and!; try done. intros _ _. by apply Hs.
  - destruct Hk as (Hkh & Hkr & Hkb & Hkk). destruct (Hn eq_refl). rewrite Hkh, Hkr, Hkb. split_and!; done.
Qed.

Lemma barrier_next_effect n p b p' b' :
  0 < n → mutex_word (b_mutex b) → (barrier_holds p = true → b_mutex b ≠ MUTEX_UNLOCKED) → barrier_knows n b p →
  (barrier_holds p = true → barrier_counts n b (Z.b2z (is_reset p)) (Z.b2z (is_bump p))) →
  (p', b') ∈ barrier_next n p b → barrier_effect n p b p' b'.
Proof.
  intros Hn Hw Hh Hk Hc Hin. assert (mutex_word MUTEX_UNLOCKED) as Hw0 by (by left). unfold barrier_counts in Hc.
  destruct p as [|lp| |g|g|g|g|g|g w|g|g|g|g|g ok|lp g ok|g|g l|g l]; cbn [barrier_next] in Hin.
  2: { by eapply (locking_effect n lp b _ BLock BLoad). }
  14: { eapply (locking_effect n lp b _ (λ p, BRelock p g ok)); [done..| |exact Hin]. by destruct ok. }
  all: repeat match goal with H : context [if ?c then _ else _] |- _ => destruct c eqn:? end; next_cases Hin;
    rewrite ?Z.eqb_eq, ?Z.eqb_neq, ?Z.leb_le, ?Z.leb_gt in *;
    unfold barrier_effect, barrier_counts; cbn in *; split_and!; try done; try naive_solver lia.
Qed.

(** What the others know stays true. *)
Lemma knows_frame n p b p' b' q :
  barrier_effect n p b p' b' → (barrier_holds p = true → barrier_holds q = false) → barrier_knows n b q → barrier_knows n b' q.
Proof.
  intros (_ & _ & _ & _ & _ & _ & Hg & He) Hx. destruct (barrier_holds p) eqn:Ep.
  - specialize (Hx eq_refl). destruct q; try discriminate Hx; cbn; (done || lia).
  - destruct He as (_ & _ & _ & _ & _ & Eg & Ea). destruct q; cbn; rewrite ?Eg, ?Ea; done.
Qed.

Lemma barrier_step n b ps i p p' b' :
  0 < n → barrier_inv n b ps → ps !! i = Some p → (p', b') ∈ barrier_next n p b → barrier_inv n b' (<[i := p']> ps).
Proof.
  intros Hn [Hw He Hk Hc] Hp Hin. assert (∀ q, is_reset q = true → barrier_holds q = true) as Hr by (by intros []).
  assert (∀ q, is_bump q = true → barrier_holds q = true) as Hb by (by intros []).
  assert (barrier_holds p = true → b_mutex b ≠ MUTEX_UNLOCKED) as Hm.
  { intros Hh Hz. apply Z.eqb_eq in Hz. rewrite Hz in He. rewrite (proj1 He eq_refl i p Hp) in Hh. done. }
  assert (barrier_holds p = true → barrier_counts n b (Z.b2z (is_reset p)) (Z.b2z (is_bump p))) as Hcp.
  { intros Hh. by rewrite <- (holder_count _ is_reset _ _ _ _ He Hr Hp Hh), <- (holder_count _ is_bump _ _ _ _ He Hb Hp Hh). }
  assert (barrier_knows n b p) as Hkp by (rewrite list.Forall_lookup in Hk; by eapply Hk).
  pose proof (barrier_next_effect n p b p' b' Hn Hw Hm Hkp Hcp Hin) as Heff. pose proof Heff as (Hw' & H1 & H2 & H3 & H4 & Hk' & _ & Hcnt).
  split; [done| | |].
  - eapply exclusive_step; [exact He|exact Hp|..]; rewrite ?Z.eqb_eq, ?Z.eqb_neq; auto. intros. apply Z_eqb_iff. auto.
  - apply list.Forall_lookup. intros j q. rewrite list_lookup_insert_Some. intros [(-> & -> & _)|[Hne Hq]]; [done|].
    eapply knows_frame; [exact Heff| |rewrite list.Forall_lookup in Hk; by eapply Hk]. intros Hh. destruct (barrier_holds q) eqn:E; [|done].
    exfalso. apply Hne. by eapply (proj1 (proj2 He)).
  - rewrite !(count_insert _ ps i p p') by done. destruct (barrier_holds p) eqn:Ep.
    + rewrite (holder_count _ is_reset _ _ _ _ He Hr Hp Ep), (holder_count _ is_bump _ _ _ _ He Hb Hp Ep), !Z.sub_diag, !Z.add_0_l. auto.
    + destruct Hcnt as (-> & -> & -> & -> & Ha & Hg & Hv). cbn [Z.b2z]. rewrite !Z.sub_0_r, !Z.add_0_r. unfold barrier_counts in *. by rewrite Ha, Hg, Hv.
Qed.

Definition new_barrier : Barrier := mkBarrier MUTEX_UNLOCKED 0 0 0 false 0.

(** C34: No thread leaves a barrier early: when a call of [wait] that arrived in
    generation [g] has returned, at least [count * (g + 1)] calls have arrived,
    that is all of its generation, whatever the interleaving and however the
    condition variable wakes the threads. *)
Theorem barrier_safe n k c i g last :
  0 < n → reachable (barrier_next n) new_barrier (replicate k BIdle) c → c.2 !! i = Some (BReturned g last) →
  n * (g + 1) ≤ b_arrivals c.1.
Proof.
  intros Hn Hr Hi. assert (barrier_inv n c.1 c.2) as [_ _ Hk Hc].
  { eapply (reachable_inv (barrier_next n) (barrier_inv n)); [|intros; by eapply barrier_step|exact Hr].
    split; [by left|apply exclusive_init; by apply Forall_replicate|by apply Forall_replicate|].
    rewrite !count_none by (by apply Forall_replicate). unfold barrier_counts. cbn. lia. }
  rewrite list.Forall_lookup in Hk. specialize (Hk i _ Hi). cbn in Hk. destruct Hc as (Ha & H0 & _).
  pose proof (count_bounds is_bump c.2). nia.
Qed.

(** ** Schedules *)

(** An interleaving given by the thread that moves and which of its steps. *)
Fixpoint run_schedule {S P} (next : P → S → list (P * S)) (sched : list (nat * nat)) (c : S * list P) : option (S * list P) :=
  match sched with
  | [] => Some c
  | (i, k) :: sched =>
      match c.2 !! i with
      | None => None
      | Some p => match next p c.1 !! k with Some (p', s') => run_schedule next sched (s', <[i := p']> c.2) | None => None end
      end
  end.

Lemma run_schedule_reachable {S P} (next : P → S → list (P * S)) sched s ps c :
  run_schedule next sched (s, ps) = Some c → reachable next s ps c.
Proof.
  unfold reachable. revert s ps. induction sched as [|[i k] sched IH]; intros s ps; cbn [run_schedule fst snd]; [intros [= <-]; constructor|].
  destruct (ps !! i) as [p|] eqn:Hp; [|done]. destruct (next p s !! k) as [[p' s']|] eqn:Hk; [|done]. intros Hr.
  eapply rtc_l; [|by apply IH]. eapply sys_step_at; [exact Hp|]. by eapply list_elem_of_lookup_2.
Qed.

Lemma mutex_correct_witness :
  thread_steps mutex_next (MLocking LYield, MUTEX_UNLOCKED) (MHeld, MUTEX_LOCKED).
Proof.
  refine (proj2 (mutex_correct 2 (MUTEX_UNLOCKED, [MYielding; MLocking LYield]) _) _ 1%nat LYield eq_refl).
  - apply (run_schedule_reachable _ [(0, 0); (1, 0); (0, 0); (1, 0); (1, 0); (0, 0)]%nat). reflexivity.
  - intros [|[|j]]; done.
Defined.

Lemma rwlock_exclusion_witness : ∀ j, [RwIdle; Writing; ReadYield] !! j = Some Writing → 1%nat = j.
Proof.
  intros j Hj. apply (rwlock_exclusion 3 (WRITER, [RwIdle; Writing; ReadYield]) 1 j Writing); [done| |done|exact Hj|by left].
  apply (run_schedule_reachable _ [(0, 0); (0, 0); (2, 0); (0, 0); (0, 0); (1, 2); (1, 0); (1, 0); (2, 0)]%nat). reflexivity.
Defined.

(** Three threads at a barrier for two: the first pair has left. *)
Definition barrier_schedule : list (nat * nat) :=
  [(0, 0); (0, 0); (0, 0); (0, 0); (0, 0); (0, 0); (0, 0); (* arrives, and waits for the event *)
   (1, 0); (1, 0); (1, 0); (1, 0); (1, 0); (1, 0); (1, 0); (1, 0); (1, 0); (1, 0)]%nat. (* arrives last *)

Lemma barrier_safe_witness : 2 * (0 + 1) ≤ 2.
Proof.
  destruct (run_schedule (barrier_next 2) barrier_schedule (new_barrier, replicate 3 BIdle)) as [c|] eqn:E; [|by vm_compute in E].
  assert (c.2 !! 1%nat = Some (BReturned 0 true)) as Hc by (by vm_compute in E; injection E as <-).
  pose proof (barrier_safe 2 3 c 1 0 true ltac:(lia) (run_schedule_reachable _ _ _ _ _ E) Hc) as Hle.
  vm_compute in E. injection E as <-. exact Hle.
Defined.

(** ** Where the library fails its users *)

(** A wake-up is lost: the event is a flag, so that the two signals of a broadcast
    may be one. Of three threads at a barrier for three, one sleeps forever. *)
Example barrier_lost_wakeup :
  ∃ c, reachable (barrier_next 3) new_barrier (replicate 3 BIdle) c ∧
    c.2 = [BReturned 0 false; BWaitEvent 0; BReturned 0 true] ∧ b_signaled c.1 = false ∧ b_generation c.1 = 1.
Proof.
  destruct (run_schedule (barrier_next 3)
    ([(0, 0); (0, 0); (0, 0); (0, 0); (0, 0); (0, 0); (0, 0); (1, 0); (1, 0); (1, 0); (1, 0); (1, 0); (1, 0); (1, 0);
      (2, 0); (2, 0); (2, 0); (2, 0); (2, 0); (2, 0); (2, 0); (2, 0); (2, 0); (2, 0); (2, 0);
      (0, 0); (0, 0); (0, 0); (0, 0); (0, 0)]%nat) (new_barrier, replicate 3 BIdle)) as [c|] eqn:E; [|by vm_compute in E].
  exists c. split; [by eapply run_schedule_reachable|]. vm_compute in E. injection E as <-. done.
Qed.

(** Two threads created before the first has started: one routine runs, with its
    argument, and the other never. *)
Example routine_lost : called (thread_run [Create 1 10; Create 2 20; Entry; Entry]) = [(2, 20)].
Proof. reflexivity. Qed.

(** When every thread starts before the next is created, each routine is called
    with its argument. *)
Lemma routines_called rs :
  Forall (λ r, r.1 ≠ 0) rs → called (thread_run (mjoin ((λ '(r, a), [Create r a; Entry]) <$> rs))) = rs.
Proof.
  unfold thread_run. intros Hr. assert (∀ t, called (foldl (λ t o, thread_exec o t) t (mjoin ((λ '(r, a), [Create r a; Entry]) <$> rs))) = called t ++ rs) as ->; [|done].
  induction Hr as [|[r a] rs Hx _ IH]; intros t; [by rewrite app_nil_r|]. cbn. rewrite IH. cbn.
  rewrite (proj2 (Z.eqb_neq r 0)) by done. by rewrite <- app_assoc.
Qed.
