(* ===== verification/Coreutils.v ===== *)
(** * Utilities (user/coreutils/src)

    [factor], [cksum], [base64], [base32], [tsort], [sort] and [uniq]. A utility is
    a function from the bytes it reads to the bytes it writes. *)

From stdpp Require Import strings.
From S2P Require Import Prelude Loop RustStr.
Local Open Scope Z_scope.

Definition SPACE : Z := 32.
Definition NEWLINE : Z := 10.
Definition TAB : Z := 9.
Definition ZERO : Z := 48.

(** ** Numbers *)

(** The loop of [print_number], [print_u32] and [print_u64] over a buffer of
    [room] bytes that is filled from its end. *)
Definition digit_turn (room : Z) (s : Z * list Z) : outcome (Z * list Z + list Z) :=
  let '(val, out) := s in
  if 0 <? val then
    if len out =? room then Panic
    else Ret (inl (val `div` 10, (ZERO + val mod 10) :: out))
  else Ret (inr out).

Definition print_decimal (room val : Z) : outcome (list Z) :=
  if val =? 0 then Ret [ZERO] else while_do (digit_turn room) (val, []).

Definition print_number (val : Z) : outcome (list Z) := print_decimal 20 val.
Definition print_u32 (val : Z) : outcome (list Z) := print_decimal 10 val.

(** ** factor *)

Section factor.
Context `{BuildProfile}.

Definition separator (first : bool) : list Z := if first then [] else [SPACE].

(** Dividing by [d] while it divides; the output grows by [d] each time. *)
Definition divide_turn (d : Z) (s : Z * bool * list Z) : outcome (Z * bool * list Z + Z * bool * list Z) :=
  let '(n, first, out) := s in
  if n mod d =? 0 then
    text ← print_number d;
    Ret (inl (n `div` d, false, out ++ separator first ++ text))
  else Ret (inr (n, first, out)).

Definition odd_turn (s : Z * Z * bool * list Z) : outcome (Z * Z * bool * list Z + Z * bool * list Z) :=
  let '(n, d, first, out) := s in
  square ← mul64 d d;
  if square <=? n then
    '(n, first, out) ← while_do (divide_turn d) (n, first, out);
    d ← add64 d 2;
    Ret (inl (n, d, first, out))
  else Ret (inr (n, first, out)).

Definition factor_number (n : Z) : outcome (list Z) :=
  if n <=? 1 then Ret [NEWLINE]
  else
    '(n, first, out) ← while_do (divide_turn 2) (n, true, []);
    '(n, first, out) ← while_do odd_turn (n, 3, first, out);
    out ← (if 1 <? n then text ← print_number n; Ret (out ++ separator first ++ text) else Ret out);
    Ret (out ++ [NEWLINE]).

End factor.

(** ** cksum *)

Definition CRC_POLY : Z := 0xEDB88320.

(** One of the eight turns for an entry of the table. *)
Definition crc_bit (crc : Z) : Z :=
  if negb (Z.land crc 1 =? 0) then Z.lxor (Z.shiftr crc 1) CRC_POLY else Z.shiftr crc 1.

Definition build_crc32_table : list Z := (λ i, Nat.iter 8 crc_bit i) <$> seqZ 0 256.
Definition CRC32_TABLE : list Z := Eval vm_compute in build_crc32_table.

Definition crc32_byte (crc byte : Z) : outcome Z :=
  e ← index CRC32_TABLE (Z.land (Z.lxor crc byte) 0xFF);
  Ret (Z.lxor (Z.shiftr crc 8) e).

Fixpoint crc32_update (crc : Z) (data : list Z) : outcome Z :=
  match data with
  | [] => Ret crc
  | byte :: data => crc ← crc32_byte crc byte; crc32_update crc data
  end.

(** The loop over the pieces that [read] returns, and what is printed: the
    checksum and the length. *)
Section cksum.
Context `{BuildProfile}.

Fixpoint cksum_loop (chunks : list (list Z)) (crc total_len : Z) : outcome (Z * Z) :=
  match chunks with
  | [] => Ret (crc, total_len)
  | buf :: chunks =>
      if len buf =? 0 then Ret (crc, total_len)
      else
        crc ← crc32_update crc buf;
        total_len ← add64 total_len (len buf);
        cksum_loop chunks crc total_len
  end.

Definition cksum (path : list Z) (chunks : list (list Z)) : outcome (list Z) :=
  '(crc, total_len) ← cksum_loop chunks 0xFFFFFFFF 0;
  c ← print_u32 (Z.lxor crc 0xFFFFFFFF);
  n ← print_number total_len;
  Ret (c ++ [SPACE] ++ n ++ [SPACE] ++ path ++ [NEWLINE]).

End cksum.

(** ** base64 and base32 *)

(** What [stdout] prints of bytes that must be valid UTF-8. *)
Definition stdout_utf8 (l : list Z) : list Z := if utf8_valid l then l else [].

(** [data[i]] as an integer, or zero beyond the end. *)
Definition byte_or_zero (data : list Z) (i : Z) : outcome Z := if i <? len data then index data i else Ret 0.

Definition PAD : Z := 61.
Definition B64_TABLE : list Z := Eval vm_compute in str "ABCDEFGHIJKLMNOPQRSTUVWXYZabcdefghijklmnopqrstuvwxyz0123456789+/".

Definition encode64_turn (data : list Z) (s : Z * list Z) : outcome (Z * list Z + list Z) :=
  let '(i, out) := s in
  if i <? len data then
    b0 ← index data i;
    b1 ← byte_or_zero data (i + 1);
    b2 ← byte_or_zero data (i + 2);
    let triple := Z.lor (Z.lor (Z.shiftl b0 16) (Z.shiftl b1 8)) b2 in
    o0 ← index B64_TABLE (Z.land (Z.shiftr triple 18) 0x3F);
    o1 ← index B64_TABLE (Z.land (Z.shiftr triple 12) 0x3F);
    o2 ← (if i + 1 <? len data then index B64_TABLE (Z.land (Z.shiftr triple 6) 0x3F) else Ret PAD);
    o3 ← (if i + 2 <? len data then index B64_TABLE (Z.land triple 0x3F) else Ret PAD);
    Ret (inl (i + 3, out ++ stdout_utf8 [o0; o1; o2; o3]))
  else Ret (inr out).

Definition base64_encode (data : list Z) : outcome (list Z) :=
  out ← while_do (encode64_turn data) (0, []);
  Ret (out ++ [NEWLINE]).

Definition in_range (lo c hi : Z) : bool := (lo <=? c) && (c <=? hi).

Definition b64_decode_char (c : Z) : Z :=
  if in_range 65 c 90 then c - 65
  else if in_range 97 c 122 then c - 97 + 26
  else if in_range 48 c 57 then c - 48 + 52
  else if c =? 43 then 62
  else if c =? 47 then 63
  else 0xFF.

Definition is_ascii_whitespace (c : Z) : bool := (c =? 32) || (c =? 9) || (c =? 10) || (c =? 12) || (c =? 13).

Definition CLEAN_SIZE : Z := 8192.

(** The characters kept in the buffer, which has room for [CLEAN_SIZE]. *)
Definition clean_input (keep : Z → bool) (data : list Z) : list Z := take (Z.to_nat CLEAN_SIZE) (filter (λ b, keep b = true) data).

Definition decode64_turn (clean : list Z) (s : Z * list Z) : outcome (Z * list Z + list Z) :=
  let '(i, out) := s in
  let char k := if i + k <? len clean then c ← index clean (i + k); Ret (if c =? PAD then 0xFF else b64_decode_char c) else Ret 0xFF in
  if i <? len clean then
    b0 ← index clean i;
    let c0 := b64_decode_char b0 in
    c1 ← (if i + 1 <? len clean then b1 ← index clean (i + 1); Ret (b64_decode_char b1) else Ret 0);
    c2 ← char 2;
    c3 ← char 3;
    if (c0 =? 0xFF) || (c1 =? 0xFF) then Ret (inr out)
    else
      let triple := Z.lor (Z.shiftl c0 18) (Z.shiftl c1 12) in
      let out := out ++ stdout_utf8 [Z.land (Z.shiftr triple 16) 0xFF] in
      let out := if negb (c2 =? 0xFF) then out ++ stdout_utf8 [Z.land (Z.shiftr (Z.lor triple (Z.shiftl c2 6)) 8) 0xFF] else out in
      let out := if negb (c3 =? 0xFF) then out ++ stdout_utf8 [Z.land (Z.lor triple c3) 0xFF] else out in
      Ret (inl (i + 4, out))
  else Ret (inr out).

Definition base64_decode (data : list Z) : outcome (list Z) :=
  out ← while_do (decode64_turn (clean_input (λ b, negb (is_ascii_whitespace b)) data)) (0, []);
  Ret (out ++ [NEWLINE]).

Definition B32_TABLE : list Z := Eval vm_compute in str "ABCDEFGHIJKLMNOPQRSTUVWXYZ234567".

(** The character [j] of a group of 40 bits. *)
Definition char32 (quint num_chars j : Z) : outcome Z :=
  let idx := Z.land (Z.shiftr quint (35 - j * 5)) 0x1F in
  if j <? num_chars then index B32_TABLE idx else Ret PAD.

Fixpoint outcome_map {A B} (f : A → outcome B) (l : list A) : outcome (list B) :=
  match l with [] => Ret [] | a :: l => b ← f a; bs ← outcome_map f l; Ret (b :: bs) end.

Definition encode32_turn (data : list Z) (s : Z * list Z) : outcome (Z * list Z + list Z) :=
  let '(i, out) := s in
  if i <? len data then
    b0 ← index data i;
    b1 ← byte_or_zero data (i + 1);
    b2 ← byte_or_zero data (i + 2);
    b3 ← byte_or_zero data (i + 3);
    b4 ← byte_or_zero data (i + 4);
    let quint := Z.lor (Z.lor (Z.lor (Z.lor (Z.shiftl b0 32) (Z.shiftl b1 24)) (Z.shiftl b2 16)) (Z.shiftl b3 8)) b4 in
    let num_chars := if i + 5 <=? len data then 8 else ((len data - i) * 8 + 4) `div` 5 in
    out_buf ← outcome_map (char32 quint num_chars) (seqZ 0 8);
    Ret (inl (i + 5, out ++ stdout_utf8 out_buf))
  else Ret (inr out).

Definition base32_encode (data : list Z) : outcome (list Z) :=
  out ← while_do (encode32_turn data) (0, []);
  Ret (out ++ [NEWLINE]).

Definition b32_decode_char (c : Z) : option Z :=
  if in_range 65 c 90 then Some (c - 65)
  else if in_range 97 c 122 then Some (c - 97)
  else if in_range 50 c 55 then Some (c - 50 + 26)
  else None.

Fixpoint collect32 (group : list Z) (val valid_bits : Z) : Z * Z :=
  match group with
  | [] => (val, valid_bits)
  | c :: group =>
      match b32_decode_char c with
      | Some idx => collect32 group (Z.lor (wrap 64 (Z.shiftl val 5)) idx) (valid_bits + 5)
      | None => collect32 group val valid_bits
      end
  end.

Definition decode32_turn (clean : list Z) (s : Z * list Z) : outcome (Z * list Z + list Z) :=
  let '(i, out) := s in
  if i + 8 <=? len clean then
    group ← slice clean i (i + 8);
    let '(val, valid_bits) := collect32 group 0 0 in
    let byte j := Z.land (Z.shiftr val (32 - j * 8)) 0xFF in
    Ret (inl (i + 8, out ++ mjoin ((λ j, stdout_utf8 [byte j]) <$> seqZ 0 (valid_bits `div` 8))))
  else Ret (inr out).

Definition base32_decode (data : list Z) : outcome (list Z) :=
  out ← while_do (decode32_turn (clean_input (λ b, negb (is_ascii_whitespace b) && negb (b =? PAD)) data)) (0, []);
  Ret (out ++ [NEWLINE]).

(** ** tsort *)

Definition MAX_NODES : Z := 256.
Definition MAX_EDGES : Z := 1024.

Definition is_blank (c : Z) : bool := (c =? SPACE) || (c =? TAB) || (c =? NEWLINE) || (c =? 13).

(** The longest prefix that satisfies [f], and the rest. *)
Fixpoint span (f : Z → bool) (l : list Z) : list Z * list Z :=
  match l with
  | [] => ([], [])
  | c :: l' => if f c then let '(a, b) := span f l' in (c :: a, b) else ([], l)
  end.

Fixpoint tokenize_loop (fuel : nat) (data : list Z) (tokens : list (list Z)) : list (list Z) :=
  match fuel with
  | O => tokens
  | S fuel =>
      if negb (len data =? 0) && (len tokens <? MAX_EDGES) then
        let '(_, data) := span is_blank data in
        if len data =? 0 then tokens
        else
          let '(token, data) := span (λ c, negb (is_blank c)) data in
          tokenize_loop fuel data (if utf8_valid token then tokens ++ [token] else tokens)
      else tokens
  end.

Definition tokenize (data : list Z) : list (list Z) := tokenize_loop (S (length data)) data [].

(** [names] are the entries in use; a name beyond the last entry becomes node 0. *)
Definition find_or_add_node (names : list (list Z)) (name : list Z) : Z * list (list Z) :=
  match list_find (λ x, x = name) names with
  | Some (i, _) => (Z.of_nat i, names)
  | None => if len names <? MAX_NODES then (len names, names ++ [name]) else (0, names)
  end.

Fixpoint read_edges (tokens : list (list Z)) (names : list (list Z)) (edges : list (Z * Z)) : list (list Z) * list (Z * Z) :=
  match tokens with
  | a :: b :: tokens =>
      let '(idx_a, names) := find_or_add_node names a in
      let '(idx_b, names) := find_or_add_node names b in
      read_edges tokens names (if len edges <? MAX_EDGES then edges ++ [(idx_a, idx_b)] else edges)
  | _ => (names, edges)
  end.

Fixpoint count_degrees (edges : list (Z * Z)) (in_degree : list Z) : outcome (list Z) :=
  match edges with
  | [] => Ret in_degree
  | (_, dest) :: edges =>
      d ← index in_degree dest;
      in_degree ← store in_degree dest (d + 1);
      count_degrees edges in_degree
  end.

(** Remove the edges from [node]; destinations without edges join the queue. *)
Fixpoint remove_edges (edges : list (Z * Z)) (node : Z) (in_degree queue : list Z) : outcome (list Z * list Z) :=
  match edges with
  | [] => Ret (in_degree, queue)
  | (from, dest) :: edges =>
      if from =? node then
        d ← index in_degree dest;
        if 0 <? d then
          in_degree ← store in_degree dest (d - 1);
          remove_edges edges node in_degree (if (d - 1 =? 0) && (len queue <? MAX_NODES) then queue ++ [dest] else queue)
        else remove_edges edges node in_degree queue
      else remove_edges edges node in_degree queue
  end.

(** One turn of Kahn's algorithm; the queue keeps the nodes before its head. *)
Definition kahn_turn (edges : list (Z * Z)) (s : list Z * list Z * Z) : outcome (list Z * list Z * Z + list Z) :=
  let '(in_degree, queue, head) := s in
  if head <? len queue then
    node ← index queue head;
    '(in_degree, queue) ← remove_edges edges node in_degree queue;
    Ret (inl (in_degree, queue, head + 1))
  else Ret (inr queue).

Definition kahn (node_count : Z) (edges : list (Z * Z)) : outcome (list Z) :=
  in_degree ← count_degrees edges (replicate (Z.to_nat MAX_NODES) 0);
  let queue := filter (λ n, nth (Z.to_nat n) in_degree 0 = 0) (seqZ 0 node_count) in
  while_do (kahn_turn edges) (in_degree, queue, 0).

(** The names in order, and whether a cycle is reported. *)
Definition tsort (data : list Z) : outcome (list (list Z) * bool) :=
  let '(names, edges) := read_edges (tokenize data) [] [] in
  order ← kahn (len names) edges;
  lines ← outcome_map (index names) order;
  Ret (lines, len order <? len names).

(** ** sort and uniq *)

(** The order of strings. *)
Fixpoint bytes_compare (a b : list Z) : comparison :=
  match a, b with
  | [], [] => Eq
  | [], _ :: _ => Lt
  | _ :: _, [] => Gt
  | x :: a, y :: b => match Z.compare x y with Eq => bytes_compare a b | c => c end
  end.
Definition bytes_lt (a b : list Z) : bool := match bytes_compare a b with Lt => true | _ => false end.

(** The lines that end in a newline, and what follows the last. *)
Fixpoint split_lines (data line : list Z) : list (list Z) * list Z :=
  match data with
  | [] => ([], line)
  | c :: data => if c =? NEWLINE then let '(ls, r) := split_lines data [] in (line :: ls, r) else split_lines data (line ++ [c])
  end.

Definition SORT_LINES : nat := 256.

Definition sort_lines (data : list Z) : list (list Z) :=
  take SORT_LINES (filter (λ l, utf8_valid l = true) (split_lines data []).1).

(** Shift the lines before [j] that are above the key. *)
Definition shift_turn (key : list Z) (s : list (list Z) * Z) : outcome (list (list Z) * Z + list (list Z) * Z) :=
  let '(lines, j) := s in
  if 0 <? j then
    prev ← index lines (j - 1);
    if bytes_lt key prev then lines ← store lines j prev; Ret (inl (lines, j - 1)) else Ret (inr (lines, j))
  else Ret (inr (lines, j)).

Fixpoint insertion_sort (todo : list Z) (lines : list (list Z)) : outcome (list (list Z)) :=
  match todo with
  | [] => Ret lines
  | i :: todo =>
      key ← index lines i;
      '(lines, j) ← while_do (shift_turn key) (lines, i);
      lines ← store lines j key;
      insertion_sort todo lines
  end.

Definition sort (data : list Z) : outcome (list (list Z)) :=
  let lines := sort_lines data in insertion_sort (seqZ 1 (len lines - 1)) lines.

Fixpoint uniq_loop (lines : list (list Z)) (prev : list Z) : list (list Z) :=
  match lines with
  | [] => []
  | line :: lines =>
      if utf8_valid line && negb (bool_decide (line = prev)) then line :: uniq_loop lines line else uniq_loop lines prev
  end.

Definition uniq (data : list Z) : list (list Z) := uniq_loop (split_lines data []).1 [].

(** ** Examples *)

(** The encoding is that of RFC 4648; the decoder loses two bits of every third
    byte, and [base32]'s drops a group that padding made shorter. *)
Example base64_third_byte :
  base64_encode (str "Man") = Ret (str "TWFu" ++ [NEWLINE]) ∧ base64_decode (str "TWFu") = Ret (str "Ma." ++ [NEWLINE]).
Proof. split; vm_compute; reflexivity. Qed.

Example base32_last_group :
  base32_encode (str "foobar") = Ret (str "MZXW6YTBOI======" ++ [NEWLINE]) ∧
  base32_decode (str "MZXW6YTBOI======") = Ret (str "fooba" ++ [NEWLINE]).
Proof. split; vm_compute; reflexivity. Qed.
