(* ===== verification/Decimal.v ===== *)
(** * Numbers in decimal

    What the printing loops of the utilities (user/coreutils/src) write: the
    digits of the number, without a leading zero, within their buffers. *)

From stdpp Require Import strings.
From S2P Require Import Prelude Loop Coreutils.
Local Open Scope Z_scope.

Definition decimal_value (l : list Z) : Z := foldl (λ a d, a * 10 + (d - ZERO)) 0 l.

Definition is_digit (d : Z) : Prop := ZERO ≤ d < ZERO + 10.

(** The digits of [n], without a leading zero. *)
Definition numeral (l : list Z) (n : Z) : Prop :=
  decimal_value l = n ∧ Forall is_digit l ∧ l ≠ [] ∧ (head l = Some ZERO → n = 0).

Lemma foldl_digits l a : foldl (λ a d, a * 10 + (d - ZERO)) a l = a * 10 ^ len l + decimal_value l.
Proof.
  unfold decimal_value. revert a. induction l as [|d l IH]; intros a; cbn [foldl]; [unfold len; simpl; lia|].
  rewrite IH, (IH (0 * 10 + _)), len_cons, Z.pow_add_r by (unfold len; lia). lia.
Qed.

Lemma decimal_cons d l : decimal_value (d :: l) = (d - ZERO) * 10 ^ len l + decimal_value l.
Proof. unfold decimal_value at 1. cbn [foldl]. rewrite foldl_digits. lia. Qed.

(** The loop with [l] printed so far. *)
Lemma print_decimal_ok room n :
  0 < room → 0 ≤ n < 10 ^ room → n < 2 ^ 64 → ∃ l, print_decimal room n = Ret l ∧ numeral l n.
Proof.
  intros Hr Hn Hn64. unfold print_decimal. destruct (Z.eqb_spec n 0) as [->|Hnz].
  { exists [ZERO]. split; [done|]. split_and!; [done| |done|done]. constructor; [unfold is_digit, ZERO; lia|constructor]. }
  apply (while_spec _ (λ s, 0 ≤ s.1 ∧ (s.1 * 10 ^ len s.2 + decimal_value s.2 = n) ∧ Forall is_digit s.2 ∧ (s.1 = 0 → s.2 ≠ [] ∧ head s.2 ≠ Some ZERO) ∧
    s.1 * 10 ^ len s.2 ≤ n) (λ s, s.1)).
  - intros [v out] (H0 & Hv & Hd & Hh & Hle). cbn [fst snd] in *. unfold digit_turn.
    assert (0 ≤ len out) as Hlo by (unfold len; lia). destruct (Z.ltb_spec 0 v) as [Hpos|Hz].
    + rewrite (proj2 (Z.eqb_neq (len out) room)).
      2: { intros E. rewrite E in Hle. assert (10 ^ room * 1 ≤ v * 10 ^ room) by nia. lia. }
      eexists. split; [reflexivity|]. cbn [fst snd]. pose proof (Z.div_mod v 10 ltac:(lia)). pose proof (Z.mod_pos_bound v 10 ltac:(lia)).
      assert (0 ≤ v `div` 10 < v) as Hdiv by (split; [apply Z.div_pos; lia|apply Z.div_lt; lia]).
      rewrite decimal_cons, len_cons, Z.pow_add_r by lia. split; [|lia]. split_and!; [lia|nia|constructor; [unfold is_digit, ZERO; lia|done]| |nia].
      intros Hv0. split; [done|]. cbn [head]. intros E%(inj Some). lia.
    + eexists. split; [reflexivity|]. assert (v = 0) as -> by lia. destruct (Hh eq_refl) as [Hne Hz0]. split_and!; [lia|done|done|done].
  - cbn [fst snd]. split_and!; [lia|unfold decimal_value, len; simpl; lia|constructor|done|unfold len; simpl; lia].
  - cbn [fst]. lia.
Qed.

Lemma print_number_ok n : is_uint 64 n → ∃ l, print_number n = Ret l ∧ numeral l n.
Proof. intros [H0 H1]. apply print_decimal_ok; [lia| |lia]. assert (2 ^ 64 < 10 ^ 20) by done. lia. Qed.

Lemma print_u32_ok n : is_uint 32 n → ∃ l, print_u32 n = Ret l ∧ numeral l n.
Proof. intros [H0 H1]. apply print_decimal_ok; [lia| |lia]. assert (2 ^ 32 < 10 ^ 10) by done. lia. Qed.
