(* ===== verification/FactorProofs.v ===== *)
(** * factor prints the prime factorisation

    Trial division by 2 and the odd numbers:
    it ends, and prints the prime factors of its argument in increasing order. *)

From stdpp Require Import strings sorting.
From Stdlib Require Import Znumtheory.
From S2P Require Import Prelude Loop Coreutils Decimal.
Local Open Scope Z_scope.

(** ** The printed factors *)

Definition spaced (ls : list (list Z)) : list Z :=
  match ls with [] => [] | l :: ls => l ++ mjoin ((λ x, SPACE :: x) <$> ls) end.

Definition printed (fs : list Z) (out : list Z) : Prop := ∃ ls, Forall2 numeral ls fs ∧ out = spaced ls.

Lemma spaced_snoc ls l : spaced (ls ++ [l]) = spaced ls ++ separator (bool_decide (ls = [])) ++ l.
Proof.
  destruct ls as [|x ls]; [simpl; by rewrite app_nil_r|]. cbn [spaced app]. rewrite fmap_app, join_app. cbn. rewrite app_nil_r.
  by rewrite app_assoc.
Qed.

Lemma printed_snoc fs out d l :
  printed fs out → numeral l d → printed (fs ++ [d]) (out ++ separator (bool_decide (fs = [])) ++ l).
Proof.
  intros (ls & Hls & ->) Hl. exists (ls ++ [l]). split; [by apply Forall2_app; [|constructor]|]. rewrite spaced_snoc.
  assert (bool_decide (fs = []) = bool_decide (ls = [])) as ->; [|done]. apply bool_decide_ext. destruct Hls; naive_solver.
Qed.

Definition product (fs : list Z) : Z := foldr Z.mul 1 fs.

Lemma product_snoc fs d : product (fs ++ [d]) = product fs * d.
Proof. unfold product. rewrite foldr_app. cbn. induction fs as [|x fs IH]; cbn; [lia|]. rewrite IH. lia. Qed.

(** ** Trial division *)

(** The factors [fs] found so far, the rest [n] and the output. *)
Record found (N d n : Z) (first : bool) (fs out : list Z) : Prop := {
  fd_product : product fs * n = N;
  fd_rest : 1 ≤ n;
  fd_prime : Forall prime fs;
  fd_sorted : Sorted Z.le fs;
  fd_last : ∀ f, f ∈ fs → f ≤ d;
  fd_none : ∀ k, 2 ≤ k < d → ¬ (k | n);
  fd_printed : printed fs out;
  fd_first : first = bool_decide (fs = []);
}.

Lemma smallest_divisor_prime d n : 2 ≤ d → (d | n) → (∀ k, 2 ≤ k < d → ¬ (k | n)) → prime d.
Proof.
  intros Hd Hdn Hk. apply prime_alt. split; [lia|]. intros k Hr Hkd. apply (Hk k ltac:(lia)). by apply (Z.divide_trans k d n).
Qed.

Lemma sorted_snoc fs d : Sorted Z.le fs → (∀ f, f ∈ fs → f ≤ d) → Sorted Z.le (fs ++ [d]).
Proof.
  induction 1 as [|f fs Hs IH Hh]; intros Hf; [by repeat constructor|]. cbn. constructor; [apply IH; intros; apply Hf; by right|].
  destruct Hh; cbn; constructor; [apply Hf; by left|done].
Qed.

Lemma divide_loop N d n first fs out :
  2 ≤ d < 2 ^ 64 → n < 2 ^ 64 → found N d n first fs out →
  ∃ x, while_do (divide_turn d) (n, first, out) = Ret x ∧
    ∃ fs', found N d x.1.1 x.1.2 fs' x.2 ∧ x.1.1 ≤ n ∧ ¬ (d | x.1.1).
Proof.
  intros Hd Hn Hf.
  apply (while_spec _ (λ s, s.1.1 ≤ n ∧ ∃ fs, found N d s.1.1 s.1.2 fs s.2) (λ s, s.1.1)); [|split; [done|by exists fs]|cbn [fst]; lia].
  clear Hf. intros [[m fi] o] (Hm & fs' & Hf'). cbn [fst snd] in *. unfold divide_turn. destruct (Z.eqb_spec (m mod d) 0) as [Hz|Hnz].
  - destruct (print_number_ok d) as (l & -> & Hl); [unfold is_uint; lia|]. cbn [mbind outcome_bind]. eexists. split; [reflexivity|].
    pose proof (fd_rest _ _ _ _ _ _ Hf'). assert (d | m) as Hdm by (by apply Z.mod_divide; [lia|]). pose proof (Z.div_mod m d ltac:(lia)) as Hdm2. rewrite Hz in Hdm2.
    assert (0 < m `div` d) by nia. cbn [fst snd]. split; [|nia]. split; [nia|]. exists (fs' ++ [d]).
    destruct Hf' as [Hp Hr Hpr Hs Hla Hno Hout Hfi]. split.
    + rewrite product_snoc. nia.
    + lia.
    + apply list.Forall_app. split; [done|]. constructor; [|constructor]. by eapply smallest_divisor_prime; [lia|exact Hdm|].
    + by apply sorted_snoc.
    + intros f. rewrite elem_of_app, list_elem_of_singleton. intros [?| ->]; [by apply Hla|lia].
    + intros k Hk Hkm. apply (Hno k Hk). rewrite Hdm2, Z.add_0_r. by apply Z.divide_mul_r.
    + rewrite Hfi. by apply printed_snoc.
    + rewrite bool_decide_eq_false_2; [done|]. by destruct fs'.
  - eexists. split; [reflexivity|]. exists fs'. cbn [fst snd]. split; [done|]. split; [lia|]. intros Hdm. apply Hnz. by apply Z.mod_divide; [lia|].
Qed.

(** ** The loop over the odd numbers *)

(** The square of the largest odd number below [2 ^ 32], from which on the
    squares of the loop overflow. *)
Definition FACTOR_LIMIT : Z := (2 ^ 32 - 1) ^ 2.

Section main.
Context `{BuildProfile}.

Lemma odd_loop N n first fs out :
  1 ≤ n < FACTOR_LIMIT → found N 3 n first fs out →
  ∃ x, while_do odd_turn (n, 3, first, out) = Ret x ∧
    ∃ fs' d, found N d x.1.1 x.1.2 fs' x.2 ∧ 3 ≤ d ∧ x.1.1 < d * d ∧ x.1.1 < FACTOR_LIMIT.
Proof.
  intros Hn Hf. assert (FACTOR_LIMIT = (2 ^ 32 - 1) * (2 ^ 32 - 1)) as HL by done. assert (FACTOR_LIMIT < 2 ^ 64) as HL64 by done.
  apply (while_spec _ (λ s, s.1.1.1 < FACTOR_LIMIT ∧ 3 ≤ s.1.1.2 ≤ 2 ^ 32 - 1 ∧ s.1.1.2 mod 2 = 1 ∧
    ∃ fs, found N s.1.1.2 s.1.1.1 s.1.2 fs s.2) (λ s, 2 ^ 32 - s.1.1.2)).
  - clear Hn Hf. intros [[[m d] fi] o] (Hm & Hd & Ho & fs' & Hf'). cbn [fst snd] in *. unfold odd_turn.
    rewrite mul64_ok by (unfold is_uint; nia). cbn [mbind outcome_bind]. destruct (Z.leb_spec (d * d) m) as [Hle|Hgt].
    + destruct (divide_loop N d m fi fs' o) as ([[m' fi'] o'] & -> & fs2 & Hf2 & Hmm & Hnd); [lia|lia|done|]. cbn [fst snd] in *. cbn [mbind outcome_bind].
      assert (d < 2 ^ 32 - 1) as Hdl by nia. rewrite add64_ok by (unfold is_uint; lia). cbn [mbind outcome_bind]. eexists. split; [reflexivity|]. cbn [fst snd].
      assert (d + 2 ≤ 2 ^ 32 - 1) as Hd2.
      { destruct (decide (d = 2 ^ 32 - 2)) as [->|]; [vm_compute in Ho; discriminate Ho|]. lia. }
      split; [|lia]. split_and!; [lia|lia|lia| |].
      * replace (d + 2) with (d + 1 * 2) by lia. by rewrite Z.mod_add.
      * exists fs2. destruct Hf2 as [Hp Hr Hpr Hs Hla Hno Hout Hfi]. split; [done..|intros f Hin; specialize (Hla f Hin); lia| |done|done].
        intros k Hk Hkm. destruct (decide (k < d)) as [|]; [apply (Hno k); [lia|done]|]. destruct (decide (k = d)) as [->|]; [done|].
        assert (k = d + 1) as -> by lia. apply (Hno 2 ltac:(lia)). apply (Z.divide_trans 2 (d + 1)); [|done].
        apply Z.mod_divide; [lia|]. rewrite <- Z.add_mod_idemp_l, Ho by lia. done.
    + eexists. split; [reflexivity|]. exists fs', d. cbn [fst snd]. split_and!; [done|lia|lia|lia].
  - cbn [fst snd]. split_and!; [lia|lia|lia|done|by exists fs].
  - cbn [fst snd]. lia.
Qed.

Lemma rest_prime N d n first fs out : found N d n first fs out → 2 ≤ d → 1 < n → n < d * d → prime n.
Proof.
  intros Hf Hd Hn Hlt. apply prime_alt. split; [done|]. intros k Hk [q Hq].
  pose proof (fd_none _ _ _ _ _ _ Hf) as Hno. destruct (decide (k < d)); [apply (Hno k); [lia|by exists q]|].
  assert (q < d) by nia. apply (Hno q); [nia|]. exists k. lia.
Qed.

(** C19: For every number below 18446744065119617025 [factor] ends, and prints the
    prime factors of the number in increasing order, each as often as it divides
    the number: their product is the number. *)
Theorem factor_correct n :
  2 ≤ n < FACTOR_LIMIT →
  ∃ fs out, factor_number n = Ret (out ++ [NEWLINE]) ∧ printed fs out ∧ Forall prime fs ∧ Sorted Z.le fs ∧ product fs = n.
Proof.
  intros Hn. assert (FACTOR_LIMIT < 2 ^ 64) as HL by done. unfold factor_number. rewrite (proj2 (Z.leb_gt n 1)) by lia.
  assert (found n 2 n true [] []) as Hf0.
  { split; [cbn; lia|lia|constructor|constructor|by intros f ?%elem_of_nil|intros k; lia|by exists []|done]. }
  destruct (divide_loop n 2 n true [] []) as ([[n1 f1] o1] & -> & fs1 & H1 & Hle1 & Hnd); [lia|lia|done|]. cbn [fst snd] in *. rewrite bind_Ret.
  assert (found n 3 n1 f1 fs1 o1) as H1'.
  { destruct H1 as [Hp Hr Hpr Hs Hla Hno Hout Hfi]. split; [done..|intros f Hin; specialize (Hla f Hin); lia| |done|done].
    intros k Hk. assert (k = 2) as -> by lia. done. }
  destruct (odd_loop n n1 f1 fs1 o1) as ([[n2 f2] o2] & -> & fs2 & d & H2 & Hd & Hlt & HltL); [pose proof (fd_rest _ _ _ _ _ _ H1); lia|done|].
  cbn [fst snd] in *. rewrite bind_Ret. destruct (Z.ltb_spec 1 n2) as [Hbig|Hone].
  - destruct (print_number_ok n2) as (l & -> & Hl); [unfold is_uint; lia|]. rewrite bind_Ret.
    exists (fs2 ++ [n2]), (o2 ++ separator f2 ++ l). split; [done|]. pose proof (rest_prime _ _ _ _ _ _ H2 ltac:(lia) Hbig Hlt) as Hpn.
    destruct H2 as [Hp Hr Hpr Hs Hla Hno Hout Hfi]. split_and!.
    + rewrite Hfi. by apply printed_snoc.
    + apply list.Forall_app. by split; [|constructor].
    + apply sorted_snoc; [done|]. intros f Hin. specialize (Hla f Hin). destruct (decide (n2 < d)) as [Hsmall|]; [|lia].
      exfalso. apply (Hno n2); [lia|]. by exists 1; lia.
    + rewrite product_snoc. done.
  - exists fs2, o2. destruct H2 as [Hp Hr Hpr Hs Hla Hno Hout Hfi]. split_and!; [done|done|done|done|]. nia.
Qed.

End main.

Section instances.
#[local] Existing Instance dev_profile.

Lemma factor_correct_witness :
  ∃ fs out, factor_number 1234567 = Ret (out ++ [NEWLINE]) ∧ printed fs out ∧ Forall prime fs ∧ Sorted Z.le fs ∧ product fs = 1234567.
Proof. apply (factor_correct 1234567). unfold FACTOR_LIMIT. lia. Defined.

(** The text that [factor] prints for 60. *)
Example factor_60 : factor_number 60 = Ret [50; 32; 50; 32; 51; 32; 53; 10].
Proof. vm_compute. reflexivity. Qed.

(** The square of [2 ^ 32 + 1] overflows. *)
Example factor_overflow : odd_turn (2 ^ 64 - 59, 2 ^ 32 + 1, true, []) = Panic.
Proof. vm_compute. reflexivity. Qed.

End instances.
