(* ===== verification/CksumProofs.v ===== *)
(** * cksum computes the CRC-32

    The table-driven update agrees with the shift register that takes the message
    one bit at a time, whatever pieces the file is read in; and two messages that
    differ only within 32 bits in a row have different checksums. *)

From stdpp Require Import strings.
From S2P Require Import Prelude Loop RustStr Coreutils Decimal.
Local Open Scope Z_scope.

(** ** The reference: a linear feedback shift register *)

(** One bit of the message enters the register. *)
Definition shift_in (crc : Z) (b : bool) : Z :=
  if xorb (Z.odd crc) b then Z.lxor (Z.div2 crc) CRC_POLY else Z.div2 crc.

(** The bits of a byte, the least significant one first. *)
Definition byte_bits (byte : Z) : list bool := Z.testbit byte <$> seqZ 0 8.

Definition message_bits (data : list Z) : list bool := data ≫= byte_bits.

Definition register (crc : Z) (data : list Z) : Z := foldl shift_in crc (message_bits data).

Definition crc32 (data : list Z) : Z := Z.lxor (register 0xFFFFFFFF data) 0xFFFFFFFF.

Lemma crc_bit_odd crc : crc_bit crc = if Z.odd crc then Z.lxor (Z.div2 crc) CRC_POLY else Z.div2 crc.
Proof.
  unfold crc_bit. replace (Z.land crc 1) with (crc mod 2) by (symmetry; apply (Z.land_ones crc 1); lia).
  rewrite Zmod_odd, <- Z.div2_spec. by destruct (Z.odd crc).
Qed.

Lemma div2_lxor a b : Z.div2 (Z.lxor a b) = Z.lxor (Z.div2 a) (Z.div2 b).
Proof. rewrite !Z.div2_spec. apply Z.shiftr_lxor. Qed.

Lemma odd_lxor a b : Z.odd (Z.lxor a b) = xorb (Z.odd a) (Z.odd b).
Proof. rewrite <- !Z.bit0_odd. apply Z.lxor_spec. Qed.

(** The bits of [v] can enter one by one or all at once. *)
Lemma crc_bit_lxor crc v : crc_bit (Z.lxor crc v) = Z.lxor (shift_in crc (Z.odd v)) (Z.div2 v).
Proof.
  rewrite crc_bit_odd, odd_lxor, div2_lxor. unfold shift_in. destruct (xorb _ _); [|done].
  rewrite !Z.lxor_assoc. f_equal. apply Z.lxor_comm.
Qed.

Lemma iter_crc_bit n crc v :
  Nat.iter n crc_bit (Z.lxor crc v) =
    Z.lxor (foldl shift_in crc (Z.testbit v <$> seqZ 0 (Z.of_nat n))) (Z.shiftr v (Z.of_nat n)).
Proof.
  induction n as [|n IH]; [cbn; by rewrite Z.shiftr_0_r|]. rewrite Nat.iter_succ, IH, crc_bit_lxor, seqZ_S, fmap_app, foldl_app.
  cbn [fmap list_fmap foldl]. f_equal.
  - by rewrite <- Z.bit0_odd, Z.shiftr_spec by lia.
  - rewrite Z.div2_spec, Z.shiftr_shiftr by lia. f_equal. lia.
Qed.

(** ** The table *)

Lemma table_entry i : 0 ≤ i < 256 → index CRC32_TABLE i = Ret (Nat.iter 8 crc_bit i).
Proof.
  intros Hi.
  assert (CRC32_TABLE = build_crc32_table) as -> by (vm_compute; reflexivity).
  apply index_lookup; [lia|]. unfold build_crc32_table. rewrite list_lookup_fmap, lookup_seqZ_lt by lia. cbn [fmap option_fmap option_map]. f_equal. f_equal. lia.
Qed.

Lemma byte_shiftr b : is_byte b → Z.shiftr b 8 = 0.
Proof. intros [? ?]. rewrite Z.shiftr_div_pow2 by lia. apply Z.div_small. lia. Qed.

(** The low byte goes through the table, the rest is shifted out. *)
Lemma split_low_byte x : Nat.iter 8 crc_bit x = Z.lxor (Nat.iter 8 crc_bit (Z.land x 0xFF)) (Z.shiftr x 8).
Proof.
  set (a := Z.land x 0xFF). set (r := Z.shiftl (Z.shiftr x 8) 8).
  assert (x = Z.lxor a r) as E.
  { apply Z.bits_inj'. intros n Hn. unfold a, r. rewrite Z.lxor_spec, Z.land_spec. change 0xFF with (Z.ones 8).
    destruct (Z.lt_ge_cases n 8).
    - rewrite Z.ones_spec_low, Z.shiftl_spec_low by lia. by rewrite andb_true_r, xorb_false_r.
    - rewrite Z.ones_spec_high, Z.shiftl_spec, Z.shiftr_spec by lia. rewrite andb_false_r, xorb_false_l. f_equal. lia. }
  pose proof (iter_crc_bit 8 a r) as H1. pose proof (iter_crc_bit 8 a 0) as H2. rewrite <- E in H1. rewrite Z.lxor_0_r in H2.
  rewrite H1, H2. change (Z.of_nat 8) with 8. rewrite Z.shiftr_0_l, Z.lxor_0_r. unfold r. rewrite Z.shiftr_shiftl_l, Z.shiftl_0_r by lia.
  do 2 f_equal. apply list_fmap_ext. intros i y (-> & Hi)%lookup_seqZ. rewrite Z.bits_0. apply Z.shiftl_spec_low. lia.
Qed.

Lemma crc32_byte_ok crc b : is_byte b → crc32_byte crc b = Ret (foldl shift_in crc (byte_bits b)).
Proof.
  intros Hb. unfold crc32_byte. assert (0 ≤ Z.land (Z.lxor crc b) 0xFF < 256) as Hr.
  { change 0xFF with (Z.ones 8). rewrite Z.land_ones by lia. apply Z.mod_pos_bound. lia. }
  rewrite table_entry by done. rewrite bind_Ret. f_equal. unfold byte_bits. pose proof (iter_crc_bit 8 crc b) as H1.
  change (Z.of_nat 8) with 8 in H1. rewrite (byte_shiftr b Hb), Z.lxor_0_r in H1. rewrite <- H1, (split_low_byte (Z.lxor crc b)), Z.shiftr_lxor, (byte_shiftr b Hb), Z.lxor_0_r.
  apply Z.lxor_comm.
Qed.

Lemma register_cons crc b data : register crc (b :: data) = register (foldl shift_in crc (byte_bits b)) data.
Proof. unfold register, message_bits. cbn [mbind list_bind]. by rewrite foldl_app. Qed.

Lemma register_app crc d1 d2 : register crc (d1 ++ d2) = register (register crc d1) d2.
Proof. unfold register, message_bits. by rewrite bind_app, foldl_app. Qed.

Lemma crc32_update_ok crc data : Forall is_byte data → crc32_update crc data = Ret (register crc data).
Proof.
  intros Hd. revert crc. induction Hd as [|b data Hb Hd IH]; intros crc; cbn [crc32_update]; [done|].
  rewrite crc32_byte_ok by done. rewrite bind_Ret, register_cons. apply IH.
Qed.

(** ** Ranges *)

Lemma lxor_uint w a b : 0 ≤ w → is_uint w a → is_uint w b → is_uint w (Z.lxor a b).
Proof.
  intros Hw [Ha0 Ha] [Hb0 Hb]. assert (0 ≤ Z.lxor a b) as H0 by (by apply Z.lxor_nonneg). split; [done|].
  destruct (decide (Z.lxor a b = 0)) as [->|Hnz]; [by apply Z.pow_pos_nonneg|].
  destruct (decide (a = 0)) as [->|]; [by rewrite Z.lxor_0_l|]. destruct (decide (b = 0)) as [->|]; [by rewrite Z.lxor_0_r|].
  apply Z.log2_lt_pow2; [lia|]. pose proof (Z.log2_lxor a b Ha0 Hb0). apply Z.log2_lt_pow2 in Ha; [|lia]. apply Z.log2_lt_pow2 in Hb; [|lia]. lia.
Qed.

Lemma shift_in_uint crc b : is_uint 32 crc → is_uint 32 (shift_in crc b).
Proof.
  intros [H0 H1]. assert (is_uint 32 (Z.div2 crc)) as Hd.
  { rewrite Z.div2_div. pose proof (Z.div_mod crc 2 ltac:(lia)). pose proof (Z.mod_pos_bound crc 2 ltac:(lia)). unfold is_uint. lia. }
  unfold shift_in. destruct (xorb _ _); [|done]. apply lxor_uint; [lia|done|]. unfold is_uint, CRC_POLY. lia.
Qed.

Lemma shift_all_uint crc bs : is_uint 32 crc → is_uint 32 (foldl shift_in crc bs).
Proof. revert crc. induction bs as [|b bs IH]; intros crc Hc; cbn [foldl]; [done|]. by apply IH, shift_in_uint. Qed.

(** ** Errors that the checksum detects *)

(** The highest bit of the result tells whether the polynomial was added. *)
Lemma shift_in_inj c1 c2 b : is_uint 32 c1 → is_uint 32 c2 → shift_in c1 b = shift_in c2 b → c1 = c2.
Proof.
  intros H1 H2 E. assert (∀ c, is_uint 32 c → Z.testbit (shift_in c b) 31 = xorb (Z.odd c) b) as Hb.
  { intros c [Hc0 Hc1]. assert (Z.testbit (Z.div2 c) 31 = false) as Hz.
    { rewrite Z.div2_spec, Z.shiftr_spec by lia. destruct (decide (c = 0)) as [->|]; [done|]. apply Z.bits_above_log2; [done|]. apply Z.log2_lt_pow2; lia. }
    unfold shift_in. destruct (xorb _ _); [rewrite Z.lxor_spec, Hz|exact Hz]. done. }
  assert (xorb (Z.odd c1) b = xorb (Z.odd c2) b) as Ho by (rewrite <- !Hb by done; by rewrite E).
  assert (Z.div2 c1 = Z.div2 c2) as Hd.
  { unfold shift_in in E. rewrite Ho in E. destruct (xorb _ _); [|done].
    apply (f_equal (λ z, Z.lxor z CRC_POLY)) in E. by rewrite !Z.lxor_assoc, Z.lxor_nilpotent, !Z.lxor_0_r in E. }
  assert (Z.odd c1 = Z.odd c2) as Ho'. { by destruct (Z.odd c1), (Z.odd c2), b. }
  rewrite (Z.div2_odd c1), (Z.div2_odd c2). by rewrite Hd, Ho'.
Qed.

Lemma shift_all_inj c1 c2 bs :
  is_uint 32 c1 → is_uint 32 c2 → foldl shift_in c1 bs = foldl shift_in c2 bs → c1 = c2.
Proof.
  revert c1 c2. induction bs as [|b bs IH]; intros c1 c2 H1 H2 E; cbn [foldl] in E; [done|].
  apply (shift_in_inj c1 c2 b H1 H2). apply IH; [by apply shift_in_uint..|done].
Qed.

(** The number with the given bits. *)
Definition bits_value (bs : list bool) : Z := foldr (λ b v, Z.b2z b + 2 * v) 0 bs.

Lemma bits_value_range bs : 0 ≤ bits_value bs < 2 ^ len bs.
Proof.
  induction bs as [|b bs IH]; [cbn; unfold len; simpl; lia|]. rewrite len_cons, Z.pow_add_r by (unfold len; lia). cbn [bits_value foldr].
  fold (bits_value bs). destruct b; cbn [Z.b2z]; lia.
Qed.

Lemma bits_value_bits bs : Z.testbit (bits_value bs) <$> seqZ 0 (len bs) = bs.
Proof.
  induction bs as [|b bs IH]; [done|]. rewrite len_cons, seqZ_cons by (unfold len; lia). cbn [fmap list_fmap]. f_equal.
  - cbn [bits_value foldr]. rewrite Z.bit0_odd, Z.odd_add_mul_2. by destruct b.
  - etrans; [|exact IH]. replace (Z.pred (1 + len bs)) with (len bs) by lia. rewrite <- (fmap_add_seqZ 1 0), <- list_fmap_compose.
    apply list_fmap_ext. intros i y (-> & Hi)%lookup_seqZ. cbn [compose bits_value foldr]. fold (bits_value bs).
    rewrite (Z.add_comm (Z.b2z b)), Z.add_1_l. by rewrite Z.testbit_succ_r by lia.
Qed.

Lemma burst_iter crc m : foldl shift_in crc m = Nat.iter (length m) crc_bit (Z.lxor crc (bits_value m)).
Proof.
  rewrite iter_crc_bit. change (Z.of_nat (length m)) with (len m). pose proof (bits_value_range m).
  rewrite bits_value_bits, Z.shiftr_div_pow2, Z.div_small, Z.lxor_0_r by (unfold len in *; lia). done.
Qed.

Lemma iter_crc_bit_inj n c1 c2 :
  is_uint 32 c1 → is_uint 32 c2 → Nat.iter n crc_bit c1 = Nat.iter n crc_bit c2 → c1 = c2.
Proof.
  assert (∀ c, Nat.iter n crc_bit c = foldl shift_in c (replicate n false)) as Hn.
  { induction n as [|n IH]; intros c; [done|]. rewrite Nat.iter_succ_r, IH. cbn [replicate foldl]. f_equal.
    rewrite crc_bit_odd. unfold shift_in. by rewrite xorb_false_r. }
  rewrite !Hn. apply shift_all_inj.
Qed.

(** At most 32 bits are determined by the register before and after them. *)
Lemma burst_inj crc m1 m2 :
  is_uint 32 crc → len m1 ≤ 32 → len m2 = len m1 → foldl shift_in crc m1 = foldl shift_in crc m2 → m1 = m2.
Proof.
  intros Hc Hl Hl2 E. rewrite !burst_iter in E. assert (length m2 = length m1) as Hl3 by (unfold len in Hl2; lia). rewrite Hl3 in E.
  assert (∀ m, len m ≤ 32 → is_uint 32 (Z.lxor crc (bits_value m))) as Hu.
  { intros m Hm. apply lxor_uint; [lia|done|]. pose proof (bits_value_range m). pose proof (Z.pow_le_mono_r 2 (len m) 32). unfold is_uint. lia. }
  apply iter_crc_bit_inj in E; [|apply Hu; lia|apply Hu; unfold len in *; lia].
  apply (f_equal (Z.lxor crc)) in E. rewrite <- !Z.lxor_assoc, Z.lxor_nilpotent, !Z.lxor_0_l in E.
  rewrite <- (bits_value_bits m1), <- (bits_value_bits m2). by rewrite E, Hl2.
Qed.





(** Two messages that differ only within 32 bits in a row have different
    checksums. *)
Lemma crc32_detects_bursts d1 d2 pre m1 m2 post :
  message_bits d1 = pre ++ m1 ++ post → message_bits d2 = pre ++ m2 ++ post →
  len m1 ≤ 32 → len m2 = len m1 → m1 ≠ m2 → crc32 d1 ≠ crc32 d2.
Proof.
  intros E1 E2 Hl Hl2 Hne E. apply Hne. unfold crc32, register in E.
  apply (f_equal (λ z, Z.lxor z 0xFFFFFFFF)) in E. rewrite !Z.lxor_assoc, Z.lxor_nilpotent, !Z.lxor_0_r in E.
  rewrite E1, E2, !foldl_app in E. assert (is_uint 32 0xFFFFFFFF) as H0 by (unfold is_uint; lia).
  apply shift_all_inj in E; [|by do 2 apply shift_all_uint..]. revert E. apply burst_inj; [by apply shift_all_uint|done|done].
Qed.

(** ** The utility *)

Section cksum.
Context `{BuildProfile}.

Lemma cksum_loop_ok chunks crc total :
  Forall (λ c, c ≠ []) chunks → Forall is_byte (mjoin chunks) → 0 ≤ total → total + len (mjoin chunks) < 2 ^ 64 →
  cksum_loop chunks crc total = Ret (register crc (mjoin chunks), total + len (mjoin chunks)).
Proof.
  intros Hne. revert crc total. induction Hne as [|c chunks Hc Hne IH]; intros crc total Hb Ht Hl; cbn [cksum_loop].
  { by rewrite Z.add_0_r. }
  change (mjoin (c :: chunks)) with (c ++ mjoin chunks) in *. apply list.Forall_app in Hb as [Hb1 Hb2]. rewrite len_app in *. assert (0 < len c) by (unfold len; destruct c; simpl; [done|lia]).
  assert (0 ≤ len (mjoin chunks)) by (unfold len; lia).
  rewrite (proj2 (Z.eqb_neq (len c) 0)) by lia. rewrite crc32_update_ok by done. rewrite bind_Ret, add64_ok by (unfold is_uint; lia).
  rewrite bind_Ret, IH by (done || lia). rewrite register_app. do 2 f_equal. lia.
Qed.

(** C18: [cksum] prints the CRC-32 of the file, as the bit-serial shift register
    computes it, and the number of its bytes, whatever pieces [read] returns the
    file in. *)
Theorem cksum_correct path chunks :
  Forall (λ c, c ≠ []) chunks → Forall is_byte (mjoin chunks) → len (mjoin chunks) < 2 ^ 64 →
  ∃ c n, cksum path chunks = Ret (c ++ [SPACE] ++ n ++ [SPACE] ++ path ++ [NEWLINE]) ∧
    numeral c (crc32 (mjoin chunks)) ∧ numeral n (len (mjoin chunks)).
Proof.
  intros Hne Hb Hl. unfold cksum. rewrite cksum_loop_ok by (done || lia). rewrite bind_Ret.
  destruct (print_u32_ok (crc32 (mjoin chunks))) as (c & Hc & Hcn).
  { unfold crc32, register. apply lxor_uint; [lia|apply shift_all_uint|]; unfold is_uint; lia. }
  destruct (print_number_ok (0 + len (mjoin chunks))) as (n & Hn & Hnn); [unfold is_uint, len in *; lia|].
  exists c, n. unfold crc32 in Hc. rewrite Hc, bind_Ret, Hn, bind_Ret. by split_and!.
Qed.

End cksum.

Section instances.
#[local] Existing Instance dev_profile.

(** The check value of CRC-32, for the nine digits in two pieces. *)
Lemma cksum_correct_witness :
  crc32 (str "123456789") = 0xCBF43926 ∧
  ∃ c n, cksum (str "f") [str "1234"; str "56789"] = Ret (c ++ [SPACE] ++ n ++ [SPACE] ++ str "f" ++ [NEWLINE]) ∧
    numeral c (crc32 (mjoin [str "1234"; str "56789"])) ∧ numeral n (len (mjoin [str "1234"; str "56789"])).
Proof.
  split; [vm_compute; reflexivity|]. apply (cksum_correct (str "f") [str "1234"; str "56789"]).
  - by repeat constructor.
  - vm_compute. repeat constructor; intros; discriminate.
  - vm_compute. reflexivity.
Defined.

End instances.
