(* ===== verification/SortProofs.v ===== *)
(** * sort sorts

    Insertion sort over the array of lines ends, keeps the lines and puts them in
    the order of strings. *)

From stdpp Require Import strings sorting.
From S2P Require Import Prelude Loop RustStr Coreutils.
Local Open Scope Z_scope.

(** ** The order of strings *)

Definition bytes_le (a b : list Z) : Prop := bytes_lt b a = false.

Lemma bytes_compare_refl a : bytes_compare a a = Eq.
Proof. induction a as [|x a IH]; [done|]. cbn. by rewrite Z.compare_refl. Qed.

Lemma bytes_compare_antisym a b : bytes_compare b a = CompOpp (bytes_compare a b).
Proof.
  revert b. induction a as [|x a IH]; intros [|y b]; [done..|]. cbn. rewrite (Z.compare_antisym x y).
  destruct (Z.compare_spec x y); cbn; [apply IH|done|done].
Qed.

Lemma bytes_lt_trans a b c : bytes_lt a b = true → bytes_lt b c = true → bytes_lt a c = true.
Proof.
  unfold bytes_lt. revert b c. induction a as [|x a IH]; intros [|y b] [|z c]; cbn; try done.
  destruct (Z.compare_spec x y), (Z.compare_spec y z); cbn; try done; intros H1 H2; subst.
  - rewrite Z.compare_refl. by eapply IH.
  - by rewrite (proj2 (Z.compare_lt_iff y z)).
  - by rewrite (proj2 (Z.compare_lt_iff x z)).
  - by rewrite (proj2 (Z.compare_lt_iff x z)) by lia.
Qed.

Lemma bytes_lt_le a b : bytes_lt a b = true → bytes_le a b.
Proof. unfold bytes_le, bytes_lt. rewrite (bytes_compare_antisym a b). by destruct (bytes_compare a b). Qed.

Lemma bytes_compare_eq a b : bytes_compare a b = Eq → a = b.
Proof.
  revert b. induction a as [|x a IH]; intros [|y b]; cbn; try done. destruct (Z.compare_spec x y); [|done..]. intros ?%IH. by subst.
Qed.

Lemma bytes_le_cases a b : bytes_le a b → a = b ∨ bytes_lt a b = true.
Proof.
  unfold bytes_le, bytes_lt. rewrite (bytes_compare_antisym a b). destruct (bytes_compare a b) eqn:E; [left; by apply bytes_compare_eq|by right|done].
Qed.

#[export] Instance bytes_le_trans : Transitive bytes_le.
Proof.
  intros a b c [->|Hab]%bytes_le_cases [->|Hbc]%bytes_le_cases; [|by apply bytes_lt_le..|apply bytes_lt_le; by eapply bytes_lt_trans].
  unfold bytes_le, bytes_lt. by rewrite bytes_compare_refl.
Qed.

(** ** Insertion *)

(** The lines before [j], a free place, the shifted lines and the rest. *)
Record shifting (key : list Z) (done_ rest lines : list (list Z)) (j : Z) (before_ after : list (list Z)) : Prop := {
  sh_lines : ∃ x, lines = before_ ++ x :: after ++ rest;
  sh_done : done_ = before_ ++ after;
  sh_j : len before_ = j;
  sh_after : Forall (λ l, bytes_lt key l = true) after;
}.

Lemma shift_loop key done_ rest lines i :
  (∃ x, lines = done_ ++ x :: rest) → len done_ = i → i < 2 ^ 64 →
  ∃ r, while_do (shift_turn key) (lines, i) = Ret r ∧
    ∃ before_ after, shifting key done_ rest r.1 r.2 before_ after ∧ (∀ b l, before_ = b ++ [l] → bytes_le l key).
Proof.
  intros Hlines Hi Hi64.
  apply (while_spec _ (λ s, ∃ before_ after, shifting key done_ rest s.1 s.2 before_ after) (λ s, s.2)); [|exists done_, []|cbn; lia].
  2: { destruct Hlines as [x ->]. split; cbn [fst snd]; [by exists x|by rewrite app_nil_r|done|constructor]. }
  intros [ls j] (before_ & after & [[x Hx] Hd Hj Ha]). cbn [fst snd] in *. subst ls. unfold shift_turn. destruct (Z.ltb_spec 0 j) as [Hpos|Hz].
  - destruct before_ as [|l b' _] using rev_ind; [unfold len in Hj; simpl in Hj; lia|]. rewrite len_app in Hj. change (len [l]) with 1 in Hj.
    rewrite (index_lookup _ _ l) by (try lia; unfold len in Hj; replace (Z.to_nat (j - 1)) with (length b') by lia; rewrite <- (assoc_L app); by apply list_lookup_middle).
    rewrite bind_Ret. destruct (bytes_lt key l) eqn:E.
    + rewrite store_ok, bind_Ret by (rewrite !len_app, !len_cons; unfold len in *; lia). eexists. split; [reflexivity|]. cbn [fst snd].
      split; [|unfold len in Hj; lia]. exists b', (l :: after). split; [exists l|by rewrite Hd, <- (assoc_L app)|lia|by constructor].
      rewrite insert_app_r_alt by (rewrite length_app; unfold len in Hj; simpl; lia). replace (Z.to_nat j - length (b' ++ [l]))%nat with 0%nat by (rewrite length_app; unfold len in Hj; simpl; lia).
      cbn. by rewrite <- (assoc_L app).
    + eexists. split; [reflexivity|]. exists (b' ++ [l]), after. split; [split; [by exists x|done|rewrite len_app; done|done]|].
      by intros b l' [_ [= ->]]%app_inj_tail_iff.
  - eexists. split; [reflexivity|]. exists before_, after. split; [split; [by exists x|done|done|done]|].
    assert (before_ = []) as -> by (apply length_zero_iff_nil; unfold len in Hj; lia). intros [|??] ?; done.
Qed.

Lemma sorted_insert before_ key after :
  StronglySorted bytes_le (before_ ++ after) → (∀ b l, before_ = b ++ [l] → bytes_le l key) → Forall (λ l, bytes_lt key l = true) after →
  StronglySorted bytes_le (before_ ++ key :: after).
Proof.
  intros Hs Hl Ha. apply StronglySorted_app in Hs as (Hcross & Hb & Haft). rewrite list.Forall_forall in Ha.
  assert (∀ l, l ∈ before_ → bytes_le l key) as Hbk.
  { destruct before_ as [|x b _] using rev_ind; [by intros l ?%elem_of_nil|]. specialize (Hl b x eq_refl).
    intros l [Hin|Hin]%elem_of_app; [|by apply list_elem_of_singleton in Hin as ->].
    etrans; [|exact Hl]. apply StronglySorted_app in Hb as (Hbx & _ & _). by apply Hbx, list_elem_of_singleton. }
  apply StronglySorted_app_2; [|done|].
  - intros x y Hx [->|Hy]%elem_of_cons; [by apply Hbk|by apply Hcross].
  - constructor; [done|]. apply list.Forall_forall. intros y Hy. by apply bytes_lt_le, Ha.
Qed.

(** The first [i] lines are sorted; the loop inserts the others one by one. *)
Lemma insertion_ok todo lines done_ rest :
  lines = done_ ++ rest → todo = seqZ (len done_) (len rest) → len lines < 2 ^ 64 → StronglySorted bytes_le done_ →
  ∃ out, insertion_sort todo lines = Ret out ∧ out ≡ₚ lines ∧ StronglySorted bytes_le out.
Proof.
  revert todo lines done_. induction rest as [|key rest IH]; intros todo lines done_ -> -> Hl Hs.
  { exists done_. change (seqZ (len done_) (len [])) with (@nil Z). rewrite app_nil_r. done. }
  rewrite len_app, len_cons in Hl. assert (0 ≤ len rest ∧ 0 ≤ len done_) as [Hr0 Hd0] by (unfold len; lia).
  rewrite len_cons, seqZ_cons by lia. cbn [insertion_sort].
  rewrite (index_lookup _ _ key) by (try lia; unfold len; rewrite Nat2Z.id; by apply list_lookup_middle). rewrite bind_Ret.
  destruct (shift_loop key done_ rest (done_ ++ key :: rest) (len done_)) as ([ls j] & -> & b & a & [[x Hx] Hd Hj Ha] & Hlast); [by eexists|done|lia|].
  cbn [fst snd] in *. rewrite bind_Ret. subst ls. unfold len in Hj.
  rewrite store_ok, bind_Ret by (rewrite len_app, len_cons; unfold len; lia). rewrite insert_app_r_alt by lia.
  replace (Z.to_nat j - length b)%nat with 0%nat by lia. cbn [insert list_insert].
  destruct (IH (seqZ (Z.succ (len done_)) (Z.pred (1 + len rest))) ((b ++ key :: a) ++ rest) (b ++ key :: a)) as (out & Hout & Hp & Hso).
  - done.
  - f_equal; [|lia]. rewrite Hd, !len_app, len_cons. lia.
  - rewrite Hd in Hl. rewrite !len_app, len_cons in *. lia.
  - apply sorted_insert; [by rewrite <- Hd|done|done].
  - exists out. rewrite <- (assoc_L app) in Hout. split; [exact Hout|]. split; [|done]. rewrite Hp, Hd. solve_Permutation.
Qed.

(** [sort] ends and prints the lines it keeps, each as often as it occurs, in
    the order of strings. *)
Theorem sort_correct data :
  ∃ out, sort data = Ret out ∧ out ≡ₚ sort_lines data ∧ StronglySorted bytes_le out.
Proof.
  unfold sort. assert (len (sort_lines data) ≤ 256) as Hl by (unfold sort_lines, len; rewrite length_take; unfold SORT_LINES; lia).
  destruct (sort_lines data) as [|l ls]; [exists []; split_and!; [done|done|constructor]|].
  apply (insertion_ok _ _ [l] ls); [done| |lia|repeat constructor]. change (len [l]) with 1. rewrite len_cons. f_equal. lia.
Qed.
