(* ===== verification/TsortProofs.v ===== *)
(** * tsort sorts topologically

    Kahn's algorithm over the arrays of [tsort] ends for every graph; its queue
    holds every node after the nodes that precede it, and misses a node exactly
    when the graph has a cycle. The names inherit this through
    [find_or_add_node]. *)

From stdpp Require Import strings sets relations.
From S2P Require Import Prelude Loop RustStr Coreutils.
Local Open Scope Z_scope.

(** [a] has an earlier position than every occurrence of [b]. *)
Definition before {A} (l : list A) (a b : A) : Prop :=
  ∀ j, l !! j = Some b → ∃ i, (i < j)%nat ∧ l !! i = Some a.

Lemma tc_flip {A} (R : relation A) x y : tc (flip R) x y → tc R y x.
Proof. induction 1 as [x y Hxy|x y z Hxy _ IH]; [by apply tc_once|]. by eapply tc_r. Qed.

(** ** The degrees *)

Definition degree (in_degree : list Z) (v : Z) : Z := nth (Z.to_nat v) in_degree 0.

(** The number of edges to [v] whose source satisfies [P]. *)
Definition edges_to (P : Z → Prop) `{∀ a, Decision (P a)} (edges : list (Z * Z)) (v : Z) : Z :=
  len (filter (λ e, P e.1 ∧ e.2 = v) edges).

Lemma edges_to_cons P `{∀ a, Decision (P a)} a b edges v :
  edges_to P ((a, b) :: edges) v = (if decide (P a ∧ b = v) then 1 else 0) + edges_to P edges v.
Proof. unfold edges_to. rewrite filter_cons. cbn [fst snd]. destruct (decide _); [apply len_cons|lia]. Qed.

Lemma edges_to_nonneg P `{∀ a, Decision (P a)} edges v : 0 ≤ edges_to P edges v.
Proof. unfold edges_to, len. lia. Qed.

Lemma edges_to_zero P `{∀ a, Decision (P a)} edges v : edges_to P edges v = 0 → ∀ a, (a, v) ∈ edges → ¬ P a.
Proof.
  intros H0 a Ha HP. assert ((a, v) ∈ filter (λ e, P e.1 ∧ e.2 = v) edges) as Hin by (by apply list_elem_of_filter).
  unfold edges_to, len in H0. destruct (filter _ edges); [by apply elem_of_nil in Hin|]. simpl in H0. lia.
Qed.

Lemma edges_to_pos P `{∀ a, Decision (P a)} edges v : edges_to P edges v ≠ 0 → ∃ a, (a, v) ∈ edges ∧ P a.
Proof.
  intros H0. unfold edges_to in H0. destruct (filter _ edges) as [|[a b] l] eqn:E; [done|].
  assert ((a, b) ∈ filter (λ e, P e.1 ∧ e.2 = v) edges) as Hin by (rewrite E; by left). apply list_elem_of_filter in Hin as [[HP Hv] Hin].
  cbn in HP, Hv. subst b. by exists a.
Qed.

Lemma degree_store in_degree v x w :
  0 ≤ v < len in_degree → 0 ≤ w → degree (<[Z.to_nat v := x]> in_degree) w = if decide (w = v) then x else degree in_degree w.
Proof.
  unfold degree, len. intros Hv Hw. rewrite !nth_lookup. destruct (decide (w = v)) as [->|Hne].
  - by rewrite list_lookup_insert_eq by lia.
  - by rewrite list_lookup_insert_ne by lia.
Qed.

Lemma index_degree in_degree v : 0 ≤ v < len in_degree → index in_degree v = Ret (degree in_degree v).
Proof.
  intros Hv. unfold len in Hv. apply index_lookup; [lia|]. unfold degree. rewrite nth_lookup.
  destruct (lookup_lt_is_Some_2 in_degree (Z.to_nat v)) as [x Hx]; [lia|]. by rewrite Hx.
Qed.

(** ** The graph *)

Section graph.
Context (node_count : Z) (edges : list (Z * Z)).

Definition is_node (v : Z) : Prop := 0 ≤ v < node_count.
Definition edges_ok (es : list (Z * Z)) : Prop := Forall (λ e, is_node e.1 ∧ is_node e.2) es.

Hypothesis Hcount : node_count ≤ MAX_NODES.
Hypothesis Hedges : edges_ok edges.

Lemma count_degrees_ok es in_degree :
  edges_ok es → len in_degree = MAX_NODES →
  ∃ in_degree', count_degrees es in_degree = Ret in_degree' ∧ len in_degree' = MAX_NODES ∧
    ∀ v, is_node v → degree in_degree' v = degree in_degree v + edges_to (λ _, True) es v.
Proof.
  intros Hes. revert in_degree. induction Hes as [|[a b] es [Ha Hb] Hes IH]; intros dg Hl; cbn [count_degrees].
  { exists dg. split_and!; [done|done|]. intros v Hv. unfold edges_to, len. simpl. lia. }
  cbn [fst snd] in *. unfold is_node, MAX_NODES in *. rewrite index_degree, bind_Ret, store_ok, bind_Ret by lia.
  destruct (IH (<[Z.to_nat b := degree dg b + 1]> dg)) as (dg' & -> & Hl' & Hd); [unfold len in *; by rewrite length_insert|].
  exists dg'. split_and!; [done|done|]. intros v Hv. rewrite Hd, degree_store, edges_to_cons by lia.
  destruct (decide (v = b)), (decide (True ∧ b = v)); naive_solver lia.
Qed.

(** The queue holds the nodes without edges left. *)
Record ready (in_degree queue : list Z) : Prop := {
  rd_len : len in_degree = MAX_NODES;
  rd_nodup : NoDup queue;
  rd_nodes : Forall is_node queue;
  rd_zero : ∀ v, is_node v → v ∈ queue ↔ degree in_degree v = 0;
}.

Lemma queue_len queue : NoDup queue → Forall is_node queue → len queue ≤ Z.max 0 node_count.
Proof.
  intros Hn Hf. assert (length queue ≤ length (seqZ 0 node_count))%nat as Hl.
  { apply submseteq_length, NoDup_submseteq; [done|]. intros x Hx. apply elem_of_seqZ. rewrite list.Forall_forall in Hf.
    specialize (Hf x Hx). unfold is_node in Hf. lia. }
  rewrite length_seqZ in Hl. unfold len. lia.
Qed.

(** A node outside the queue leaves room in it. *)
Lemma queue_room queue v : NoDup queue → Forall is_node queue → is_node v → (v ∉ queue) → len queue < MAX_NODES.
Proof.
  intros Hn Hf Hv Hnot. assert (len (v :: queue) ≤ Z.max 0 node_count) as Hl by (apply queue_len; by constructor).
  rewrite len_cons in Hl. unfold is_node in Hv. lia.
Qed.

(** One edge to [b] less. *)
Lemma ready_push in_degree queue b :
  ready in_degree queue → is_node b → 0 < degree in_degree b →
  ready (<[Z.to_nat b := degree in_degree b - 1]> in_degree)
    (if (degree in_degree b - 1 =? 0) && (len queue <? MAX_NODES) then queue ++ [b] else queue).
Proof.
  intros [Hl Hn Hf Hz] Hb Hpos. assert (b ∉ queue) as Hnot by (intros Hin; apply (Hz b Hb) in Hin; lia).
  assert (0 ≤ b < len in_degree) as Hbl by (unfold is_node in Hb; lia).
  rewrite (proj2 (Z.ltb_lt _ _) (queue_room queue b Hn Hf Hb Hnot)), andb_true_r.
  assert (∀ v, is_node v → degree (<[Z.to_nat b:=degree in_degree b - 1]> in_degree) v = if decide (v = b) then degree in_degree b - 1 else degree in_degree v) as Hdg.
  { intros v Hv. apply degree_store; [done|]. unfold is_node in Hv. lia. }
  destruct (Z.eqb_spec (degree in_degree b - 1) 0) as [H1|H1]; split; try (unfold len; by rewrite length_insert).
  - apply list.NoDup_app. split_and!; [done| |apply NoDup_singleton]. by intros x Hx ->%list_elem_of_singleton.
  - apply list.Forall_app. by split; [|constructor].
  - intros v Hv. rewrite Hdg, elem_of_app, list_elem_of_singleton, (Hz v Hv) by done. destruct (decide (v = b)); naive_solver.
  - done.
  - done.
  - intros v Hv. rewrite Hdg, (Hz v Hv) by done. destruct (decide (v = b)) as [->|]; [|done]. lia.
Qed.

Lemma queue_full in_degree queue v : ready in_degree queue → node_count ≤ len queue → is_node v → v ∈ queue.
Proof.
  intros [_ Hn Hf _] Hge Hv. apply dec_stable. intros Hnot.
  assert (len (v :: queue) ≤ Z.max 0 node_count) as Hl by (apply queue_len; by constructor). rewrite len_cons in Hl. unfold is_node in Hv. lia.
Qed.

Lemma remove_edges_ok es node in_degree queue :
  edges_ok es → ready in_degree queue → (∀ v, is_node v → edges_to (λ a, a = node) es v ≤ degree in_degree v) →
  ∃ in_degree' new, remove_edges es node in_degree queue = Ret (in_degree', queue ++ new) ∧ ready in_degree' (queue ++ new) ∧
    ∀ v, is_node v → degree in_degree' v = degree in_degree v - edges_to (λ a, a = node) es v.
Proof.
  intros Hes. revert in_degree queue. induction Hes as [|[a b] es [Ha Hb] Hes IH]; intros dg queue Hr Hle; cbn [remove_edges].
  { exists dg, []. rewrite app_nil_r. split_and!; [done|done|]. intros v Hv. unfold edges_to, len. simpl. lia. }
  cbn [fst snd] in *. destruct (Z.eqb_spec a node) as [->|Hne].
  2: { destruct (IH dg queue Hr) as (dg' & new & -> & Hr' & Hd').
       { intros v Hv. specialize (Hle v Hv). rewrite edges_to_cons in Hle. by rewrite decide_False in Hle by naive_solver. }
       exists dg', new. split_and!; [done|done|]. intros v Hv. rewrite edges_to_cons, decide_False by naive_solver. by apply Hd'. }
  pose proof (rd_len _ _ Hr) as Hl. pose proof (Hle b Hb) as Hbpos. rewrite edges_to_cons, decide_True in Hbpos by done.
  pose proof (edges_to_nonneg (λ a, a = node) es b) as Hnn. assert (0 ≤ b < len dg) as Hbl by (unfold is_node in Hb; lia).
  rewrite index_degree, bind_Ret by done. rewrite (proj2 (Z.ltb_lt 0 (degree dg b))) by lia. rewrite store_ok, bind_Ret by done.
  assert (∀ v, is_node v → degree (<[Z.to_nat b := degree dg b - 1]> dg) v = degree dg v - (if decide (node = node ∧ b = v) then 1 else 0)) as Hdg.
  { intros v Hv. rewrite degree_store by (unfold is_node in Hv; done || lia). destruct (decide (v = b)), (decide (node = node ∧ b = v)); naive_solver lia. }
  destruct (IH _ _ (ready_push dg queue b Hr Hb ltac:(lia))) as (dg' & new & -> & Hr' & Hd').
  { intros v Hv. rewrite Hdg by done. specialize (Hle v Hv). rewrite edges_to_cons in Hle. lia. }
  destruct ((degree dg b - 1 =? 0) && (len queue <? MAX_NODES)).
  - exists dg', ([b] ++ new). rewrite (assoc_L app). split_and!; [done|done|]. intros v Hv. rewrite Hd', Hdg, edges_to_cons by done. lia.
  - exists dg', new. split_and!; [done|done|]. intros v Hv. rewrite Hd', Hdg, edges_to_cons by done. lia.
Qed.

(** ** The loop *)

(** The first [head] nodes of the queue are done: their edges are removed. *)
Record progress (s : list Z * list Z * Z) : Prop := {
  pg_ready : ready s.1.1 s.1.2;
  pg_head : 0 ≤ s.2 ≤ len s.1.2;
  pg_degree : ∀ v, is_node v → degree s.1.1 v = edges_to (λ a, a ∉ take (Z.to_nat s.2) s.1.2) edges v;
  pg_order : ∀ a b, (a, b) ∈ edges → before s.1.2 a b;
}.

(** Removing a node splits the edges that are left. *)
Lemma edges_to_split (done_ : list Z) node es v :
  (node ∉ done_) → edges_to (λ a, a ∉ done_ ++ [node]) es v = edges_to (λ a, a ∉ done_) es v - edges_to (λ a, a = node) es v.
Proof.
  intros Hn. induction es as [|[a b] es IH]; [done|]. rewrite !edges_to_cons, IH.
  destruct (decide (a = node)) as [->|].
  - rewrite (decide_False (P := (node ∉ done_ ++ [node]) ∧ _)) by set_solver. destruct (decide (b = v)).
    + rewrite !decide_True by done. lia.
    + rewrite !decide_False by naive_solver. lia.
  - rewrite (decide_False (P := a = node ∧ _)) by naive_solver. destruct (decide ((a ∉ done_) ∧ b = v)).
    + rewrite decide_True by set_solver. lia.
    + rewrite decide_False by set_solver. lia.
Qed.

Lemma before_app {A} (l l' : list A) a b : before l a b → (b ∈ l' → a ∈ l) → before (l ++ l') a b.
Proof.
  intros H1 H2 j Hj. apply lookup_app_Some in Hj as [Hj|[Hlen Hj]].
  - destruct (H1 j Hj) as (i & Hi & Ha). exists i. split; [done|]. by apply lookup_app_l_Some.
  - destruct (list_elem_of_lookup_1 _ _ (H2 (list_elem_of_lookup_2 _ _ _ Hj))) as [i Hi]. exists i.
    split; [apply lookup_lt_Some in Hi; lia|by apply lookup_app_l_Some].
Qed.

Lemma kahn_turn_ok s :
  progress s → ∃ r, kahn_turn edges s = Ret r ∧
    match r with
    | inl s' => progress s' ∧ 0 ≤ node_count - s'.2 < node_count - s.2
    | inr queue => progress (s.1.1, queue, len queue)
    end.
Proof.
  destruct s as [[dg queue] head]. intros [Hr Hh Hd Ho]. cbn [fst snd] in *. unfold kahn_turn. destruct (Z.ltb_spec head (len queue)) as [Hlt|Hge].
  2: { eexists. split; [reflexivity|]. cbn [fst snd]. assert (head = len queue) as -> by lia. by split. }
  destruct (lookup_lt_is_Some_2 queue (Z.to_nat head)) as [node Hnode]; [unfold len in Hlt; lia|].
  rewrite (index_lookup _ _ node), bind_Ret by (done || lia). pose proof (take_S_r _ _ _ Hnode) as Htk.
  assert (node ∉ take (Z.to_nat head) queue) as Hnot.
  { pose proof (rd_nodup _ _ Hr) as Hnd. rewrite <- (take_drop (S (Z.to_nat head)) queue), Htk in Hnd.
    apply list.NoDup_app in Hnd as (Hnd & _ & _). apply list.NoDup_app in Hnd as (_ & Hnd & _). intros Hin. apply (Hnd node Hin). by left. }
  assert (∀ v, edges_to (λ a, a ∉ take (S (Z.to_nat head)) queue) edges v = edges_to (λ a, a ∉ take (Z.to_nat head) queue) edges v - edges_to (λ a, a = node) edges v) as Hsp.
  { intros v. rewrite <- (edges_to_split _ node edges v Hnot). by rewrite <- Htk. }
  destruct (remove_edges_ok edges node dg queue Hedges Hr) as (dg' & new & -> & Hr' & Hd').
  { intros v Hv. rewrite (Hd v Hv). pose proof (edges_to_nonneg (λ a, a ∉ take (S (Z.to_nat head)) queue) edges v). rewrite Hsp in *. lia. }
  rewrite bind_Ret. eexists. split; [reflexivity|]. cbn [snd].
  pose proof (queue_len queue (rd_nodup _ _ Hr) (rd_nodes _ _ Hr)). assert (Z.to_nat (head + 1) = S (Z.to_nat head)) as Hs by lia.
  assert (take (Z.to_nat (head + 1)) (queue ++ new) = take (S (Z.to_nat head)) queue) as Ht by (rewrite Hs; apply take_app_le; unfold len in *; lia).
  assert (∀ v, is_node v → degree dg' v = edges_to (λ a, a ∉ take (S (Z.to_nat head)) queue) edges v) as Hd2 by (intros v Hv; rewrite Hd', Hd, Hsp; done).
  split; [|lia]. split; cbn [fst snd]; [done|rewrite len_app; unfold len in *; lia|by rewrite Ht|].
  intros a b Hab. apply before_app; [by apply Ho|]. intros Hb. assert (is_node b) as Hbn.
  { unfold edges_ok in Hedges. rewrite list.Forall_forall in Hedges. by apply (Hedges (a, b)). }
  assert (edges_to (λ a, a ∉ take (S (Z.to_nat head)) queue) edges b = 0) as H0.
  { rewrite <- Hd2 by done. apply (rd_zero _ _ Hr'); [done|]. apply elem_of_app. by right. }
  pose proof (edges_to_zero _ _ _ H0 a Hab) as Ha. apply dec_stable in Ha. by eapply elem_of_take in Ha as (? & ?%list_elem_of_lookup_2 & _).
Qed.

Lemma kahn_ok :
  ∃ queue, kahn node_count edges = Ret queue ∧ ∃ in_degree, progress (in_degree, queue, len queue).
Proof.
  unfold kahn. destruct (count_degrees_ok edges (replicate (Z.to_nat MAX_NODES) 0) Hedges) as (dg & -> & Hl & Hd); [done|]. rewrite bind_Ret.
  apply (while_spec _ progress (λ s, node_count - s.2)).
  - intros s Hs. destruct (kahn_turn_ok s Hs) as ([s'|q] & -> & H); [by exists (inl s')|]. exists (inr q). split; [done|]. by exists s.1.1.
  - set (queue := filter _ _). assert (∀ v, is_node v → degree dg v = edges_to (λ _, True) edges v) as Hd0.
    { intros v Hv. rewrite Hd by done. unfold degree. rewrite nth_lookup. destruct (replicate _ 0 !! _) as [x|] eqn:E; [|done]. by apply lookup_replicate in E as [-> _]. }
    split; cbn [fst snd]; [split| | |].
    + done.
    + apply list.NoDup_filter, NoDup_seqZ.
    + apply list.Forall_forall. intros v [_ Hv%elem_of_seqZ]%list_elem_of_filter. unfold is_node. lia.
    + intros v Hv. unfold queue. rewrite list_elem_of_filter, elem_of_seqZ. unfold is_node, degree in *. intuition lia.
    + unfold len. lia.
    + intros v Hv. rewrite Hd0 by done. unfold edges_to. f_equal. apply list_filter_iff. intros [a b]. cbn. rewrite take_0. set_solver.
    + intros a b Hab j Hj. exfalso. apply list_elem_of_lookup_2 in Hj. apply list_elem_of_filter in Hj as [H0 Hb%elem_of_seqZ].
      assert (is_node b) as Hbn by (unfold is_node; lia). specialize (Hd0 b Hbn). unfold degree in Hd0. rewrite H0 in Hd0. symmetry in Hd0.
      by apply (edges_to_zero _ _ _ Hd0 a Hab).
  - cbn [snd]. unfold MAX_NODES in Hcount. lia.
Qed.

(** ** Cycles *)

Definition edge (a b : Z) : Prop := (a, b) ∈ edges.

Lemma order_tc queue a b : (∀ a b, edge a b → before queue a b) → tc edge a b → before queue a b.
Proof.
  intros Ho. induction 1 as [a b Hab|a b c Hab Hbc IH]; [by apply Ho|]. intros j Hj.
  destruct (IH j Hj) as (i & Hi & Hb). destruct (Ho a b Hab i Hb) as (k & Hk & Ha). exists k. split; [lia|done].
Qed.

Lemma tc_edge_node a b : tc edge a b → is_node a.
Proof.
  assert (∀ x y, edge x y → is_node x) as H.
  { intros x y Hxy. unfold edges_ok in Hedges. rewrite list.Forall_forall in Hedges. by apply (Hedges (x, y)). }
  by destruct 1 as [a b Hab|a b c Hab Hbc]; eapply H.
Qed.

(** Without a cycle every node is in the queue. *)
Lemma acyclic_complete in_degree queue :
  progress (in_degree, queue, len queue) → (∀ x, ¬ tc edge x x) → ∀ v, is_node v → v ∈ queue.
Proof.
  intros [Hr _ Hd _] Hac v Hv. cbn [fst snd] in *. assert (sn (flip edge) v) as Hsn.
  { apply tc_finite_sn.
    - intros x Hx. apply (Hac x). by apply tc_flip in Hx.
    - exists (seqZ 0 node_count). intros y Hy%tc_flip%tc_edge_node. apply elem_of_seqZ. unfold is_node in Hy. lia. }
  induction Hsn as [v _ IH]. apply dec_stable. intros Hnot. rewrite (rd_zero _ _ Hr v Hv), (Hd v Hv) in Hnot.
  apply edges_to_pos in Hnot as (a & Hav & Ha). apply Ha. unfold len. rewrite Nat2Z.id, firstn_all. apply IH; [done|].
  by apply (tc_edge_node a v), tc_once.
Qed.

Definition acyclic : Prop := ∀ x, ¬ tc edge x x.

Lemma kahn_cycle in_degree queue :
  progress (in_degree, queue, len queue) → 0 ≤ node_count → len queue < node_count ↔ ¬ acyclic.
Proof.
  intros Hp Hc. pose proof (pg_ready _ Hp) as Hr. cbn [fst snd] in Hr. split.
  - intros Hlt Hac. assert (length (seqZ 0 node_count) ≤ length queue)%nat as Hl.
    { apply submseteq_length, NoDup_submseteq; [apply NoDup_seqZ|]. intros v Hv%elem_of_seqZ.
      apply (acyclic_complete _ _ Hp Hac). unfold is_node. lia. }
    rewrite length_seqZ in Hl. unfold len in Hlt. lia.
  - intros Hcyc. apply Z.nle_gt. intros Hge. apply Hcyc. intros x Hx.
    assert (x ∈ queue) as [i Hi]%list_elem_of_lookup_1 by (eapply queue_full; [exact Hr|lia|by eapply tc_edge_node]).
    assert (before queue x x) as Hb by (apply order_tc; [apply (pg_order _ Hp)|done]).
    destruct (Hb i Hi) as (j & Hj & Hx'). pose proof (NoDup_lookup _ _ _ _ (rd_nodup _ _ Hr) Hi Hx'). lia.
Qed.

End graph.

(** ** The names *)

Fixpoint pairs (tokens : list (list Z)) : list (list Z * list Z) :=
  match tokens with a :: b :: tokens => (a, b) :: pairs tokens | _ => [] end.

Lemma pairs_elem tokens a b : (a, b) ∈ pairs tokens → a ∈ tokens ∧ b ∈ tokens.
Proof.
  induction tokens as [tokens IH] using (induction_ltof1 _ length). destruct tokens as [|x [|y tokens]]; cbn [pairs]; [by intros ?%elem_of_nil..|].
  intros [[= -> ->]|Hin]%elem_of_cons; [split; set_solver|]. destruct (IH tokens) as [Ha Hb]; [unfold ltof; simpl; lia|done|]. set_solver.
Qed.

Lemma pairs_len tokens : 2 * len (pairs tokens) ≤ len tokens.
Proof.
  induction tokens as [tokens IH] using (induction_ltof1 _ length). destruct tokens as [|x [|y tokens]]; cbn [pairs]; [unfold len; simpl; lia..|].
  rewrite !len_cons. specialize (IH tokens). unfold ltof in IH. simpl in IH. lia.
Qed.

Lemma tokenize_loop_len fuel data tokens : len tokens ≤ MAX_EDGES → len (tokenize_loop fuel data tokens) ≤ MAX_EDGES.
Proof.
  revert data tokens. induction fuel as [|fuel IH]; intros data tokens Hl; cbn [tokenize_loop]; [done|].
  destruct (Z.ltb_spec (len tokens) MAX_EDGES) as [Hlt|]; [|by rewrite andb_false_r]. destruct (negb _); cbn [andb]; [|done].
  destruct (span is_blank data) as [? data1]. destruct (len data1 =? 0); [done|]. destruct (span _ data1) as [token data2]. apply IH.
  destruct (utf8_valid token); [|done]. rewrite len_app. unfold len at 2. simpl. lia.
Qed.

(** The node number [i] stands for the name. *)
Definition named (names : list (list Z)) (i : Z) (name : list Z) : Prop := 0 ≤ i ∧ names !! Z.to_nat i = Some name.

Definition named_edge (names : list (list Z)) (e : Z * Z) (p : list Z * list Z) : Prop := named names e.1 p.1 ∧ named names e.2 p.2.

Lemma named_app names new i name : named names i name → named (names ++ new) i name.
Proof. intros [H0 H1]. split; [done|]. by apply lookup_app_l_Some. Qed.

Lemma named_fun names i n1 n2 : named names i n1 → named names i n2 → n1 = n2.
Proof. intros [_ H1] [_ H2]. congruence. Qed.

Lemma named_inj names i j name : NoDup names → named names i name → named names j name → i = j.
Proof. intros Hn [Hi H1] [Hj H2]. pose proof (NoDup_lookup _ _ _ _ Hn H1 H2). lia. Qed.

Lemma find_or_add_node_ok (universe names : list (list Z)) name :
  NoDup names → names ⊆ universe → name ∈ universe → len universe ≤ MAX_NODES →
  ∃ i new, find_or_add_node names name = (i, names ++ new) ∧ NoDup (names ++ new) ∧ names ++ new ⊆ universe ∧
    named (names ++ new) i name ∧ (∀ x, x ∈ new → x = name).
Proof.
  intros Hn Hsub Hin Hu. unfold find_or_add_node. destruct (list_find (λ x, x = name) names) as [[i x]|] eqn:E.
  - apply list_find_Some in E as (Hi & -> & _). exists (Z.of_nat i), []. rewrite app_nil_r. split_and!; [done..| |by intros x ?%elem_of_nil].
    split; [lia|]. by rewrite Nat2Z.id.
  - apply list_find_None in E. rewrite list.Forall_forall in E. assert (name ∉ names) as Hnot by (intros H; by apply (E name)).
    assert (len names < MAX_NODES) as Hlt.
    { assert (length (name :: names) ≤ length universe)%nat as Hl by (apply submseteq_length, NoDup_submseteq; [by constructor|set_solver]).
      simpl in Hl. unfold len in *. lia. }
    rewrite (proj2 (Z.ltb_lt _ _) Hlt). exists (len names), [name]. split_and!; [done| |set_solver| |by intros x ->%list_elem_of_singleton].
    + apply list.NoDup_app. split_and!; [done| |apply NoDup_singleton]. by intros x Hx ->%list_elem_of_singleton.
    + split; [unfold len; lia|]. unfold len. rewrite Nat2Z.id. by rewrite lookup_app_r, Nat.sub_diag by lia.
Qed.

Lemma read_edges_ok universe tokens names edges :
  NoDup names → names ⊆ universe → tokens ⊆ universe → len universe ≤ MAX_NODES → len edges + len (pairs tokens) ≤ MAX_EDGES →
  ∃ new es, read_edges tokens names edges = (names ++ new, edges ++ es) ∧ NoDup (names ++ new) ∧ names ++ new ⊆ universe ∧
    Forall2 (named_edge (names ++ new)) es (pairs tokens) ∧ (∀ x, x ∈ new → ∃ p, p ∈ pairs tokens ∧ (x = p.1 ∨ x = p.2)).
Proof.
  revert names edges. induction tokens as [tokens IH] using (induction_ltof1 _ length). intros names edges Hn Hs Ht Hu Hl.
  destruct tokens as [|a [|b tokens]].
  1, 2: exists [], []; cbn [read_edges pairs]; rewrite !app_nil_r; split_and!; [done..|constructor|by intros x ?%elem_of_nil].
  cbn [read_edges pairs] in *. rewrite len_cons in Hl. assert (0 ≤ len (pairs tokens)) by (unfold len; lia).
  destruct (find_or_add_node_ok universe names a) as (i & n1 & -> & Hn1 & Hs1 & Hi & Hx1); [set_solver..|done|].
  destruct (find_or_add_node_ok universe (names ++ n1) b) as (j & n2 & -> & Hn2 & Hs2 & Hj & Hx2); [set_solver..|done|].
  rewrite (proj2 (Z.ltb_lt (len edges) MAX_EDGES)) by lia.
  destruct (IH tokens ltac:(unfold ltof; simpl; lia) ((names ++ n1) ++ n2) (edges ++ [(i, j)])) as (n3 & es & -> & Hn3 & Hs3 & Hes & Hx3); [done|done|set_solver|done| |].
  { rewrite len_app. unfold len at 2. simpl. lia. }
  exists (n1 ++ n2 ++ n3), ((i, j) :: es). rewrite <- !(assoc_L app) in *. split_and!; [done..| |].
  - constructor; [|done]. split; cbn [fst snd]; [|rewrite !(assoc_L app) in *; by apply named_app].
    rewrite (assoc_L app). by apply named_app.
  - intros x. rewrite !elem_of_app. intros [Hx|[Hx|Hx]].
    + apply Hx1 in Hx as ->. exists (a, b). split; [by left|by left].
    + apply Hx2 in Hx as ->. exists (a, b). split; [by left|by right].
    + destruct (Hx3 x Hx) as (p & Hp & Hxp). exists p. split; [by right|done].
Qed.

(** ** The utility *)

Lemma outcome_map_Forall2 {A B} (f : A → outcome B) (R : A → B → Prop) l :
  (∀ a, a ∈ l → ∃ b, f a = Ret b ∧ R a b) → ∃ bs, outcome_map f l = Ret bs ∧ Forall2 R l bs.
Proof.
  induction l as [|a l IH]; intros Hf; cbn [outcome_map]; [by exists []|]. destruct (Hf a) as (b & -> & Hb); [by left|].
  destruct IH as (bs & -> & Hbs); [intros; apply Hf; by right|]. exists (b :: bs). by split; [|constructor].
Qed.

Section names.
Context (names : list (list Z)) (es : list (Z * Z)) (ps : list (list Z * list Z)).
Hypothesis Hnames : NoDup names.
Hypothesis Hes : Forall2 (named_edge names) es ps.

Definition precedes (a b : list Z) : Prop := (a, b) ∈ ps.

Lemma edge_precedes i j : edge es i j → ∃ a b, named names i a ∧ named names j b ∧ precedes a b.
Proof.
  intros [k Hk]%list_elem_of_lookup_1. destruct (Forall2_lookup_l _ _ _ _ _ Hes Hk) as ([a b] & Hp & Ha & Hb). exists a, b.
  split_and!; [done..|by eapply list_elem_of_lookup_2].
Qed.

Lemma precedes_edge a b : precedes a b → ∃ i j, named names i a ∧ named names j b ∧ edge es i j.
Proof.
  intros [k Hk]%list_elem_of_lookup_1. destruct (Forall2_lookup_r _ _ _ _ _ Hes Hk) as ([i j] & Hp & Ha & Hb). exists i, j.
  split_and!; [done..|by eapply list_elem_of_lookup_2].
Qed.

Lemma tc_edge_precedes i j : tc (edge es) i j → ∃ a b, named names i a ∧ named names j b ∧ tc precedes a b.
Proof.
  induction 1 as [i j Hij|i j k Hij _ (b & c & Hb & Hc & IH)].
  - destruct (edge_precedes i j Hij) as (a & b & Ha & Hb & Hab). exists a, b. split_and!; [done..|by apply tc_once].
  - destruct (edge_precedes i j Hij) as (a & b' & Ha & Hb' & Hab). rewrite (named_fun _ _ _ _ Hb' Hb) in Hab.
    exists a, c. split_and!; [done..|by eapply tc_l].
Qed.

Lemma tc_precedes_edge a b : tc precedes a b → ∃ i j, named names i a ∧ named names j b ∧ tc (edge es) i j.
Proof.
  induction 1 as [a b Hab|a b c Hab _ (j & k & Hj & Hk & IH)].
  - destruct (precedes_edge a b Hab) as (i & j & Hi & Hj & Hij). exists i, j. split_and!; [done..|by apply tc_once].
  - destruct (precedes_edge a b Hab) as (i & j' & Hi & Hj' & Hij). rewrite (named_inj _ _ _ _ Hnames Hj' Hj) in Hij.
    exists i, k. split_and!; [done..|by eapply tc_l].
Qed.

Lemma acyclic_names : acyclic es ↔ ∀ x, ¬ tc precedes x x.
Proof.
  split.
  - intros Hac x (i & j & Hi & Hj & Hij)%tc_precedes_edge. rewrite (named_inj _ _ _ _ Hnames Hi Hj) in Hij. by apply (Hac j).
  - intros Hac i (a & b & Ha & Hb & Hab)%tc_edge_precedes. rewrite (named_fun _ _ _ _ Ha Hb) in Hab. by apply (Hac b).
Qed.

Lemma edges_ok_names : edges_ok (len names) es.
Proof.
  apply list.Forall_forall. intros [i j] Hin. destruct (edge_precedes i j Hin) as (a & b & [Hi Ha%lookup_lt_Some] & [Hj Hb%lookup_lt_Some] & _).
  unfold is_node, len. cbn. lia.
Qed.

Lemma named_printed order lines i a : Forall2 (named names) order lines → i ∈ order → named names i a → a ∈ lines.
Proof.
  intros Hl [k Hk]%list_elem_of_lookup_1 Ha. destruct (Forall2_lookup_l _ _ _ _ _ Hl Hk) as (a' & Hk' & Ha').
  rewrite (named_fun _ _ _ _ Ha Ha'). by eapply list_elem_of_lookup_2.
Qed.

(** The order of the nodes is the order of the lines. *)
Lemma before_names order lines a b :
  Forall2 (named names) order lines → (∀ i j, edge es i j → before order i j) → precedes a b → before lines a b.
Proof.
  intros Hl Ho Hab n Hn. destruct (Forall2_lookup_r _ _ _ _ _ Hl Hn) as (j & Hj & Hjb).
  destruct (precedes_edge a b Hab) as (i & j' & Hi & Hj' & Hij). rewrite (named_inj _ _ _ _ Hnames Hj' Hjb) in Hij.
  destruct (Ho i j Hij n Hj) as (m & Hm & Hmi). destruct (Forall2_lookup_l _ _ _ _ _ Hl Hmi) as (a' & Ha' & Hia').
  exists m. split; [done|]. by rewrite (named_fun _ _ _ _ Hi Hia').
Qed.

End names.

Lemma named_lines_nodup names order lines :
  NoDup order → Forall2 (named names) order lines → NoDup names → NoDup lines.
Proof.
  intros Ho Hl Hn. apply NoDup_alt. intros m n x Hm Hn'. destruct (Forall2_lookup_r _ _ _ _ _ Hl Hm) as (i & Hi & Hix).
  destruct (Forall2_lookup_r _ _ _ _ _ Hl Hn') as (j & Hj & Hjx). rewrite (named_inj _ _ _ _ Hn Hix Hjx) in Hi. by apply (NoDup_lookup order m n j).
Qed.

(** C17: Given at most 256 different names, [tsort] ends; it prints no name twice,
    and a name only after the names that precede it in some pair of the input; it
    reports a cycle exactly when the pairs have one, and otherwise prints every
    name of a pair. *)
Theorem tsort_correct data :
  let ps := pairs (tokenize data) in
  len (remove_dups (tokenize data)) ≤ MAX_NODES →
  ∃ lines cycle, tsort data = Ret (lines, cycle) ∧ NoDup lines ∧
    (∀ a b, precedes ps a b → before lines a b) ∧
    (cycle = true ↔ ¬ ∀ x, ¬ tc (precedes ps) x x) ∧
    (cycle = false → ∀ a b, precedes ps a b → a ∈ lines ∧ b ∈ lines) ∧
    (∀ x, x ∈ lines → ∃ p, p ∈ ps ∧ (x = p.1 ∨ x = p.2)).
Proof.
  intros ps Hu. unfold tsort. assert (len (tokenize data) ≤ MAX_EDGES) as Hlen by (by apply tokenize_loop_len).
  destruct (read_edges_ok (remove_dups (tokenize data)) (tokenize data) [] []) as (names & es & -> & Hn & Hs & Hes & Hx);
    [constructor|set_solver|intros x; apply elem_of_remove_dups|done|pose proof (pairs_len (tokenize data)); unfold len in *; simpl; lia|].
  rewrite !app_nil_l in *. assert (len names ≤ MAX_NODES) as Hc.
  { etrans; [|exact Hu]. unfold len. apply inj_le, submseteq_length, NoDup_submseteq; done. }
  destruct (kahn_ok (len names) es Hc (edges_ok_names _ _ _ Hes)) as (order & -> & dg & Hp). rewrite bind_Ret.
  pose proof (pg_ready _ _ _ Hp) as Hr. cbn [fst snd] in Hr.
  destruct (outcome_map_Forall2 (index names) (named names) order) as (lines & -> & Hl).
  { intros i Hi. pose proof (rd_nodes _ _ _ Hr) as Hf. rewrite list.Forall_forall in Hf. specialize (Hf i Hi). unfold is_node, len in Hf.
    destruct (lookup_lt_is_Some_2 names (Z.to_nat i)) as [x Hix]; [lia|]. exists x. split; [by apply index_lookup; [lia|]|]. by split; [lia|]. }
  rewrite bind_Ret. exists lines, (len order <? len names). split_and!; [done|by eapply named_lines_nodup; [apply (rd_nodup _ _ _ Hr)|..]| | | |].
  - intros a b. apply (before_names names es ps Hn Hes order); [done|]. apply (pg_order _ _ _ Hp).
  - rewrite Z.ltb_lt, <- (acyclic_names names es ps Hn Hes). apply (kahn_cycle (len names) es (edges_ok_names _ _ _ Hes) dg order Hp). unfold len. lia.
  - intros Hge%Z.ltb_ge a b Hab. destruct (precedes_edge names es ps Hes a b Hab) as (i & j & Hi & Hj & Hij).
    pose proof (edges_ok_names names es ps Hes) as He. unfold edges_ok in He. rewrite list.Forall_forall in He. destruct (He (i, j) Hij) as [Hin Hjn].
    split; (eapply named_printed; [exact Hl| |done]); by eapply queue_full.
  - intros x [k Hk]%list_elem_of_lookup_1. destruct (Forall2_lookup_r _ _ _ _ _ Hl Hk) as (i & _ & _ & Hi%list_elem_of_lookup_2). by apply Hx.
Qed.

Lemma tsort_correct_witness :
  let data := str "socks shoes shirt tie tie jacket trousers shoes" in
  let ps := pairs (tokenize data) in
  len (remove_dups (tokenize data)) = 6 ∧
  ∃ lines cycle, tsort data = Ret (lines, cycle) ∧ NoDup lines ∧
    (∀ a b, precedes ps a b → before lines a b) ∧
    (cycle = true ↔ ¬ ∀ x, ¬ tc (precedes ps) x x) ∧
    (cycle = false → ∀ a b, precedes ps a b → a ∈ lines ∧ b ∈ lines) ∧
    (∀ x, x ∈ lines → ∃ p, p ∈ ps ∧ (x = p.1 ∨ x = p.2)).
Proof.
  intros data ps. split; [vm_compute; reflexivity|]. apply (tsort_correct data). vm_compute. discriminate.
Defined.

(** The order for the witness's input, and a cycle. *)
Example tsort_clothes :
  tsort (str "socks shoes shirt tie tie jacket trousers shoes") =
    Ret ([str "socks"; str "shirt"; str "trousers"; str "tie"; str "shoes"; str "jacket"], false).
Proof. vm_compute. reflexivity. Qed.

Example tsort_cycle : tsort (str "a b b c c b") = Ret ([str "a"], true).
Proof. vm_compute. reflexivity. Qed.

(** A pair of equal names is reported as a cycle. *)
Example tsort_single : tsort (str "a a") = Ret ([], true).
Proof. vm_compute. reflexivity. Qed.
