(* ===== verification/Digest.v ===== *)
(** * Message digests (user/coreutils/src)

    The hash utilities [sha256sum], [sha1sum], [md5sum] and [b2sum]: the
    compression functions over arrays of machine words, and the contexts that
    collect the bytes of a file in a block and compress each full block. The
    contexts of the first three are the same code, here over the class [BlockHash]
    of what they call. *)

From stdpp Require Import strings.
From S2P Require Import Prelude Loop RustStr Coreutils.
Local Open Scope Z_scope.

(** ** Words *)

Definition rotate_right (w x n : Z) : Z := Z.lor (Z.shiftr x n) (wrap w (Z.shiftl x (w - n))).
Definition rotate_left (w x n : Z) : Z := Z.lor (wrap w (Z.shiftl x n)) (Z.shiftr x (w - n)).

Definition add_words (w : Z) (l : list Z) : Z := foldl (λ a x, wrap w (a + x)) 0 l.

(** [to_be_bytes] and [to_le_bytes] of [n] bytes. *)
Definition to_le_bytes (n : nat) (x : Z) : list Z := (λ i, Z.land (Z.shiftr x (8 * Z.of_nat i)) 0xFF) <$> seq 0 n.
Definition to_be_bytes (n : nat) (x : Z) : list Z := reverse (to_le_bytes n x).

Definition from_le_bytes (l : list Z) : Z := foldr (λ b a, b + 256 * a) 0 l.
Definition from_be_bytes (l : list Z) : Z := from_le_bytes (reverse l).

(** [n] bytes of the buffer from [i * n] on. *)
Definition bytes_at (n : nat) (buf : list Z) (i : Z) : outcome (list Z) :=
  outcome_map (λ j, index buf (i * Z.of_nat n + j)) (seqZ 0 (Z.of_nat n)).

(** [state[i] = state[i].wrapping_add(x_i)] for each word. *)
Definition add_state (state xs : list Z) : list Z := zip_with (λ s x, wrap 32 (s + x)) state xs.

(** ** SHA-256 *)

Definition sha256_K : list Z := Eval cbv in mjoin
  [[0x428a2f98; 0x71374491; 0xb5c0fbcf; 0xe9b5dba5; 0x3956c25b; 0x59f111f1; 0x923f82a4; 0xab1c5ed5];
   [0xd807aa98; 0x12835b01; 0x243185be; 0x550c7dc3; 0x72be5d74; 0x80deb1fe; 0x9bdc06a7; 0xc19bf174];
   [0xe49b69c1; 0xefbe4786; 0x0fc19dc6; 0x240ca1cc; 0x2de92c6f; 0x4a7484aa; 0x5cb0a9dc; 0x76f988da];
   [0x983e5152; 0xa831c66d; 0xb00327c8; 0xbf597fc7; 0xc6e00bf3; 0xd5a79147; 0x06ca6351; 0x14292967];
   [0x27b70a85; 0x2e1b2138; 0x4d2c6dfc; 0x53380d13; 0x650a7354; 0x766a0abb; 0x81c2c92e; 0x92722c85];
   [0xa2bfe8a1; 0xa81a664b; 0xc24b8b70; 0xc76c51a3; 0xd192e819; 0xd6990624; 0xf40e3585; 0x106aa070];
   [0x19a4c116; 0x1e376c08; 0x2748774c; 0x34b0bcb5; 0x391c0cb3; 0x4ed8aa4a; 0x5b9cca4f; 0x682e6ff3];
   [0x748f82ee; 0x78a5636f; 0x84c87814; 0x8cc70208; 0x90befffa; 0xa4506ceb; 0xbef9a3f7; 0xc67178f2]].

Definition sha256_H0 : list Z :=
  [0x6a09e667; 0xbb67ae85; 0x3c6ef372; 0xa54ff53a; 0x510e527f; 0x9b05688c; 0x1f83d9ab; 0x5be0cd19].

(** The sha256_words of the block, then the 48 sha256_words computed from them. *)
Definition sha256_load (buf : list Z) (i : Z) (w : list Z) : outcome (list Z) :=
  l ← bytes_at 4 buf i; store w i (from_be_bytes l).

Definition sha256_expand (i : Z) (w : list Z) : outcome (list Z) :=
  w15 ← index w (i - 15);
  w2 ← index w (i - 2);
  w16 ← index w (i - 16);
  w7 ← index w (i - 7);
  let s0 := Z.lxor (Z.lxor (rotate_right 32 w15 7) (rotate_right 32 w15 18)) (Z.shiftr w15 3) in
  let s1 := Z.lxor (Z.lxor (rotate_right 32 w2 17) (rotate_right 32 w2 19)) (Z.shiftr w2 10) in
  store w i (wrap 32 (wrap 32 (wrap 32 (w16 + s0) + w7) + s1)).

Definition sha256_words : Type := Z * Z * Z * Z * Z * Z * Z * Z.

Definition sha256_round (k w : Z) (s : sha256_words) : sha256_words :=
  let '(a, b, c, d, e, f, g, h) := s in
  let s1 := Z.lxor (Z.lxor (rotate_right 32 e 6) (rotate_right 32 e 11)) (rotate_right 32 e 25) in
  let ch := Z.lxor (Z.land e f) (Z.land (unot 32 e) g) in
  let temp1 := wrap 32 (wrap 32 (wrap 32 (wrap 32 (h + s1) + ch) + k) + w) in
  let s0 := Z.lxor (Z.lxor (rotate_right 32 a 2) (rotate_right 32 a 13)) (rotate_right 32 a 22) in
  let maj := Z.lxor (Z.lxor (Z.land a b) (Z.land a c)) (Z.land b c) in
  let temp2 := wrap 32 (s0 + maj) in
  (wrap 32 (temp1 + temp2), a, b, c, wrap 32 (d + temp1), e, f, g).

Definition sha256_compress (state buf : list Z) : outcome (list Z) :=
  w ← for_each (sha256_load buf) (seqZ 0 16) (replicate 64 0);
  w ← for_each sha256_expand (seqZ 16 48) w;
  match state with
  | [a; b; c; d; e; f; g; h] =>
      '(a, b, c, d, e, f, g, h) ← for_each (λ i s, k ← index sha256_K i; x ← index w i; Ret (sha256_round k x s)) (seqZ 0 64) (a, b, c, d, e, f, g, h);
      Ret (add_state state [a; b; c; d; e; f; g; h])
  | _ => Panic
  end.

(** ** SHA-1 *)

Definition sha1_H0 : list Z := [0x67452301; 0xEFCDAB89; 0x98BADCFE; 0x10325476; 0xC3D2E1F0].

Definition sha1_expand (i : Z) (w : list Z) : outcome (list Z) :=
  w3 ← index w (i - 3);
  w8 ← index w (i - 8);
  w14 ← index w (i - 14);
  w16 ← index w (i - 16);
  store w i (rotate_left 32 (Z.lxor (Z.lxor (Z.lxor w3 w8) w14) w16) 1).

Definition sha1_words : Type := Z * Z * Z * Z * Z.

Definition sha1_round (i w : Z) (s : sha1_words) : sha1_words :=
  let '(a, b, c, d, e) := s in
  let '(f, k) :=
    if i <=? 19 then (Z.lor (Z.land b c) (Z.land (unot 32 b) d), 0x5A827999)
    else if i <=? 39 then (Z.lxor (Z.lxor b c) d, 0x6ED9EBA1)
    else if i <=? 59 then (Z.lor (Z.lor (Z.land b c) (Z.land b d)) (Z.land c d), 0x8F1BBCDC)
    else (Z.lxor (Z.lxor b c) d, 0xCA62C1D6) in
  let temp := wrap 32 (wrap 32 (wrap 32 (wrap 32 (rotate_left 32 a 5 + f) + e) + k) + w) in
  (temp, a, rotate_left 32 b 30, c, d).

Definition sha1_compress (state buf : list Z) : outcome (list Z) :=
  w ← for_each (sha256_load buf) (seqZ 0 16) (replicate 80 0);
  w ← for_each sha1_expand (seqZ 16 64) w;
  match state with
  | [a; b; c; d; e] =>
      '(a, b, c, d, e) ← for_each (λ i s, x ← index w i; Ret (sha1_round i x s)) (seqZ 0 80) (a, b, c, d, e);
      Ret (add_state state [a; b; c; d; e])
  | _ => Panic
  end.

(** ** MD5 *)

Definition md5_S : list Z :=
  [7; 12; 17; 22; 7; 12; 17; 22; 7; 12; 17; 22; 7; 12; 17; 22; 5; 9; 14; 20; 5; 9; 14; 20; 5; 9;
   14; 20; 5; 9; 14; 20; 4; 11; 16; 23; 4; 11; 16; 23; 4; 11; 16; 23; 4; 11; 16; 23; 6; 10; 15;
   21; 6; 10; 15; 21; 6; 10; 15; 21; 6; 10; 15; 21].

Definition md5_T : list Z :=
  [0xd76aa478; 0xe8c7b756; 0x242070db; 0xc1bdceee; 0xf57c0faf; 0x4787c62a; 0xa8304613; 0xfd469501;
   0x698098d8; 0x8b44f7af; 0xffff5bb1; 0x895cd7be; 0x6b901122; 0xfd987193; 0xa679438e; 0x49b40821;
   0xf61e2562; 0xc040b340; 0x265e5a51; 0xe9b6c7aa; 0xd62f105d; 0x02441453; 0xd8a1e681; 0xe7d3fbc8;
   0x21e1cde6; 0xc33707d6; 0xf4d50d87; 0x455a14ed; 0xa9e3e905; 0xfcefa3f8; 0x676f02d9; 0x8d2a4c8a;
   0xfffa3942; 0x8771f681; 0x6d9d6122; 0xfde5380c; 0xa4beea44; 0x4bdecfa9; 0xf6bb4b60; 0xbebfbc70;
   0x289b7ec6; 0xeaa127fa; 0xd4ef3085; 0x04881d05; 0xd9d4d039; 0xe6db99e5; 0x1fa27cf8; 0xc4ac5665;
   0xf4292244; 0x432aff97; 0xab9423a7; 0xfc93a039; 0x655b59c3; 0x8f0ccc92; 0xffeff47d; 0x85845dd1;
   0x6fa87e4f; 0xfe2ce6e0; 0xa3014314; 0x4e0811a1; 0xf7537e82; 0xbd3af235; 0x2ad7d2bb; 0xeb86d391].

Definition md5_A0 : list Z := [0x67452301; 0xefcdab89; 0x98badcfe; 0x10325476].

Definition md5_load (buf : list Z) (i : Z) (m : list Z) : outcome (list Z) :=
  l ← bytes_at 4 buf i; store m i (from_le_bytes l).

Definition md5_words : Type := Z * Z * Z * Z.

(** The function and the index of the word for the md5_turn [i]. *)
Definition md5_select (i b c d : Z) : Z * Z :=
  if i <=? 15 then (Z.lor (Z.land b c) (Z.land (unot 32 b) d), i)
  else if i <=? 31 then (Z.lor (Z.land d b) (Z.land (unot 32 d) c), (5 * i + 1) mod 16)
  else if i <=? 47 then (Z.lxor (Z.lxor b c) d, (3 * i + 5) mod 16)
  else (Z.lxor c (Z.lor b (unot 32 d)), (7 * i) mod 16).

Definition md5_turn (m : list Z) (i : Z) (s : md5_words) : outcome md5_words :=
  let '(a, b, c, d) := s in
  let '(f, g) := md5_select i b c d in
  t ← index md5_T i;
  x ← index m g;
  r ← index md5_S i;
  Ret (d, wrap 32 (b + rotate_left 32 (wrap 32 (wrap 32 (wrap 32 (a + f) + t) + x)) r), b, c).

Definition md5_compress (state buf : list Z) : outcome (list Z) :=
  m ← for_each (md5_load buf) (seqZ 0 16) (replicate 16 0);
  match state with
  | [a; b; c; d] =>
      '(a, b, c, d) ← for_each (md5_turn m) (seqZ 0 64) (a, b, c, d);
      Ret (add_state state [a; b; c; d])
  | _ => Panic
  end.

(** ** The contexts *)

(** What [new], [update] and [finalize] use of a hash function. *)
Class BlockHash := {
  init_state : list Z;
  compress : list Z → list Z → outcome (list Z);
  length_bytes : Z → list Z;
  word_bytes : Z → list Z;
}.

Record Context_ := {
  state : list Z;
  buf : list Z;
  buf_len : Z;
  total_len : Z;
}.

Section context.
Context `{BlockHash} `{BuildProfile}.

Definition new : Context_ := {| state := init_state; buf := replicate 64 0; buf_len := 0; total_len := 0 |}.

Definition update_byte (byte : Z) (c : Context_) : outcome Context_ :=
  b ← store (buf c) (buf_len c) byte;
  n ← add64 (buf_len c) 1;
  total ← add64 (total_len c) 1;
  if n =? 64 then
    st ← compress (state c) b;
    Ret {| state := st; buf := b; buf_len := 0; total_len := total |}
  else Ret {| state := state c; buf := b; buf_len := n; total_len := total |}.

Definition update (data : list Z) (c : Context_) : outcome Context_ := for_each update_byte data c.

(** The loops that clear the buffer from [from] up to [upto]. *)
Definition clear_buf (b : list Z) (from upto : Z) : outcome (list Z) :=
  for_each (λ i b, store b i 0) (seqZ from (upto - from)) b.

Definition finalize (c : Context_) : outcome (list Z) :=
  bit_len ← mul64 (total_len c) 8;
  b ← store (buf c) (buf_len c) 0x80;
  n ← add64 (buf_len c) 1;
  '(st, b, n) ←
    (if 56 <? n then
       b ← clear_buf b n 64;
       st ← compress (state c) b;
       Ret (st, b, 0)
     else Ret (state c, b, n));
  b ← clear_buf b n 56;
  b ← copy_into b 56 64 (length_bytes bit_len);
  st ← compress st b;
  Ret (st ≫= word_bytes).

(** The loop of [_start] over the pieces that [read] returns. *)
Fixpoint digest_loop (chunks : list (list Z)) (c : Context_) : outcome Context_ :=
  match chunks with
  | [] => Ret c
  | chunk :: chunks => if len chunk =? 0 then Ret c else c ← update chunk c; digest_loop chunks c
  end.

End context.

Definition HEX : list Z := Eval vm_compute in str "0123456789abcdef".

Definition hex_pair (byte : Z) : outcome (list Z) :=
  hi ← index HEX (Z.shiftr byte 4);
  lo ← index HEX (Z.land byte 0x0F);
  Ret (stdout_utf8 [hi; lo]).

Definition print_hash (hash : list Z) : outcome (list Z) := ls ← outcome_map hex_pair hash; Ret (mjoin (M:=list) ls).

Definition sum_file `{BlockHash} `{BuildProfile} (path : list Z) (chunks : list (list Z)) : outcome (list Z) :=
  c ← digest_loop chunks new;
  hash ← finalize c;
  text ← print_hash hash;
  Ret (text ++ [SPACE; SPACE] ++ path ++ [NEWLINE]).

Definition sha256 : BlockHash :=
  {| init_state := sha256_H0; compress := sha256_compress; length_bytes := to_be_bytes 8; word_bytes := to_be_bytes 4 |}.
Definition sha1 : BlockHash :=
  {| init_state := sha1_H0; compress := sha1_compress; length_bytes := to_be_bytes 8; word_bytes := to_be_bytes 4 |}.
Definition md5 : BlockHash :=
  {| init_state := md5_A0; compress := md5_compress; length_bytes := to_le_bytes 8; word_bytes := to_le_bytes 4 |}.

Definition sha256sum `{BuildProfile} : list Z → list (list Z) → outcome (list Z) := @sum_file sha256 _.
Definition sha1sum `{BuildProfile} : list Z → list (list Z) → outcome (list Z) := @sum_file sha1 _.
Definition md5sum `{BuildProfile} : list Z → list (list Z) → outcome (list Z) := @sum_file md5 _.

(** ** BLAKE2b *)

Definition BLAKE2B_IV : list Z :=
  [0x6a09e667f3bcc908; 0xbb67ae8584caa73b; 0x3c6ef372fe94f82b; 0xa54ff53a5f1d36f1;
   0x510e527fade682d1; 0x9b05688c2b3e6c1f; 0x1f83d9abfb41bd6b; 0x5be0cd19137e2179].

Definition SIGMA : list (list Z) :=
  [[0; 1; 2; 3; 4; 5; 6; 7; 8; 9; 10; 11; 12; 13; 14; 15];
   [14; 10; 4; 8; 9; 15; 13; 6; 1; 12; 0; 2; 11; 7; 5; 3];
   [11; 8; 12; 0; 5; 2; 15; 13; 10; 14; 3; 6; 7; 1; 9; 4];
   [7; 9; 3; 1; 13; 12; 11; 14; 2; 6; 5; 10; 4; 0; 15; 8];
   [9; 0; 5; 7; 2; 4; 10; 15; 14; 1; 11; 12; 6; 8; 3; 13];
   [2; 12; 6; 10; 0; 11; 8; 3; 4; 13; 7; 5; 15; 14; 1; 9];
   [12; 5; 1; 15; 14; 13; 4; 10; 0; 7; 6; 3; 9; 2; 8; 11];
   [13; 11; 7; 14; 12; 1; 3; 9; 5; 0; 15; 4; 8; 6; 2; 10];
   [6; 15; 14; 9; 11; 3; 0; 8; 12; 2; 13; 7; 1; 4; 10; 5];
   [10; 2; 8; 4; 7; 6; 1; 5; 15; 11; 9; 14; 3; 12; 13; 0];
   [0; 1; 2; 3; 4; 5; 6; 7; 8; 9; 10; 11; 12; 13; 14; 15];
   [14; 10; 4; 8; 9; 15; 13; 6; 1; 12; 0; 2; 11; 7; 5; 3]].

Record Blake2b := {
  bl_h : list Z;
  bl_t0 : Z;
  bl_t1 : Z;
  bl_buf : list Z;
  bl_buf_len : Z;
  bl_out_len : Z;
}.

Definition blake_new (bl_out_len : Z) : outcome Blake2b :=
  h0 ← index BLAKE2B_IV 0;
  bl_h ← store BLAKE2B_IV 0 (Z.lxor h0 (Z.lxor 0x01010000 bl_out_len));
  Ret {| bl_h := bl_h; bl_t0 := 0; bl_t1 := 0; bl_buf := replicate 128 0; bl_buf_len := 0; bl_out_len := bl_out_len |}.

Definition increment_counter (n : Z) (s : Blake2b) : Blake2b :=
  let t := wrap 64 (bl_t0 s + n) in
  {| bl_h := bl_h s; bl_t0 := t; bl_t1 := if t <? n then wrap 64 (bl_t1 s + 1) else bl_t1 s;
     bl_buf := bl_buf s; bl_buf_len := bl_buf_len s; bl_out_len := bl_out_len s |}.

(** [v[i] = f(v[i], v[j])]. *)
Definition assign (v : list Z) (i j : Z) (f : Z → Z → Z) : outcome (list Z) :=
  x ← index v i; y ← index v j; store v i (f x y).

Definition mix_g (a b c d x y : Z) (v : list Z) : outcome (list Z) :=
  v ← assign v a b (λ p q, wrap 64 (wrap 64 (p + q) + x));
  v ← assign v d a (λ p q, rotate_right 64 (Z.lxor p q) 32);
  v ← assign v c d (λ p q, wrap 64 (p + q));
  v ← assign v b c (λ p q, rotate_right 64 (Z.lxor p q) 24);
  v ← assign v a b (λ p q, wrap 64 (wrap 64 (p + q) + y));
  v ← assign v d a (λ p q, rotate_right 64 (Z.lxor p q) 16);
  v ← assign v c d (λ p q, wrap 64 (p + q));
  assign v b c (λ p q, rotate_right 64 (Z.lxor p q) 63).

(** The four indices of the eight mixings of a round. *)
Definition MIXES : list (Z * Z * Z * Z) :=
  [(0, 4, 8, 12); (1, 5, 9, 13); (2, 6, 10, 14); (3, 7, 11, 15); (0, 5, 10, 15); (1, 6, 11, 12); (2, 7, 8, 13); (3, 4, 9, 14)].

Definition mix_round (m : list Z) (round : Z) (v : list Z) : outcome (list Z) :=
  s ← index SIGMA round;
  for_each (λ i v,
    '(a, b, c, d) ← index MIXES i;
    sx ← index s (2 * i); x ← index m sx;
    sy ← index s (2 * i + 1); y ← index m sy;
    mix_g a b c d x y v) (seqZ 0 8) v.

Definition blake_compress (s : Blake2b) (block : list Z) (f : bool) : outcome Blake2b :=
  m ← for_each (λ i m, l ← bytes_at 8 block i; store m i (from_le_bytes l)) (seqZ 0 16) (replicate 16 0);
  iv ← outcome_map (index BLAKE2B_IV) (seqZ 0 8);
  v ← copy_into (replicate 16 0) 0 8 (bl_h s);
  v ← copy_into v 8 16 iv;
  v ← assign v 12 12 (λ x _, Z.lxor x (bl_t0 s));
  v ← assign v 13 13 (λ x _, Z.lxor x (bl_t1 s));
  v ← assign v 14 14 (λ x _, if f then unot 64 x else x);
  v ← for_each (mix_round m) (seqZ 0 12) v;
  h' ← outcome_map (λ i, x ← index (bl_h s) i; a ← index v i; b ← index v (i + 8); Ret (Z.lxor x (Z.lxor a b))) (seqZ 0 8);
  Ret {| bl_h := h'; bl_t0 := bl_t0 s; bl_t1 := bl_t1 s; bl_buf := bl_buf s; bl_buf_len := bl_buf_len s; bl_out_len := bl_out_len s |}.

Definition blake_update_turn (data : list Z) (st : Z * Blake2b) : outcome (Z * Blake2b + Blake2b) :=
  let '(offset, s) := st in
  if offset <? len data then
    let remaining := 128 - bl_buf_len s in
    let to_copy := if len data - offset <? remaining then len data - offset else remaining in
    part ← slice data offset (offset + to_copy);
    b ← copy_into (bl_buf s) (bl_buf_len s) (bl_buf_len s + to_copy) part;
    let s := {| bl_h := bl_h s; bl_t0 := bl_t0 s; bl_t1 := bl_t1 s; bl_buf := b; bl_buf_len := bl_buf_len s + to_copy; bl_out_len := bl_out_len s |} in
    if bl_buf_len s =? 128 then
      s ← blake_compress (increment_counter 128 s) b false;
      Ret (inl (offset + to_copy, {| bl_h := bl_h s; bl_t0 := bl_t0 s; bl_t1 := bl_t1 s; bl_buf := b; bl_buf_len := 0; bl_out_len := bl_out_len s |}))
    else Ret (inl (offset + to_copy, s))
  else Ret (inr s).

Definition blake_update (data : list Z) (s : Blake2b) : outcome Blake2b := while_do (blake_update_turn data) (0, s).

Definition blake_finalize (s : Blake2b) : outcome (list Z) :=
  let s := increment_counter (bl_buf_len s) s in
  b ← for_each (λ i b, store b i 0) (seqZ (bl_buf_len s) (128 - bl_buf_len s)) (bl_buf s);
  s ← blake_compress s b true;
  hs ← outcome_map (index (bl_h s)) (seqZ 0 4);
  Ret (hs ≫= to_le_bytes 8).

Fixpoint blake_update_all (chunks : list (list Z)) (s : Blake2b) : outcome Blake2b :=
  match chunks with
  | [] => Ret s
  | chunk :: chunks => if len chunk =? 0 then Ret s else s ← blake_update chunk s; blake_update_all chunks s
  end.

Definition b2sum (path : list Z) (chunks : list (list Z)) : outcome (list Z) :=
  s ← blake_new 32;
  s ← blake_update_all chunks s;
  hash ← blake_finalize s;
  text ← print_hash hash;
  Ret (text ++ [SPACE; SPACE] ++ path ++ [NEWLINE]).

(** The digest of a message of one block, which RFC 7693 compresses as the last
    block. *)
Definition one_block (block : list Z) : outcome (list Z) :=
  s ← blake_new 32;
  s ← blake_compress (increment_counter 128 s) block true;
  hs ← outcome_map (index (bl_h s)) (seqZ 0 4);
  Ret (hs ≫= to_le_bytes 8).

(** The digest that RFC 7693's algorithm gives for three letters. *)
Example b2sum_abc :
  b2sum (str "f") [str "ab"; str "c"] = Ret (str "bddd813c634239723171ef3fee98579b94964e3bb1cb3e427262c8c068d52319  f" ++ [NEWLINE]).
Proof. vm_compute. reflexivity. Qed.

(** A full buffer is compressed at once as an inner block, and [blake_finalize] adds a
    block of zeros: a file of 128 bytes gets another digest. *)
Example b2sum_full_block :
  ∃ d t, one_block (replicate 128 0) = Ret d ∧ print_hash d = Ret t ∧
    b2sum (str "f") [replicate 128 0] ≠ Ret (t ++ [SPACE; SPACE] ++ str "f" ++ [NEWLINE]).
Proof. eexists _, _. split; [vm_compute; reflexivity|]. split; [vm_compute; reflexivity|]. vm_compute. discriminate. Qed.
