(* ===== verification/DigestProofs.v ===== *)
(** * The compression functions of the digests

    The block functions of SHA-256 and SHA-1 as FIPS 180-4 defines them, and of
    MD5 as RFC 1321 does; the compression functions over arrays compute them and
    do not panic. The constants of SHA-256 are the fractions of the roots of the
    first primes. *)

From stdpp Require Import strings.
From S2P Require Import Prelude Loop RustStr Coreutils Digest.
Local Open Scope Z_scope.

(** ** Arrays filled from the left *)

Lemma index_nth (l : list Z) i : 0 ≤ i < len l → index l i = Ret (nth (Z.to_nat i) l 0).
Proof.
  intros Hi. unfold len in Hi. apply index_lookup; [lia|]. rewrite nth_lookup.
  destruct (lookup_lt_is_Some_2 l (Z.to_nat i)) as [x ->]; [lia|done].
Qed.

Lemma store_mid (l s : list Z) x y i : i = len l → store (l ++ x :: s) i y = Ret (l ++ y :: s).
Proof.
  intros ->. rewrite store_ok by (rewrite len_app, len_cons; unfold len; lia). f_equal. unfold len. rewrite Nat2Z.id.
  rewrite insert_app_r_alt by lia. by rewrite Nat.sub_diag.
Qed.

(** The loop writes [next l] behind the part [l] that is filled. *)
Lemma fill_loop (body : Z → list Z → outcome (list Z)) (next : list Z → Z) l old rest :
  (∀ l' x zs, (length l ≤ length l' < length l + length old)%nat → body (len l') (l' ++ x :: zs) = Ret (l' ++ next l' :: zs)) →
  for_each body (seqZ (len l) (len old)) (l ++ old ++ rest) = Ret (Nat.iter (length old) (λ l, l ++ [next l]) l ++ rest).
Proof.
  revert l. induction old as [|x old IH]; intros l Hb; [done|]. rewrite len_cons, seqZ_cons by (unfold len; lia). cbn [for_each app].
  rewrite Hb by (simpl; lia). rewrite bind_Ret. cbn [length]. rewrite Nat.iter_succ_r. replace (Z.pred (1 + len old)) with (len old) by lia.
  rewrite cons_middle, (assoc_L app). replace (Z.succ (len l)) with (len (l ++ [next l])) by (rewrite len_app; unfold len at 2; simpl; lia).
  apply IH. intros l' y zs Hl'. rewrite length_app in Hl'. simpl in Hl'. apply Hb. simpl. lia.
Qed.

Lemma length_iter_snoc {A} (next : list A → A) n l : length (Nat.iter n (λ l, l ++ [next l]) l) = (length l + n)%nat.
Proof. induction n as [|n IH]; [cbn; lia|]. rewrite Nat.iter_succ, length_app, IH. simpl. lia. Qed.

Lemma bytes_at_ok n buf i :
  0 ≤ i → i * Z.of_nat n + Z.of_nat n ≤ len buf → bytes_at n buf i = Ret (take n (drop (Z.to_nat i * n) buf)).
Proof.
  intros Hi Hl. unfold bytes_at. assert (Z.of_nat (Z.to_nat i * n) = i * Z.of_nat n) as E by (rewrite Nat2Z.inj_mul; lia).
  set (o := (Z.to_nat i * n)%nat) in *. rewrite <- E in *. assert (∀ k a, a + Z.of_nat k ≤ Z.of_nat n → 0 ≤ a →
    outcome_map (λ j, index buf (Z.of_nat o + j)) (seqZ a (Z.of_nat k)) = Ret (take k (drop (o + Z.to_nat a) buf))) as H.
  { induction k as [|k IH]; intros a Ha Ha0; [done|]. rewrite seqZ_cons by lia. cbn [outcome_map].
    destruct (lookup_lt_is_Some_2 buf (o + Z.to_nat a)) as [x Hx]; [unfold len in Hl; lia|].
    rewrite (index_lookup _ _ x); [|lia|rewrite <- Hx; f_equal; lia]. rewrite bind_Ret.
    replace (Z.pred (Z.of_nat (S k))) with (Z.of_nat k) by lia. rewrite IH by lia. rewrite bind_Ret. f_equal.
    rewrite (drop_S _ _ _ Hx). cbn [take]. do 3 f_equal. lia. }
  rewrite H by lia. by rewrite Nat.add_0_r.
Qed.

(** The words of a block. *)
Definition block_words (from : list Z → Z) (block : list Z) : list Z :=
  (λ i, from (take 4 (drop (i * 4) block))) <$> seq 0 16.

Lemma iter_snoc_seq (f : nat → Z) n : Nat.iter n (λ l, l ++ [f (length l)]) [] = f <$> seq 0 n.
Proof.
  induction n as [|n IH]; [done|]. rewrite Nat.iter_succ, IH, length_fmap, length_seq, seq_S, fmap_app. done.
Qed.

Lemma load_words (from : list Z → Z) block n :
  length block = 64%nat →
  for_each (λ i w, l ← bytes_at 4 block i; store w i (from l)) (seqZ 0 16) (replicate (16 + n) 0) = Ret (block_words from block ++ replicate n 0).
Proof.
  intros Hb. rewrite replicate_add. pose proof (fill_loop (λ i w, l ← bytes_at 4 block i; store w i (from l))
    (λ l, from (take 4 (drop (length l * 4) block))) [] (replicate 16 0) (replicate n 0)) as H.
  cbn [app] in H. change (len (replicate 16 0)) with 16 in H. change (len []) with 0 in H. rewrite H.
  - by rewrite length_replicate, (iter_snoc_seq (λ i, from (take 4 (drop (i * 4) block)))).
  - intros l' x zs Hl'. rewrite length_replicate in Hl'. simpl in Hl'. rewrite bytes_at_ok by (unfold len; lia). rewrite bind_Ret, store_mid by done.
    unfold len. by rewrite Nat2Z.id.
Qed.

(** ** Machine arithmetic *)

Lemma wrap_add_l w a b : wrap w (wrap w a + b) = wrap w (a + b).
Proof. unfold wrap. apply Zplus_mod_idemp_l. Qed.

(** Inner reductions of a sum can be left out. *)
Ltac wrap_sum := repeat (rewrite wrap_add_l || rewrite <- Z.add_assoc).

(** ** SHA-256 (FIPS 180-4) *)

Module Sha256Spec.

Definition ROTR (n x : Z) : Z := rotate_right 32 x n.
Definition Ch (x y z : Z) : Z := Z.lxor (Z.land x y) (Z.land (unot 32 x) z).
Definition Maj (x y z : Z) : Z := Z.lxor (Z.lxor (Z.land x y) (Z.land x z)) (Z.land y z).
Definition Sigma0 (x : Z) : Z := Z.lxor (Z.lxor (ROTR 2 x) (ROTR 13 x)) (ROTR 22 x).
Definition Sigma1 (x : Z) : Z := Z.lxor (Z.lxor (ROTR 6 x) (ROTR 11 x)) (ROTR 25 x).
Definition sigma0 (x : Z) : Z := Z.lxor (Z.lxor (ROTR 7 x) (ROTR 18 x)) (Z.shiftr x 3).
Definition sigma1 (x : Z) : Z := Z.lxor (Z.lxor (ROTR 17 x) (ROTR 19 x)) (Z.shiftr x 10).

(** The message schedule: each word from the words before it. *)
Definition next_word (W : list Z) : Z :=
  let w j := nth (length W - j) W 0 in (sigma1 (w 2%nat) + w 7%nat + sigma0 (w 15%nat) + w 16%nat) mod 2 ^ 32.

Definition schedule (block : list Z) : list Z := Nat.iter 48 (λ W, W ++ [next_word W]) (block_words from_be_bytes block).

(** The largest [r] with [r ^ n <= x], below [2 ^ bits]. *)
Definition root (n x : Z) (bits : nat) : Z :=
  foldr (λ i r, let r' := r + 2 ^ Z.of_nat i in if r' ^ n <=? x then r' else r) 0 (seq 0 bits).

Definition primes : list Z :=
  Eval vm_compute in filter (λ p, forallb (λ d, negb (p mod d =? 0)) (seqZ 2 (p - 2)) = true) (seqZ 2 310).

(** The first 32 bits of the fractional parts of the cube roots, and of the
    square roots, of the first primes. *)
Definition K : list Z := (λ p, root 3 (p * 2 ^ 96) 40 mod 2 ^ 32) <$> primes.
Definition H0 : list Z := (λ p, root 2 (p * 2 ^ 64) 40 mod 2 ^ 32) <$> take 8 primes.

Definition round (W : list Z) (s : sha256_words) (t : Z) : sha256_words :=
  let '(a, b, c, d, e, f, g, h) := s in
  let T1 := h + Sigma1 e + Ch e f g + nth (Z.to_nat t) K 0 + nth (Z.to_nat t) W 0 in
  let T2 := Sigma0 a + Maj a b c in
  ((T1 + T2) mod 2 ^ 32, a, b, c, (d + T1) mod 2 ^ 32, e, f, g).

Definition block (H block : list Z) : list Z :=
  match H with
  | [a; b; c; d; e; f; g; h] =>
      let '(a', b', c', d', e', f', g', h') := foldl (round (schedule block)) (a, b, c, d, e, f, g, h) (seqZ 0 64) in
      (λ x, x mod 2 ^ 32) <$> [a + a'; b + b'; c + c'; d + d'; e + e'; f + f'; g + g'; h + h']
  | _ => H
  end.

End Sha256Spec.

Lemma K_is_cube_roots : sha256_K = Sha256Spec.K.
Proof. vm_compute. reflexivity. Qed.

Lemma H0_is_square_roots : sha256_H0 = Sha256Spec.H0.
Proof. vm_compute. reflexivity. Qed.

Lemma index_back l x zs :
  (16 ≤ length l)%nat → ∀ j, (0 < j ≤ 16)%nat → index (l ++ x :: zs) (len l - Z.of_nat j) = Ret (nth (length l - j) l 0).
Proof.
  intros Hl j Hj. rewrite index_nth by (rewrite len_app; unfold len; lia). f_equal. rewrite app_nth1 by (unfold len; lia). f_equal. unfold len. lia.
Qed.

Lemma sha256_expand_ok l x zs :
  (16 ≤ length l)%nat → sha256_expand (len l) (l ++ x :: zs) = Ret (l ++ Sha256Spec.next_word l :: zs).
Proof.
  intros Hl. unfold sha256_expand.
  pose proof (index_back l x zs Hl) as Hj.
  rewrite (Hj 15%nat ltac:(lia) : index _ (len l - 15) = _), (Hj 2%nat ltac:(lia) : index _ (len l - 2) = _),
    (Hj 16%nat ltac:(lia) : index _ (len l - 16) = _), (Hj 7%nat ltac:(lia) : index _ (len l - 7) = _). rewrite !bind_Ret, store_mid by done. do 3 f_equal.
  unfold Sha256Spec.next_word, Sha256Spec.sigma0, Sha256Spec.sigma1, Sha256Spec.ROTR. wrap_sum. unfold wrap. cbv zeta.
  apply (f_equal (λ z, z mod 2 ^ 32)). lia.
Qed.

Lemma sha256_schedule_ok block :
  length block = 64%nat →
  (w ← for_each (sha256_load block) (seqZ 0 16) (replicate 64 0); for_each sha256_expand (seqZ 16 48) w) = Ret (Sha256Spec.schedule block).
Proof.
  intros Hb. change (replicate 64 0) with (replicate (16 + 48) 0). unfold sha256_load. rewrite load_words by done. rewrite bind_Ret.
  pose proof (fill_loop sha256_expand Sha256Spec.next_word (block_words from_be_bytes block) (replicate 48 0) []) as H.
  rewrite !app_nil_r in H. apply H. intros l' x zs Hl'. apply sha256_expand_ok. unfold block_words in Hl'. rewrite length_fmap, length_seq in Hl'. lia.
Qed.

Lemma wrap_add_r w a b : wrap w (a + wrap w b) = wrap w (a + b).
Proof. unfold wrap. apply Zplus_mod_idemp_r. Qed.

Lemma sha256_round_ok W t s :
  sha256_round (nth (Z.to_nat t) sha256_K 0) (nth (Z.to_nat t) W 0) s = Sha256Spec.round W s t.
Proof.
  destruct s as [[[[[[[a b] c] d] e] f] g] h]. unfold sha256_round, Sha256Spec.round. rewrite K_is_cube_roots.
  fold (Sha256Spec.ROTR 6 e) (Sha256Spec.ROTR 11 e) (Sha256Spec.ROTR 25 e) (Sha256Spec.ROTR 2 a) (Sha256Spec.ROTR 13 a) (Sha256Spec.ROTR 22 a).
  fold (Sha256Spec.Sigma1 e) (Sha256Spec.Sigma0 a) (Sha256Spec.Ch e f g) (Sha256Spec.Maj a b c). cbv zeta.
  generalize (nth (Z.to_nat t) Sha256Spec.K 0), (nth (Z.to_nat t) W 0), (Sha256Spec.Sigma1 e), (Sha256Spec.Sigma0 a), (Sha256Spec.Ch e f g), (Sha256Spec.Maj a b c).
  intros k w s1 s0 ch maj.
  assert (wrap 32 (wrap 32 (wrap 32 (wrap 32 (h + s1) + ch) + k) + w) = wrap 32 (h + s1 + ch + k + w)) as -> by (by wrap_sum).
  by rewrite !wrap_add_l, !wrap_add_r.
Qed.

Lemma sha256_compress_ok H block :
  length H = 8%nat → length block = 64%nat → sha256_compress H block = Ret (Sha256Spec.block H block) ∧ length (Sha256Spec.block H block) = 8%nat.
Proof.
  intros HH Hb. pose proof (sha256_schedule_ok block Hb) as Hs. unfold sha256_compress.
  destruct (for_each (sha256_load block) _ _) as [w|]; [|done]. rewrite bind_Ret in *. rewrite Hs, bind_Ret.
  do 8 (destruct H as [|? H]; [done|]). destruct H; [|done]. unfold Sha256Spec.block.
  assert (length (Sha256Spec.schedule block) = 64%nat) as HW.
  { unfold Sha256Spec.schedule. rewrite length_iter_snoc. unfold block_words. by rewrite length_fmap, length_seq. }
  match goal with |- context [for_each ?f ?l ?s] =>
    destruct (for_each_foldl l f (Sha256Spec.round (Sha256Spec.schedule block)) (λ _, True) s) as [-> _]; [|done|] end.
  - intros t s [Ht0 Ht]%elem_of_seqZ _. split; [|done]. rewrite !index_nth by (unfold len; rewrite ?HW; simpl; lia). rewrite !bind_Ret.
    by rewrite sha256_round_ok.
  - rewrite bind_Ret. destruct (foldl _ _ _) as [[[[[[[a' b'] c'] d'] e'] f'] g'] h']. done.
Qed.

(** ** SHA-1 (FIPS 180-4) *)

Module Sha1Spec.

Definition Parity (x y z : Z) : Z := Z.lxor (Z.lxor x y) z.

Definition f (t x y z : Z) : Z :=
  if t <? 20 then Sha256Spec.Ch x y z else if t <? 40 then Parity x y z
  else if t <? 60 then Sha256Spec.Maj x y z else Parity x y z.

(** [2 ^ 30] times the square roots of 2, 3, 5 and 10. *)
Definition K (t : Z) : Z :=
  Z.sqrt (2 ^ 60 * (if t <? 20 then 2 else if t <? 40 then 3 else if t <? 60 then 5 else 10)).

Definition next_word (W : list Z) : Z :=
  let w j := nth (length W - j) W 0 in
  rotate_left 32 (Z.lxor (Z.lxor (Z.lxor (w 3%nat) (w 8%nat)) (w 14%nat)) (w 16%nat)) 1.

Definition schedule (block : list Z) : list Z := Nat.iter 64 (λ W, W ++ [next_word W]) (block_words from_be_bytes block).

Definition round (W : list Z) (s : sha1_words) (t : Z) : sha1_words :=
  let '(a, b, c, d, e) := s in
  ((rotate_left 32 a 5 + f t b c d + e + K t + nth (Z.to_nat t) W 0) mod 2 ^ 32, a, rotate_left 32 b 30, c, d).

Definition block (H block : list Z) : list Z :=
  match H with
  | [a; b; c; d; e] =>
      let '(a', b', c', d', e') := foldl (round (schedule block)) (a, b, c, d, e) (seqZ 0 80) in
      (λ x, x mod 2 ^ 32) <$> [a + a'; b + b'; c + c'; d + d'; e + e']
  | _ => H
  end.

End Sha1Spec.

Lemma unot_ldiff x : is_uint 32 x → unot 32 x = Z.ldiff (Z.ones 32) x.
Proof.
  intros [H0 H1]. unfold unot. change (2 ^ 32 - 1) with (Z.ones 32). apply Z.sub_nocarry_ldiff.
  destruct (decide (x = 0)) as [->|]; [done|]. apply Z.ldiff_ones_r_low; [done|]. apply Z.log2_lt_pow2; lia.
Qed.

Lemma choose_xor x y z : is_uint 32 x → Z.lor (Z.land x y) (Z.land (unot 32 x) z) = Sha256Spec.Ch x y z.
Proof.
  intros Hx. symmetry. apply Z.lxor_lor. rewrite (unot_ldiff x Hx). apply Z.bits_inj'. intros n Hn.
  rewrite !Z.land_spec, Z.ldiff_spec, Z.bits_0. destruct (Z.testbit x n), (Z.testbit y n), (Z.testbit z n), (Z.testbit (Z.ones 32) n); done.
Qed.

Lemma majority_xor x y z : Z.lor (Z.lor (Z.land x y) (Z.land x z)) (Z.land y z) = Sha256Spec.Maj x y z.
Proof.
  apply Z.bits_inj'. intros n Hn. unfold Sha256Spec.Maj. rewrite !Z.lor_spec, !Z.lxor_spec, !Z.land_spec.
  destruct (Z.testbit x n), (Z.testbit y n), (Z.testbit z n); done.
Qed.

Lemma sha1_expand_ok l x zs :
  (16 ≤ length l)%nat → sha1_expand (len l) (l ++ x :: zs) = Ret (l ++ Sha1Spec.next_word l :: zs).
Proof.
  intros Hl. unfold sha1_expand. pose proof (index_back l x zs Hl) as Hj.
  rewrite (Hj 3%nat ltac:(lia) : index _ (len l - 3) = _), (Hj 8%nat ltac:(lia) : index _ (len l - 8) = _),
    (Hj 14%nat ltac:(lia) : index _ (len l - 14) = _), (Hj 16%nat ltac:(lia) : index _ (len l - 16) = _).
  by rewrite !bind_Ret, store_mid.
Qed.

Lemma sha1_schedule_ok block :
  length block = 64%nat →
  (w ← for_each (sha256_load block) (seqZ 0 16) (replicate 80 0); for_each sha1_expand (seqZ 16 64) w) = Ret (Sha1Spec.schedule block).
Proof.
  intros Hb. change (replicate 80 0) with (replicate (16 + 64) 0). unfold sha256_load. rewrite load_words by done. rewrite bind_Ret.
  pose proof (fill_loop sha1_expand Sha1Spec.next_word (block_words from_be_bytes block) (replicate 64 0) []) as H.
  rewrite !app_nil_r in H. apply H. intros l' x zs Hl'. apply sha1_expand_ok. unfold block_words in Hl'. rewrite length_fmap, length_seq in Hl'. lia.
Qed.

Definition sha1_words_ok (s : sha1_words) : Prop := is_uint 32 s.1.1.1.1 ∧ is_uint 32 s.1.1.1.2.

Lemma wrap_uint x : is_uint 32 (wrap 32 x).
Proof. unfold is_uint, wrap. apply Z.mod_pos_bound. lia. Qed.

Lemma sha1_round_ok W t s :
  0 ≤ t < 80 → sha1_words_ok s →
  sha1_round t (nth (Z.to_nat t) W 0) s = Sha1Spec.round W s t ∧ sha1_words_ok (Sha1Spec.round W s t).
Proof.
  destruct s as [[[[a b] c] d] e]. intros Ht [Ha Hb]. cbn [fst snd] in *. split; [|split; [apply wrap_uint|done]].
  assert (sha1_round t (nth (Z.to_nat t) W 0) (a, b, c, d, e) =
    (wrap 32 (wrap 32 (wrap 32 (wrap 32 (rotate_left 32 a 5 + Sha1Spec.f t b c d) + e) + Sha1Spec.K t) + nth (Z.to_nat t) W 0), a, rotate_left 32 b 30, c, d)) as ->.
  { unfold sha1_round, Sha1Spec.f, Sha1Spec.K. rewrite (choose_xor b c d Hb), majority_xor.
    destruct (Z.leb_spec t 19), (Z.ltb_spec t 20); [reflexivity|lia|lia|]. destruct (Z.leb_spec t 39), (Z.ltb_spec t 40); [reflexivity|lia|lia|].
    destruct (Z.leb_spec t 59), (Z.ltb_spec t 60); [reflexivity|lia|lia|reflexivity]. }
  unfold Sha1Spec.round. generalize (rotate_left 32 a 5), (Sha1Spec.f t b c d), (Sha1Spec.K t), (nth (Z.to_nat t) W 0). intros r f k w.
  assert (wrap 32 (wrap 32 (wrap 32 (wrap 32 (r + f) + e) + k) + w) = wrap 32 (r + f + e + k + w)) as -> by (by wrap_sum). done.
Qed.

Lemma sha1_compress_ok H block :
  length H = 5%nat ∧ Forall (is_uint 32) H → length block = 64%nat →
  sha1_compress H block = Ret (Sha1Spec.block H block) ∧
    length (Sha1Spec.block H block) = 5%nat ∧ Forall (is_uint 32) (Sha1Spec.block H block).
Proof.
  intros [HH Hu] Hb. pose proof (sha1_schedule_ok block Hb) as Hs. unfold sha1_compress.
  destruct (for_each (sha256_load block) _ _) as [w|]; [|done]. rewrite bind_Ret in *. rewrite Hs, bind_Ret.
  do 5 (destruct H as [|? H]; [done|]). destruct H; [|done]. unfold Sha1Spec.block.
  assert (length (Sha1Spec.schedule block) = 80%nat) as HW.
  { unfold Sha1Spec.schedule. rewrite length_iter_snoc. unfold block_words. by rewrite length_fmap, length_seq. }
  match goal with |- context [for_each ?f ?l ?s] =>
    destruct (for_each_foldl l f (Sha1Spec.round (Sha1Spec.schedule block)) sha1_words_ok s) as [-> _] end.
  - intros t s [Ht0 Ht]%elem_of_seqZ Hok. rewrite !index_nth by (unfold len; rewrite ?HW; simpl; lia). rewrite !bind_Ret.
    destruct (sha1_round_ok (Sha1Spec.schedule block) t s) as [-> Hok']; [lia|done|]. done.
  - apply list.Forall_cons in Hu as [? Hu]. by apply list.Forall_cons in Hu as [? Hu].
  - rewrite bind_Ret. destruct (foldl _ _ _) as [[[[a' b'] c'] d'] e']. split_and!; [done|done|]. apply Forall_fmap, list.Forall_true. intros x. apply wrap_uint.
Qed.

(** ** MD5 (RFC 1321) *)

Module Md5Spec.

Definition F (x y z : Z) : Z := Z.lor (Z.land x y) (Z.land (unot 32 x) z).
Definition G (x y z : Z) : Z := Z.lor (Z.land x z) (Z.land y (unot 32 z)).
Definition H (x y z : Z) : Z := Z.lxor (Z.lxor x y) z.
Definition I (x y z : Z) : Z := Z.lxor y (Z.lor x (unot 32 z)).

(** The four rounds of sixteen operations: the function, the index of the first
    word and the distance to the next, the amounts of the shifts. *)
Definition operations_of (F G H I : Z → Z → Z → Z) : list ((Z → Z → Z → Z) * Z * Z) :=
  let ops f first step rot := (λ i, (f, (first + step * i) mod 16, nth (Z.to_nat (i mod 4)) rot 0)) <$> seqZ 0 16 in
  ops F 0 1 [7; 12; 17; 22] ++ ops G 1 5 [5; 9; 14; 20] ++ ops H 5 3 [4; 11; 16; 23] ++ ops I 0 7 [6; 10; 15; 21].
Definition operations : list ((Z → Z → Z → Z) * Z * Z) := operations_of F G H I.

(** [a = b + ((a + f(b, c, d) + X[k] + T[i]) <<< s)], then the roles rotate. *)
Definition operation (X : list Z) (s : md5_words) (o : ((Z → Z → Z → Z) * Z * Z) * Z) : md5_words :=
  let '(a, b, c, d) := s in
  let '(f, k, r, t) := o in
  (d, (b + rotate_left 32 ((a + f b c d + nth (Z.to_nat k) X 0 + t) mod 2 ^ 32) r) mod 2 ^ 32, b, c).

Definition block (A block : list Z) : list Z :=
  match A with
  | [a; b; c; d] =>
      let '(a', b', c', d') := foldl (operation (block_words from_le_bytes block)) (a, b, c, d) (zip operations md5_T) in
      (λ x, x mod 2 ^ 32) <$> [a + a'; b + b'; c + c'; d + d']
  | _ => A
  end.

End Md5Spec.

(** The function and the word of the operation [i]. *)
Definition md5_choose {A} (f g h k : A) (i : Z) : A := if i <=? 15 then f else if i <=? 31 then g else if i <=? 47 then h else k.
Definition md5_function : Z → Z → Z → Z → Z := md5_choose Md5Spec.F Md5Spec.G Md5Spec.H Md5Spec.I.
Definition md5_word (i : Z) : Z := md5_choose i ((5 * i + 1) mod 16) ((3 * i + 5) mod 16) ((7 * i) mod 16) i.
Definition md5_operation (i : Z) : ((Z → Z → Z → Z) * Z * Z) * Z :=
  (md5_function i, md5_word i, nth (Z.to_nat i) md5_S 0, nth (Z.to_nat i) md5_T 0).

Lemma md5_operations : zip Md5Spec.operations md5_T = md5_operation <$> seqZ 0 64.
Proof.
  unfold Md5Spec.operations, md5_operation, md5_function. generalize Md5Spec.F, Md5Spec.G, Md5Spec.H, Md5Spec.I. intros f g h k.
  vm_compute. reflexivity.
Qed.

Lemma md5_select_spec i b c d : md5_select i b c d = (md5_function i b c d, md5_word i).
Proof.
  unfold md5_select, md5_function, md5_word, md5_choose. destruct (i <=? 15); [done|]. destruct (i <=? 31); [|by destruct (i <=? 47)].
  unfold Md5Spec.G. by rewrite (Z.land_comm d b), (Z.land_comm c).
Qed.

Lemma md5_turn_ok X i s : len X = 16 → 0 ≤ i < 64 → md5_turn X i s = Ret (Md5Spec.operation X s (md5_operation i)).
Proof.
  intros HX Hi. destruct s as [[[a b] c] d]. unfold md5_turn. rewrite md5_select_spec. assert (0 ≤ md5_word i < 16) as Hw.
  { unfold md5_word, md5_choose. destruct (Z.leb_spec i 15); [lia|]. destruct (Z.leb_spec i 31); [apply Z.mod_pos_bound; lia|].
    destruct (Z.leb_spec i 47); apply Z.mod_pos_bound; lia. }
  rewrite !index_nth by (change (len md5_T) with 64; change (len md5_S) with 64; lia). rewrite !bind_Ret.
  unfold md5_operation, Md5Spec.operation. generalize (md5_function i b c d), (nth (Z.to_nat i) md5_T 0), (nth (Z.to_nat (md5_word i)) X 0). intros f t x.
  assert (wrap 32 (wrap 32 (wrap 32 (a + f) + t) + x) = wrap 32 (a + f + x + t)) as ->; [|done].
  wrap_sum. unfold wrap. apply (f_equal (λ z, z mod 2 ^ 32)). lia.
Qed.

Lemma md5_compress_ok A block :
  length A = 4%nat → length block = 64%nat → md5_compress A block = Ret (Md5Spec.block A block) ∧ length (Md5Spec.block A block) = 4%nat.
Proof.
  intros HA Hb. unfold md5_compress, md5_load. pose proof (load_words from_le_bytes block 0 Hb) as Hl. cbn [replicate Nat.add] in Hl. cbn [replicate].
  rewrite Hl, bind_Ret, app_nil_r. do 4 (destruct A as [|? A]; [done|]). destruct A; [|done]. unfold Md5Spec.block. set (X := block_words from_le_bytes block).
  assert (len X = 16) as HX by (unfold X, block_words, len; by rewrite length_fmap, length_seq).
  match goal with |- context [for_each ?f ?l ?s] =>
    destruct (for_each_foldl l f (λ x i, Md5Spec.operation X x (md5_operation i)) (λ _, True) s) as [-> _]; [|done|] end.
  - intros i s [Hi0 Hi]%elem_of_seqZ _. split; [|done]. apply md5_turn_ok; [done|lia].
  - rewrite bind_Ret, md5_operations, foldl_fmap. destruct (foldl _ _ _) as [[[a' b'] c'] d']. done.
Qed.
