(* ===== verification/DigestStream.v ===== *)
(** * The digests are those of the standards

    The message is padded, split into blocks of 64 bytes and folded with the block
    function. The contexts of the utilities compute the same, whatever pieces the
    file is read in; this is proved once against [BlockHashSpec], which the three
    compression functions satisfy. *)

From stdpp Require Import strings.
From S2P Require Import Prelude Loop RustStr Coreutils Digest DigestProofs.
Local Open Scope Z_scope.

(** ** The reference *)

(** The padding: a bit, zeros and the length of the message in bits. *)
Definition padding (lenbytes : Z → list Z) (n : Z) : list Z :=
  [0x80] ++ replicate (Z.to_nat ((55 - n) mod 64)) 0 ++ lenbytes (8 * n).

Definition blocks (l : list Z) : list (list Z) := reshape (replicate (length l / 64) 64%nat) l.

(** What the contexts rely on: the compression function does not panic on a block
    and computes the block function of the standard. *)
Class BlockHashSpec (h : BlockHash) := {
  spec_block : list Z → list Z → list Z;
  spec_state : list Z → Prop;
  spec_init : spec_state init_state;
  spec_compress st block : spec_state st → length block = 64%nat → compress st block = Ret (spec_block st block) ∧ spec_state (spec_block st block);
  spec_length n : length (length_bytes n) = 8%nat;
  spec_word x : Forall is_byte (word_bytes x);
}.

Definition digest `{hs : BlockHashSpec} (m : list Z) : list Z :=
  foldl spec_block init_state (blocks (m ++ padding length_bytes (len m))) ≫= word_bytes.

Definition is_block (l : list Z) : Prop := length l = 64%nat.

Lemma length_join_blocks bs : Forall is_block bs → length (mjoin bs) = (length bs * 64)%nat.
Proof. induction 1 as [|b bs Hb Hbs IH]; [done|]. change (mjoin (b :: bs)) with (b ++ mjoin bs). rewrite length_app, IH, Hb. done. Qed.

Lemma blocks_join bs : Forall is_block bs → blocks (mjoin bs) = bs.
Proof.
  intros Hbs. unfold blocks. rewrite (length_join_blocks bs Hbs), Nat.div_mul by done.
  induction Hbs as [|b bs Hb Hbs IH]; [done|]. change (mjoin (b :: bs)) with (b ++ mjoin bs). cbn [length replicate reshape].
  by rewrite take_app_length', drop_app_length', IH by done.
Qed.

Section stream.
Context `{hs : BlockHashSpec} `{BuildProfile}.

(** [bs] are compressed, [rest] is in the buffer. *)
Record collected (c : Context_) (bs : list (list Z)) (rest : list Z) : Prop := {
  cl_blocks : Forall is_block bs;
  cl_rest : len rest = buf_len c;
  cl_short : len rest < 64;
  cl_buf : len (buf c) = 64;
  cl_prefix : take (length rest) (buf c) = rest;
  cl_state : state c = foldl spec_block init_state bs;
  cl_ok : spec_state (state c);
  cl_total : total_len c = len (mjoin bs ++ rest);
}.

Lemma new_collected : collected new [] [].
Proof. split; try done. apply spec_init. Qed.

Lemma update_byte_ok byte c bs rest :
  collected c bs rest → len (mjoin bs ++ rest) < 2 ^ 64 - 1 →
  ∃ c' bs' rest', update_byte byte c = Ret c' ∧ collected c' bs' rest' ∧ mjoin bs' ++ rest' = (mjoin bs ++ rest) ++ [byte].
Proof.
  intros [Hbs Hr Hs Hb Hp Hst Hok Ht] Hl. unfold update_byte. pose proof (Zle_0_nat (length rest)) as H0. fold (len rest) in H0.
  rewrite store_ok by lia. rewrite bind_Ret, !add64_ok by (unfold is_uint; unfold len in *; lia). rewrite !bind_Ret, <- Hr, Ht.
  set (b := <[Z.to_nat (len rest):=byte]> (buf c)). assert (length b = 64%nat) as Hbl by (unfold b, len in *; rewrite length_insert; lia).
  assert (take (length (rest ++ [byte])) b = rest ++ [byte]) as Hpre.
  { rewrite length_app. cbn [length]. rewrite Nat.add_1_r. unfold b, len. rewrite Nat2Z.id. rewrite (take_S_r _ _ byte).
    - by rewrite take_insert_ge, Hp by lia.
    - apply list_lookup_insert_eq. unfold len in *. lia. }
  assert (len (rest ++ [byte]) = len rest + 1) as Hlen by (rewrite len_app; done). destruct (Z.eqb_spec (len rest + 1) 64) as [Hfull|Hmore].
  - assert (b = rest ++ [byte]) as Hbe. { rewrite <- Hpre. rewrite firstn_all2; [done|]. unfold len in *. lia. }
    destruct (spec_compress (state c) b Hok Hbl) as [-> Hok']. rewrite bind_Ret. eexists _, (bs ++ [b]), []. split; [reflexivity|].
    split; [|rewrite join_app; cbn; by rewrite !app_nil_r, Hbe, (assoc_L app)].
    split; cbn [state buf buf_len total_len]; try done.
    + apply list.Forall_app. by split; [|constructor].
    + unfold len. lia.
    + by rewrite foldl_app, <- Hst.
    + rewrite app_nil_r, join_app. cbn. rewrite app_nil_r, Hbe, !len_app. unfold len at 5. simpl. lia.
  - eexists _, bs, (rest ++ [byte]). split; [reflexivity|]. split; [|by rewrite (assoc_L app)].
    split; cbn [state buf buf_len total_len]; try done; [lia|unfold len; lia|]. rewrite !len_app. unfold len at 5. simpl. lia.
Qed.

Lemma update_collected data c bs rest :
  collected c bs rest → len (mjoin bs ++ rest) + len data < 2 ^ 64 →
  ∃ c' bs' rest', update data c = Ret c' ∧ collected c' bs' rest' ∧ mjoin bs' ++ rest' = (mjoin bs ++ rest) ++ data.
Proof.
  unfold update. revert c bs rest. induction data as [|byte data IH]; intros c bs rest Hc Hl; cbn [for_each].
  { exists c, bs, rest. by rewrite app_nil_r. }
  rewrite len_cons in Hl. destruct (update_byte_ok byte c bs rest Hc) as (c1 & bs1 & rest1 & -> & Hc1 & E1); [unfold len in *; lia|]. rewrite bind_Ret.
  destruct (IH c1 bs1 rest1 Hc1) as (c2 & bs2 & rest2 & -> & Hc2 & E2); [rewrite E1, len_app; change (len [byte]) with 1; lia|].
  exists c2, bs2, rest2. rewrite E2, E1, <- (assoc_L app). done.
Qed.

Lemma digest_loop_ok chunks c bs rest :
  Forall (λ x, x ≠ []) chunks → collected c bs rest → len (mjoin bs ++ rest) + len (mjoin chunks) < 2 ^ 64 →
  ∃ c' bs' rest', digest_loop chunks c = Ret c' ∧ collected c' bs' rest' ∧ mjoin bs' ++ rest' = (mjoin bs ++ rest) ++ mjoin chunks.
Proof.
  intros Hne. revert c bs rest. induction Hne as [|chunk chunks Hx Hne IH]; intros c bs rest Hc Hl; cbn [digest_loop].
  { exists c, bs, rest. cbn. by rewrite app_nil_r. }
  change (mjoin (chunk :: chunks)) with (chunk ++ mjoin chunks) in *. rewrite (len_app chunk) in Hl.
  rewrite (proj2 (Z.eqb_neq (len chunk) 0)) by (destruct chunk; [done|rewrite len_cons; unfold len; lia]).
  destruct (update_collected chunk c bs rest Hc) as (c1 & bs1 & rest1 & -> & Hc1 & E1); [unfold len in *; lia|]. rewrite bind_Ret.
  destruct (IH c1 bs1 rest1 Hc1) as (c2 & bs2 & rest2 & -> & Hc2 & E2); [rewrite E1, len_app; lia|].
  exists c2, bs2, rest2. rewrite E2, E1, <- (assoc_L app). done.
Qed.

(** ** The last blocks *)

Lemma clear_buf_ok b from upto :
  0 ≤ from ≤ upto → upto ≤ len b →
  clear_buf b from upto = Ret (take (Z.to_nat from) b ++ replicate (Z.to_nat (upto - from)) 0 ++ drop (Z.to_nat upto) b).
Proof.
  intros Hf Hu. unfold clear_buf. unfold len in Hu.
  assert (b = take (Z.to_nat from) b ++ take (Z.to_nat (upto - from)) (drop (Z.to_nat from) b) ++ drop (Z.to_nat upto) b) as E.
  { replace (Z.to_nat upto) with (Z.to_nat from + Z.to_nat (upto - from))%nat by lia. by rewrite <- drop_drop, take_drop, take_drop. }
  set (p := take (Z.to_nat from) b) in *. set (m := take _ (drop _ b)) in *.
  assert (len p = from) as Hp by (unfold len, p; rewrite length_take; lia).
  assert (len m = upto - from) as Hm by (unfold len, m; rewrite length_take, length_drop; lia).
  pose proof (fill_loop (λ i b, store b i 0) (λ _, 0) p m (drop (Z.to_nat upto) b)) as H1. rewrite <- E, Hp, Hm in H1. rewrite H1.
  - f_equal. rewrite (assoc_L app). f_equal. unfold len in Hm. replace (Z.to_nat (upto - from)) with (length m) by lia.
    clear. induction (length m) as [|n IH]; [by rewrite app_nil_r|]. rewrite Nat.iter_succ, IH, <- (assoc_L app). f_equal. by rewrite <- replicate_S_end.
  - intros l' x zs _. by apply store_mid.
Qed.

(** The block that ends with the length. *)
Lemma last_block_ok b p n bits :
  len b = 64 → p = take (Z.to_nat n) b → 0 ≤ n ≤ 56 →
  (∃ b', clear_buf b n 56 = Ret b' ∧ copy_into b' 56 64 (length_bytes bits) = Ret (p ++ replicate (Z.to_nat (56 - n)) 0 ++ length_bytes bits)) ∧
  is_block (p ++ replicate (Z.to_nat (56 - n)) 0 ++ length_bytes bits).
Proof.
  intros Hb -> Hn. unfold len in Hb. rewrite clear_buf_ok by (unfold len; lia).
  assert (length (take (Z.to_nat n) b ++ replicate (Z.to_nat (56 - n)) 0) = 56%nat) as Hl by (rewrite length_app, length_take, length_replicate; lia).
  pose proof (spec_length bits) as H8. split.
  - eexists. split; [reflexivity|]. rewrite copy_into_ok; [|lia|rewrite (assoc_L app), len_app; unfold len; rewrite Hl, length_drop; lia|unfold len; rewrite H8; lia].
    rewrite !(assoc_L app). rewrite take_app_length' by (rewrite Hl; lia). f_equal. rewrite drop_ge; [by rewrite app_nil_r|].
    rewrite length_app, Hl, length_drop. lia.
  - unfold is_block. rewrite (assoc_L app), length_app, Hl, H8. done.
Qed.

Lemma digest_blocks m bs : Forall is_block bs → m ++ padding length_bytes (len m) = mjoin bs → digest m = foldl spec_block init_state bs ≫= word_bytes.
Proof. intros Hbs E. unfold digest. by rewrite E, blocks_join. Qed.

Lemma padding_mod r q : padding length_bytes (q * 64 + r) = [0x80] ++ replicate (Z.to_nat ((55 - r) mod 64)) 0 ++ length_bytes (8 * (q * 64 + r)).
Proof. unfold padding. replace (55 - (q * 64 + r)) with (55 - r + (- q) * 64) by lia. by rewrite Z.mod_add. Qed.

Lemma finalize_ok c bs rest :
  collected c bs rest → len (mjoin bs ++ rest) < 2 ^ 61 → finalize c = Ret (digest (mjoin bs ++ rest)).
Proof.
  intros [Hbs Hr Hs Hb Hp Hst Hok Ht] Hl. unfold finalize. pose proof (Zle_0_nat (length rest)) as H0. fold (len rest) in H0.
  assert (len (mjoin bs ++ rest) = len bs * 64 + len rest) as Hm by (rewrite len_app; unfold len at 1; rewrite (length_join_blocks bs Hbs); unfold len; lia).
  assert (∃ x t, buf c = (rest ++ [x]) ++ t) as (x & t & Hbuf).
  { destruct (lookup_lt_is_Some_2 (buf c) (length rest)) as [x Hx]; [unfold len in *; lia|]. exists x, (drop (S (length rest)) (buf c)).
    rewrite <- Hp at 1. by rewrite <- (take_S_r _ _ _ Hx), take_drop. }
  rewrite mul64_ok by (unfold is_uint; unfold len in *; lia). rewrite bind_Ret, <- Hr, Hbuf, <- (assoc_L app). cbn [app].
  rewrite store_mid, bind_Ret, add64_ok by (done || unfold is_uint; lia). rewrite bind_Ret, cons_middle, (assoc_L app).
  set (p := rest ++ [0x80]). assert (len p = len rest + 1) as Hlp by (unfold p; rewrite len_app; done).
  assert (len (p ++ t) = 64) as Hpt by (rewrite len_app, Hlp; rewrite Hbuf, !len_app in Hb; change (len [x]) with 1 in Hb; lia).
  assert (take (Z.to_nat (len rest + 1)) (p ++ t) = p) as Htk by (apply take_app_length'; unfold len in *; lia).
  destruct (Z.ltb_spec 56 (len rest + 1)) as [Hlong|Hshort].
  - set (b1 := p ++ replicate (Z.to_nat (64 - (len rest + 1))) 0). assert (is_block b1) as Hb1.
    { unfold is_block, b1. rewrite length_app, length_replicate. unfold len in *. lia. }
    rewrite clear_buf_ok by lia. rewrite bind_Ret, Htk, (drop_ge (p ++ t)) by (unfold len in *; lia). rewrite app_nil_r. fold b1.
    destruct (spec_compress (state c) b1 Hok Hb1) as [-> Hok1]. rewrite !bind_Ret.
    destruct (last_block_ok b1 [] 0 (len (mjoin bs ++ rest) * 8)) as [(b' & E1 & E2) Hb2]; [unfold len; by rewrite Hb1|done|lia|].
    rewrite Ht, E1, bind_Ret, E2, bind_Ret. destruct (spec_compress _ _ Hok1 Hb2) as [-> _]. rewrite bind_Ret. f_equal. symmetry.
    rewrite (digest_blocks _ (bs ++ [b1; [] ++ replicate (Z.to_nat (56 - 0)) 0 ++ length_bytes (len (mjoin bs ++ rest) * 8)])).
    + by rewrite foldl_app, <- Hst.
    + apply list.Forall_app. split; [done|]. by repeat constructor.
    + rewrite Hm, padding_mod, join_app, Z.mul_comm. replace ((55 - len rest) mod 64) with ((64 - (len rest + 1)) + (56 - 0)).
      2: { rewrite <- (Z.mod_add (55 - len rest) 1) by lia. rewrite Z.mod_small by lia. lia. }
      rewrite Z2Nat.inj_add, replicate_add by lia. unfold b1, p. cbn. by rewrite app_nil_r, <- !(assoc_L app).
  - destruct (last_block_ok (p ++ t) p (len rest + 1) (len (mjoin bs ++ rest) * 8)) as [(b' & E1 & E2) Hb2]; [done|done|lia|].
    rewrite bind_Ret, Ht, E1, bind_Ret, E2, bind_Ret. destruct (spec_compress _ _ Hok Hb2) as [-> _]. rewrite bind_Ret. f_equal. symmetry.
    rewrite (digest_blocks _ (bs ++ [p ++ replicate (Z.to_nat (56 - (len rest + 1))) 0 ++ length_bytes (len (mjoin bs ++ rest) * 8)])).
    + by rewrite foldl_app, <- Hst.
    + apply list.Forall_app. split; [done|]. by repeat constructor.
    + rewrite Hm, padding_mod, join_app, Z.mul_comm, Z.mod_small by lia. unfold p. cbn. rewrite app_nil_r, <- !(assoc_L app).
      by replace (56 - (len rest + 1)) with (55 - len rest) by lia.
Qed.

(** The sum of a file is the digest of its contents in hexadecimal digits. *)
Definition hex (l : list Z) : list Z := l ≫= λ b, [nth (Z.to_nat (b `div` 16)) HEX 0; nth (Z.to_nat (b mod 16)) HEX 0].

Lemma hex_ascii i : 0 ≤ i < 16 → nth (Z.to_nat i) HEX 0 < 128.
Proof.
  intros Hi. destruct (index_ok HEX i) as (x & Hx & Hin); [done|]. rewrite index_nth in Hx by done.
  assert (nth (Z.to_nat i) HEX 0 = x) as -> by congruence.
  assert (Forall (λ x, x < 128) HEX) as Hall by (repeat constructor). rewrite list.Forall_forall in Hall. by apply Hall.
Qed.

Lemma hex_pair_ok b : is_byte b → hex_pair b = Ret [nth (Z.to_nat (b `div` 16)) HEX 0; nth (Z.to_nat (b mod 16)) HEX 0].
Proof.
  intros [Hb0 Hb1]. unfold hex_pair. rewrite Z.shiftr_div_pow2 by lia. change (2 ^ 4) with 16. change 0x0F with (Z.ones 4). rewrite Z.land_ones by lia. change (2 ^ 4) with 16.
  pose proof (Z.div_mod b 16 ltac:(lia)). pose proof (Z.mod_pos_bound b 16 ltac:(lia)). assert (0 ≤ b `div` 16 < 16) as Hd by lia.
  rewrite !index_nth by (change (len HEX) with 16; lia). rewrite !bind_Ret. unfold stdout_utf8. cbn [utf8_valid].
  by rewrite !(proj2 (Z.ltb_lt _ 128)) by (apply hex_ascii; lia).
Qed.

Lemma print_hash_ok l : Forall is_byte l → print_hash l = Ret (hex l).
Proof.
  intros Hl. unfold print_hash, hex.
  assert (outcome_map hex_pair l = Ret ((λ b, [nth (Z.to_nat (b `div` 16)) HEX 0; nth (Z.to_nat (b mod 16)) HEX 0]) <$> l)) as ->.
  { induction Hl as [|b l Hb Hl IH]; [done|]. cbn [outcome_map]. by rewrite hex_pair_ok, bind_Ret, IH. }
  rewrite bind_Ret. clear. f_equal. induction l as [|b l IH]; [done|]. cbn. f_equal. f_equal. exact IH.
Qed.

(** What the utilities print. *)
Lemma sum_file_ok path chunks :
  Forall (λ x, x ≠ []) chunks → len (mjoin chunks) < 2 ^ 61 →
  sum_file path chunks = Ret (hex (digest (mjoin chunks)) ++ [SPACE; SPACE] ++ path ++ [NEWLINE]).
Proof.
  intros Hne Hl. unfold sum_file. destruct (digest_loop_ok chunks new [] [] Hne new_collected) as (c & bs & rest & -> & Hc & E); [change (len (mjoin ([] : list (list Z)) ++ [])) with 0; lia|].
  cbn [app mjoin list_join] in E. rewrite bind_Ret, (finalize_ok c bs rest Hc), E by (by rewrite E). rewrite bind_Ret, print_hash_ok; [done|].
  unfold digest. apply Forall_bind, list.Forall_true. apply spec_word.
Qed.

End stream.

(** ** The three hash functions *)

Lemma le_byte_range n x : Forall is_byte (to_le_bytes n x).
Proof.
  apply Forall_fmap, list.Forall_true. intros i. cbn. change 0xFF with (Z.ones 8). rewrite Z.land_ones by lia. unfold is_byte, is_uint.
  apply Z.mod_pos_bound. lia.
Qed.

Lemma be_byte_range n x : Forall is_byte (to_be_bytes n x).
Proof. apply Forall_reverse, le_byte_range. Qed.

#[export] Instance sha256_spec : BlockHashSpec sha256.
Proof.
  refine {| spec_block := Sha256Spec.block; spec_state st := length st = 8%nat |};
    [done|exact sha256_compress_ok|done|apply be_byte_range].
Defined.

#[export] Instance sha1_spec : BlockHashSpec sha1.
Proof.
  refine {| spec_block := Sha1Spec.block; spec_state st := length st = 5%nat ∧ Forall (is_uint 32) st |};
    [|exact sha1_compress_ok|done|apply be_byte_range].
  split; [done|]. repeat constructor; unfold is_uint; lia.
Defined.

#[export] Instance md5_spec : BlockHashSpec md5.
Proof.
  refine {| spec_block := Md5Spec.block; spec_state st := length st = 4%nat |};
    [done|exact md5_compress_ok|done|apply le_byte_range].
Defined.

Section digests.
Context `{BuildProfile}.


End digests.

Section instances.
#[local] Existing Instance dev_profile.

(** The 56 bytes of the second test vector of FIPS 180, in two pieces. *)
Definition vector : list (list Z) := [str "abcdbcdecdefdefgefghfghig"; str "hijhijkijkljklmklmnlmnomnopnopq"].


(** The digests that the standards give for it. *)
Example vector_digests :
  hex (digest (hs := sha256_spec) (mjoin vector)) = str "248d6a61d20638b8e5c026930c3e6039a33ce45964ff2167f6ecedd419db06c1" ∧
  hex (digest (hs := sha1_spec) (mjoin vector)) = str "84983e441c3bd26ebaae4aa1f95129e5e54670f1" ∧
  hex (digest (hs := md5_spec) (str "abc")) = str "900150983cd24fb0d6963f7d28e17f72".
Proof. split_and!; vm_compute; reflexivity. Qed.

End instances.
